(* ===== verification/_CoqProject ===== *)
-Q . S2P
Prelude.v
Align.v
FlatMap.v
Ranges.v
Ring.v
RingSpsc.v
BitAlloc.v
RangeAlloc.v
Messages.v
Layout.v
Channel.v
Kernel.v
SubAlloc.v
Shmem.v
MemBlocks.v
MemMap.v
Usm.v
ClientContext.v
ModuleCache.v
QueueGroups.v
Spectacles.v
EventTrackers.v
ClientThread.v
ClientSession.v
RpcThread.v
KernelArgs.v
PropertiesCache.v
Barriers.v
RefCounts.v
PageFaults.v
Transfers.v
StagingAreas.v
PNext.v
Tracing.v
MallocOverride.v
ClientPlatform.v
HostPointers.v
IpcHandles.v
EventState.v
BufferRecycler.v
InfoCache.v
AdaptiveWait.v
Text.v
MappedBuffers.v
DeviceFilter.v
Callbacks.v
