(* ===== verification/Prelude.v ===== *)
(** * Compute Aggregation Layer: a verification development of its core

    The Compute Aggregation Layer lets many client processes share one GPU driver.  The
    client links a stand-in for the driver (client/icd), which marshals each API call into
    a message; a service process executes the call with the real driver and answers.  The
    two sides meet in three places:

    - a socket, over which a client sends control messages (shared/control_messages.h,
      shared/ipc.h) and a thread of the service answers them (service/service.h);
    - a channel in shared memory (shared/rpc.h): a ring of commands, completion stamps and
      heaps for messages, laid out by the client, checked and served by the service;
    - memory that both map: shared memory files (shared/shmem.h) handed out by allocators
      (shared/allocators.h, shared/allocators.cpp), and an address range for unified shared
      memory that both sides reserve at the same place (shared/usm.cpp).

    ** What is modelled where

    Each file translates one part; its definitions keep the names of the code.

    - Prelude.v (this file): results of C++ code, machine words, tactics.
    - Align.v: bit tricks, alignment, pointer arithmetic (shared/utils.h).
    - Ranges.v: address ranges and partitioned ranges with sub-ranges (shared/utils.h).
    - Ring.v: the lock-free ring [TypedRing] and [submitCommand] as functions (shared/rpc.h).
    - RingSpsc.v: [submitCommand] as a producer next to one consumer, a step relation over
      their loads and stores with a store buffer per side (shared/rpc.h).
    - BitAlloc.v: bit and tag allocators, with the lock-free word of
      [StaticLengthBitAllocator] as a step relation (shared/allocators.h).
    - RangeAlloc.v: linear, range and address allocators (shared/allocators.h, .cpp).
    - Messages.v: control messages and their validation (shared/control_messages.h).
    - Layout.v: layout of the channel, chosen by the client and checked by the service.
    - Channel.v: both ends of the channel: heaps, stamps, synchronous and asynchronous
      calls, waiting (shared/rpc.h).
    - Kernel.v, MemMap.v: the system calls as classes of operations, with the laws the code
      relies on (what mmap, shm_open and their companions document) and small kernels that
      satisfy them.
    - SubAlloc.v: sub-allocators, allocators that map files, arenas (shared/allocators.h).
    - Shmem.v: shared memory files, their import, the import of client heaps
      (shared/shmem.h).
    - MemBlocks.v: blocks of client memory in shared memory and the transfers that keep them
      up to date (shared/shmem.h).
    - Usm.v: the negotiation of the USM range, each side as a program with sends and
      receives, the two together as a step relation over two queues (shared/usm.cpp).
    - ClientContext.v: what the service keeps for a client, its cleanup, and the handler of
      zeMemAllocHost (service/service.h, service/service.cpp).
    - ModuleCache.v: the cache of native binaries and the handler of zeModuleCreate.
    - QueueGroups.v: command queue groups and the round robin over engines.
    - Spectacles.v: the assignment of clients to spectacles, over the interface of
      choreographies (service/cochoreographer.h).
    - ClientThread.v: the thread of a client: prologue, handshake, main loop, every
      request and the cleanup, as a program over a connection.  It composes Usm.v,
      Shmem.v, SubAlloc.v, Layout.v, ClientContext.v and Spectacles.v.
    - ClientSession.v: the sessions of that thread that end by returning, without a crash and
      without a message that is read as another kind.
    - FlatMap.v: ordered maps kept in a vector, as several components use them.
    - EventTrackers.v: the events that the service puts behind copies into client memory,
      the pending copies and the handlers that start, poll and end them (service/level_zero,
      service/service.cpp).  It composes MemBlocks.v, Channel.v and an interface of the driver.
    - KernelArgs.v, PropertiesCache.v: what the client answers from caches instead of asking
      the service: kernel arguments, group sizes, object properties (client/icd).
    - Transfers.v: the memory that a command list needs, its way into shared memory before
      execution and the way of finished copies back (client/icd/level_zero,
      client/client_platform.h).  It composes MemBlocks.v, Shmem.v, Channel.v, EventTrackers.v.
    - StagingAreas.v: areas that stand in for memory of the application in commands of
      immediate lists, and what the lists keep of them (shared/staging_area_manager.h,
      client/icd/level_zero).
    - PNext.v: lists of extension structures in messages (shared/l0_opaque_list_serialization.h),
      with the code generated for zeDeviceGetProperties (generated/cached).
    - Tracing.v: tracers and the arrays of their callbacks (client/icd/level_zero/tracing).
    - MallocOverride.v: the shared heap behind malloc (client/client_malloc_override).
    - ClientPlatform.v: what the client knows of addresses and allocations, the tests on pointers,
      and the functions that allocate and free (client/client_platform.h, client/icd).  It composes
      Kernel.v, Shmem.v, PageFaults.v and MallocOverride.v.
    - HostPointers.v: host pointers that the application imported (client/icd/level_zero/logic).
    - IpcHandles.v: descriptors in IPC handles and their translation
      (client/icd/level_zero/api_customization/icd_level_zero_ipc_helpers.h).
    - EventState.v: what the client remembers of an event, beside the event
      (client/icd/level_zero/icd_level_zero.h).
    - BufferRecycler.v, InfoCache.v: released OpenCL buffers that are handed out again, and the
      cache of object information (client/icd/icd_ocl.h, icd_ocl.cpp).
    - MappedBuffers.v: host pointers of mapped OpenCL buffers (client/icd/icd_ocl.cpp).
    - DeviceFilter.v: the devices that ZE_AFFINITY_MASK selects (client/icd/level_zero).
    - Callbacks.v: callbacks of OpenCL applications, from the driver over the ring of Ring.v to
      the client's thread (service/service.cpp, client/icd/icd_ocl.cpp).
    - Text.v: numbers in paths, joined strings, the environment (shared/utils.cpp).
    - AdaptiveWait.v: waiting with a timeout (shared/synchronization.h).
    - PageFaults.v: the page fault manager of the client and what command lists and queues
      move to the device, over an interface of page protection (client/icd).
    - Barriers.v, RefCounts.v: the two-sided barrier with its semaphores, and reference
      counts of API objects (shared/barrier.h, shared/ref_counted.h).
    - RpcThread.v: the thread of a channel with the dispatch of commands, and the batch lock
      that the threads of all channels share.

    ** How the code becomes definitions

    A w-bit unsigned integer is a [Z] followed by its wrap-around ([u64], [u32]); pointers
    are 64-bit words and a null pointer is 0; a C++ enumeration is an inductive type and a
    class a record.  A function that can abort or run into undefined behaviour has a result
    in [res], so that a theorem that ends in [m ⇓ a] says that the code returns.  A hash map
    is a [gmap] and an ordered map a sorted list.  Objects that are shared are passed along:
    the kernel and the one allocator of shared memory files form the [World] of
    ClientContext.v.  A class of allocators is a type class ([UnderlyingAllocator] with
    [AllocatorLaws]): arenas are proved over the interface, and the mapping allocators and
    the file allocator discharge it.

    Loops that are not structural get fuel.  The binary search of Ranges.v gets the length
    of the list and the removal of sub-ranges the height of the tree, and both are proved to
    be enough; the negotiation of Usm.v gets one more than the 64 tries of the code; the doubling of
    MallocOverride.v gets 64 rounds, after which nothing of a 64-bit size is left; the
    loops of ClientThread.v get one turn more than there are messages, which is proved to be
    enough for clients that do not ping in the middle of a session, and never enough for
    those that do; the release of references gets the number of objects, and the loop of
    Transfers.v one turn more than there are transfers in the ring, both proved to be enough;
    the walks of PNext.v need one more than the list has elements; the polling of AdaptiveWait.v
    needs two rounds more than the timeout has milliseconds; the buckets of BufferRecycler.v
    are twelve doublings; the digits of Text.v get 64 rounds, and use 13; the fuel of HostPointers.v is the
    depth of the stack, which no amount is enough for.

    Interleavings are explicit where the code has them: RingSpsc.v, BitAlloc.v, Barriers.v and Tracing.v have
    a step for each atomic access or locked part, RpcThread.v one for each acquisition of the lock and each command;
    the arenas of SubAlloc.v and the importer of Shmem.v take what other threads do between
    two locked parts as an argument; in QueueGroups.v the value that is read before the lock
    is an argument of the part under the lock.  RingSpsc.v and Tracing.v have store
    buffers; the other files take accesses in the order of the program.  The buffers of
    RingSpsc.v are emptied in order, which is what x86 does with the relaxed stores of the
    code; what a weaker order allows is shown at its end.  Channel.v runs the service in turns
    between the client's looks at a stamp.  Usm.v proves that the steps of the two sides
    commute, so that all interleavings end alike.

    ** What the theorems show

    The numbers are those of the theorems' comments.

    - The ring delivers every command once and in order in every interleaving
      (C1) and refines a bounded queue (C2); submitting
      succeeds after at most one wait when the batch leaves two slots free
      (C6), and stores behind the ring when it does not
      ([submitCommand_full_batch_overflows]).
    - Allocators hand out aligned, disjoint parts of their ranges and give them back
      exactly: ranges in histories of one alignment (C3, [RangeAllocator_free_roundtrip]), sub-ranges (C4, [getSubRangesDiffFrom_gaps], [insertSubRange_adds], [range_queries_correct]), the lock-free word (C5),
      arenas beside other threads (C9, [ArenaAllocator_free_returns_range]).
    - Channels: what the client lays out is accepted, what is accepted lies inside the
      memory without overlap (C8, [isInBounds_sound]); a command arrives at the service as it was
      written ([command_arrives]) and resetting the command heap is safe (C7).
    - Shared memory: identifiers, descriptors and mappings are accounted for (C10, [MallocShmemImporter_import_correct],
      [ShmemAllocator_allocate_correct]), and registered client memory is covered by blocks and transfers (C11, [registered_range_has_transfers]).
    - The negotiation of the USM range terminates and both sides agree (C14, [usm_negotiation_terminates]), unless
      the kernel refuses an address and then chooses it ([refused_address_splits]), and
      exactly what was reserved in vain is unmapped ([cleanup_unmaps_exactly]).
    - The thread of a client returns and leaves the service as it was (C15), hands out memory
      that can be launched as a channel ([serviceAllocateShmem_outcome]), but answers pings of the main loop for ever
      (C16) and crashes on an exhausted heap ([exhausted_heap_crashes]).
    - The context of a client: host allocations ([zeMemAllocHost_outcome]), the cleanup ([cleanup_outcome]) and the handles
      that are never destroyed ([tracked_handles_never_destroyed]).
    - The module cache answers like a search of the earlier requests (C17); queue
      descriptions stay in range ([overrideCommandQueueDesc_in_range]) and the groups are well-formed (C18); spectacles are
      not lost ([assignToSpectacle_keeps]), up to two hazards ([assignToSpectacle_hazards]).
    - A channel answers every command (C19); batches are isolated (C20), and an abandoned
      batch blocks the service ([stopped_owner_blocks]).
    - Copies into client memory never share an event (C21) and are reported once
      ([updateHostptrCopies_reports]), but an empty one aborts the service ([empty_copy_aborts_service]).
    - What the client has is what the service reads, and back: the chunks of a command list
      ([registerMemoryToWrite_adds]), their bytes in the shared files (C12), and finished copies in the
      memory of the program (C13).  Staging areas have one user (C29), and a
      staged copy sends what the application has ([staged_copy_sends_current_data]), but for areas that are reused ([reused_area_is_stale]).
      Imported host pointers are a map from bases to sizes (C30).
      A list of extensions fits its message (C31), is seen by the service
      ([service_sees_the_list]) and comes back (C32), but for the gaps at the end of PNext.v.
    - The tests on pointers are exact (C36), freeing undoes allocating ([freeing_undoes_allocating]) but for
      one function ([blocking_free_stays_registered]), and imports of pointers that the service can reach never return
      ([shared_pointers_exhaust_the_stack]).
    - Descriptors of IPC handles are counted (C37) and handles come back ([handles_come_back]), except for
      those at the end of IpcHandles.v ([mixed_handles_relock]).
    - What the client remembers of events is true in orderly histories (C38, [timely_timestamps_are_true]),
      and not in others ([signaled_by_host_is_not_reset]).
    - A mask shows the devices that it names (C39, [mask_shows_selected_subdevices]), unless a question
      fails ([failed_question_drops_mask]) or its text is odd, see the end of DeviceFilter.v.
    - Callbacks are called once each, wait, or are lost to a full ring (C40,
      [full_ring_loses_callback]); a wait that returns in vain ends the thread that takes them
      ([empty_wait_ends_handler]), and requests without user data are not covered
      ([building_without_data_reads_null]).
    - Tracers are not destroyed under their calls, given a fence that the code lacks
      (C33, [relaxed_store_allows_use_after_free]); a traced call sees one snapshot
      ([traced_call_sees_enabled]), and destroying ends ([destroy_completes]).
    - Blocks of the shared heap are aligned, mapped and disjoint, in every history without realloc
      ([mallocNoFallback_correct], C34, [free_correct]), and mean the same bytes in the service
      ([remote_addresses_match]); realloc is right only for shrinking ([realloc_shrinks]), see the end of MallocOverride.v.
    - A recycled OpenCL buffer has one user (C35) and is the best fit ([recycled_buffer_is_best]),
      but keeps its context alive ([recycling_keeps_context]) and may be stale ([matching_pointer_is_not_written]).
    - Mapped memory comes back ([mapped_memory_roundtrip]), but for what an earlier mapping wrote
      ([second_map_loses_writes]); numbers in paths come back ([path_numbers_roundtrip]).
    - Waiting with a timeout ends and tells the truth ([wait_returns]), and its direct wait stays in
      bounds ([adapted_time_bounded]).
    - Pages are protected exactly when their allocation is at the device (C27), accesses
      complete (C28), and execution moves what it uses ([executed_allocations_at_device]).
    - The barrier opens only when all have entered, and does open (C23, C24), unless a
      user died ([dead_user_blocks_lead]); its semaphore loses no wake-up (C25).  References are counted
      exactly (C26).
    - The client's caches are transparent (C22, [cached_properties_are_current], [cached_info_is_current]) for applications that keep to
      the usual order and services that accept, and not for others ([value_after_null_is_not_sent], [refused_argument_is_cached], [short_query_overflows]).

    Theorems without a number support these or show further behaviour, such as the effects
    of a wrapped capacity in Layout.v or of an over-aligned request in SubAlloc.v.

    ** What is not modelled

    Generated marshalling code (generated/), tests and third-party headers; input and output
    itself (sockets, logging, /proc); the loading of drivers.  GPU drivers
    are parameters.  Memory contents are modelled only where the code decides on them
    (stamps, ring entries, headers), in Transfers.v, where a mapping of a file shares the
    file's bytes, in PNext.v and in MappedBuffers.v.  In ClientThread.v a message that is received with the
    size of another kind ends the description ([Torn]).  The module cache takes the driver
    as a function of its arguments.

    Not modelled for lack of a faithful source: what GPU drivers, the loader and the kernel decide. *)

From Stdlib Require Export ZArith Lia List Bool.
From stdpp Require Export base option.
From stdpp Require Export list.

#[export] Set Default Goal Selector "!".
Global Open Scope Z_scope.

(** * Results of C++ code

    A C++ function returns, or the process aborts ([Utils::signalAbort],
    [std::abort]), or the execution is undefined (for example [begin()] of an
    empty [std::vector] is dereferenced).  The three outcomes are kept apart. *)

Inductive res (A : Type) : Type :=
| Ret (a : A)
| Abort
| Undef.
Arguments Ret {A} a.
Arguments Abort {A}.
Arguments Undef {A}.

#[export] Instance res_ret : MRet res := @Ret.
#[export] Instance res_bind : MBind res := fun _ _ f m =>
  match m with
  | Ret a => f a
  | Abort => Abort
  | Undef => Undef
  end.

Declare Scope cal_scope.
Delimit Scope cal_scope with cal.
Global Open Scope cal_scope.
(** [m ⇓ a]: the code returns, with value [a]. *)
Notation "m ⇓ a" := (m = Ret a) (at level 70, no associativity) : cal_scope.

Lemma res_bind_Ret {A B} (m : res A) (f : A -> res B) b :
  (m ≫= f) ⇓ b <-> exists a, m ⇓ a /\ f a ⇓ b.
Proof.
  destruct m as [a| |]; simpl; split; try discriminate.
  - intros H. by exists a.
  - intros (a' & Hm & H). by injection Hm as ->.
  - by intros (a' & Hm & _).
  - by intros (a' & Hm & _).
Qed.

(** * Machine integers

    A w-bit unsigned integer is a [Z] in [0, 2^w); every operation that can
    leave the range is followed by its wrap-around, as in the code. *)

Abbreviation W64 := 18446744073709551616%Z (only parsing).
Abbreviation W32 := 4294967296%Z (only parsing).
Abbreviation W16 := 65536%Z (only parsing).
Abbreviation W8 := 256%Z (only parsing).

Definition u64 (x : Z) : Z := x mod W64.
Definition u32 (x : Z) : Z := x mod W32.
Definition u16 (x : Z) : Z := x mod W16.
Definition u8 (x : Z) : Z := x mod W8.
(** Conversion of a 64-bit pattern to [int64_t] (two's complement). *)
Definition i64 (x : Z) : Z := (x + 9223372036854775808) mod W64 - 9223372036854775808.

(** [std::numeric_limits<uint64_t>::max()] and its 32-bit sibling. *)
Definition u64_max : Z := 18446744073709551615.
Definition u32_max : Z := 4294967295.

Definition is_u64 (x : Z) : Prop := 0 <= x < W64.
Definition is_u32 (x : Z) : Prop := 0 <= x < W32.

(** Arithmetic with wrap-around: the word operations unfold to [mod], which
    becomes linear equations. *)
Ltac word_unfold :=
  unfold u64, u32, u16, u8, i64, is_u64, is_u32, u64_max, u32_max in *.
Ltac solve_word := word_unfold; Z.div_mod_to_equations; lia.

(** Boolean comparisons of hypotheses and goal as propositions. *)
Ltac bool_prop :=
  repeat match goal with
  | H : (_ && _)%bool = true |- _ => apply andb_true_iff in H; destruct H
  | H : (_ || _)%bool = false |- _ => apply orb_false_iff in H; destruct H
  | H : negb _ = true |- _ => apply negb_true_iff in H
  | H : negb _ = false |- _ => apply negb_false_iff in H
  | H : (_ <=? _) = true |- _ => apply Z.leb_le in H
  | H : (_ <=? _) = false |- _ => apply Z.leb_gt in H
  | H : (_ <? _) = true |- _ => apply Z.ltb_lt in H
  | H : (_ <? _) = false |- _ => apply Z.ltb_ge in H
  | H : (_ =? _) = true |- _ => apply Z.eqb_eq in H
  | H : (_ =? _) = false |- _ => apply Z.eqb_neq in H
  end.

(** Case analysis on every [if] and [match] of the goal (or of a hypothesis). *)
Ltac split_if :=
  match goal with
  | |- context [if ?b then _ else _] => destruct b eqn:?
  end.
Ltac split_if_in H :=
  match type of H with
  | context [if ?b then _ else _] => destruct b eqn:?
  end.

Lemma u64_id x : is_u64 x -> u64 x = x.
Proof. apply Z.mod_small. Qed.

Lemma u32_id x : is_u32 x -> u32 x = x.
Proof. apply Z.mod_small. Qed.

Lemma u64_range x : is_u64 (u64 x).
Proof. apply Z.mod_pos_bound. lia. Qed.

Lemma u32_range x : is_u32 (u32 x).
Proof. apply Z.mod_pos_bound. lia. Qed.

Lemma u64_sub_cancel x y : is_u64 x -> u64 (u64 (x - y) + y) = x.
Proof. intros. solve_word. Qed.

Lemma i64_id x : - 9223372036854775808 <= x < 9223372036854775808 -> i64 x = x.
Proof. intros. solve_word. Qed.

Create HintDb cal.
Create Rewrite HintDb cal.
#[export] Hint Resolve u64_range u32_range : cal.
#[export] Hint Rewrite u64_id u32_id using (word_unfold; lia) : cal.

(** ** Splitting a bit operation at a power of two *)

Lemma testbit_split k a x n :
  0 <= k -> 0 <= a < 2 ^ k -> 0 <= n ->
  Z.testbit (a + 2 ^ k * x) n = if n <? k then Z.testbit a n else Z.testbit x (n - k).
Proof.
  intros Hk Ha Hn. rewrite (Z.mul_comm _ x). destruct (Z.ltb_spec n k).
  - rewrite <- (Z.mod_pow2_bits_low (a + x * 2 ^ k) k n) by lia.
    rewrite Z.mod_add by lia. by rewrite Z.mod_small by lia.
  - replace n with (n - k + k) at 1 by lia.
    rewrite <- Z.div_pow2_bits by lia.
    rewrite Z.div_add by lia. by rewrite Z.div_small by lia.
Qed.

Lemma land_split k a b x y :
  0 <= k -> 0 <= a < 2 ^ k -> 0 <= b < 2 ^ k ->
  Z.land (a + 2 ^ k * x) (b + 2 ^ k * y) = Z.land a b + 2 ^ k * Z.land x y.
Proof.
  intros Hk Ha Hb.
  assert (Hab : 0 <= Z.land a b < 2 ^ k).
  { split; [apply Z.land_nonneg; lia|].
    destruct (Z.eq_dec a 0) as [->|Ha0]; [rewrite Z.land_0_l; lia|].
    destruct (Z.eq_dec (Z.land a b) 0) as [->|Hl0]; [lia|].
    apply Z.log2_lt_cancel. rewrite Z.log2_pow2 by lia.
    eapply Z.le_lt_trans; [apply Z.log2_land; lia|].
    apply Z.min_lt_iff. left. apply Z.log2_lt_pow2; lia. }
  apply Z.bits_inj'. intros n Hn.
  rewrite Z.land_spec, !testbit_split by done.
  destruct (n <? k); by rewrite Z.land_spec.
Qed.

(** The low bits of a word: [x & ~(2^k - 1)] clears them, [x & (2^k - 1)] keeps them. *)
Lemma land_low_mask x k : 0 <= k -> Z.land x (2 ^ k - 1) = x mod 2 ^ k.
Proof. intros Hk. replace (2 ^ k - 1) with (Z.ones k) by (rewrite Z.ones_equiv; lia). by apply Z.land_ones. Qed.

Lemma land_high_mask x k :
  0 <= k -> Z.land x (Z.lnot (2 ^ k - 1)) = x - x mod 2 ^ k.
Proof.
  intros Hk. replace (2 ^ k - 1) with (Z.ones k) by (rewrite Z.ones_equiv; lia).
  rewrite <- Z.ldiff_land, Z.ldiff_ones_r by done.
  rewrite Z.shiftr_div_pow2, Z.shiftl_mul_pow2 by done.
  pose proof (Z.div_mod x (2 ^ k)). lia.
Qed.

(** * Lists *)

Lemma insert_middle {A} (l1 l2 : list A) x y : <[length l1 := y]> (l1 ++ x :: l2) = l1 ++ y :: l2.
Proof. by induction l1 as [|a l1 IH]; simpl; f_equal. Qed.
