(* ===== verification/Align.v ===== *)
(** Bit tricks and alignment arithmetic of shared/utils.h: the SWAR population
    count behind [isPow2], the two alignment roundings (mask and remainder),
    address arithmetic, null-terminated counting and the CPU address mask. *)

From S2P Require Import Prelude.

(** * Masks and population count *)

Definition fillMask64from4 (mask4 : Z) : Z :=
  let mask8 := Z.lor mask4 (u32 (Z.shiftl mask4 4)) in
  let mask16 := Z.lor mask8 (u32 (Z.shiftl mask8 8)) in
  let mask32 := Z.lor mask16 (u32 (Z.shiftl mask16 16)) in
  Z.lor mask32 (u64 (Z.shiftl mask32 32)).

Definition fillMask64from8 (mask8 : Z) : Z :=
  let mask16 := Z.lor mask8 (u32 (Z.shiftl mask8 8)) in
  let mask32 := Z.lor mask16 (u32 (Z.shiftl mask16 16)) in
  Z.lor mask32 (u64 (Z.shiftl mask32 32)).

Definition fillMask64from16 (mask16 : Z) : Z :=
  let mask32 := Z.lor mask16 (u32 (Z.shiftl mask16 16)) in
  Z.lor mask32 (u64 (Z.shiftl mask32 32)).

Definition fillMask64from32 (mask32 : Z) : Z :=
  Z.lor mask32 (u64 (Z.shiftl mask32 32)).

Definition popcount (v : Z) : Z :=
  let maskEven := fillMask64from4 5 in
  let maskEvery2 := fillMask64from4 3 in
  let maskEvery4 := fillMask64from8 15 in
  let maskEvery8 := fillMask64from16 255 in
  let maskEvery16 := fillMask64from32 65535 in
  let sum := u64 (Z.land v maskEven + Z.land (Z.shiftr v 1) maskEven) in
  let sum := u64 (Z.land sum maskEvery2 + Z.land (Z.shiftr sum 2) maskEvery2) in
  let sum := u64 (Z.land sum maskEvery4 + Z.land (Z.shiftr sum 4) maskEvery4) in
  let sum := u64 (Z.land sum maskEvery8 + Z.land (Z.shiftr sum 8) maskEvery8) in
  let sum := u64 (Z.land sum maskEvery16 + Z.land (Z.shiftr sum 16) maskEvery16) in
  u32 (u64 (Z.land sum 4294967295 + Z.shiftr sum 32)).

Definition isPow2 (v : Z) : bool := popcount v =? 1.

(** * Alignment.  The alignment of the remainder-based rounding is never 0 in
    the code (a zero alignment is replaced by the allocator's minimum). *)

Definition isAlignedPow2 (pow2Alignment value : Z) : bool :=
  Z.land value (pow2Alignment - 1) =? 0.

Definition isAligned (value alignment : Z) : bool := value mod alignment =? 0.

Definition alignUpPow2 (pow2Alignment value : Z) : Z :=
  Z.land (u64 (value + pow2Alignment - 1)) (u64 (Z.lnot (pow2Alignment - 1))).

Definition alignUp (value alignment : Z) : Z :=
  let ret := u64 (value + alignment - 1) in
  u64 (ret - ret mod alignment).

(** * Address arithmetic *)

Definition byteDistance (from to : Z) : Z := i64 (to - from).

Definition byteDistanceAbs (from to : Z) : Z :=
  let dist := byteDistance from to in
  u64 (if 0 <? dist then dist else - dist).

Definition moveByBytes (ptr offset : Z) : Z := u64 (ptr + offset).

(** [alignUp] on a pointer: the distance to the next multiple is added. *)
Definition alignUpPtr (value alignment : Z) : Z :=
  let after := alignUp value alignment in
  moveByBytes value (u64 (after - value)).

Definition alignUpPow2Ptr (pow2Alignment value : Z) : Z :=
  let after := alignUpPow2 pow2Alignment value in
  moveByBytes value (u64 (after - value)).

(** * Null-terminated sequences.  [array] is [None] for a null pointer; reading
    past the memory that the list stands for is undefined. *)

Fixpoint scan_null (it : Z) (mem : list Z) : res Z :=
  match mem with
  | [] => Undef
  | x :: rest => if x =? 0 then Ret it else scan_null (it + 1) rest
  end.

Definition countNullterminated (array : option (list Z)) : res Z :=
  match array with
  | None => Ret 0
  | Some mem => it ← scan_null 0 mem; Ret (it + 1)
  end.

Fixpoint scan_null_key (it : Z) (mem : list Z) : res Z :=
  match mem with
  | [] => Undef
  | x :: rest =>
      if x =? 0 then Ret it
      else match rest with
           | [] => Undef
           | _ :: rest' => scan_null_key (it + 2) rest'
           end
  end.

Definition countNullterminatedKey (array : option (list Z)) : res Z :=
  match array with
  | None => Ret 0
  | Some mem => it ← scan_null_key 0 mem; Ret (it + 1)
  end.

(** * Sizes *)

Definition KB : Z := 1024.
Definition MB : Z := KB * 1024.
Definition GB : Z := MB * 1024.
Definition pageSize4KB : Z := KB * 4.
Definition pageSize64KB : Z := KB * 64.
Definition pageSize2MB : Z := MB * 2.
Definition cachelineSize : Z := 64.
Definition defaultAlignmentSize : Z := 16.

(** [CpuInfo]; only [virtual_] is used by the mask test. *)
Record CpuInfo := mkCpuInfo { physical : Z; virtual_ : Z }.

Definition isAccessibleByApplication (cpu : CpuInfo) (va : Z) : bool :=
  let mask := u64 (Z.lnot (u64 (Z.shiftl 1 (virtual_ cpu - 1)) - 1)) in
  Z.land va mask =? 0.

(** * The population count is a sum of digits

    A word is read as digits of w bits, least significant first; one SWAR step
    adds neighbouring digits and doubles the digit width. *)

Fixpoint val (w : Z) (ds : list Z) : Z :=
  match ds with
  | [] => 0
  | d :: ds => d + 2 ^ w * val w ds
  end.

Fixpoint pairs (ds : list Z) : list Z :=
  match ds with
  | a :: b :: ds => (a + b) :: pairs ds
  | _ => []
  end.

Definition digits (w : Z) (ds : list Z) : Prop := Forall (fun d => 0 <= d < 2 ^ w) ds.

Definition sumZ (ds : list Z) : Z := fold_right Z.add 0 ds.

Definition swar (w mask v : Z) : Z := Z.land v mask + Z.land (Z.shiftr v w) mask.

(** Specification: the number of one bits among the low [n]. *)
Fixpoint bits_of (n : nat) (v : Z) : list Z :=
  match n with
  | O => []
  | S n => Z.b2z (Z.odd v) :: bits_of n (v / 2)
  end.

Definition bits_set (n : nat) (v : Z) : Z := sumZ (bits_of n v).

Lemma digits_cons w d ds : digits w (d :: ds) <-> 0 <= d < 2 ^ w /\ digits w ds.
Proof. apply Forall_cons_iff. Qed.

Lemma swar_cons w a b v mask :
  0 < w -> 0 <= a < 2 ^ w -> 0 <= b < 2 ^ w ->
  swar w ((2 ^ w - 1) + 2 ^ (2 * w) * mask) (a + 2 ^ w * (b + 2 ^ w * v))
  = (a + b) + 2 ^ (2 * w) * swar w mask v.
Proof.
  intros Hw Ha Hb. unfold swar.
  assert (E2 : 2 ^ (2 * w) = 2 ^ w * 2 ^ w) by (rewrite <- Z.pow_add_r by lia; f_equal; lia).
  assert (Hp : 0 < 2 ^ w) by (apply Z.pow_pos_nonneg; lia).
  assert (Hlow : forall x y, 0 <= x < 2 ^ w -> 0 <= y < 2 ^ w ->
            Z.land (x + 2 ^ w * y) (2 ^ w - 1) = x).
  { intros x y Hx Hy. rewrite land_low_mask by lia.
    rewrite (Z.mul_comm _ y), Z.mod_add by lia. by apply Z.mod_small. }
  assert (Hsh : Z.shiftr (a + 2 ^ w * (b + 2 ^ w * v)) w
                = (b + 2 ^ w * (v mod 2 ^ w)) + 2 ^ (2 * w) * Z.shiftr v w).
  { rewrite !Z.shiftr_div_pow2 by lia.
    rewrite (Z.mul_comm _ (b + _)), Z.div_add by lia. rewrite Z.div_small by lia.
    pose proof (Z.div_mod v (2 ^ w)). rewrite E2. nia. }
  pose proof (Z.mod_pos_bound v (2 ^ w) Hp).
  rewrite Hsh.
  replace (a + 2 ^ w * (b + 2 ^ w * v)) with ((a + 2 ^ w * b) + 2 ^ (2 * w) * v) by (rewrite E2; ring).
  rewrite !land_split by (rewrite ?E2; try split; nia).
  rewrite !Hlow by lia. ring.
Qed.

Lemma swar_val w k ds :
  0 < w -> digits w ds -> length ds = (2 * k)%nat ->
  swar w (val (2 * w) (replicate k (2 ^ w - 1))) (val w ds) = val (2 * w) (pairs ds).
Proof.
  intros Hw. revert ds. induction k as [|k IH]; intros ds Hd Hl.
  - destruct ds; [|simpl in Hl; lia]. unfold swar. simpl. by rewrite !Z.land_0_r.
  - destruct ds as [|a [|b ds]]; simpl in Hl; try lia.
    apply digits_cons in Hd as [Ha Hd]. apply digits_cons in Hd as [Hb Hd].
    simpl. rewrite swar_cons by done. rewrite IH; [done|done|lia].
Qed.

Lemma pairs_digits w ds : 0 < w -> digits w ds -> digits (2 * w) (pairs ds).
Proof.
  intros Hw. assert (E2 : 2 ^ (2 * w) = 2 ^ w * 2 ^ w)
    by (rewrite <- Z.pow_add_r by lia; f_equal; lia).
  assert (2 <= 2 ^ w) by (change 2 with (2 ^ 1) at 1; apply Z.pow_le_mono_r; lia).
  revert ds. fix IH 1. intros [|a [|b ds]] Hd; simpl; try constructor.
  - apply digits_cons in Hd as [Ha Hd]. apply digits_cons in Hd as [Hb Hd].
    rewrite E2. nia.
  - apply IH. apply digits_cons in Hd as [_ Hd]. by apply digits_cons in Hd as [_ Hd].
Qed.

Lemma pairs_length ds k : length ds = (2 * k)%nat -> length (pairs ds) = k.
Proof.
  revert ds. induction k as [|k IH]; intros [|a [|b ds]] Hl; simpl in *; try lia.
  rewrite (IH ds); lia.
Qed.

Lemma pairs_sum ds k : length ds = (2 * k)%nat -> sumZ (pairs ds) = sumZ ds.
Proof.
  revert ds. induction k as [|k IH]; intros [|a [|b ds]] Hl; simpl in *; try lia.
  rewrite (IH ds); lia.
Qed.

Lemma val_bound w ds : 0 < w -> digits w ds -> 0 <= val w ds < 2 ^ (w * Z.of_nat (length ds)).
Proof.
  intros Hw. induction 1 as [|d ds Hd _ IH]; simpl; [rewrite Z.mul_0_r; lia|].
  replace (w * Z.of_nat (S (length ds))) with (w + w * Z.of_nat (length ds)) by lia.
  rewrite Z.pow_add_r by lia. nia.
Qed.

(** One step as the code computes it, with the 64-bit wrap-around. *)
Lemma swar_step w k mask ds :
  0 < w -> digits w ds -> length ds = (2 * k)%nat -> 2 * w * Z.of_nat k = 64 ->
  mask = val (2 * w) (replicate k (2 ^ w - 1)) ->
  u64 (Z.land (val w ds) mask + Z.land (Z.shiftr (val w ds) w) mask) = val (2 * w) (pairs ds).
Proof.
  intros Hw Hd Hl Hk ->. pose proof (swar_val w k ds Hw Hd Hl) as E. unfold swar in E.
  rewrite E. apply u64_id.
  pose proof (val_bound (2 * w) (pairs ds)) as Hb.
  rewrite (pairs_length _ _ Hl), Hk in Hb. apply Hb; [lia|]. by apply pairs_digits.
Qed.

Lemma bits_of_digits n v : digits 1 (bits_of n v).
Proof. revert v. induction n; intros; simpl; constructor; [by destruct (Z.odd v)|apply IHn]. Qed.

Lemma bits_of_length n v : length (bits_of n v) = n.
Proof. revert v. by induction n; intros; simpl; auto. Qed.

Lemma bits_of_val n v : 0 <= v < 2 ^ Z.of_nat n -> val 1 (bits_of n v) = v.
Proof.
  revert v. induction n as [|n IH]; intros v Hv; simpl; [simpl in Hv; lia|].
  rewrite Nat2Z.inj_succ, Z.pow_succ_r in Hv by lia.
  rewrite IH by (split; [apply Z.div_pos|apply Z.div_lt_upper_bound]; lia).
  change (2 ^ 1) with 2. pose proof (Zdiv2_odd_eqn v) as E. rewrite Zdiv2_div in E.
  destruct (Z.odd v); simpl; lia.
Qed.

Lemma digits_sum ds : digits 1 ds -> 0 <= sumZ ds <= Z.of_nat (length ds).
Proof. induction 1 as [|d ds Hd _ IH]; simpl; [lia|]. change (2 ^ 1) with 2 in Hd. lia. Qed.

Lemma popcount_bits v : is_u64 v -> popcount v = bits_set 64 v.
Proof.
  intros Hv.
  pose proof (bits_of_digits 64 v) as D0.
  pose proof (digits_sum _ D0) as S0. rewrite bits_of_length in S0. pose proof (bits_of_length 64 v) as L0.
  unfold bits_set. rewrite <- (bits_of_val 64 v Hv) at 1.
  set (d0 := bits_of 64 v) in *. clearbody d0. clear v Hv.
  pose proof (pairs_digits 1 d0 eq_refl D0) as D1. pose proof (pairs_length d0 32 L0) as L1.
  pose proof (pairs_digits 2 _ eq_refl D1) as D2. pose proof (pairs_length _ 16 L1) as L2.
  pose proof (pairs_digits 4 _ eq_refl D2) as D3. pose proof (pairs_length _ 8 L2) as L3.
  pose proof (pairs_digits 8 _ eq_refl D3) as D4. pose proof (pairs_length _ 4 L3) as L4.
  pose proof (pairs_digits 16 _ eq_refl D4) as D5. pose proof (pairs_length _ 2 L4) as L5.
  unfold popcount.
  rewrite (swar_step 1 32) by first [done | lia | reflexivity].
  rewrite (swar_step 2 16) by first [done | lia | reflexivity].
  rewrite (swar_step 4 8) by first [done | lia | reflexivity].
  rewrite (swar_step 8 4) by first [done | lia | reflexivity].
  rewrite (swar_step 16 2) by first [done | lia | reflexivity].
  rewrite <- (pairs_sum d0 32), <- (pairs_sum (pairs d0) 16), <- (pairs_sum (pairs (pairs d0)) 8),
    <- (pairs_sum (pairs (pairs (pairs d0))) 4),
    <- (pairs_sum (pairs (pairs (pairs (pairs d0)))) 2) in * by done.
  set (d5 := pairs (pairs (pairs (pairs (pairs d0))))) in *.
  destruct d5 as [|a [|b [|]]]; try discriminate L5.
  apply digits_cons in D5 as [Ha D5]. apply digits_cons in D5 as [Hb _].
  cbn [val sumZ fold_right] in *. change (2 * 16) with 32 in *.
  change 4294967295 with (2 ^ 32 - 1). rewrite land_low_mask, Z.shiftr_div_pow2 by lia.
  change (2 ^ 32) with W32 in *. rewrite u32_id, u64_id; solve_word.
Qed.

(** [isPow2] singles out the powers of two. *)
Lemma bits_set_cons n v : bits_set (S n) v = Z.b2z (Z.odd v) + bits_set n (v / 2).
Proof. done. Qed.

Lemma bits_set_zero n v : 0 <= v < 2 ^ Z.of_nat n -> bits_set n v = 0 -> v = 0.
Proof.
  intros Hv H. rewrite <- (bits_of_val n v Hv).
  pose proof (bits_of_digits n v) as D. unfold bits_set in H. clear Hv.
  induction D as [|d ds Hd D IH]; simpl in *; [done|].
  change (2 ^ 1) with 2 in *. pose proof (digits_sum ds D).
  rewrite IH; lia.
Qed.

Lemma bits_set_of_0 n : bits_set n 0 = 0.
Proof. induction n as [|n IH]; [done|]. rewrite bits_set_cons. simpl. exact IH. Qed.

Lemma bits_set_one n v :
  0 <= v < 2 ^ Z.of_nat n -> bits_set n v = 1 <-> exists k, 0 <= k < Z.of_nat n /\ v = 2 ^ k.
Proof.
  revert v. induction n as [|n IH]; intros v Hv.
  { unfold bits_set. simpl. split; [lia|]. intros (k & ? & _). lia. }
  rewrite bits_set_cons. rewrite Nat2Z.inj_succ, Z.pow_succ_r in Hv by lia.
  pose proof (Zdiv2_odd_eqn v) as E. rewrite Zdiv2_div in E.
  assert (Hv2 : 0 <= v / 2 < 2 ^ Z.of_nat n)
    by (split; [apply Z.div_pos|apply Z.div_lt_upper_bound]; lia).
  split.
  - destruct (Z.odd v) eqn:Ho; simpl; intros H.
    + assert (Hz : v / 2 = 0) by (apply (bits_set_zero n); lia).
      exists 0. rewrite Hz in E. simpl in *. lia.
    + apply IH in H as (k & Hk & H); [|done].
      exists (Z.succ k). rewrite Z.pow_succ_r by lia. lia.
  - intros (k & Hk & ->). destruct (Z.eq_dec k 0) as [->|Hk0].
    + change (2 ^ 0) with 1. simpl. by rewrite bits_set_of_0.
    + replace k with (Z.succ (k - 1)) in * by lia. rewrite Z.pow_succ_r in * by lia.
      rewrite Z.odd_mul. simpl. rewrite (Z.mul_comm 2), Z.div_mul by lia.
      apply IH; [|exists (k - 1); lia].
      split; [apply Z.pow_nonneg; lia|]. apply Z.pow_lt_mono_r; lia.
Qed.

Lemma isPow2_iff v : is_u64 v -> isPow2 v = true <-> exists k, 0 <= k < 64 /\ v = 2 ^ k.
Proof.
  intros Hv. unfold isPow2. rewrite popcount_bits, Z.eqb_eq by done.
  by apply (bits_set_one 64).
Qed.

Lemma isPow2_pow k : 0 <= k < 64 -> isPow2 (2 ^ k) = true.
Proof.
  intros Hk. apply isPow2_iff; [|by exists k].
  split; [apply Z.pow_nonneg; lia|]. change W64 with (2 ^ 64). apply Z.pow_lt_mono_r; lia.
Qed.

(** Rounding up by remainder: the least multiple that is not below. *)
Lemma alignUp_eq v a :
  0 < a -> 0 <= v -> v + a - 1 < W64 ->
  alignUp v a = (v + a - 1) / a * a.
Proof.
  intros Ha Hv Hb. unfold alignUp. rewrite (u64_id (v + a - 1)) by (word_unfold; lia).
  pose proof (Z.div_mod (v + a - 1) a ltac:(lia)).
  pose proof (Z.mod_pos_bound (v + a - 1) a ltac:(lia)).
  pose proof (Z.div_pos (v + a - 1) a ltac:(lia) ltac:(lia)).
  rewrite u64_id by (word_unfold; nia). nia.
Qed.

Lemma alignUp_spec v a :
  0 < a -> 0 <= v -> v + a - 1 < W64 ->
  v <= alignUp v a < v + a /\ alignUp v a mod a = 0.
Proof.
  intros Ha Hv Hb. rewrite alignUp_eq by done.
  pose proof (Z.div_mod (v + a - 1) a ltac:(lia)).
  pose proof (Z.mod_pos_bound (v + a - 1) a ltac:(lia)).
  split; [nia|]. by rewrite Z.mod_mul by lia.
Qed.

Lemma alignUp_le v a m :
  0 < a -> 0 <= v -> v + a - 1 < W64 -> v <= m -> m mod a = 0 -> alignUp v a <= m.
Proof.
  intros Ha Hv Hb Hm Hd. rewrite alignUp_eq by done.
  apply Z.mod_divide in Hd as [q ->]; [|lia].
  apply Z.mul_le_mono_nonneg_r; [lia|].
  apply Z.lt_succ_r. apply Z.div_lt_upper_bound; nia.
Qed.

Lemma alignUp_aligned v a : 0 < a -> 0 <= v -> v + a - 1 < W64 -> v mod a = 0 -> alignUp v a = v.
Proof.
  intros. pose proof (alignUp_spec v a ltac:(lia) ltac:(lia) ltac:(lia)).
  pose proof (alignUp_le v a v ltac:(lia) ltac:(lia) ltac:(lia) ltac:(lia) ltac:(done)). lia.
Qed.

Lemma alignUp_range v a : 0 < a -> is_u64 (alignUp v a).
Proof. intros. apply u64_range. Qed.

(** Past the last multiple of a power of two below 2^64 the rounding wraps to 0. *)
Lemma alignUp_wraps v k :
  0 <= k < 64 -> is_u64 v -> W64 <= v + 2 ^ k - 1 -> alignUp v (2 ^ k) = 0.
Proof.
  intros Hk Hv Hb. unfold alignUp.
  assert (0 < 2 ^ k) by (apply Z.pow_pos_nonneg; lia).
  assert (2 ^ k < W64) by (change W64 with (2 ^ 64); apply Z.pow_lt_mono_r; lia).
  assert (E : u64 (v + 2 ^ k - 1) = v + 2 ^ k - 1 - W64) by solve_word.
  rewrite E. rewrite Z.mod_small by (word_unfold; lia). by rewrite Z.sub_diag.
Qed.

(** The mask form and the remainder form agree on powers of two. *)
Lemma land_u64_r x y : is_u64 x -> Z.land x (u64 y) = Z.land x y.
Proof.
  intros Hx. unfold u64. change W64 with (2 ^ 64). rewrite <- (land_low_mask y 64) by lia.
  rewrite (Z.land_comm y), Z.land_assoc, land_low_mask by lia.
  by rewrite Z.mod_small.
Qed.

Lemma alignUpPow2_alignUp k v : 0 <= k < 64 -> alignUpPow2 (2 ^ k) v = alignUp v (2 ^ k).
Proof.
  intros Hk. unfold alignUpPow2, alignUp.
  pose proof (u64_range (v + 2 ^ k - 1)) as R.
  rewrite land_u64_r, land_high_mask by (done || lia). symmetry. apply u64_id.
  assert (0 < 2 ^ k) by (apply Z.pow_pos_nonneg; lia).
  pose proof (Z.mod_pos_bound (u64 (v + 2 ^ k - 1)) (2 ^ k) ltac:(lia)).
  pose proof (Z.mod_le (u64 (v + 2 ^ k - 1)) (2 ^ k)). unfold is_u64 in *. lia.
Qed.

Lemma isAlignedPow2_isAligned k v : 0 <= k -> isAlignedPow2 (2 ^ k) v = isAligned v (2 ^ k).
Proof. intros. unfold isAlignedPow2, isAligned. by rewrite land_low_mask. Qed.

Lemma moveByBytes_distance v w : is_u64 v -> is_u64 w -> moveByBytes v (u64 (w - v)) = w.
Proof. intros. unfold moveByBytes. solve_word. Qed.

Lemma alignUpPtr_alignUp v a : 0 < a -> is_u64 v -> alignUpPtr v a = alignUp v a.
Proof. intros. unfold alignUpPtr. by rewrite moveByBytes_distance by (done || by apply alignUp_range). Qed.

Lemma byteDistanceAbs_sub a b :
  is_u64 a -> is_u64 b -> a <= b -> b - a < 9223372036854775808 -> byteDistanceAbs a b = b - a.
Proof.
  intros. unfold byteDistanceAbs, byteDistance. rewrite i64_id by lia.
  destruct (Z.ltb_spec 0 (b - a)); solve_word.
Qed.

(** The canonical lower half: addresses below 2^(virtual - 1). *)
Lemma isAccessible_iff cpu va :
  1 <= virtual_ cpu <= 64 -> is_u64 va ->
  isAccessibleByApplication cpu va = true <-> va < 2 ^ (virtual_ cpu - 1).
Proof.
  intros Hv Hva. unfold isAccessibleByApplication.
  rewrite Z.shiftl_1_l. set (k := virtual_ cpu - 1) in *.
  assert (Hp : 0 < 2 ^ k) by (apply Z.pow_pos_nonneg; lia).
  assert (Hk : 2 ^ k < W64) by (change W64 with (2 ^ 64); apply Z.pow_lt_mono_r; lia).
  rewrite (u64_id (2 ^ k)) by (word_unfold; lia).
  rewrite (land_u64_r va) by done. rewrite land_high_mask by lia. rewrite Z.eqb_eq.
  unfold is_u64 in Hva. pose proof (Z.div_mod va (2 ^ k) ltac:(lia)). pose proof (Z.mod_pos_bound va (2 ^ k) Hp).
  split; intros H1; [lia|]. rewrite Z.mod_small by lia. lia.
Qed.

Lemma scan_null_correct it l rest :
  Forall (fun x => x <> 0) l -> scan_null it (l ++ 0 :: rest) ⇓ it + Z.of_nat (length l).
Proof.
  intros Hl. revert it. induction Hl as [|x l Hx _ IH]; intros it; cbn [app scan_null].
  - simpl. f_equal. lia.
  - rewrite (proj2 (Z.eqb_neq x 0) Hx), IH. f_equal. simpl length. lia.
Qed.

(** A flattened list of (key, value) pairs. *)
Definition flat_pairs (l : list (Z * Z)) : list Z := concat ((fun kv => [kv.1; kv.2]) <$> l).

Lemma scan_null_key_correct it l rest :
  Forall (fun kv => kv.1 <> 0) l ->
  scan_null_key it (flat_pairs l ++ 0 :: rest) ⇓ it + 2 * Z.of_nat (length l).
Proof.
  intros Hl. revert it. induction Hl as [|[k v] l Hx _ IH]; intros it; cbn [app scan_null_key].
  - simpl. f_equal. lia.
  - change (flat_pairs ((k, v) :: l)) with (k :: v :: flat_pairs l). cbn [app scan_null_key].
    rewrite (proj2 (Z.eqb_neq k 0) Hx), IH. f_equal. simpl length. lia.
Qed.

(** * Properties *)

(** The SWAR population count of a 64-bit word is its number of one bits,
    and [isPow2] holds exactly for the powers of two (so not for 0). *)
Theorem isPow2_exact v :
  is_u64 v ->
  popcount v = bits_set 64 v /\ (isPow2 v = true <-> exists k, 0 <= k < 64 /\ v = 2 ^ k).
Proof. intros Hv. split; [by apply popcount_bits|by apply isPow2_iff]. Qed.

Lemma isPow2_exact_witness : popcount 4611686018427387907 = 3 /\ isPow2 4194304 = true.
Proof.
  split.
  - rewrite (proj1 (isPow2_exact 4611686018427387907 ltac:(word_unfold; lia))). by vm_compute.
  - apply (isPow2_exact 4194304 ltac:(word_unfold; lia)). exists 22. split; [lia|done].
Defined.

(** Without overflow, [alignUp] returns the least multiple of the alignment
    that is not below the value; the mask-based [alignUpPow2] and the pointer
    variant return the same; past the last multiple of a power of two in 64
    bits the result wraps around to 0. *)
Theorem alignUp_least k v :
  0 <= k < 64 -> is_u64 v ->
  alignUpPow2 (2 ^ k) v = alignUp v (2 ^ k) /\ alignUpPtr v (2 ^ k) = alignUp v (2 ^ k) /\
  (v + 2 ^ k - 1 < W64 ->
     v <= alignUp v (2 ^ k) /\ isAlignedPow2 (2 ^ k) (alignUp v (2 ^ k)) = true /\
     forall m, v <= m -> isAligned m (2 ^ k) = true -> alignUp v (2 ^ k) <= m) /\
  (W64 <= v + 2 ^ k - 1 -> alignUp v (2 ^ k) = 0).
Proof.
  intros Hk Hv. assert (Hp : 0 < 2 ^ k) by (apply Z.pow_pos_nonneg; lia).
  split; [by apply alignUpPow2_alignUp|]. split; [by apply alignUpPtr_alignUp|].
  split; [|by apply alignUp_wraps]. intros Hb. unfold is_u64 in Hv.
  destruct (alignUp_spec v (2 ^ k)) as [Hs Hm]; [lia..|]. split; [lia|]. split.
  - rewrite isAlignedPow2_isAligned by lia. by apply Z.eqb_eq.
  - intros m Hle Ha. apply Z.eqb_eq in Ha. apply alignUp_le; [lia..|done].
Qed.

Lemma alignUp_least_witness :
  alignUpPow2 4096 5000 = alignUp 5000 4096 /\ alignUp 18446744073709551000 4096 = 0.
Proof.
  split.
  - apply (alignUp_least 12 5000); [lia|word_unfold; lia].
  - apply (alignUp_least 12 18446744073709551000); [lia|word_unfold; lia|lia].
Defined.

(** Counting a null-terminated array gives its length with the terminator;
    counting a key/value list stops only at a null key, so null values inside
    the list do not end it. *)
Theorem countNullterminated_counts l kvs rest :
  Forall (fun x => x <> 0) l -> Forall (fun kv => kv.1 <> 0) kvs ->
  countNullterminated (Some (l ++ 0 :: rest)) ⇓ Z.of_nat (length l) + 1 /\
  countNullterminatedKey (Some (flat_pairs kvs ++ 0 :: rest)) ⇓ 2 * Z.of_nat (length kvs) + 1.
Proof.
  intros Hl Hkv. unfold countNullterminated, countNullterminatedKey.
  rewrite (scan_null_correct 0 l rest Hl), (scan_null_key_correct 0 kvs rest Hkv). simpl. done.
Qed.

Lemma countNullterminated_counts_witness :
  countNullterminated (Some ([7; 8] ++ 0 :: [])) ⇓ 3 /\
  countNullterminatedKey (Some (flat_pairs [(4, 0); (5, 9)] ++ 0 :: [])) ⇓ 5.
Proof.
  apply (countNullterminated_counts [7; 8] [(4, 0); (5, 9)] []); repeat constructor; simpl; lia.
Defined.
