(* ===== verification/FlatMap.v ===== *)
(** [boost::container::flat_map] with addresses as keys
    (third_party/boost/boost/container/flat_map.hpp): a vector of entries in
    the order of the keys.  Iteration goes through the vector, so the model
    keeps it; the laws below are those of a finite map. *)

From S2P Require Import Prelude.
Local Open Scope Z_scope.

Section flat_map.
Context {V : Type}.
Implicit Types (m : list (Z * V)) (k : Z) (v : V).

Fixpoint fm_find m k : option V :=
  match m with
  | [] => None
  | (k', v) :: m => if k' =? k then Some v else fm_find m k
  end.

(** [map[k] = v]: overwrites the entry or inserts it at its place. *)
Fixpoint fm_set m k v : list (Z * V) :=
  match m with
  | [] => [(k, v)]
  | (k', v') :: m' =>
      if k =? k' then (k, v) :: m'
      else if k <? k' then (k, v) :: m else (k', v') :: fm_set m' k v
  end.

(** [insert] and [try_emplace]: an entry that exists stays. *)
Definition fm_emplace m k v : list (Z * V) :=
  match fm_find m k with Some _ => m | None => fm_set m k v end.

Definition fm_erase m k : list (Z * V) := filter (fun e => fst e <> k) m.

Inductive fm_sorted : list (Z * V) -> Prop :=
| fm_sorted_nil : fm_sorted []
| fm_sorted_cons k v m : Forall (fun e => k < fst e) m -> fm_sorted m -> fm_sorted ((k, v) :: m).

Lemma fm_find_elem m k v : fm_sorted m -> fm_find m k = Some v <-> (k, v) ∈ m.
Proof.
  induction 1 as [|k' v' m Hall Hs IH]; cbn; [by rewrite elem_of_nil|].
  rewrite elem_of_cons. destruct (Z.eqb_spec k' k) as [->|Hne].
  - split; [intros [= ->]; by left|]. intros [[= ->]|Hin]; [done|].
    rewrite Forall_forall in Hall. specialize (Hall _ Hin). cbn in Hall. lia.
  - rewrite IH. split; [by right|]. intros [[= <- <-]|]; done.
Qed.

Lemma fm_find_in m k v : fm_find m k = Some v -> (k, v) ∈ m.
Proof.
  induction m as [|[k' v'] m IH]; cbn; [done|]. destruct (Z.eqb_spec k' k) as [->|]; [intros [= ->]; by left|right; auto].
Qed.

Lemma fm_find_set m k v k' : fm_sorted m -> fm_find (fm_set m k v) k' = if k =? k' then Some v else fm_find m k'.
Proof.
  induction 1 as [|j w m Hall Hs IH]; cbn; [done|].
  destruct (Z.eqb_spec k j) as [->|Hkj]; cbn.
  - by destruct (j =? k').
  - destruct (Z.ltb_spec k j); cbn; [done|]. rewrite IH.
    destruct (Z.eqb_spec j k') as [<-|]; [|done]. by destruct (Z.eqb_spec k j).
Qed.

Lemma fm_find_erase m k k' : fm_find (fm_erase m k) k' = if k =? k' then None else fm_find m k'.
Proof.
  unfold fm_erase. induction m as [|[j w] m IH]; cbn [fm_find]; [by destruct (k =? k')|].
  rewrite filter_cons. case_decide as Hd; cbn [fst fm_find] in *.
  - rewrite IH. destruct (Z.eqb_spec j k') as [->|]; [|done]. by destruct (Z.eqb_spec k k').
  - assert (j = k) as -> by lia. rewrite IH. by destruct (k =? k').
Qed.

Lemma fm_set_elem m k v e : e ∈ fm_set m k v -> e = (k, v) \/ e ∈ m.
Proof.
  induction m as [|[j w] m IH]; cbn; [rewrite list_elem_of_singleton; auto|].
  destruct (k =? j); [rewrite !elem_of_cons; naive_solver|].
  destruct (k <? j); rewrite !elem_of_cons; naive_solver.
Qed.

Lemma fm_set_sorted m k v : fm_sorted m -> fm_sorted (fm_set m k v).
Proof.
  induction 1 as [|j w m Hall Hs IH]; cbn; [repeat constructor|].
  destruct (Z.eqb_spec k j) as [->|Hkj]; [by constructor|].
  destruct (Z.ltb_spec k j).
  - constructor; [|by constructor]. constructor; [done|]. eapply Forall_impl; [exact Hall|]. cbn. lia.
  - constructor; [|done]. apply Forall_forall. intros e He. apply fm_set_elem in He as [->|He]; [cbn; lia|].
    rewrite Forall_forall in Hall. auto.
Qed.

Lemma fm_sorted_replace m1 m2 k v w : fm_sorted (m1 ++ (k, v) :: m2) -> fm_sorted (m1 ++ (k, w) :: m2).
Proof.
  induction m1 as [|[j u] m1 IH]; cbn; intros Hs; inversion Hs; subst; constructor; auto.
  rewrite Forall_app, Forall_cons in *. done.
Qed.

Lemma fm_emplace_sorted m k v : fm_sorted m -> fm_sorted (fm_emplace m k v).
Proof. intros. unfold fm_emplace. destruct (fm_find m k); [done|by apply fm_set_sorted]. Qed.

Lemma fm_erase_sorted m k : fm_sorted m -> fm_sorted (fm_erase m k).
Proof.
  unfold fm_erase. induction 1 as [|j w m Hall Hs IH]; [constructor|]. rewrite filter_cons. case_decide; [|done].
  constructor; [|done]. rewrite Forall_forall in *. intros e He. apply list_elem_of_filter in He as [_ He]. auto.
Qed.

(** The entries beside the one that is set or erased. *)
Lemma fm_set_absent m k v : fm_find m k = None -> fm_set m k v ≡ₚ (k, v) :: m.
Proof.
  induction m as [|[j w] m IH]; cbn; [done|]. destruct (Z.eqb_spec j k) as [->|Hne]; [done|]. intros Hf.
  destruct (Z.eqb_spec k j); [lia|]. destruct (k <? j); [done|]. rewrite IH by done. constructor.
Qed.

Lemma fm_erase_absent m k : fm_find m k = None -> fm_erase m k = m.
Proof.
  unfold fm_erase. induction m as [|[j w] m IH]; cbn [fm_find]; [done|]. destruct (Z.eqb_spec j k) as [->|Hne]; [done|]. intros Hf.
  rewrite filter_cons_True by (cbn; done). f_equal. by apply IH.
Qed.

Lemma fm_erase_present m k v : fm_sorted m -> fm_find m k = Some v -> m ≡ₚ (k, v) :: fm_erase m k.
Proof.
  induction 1 as [|j w m Hall Hs IH]; cbn [fm_find]; [done|]. unfold fm_erase. rewrite filter_cons.
  destruct (Z.eqb_spec j k) as [->|Hne].
  - intros [= ->]. rewrite decide_False by (cbn; lia). fold (fm_erase m k). rewrite fm_erase_absent; [done|].
    destruct (fm_find m k) eqn:E; [|done]. apply fm_find_in in E. rewrite Forall_forall in Hall. specialize (Hall _ E). cbn in Hall. lia.
  - intros Hf. rewrite decide_True by (cbn; done). rewrite (IH Hf) at 1. unfold fm_erase. constructor.
Qed.

Lemma fm_set_present m k v w : fm_sorted m -> fm_find m k = Some w -> fm_set m k v ≡ₚ (k, v) :: fm_erase m k.
Proof.
  intros Hs Hf. assert (Hs' := fm_set_sorted m k v Hs).
  rewrite (fm_erase_present (fm_set m k v) k v) by (done || (rewrite fm_find_set by done; by rewrite Z.eqb_refl)).
  constructor. clear Hs'. induction Hs as [|j u m Hall Hs IH]; cbn in *; [done|].
  destruct (Z.eqb_spec k j) as [->|Hkj].
  - unfold fm_erase. rewrite !filter_cons. cbn. by rewrite !decide_False by lia.
  - destruct (Z.eqb_spec j k); [lia|]. destruct (Z.ltb_spec k j) as [Hlt|].
    + apply fm_find_in in Hf. rewrite Forall_forall in Hall. specialize (Hall _ Hf). cbn in Hall. lia.
    + unfold fm_erase in *. rewrite !filter_cons. cbn. rewrite !decide_True by lia. constructor. by apply IH.
Qed.

Lemma elem_fm_set m k v e : fm_sorted m -> e ∈ fm_set m k v <-> e = (k, v) \/ e ∈ m /\ fst e <> k.
Proof.
  intros Hs. destruct e as [k' v']. rewrite <- !fm_find_elem by auto using fm_set_sorted. rewrite fm_find_set by done.
  destruct (Z.eqb_spec k k') as [->|Hne]; cbn; split.
  - intros [= ->]. by left.
  - intros [[= ->]|[_ Hn]]; done.
  - intros Hf. right. by split; [|lia].
  - intros [[= -> ->]|[Hf _]]; done.
Qed.

Lemma elem_fm_erase m k e : e ∈ fm_erase m k <-> e ∈ m /\ fst e <> k.
Proof. unfold fm_erase. rewrite list_elem_of_filter. tauto. Qed.

End flat_map.

Create HintDb flat_map.
#[export] Hint Resolve fm_sorted_nil fm_set_sorted fm_emplace_sorted fm_erase_sorted : flat_map.
