(* ===== verification/Ranges.v ===== *)
(** Address ranges and the partitioned range of shared/utils.h
    ([AddressRange], [PartitionedAddressRange<void>]).

    A partitioned range is a tree: a bounding range with an ordered vector of
    partitioned sub-ranges.  Searches are the binary searches of the standard
    library.  The specification side reads the top level of the tree as a list
    of disjoint ordered ranges ([flat]) and describes removal by [cut]. *)

From S2P Require Import Prelude.

(** * AddressRange *)

Record AddressRange := mkRange { start : Z; end_ : Z }.

#[export] Instance AddressRange_eq_dec : EqDecision AddressRange.
Proof. solve_decision. Defined.

(** [checkRange]: an empty range that is not at 0 aborts the process. *)
Definition checkRange (s e : Z) : bool := (s =? e) && negb (s =? 0).

(** [AddressRange(start, end)] *)
Definition makeRange (s e : Z) : res AddressRange :=
  if checkRange s e then Abort else Ret (mkRange s e).

(** [AddressRange(const void *start, size_t size)] *)
Definition rangeOfSize (ptr size : Z) : res AddressRange := makeRange ptr (u64 (ptr + size)).

(** [AddressRange(const void *start)]: one byte *)
Definition rangeOfPtr (ptr : Z) : res AddressRange := makeRange ptr (u64 (ptr + 1)).

Definition createEmpty : AddressRange := mkRange 0 0.

Definition withinSize (size : Z) : res AddressRange := makeRange 0 size.

Definition contains (r el : AddressRange) : bool :=
  (start r <=? start el) && (start el <? end_ r) && (end_ el <=? end_ r).

Definition intersects (r el : AddressRange) : bool :=
  negb ((end_ el <=? start r) || (end_ r <=? start el) || (end_ r <=? start el) || (end_ el <=? start r)).

Definition rsize (r : AddressRange) : Z := u64 (end_ r - start r).

Definition rempty (r : AddressRange) : bool := rsize r =? 0.

(** * Binary search of [std::lower_bound] and [std::upper_bound]

    [p x] says that the searched position is after [x]. *)
Fixpoint bsearch {A} (p : A -> bool) (l : list A) (fuel first len : nat) : nat :=
  match fuel with
  | O => first
  | S fuel =>
      if Nat.eqb len 0 then first
      else
        let half := Nat.div2 len in
        match l !! (first + half)%nat with
        | Some x =>
            if p x then bsearch p l fuel (S (first + half)) (len - half - 1)
            else bsearch p l fuel first half
        | None => first
        end
  end.

Definition partition_point {A} (p : A -> bool) (l : list A) : nat :=
  bsearch p l (length l) 0 (length l).

(** * PartitionedAddressRange *)

Inductive PartitionedAddressRange : Type :=
| Part (d : AddressRange) (subs : list PartitionedAddressRange).

Definition desc (p : PartitionedAddressRange) : AddressRange :=
  let (d, _) := p in d.
Definition subRanges (p : PartitionedAddressRange) : list PartitionedAddressRange :=
  let (_, s) := p in s.

(** [PartitionedAddressRange(AddressRange desc)] *)
Definition leaf (d : AddressRange) : PartitionedAddressRange := Part d [].

Definition getBoundingRange (p : PartitionedAddressRange) : AddressRange := desc p.

Definition set_subs (p : PartitionedAddressRange) s := Part (desc p) s.
Definition set_start (p : PartitionedAddressRange) a := Part (mkRange a (end_ (desc p))) (subRanges p).
Definition set_end (p : PartitionedAddressRange) a := Part (mkRange (start (desc p)) a) (subRanges p).

Definition insertSubRange (p subRange : PartitionedAddressRange) : PartitionedAddressRange :=
  let d := desc p in
  let d' :=
    if contains d (desc subRange) then d
    else mkRange (if start (desc subRange) <? start d then start (desc subRange) else start d)
                 (if end_ d <? end_ (desc subRange) then end_ (desc subRange) else end_ d) in
  let pos := partition_point (fun rhs => negb (start (desc subRange) <? start (desc rhs))) (subRanges p) in
  Part d' (take pos (subRanges p) ++ subRange :: drop pos (subRanges p)).

(** [std::lower_bound] over the ends of the sub-ranges *)
Definition lowerBoundEnd (s : Z) (l : list PartitionedAddressRange) : nat :=
  partition_point (fun lhs => end_ (desc lhs) <=? s) l.

(** The returned pointer is the index of the sub-range. *)
Definition findSubRange (p : PartitionedAddressRange) (d : AddressRange) : option nat :=
  if negb (contains (desc p) d) then None
  else
    let pos := lowerBoundEnd (start d) (subRanges p) in
    match subRanges p !! pos with
    | None => None
    | Some sub => if contains (desc sub) d then Some pos else None
    end.

Definition getIntersectedSubRangesPos (p : PartitionedAddressRange) (d : AddressRange) : nat :=
  if negb (intersects (desc p) d) then length (subRanges p)
  else lowerBoundEnd (start d) (subRanges p).

Definition intersectsSubRanges (p : PartitionedAddressRange) (d : AddressRange) : bool :=
  match subRanges p !! getIntersectedSubRangesPos p d with
  | None => false
  | Some sub => intersects (desc sub) d
  end.

(** The longest prefix whose elements satisfy [f] (the [while] scans). *)
Fixpoint take_while {A} (f : A -> bool) (l : list A) : list A :=
  match l with
  | [] => []
  | x :: l => if f x then x :: take_while f l else []
  end.

(** The pointers returned by the code are the sub-ranges themselves here. *)
Definition getIntersectedSubRanges (p : PartitionedAddressRange) (d : AddressRange)
  : list PartitionedAddressRange :=
  take_while (fun sub => intersects (desc sub) d) (drop (getIntersectedSubRangesPos p d) (subRanges p)).

Fixpoint diff_loop (lastEnd : Z) (l : list PartitionedAddressRange) (acc : list AddressRange)
  : res (Z * list AddressRange) :=
  match l with
  | [] => Ret (lastEnd, acc)
  | x :: l =>
      let s := start (desc x) in
      if s =? lastEnd then diff_loop (end_ (desc x)) l acc
      else r ← makeRange lastEnd s; diff_loop (end_ (desc x)) l (acc ++ [r])
  end.

Definition getSubRangesDiffFrom (p : PartitionedAddressRange) (lhs : AddressRange)
  : res (list AddressRange) :=
  match getIntersectedSubRanges p lhs with
  | [] => Ret [lhs]
  | x :: rest =>
      acc ← (if start lhs <? start (desc x)
             then r ← makeRange (start lhs) (start (desc x)); Ret [r] else Ret []);
      lr ← diff_loop (end_ (desc x)) rest acc;
      if lr.1 <? end_ lhs
      then r ← makeRange lr.1 (end_ lhs); Ret (lr.2 ++ [r])
      else Ret lr.2
  end.

(** [destroySubRange] recurses into the sub-range it trims; [fuel] bounds the
    nesting depth ([height] of the tree is enough, [destroy_fuel_correct]). *)
Fixpoint destroySubRange_fuel (fuel : nat) (p : PartitionedAddressRange) (range : AddressRange)
  : res (PartitionedAddressRange * Z) :=
  match fuel with
  | O => Undef
  | S fuel =>
      let subs := subRanges p in
      let pos := getIntersectedSubRangesPos p range in
      match subs !! pos with
      | None => Ret (p, 0)
      | Some cur =>
          if bool_decide (range = desc cur) then Ret (set_subs p (delete pos subs), 1)
          else if contains (desc cur) range then
            if start (desc cur) =? start range then
              r ← destroySubRange_fuel fuel cur range;
              Ret (set_subs p (<[pos := set_start r.1 (end_ range)]> subs), 1)
            else if end_ (desc cur) =? end_ range then
              r ← destroySubRange_fuel fuel cur range;
              Ret (set_subs p (<[pos := set_end r.1 (start range)]> subs), 1)
            else
              let rhs := cur in
              rng ← makeRange (start range) (end_ (desc cur));
              r ← destroySubRange_fuel fuel cur rng;
              let cur' := set_end r.1 (start range) in
              rng' ← makeRange (start (desc cur')) (end_ range);
              r' ← destroySubRange_fuel fuel rhs rng';
              let rhs' := set_start r'.1 (end_ range) in
              Ret (insertSubRange (set_subs p (<[pos := cur']> subs)) rhs', 1)
          else
            let dcb := if start (desc cur) <? start range then S pos else pos in
            let mid := take_while (fun x => contains range (desc x)) (drop dcb subs) in
            let dce := (dcb + length mid)%nat in
            let numImpacted := Z.of_nat dce - Z.of_nat pos in
            ln ← match subs !! dce with
                 | Some last =>
                     if intersects range (desc last) then
                       r ← destroySubRange_fuel fuel last range;
                       Ret (<[dce := set_start r.1 (end_ range)]> subs, numImpacted + 1)
                     else Ret (subs, numImpacted)
                 | None => Ret (subs, numImpacted)
                 end;
            subs'' ← (if negb (Nat.eqb pos dcb) then
                        r ← destroySubRange_fuel fuel cur range;
                        Ret (<[pos := set_end r.1 (start range)]> ln.1)
                      else Ret ln.1);
            Ret (set_subs p (take dcb subs'' ++ drop dce subs''), ln.2)
      end
  end.

Fixpoint height (p : PartitionedAddressRange) : nat :=
  match p with
  | Part _ subs => S (fold_right (fun s n => Nat.max (height s) n) O subs)
  end.

Definition destroySubRange (p : PartitionedAddressRange) (range : AddressRange)
  : res (PartitionedAddressRange * Z) :=
  destroySubRange_fuel (height p) p range.

(** * The binary search finds the partition point *)

Lemma bsearch_correct {A} (p : A -> bool) l n fuel first len :
  (forall i x, l !! i = Some x -> p x = true <-> (i < n)%nat) ->
  (first <= n)%nat -> (n <= first + len)%nat -> (first + len <= length l)%nat -> (len <= fuel)%nat ->
  bsearch p l fuel first len = n.
Proof.
  intros Hp. revert first len. induction fuel as [|fuel IH]; intros first len H1 H2 H3 H4; cbn -[Nat.eqb Nat.div2]; [lia|].
  destruct (Nat.eqb_spec len 0); [lia|].
  assert (Hhalf : (Nat.div2 len < len)%nat) by (apply Nat.lt_div2; lia).
  destruct (lookup_lt_is_Some_2 l (first + Nat.div2 len)) as [x Hx]; [lia|].
  rewrite Hx. specialize (Hp _ _ Hx) as Hpx.
  set (half := Nat.div2 len) in *. clearbody half. destruct (p x).
  - assert (first + half < n)%nat by (by apply Hpx). apply IH; lia.
  - apply IH; lia.
Qed.

Lemma partition_point_app {A} (p : A -> bool) l1 l2 :
  Forall (fun x => p x = true) l1 -> Forall (fun x => p x = false) l2 ->
  partition_point p (l1 ++ l2) = length l1.
Proof.
  intros H1 H2. apply bsearch_correct; rewrite ?length_app; try lia.
  intros i x Hx. destruct (Nat.lt_ge_cases i (length l1)).
  - rewrite lookup_app_l in Hx by done. rewrite Forall_lookup in H1. naive_solver.
  - rewrite lookup_app_r in Hx by done. rewrite Forall_lookup in H2.
    apply H2 in Hx. rewrite Hx. split; [done|lia].
Qed.

(** * Ordered lists of ranges and the reference removal *)

Fixpoint ordered (lo : Z) (l : list AddressRange) (hi : Z) : Prop :=
  match l with
  | [] => lo <= hi
  | r :: l => lo <= start r /\ start r < end_ r /\ ordered (end_ r) l hi
  end.

Definition flat (p : PartitionedAddressRange) : list AddressRange := desc <$> subRanges p.

(** Every level of the tree is ordered, disjoint and inside its bounds. *)
Inductive wf : PartitionedAddressRange -> Prop :=
| wf_intro d s : ordered (start d) (desc <$> s) (end_ d) -> Forall wf s -> wf (Part d s).

(** What is left of [x] when [r] is removed. *)
Definition pieces (r x : AddressRange) : list AddressRange :=
  (if start x <? Z.min (end_ x) (start r) then [mkRange (start x) (Z.min (end_ x) (start r))] else [])
  ++ (if Z.max (start x) (end_ r) <? end_ x then [mkRange (Z.max (start x) (end_ r)) (end_ x)] else []).

Definition cut (r : AddressRange) (l : list AddressRange) : list AddressRange :=
  concat (pieces r <$> l).

(** The addresses of a list of ranges. *)
Definition covered (l : list AddressRange) (a : Z) : Prop :=
  Exists (fun r => start r <= a < end_ r) l.

Lemma ordered_le lo l hi : ordered lo l hi -> lo <= hi.
Proof. revert lo. induction l as [|r l IH]; simpl; [done|]. intros lo (? & ? & H). apply IH in H. lia. Qed.

Lemma ordered_app lo l1 l2 hi :
  ordered lo (l1 ++ l2) hi <-> exists m, ordered lo l1 m /\ ordered m l2 hi.
Proof.
  revert lo. induction l1 as [|r l1 IH]; intros lo; simpl.
  - split; [intros H; by exists lo|]. intros (m & Hle & H). destruct l2; simpl in *; [lia|].
    intuition lia.
  - rewrite IH. naive_solver.
Qed.

Lemma ordered_weaken lo lo' l hi hi' : ordered lo l hi -> lo' <= lo -> hi <= hi' -> ordered lo' l hi'.
Proof.
  intros H Hlo Hhi. revert lo lo' H Hlo. induction l as [|x l IH]; simpl; intros lo lo'; [lia|].
  intros (? & ? & H) ?. split_and!; [lia|done|]. by apply (IH (end_ x)).
Qed.

Lemma ordered_Forall lo l hi :
  ordered lo l hi -> Forall (fun r => lo <= start r /\ start r < end_ r /\ end_ r <= hi) l.
Proof.
  revert lo. induction l as [|r l IH]; simpl; intros lo H; constructor.
  - destruct H as (? & ? & H). apply ordered_le in H. lia.
  - destruct H as (? & ? & H). apply IH in H. eapply Forall_impl; [done|]. simpl. lia.
Qed.

Lemma ordered_below lo l hi b :
  ordered lo l hi -> lo <= b -> Forall (fun r => end_ r <= b) l -> ordered lo l b.
Proof.
  intros Ho Hb Hf. revert lo Ho Hb. induction Hf as [|x l Hx _ IH]; simpl; intros lo; [done|].
  intros (? & ? & ?) ?. split_and!; [done..|]. by apply IH.
Qed.

Lemma ordered_above lo l hi b :
  ordered lo l hi -> b <= hi -> Forall (fun r => b <= start r) l -> ordered b l hi.
Proof. destruct l as [|x l]; simpl; [done|]. intros (? & ? & ?) _ [? _]%Forall_cons. done. Qed.

Lemma covered_app l1 l2 a : covered (l1 ++ l2) a <-> covered l1 a \/ covered l2 a.
Proof. apply Exists_app. Qed.

Lemma covered_cons r l a : covered (r :: l) a <-> start r <= a < end_ r \/ covered l a.
Proof. apply Exists_cons. Qed.

Lemma covered_nil a : covered [] a <-> False.
Proof. apply Exists_nil. Qed.

Lemma covered_bounds lo l hi a : ordered lo l hi -> covered l a -> lo <= a < hi.
Proof.
  intros Ho Hc. apply ordered_Forall in Ho. apply Exists_exists in Hc as (r & Hin & Hr).
  rewrite Forall_forall in Ho. specialize (Ho r Hin). lia.
Qed.

Lemma covered_pieces r x a :
  start r <= end_ r -> covered (pieces r x) a <-> start x <= a < end_ x /\ ~ (start r <= a < end_ r).
Proof.
  intros Hr. unfold pieces. rewrite covered_app.
  destruct (Z.ltb_spec (start x) (Z.min (end_ x) (start r)));
    destruct (Z.ltb_spec (Z.max (start x) (end_ r)) (end_ x));
    rewrite ?covered_cons, ?covered_nil; simpl; lia.
Qed.

Lemma covered_cut r l a :
  start r <= end_ r -> covered (cut r l) a <-> covered l a /\ ~ (start r <= a < end_ r).
Proof.
  intros Hr. unfold cut. induction l as [|x l IH]; simpl; [rewrite !covered_nil; tauto|].
  rewrite covered_app, covered_cons, IH, covered_pieces by done. tauto.
Qed.

Lemma pieces_ordered r x lo hi :
  start r <= end_ r -> lo <= start x -> end_ x <= hi -> start x < end_ x -> ordered lo (pieces r x) hi.
Proof.
  intros. unfold pieces.
  destruct (Z.ltb_spec (start x) (Z.min (end_ x) (start r)));
    destruct (Z.ltb_spec (Z.max (start x) (end_ r)) (end_ x)); simpl; lia.
Qed.

Lemma cut_ordered r lo l hi : start r <= end_ r -> ordered lo l hi -> ordered lo (cut r l) hi.
Proof.
  intros Hr. unfold cut. revert lo. induction l as [|x l IH]; simpl; intros lo; [done|].
  intros (H1 & H2 & H3). apply ordered_app. exists (end_ x). split; [|by apply IH].
  by apply pieces_ordered.
Qed.

Lemma pieces_disjoint r x : end_ x <= start r \/ end_ r <= start x -> start x < end_ x ->
  start r <= end_ r -> pieces r x = [x].
Proof.
  intros. unfold pieces. destruct x as [s e]; simpl in *.
  destruct (Z.ltb_spec s (Z.min e (start r))); destruct (Z.ltb_spec (Z.max s (end_ r)) e);
    simpl; try lia; f_equal; f_equal; lia.
Qed.

Lemma cut_app r l1 l2 : cut r (l1 ++ l2) = cut r l1 ++ cut r l2.
Proof. unfold cut. by rewrite fmap_app, concat_app. Qed.

Lemma cut_cons r x l : cut r (x :: l) = pieces r x ++ cut r l.
Proof. done. Qed.

Lemma cut_disjoint r l :
  start r <= end_ r -> Forall (fun x => start x < end_ x /\ (end_ x <= start r \/ end_ r <= start x)) l ->
  cut r l = l.
Proof.
  intros Hr. induction 1 as [|x l [Hx Hd] _ IH]; [done|].
  rewrite cut_cons, IH, pieces_disjoint by done. done.
Qed.

Lemma cut_inside r l :
  Forall (fun x => start r <= start x /\ end_ x <= end_ r) l -> cut r l = [].
Proof.
  induction 1 as [|x l Hx _ IH]; [done|]. rewrite cut_cons, IH. unfold pieces.
  destruct (Z.ltb_spec (start x) (Z.min (end_ x) (start r))); [lia|].
  destruct (Z.ltb_spec (Z.max (start x) (end_ r)) (end_ x)); [lia|]. done.
Qed.

(** Trimming a range whose lower (upper) part has been removed. *)
Lemma cut_above r lo l hi :
  start r <= lo -> start r <= end_ r -> end_ r <= hi -> ordered lo l hi ->
  ordered (end_ r) (cut r l) hi.
Proof.
  intros Hlo Hr Hhi. revert lo Hlo. induction l as [|x l IH]; intros lo Hlo; simpl; [done|].
  intros (H1 & H2 & H3). rewrite cut_cons.
  destruct (Z.le_gt_cases (end_ x) (end_ r)).
  - unfold pieces.
    destruct (Z.ltb_spec (start x) (Z.min (end_ x) (start r))); [lia|].
    destruct (Z.ltb_spec (Z.max (start x) (end_ r)) (end_ x)); [lia|]. simpl.
    apply (IH (end_ x)); [lia|done].
  - apply ordered_app. exists (end_ x). split.
    + unfold pieces.
      destruct (Z.ltb_spec (start x) (Z.min (end_ x) (start r))); [lia|].
      destruct (Z.ltb_spec (Z.max (start x) (end_ r)) (end_ x)); simpl; lia.
    + by apply cut_ordered.
Qed.

Lemma cut_below r lo l hi :
  lo <= start r -> start r <= end_ r -> hi <= end_ r -> ordered lo l hi ->
  ordered lo (cut r l) (start r).
Proof.
  intros Hlo Hr Hhi Ho. apply (cut_ordered r) in Ho as Ho'; [|done].
  assert (Hc : Forall (fun x => end_ x <= start r) (cut r l)).
  { apply ordered_Forall in Ho'. apply Forall_forall. intros x Hx.
    rewrite Forall_forall in Ho'. specialize (Ho' x Hx).
    destruct (Z.le_gt_cases (end_ x) (start r)); [done|exfalso].
    assert (Hcov : covered (cut r l) (end_ x - 1)) by (apply Exists_exists; exists x; split; [done|lia]).
    apply covered_cut in Hcov as [_ Hn]; [|done]. lia. }
  clear Ho. revert lo Hlo Ho'. induction Hc as [|x c Hx _ IH]; intros lo Hlo; simpl; [lia|].
  intros (H1 & H2 & H3). split_and!; try lia. apply IH; [lia|done].
Qed.

(** * Positions found by the searches *)

Definition disjoint (r x : AddressRange) : Prop := end_ x <= start r \/ end_ r <= start x.

Lemma lowerBound_split s lo subs hi :
  ordered lo (desc <$> subs) hi ->
  exists l1 l2, subs = l1 ++ l2 /\ lowerBoundEnd s subs = length l1 /\
    Forall (fun x => end_ (desc x) <= s) l1 /\ Forall (fun x => s < end_ (desc x)) l2.
Proof.
  intros Ho.
  assert (exists l1 l2, subs = l1 ++ l2 /\ Forall (fun x => end_ (desc x) <= s) l1 /\
            Forall (fun x => s < end_ (desc x)) l2) as (l1 & l2 & -> & H1 & H2).
  { revert lo Ho. induction subs as [|x subs IH]; intros lo Ho; [by exists [], []|].
    simpl in Ho. destruct Ho as (? & ? & Ho).
    destruct (Z.le_gt_cases (end_ (desc x)) s) as [Hle|Hgt].
    - destruct (IH _ Ho) as (l1 & l2 & -> & H1 & H2). exists (x :: l1), l2. by rewrite Forall_cons.
    - exists [], (x :: subs). split_and!; [done|done|]. apply Forall_cons. split; [lia|].
      apply ordered_Forall in Ho. apply Forall_fmap in Ho. eapply Forall_impl; [done|]. simpl. lia. }
  exists l1, l2. split_and!; [done| |done|done].
  apply partition_point_app; eapply Forall_impl; try done; simpl; intros; [by apply Z.leb_le|].
  by apply Z.leb_gt.
Qed.

Lemma intersects_spec r x :
  start r < end_ r -> start x < end_ x -> intersects x r = true <-> ~ disjoint r x.
Proof.
  intros. unfold intersects, disjoint.
  destruct (Z.leb_spec (end_ r) (start x)); destruct (Z.leb_spec (end_ x) (start r)); simpl; split; try done; lia.
Qed.

Lemma intersects_false r x :
  start r < end_ r -> start x < end_ x -> intersects x r = false <-> disjoint r x.
Proof.
  intros. unfold intersects, disjoint.
  destruct (Z.leb_spec (end_ r) (start x)); destruct (Z.leb_spec (end_ x) (start r)); simpl; split; try done; lia.
Qed.

(** The sub-ranges before the position are disjoint from the searched range. *)
Lemma pos_split p r :
  wf p -> start r < end_ r ->
  exists l1 l2, subRanges p = l1 ++ l2 /\ getIntersectedSubRangesPos p r = length l1 /\
    Forall (fun x => disjoint r (desc x)) l1 /\ Forall (fun x => start r < end_ (desc x)) l2.
Proof.
  intros Hwf Hr. destruct Hwf as [d subs Ho _]. unfold getIntersectedSubRangesPos. simpl.
  destruct (intersects d r) eqn:Hi; simpl.
  - destruct (lowerBound_split (start r) _ _ _ Ho) as (l1 & l2 & -> & Hp & H1 & H2).
    exists l1, l2. split_and!; try done. eapply Forall_impl; [done|]. simpl. by left.
  - exists subs, []. rewrite app_nil_r. split_and!; try done.
    assert (Hd : end_ d <= start r \/ end_ r <= start d).
    { unfold intersects in Hi. bool_prop. destruct (Z.leb_spec (end_ r) (start d)); [by right|].
      destruct (Z.leb_spec (end_ d) (start r)); [by left|]. done. }
    apply ordered_Forall in Ho. apply Forall_fmap in Ho. eapply Forall_impl; [done|].
    intros x. unfold disjoint. simpl. lia.
Qed.

Lemma take_while_split {A} (f : A -> bool) l :
  exists rest, l = take_while f l ++ rest /\ Forall (fun x => f x = true) (take_while f l) /\
    (rest = [] \/ exists x tl, rest = x :: tl /\ f x = false).
Proof.
  induction l as [|x l IH]; simpl; [by exists []; auto|].
  destruct (f x) eqn:Hf.
  - destruct IH as (rest & Hl & Ht & Hr). exists rest. rewrite Forall_cons. simpl. by rewrite <- Hl.
  - exists (x :: l). split_and!; try done. right. by exists x, l.
Qed.

Lemma wf_ordered p : wf p -> ordered (start (desc p)) (flat p) (end_ (desc p)).
Proof. by intros [d s Ho _]. Qed.

Lemma wf_subs p : wf p -> Forall wf (subRanges p).
Proof. by intros [d s _ Hs]. Qed.

Lemma flat_app d l1 x l2 : flat (Part d (l1 ++ x :: l2)) = (desc <$> l1) ++ desc x :: (desc <$> l2).
Proof. unfold flat. simpl. by rewrite fmap_app. Qed.

(** Around a sub-range of an ordered list. *)
Lemma ordered_middle lo l1 x l2 hi :
  ordered lo (l1 ++ x :: l2) hi ->
  ordered lo l1 (start x) /\ start x < end_ x /\ ordered (end_ x) l2 hi.
Proof.
  intros (m & H1 & H2 & H3 & H4)%ordered_app. split_and!; try done.
  eapply ordered_weaken; [done|lia|done].
Qed.

(** Trimming the removed part off a sub-range keeps it well-formed. *)
Lemma trim_start r c c' :
  wf c -> wf c' -> desc c' = desc c -> flat c' = cut r (flat c) ->
  start r <= start (desc c) -> start r <= end_ r -> end_ r <= end_ (desc c) ->
  wf (set_start c' (end_ r)).
Proof.
  intros Hc Hc' Hd Hf ? ? ?. unfold set_start. constructor; [|by apply wf_subs].
  change (desc <$> subRanges c') with (flat c'). rewrite Hf, Hd. simpl.
  eapply (cut_above r (start (desc c))); [done..|]. by apply wf_ordered.
Qed.

Lemma trim_end r c c' :
  wf c -> wf c' -> desc c' = desc c -> flat c' = cut r (flat c) ->
  start (desc c) <= start r -> start r <= end_ r -> end_ (desc c) <= end_ r ->
  wf (set_end c' (start r)).
Proof.
  intros Hc Hc' Hd Hf ? ? ?. unfold set_end. constructor; [|by apply wf_subs].
  change (desc <$> subRanges c') with (flat c'). rewrite Hf, Hd. simpl.
  eapply (cut_below r _ _ (end_ (desc c))); [done..|]. by apply wf_ordered.
Qed.

Lemma height_sub p s : s ∈ subRanges p -> (height s < height p)%nat.
Proof.
  destruct p as [d subs]. simpl. intros Hs. induction Hs as [x l|x y l _ IH]; simpl; lia.
Qed.

(** * Removal *)

(** The number of top-level ranges met by [r]. *)
Definition hits (r : AddressRange) (l : list AddressRange) : Z :=
  Z.of_nat (length (List.filter (fun x => intersects x r) l)).

Definition destroyed (r : AddressRange) (p q : PartitionedAddressRange) : Prop :=
  desc q = desc p /\ flat q = cut r (flat p) /\ wf q.

Lemma hits_app r l1 l2 : hits r (l1 ++ l2) = hits r l1 + hits r l2.
Proof. unfold hits. rewrite List.filter_app, length_app. lia. Qed.

Lemma hits_cons r x l : hits r (x :: l) = (if intersects x r then 1 else 0) + hits r l.
Proof. unfold hits. simpl. destruct (intersects x r); simpl length; lia. Qed.

Lemma hits_disjoint r l :
  start r < end_ r -> Forall (fun x => start x < end_ x /\ disjoint r x) l -> hits r l = 0.
Proof.
  intros Hr. induction 1 as [|x l [Hx Hd] _ IH]; [done|].
  rewrite hits_cons, IH. by rewrite (proj2 (intersects_false r x Hr Hx)).
Qed.

Lemma destroyed_intro r d s s' :
  wf (Part d s) -> start r <= end_ r -> desc <$> s' = cut r (desc <$> s) -> Forall wf s' ->
  destroyed r (Part d s) (Part d s').
Proof.
  intros Hwf Hr Hs Hall. apply wf_ordered in Hwf. split_and!; [done..|].
  constructor; [|done]. rewrite Hs. by apply (cut_ordered r).
Qed.

Lemma contains_spec r x :
  contains r x = true <-> start r <= start x /\ start x < end_ r /\ end_ x <= end_ r.
Proof. unfold contains. rewrite !andb_true_iff, !Z.leb_le, Z.ltb_lt. tauto. Qed.

Lemma contains_false r x :
  start x < end_ x -> contains r x = false <-> start x < start r \/ end_ r < end_ x.
Proof.
  intros. rewrite <- not_true_iff_false, contains_spec. lia.
Qed.

(** The part of the vector at and after the position, when nothing in it
    starts before the removed range. *)
Lemma tail_removed r lo (mid rest : list PartitionedAddressRange) hi :
  start r < end_ r ->
  ordered lo (desc <$> mid ++ rest) hi -> Forall (fun x => start r <= start (desc x)) (mid ++ rest) ->
  Forall (fun x => contains r (desc x) = true) mid ->
  (rest = [] \/ exists x tl, rest = x :: tl /\ contains r (desc x) = false) ->
  hits r (desc <$> mid) = Z.of_nat (length mid) /\ cut r (desc <$> mid) = [] /\
  (rest = [] \/ exists x tl, rest = x :: tl /\
     hits r (desc <$> tl) = 0 /\ cut r (desc <$> tl) = desc <$> tl /\
     start (desc x) < end_ (desc x) /\
     if intersects r (desc x)
     then intersects (desc x) r = true /\ start r <= start (desc x) /\ end_ r < end_ (desc x) /\
          pieces r (desc x) = [mkRange (end_ r) (end_ (desc x))]
     else intersects (desc x) r = false /\ pieces r (desc x) = [desc x]).
Proof.
  intros Hr Ho Hge Hmid Hrest. split_and!.
  - clear Hrest. revert lo Ho. induction Hmid as [|x mid Hx _ IH]; intros lo Ho; [done|].
    simpl in Ho, Hge. destruct Ho as (H1 & H2 & H3). apply Forall_cons in Hge as [Hg Hge].
    change (desc <$> x :: mid) with (desc x :: (desc <$> mid)).
    rewrite hits_cons, (IH Hge _ H3).
    apply contains_spec in Hx.
    rewrite (proj2 (intersects_spec r (desc x) Hr H2)) by (unfold disjoint; lia).
    change (length (x :: mid)) with (S (length mid)). lia.
  - apply cut_inside. apply Forall_fmap. eapply Forall_impl; [done|].
    intros x Hx. apply contains_spec in Hx. simpl. lia.
  - destruct Hrest as [->|(x & tl & -> & Hx)]; [by left|]. right. exists x, tl.
    rewrite fmap_app in Ho. apply ordered_app in Ho as (m & _ & Hb & Hne & Ho). fold (desc <$> tl) in Ho.
    apply Forall_app in Hge as [_ Hge]. apply Forall_cons in Hge as [Hg _].
    apply contains_false in Hx; [|done].
    assert (Htl : Forall (fun y => start y < end_ y /\ disjoint r y) (desc <$> tl)).
    { apply ordered_Forall in Ho. eapply Forall_impl; [done|]. unfold disjoint. simpl. intros.
      destruct Hx; [lia|]. lia. }
    split; [done|]. split; [by apply hits_disjoint|]. split; [|split; [done|]].
    { apply cut_disjoint; [lia|]. eapply Forall_impl; [done|]. unfold disjoint. simpl. lia. }
    assert (Hsym : intersects r (desc x) = intersects (desc x) r).
    { unfold intersects. repeat match goal with |- context [?a <=? ?b] => destruct (a <=? b) end; done. }
    rewrite Hsym. destruct (intersects (desc x) r) eqn:Hi.
    + apply intersects_spec in Hi; [|done..]. unfold disjoint in Hi. split_and!; [done|lia|lia|].
      unfold pieces. destruct (Z.ltb_spec (start (desc x)) (Z.min (end_ (desc x)) (start r))); [lia|].
      destruct (Z.ltb_spec (Z.max (start (desc x)) (end_ r)) (end_ (desc x))); [|lia]. simpl.
      do 2 f_equal. lia.
    + apply intersects_false in Hi; [|done..]. split; [done|]. apply pieces_disjoint; [done|done|lia].
Qed.

(** Pieces of a sub-range that starts before the removed range. *)
Lemma pieces_head r x :
  start x < start r -> start r < end_ x -> end_ x <= end_ r -> pieces r x = [mkRange (start x) (start r)].
Proof.
  intros. unfold pieces. destruct (Z.ltb_spec (start x) (Z.min (end_ x) (start r))); [|lia].
  destruct (Z.ltb_spec (Z.max (start x) (end_ r)) (end_ x)); [lia|]. simpl. do 2 f_equal. lia.
Qed.

Lemma pieces_contained r x :
  start r < end_ r -> start x <= start r -> end_ r <= end_ x ->
  pieces r x = (if start x =? start r then [] else [mkRange (start x) (start r)]) ++
               (if end_ x =? end_ r then [] else [mkRange (end_ r) (end_ x)]).
Proof.
  intros. unfold pieces.
  destruct (Z.eqb_spec (start x) (start r)); destruct (Z.ltb_spec (start x) (Z.min (end_ x) (start r))); try lia;
  destruct (Z.eqb_spec (end_ x) (end_ r)); destruct (Z.ltb_spec (Z.max (start x) (end_ r)) (end_ x)); try lia;
  simpl; repeat f_equal; lia.
Qed.

(** Shared shape of the cases: the ranges before the position are untouched. *)
Lemma prefix_cut r d l1 l2 :
  wf (Part d (l1 ++ l2)) -> start r < end_ r -> Forall (fun x => disjoint r (desc x)) l1 ->
  cut r (desc <$> l1) = desc <$> l1 /\ hits r (desc <$> l1) = 0 /\
  exists m, ordered m (desc <$> l2) (end_ d).
Proof.
  intros Hwf Hr Hd. apply wf_ordered in Hwf. unfold flat in Hwf. simpl in Hwf.
  rewrite fmap_app in Hwf. apply ordered_app in Hwf as (m & H1 & H2).
  assert (Hf : Forall (fun y => start y < end_ y /\ disjoint r y) (desc <$> l1)).
  { apply Forall_fmap. apply ordered_Forall, Forall_fmap in H1.
    pose proof (proj2 (Forall_and _ _) (conj Hd H1)) as Hd'.
    eapply Forall_impl; [exact Hd'|]. simpl. intuition. }
  split_and!.
  - apply cut_disjoint; [lia|]. eapply Forall_impl; [done|]. unfold disjoint. simpl. lia.
  - by apply hits_disjoint.
  - by exists m.
Qed.

Lemma wf_replace d l1 x y l2 : Forall wf (subRanges (Part d (l1 ++ x :: l2))) -> wf y -> Forall wf (l1 ++ y :: l2).
Proof. simpl. rewrite !Forall_app, !Forall_cons. tauto. Qed.

Definition destroys (m : res (PartitionedAddressRange * Z)) (r : AddressRange) (p : PartitionedAddressRange) : Prop :=
  exists q n, m ⇓ (q, n) /\ destroyed r p q /\ n = hits r (flat p).

Section removal_step.
Context (fuel : nat).
Context (IH : forall c r, (height c <= fuel)%nat -> wf c -> start r < end_ r ->
               destroys (destroySubRange_fuel fuel c r) r c).

Lemma makeRange_ok s e : s <> e -> makeRange s e ⇓ mkRange s e.
Proof. intros. unfold makeRange, checkRange. by rewrite (proj2 (Z.eqb_neq s e)). Qed.

(** Case: the removed range lies inside one sub-range. *)
Lemma destroy_inside d l1 cur l2 r :
  wf (Part d (l1 ++ cur :: l2)) -> (height cur <= fuel)%nat -> start r < end_ r ->
  Forall (fun x => disjoint r (desc x)) l1 ->
  r <> desc cur -> contains (desc cur) r = true ->
  destroys (
    if start (desc cur) =? start r then
      q ← destroySubRange_fuel fuel cur r;
      Ret (set_subs (Part d (l1 ++ cur :: l2)) (<[length l1 := set_start q.1 (end_ r)]> (l1 ++ cur :: l2)), 1)
    else if end_ (desc cur) =? end_ r then
      q ← destroySubRange_fuel fuel cur r;
      Ret (set_subs (Part d (l1 ++ cur :: l2)) (<[length l1 := set_end q.1 (start r)]> (l1 ++ cur :: l2)), 1)
    else
      rng ← makeRange (start r) (end_ (desc cur));
      q ← destroySubRange_fuel fuel cur rng;
      rng' ← makeRange (start (desc (set_end q.1 (start r)))) (end_ r);
      q' ← destroySubRange_fuel fuel cur rng';
      Ret (insertSubRange (set_subs (Part d (l1 ++ cur :: l2))
             (<[length l1 := set_end q.1 (start r)]> (l1 ++ cur :: l2))) (set_start q'.1 (end_ r)), 1))
    r (Part d (l1 ++ cur :: l2)).
Proof.
  intros Hwf Hh Hr Hd Hne Hc. apply contains_spec in Hc.
  destruct (prefix_cut r d l1 (cur :: l2) Hwf Hr Hd) as (Hc1 & Hh1 & m & Ho).
  destruct Ho as (Hm & Hx & Ho). fold (desc <$> l2) in Ho.
  pose proof (wf_subs _ Hwf) as Hs. apply Forall_app in Hs as Hs'. destruct Hs' as [_ Hs']. apply Forall_cons in Hs' as [Hwc _].
  assert (Htl : Forall (fun y => start y < end_ y /\ disjoint r y) (desc <$> l2)).
  { apply ordered_Forall in Ho. eapply Forall_impl; [done|]. unfold disjoint. simpl. intros. lia. }
  assert (Hc2 : cut r (desc <$> l2) = desc <$> l2).
  { apply cut_disjoint; [lia|]. eapply Forall_impl; [done|]. unfold disjoint. simpl. lia. }
  assert (Hn : 1 = hits r (flat (Part d (l1 ++ cur :: l2)))).
  { rewrite flat_app, hits_app, hits_cons, Hh1, (hits_disjoint _ _ Hr Htl).
    rewrite (proj2 (intersects_spec r (desc cur) Hr Hx)) by (unfold disjoint; lia). done. }
  assert (Hcut : cut r (desc <$> l1 ++ cur :: l2) = (desc <$> l1) ++ pieces r (desc cur) ++ (desc <$> l2)).
  { by rewrite fmap_app, cut_app, Hc1, fmap_cons, cut_cons, Hc2. }
  rewrite pieces_contained in Hcut by lia.
  destruct (Z.eqb_spec (start (desc cur)) (start r)) as [He|He].
  - destruct (IH cur r Hh Hwc Hr) as (q & n & -> & (Hqd & Hqf & Hqw) & _).
    eexists _, _. split; [done|]. split; [|done]. simpl. rewrite insert_middle.
    assert (end_ (desc cur) <> end_ r) by (intros ?; apply Hne; destruct r, (desc cur); simpl in *; congruence).
    apply destroyed_intro; [done|lia| |].
    + rewrite Hcut, (proj2 (Z.eqb_neq _ _)) by done. rewrite fmap_app, fmap_cons. simpl. by rewrite Hqd.
    + eapply wf_replace; [done|]. eapply (trim_start r cur); [done..|lia|lia|lia].
  - destruct (Z.eqb_spec (end_ (desc cur)) (end_ r)) as [He'|He'].
    + destruct (IH cur r Hh Hwc Hr) as (q & n & -> & (Hqd & Hqf & Hqw) & _).
      eexists _, _. split; [done|]. split; [|done]. simpl. rewrite insert_middle.
      apply destroyed_intro; [done|lia| |].
      * rewrite Hcut, fmap_app, fmap_cons. simpl. by rewrite Hqd.
      * eapply wf_replace; [done|]. eapply (trim_end r cur); [done..|lia|lia|lia].
    + rewrite makeRange_ok by lia. simpl.
      destruct (IH cur (mkRange (start r) (end_ (desc cur))) Hh Hwc) as (q & n & -> & (Hqd & Hqf & Hqw) & _); [simpl; lia|].
      simpl. rewrite Hqd, makeRange_ok by lia. simpl.
      destruct (IH cur (mkRange (start (desc cur)) (end_ r)) Hh Hwc) as (q' & n' & -> & (Hqd' & Hqf' & Hqw') & _); [simpl; lia|].
      simpl. eexists _, _. split; [done|]. split; [|done]. rewrite insert_middle.
      unfold insertSubRange. simpl. rewrite Hqd'.
      assert (Hd1 : start d <= start (desc cur) /\ end_ (desc cur) <= end_ d).
      { apply wf_ordered in Hwf. rewrite flat_app in Hwf. apply ordered_middle in Hwf as (Ha & _ & Hb).
        apply ordered_le in Ha, Hb. simpl in *. lia. }
      rewrite (proj2 (contains_spec d _)) by (simpl; lia).
      replace (l1 ++ set_end q (start r) :: l2) with ((l1 ++ [set_end q (start r)]) ++ l2) by by rewrite <- app_assoc.
      rewrite (partition_point_app _ (l1 ++ [set_end q (start r)]) l2).
      2: { apply Forall_app. split.
           - apply wf_ordered in Hwf. rewrite flat_app in Hwf. apply ordered_middle in Hwf as (Ha & _ & _).
             apply ordered_Forall, Forall_fmap in Ha. eapply Forall_impl; [exact Ha|]. simpl. intros y Hy.
             apply negb_true_iff, Z.ltb_ge. lia.
           - constructor; [|done]. simpl. rewrite Hqd. apply negb_true_iff, Z.ltb_ge. lia. }
      2: { apply ordered_Forall, Forall_fmap in Ho. eapply Forall_impl; [exact Ho|]. simpl. intros y Hy.
           apply negb_false_iff, Z.ltb_lt. lia. }
      rewrite take_app_length, drop_app_length.
      apply destroyed_intro; [done|lia| |].
      * rewrite Hcut, <- app_assoc, fmap_app. simpl. by rewrite Hqd, Hqd'.
      * rewrite <- app_assoc. eapply wf_replace in Hs;
          [|eapply (trim_end (mkRange (start r) (end_ (desc cur))) cur q); [done..|simpl; lia|simpl; lia|simpl; lia]].
        simpl in Hs. apply Forall_app in Hs as [Hs1 Hs2]. apply Forall_cons in Hs2 as [Hs2 Hs3].
        apply Forall_app. split; [done|]. simpl. constructor; [done|]. constructor; [|done].
        by apply (trim_start (mkRange (start (desc cur)) (end_ r)) cur q'); [done..|simpl; lia|simpl; lia|simpl; lia].
Qed.

(** Case: the removed range spans several sub-ranges.  [pre] is the first one
    when it starts before the range, [mid] is removed, [rest] follows. *)
Lemma destroy_tail d l1 pre mid rest r :
  wf (Part d (l1 ++ pre ++ mid ++ rest)) -> Forall (fun c => (height c <= fuel)%nat) rest ->
  start r < end_ r ->
  Forall (fun x => start r <= start (desc x)) (mid ++ rest) ->
  Forall (fun x => contains r (desc x) = true) mid ->
  (rest = [] \/ exists x tl, rest = x :: tl /\ contains r (desc x) = false) ->
  exists rest' n,
    (match (l1 ++ pre ++ mid ++ rest) !! (length l1 + length pre + length mid)%nat with
     | Some last =>
         if intersects r (desc last) then
           q ← destroySubRange_fuel fuel last r;
           Ret (<[(length l1 + length pre + length mid)%nat := set_start q.1 (end_ r)]>
                  (l1 ++ pre ++ mid ++ rest), Z.of_nat (length pre + length mid) + 1)
         else Ret (l1 ++ pre ++ mid ++ rest, Z.of_nat (length pre + length mid))
     | None => Ret (l1 ++ pre ++ mid ++ rest, Z.of_nat (length pre + length mid))
     end) ⇓ (l1 ++ pre ++ mid ++ rest', n) /\
    desc <$> rest' = cut r (desc <$> mid ++ rest) /\ Forall wf rest' /\
    n = Z.of_nat (length pre) + hits r (desc <$> mid ++ rest).
Proof.
  intros Hwf Hh Hr Hge Hmid Hrest.
  pose proof (wf_subs _ Hwf) as Hs. simpl in Hs. rewrite !Forall_app in Hs. destruct Hs as (_ & _ & _ & Hws).
  assert (exists lo, ordered lo (desc <$> mid ++ rest) (end_ d)) as (lo & Ho).
  { apply wf_ordered in Hwf. unfold flat in Hwf. simpl in Hwf. rewrite !fmap_app in Hwf.
    apply ordered_app in Hwf as (? & _ & Hwf). apply ordered_app in Hwf as (m & _ & Hwf).
    exists m. by rewrite fmap_app. }
  destruct (tail_removed r lo mid rest _ Hr Ho Hge Hmid Hrest) as (Hhm & Hcm & Ht).
  rewrite fmap_app, cut_app, hits_app, Hcm, Hhm. clear Hrest Hge Ho Hwf.
  replace (length l1 + length pre + length mid)%nat with (length (l1 ++ pre ++ mid)) by (rewrite !length_app; lia).
  replace (l1 ++ pre ++ mid ++ rest) with ((l1 ++ pre ++ mid) ++ rest) by by rewrite <- !app_assoc.
  destruct Ht as [->|(x & tl & -> & Hht & Hct & Hx & Hi)].
  - rewrite app_nil_r, (proj2 (lookup_ge_None _ _)) by lia. exists [], (Z.of_nat (length pre + length mid)).
    rewrite !app_nil_r. split_and!; [done..|]. unfold hits. simpl. lia.
  - rewrite list_lookup_middle by done. apply Forall_cons in Hh as [Hhx _].
    apply Forall_cons in Hws as [Hwx Hwt].
    rewrite fmap_cons, cut_cons, hits_cons, Hht, Hct.
    destruct (intersects r (desc x)).
    + destruct Hi as (-> & Hsx & Hex & ->).
      destruct (IH x r Hhx Hwx Hr) as (q & n & -> & (Hqd & Hqf & Hqw) & _). simpl.
      rewrite insert_middle. exists (set_start q (end_ r) :: tl), (Z.of_nat (length pre + length mid) + 1).
      split_and!; [by rewrite <- !app_assoc|by rewrite fmap_cons; simpl; rewrite Hqd| |lia].
      constructor; [|done]. eapply (trim_start r x); [done..|lia|lia|lia].
    + destruct Hi as [-> ->]. exists (x :: tl), (Z.of_nat (length pre + length mid)).
      split_and!; [by rewrite <- !app_assoc|done|by constructor|lia].
Qed.
(** The ranges that follow the first one that is met start after its end. *)
Lemma destroy_many d l1 cur l2 r :
  wf (Part d (l1 ++ cur :: l2)) -> Forall (fun c => (height c <= fuel)%nat) (cur :: l2) ->
  start r < end_ r -> start r < end_ (desc cur) -> contains (desc cur) r = false ->
  Forall (fun x => disjoint r (desc x)) l1 ->
  Forall (fun y => end_ (desc cur) <= start (desc y) /\ start (desc y) < end_ (desc y)) l2 ->
  destroys (
    let dcb := if start (desc cur) <? start r then S (length l1) else length l1 in
    let mid := take_while (fun x => contains r (desc x)) (drop dcb (l1 ++ cur :: l2)) in
    let dce := (dcb + length mid)%nat in
    let numImpacted := Z.of_nat dce - Z.of_nat (length l1) in
    ln ← match (l1 ++ cur :: l2) !! dce with
         | Some last =>
             if intersects r (desc last) then
               q ← destroySubRange_fuel fuel last r;
               Ret (<[dce := set_start q.1 (end_ r)]> (l1 ++ cur :: l2), numImpacted + 1)
             else Ret (l1 ++ cur :: l2, numImpacted)
         | None => Ret (l1 ++ cur :: l2, numImpacted)
         end;
    subs'' ← (if negb (Nat.eqb (length l1) dcb) then
                q ← destroySubRange_fuel fuel cur r;
                Ret (<[length l1 := set_end q.1 (start r)]> ln.1)
              else Ret ln.1);
    Ret (set_subs (Part d (l1 ++ cur :: l2)) (take dcb subs'' ++ drop dce subs''), ln.2))
    r (Part d (l1 ++ cur :: l2)).
Proof.
  intros Hwf Hh Hr Hcur Hcon Hd Hse.
  destruct (prefix_cut r d l1 _ Hwf Hr Hd) as (Hc1 & Hh1 & m & Hm & Hx & Ho).
  pose proof (wf_subs _ Hwf) as Hw. cbn [subRanges] in Hw. apply Forall_app in Hw as [Hw1 Hw2].
  apply Forall_cons in Hw2 as [Hwc Hw2]. apply Forall_cons in Hh as [Hhc Hh].
  apply contains_false in Hcon; [|done].
  destruct (Z.ltb_spec (start (desc cur)) (start r)) as [Hlt|Hge]; cbv zeta.
  - assert (Hdrop : drop (S (length l1)) (l1 ++ cur :: l2) = l2).
    { rewrite drop_app_ge, Nat.sub_succ_l, Nat.sub_diag by lia. by rewrite skipn_cons, drop_0. }
    rewrite Hdrop. clear Hdrop.
    destruct (take_while_split (fun x => contains r (desc x)) l2) as (rest & Hl2 & Hmid & Hrest).
    revert Hl2 Hmid Hrest. generalize (take_while (fun x => contains r (desc x)) l2).
    intros mid -> Hmid Hrest.
    destruct (destroy_tail d l1 [cur] mid rest r) as (rest' & n & Heq & Hf & Hwr & Hn); try done.
    { by apply Forall_app in Hh as [_ Hh]. }
    { eapply Forall_impl; [exact Hse|]. simpl. lia. }
    cbn [app length] in Heq.
    replace (Z.of_nat (S (length l1) + length mid) - Z.of_nat (length l1)) with (Z.of_nat (1 + length mid)) by lia.
    replace (S (length l1) + length mid)%nat with (length l1 + 1 + length mid)%nat by lia.
    rewrite Heq. cbn [mbind res_bind fst snd]. rewrite (proj2 (Nat.eqb_neq _ _)) by lia. cbn [negb].
    destruct (IH cur r Hhc Hwc Hr) as (q & k & -> & (Hqd & Hqf & Hqw) & _). cbn [mbind res_bind fst snd].
    rewrite insert_middle.
    rewrite (cons_middle (set_end q (start r)) l1).
    replace (S (length l1)) with (length (l1 ++ [set_end q (start r)])) by (rewrite length_app; simpl; lia).
    rewrite app_assoc, take_app_length, drop_app_ge by (rewrite length_app; simpl; lia).
    replace (length l1 + 1 + length mid - length (l1 ++ [set_end q (start r)]))%nat with (length mid)
      by (rewrite length_app; simpl; lia).
    rewrite drop_app_length. eexists _, _. split; [done|]. unfold set_subs. cbn [desc].
    rewrite flat_app, hits_app, hits_cons, Hh1, (proj2 (intersects_spec _ _ Hr Hx)) by (unfold disjoint; lia).
    split; [|rewrite Hn; simpl; lia]. apply destroyed_intro; [done|lia| |].
    + rewrite <- app_assoc. cbn [app]. rewrite (fmap_app desc l1), (fmap_app desc l1), !fmap_cons, cut_app, cut_cons, Hc1, Hf.
      rewrite pieces_head by lia. simpl. by rewrite Hqd.
    + rewrite <- app_assoc. apply Forall_app. split; [done|]. simpl. constructor; [|done].
      apply (trim_end r cur); try done; lia.
  - rewrite drop_app_length, Nat.eqb_refl. cbn [negb].
    destruct (take_while_split (fun x => contains r (desc x)) (cur :: l2)) as (rest & Hl2 & Hmid & Hrest).
    assert (Hall : Forall (fun x => start r <= start (desc x)) (cur :: l2)).
    { constructor; [done|]. eapply Forall_impl; [exact Hse|]. simpl. lia. }
    assert (Hwl : Forall wf (cur :: l2)) by by constructor.
    assert (Hhl : Forall (fun c => (height c <= fuel)%nat) (cur :: l2)) by by constructor.
    revert Hl2 Hmid Hrest. generalize (take_while (fun x => contains r (desc x)) (cur :: l2)).
    intros mid Hl2 Hmid Hrest. rewrite Hl2 in *. clear Hl2 Hwc Hw2 Hhc Hh Hse Hx Hcur Hcon Hge Hm Ho cur l2.
    destruct (destroy_tail d l1 [] mid rest r) as (rest' & n & Heq & Hf & Hwr & Hn); try done.
    { by apply Forall_app in Hhl as [_ Hhl]. }
    cbn [app length] in Heq. rewrite Nat.add_0_r in Heq.
    replace (Z.of_nat (length l1 + length mid) - Z.of_nat (length l1)) with (Z.of_nat (0 + length mid)) by lia.
    rewrite Heq. cbn [mbind res_bind fst snd].
    rewrite take_app_length, drop_app_ge by lia.
    replace (length l1 + length mid - length l1)%nat with (length mid) by lia.
    rewrite drop_app_length. eexists _, _. split; [done|]. unfold set_subs. cbn [desc].
    unfold flat. cbn [subRanges]. rewrite (fmap_app desc l1), hits_app, Hh1.
    split; [|rewrite Hn; simpl; lia]. apply destroyed_intro; [done|lia| |].
    + rewrite (fmap_app desc l1 rest'), (fmap_app desc l1 (mid ++ rest)), cut_app, Hc1. by f_equal.
    + by apply Forall_app.
Qed.
End removal_step.

Lemma height_bound d s fuel :
  (height (Part d s) <= S fuel)%nat -> Forall (fun c => (height c <= fuel)%nat) s.
Proof.
  intros H. apply Forall_forall. intros c Hc.
  pose proof (height_sub (Part d s) c Hc). lia.
Qed.

Lemma destroy_fuel_correct fuel p r :
  (height p <= fuel)%nat -> wf p -> start r < end_ r ->
  destroys (destroySubRange_fuel fuel p r) r p.
Proof.
  revert p r. induction fuel as [|fuel IH]; intros [d subs] r Hh Hwf Hr; [simpl in Hh; lia|].
  destruct (pos_split _ _ Hwf Hr) as (l1 & l2 & Hs & Hpos & Hd & Hl2).
  simpl in Hs. subst subs. apply height_bound in Hh. apply Forall_app in Hh as [_ Hh].
  destruct (prefix_cut r d l1 l2 Hwf Hr Hd) as (Hc1 & Hh1 & m & Ho).
  pose proof (wf_subs _ Hwf) as Hw. cbn [subRanges] in Hw. apply Forall_app in Hw as [Hw1 Hw2].
  cbn [destroySubRange_fuel subRanges]. rewrite Hpos.
  destruct l2 as [|cur l2].
  { rewrite app_nil_r in *. rewrite (proj2 (lookup_ge_None _ _)) by lia.
    eexists _, _. split; [done|]. unfold flat. simpl. rewrite Hh1. split; [|done].
    apply destroyed_intro; [done|lia|by rewrite Hc1|done]. }
  rewrite list_lookup_middle by done. apply Forall_cons in Hh as [Hhc Hht].
  destruct Ho as (Hm & Hx & Ho). fold (desc <$> l2) in Ho. apply Forall_cons in Hl2 as [Hl2c Hl2].
  assert (Hse : Forall (fun y => end_ (desc cur) <= start (desc y) /\ start (desc y) < end_ (desc y)) l2).
  { apply ordered_Forall, Forall_fmap in Ho. eapply Forall_impl; [exact Ho|]. simpl. lia. }
  destruct (bool_decide (r = desc cur)) eqn:He.
  - apply bool_decide_eq_true in He. subst r.
    eexists _, _. split; [done|]. unfold set_subs. cbn [desc].
    rewrite delete_middle, flat_app, hits_app, hits_cons, Hh1.
    assert (Hf2 : Forall (fun y => start y < end_ y /\ disjoint (desc cur) y) (desc <$> l2)).
    { apply Forall_fmap. eapply Forall_impl; [exact Hse|]. unfold disjoint. simpl. lia. }
    rewrite (hits_disjoint _ _ Hr Hf2), (proj2 (intersects_spec _ _ Hr Hx)) by (unfold disjoint; lia).
    split; [|done]. apply destroyed_intro; [done|lia| |].
    + rewrite !fmap_app, fmap_cons, cut_app, cut_cons, Hc1, pieces_contained by lia.
      rewrite !(proj2 (Z.eqb_eq _ _)) by done. simpl. f_equal. symmetry. apply cut_disjoint; [lia|].
      eapply Forall_impl; [exact Hf2|]. unfold disjoint. simpl. lia.
    + apply Forall_app. split; [done|]. by apply Forall_cons in Hw2 as [_ Hw2].
  - apply bool_decide_eq_false in He.
    destruct (contains (desc cur) r) eqn:Hcon.
    + by apply destroy_inside.
    + apply (destroy_many fuel IH); try done. by constructor.
Qed.

(** * Insertion and queries *)

(** An insertion splits the vector where the starts pass the new one. *)
Lemma upperBound_split s lo subs hi :
  ordered lo (desc <$> subs) hi ->
  exists l1 l2, subs = l1 ++ l2 /\
    partition_point (fun rhs => negb (s <? start (desc rhs))) subs = length l1 /\
    Forall (fun x => start (desc x) <= s) l1 /\ Forall (fun x => s < start (desc x)) l2.
Proof.
  intros Ho.
  assert (exists l1 l2, subs = l1 ++ l2 /\ Forall (fun x => start (desc x) <= s) l1 /\
            Forall (fun x => s < start (desc x)) l2) as (l1 & l2 & -> & H1 & H2).
  { revert lo Ho. induction subs as [|x subs IH]; intros lo Ho; [by exists [], []|].
    simpl in Ho. destruct Ho as (? & ? & Ho).
    destruct (Z.le_gt_cases (start (desc x)) s) as [Hle|Hgt].
    - destruct (IH _ Ho) as (l1 & l2 & -> & H1 & H2). exists (x :: l1), l2. by rewrite Forall_cons.
    - exists [], (x :: subs). split_and!; [done|done|]. apply Forall_cons. split; [lia|].
      apply ordered_Forall, Forall_fmap in Ho. eapply Forall_impl; [exact Ho|]. simpl. lia. }
  exists l1, l2. split_and!; [done| |done|done].
  apply partition_point_app; eapply Forall_impl; try done; simpl; intros.
  - by apply negb_true_iff, Z.ltb_ge.
  - by apply negb_false_iff, Z.ltb_lt.
Qed.

Lemma insert_correct p x :
  wf p -> wf x -> start (desc x) < end_ (desc x) ->
  Forall (disjoint (desc x)) (flat p) ->
  let q := insertSubRange p x in
  wf q /\ exists l1 l2, subRanges p = l1 ++ l2 /\ subRanges q = l1 ++ x :: l2.
Proof.
  intros Hwf Hwx Hne Hdis q. destruct p as [d subs].
  pose proof (wf_ordered _ Hwf) as Ho. pose proof (wf_subs _ Hwf) as Hs. unfold flat in *. simpl in *.
  destruct (upperBound_split (start (desc x)) _ _ _ Ho) as (l1 & l2 & -> & Hp & H1 & H2).
  unfold q, insertSubRange. simpl. rewrite Hp, take_app_length, drop_app_length.
  split; [|by exists l1, l2].
  set (d' := if contains d (desc x) then d else _).
  assert (Hd' : start d' <= start d /\ end_ d <= end_ d' /\ start d' <= start (desc x) /\ end_ (desc x) <= end_ d').
  { unfold d'. destruct (contains d (desc x)) eqn:Hc; [apply contains_spec in Hc; lia|]. simpl.
    destruct (Z.ltb_spec (start (desc x)) (start d)); destruct (Z.ltb_spec (end_ d) (end_ (desc x))); lia. }
  clearbody d'. constructor; [|rewrite Forall_app in *; destruct Hs; split; [done|by constructor]].
  rewrite fmap_app in *. simpl. apply Forall_app in Hdis as [Hd1 Hd2]. rewrite Forall_fmap in Hd1, Hd2.
  apply ordered_app in Ho as (m & Ho1 & Ho2). pose proof (ordered_le _ _ _ Ho1).
  apply ordered_app. exists (start (desc x)). split; [|simpl; fold (desc <$> l2); split_and!; [lia|done|]].
  - eapply ordered_below; [eapply (ordered_weaken (start d)); [exact Ho1|lia|apply Z.le_refl]|lia|].
    apply ordered_Forall, Forall_fmap in Ho1. apply Forall_fmap.
    pose proof (proj2 (Forall_and _ _) (conj Hd1 (proj2 (Forall_and _ _) (conj H1 Ho1)))) as Hf.
    eapply Forall_impl; [exact Hf|]. unfold disjoint. simpl. lia.
  - eapply ordered_above; [eapply (ordered_weaken m); [exact Ho2|apply Z.le_refl|lia]|lia|].
    apply ordered_Forall, Forall_fmap in Ho2. apply Forall_fmap.
    pose proof (proj2 (Forall_and _ _) (conj Hd2 (proj2 (Forall_and _ _) (conj H2 Ho2)))) as Hf.
    eapply Forall_impl; [exact Hf|]. unfold disjoint. simpl. lia.
Qed.

(** A found sub-range is the one that contains the searched range. *)
Lemma lowerBound_lookup s lo subs hi i x :
  ordered lo (desc <$> subs) hi -> subs !! i = Some x -> start (desc x) <= s < end_ (desc x) ->
  lowerBoundEnd s subs = i.
Proof.
  intros Ho Hx Hs. apply list_elem_of_split_length in Hx as (l1 & l2 & -> & ->).
  rewrite fmap_app, fmap_cons in Ho. apply ordered_middle in Ho as (H1 & H2 & H3).
  apply partition_point_app.
  - apply ordered_Forall, Forall_fmap in H1. eapply Forall_impl; [exact H1|]. simpl. intros. apply Z.leb_le. lia.
  - constructor; [apply Z.leb_gt; lia|]. apply ordered_Forall, Forall_fmap in H3.
    eapply Forall_impl; [exact H3|]. simpl. intros. apply Z.leb_gt. lia.
Qed.

Lemma findSubRange_iff p r i :
  wf p -> start r < end_ r ->
  findSubRange p r = Some i <-> exists x, subRanges p !! i = Some x /\ contains (desc x) r = true.
Proof.
  intros Hwf Hr. destruct p as [d subs]. unfold findSubRange. simpl. pose proof (wf_ordered _ Hwf) as Ho.
  unfold flat in Ho. simpl in Ho. split.
  - destruct (contains d r); simpl; [|done]. destruct (subs !! lowerBoundEnd (start r) subs) as [x|] eqn:Hx; [|done].
    destruct (contains (desc x) r) eqn:Hc; [|done]. intros [= <-]. eauto.
  - intros (x & Hx & Hc). apply contains_spec in Hc as Hc'.
    rewrite (lowerBound_lookup _ _ _ _ _ _ Ho Hx) by lia. rewrite Hx, Hc.
    apply list_elem_of_split_length in Hx as (l1 & l2 & -> & ->).
    rewrite fmap_app, fmap_cons in Ho. apply ordered_middle in Ho as (H1 & H2 & H3).
    apply ordered_le in H1, H3. by rewrite (proj2 (contains_spec d r)) by lia.
Qed.

(** The sub-ranges at the position: those that meet the range are its prefix. *)
Lemma intersected_split p r :
  wf p -> start r < end_ r ->
  exists l1 l2, subRanges p = l1 ++ getIntersectedSubRanges p r ++ l2 /\
    Forall (fun x => disjoint r (desc x)) l1 /\
    Forall (fun x => ~ disjoint r (desc x)) (getIntersectedSubRanges p r) /\
    Forall (fun x => disjoint r (desc x)) l2.
Proof.
  intros Hwf Hr. destruct (pos_split _ _ Hwf Hr) as (l1 & l2 & Hs & Hpos & Hd & Hl2).
  unfold getIntersectedSubRanges. rewrite Hpos, Hs, drop_app_length.
  destruct (take_while_split (fun sub => intersects (desc sub) r) l2) as (rest & Hl & Ht & Hrest).
  exists l1, rest. rewrite <- Hl. split; [done|]. split; [done|].
  pose proof (wf_ordered _ Hwf) as Ho. unfold flat in Ho. rewrite Hs, Hl, !fmap_app in Ho.
  apply ordered_app in Ho as (m & _ & Ho). apply ordered_app in Ho as (m' & Ho1 & Ho2). split.
  - apply ordered_Forall, Forall_fmap in Ho1.
    eapply Forall_impl; [apply (proj2 (Forall_and _ _) (conj Ht Ho1))|]. simpl.
    intros x [Hi Hx]. apply intersects_spec in Hi; lia || done.
  - destruct Hrest as [->|(x & tl & -> & Hx)]; [constructor|].
    destruct Ho2 as (Hm & Hne & Ho2). fold (desc <$> tl) in Ho2.
    apply intersects_false in Hx; [|done..]. rewrite Hl in Hl2. apply Forall_app in Hl2 as [_ Hl2].
    apply Forall_cons in Hl2 as [Hex _]. constructor; [done|].
    apply ordered_Forall, Forall_fmap in Ho2. eapply Forall_impl; [exact Ho2|].
    unfold disjoint in *. simpl. lia.
Qed.

Lemma intersects_cover p r :
  wf p -> start r < end_ r ->
  intersectsSubRanges p r = true <-> exists a, start r <= a < end_ r /\ covered (flat p) a.
Proof.
  intros Hwf Hr. destruct (pos_split _ _ Hwf Hr) as (l1 & l2 & Hs & Hpos & Hd & Hl2).
  unfold intersectsSubRanges, flat. rewrite Hpos, Hs.
  pose proof (wf_ordered _ Hwf) as Ho. unfold flat in Ho. rewrite Hs, fmap_app in Ho.
  apply ordered_app in Ho as (m & Ho1 & Ho). rewrite fmap_app.
  assert (Hno : forall a, start r <= a < end_ r -> ~ covered (desc <$> l1) a).
  { intros a Ha Hc. apply Exists_exists in Hc as (y & Hin & Hy). apply list_elem_of_fmap in Hin as (z & -> & Hz).
    rewrite Forall_forall in Hd. specialize (Hd z Hz). unfold disjoint in Hd. lia. }
  destruct l2 as [|x l2].
  - rewrite app_nil_r, (proj2 (lookup_ge_None _ _)) by lia. rewrite app_nil_r. split; [done|].
    intros (a & Ha & Hc). by destruct (Hno a).
  - rewrite list_lookup_middle by done. destruct Ho as (Hm & Hne & Ho). fold (desc <$> l2) in Ho.
    apply Forall_cons in Hl2 as [Hex _]. rewrite intersects_spec by done. split.
    + unfold disjoint. intros Hi. exists (Z.max (start r) (start (desc x))). split; [lia|].
      rewrite covered_app, fmap_cons, covered_cons. right. left. lia.
    + intros (a & Ha & Hc) Hdis. unfold disjoint in Hdis.
      rewrite covered_app, fmap_cons, covered_cons in Hc. destruct Hc as [Hc|[Hc|Hc]]; [by destruct (Hno a)|lia|].
      pose proof (covered_bounds _ _ _ _ Ho Hc). lia.
Qed.

(** The gaps between consecutive ranges. *)
Lemma diff_loop_correct l e hi acc :
  ordered e (desc <$> l) hi ->
  exists e' gaps, diff_loop e l acc ⇓ (e', acc ++ gaps) /\ ordered e gaps e' /\ e <= e' <= hi /\
    (forall a, covered gaps a <-> e <= a < e' /\ ~ covered (desc <$> l) a) /\
    (forall a, covered (desc <$> l) a -> a < e') /\
    (forall b, Forall (fun x => start (desc x) <= b) l -> Forall (fun g => end_ g <= b) gaps).
Proof.
  revert e acc. induction l as [|x l IH]; intros e acc Ho; simpl.
  - exists e, []. rewrite app_nil_r. pose proof (ordered_le _ _ _ Ho).
    split; [done|]. split; [simpl; lia|]. split; [lia|].
    split; [intros a; rewrite !covered_nil; lia|].
    split; [intros a; by rewrite covered_nil|constructor].
  - simpl in Ho. destruct Ho as (H1 & H2 & H3). fold (desc <$> l) in *.
    destruct (Z.eqb_spec (start (desc x)) e) as [He|He].
    + destruct (IH (end_ (desc x)) acc H3) as (e' & gaps & Hl & Hg & Hle & Hc & Hb & Hn).
      exists e', gaps. split; [done|]. split; [eapply ordered_weaken; [done|lia|lia]|].
      split; [lia|]. split.
      { intros a. rewrite Hc, covered_cons. specialize (Hb a). intuition lia. }
      split; [intros a; rewrite covered_cons; specialize (Hb a); intuition lia|].
      by intros b [_ ?]%Forall_cons; apply Hn.
    + rewrite makeRange_ok by lia. simpl.
      destruct (IH (end_ (desc x)) (acc ++ [mkRange e (start (desc x))]) H3)
        as (e' & gaps & Hl & Hg & Hle & Hc & Hb & Hn).
      exists e', (mkRange e (start (desc x)) :: gaps). rewrite Hl, <- app_assoc. split; [done|].
      split; [simpl; split_and!; [lia|lia|eapply ordered_weaken; [done|lia|lia]]|].
      split; [lia|]. split.
      { intros a. rewrite !covered_cons, Hc. simpl.
        assert (covered (desc <$> l) a -> end_ (desc x) <= a) by (intros Hcl; pose proof (covered_bounds _ _ _ _ H3 Hcl); lia).
        specialize (Hb a).
        destruct (Z.lt_ge_cases a (start (desc x))), (Z.lt_ge_cases a (end_ (desc x))); intuition lia. }
      split; [intros a; rewrite covered_cons; specialize (Hb a); intuition lia|].
      intros b [? ?]%Forall_cons. constructor; [done|]. by apply Hn.
Qed.

Lemma getSubRangesDiffFrom_correct p r :
  wf p -> start r < end_ r ->
  exists l, getSubRangesDiffFrom p r ⇓ l /\ ordered (start r) l (end_ r) /\
    forall a, covered l a <-> start r <= a < end_ r /\ ~ covered (flat p) a.
Proof.
  intros Hwf Hr. destruct (intersected_split p r Hwf Hr) as (l1 & l2 & Hs & Hd1 & Hi & Hd2).
  pose proof (wf_ordered _ Hwf) as Ho.
  assert (Hflat : forall a, start r <= a < end_ r -> covered (flat p) a <-> covered (desc <$> getIntersectedSubRanges p r) a).
  { intros a Ha. unfold flat. rewrite Hs, !fmap_app, !covered_app.
    assert (Hno : forall l, Forall (fun x => disjoint r (desc x)) l -> ~ covered (desc <$> l) a).
    { intros l Hl Hc. apply Exists_exists in Hc as (y & Hin & Hy). apply list_elem_of_fmap in Hin as (z & -> & Hz).
      rewrite Forall_forall in Hl. specialize (Hl z Hz). unfold disjoint in Hl. lia. }
    pose proof (Hno _ Hd1). pose proof (Hno _ Hd2). tauto. }
  unfold flat in Ho. rewrite Hs, !fmap_app in Ho. apply ordered_app in Ho as (m & _ & Ho).
  apply ordered_app in Ho as (m' & Ho & _). clear Hs Hd1 Hd2.
  unfold getSubRangesDiffFrom. destruct (getIntersectedSubRanges p r) as [|x rest].
  { exists [r]. split; [done|]. split; [simpl; lia|]. intros a. rewrite covered_cons, covered_nil.
    specialize (Hflat a). change (desc <$> []) with (@nil AddressRange) in Hflat. rewrite covered_nil in Hflat. tauto. }
  destruct Ho as (Hm & Hx & Ho). fold (desc <$> rest) in Ho. apply Forall_cons in Hi as [Hix Hi].
  destruct (diff_loop_correct rest _ _ (if start r <? start (desc x) then [mkRange (start r) (start (desc x))] else []) Ho)
    as (e & gaps & Hl & Hg & He & Hc & Hb & Hn).
  assert (Hacc : (if start r <? start (desc x)
                  then q ← makeRange (start r) (start (desc x)); Ret [q] else Ret [])
                 ⇓ (if start r <? start (desc x) then [mkRange (start r) (start (desc x))] else [])).
  { destruct (Z.ltb_spec (start r) (start (desc x))); [|done]. by rewrite makeRange_ok by lia. }
  rewrite Hacc. cbn [mbind res_bind]. rewrite Hl. cbn [mbind res_bind fst snd].
  unfold disjoint in Hix. clear Hl Hacc.
  assert (Hsx : Forall (fun x => start (desc x) <= end_ r) rest).
  { eapply Forall_impl; [exact Hi|]. unfold disjoint. simpl. lia. }
  specialize (Hn (end_ r) Hsx).
  set (pre := if start r <? start (desc x) then _ else _).
  assert (Hpre : ordered (start r) pre (Z.max (start r) (start (desc x))) /\ Forall (fun g => end_ g <= end_ r) pre /\
            forall a, covered pre a <-> start r <= a < start (desc x)).
  { unfold pre. destruct (Z.ltb_spec (start r) (start (desc x))); simpl; split_and!; try lia.
    - constructor; [simpl; lia|constructor].
    - intros a. rewrite covered_cons, covered_nil. simpl. lia.
    - constructor.
    - intros a. rewrite covered_nil. lia. }
  clearbody pre. destruct Hpre as (Hp1 & Hp2 & Hp3).
  assert (Hpg : ordered (start r) (pre ++ gaps) e).
  { apply ordered_app. exists (Z.max (start r) (start (desc x))). split; [done|].
    eapply ordered_weaken; [exact Hg|lia|lia]. }
  assert (Hcov : forall a, start r <= a < end_ r ->
            covered (flat p) a <-> start (desc x) <= a < end_ (desc x) \/ covered (desc <$> rest) a).
  { intros a Ha. rewrite Hflat by done. by rewrite fmap_cons, covered_cons. }
  assert (Hrest : forall a, covered (desc <$> rest) a -> end_ (desc x) <= a).
  { intros a Ha. pose proof (covered_bounds _ _ _ _ Ho Ha). lia. }
  assert (Hgap : forall a, covered gaps a -> a < end_ r).
  { intros a (g & Hin & Ha)%Exists_exists. rewrite Forall_forall in Hn. specialize (Hn g Hin). lia. }
  destruct (Z.ltb_spec e (end_ r)) as [Hlt|Hge].
  - rewrite makeRange_ok by lia. exists ((pre ++ gaps) ++ [mkRange e (end_ r)]). split; [done|]. split.
    { apply ordered_app. exists e. split; [done|simpl; lia]. }
    intros a. rewrite !covered_app, covered_cons, covered_nil, Hp3, Hc. simpl.
    specialize (Hcov a). specialize (Hrest a). specialize (Hb a).
    destruct (Z.lt_ge_cases a (start (desc x))), (Z.lt_ge_cases a (end_ (desc x))), (Z.lt_ge_cases a e),
      (Z.lt_ge_cases a (start r)), (Z.lt_ge_cases a (end_ r)); intuition lia.
  - exists (pre ++ gaps). split; [done|]. split.
    { apply (ordered_below _ _ e); [done|lia|]. by apply Forall_app. }
    intros a. specialize (Hgap a). revert Hgap. rewrite covered_app, Hp3, Hc. intros Hgap.
    specialize (Hcov a). specialize (Hrest a). specialize (Hb a).
    destruct (Z.lt_ge_cases a (start (desc x))), (Z.lt_ge_cases a (end_ (desc x))), (Z.lt_ge_cases a e),
      (Z.lt_ge_cases a (start r)), (Z.lt_ge_cases a (end_ r)); intuition lia.
Qed.

Lemma insert_covered p x l1 l2 :
  subRanges p = l1 ++ l2 -> subRanges (insertSubRange p x) = l1 ++ x :: l2 ->
  forall a, covered (flat (insertSubRange p x)) a <-> covered (flat p) a \/ start (desc x) <= a < end_ (desc x).
Proof.
  intros H1 H2 a. unfold flat. rewrite H1, H2, !fmap_app, fmap_cons, !covered_app, covered_cons. tauto.
Qed.

(** * Properties *)

(** A tree of ranges on which the properties are exercised. *)
Definition exampleTree : PartitionedAddressRange :=
  Part (mkRange 0 1000) [Part (mkRange 100 200) [leaf (mkRange 120 180)]; leaf (mkRange 200 300); leaf (mkRange 400 500)].

Lemma exampleTree_wf : wf exampleTree.
Proof. repeat constructor; simpl; lia. Qed.

(** C4: Removing a non-empty range from a well-formed partitioned range always
    succeeds: the bounds stay, every top-level sub-range loses exactly the
    removed addresses (it is dropped, trimmed or split), nested levels stay
    well-formed, and the returned number counts the sub-ranges that were met. *)
Theorem destroySubRange_removes p r :
  wf p -> start r < end_ r ->
  exists q n, destroySubRange p r ⇓ (q, n) /\
    getBoundingRange q = getBoundingRange p /\ flat q = cut r (flat p) /\ wf q /\ n = hits r (flat p) /\
    forall a, covered (flat q) a <-> covered (flat p) a /\ ~ (start r <= a < end_ r).
Proof.
  intros Hwf Hr. destruct (destroy_fuel_correct (height p) p r (Nat.le_refl _) Hwf Hr) as (q & n & H & (Hd & Hf & Hw) & Hn).
  exists q, n. split_and!; [done..|]. intros a. rewrite Hf. apply covered_cut. lia.
Qed.

Theorem destroySubRange_removes_witness :
  exists q n, destroySubRange exampleTree (mkRange 150 450) ⇓ (q, n) /\
    getBoundingRange q = getBoundingRange exampleTree /\
    flat q = cut (mkRange 150 450) (flat exampleTree) /\ wf q /\ n = hits (mkRange 150 450) (flat exampleTree) /\
    forall a, covered (flat q) a <-> covered (flat exampleTree) a /\ ~ (150 <= a < 450).
Proof. apply (destroySubRange_removes exampleTree (mkRange 150 450)); [exact exampleTree_wf|simpl; lia]. Defined.

(** Inserting a non-empty well-formed sub-range that is disjoint from the
    present ones keeps the partitioned range well-formed (ordered, disjoint and
    inside the bounds, which grow when needed) and adds exactly its addresses. *)
Theorem insertSubRange_adds p x :
  wf p -> wf x -> start (desc x) < end_ (desc x) -> Forall (disjoint (desc x)) (flat p) ->
  wf (insertSubRange p x) /\ Permutation (subRanges (insertSubRange p x)) (x :: subRanges p) /\
  forall a, covered (flat (insertSubRange p x)) a <->
            covered (flat p) a \/ start (desc x) <= a < end_ (desc x).
Proof.
  intros Hp Hx Hne Hd. destruct (insert_correct p x Hp Hx Hne Hd) as (Hw & l1 & l2 & H1 & H2).
  split_and!; [done| |by apply (insert_covered p x l1 l2)].
  rewrite H1, H2. symmetry. apply Permutation_middle.
Qed.

Theorem insertSubRange_adds_witness :
  wf (insertSubRange exampleTree (leaf (mkRange 500 1200))).
Proof.
  apply (insertSubRange_adds exampleTree (leaf (mkRange 500 1200)));
    [exact exampleTree_wf|repeat constructor; simpl; lia|simpl; lia|].
  repeat constructor; unfold disjoint; simpl; lia.
Defined.

(** The binary searches answer as a linear scan would: [findSubRange]
    returns position i exactly when sub-range i contains the argument, and
    [intersectsSubRanges] is true exactly when some address of the argument is
    covered by a sub-range. *)
Theorem range_queries_correct p r :
  wf p -> start r < end_ r ->
  (forall i, findSubRange p r = Some i <->
             exists x, subRanges p !! i = Some x /\ contains (desc x) r = true) /\
  (intersectsSubRanges p r = true <-> exists a, start r <= a < end_ r /\ covered (flat p) a).
Proof. intros Hwf Hr. split; [intros i; by apply findSubRange_iff|by apply intersects_cover]. Qed.

Theorem range_queries_correct_witness :
  findSubRange exampleTree (mkRange 210 220) = Some 1%nat /\
  ~ (exists a, 300 <= a < 400 /\ covered (flat exampleTree) a).
Proof.
  split.
  - apply (range_queries_correct exampleTree (mkRange 210 220)); [exact exampleTree_wf|simpl; lia|].
    exists (leaf (mkRange 200 300)). by vm_compute.
  - intros H. by apply (range_queries_correct exampleTree (mkRange 300 400)) in H;
      [vm_compute in H|exact exampleTree_wf|simpl; lia].
Defined.

(** [getSubRangesDiffFrom] always returns, and what it returns are ordered,
    non-empty, disjoint ranges inside the argument that cover exactly the
    addresses of the argument that no sub-range covers. *)
Theorem getSubRangesDiffFrom_gaps p r :
  wf p -> start r < end_ r ->
  exists l, getSubRangesDiffFrom p r ⇓ l /\ ordered (start r) l (end_ r) /\
    forall a, covered l a <-> start r <= a < end_ r /\ ~ covered (flat p) a.
Proof. apply getSubRangesDiffFrom_correct. Qed.

Theorem getSubRangesDiffFrom_gaps_witness :
  exists l, getSubRangesDiffFrom exampleTree (mkRange 50 450) ⇓ l /\ ordered 50 l 450 /\
    forall a, covered l a <-> 50 <= a < 450 /\ ~ covered (flat exampleTree) a.
Proof. apply (getSubRangesDiffFrom_gaps exampleTree (mkRange 50 450)); [exact exampleTree_wf|simpl; lia]. Defined.
