(* ===== verification/Ring.v ===== *)
(** The lock-free ring of shared/rpc.h ([TypedRing]) and the submission of
    commands through it ([ChannelClient::submitCommand], [ChannelServer::wait]).

    The control words are [int64_t] offsets; every value below is bounded by
    twice the capacity, so the additions do not overflow.  A store through
    [data] outside of the ring's slots is undefined. *)

From S2P Require Import Prelude.
From stdpp Require Import relations.
Local Open Scope Z_scope.

Section ring.
Context {D : Type}.

(** [head] and [tail] stand for the shared words the pointers designate. *)
Record TypedRing := mkRing {
  data : list D;
  capacity : Z;
  head : Z;
  tail : Z;
  batchCounter : Z;
  iteration : Z
}.

Definition reset (r : TypedRing) : TypedRing :=
  mkRing (data r) (capacity r) 0 0 (batchCounter r) (iteration r).

Definition peekHeadOffset (r : TypedRing) : Z := head r.
Definition peekTailOffset (r : TypedRing) : Z := tail r.

(** Reading a slot outside of the ring is undefined. *)
Definition slot (d : list D) (i : Z) : res D :=
  if i <? 0 then Undef else match d !! Z.to_nat i with Some x => Ret x | None => Undef end.

Definition peekHead (r : TypedRing) : res D := slot (data r) (head r).

Definition peekEmpty (r : TypedRing) : bool := peekHeadOffset r =? peekTailOffset r.

Definition set_head (r : TypedRing) (h : Z) : TypedRing :=
  mkRing (data r) (capacity r) h (tail r) (batchCounter r) (iteration r).

Definition pop (r : TypedRing) : TypedRing * bool :=
  if peekEmpty r then (r, false)
  else
    let prevHead := peekHeadOffset r in
    let nextHead := if prevHead + 1 =? capacity r then 0 else prevHead + 1 in
    (set_head r nextHead, true).

(** [data[i] = el] *)
Definition store (d : list D) (i : Z) (el : D) : res (list D) :=
  if (0 <=? i) && (i <? Z.of_nat (length d)) then Ret (<[Z.to_nat i := el]> d) else Undef.

(** The two branches that place the element after the pending batch. *)
Definition push_slot (r : TypedRing) (d : list D) (tailSnapshot : Z) (batched : bool) : TypedRing * bool :=
  if batched
  then (mkRing d (capacity r) (head r) (tail r) (batchCounter r + 1) (iteration r), true)
  else (mkRing d (capacity r) (head r) (tailSnapshot + batchCounter r + 1) 0 (iteration r), true).

Definition push (r : TypedRing) (el : D) (batched : bool) : res (TypedRing * bool) :=
  let tailSnapshot := peekTailOffset r in
  let headSnapshot := peekHeadOffset r in
  if headSnapshot <=? tailSnapshot then
    if tailSnapshot + batchCounter r + 1 <? capacity r then
      d ← store (data r) (tailSnapshot + batchCounter r) el;
      Ret (push_slot r d tailSnapshot batched)
    else if headSnapshot =? 0 then Ret (r, false)
    else
      d ← store (data r) (tailSnapshot + batchCounter r) el;
      Ret (mkRing d (capacity r) (head r) 0 0 (u64 (iteration r + 1)), true)
  else
    if tailSnapshot + batchCounter r + 1 <? headSnapshot then
      d ← store (data r) (tailSnapshot + batchCounter r) el;
      Ret (push_slot r d tailSnapshot batched)
    else Ret (r, false).

Definition flushBatched (r : TypedRing) : TypedRing :=
  if batchCounter r =? 0 then r
  else mkRing (data r) (capacity r) (head r) (tail r + batchCounter r) (batchCounter r) (iteration r).

(** * The other side of the ring

    The consumer removes published entries at its own pace; [consume k] is [k]
    turns of its loop (peek at the head, then pop). *)
Fixpoint consume (k : nat) (r : TypedRing) : res (TypedRing * list D) :=
  match k with
  | O => Ret (r, [])
  | S k =>
      if peekEmpty r then Ret (r, [])
      else
        x ← peekHead r;
        rest ← consume k (fst (pop r));
        Ret (rest.1, x :: rest.2)
  end.

(** [wait]: the producer spins until the consumer has reached the tail it read;
    the consumer takes one entry per turn, [fuel] of them are enough when it is
    at least the number of published entries. *)
Fixpoint wait (fuel : nat) (tailSnapshot : Z) (r : TypedRing) : res (TypedRing * list D) :=
  if peekHeadOffset r =? tailSnapshot then Ret (r, [])
  else
    match fuel with
    | O => Undef
    | S fuel =>
        x ← peekHead r;
        rest ← wait fuel tailSnapshot (fst (pop r));
        Ret (rest.1, x :: rest.2)
    end.

(** * Submission

    [k1] to [k5] are the turns of the consumer before each attempt. The result
    also lists what the consumer has taken in the meantime. *)
Definition submitCommand (r : TypedRing) (el : D) (batched : bool) (k1 k2 k3 k4 k5 : nat)
  : res (TypedRing * bool * list D) :=
  '(r, out1) ← consume k1 r;
  '(r, ok) ← push r el batched;
  if (ok : bool) then Ret (r, true, out1)
  else
    '(r, outw) ← wait (Z.to_nat (capacity r)) (tail r) r;
    '(r, out2) ← consume k2 r;
    '(r, ok) ← push r el batched;
    if (ok : bool) then Ret (r, true, out1 ++ outw ++ out2)
    else
      let r := flushBatched r in
      '(r, out3) ← consume k3 r;
      '(r, ok) ← push r el batched;
      if (ok : bool) then Ret (r, true, out1 ++ outw ++ out2 ++ out3)
      else
        '(r, outw') ← wait (Z.to_nat (capacity r)) (tail r) r;
        '(r, out4) ← consume k4 r;
        '(r, ok) ← push r el batched;
        if (ok : bool) then Ret (r, true, out1 ++ outw ++ out2 ++ out3 ++ outw' ++ out4)
        else
          '(r, out5) ← consume k5 r;
          '(r, ok) ← push r el false;
          Ret (r, ok, out1 ++ outw ++ out2 ++ out3 ++ outw' ++ out4 ++ out5).

(** * Abstraction: a FIFO of published entries and a pending batch *)

Definition count (r : TypedRing) : Z := (tail r - head r) mod capacity r.

(** The [n] entries from offset [s] on, around the end of the ring. *)
Definition slots (cap : Z) (d : list D) (s n : Z) : list D :=
  omap (fun i => d !! Z.to_nat (i mod cap)) (seqZ s n).

Definition queue (r : TypedRing) : list D := slots (capacity r) (data r) (head r) (count r).
Definition pending (r : TypedRing) : list D := slots (capacity r) (data r) (tail r) (batchCounter r).

Record inv (r : TypedRing) : Prop := mkInv {
  inv_len : Z.of_nat (length (data r)) = capacity r;
  inv_head : 0 <= head r < capacity r;
  inv_tail : 0 <= tail r < capacity r;
  inv_batch : 0 <= batchCounter r;
  inv_pending : tail r + batchCounter r < capacity r;
  inv_room : count r + batchCounter r <= capacity r - 1
}.

(** The part of the invariant the consumer relies on. *)
Definition ring_ok (r : TypedRing) : Prop :=
  Z.of_nat (length (data r)) = capacity r /\ 0 <= head r < capacity r /\ 0 <= tail r < capacity r.

Lemma inv_ok r : inv r -> ring_ok r.
Proof. by intros []. Qed.

Lemma count_cases r :
  0 <= head r < capacity r -> 0 <= tail r < capacity r ->
  count r = if head r <=? tail r then tail r - head r else tail r - head r + capacity r.
Proof.
  intros Hh Ht. unfold count. destruct (Z.leb_spec (head r) (tail r)).
  - apply Z.mod_small. lia.
  - symmetry. apply (Z.mod_unique_pos _ _ (-1)); lia.
Qed.

Lemma slots_app cap d s n m :
  0 <= n -> 0 <= m -> slots cap d s (n + m) = slots cap d s n ++ slots cap d (s + n) m.
Proof. intros Hn Hm. unfold slots. by rewrite seqZ_app, omap_app. Qed.

Lemma slots_nil cap d s : slots cap d s 0 = [].
Proof. done. Qed.

Lemma slots_cons cap d s n x :
  0 < n -> d !! Z.to_nat (s mod cap) = Some x -> slots cap d s n = x :: slots cap d (s + 1) (n - 1).
Proof.
  intros Hn Hx. unfold slots. rewrite (seqZ_cons s n Hn). cbn. by rewrite Hx.
Qed.

Lemma slots_one cap d s x : d !! Z.to_nat (s mod cap) = Some x -> slots cap d s 1 = [x].
Proof. intros H. by rewrite (slots_cons _ _ _ _ x). Qed.

(** Only the offset modulo the capacity matters. *)
Lemma slots_congr cap d s s' n : s mod cap = s' mod cap -> slots cap d s n = slots cap d s' n.
Proof.
  intros Heq. destruct (Z.le_gt_cases n 0) as [Hle|Hgt]; [unfold slots; by rewrite !seqZ_nil by lia|].
  revert s s' Heq. pattern n. apply Zlt_0_ind; [|lia]. clear n Hgt. intros n IH Hn s s' Heq.
  destruct (Z.eq_dec n 0) as [->|Hn0]; [done|]. unfold slots in *. rewrite (seqZ_cons s n), (seqZ_cons s' n) by lia. cbn.
  assert (E : Z.succ s mod cap = Z.succ s' mod cap).
  { unfold Z.succ. rewrite <- Zplus_mod_idemp_l, Heq. by rewrite Zplus_mod_idemp_l. }
  specialize (IH (Z.pred n) ltac:(lia) _ _ E). rewrite Heq.
  destruct (d !! Z.to_nat (s' mod cap)); [f_equal|]; exact IH.
Qed.

Lemma slots_insert cap d s n j x :
  0 < cap -> 0 <= j -> (forall i, s <= i < s + n -> i mod cap <> j) ->
  slots cap (<[Z.to_nat j := x]> d) s n = slots cap d s n.
Proof.
  intros Hc Hj Hne. unfold slots. apply list_omap_ext, Forall_Forall2_diag, Forall_forall.
  intros i Hi. apply elem_of_seqZ in Hi. rewrite list_lookup_insert_ne; [done|].
  specialize (Hne i ltac:(lia)). pose proof (Z.mod_pos_bound i cap Hc). lia.
Qed.

Lemma mod_cases cap i : 0 <= i < 2 * cap -> i mod cap = if i <? cap then i else i - cap.
Proof.
  intros Hi. destruct (Z.ltb_spec i cap); [apply Z.mod_small; lia|].
  symmetry. apply (Z.mod_unique_pos _ _ 1); lia.
Qed.

Lemma slots_length cap d s n :
  0 < cap -> Z.of_nat (length d) = cap -> 0 <= n -> Z.of_nat (length (slots cap d s n)) = n.
Proof.
  intros Hc Hl Hn. revert s. pattern n. apply Zlt_0_ind; [|lia]. clear n Hn. intros n IH Hn s.
  destruct (Z.eq_dec n 0) as [->|Hn0]; [done|].
  pose proof (Z.mod_pos_bound s cap Hc).
  destruct (lookup_lt_is_Some_2 d (Z.to_nat (s mod cap))) as [x Hx]; [lia|].
  rewrite (slots_cons cap d s n x ltac:(lia) Hx). simpl length. specialize (IH (n - 1) ltac:(lia) (s + 1)). lia.
Qed.

Lemma count_range r : ring_ok r -> 0 <= count r < capacity r.
Proof. intros (? & ? & ?). apply Z.mod_pos_bound. lia. Qed.

Lemma queue_length r : ring_ok r -> Z.of_nat (length (queue r)) = count r.
Proof. intros H. pose proof (count_range r H). destruct H as (? & ? & ?). apply slots_length; lia. Qed.

Lemma pending_length r : inv r -> Z.of_nat (length (pending r)) = batchCounter r.
Proof. intros []. apply slots_length; lia. Qed.

Lemma peekEmpty_queue r : ring_ok r -> peekEmpty r = true <-> queue r = [].
Proof.
  intros H. rewrite <- length_zero_iff_nil. pose proof (queue_length r H). destruct H as (? & ? & ?).
  rewrite (count_cases r) in * by lia. unfold peekEmpty, peekHeadOffset, peekTailOffset. rewrite Z.eqb_eq.
  destruct (Z.leb_spec (head r) (tail r)); lia.
Qed.

Lemma slot_lookup d i x : 0 <= i -> d !! Z.to_nat i = Some x -> slot d i ⇓ x.
Proof. intros Hi Hx. unfold slot. rewrite (proj2 (Z.ltb_ge i 0)) by done. by rewrite Hx. Qed.

(** The consumer's turn on a non-empty ring. *)
Lemma pop_correct r :
  ring_ok r -> peekEmpty r = false ->
  exists x, peekHead r ⇓ x /\ snd (pop r) = true /\ queue r = x :: queue (fst (pop r)) /\
    pending (fst (pop r)) = pending r /\ ring_ok (fst (pop r)) /\ count (fst (pop r)) = count r - 1 /\
    tail (fst (pop r)) = tail r /\ capacity (fst (pop r)) = capacity r /\
    batchCounter (fst (pop r)) = batchCounter r.
Proof.
  intros H He. unfold pop. rewrite He. cbn [fst snd]. unfold peekEmpty, peekHeadOffset, peekTailOffset in *.
  bool_prop. pose proof (count_range r H) as Hc. pose proof H as (Hl & Hh & Ht).
  set (h' := if head r + 1 =? capacity r then 0 else head r + 1).
  assert (Hh' : 0 <= h' < capacity r) by (unfold h'; destruct (Z.eqb_spec (head r + 1) (capacity r)); lia).
  assert (Hm : h' mod capacity r = (head r + 1) mod capacity r).
  { rewrite (mod_cases _ (head r + 1)), Z.mod_small by lia. unfold h'.
    destruct (Z.eqb_spec (head r + 1) (capacity r)), (Z.ltb_spec (head r + 1) (capacity r)); lia. }
  assert (Hcnt : count (set_head r h') = count r - 1).
  { rewrite !count_cases by (simpl; lia). simpl. unfold h'.
    destruct (Z.eqb_spec (head r + 1) (capacity r)), (Z.leb_spec (head r) (tail r));
      try destruct (Z.leb_spec 0 (tail r)); try destruct (Z.leb_spec (head r + 1) (tail r)); lia. }
  assert (Hpos : 0 < count r).
  { rewrite count_cases in * by lia. destruct (Z.leb_spec (head r) (tail r)); lia. }
  destruct (lookup_lt_is_Some_2 (data r) (Z.to_nat (head r))) as [x Hx]; [lia|].
  exists x. split; [by apply slot_lookup; [lia|]|]. split; [done|]. split.
  { unfold queue. rewrite Hcnt. simpl. rewrite (slots_cons _ _ _ _ x) by (rewrite ?Z.mod_small by lia; done || lia).
    f_equal. apply slots_congr. by rewrite Hm. }
  split; [done|]. split; [done|]. by split_and!.
Qed.

(** What the consumer's side keeps. *)
Definition same_producer (r r' : TypedRing) : Prop :=
  data r' = data r /\ tail r' = tail r /\ capacity r' = capacity r /\ batchCounter r' = batchCounter r /\
  iteration r' = iteration r.

Lemma pop_same r : same_producer r (fst (pop r)).
Proof. unfold pop. by destruct (peekEmpty r). Qed.

Lemma same_trans r1 r2 r3 : same_producer r1 r2 -> same_producer r2 r3 -> same_producer r1 r3.
Proof. unfold same_producer. intuition congruence. Qed.

Lemma consume_correct k r :
  ring_ok r ->
  exists r' out, consume k r ⇓ (r', out) /\ ring_ok r' /\ queue r = out ++ queue r' /\
    same_producer r r' /\ count r' = count r - Z.of_nat (length out).
Proof.
  revert r. induction k as [|k IH]; intros r H; cbn [consume].
  - exists r, []. split_and!; try done; simpl; lia.
  - destruct (peekEmpty r) eqn:He.
    { exists r, []. split_and!; try done; simpl; lia. }
    destruct (pop_correct r H He) as (x & -> & _ & Hq & _ & Hok & Hc & _).
    destruct (IH _ Hok) as (r' & out & Hr & Hok' & Hq' & Hs & Hc'). cbn [mbind res_bind].
    rewrite Hr. cbn [mbind res_bind fst snd]. exists r', (x :: out). split; [done|]. split; [done|].
    split; [by rewrite Hq, Hq'|]. split; [by eapply same_trans; [apply pop_same|]|].
    simpl length. lia.
Qed.

Lemma wait_correct fuel r :
  ring_ok r -> (Z.to_nat (count r) <= fuel)%nat ->
  exists r', wait fuel (tail r) r ⇓ (r', queue r) /\ ring_ok r' /\ queue r' = [] /\
    same_producer r r' /\ head r' = tail r /\ count r' = 0.
Proof.
  intros H. remember (tail r) as t eqn:Ht. revert r H Ht.
  induction fuel as [|fuel IH]; intros r H Ht Hf; cbn [wait].
  - pose proof (count_range r H). assert (He : peekEmpty r = true).
    { apply peekEmpty_queue; [done|]. apply length_zero_iff_nil. pose proof (queue_length r H). lia. }
    pose proof (proj1 (peekEmpty_queue r H) He) as Hq. unfold peekEmpty in He. subst t.
    unfold peekTailOffset in He. rewrite He. bool_prop. rewrite Hq.
    pose proof (queue_length r H) as Hl. rewrite Hq in Hl. exists r. by split_and!.
  - destruct (peekHeadOffset r =? t) eqn:He.
    + subst t. pose proof (proj1 (peekEmpty_queue r H) He) as Hq. rewrite Hq. bool_prop.
      pose proof (queue_length r H) as Hl. rewrite Hq in Hl. exists r. by split_and!.
    + subst t. destruct (pop_correct r H He) as (x & -> & _ & Hq & _ & Hok & Hc & Ht & _).
      pose proof (count_range _ Hok). destruct (IH _ Hok (eq_sym Ht)) as (r' & Hr & Hok' & Hq' & Hs & Hh & Hc'); [lia|].
      cbn [mbind res_bind]. rewrite Hr. cbn [mbind res_bind fst snd]. exists r'. rewrite Hq.
      split_and!; try done. eapply same_trans; [apply pop_same|done].
Qed.

Lemma inv_consumer r r' :
  inv r -> ring_ok r' -> same_producer r r' -> count r' <= count r -> inv r' /\ pending r' = pending r.
Proof.
  intros [] (? & ? & ?) (Hd & Ht & Hc & Hb & _) Hle. split; [|unfold pending; congruence].
  constructor; rewrite ?Hd, ?Ht, ?Hc, ?Hb in *; try lia; congruence.
Qed.

(** The slot behind the pending batch holds nothing that is still needed. *)
Lemma store_fresh r el :
  inv r -> count r + batchCounter r < capacity r - 1 ->
  let j := tail r + batchCounter r in
  let d := <[Z.to_nat j := el]> (data r) in
  store (data r) j el ⇓ d /\ slots (capacity r) d (head r) (count r) = queue r /\
  slots (capacity r) d (tail r) (batchCounter r) = pending r /\
  slots (capacity r) d (tail r) (batchCounter r + 1) = pending r ++ [el].
Proof.
  intros H Hroom j d. destruct H as [Hl Hh Ht Hb Hp Hr]. rewrite count_cases in * by lia.
  assert (Hpend : slots (capacity r) d (tail r) (batchCounter r) = pending r).
  { unfold d, pending, j. apply slots_insert; [lia..|]. intros i Hi. rewrite Z.mod_small; lia. }
  split.
  { unfold store, j, d. rewrite (proj2 (Z.leb_le _ _)), (proj2 (Z.ltb_lt _ _)) by lia. done. }
  split.
  { unfold d, queue, j. rewrite count_cases by lia. apply slots_insert; [lia..|]. intros i Hi.
    rewrite mod_cases by (destruct (Z.leb_spec (head r) (tail r)); lia).
    destruct (Z.leb_spec (head r) (tail r)), (Z.ltb_spec i (capacity r)); lia. }
  split; [done|]. rewrite slots_app, Hpend by lia. f_equal. apply slots_one.
  rewrite Z.mod_small by lia. unfold d, j. apply list_lookup_insert_eq. lia.
Qed.

(** What a push does to the abstraction. *)
Definition pushed (r r' : TypedRing) (el : D) (batched : bool) : Prop :=
  if batched && negb (tail r + batchCounter r + 1 =? capacity r)
  then queue r' = queue r /\ pending r' = pending r ++ [el]
  else queue r' = queue r ++ pending r ++ [el] /\ pending r' = [].

Definition full (r : TypedRing) : bool := count r + batchCounter r =? capacity r - 1.

(** The abstraction when the batch and the element are published. *)
Lemma published r r' d el :
  inv r -> capacity r' = capacity r -> data r' = d -> head r' = head r ->
  tail r' = (tail r + batchCounter r + 1) mod capacity r ->
  batchCounter r' = 0 -> count r + batchCounter r < capacity r - 1 ->
  d = <[Z.to_nat (tail r + batchCounter r) := el]> (data r) ->
  queue r' = queue r ++ pending r ++ [el] /\ pending r' = [] /\ inv r'.
Proof.
  intros H Hc Hd Hh Ht Hb Hroom Hdd. destruct (store_fresh r el H Hroom) as (_ & Hq & _ & Hp).
  pose proof (count_range r (inv_ok r H)) as Hcr. destruct H as [Il Ih It Ib Ip Ir].
  assert (Hcnt : count r' = count r + (batchCounter r + 1)).
  { unfold count at 1. rewrite Hc, Ht, Hh, Zminus_mod_idemp_l.
    replace (tail r + batchCounter r + 1 - head r) with (tail r - head r + (batchCounter r + 1)) by lia.
    rewrite <- Zplus_mod_idemp_l. fold (count r). apply Z.mod_small. lia. }
  rewrite <- Hdd in *. split.
  { unfold queue at 1. rewrite Hcnt, Hc, Hd, Hh, slots_app by lia. f_equal; [done|]. rewrite <- Hp.
    apply slots_congr. unfold count. rewrite Zplus_mod_idemp_r. f_equal. lia. }
  pose proof (Z.mod_pos_bound (tail r + batchCounter r + 1) (capacity r) ltac:(lia)).
  split; [unfold pending; by rewrite Hb|].
  constructor; rewrite ?Hc, ?Hd, ?Hh, ?Ht, ?Hb, ?Hcnt; try lia.
  by rewrite Hdd, length_insert.
Qed.

Lemma push_correct r el batched :
  inv r ->
  exists r' ok, push r el batched ⇓ (r', ok) /\ ok = negb (full r) /\ inv r' /\
    capacity r' = capacity r /\ head r' = head r /\
    if ok then pushed r r' el batched else r' = r.
Proof.
  intros H. pose proof H as [Hl Hh Ht Hb Hp Hr]. pose proof (count_range r (inv_ok r H)) as Hcr.
  destruct (full r) eqn:Hf; unfold full in Hf; bool_prop.
  - exists r, false. split; [|done]. unfold push, peekHeadOffset, peekTailOffset.
    rewrite count_cases in * by lia. destruct (Z.leb_spec (head r) (tail r)).
    + rewrite (proj2 (Z.ltb_ge _ _)) by lia. by rewrite (proj2 (Z.eqb_eq (head r) 0)) by lia.
    + by rewrite (proj2 (Z.ltb_ge _ _)) by lia.
  - destruct (store_fresh r el H ltac:(lia)) as (Hs & Hq & Hpd & Hp1).
    set (d := <[Z.to_nat (tail r + batchCounter r) := el]> (data r)) in *.
    assert (Hpub : forall it, let r' := mkRing d (capacity r) (head r) ((tail r + batchCounter r + 1) mod capacity r) 0 it in
              queue r' = queue r ++ pending r ++ [el] /\ pending r' = [] /\ inv r').
    { intros it. eapply published; try done. lia. }
    assert (Hcase : tail r + batchCounter r + 1 < capacity r ->
      let r' := fst (push_slot r d (tail r) batched) in
      inv r' /\ pushed r r' el batched /\ capacity r' = capacity r /\ head r' = head r).
    { intros Hlt. cbv zeta. unfold push_slot, pushed. rewrite (proj2 (Z.eqb_neq _ _)) by lia.
      destruct batched; cbn [fst andb negb].
      - split; [|by split_and!]. constructor; cbn [data capacity head tail batchCounter]; try lia.
        { unfold d. by rewrite length_insert. }
        change (count r + (batchCounter r + 1) <= capacity r - 1). lia.
      - destruct (Hpub (iteration r)) as (H1 & H2 & H3). rewrite Z.mod_small in * by lia. by split_and!. }
    unfold push, peekHeadOffset, peekTailOffset. rewrite Hs. cbn [mbind res_bind].
    destruct (Z.leb_spec (head r) (tail r)) as [Hle|Hgt].
    + destruct (Z.ltb_spec (tail r + batchCounter r + 1) (capacity r)) as [Hlt|Hge].
      * destruct (Hcase Hlt) as (H1 & H2 & H3 & H4).
        destruct batched; eexists _, true; by split_and!.
      * rewrite count_cases in * by lia. rewrite (proj2 (Z.leb_le _ _)) in * by lia.
        rewrite (proj2 (Z.eqb_neq _ _)) by lia.
        assert (E : tail r + batchCounter r + 1 = capacity r) by lia. unfold pushed.
        pose proof (Hpub (u64 (iteration r + 1))) as Hp'. cbv zeta in Hp'. rewrite E, Z.mod_same in Hp' by lia.
        destruct Hp' as (H1 & H2 & H3). eexists _, true. split; [done|]. split; [done|].
        rewrite E, Z.eqb_refl, andb_false_r. by split_and!.
    + assert (Hc : count r = tail r - head r + capacity r).
      { rewrite count_cases by lia. by rewrite (proj2 (Z.leb_gt (head r) (tail r)) Hgt). }
      rewrite (proj2 (Z.ltb_lt _ (head r))) by lia.
      destruct Hcase as (H1 & H2 & H3 & H4); [lia|].
      destruct batched; eexists _, true; by split_and!.
Qed.

(** One attempt: the consumer runs, then the producer pushes. *)
Lemma attempt k r el batched :
  inv r ->
  exists r1 out r2 ok, consume k r ⇓ (r1, out) /\ push r1 el batched ⇓ (r2, ok) /\ inv r2 /\
    capacity r2 = capacity r /\ ok = negb (full r1) /\ count r1 <= count r /\
    batchCounter r1 = batchCounter r /\
    if ok then out ++ queue r2 ++ pending r2 = queue r ++ pending r ++ [el] /\
               (batched = false -> pending r2 = [] /\ batchCounter r2 = 0)
    else r2 = r1 /\ queue r = out ++ queue r1 /\ pending r1 = pending r.
Proof.
  intros H. destruct (consume_correct k r (inv_ok r H)) as (r1 & out & H1 & Hok & Hq & Hs & Hc).
  destruct (inv_consumer r r1 H Hok Hs ltac:(lia)) as [Hi Hp].
  destruct (push_correct r1 el batched Hi) as (r2 & ok & H2 & Hf & Hi2 & Hcap & Hh & Hpush).
  pose proof (pending_length _ Hi2) as Hpl.
  destruct Hs as (Hsd & Hst & Hsc & Hsb & Hsi).
  exists r1, out, r2, ok. split_and!; try done; [congruence|lia|].
  destruct ok; [|by subst]. unfold pushed in Hpush. rewrite Hq, <- Hp.
  destruct (batched && negb (tail r1 + batchCounter r1 + 1 =? capacity r1)) eqn:Hb; destruct Hpush as [-> Hp2].
  - rewrite Hp2, <- !app_assoc. split; [done|]. by intros ->.
  - rewrite Hp2, app_nil_r, <- !app_assoc. split; [done|]. intros _. split; [done|].
    rewrite Hp2 in Hpl. simpl in Hpl. lia.
Qed.

(** Submission succeeds in the first or the second attempt whenever the pending batch leaves
    two free slots: what the consumer would do before later attempts does not matter. *)
Lemma submit_twice r el batched k1 k2 :
  inv r -> batchCounter r + 1 < capacity r ->
  exists r' out, (forall k3 k4 k5, submitCommand r el batched k1 k2 k3 k4 k5 ⇓ (r', true, out)) /\ inv r' /\
    out ++ queue r' ++ pending r' = queue r ++ pending r ++ [el] /\
    (batched = false -> pending r' = [] /\ batchCounter r' = 0).
Proof.
  intros H Hroom.
  destruct (attempt k1 r el batched H) as (r1 & out & r2 & ok & Hc1 & Hp & Hi2 & Hcap & Hok & Hc & Hb & Hres).
  destruct ok.
  { destruct Hres. exists r2, out. split; [|done]. intros k3 k4 k5. unfold submitCommand. rewrite Hc1. cbn [mbind res_bind]. by rewrite Hp. }
  destruct Hres as (-> & Hq & Hpd).
  destruct (wait_correct (Z.to_nat (capacity r1)) r1 (inv_ok _ Hi2)) as (w & Hw1 & Hw & Hqw & Hs & Hh & Hcw).
  { pose proof (count_range _ (inv_ok _ Hi2)). lia. }
  pose proof (count_range _ (inv_ok _ Hi2)) as Hcr.
  destruct (inv_consumer r1 w Hi2 Hw Hs ltac:(lia)) as [Hiw Hpw].
  assert (Hbw : batchCounter w = batchCounter r1) by apply Hs.
  destruct (attempt k2 w el batched Hiw) as (w1 & out2 & r3 & ok2 & Hc2' & Hp2 & Hi3 & Hcap3 & Hok2 & Hc2 & Hb2 & Hres2).
  assert (Hcapw : capacity w = capacity r1) by apply Hs.
  destruct ok2.
  - destruct Hres2 as [Hall Hbat]. exists r3, (out ++ queue r1 ++ out2). split.
    { intros k3 k4 k5. unfold submitCommand. rewrite Hc1. cbn [mbind res_bind]. rewrite Hp. cbn [mbind res_bind].
      rewrite Hw1. cbn [mbind res_bind]. rewrite Hc2'. cbn [mbind res_bind]. by rewrite Hp2. }
    split; [done|]. split; [|done]. rewrite Hqw, Hpw, Hpd in Hall. rewrite Hq, <- !app_assoc, Hall. done.
  - exfalso. symmetry in Hok2. apply negb_false_iff in Hok2. unfold full in Hok2. bool_prop.
    destruct Hres2 as (-> & _ & _). pose proof (inv_room _ Hi3).
    pose proof (count_range w1 (inv_ok _ Hi3)). lia.
Qed.

Lemma submit_correct r el batched k1 k2 k3 k4 k5 :
  inv r -> batchCounter r + 1 < capacity r ->
  exists r' out, submitCommand r el batched k1 k2 k3 k4 k5 ⇓ (r', true, out) /\ inv r' /\
    out ++ queue r' ++ pending r' = queue r ++ pending r ++ [el] /\
    (batched = false -> pending r' = [] /\ batchCounter r' = 0).
Proof. intros H Hroom. destruct (submit_twice r el batched k1 k2 H Hroom) as (r' & out & Hs & Hr). exists r', out. by split. Qed.

(** A ring of one slot never takes anything. *)
Lemma submit_useless r el batched k1 k2 k3 k4 k5 : inv r -> capacity r = 1 -> submitCommand r el batched k1 k2 k3 k4 k5 ⇓ (r, false, []).
Proof.
  intros [Hl Hh Ht Hb Hp _] Hc. assert (Hh0 : head r = 0) by lia. assert (Ht0 : tail r = 0) by lia. assert (Hb0 : batchCounter r = 0) by lia.
  assert (He : peekEmpty r = true) by (unfold peekEmpty, peekHeadOffset, peekTailOffset; by rewrite Hh0, Ht0).
  assert (Hcons : forall k, consume k r ⇓ (r, [])) by (intros [|k]; cbn; [done|by rewrite He]).
  assert (Hpush : forall b, push r el b ⇓ (r, false)).
  { intros b. unfold push, peekHeadOffset, peekTailOffset. rewrite Hh0, Ht0, Hb0, Hc. done. }
  assert (Hwait : forall n, wait n (tail r) r ⇓ (r, [])).
  { intros [|n]; cbn [wait]; change (peekHeadOffset r =? tail r) with (peekEmpty r); by rewrite He. }
  assert (Hf : flushBatched r = r) by (unfold flushBatched; by rewrite Hb0).
  unfold submitCommand. repeat (rewrite ?Hcons, ?Hpush, ?Hwait, ?Hf; cbn [mbind res_bind]). done.
Qed.

(** With the whole ring pending, every schedule of the consumer leads to a
    store behind the last slot: the flush publishes the batch without resetting
    its counter. *)
Lemma submit_overflows r el batched k1 k2 k3 k4 k5 :
  inv r -> 2 <= capacity r -> head r = 0 -> tail r = 0 -> batchCounter r = capacity r - 1 ->
  submitCommand r el batched k1 k2 k3 k4 k5 = Undef.
Proof.
  intros H Hcap Hh Ht Hb. destruct H as [Hl _ _ _ _ _].
  assert (He : peekEmpty r = true) by (unfold peekEmpty, peekHeadOffset, peekTailOffset; rewrite Hh, Ht; done).
  assert (Hcons : forall k, consume k r ⇓ (r, [])) by (intros [|k]; cbn; [done|by rewrite He]).
  assert (Hpush : forall b, push r el b ⇓ (r, false)).
  { intros b. unfold push, peekHeadOffset, peekTailOffset. rewrite Hh, Ht.
    rewrite (proj2 (Z.ltb_ge _ _)) by lia. done. }
  assert (Hwait : forall n, wait n (tail r) r ⇓ (r, [])).
  { intros n. assert (E : (peekHeadOffset r =? tail r) = true) by (unfold peekHeadOffset; rewrite Hh, Ht; done).
    destruct n; cbn [wait]; by rewrite E. }
  unfold submitCommand. rewrite !Hcons. cbn [mbind res_bind]. rewrite Hpush. cbn [mbind res_bind].
  rewrite Hwait. cbn [mbind res_bind]. rewrite Hcons. cbn [mbind res_bind]. rewrite Hpush. cbn [mbind res_bind].
  set (f := flushBatched r).
  assert (Hf : f = mkRing (data r) (capacity r) 0 (capacity r - 1) (capacity r - 1) (iteration r)).
  { unfold f, flushBatched. rewrite (proj2 (Z.eqb_neq _ _)) by lia. rewrite Hh, Ht, Hb. done. }
  assert (Hfok : ring_ok f) by (rewrite Hf; split_and!; simpl; lia).
  assert (Hover : forall q b, ring_ok q -> same_producer f q ->
            push q el b = if head q =? 0 then Ret (q, false) else Undef).
  { intros q b (Hql & Hqh & Hqt) (Hsd & Hst & Hsc & Hsb & _). unfold push, peekHeadOffset, peekTailOffset.
    rewrite Hst, Hsb, Hsc. rewrite Hsc in Hqh. rewrite Hsd, Hf. rewrite Hf in Hqh. cbn [tail capacity batchCounter data] in *.
    rewrite (proj2 (Z.leb_le _ _)), (proj2 (Z.ltb_ge _ _)) by lia.
    destruct (head q =? 0); [done|]. unfold store. by rewrite (proj2 (Z.ltb_ge _ _)), andb_false_r by lia. }
  destruct (consume_correct k3 f Hfok) as (q & out & -> & Hqok & _ & Hqs & _). cbn [mbind res_bind].
  rewrite (Hover q batched Hqok Hqs). destruct (head q =? 0) eqn:Hq0; [|done]. cbn [mbind res_bind].
  destruct (wait_correct (Z.to_nat (capacity q)) q Hqok) as (w & -> & Hwok & Hwq & Hws & Hwh & Hwc).
  { pose proof (count_range _ Hqok). lia. }
  cbn [mbind res_bind].
  assert (Hwe : peekEmpty w = true) by by apply peekEmpty_queue.
  assert (Hconsw : consume k4 w ⇓ (w, [])) by (destruct k4; cbn; [done|by rewrite Hwe]).
  rewrite Hconsw. cbn [mbind res_bind].
  rewrite (Hover w batched Hwok (same_trans _ _ _ Hqs Hws)).
  assert (Hth : head w = capacity r - 1) by (rewrite Hwh; destruct Hqs as (_ & -> & _); by rewrite Hf).
  rewrite (proj2 (Z.eqb_neq (head w) 0)) by lia. done.
Qed.

(** A ring after [initControlBlock]. *)
Lemma reset_inv d cap h t it :
  1 <= cap -> Z.of_nat (length d) = cap ->
  let r := reset (mkRing d cap h t 0 it) in inv r /\ queue r = [] /\ pending r = [].
Proof.
  intros Hc Hl r. assert (Hcnt : count r = 0) by (unfold count, r; simpl; by rewrite Z.mod_0_l by lia).
  split; [constructor; rewrite ?Hcnt; simpl; lia|]. split; [|done]. unfold queue. by rewrite Hcnt.
Qed.

End ring.
Arguments TypedRing D : clear implicits.

(** * Properties *)

(** An eight-slot ring with entries 1 and 2 published and 3 pending. *)
Definition exampleRing : TypedRing Z := mkRing [0; 0; 0; 0; 0; 0; 1; 2] 8 6 0 0 0.
Definition exampleBatch : TypedRing Z := mkRing [3; 0; 0; 0; 0; 0; 1; 2] 8 6 0 1 0.

(** C2: [push] refines a bounded FIFO.  It never stores outside of the ring; it
    reports "full" exactly when published and pending entries use all slots but
    one, and then changes nothing; otherwise the element is appended, behind the
    pending batch, and everything up to it is published unless it is batched
    before the end of the ring. *)
Theorem push_refines_fifo {D} (r : TypedRing D) el batched :
  inv r ->
  exists r' ok, push r el batched ⇓ (r', ok) /\ inv r' /\ head r' = head r /\
    (ok = false <-> Z.of_nat (length (queue r) + length (pending r)) = capacity r - 1) /\
    if ok
    then (if batched && negb (tail r + batchCounter r + 1 =? capacity r)
          then queue r' = queue r /\ pending r' = pending r ++ [el]
          else queue r' = queue r ++ pending r ++ [el] /\ pending r' = [])
    else r' = r.
Proof.
  intros H. destruct (push_correct r el batched H) as (r' & ok & Hp & Hok & Hi & Hc & Hh & Hres).
  exists r', ok. split; [done|]. split; [done|]. split; [done|]. split; [|exact Hres].
  rewrite Nat2Z.inj_add, (queue_length r (inv_ok r H)), (pending_length r H), Hok.
  unfold full. rewrite negb_false_iff, Z.eqb_eq. done.
Qed.

Lemma push_refines_fifo_witness :
  exists r' ok, push exampleBatch 4 false ⇓ (r', ok) /\ inv r' /\ head r' = 6 /\
    (ok = false <-> Z.of_nat (length (queue exampleBatch) + length (pending exampleBatch)) = 7) /\
    if ok then queue r' = [1; 2; 3; 4] /\ pending r' = [] else r' = exampleBatch.
Proof. apply (push_refines_fifo exampleBatch 4 false). constructor; vm_compute; intuition congruence. Defined.

(** C6: Whatever the consumer does meanwhile, and exactly when the pending batch leaves two
    slots of the ring free (always so without batching), submitting a command succeeds in
    the first attempt or in the second one, after one wait — what happens before later
    attempts does not matter —, appends it to the stream of commands, and publishes
    everything before it when it is not batched.  With a batch that fills the ring it is
    undefined; a ring of one slot refuses everything. *)
Theorem submitCommand_enqueues {D} (r : TypedRing D) el batched k1 k2 :
  inv r ->
  if batchCounter r + 1 <? capacity r then
    exists r' out, (forall k3 k4 k5, submitCommand r el batched k1 k2 k3 k4 k5 ⇓ (r', true, out)) /\ inv r' /\
      out ++ queue r' ++ pending r' = queue r ++ pending r ++ [el] /\
      (batched = false -> pending r' = [] /\ batchCounter r' = 0)
  else forall k3 k4 k5,
    if capacity r =? 1 then submitCommand r el batched k1 k2 k3 k4 k5 ⇓ (r, false, [])
    else submitCommand r el batched k1 k2 k3 k4 k5 = Undef.
Proof.
  intros H. destruct (Z.ltb_spec (batchCounter r + 1) (capacity r)) as [Hroom|Hfull]; [by apply submit_twice|].
  intros k3 k4 k5. destruct (Z.eqb_spec (capacity r) 1) as [Hc|Hc]; [by apply submit_useless|].
  pose proof (count_range r (inv_ok r H)). pose proof (count_cases r (inv_head _ H) (inv_tail _ H)) as Hcnt.
  pose proof H as [Hl Hh Ht Hb Hp Hr]. destruct (Z.leb_spec (head r) (tail r)); apply submit_overflows; (done || lia).
Qed.

Lemma submitCommand_enqueues_witness :
  exists r' out, submitCommand exampleRing 9 false 1 0 0 0 0 ⇓ (r', true, out) /\ inv r' /\
    out ++ queue r' ++ pending r' = queue exampleRing ++ pending exampleRing ++ [9].
Proof.
  destruct (submitCommand_enqueues exampleRing 9 false 1 0) as (r' & out & Hs & Hi & Hq & _);
    [constructor; vm_compute; intuition congruence|]. exists r', out. split; [apply Hs|]. by split.
Defined.

(** The remaining case is a defect: when the ring was never published
    (head = tail = 0) and the batch fills it, [flushBatched] publishes the batch
    but keeps [batchCounter], so the next attempt stores behind the ring (to
    slot 2 * capacity - 2), for every behaviour of the consumer. *)
Theorem submitCommand_full_batch_overflows {D} (r : TypedRing D) el batched k1 k2 k3 k4 k5 :
  inv r -> 2 <= capacity r -> head r = 0 -> tail r = 0 -> batchCounter r = capacity r - 1 ->
  submitCommand r el batched k1 k2 k3 k4 k5 = Undef.
Proof. apply submit_overflows. Qed.

(** The state is reached from a fresh ring by batched submissions alone. *)
Fixpoint submit_batched (n : nat) (r : TypedRing Z) : res (TypedRing Z) :=
  match n with
  | O => Ret r
  | S n => '(r, _, _) ← submitCommand r 5 true 0 0 0 0 0; submit_batched n r
  end.

Lemma submitCommand_full_batch_overflows_witness :
  exists r, submit_batched 247 (reset (mkRing (replicate 248 0) 248 0 0 0 0)) ⇓ r /\
    submitCommand r 5 true 0 0 0 0 0 = Undef.
Proof.
  exists (mkRing (replicate 247 5 ++ [0]) 248 0 0 247 0). split; [by vm_compute|].
  apply (submitCommand_full_batch_overflows (mkRing (replicate 247 5 ++ [0]) 248 0 0 247 0) 5 true 0 0 0 0 0);
    [constructor; vm_compute; intuition congruence|done..].
Defined.
