(* ===== verification/RingSpsc.v ===== *)
(** The ring of Ring.v between two threads: the producer runs [submitCommand] of shared/rpc.h,
    the consumer peeks, copies and pops, and every load and store is a step of its own.

    The code uses relaxed atomics and plain stores.  Here each side has a buffer of its own
    stores, which reach memory in program order (total store order, as on the x86 hosts the
    program runs on); a side sees its own stores at once, the other side those that have
    reached memory.  What happens when stores may overtake each other, which relaxed atomics
    allow, is at the end. *)

From Stdlib Require Import Sorted.
From stdpp Require Import relations.
From S2P Require Import Prelude.
From S2P Require Import Ring.
Local Open Scope Z_scope.

Section spsc.
Context {D : Type}.

Inductive write : Type := WData (i : Z) (x : D) | WTail (t : Z).

Definition set_data (r : TypedRing D) (d : list D) : TypedRing D :=
  mkRing d (capacity r) (head r) (tail r) (batchCounter r) (iteration r).

Definition apply_write (r : TypedRing D) (w : write) : TypedRing D :=
  match w with
  | WData i x => set_data r (<[Z.to_nat i := x]> (data r))
  | WTail t => mkRing (data r) (capacity r) (head r) t (batchCounter r) (iteration r)
  end.

Definition apply_writes (r : TypedRing D) (l : list write) : TypedRing D := foldl apply_write r l.

(** The producer inside of [submitCommand]: before the attempt [n] of its five, after the
    loads, after the store of the entry, and waiting after the attempt [n]. *)
Inductive producer : Type :=
| PIdle
| PAttempt (n : nat) (el : D) (batched : bool)
| PLoaded (n : nat) (el : D) (batched : bool) (tailSnapshot headSnapshot : Z)
| PStored (n : nat) (el : D) (batched : bool) (tailSnapshot headSnapshot : Z)
| PWait (n : nat) (el : D) (batched : bool) (tailSnapshot : Z).

Inductive consumer : Type :=
| CIdle
| CSeen
| CCopied (x : D).

(** [ring_]: the words in memory, and the producer's own [batchCounter] and [iteration];
    [pbuf], [cbuf]: the stores of both sides on their way to memory. *)
Record spsc := mkSpsc {
  ring_ : TypedRing D;
  pbuf : list write;
  cbuf : list Z;
  prod : producer;
  cons_ : consumer;
  accepted : list D;
  taken : list D
}.

(** The ring as the consumer sees it, and with all stores done. *)
Definition consumerView (s : spsc) : TypedRing D := set_head (ring_ s) (default (head (ring_ s)) (last (cbuf s))).
Definition latest (s : spsc) : TypedRing D := apply_writes (consumerView s) (pbuf s).

(** The two "Ring full" exits of [push]. *)
Definition push_full (r : TypedRing D) (tailSnapshot headSnapshot : Z) : bool :=
  if headSnapshot <=? tailSnapshot
  then negb (tailSnapshot + batchCounter r + 1 <? capacity r) && (headSnapshot =? 0)
  else negb (tailSnapshot + batchCounter r + 1 <? headSnapshot).

Definition set_private (r : TypedRing D) (batch it : Z) : TypedRing D :=
  mkRing (data r) (capacity r) (head r) (tail r) batch it.

(** The part of [push] after the store to [data]: the producer's own words, and its stores. *)
Definition push_publish (r : TypedRing D) (batched : bool) (tailSnapshot headSnapshot : Z) : TypedRing D * list write :=
  if (headSnapshot <=? tailSnapshot) && negb (tailSnapshot + batchCounter r + 1 <? capacity r)
  then (set_private r 0 (u64 (iteration r + 1)), [WTail 0])
  else if batched then (set_private r (batchCounter r + 1) (iteration r), [])
  else (set_private r 0 (iteration r), [WTail (tailSnapshot + batchCounter r + 1)]).

(** After the attempt [n] has found the ring full; [r] is the ring as the producer sees it. *)
Definition afterFull (r : TypedRing D) (n : nat) (el : D) (batched : bool) : producer * list write :=
  match n with
  | 1%nat | 3%nat => (PWait n el batched (peekTailOffset r), [])
  | 2%nat => (PAttempt 3 el batched, if batchCounter r =? 0 then [] else [WTail (tail (flushBatched r))])
  | 4%nat => (PAttempt 5 el false, [])
  | _ => (PIdle, [])
  end.

Inductive step : spsc -> spsc -> Prop :=
| step_submit r pb cb c a t el b :
    step (mkSpsc r pb cb PIdle c a t) (mkSpsc r pb cb (PAttempt 1 el b) c a t)
| step_load r pb cb c a t n el b :
    step (mkSpsc r pb cb (PAttempt n el b) c a t) (mkSpsc r pb cb (PLoaded n el b (tail (apply_writes r pb)) (head r)) c a t)
| step_full r pb cb c a t n el b ts hs :
    push_full r ts hs = true ->
    step (mkSpsc r pb cb (PLoaded n el b ts hs) c a t)
         (mkSpsc r (pb ++ snd (afterFull (apply_writes r pb) n el b)) cb (fst (afterFull (apply_writes r pb) n el b)) c a t)
| step_waited r pb cb c a t n el b ts :
    head r = ts -> step (mkSpsc r pb cb (PWait n el b ts) c a t) (mkSpsc r pb cb (PAttempt (S n) el b) c a t)
| step_store r pb cb c a t n el b ts hs d :
    push_full r ts hs = false -> store (data r) (ts + batchCounter r) el ⇓ d ->
    step (mkSpsc r pb cb (PLoaded n el b ts hs) c a t)
         (mkSpsc r (pb ++ [WData (ts + batchCounter r) el]) cb (PStored n el b ts hs) c a t)
| step_publish r pb cb c a t n el b ts hs :
    step (mkSpsc r pb cb (PStored n el b ts hs) c a t)
         (mkSpsc (fst (push_publish r b ts hs)) (pb ++ snd (push_publish r b ts hs)) cb PIdle c (a ++ [el]) t)
| step_producer_drains r w pb cb p c a t :
    step (mkSpsc r (w :: pb) cb p c a t) (mkSpsc (apply_write r w) pb cb p c a t)
| step_consumer_drains r pb h cb p c a t :
    step (mkSpsc r pb (h :: cb) p c a t) (mkSpsc (set_head r h) pb cb p c a t)
| step_see r pb cb p a t :
    peekEmpty (consumerView (mkSpsc r pb cb p CIdle a t)) = false ->
    step (mkSpsc r pb cb p CIdle a t) (mkSpsc r pb cb p CSeen a t)
| step_copy r pb cb p a t x :
    peekHead (consumerView (mkSpsc r pb cb p CSeen a t)) ⇓ x ->
    step (mkSpsc r pb cb p CSeen a t) (mkSpsc r pb cb p (CCopied x) a t)
| step_pop r pb cb p a t x :
    step (mkSpsc r pb cb p (CCopied x) a t)
         (mkSpsc r pb (cb ++ [head (fst (pop (consumerView (mkSpsc r pb cb p (CCopied x) a t))))]) p CIdle a (t ++ [x])).

(** The steps of the producer, uninterrupted, are [push]. *)
Lemma push_steps r el b :
  push r el b =
  if push_full r (tail r) (head r) then Ret (r, false)
  else d ← store (data r) (tail r + batchCounter r) el;
       let (r, l) := push_publish (set_data r d) b (tail r) (head r) in Ret (apply_writes r l, true).
Proof.
  unfold push, push_full, push_publish, peekHeadOffset, peekTailOffset. cbn [set_data capacity batchCounter].
  destruct (head r <=? tail r); cbn [andb].
  - destruct (tail r + batchCounter r + 1 <? capacity r); cbn [andb negb].
    + by destruct (store _ _ _), b.
    + destruct (head r =? 0); [done|]. by destruct (store _ _ _).
  - destruct (tail r + batchCounter r + 1 <? head r); cbn [andb negb]; [|done].
    by destruct (store _ _ _), b.
Qed.

(** ** Views of the ring *)

Lemma apply_writes_app r l1 l2 : apply_writes r (l1 ++ l2) = apply_writes (apply_writes r l1) l2.
Proof. apply foldl_app. Qed.

Lemma apply_write_fields r w : capacity (apply_write r w) = capacity r /\ head (apply_write r w) = head r /\
  batchCounter (apply_write r w) = batchCounter r /\ iteration (apply_write r w) = iteration r /\
  length (data (apply_write r w)) = length (data r).
Proof. destruct w as [i x|t]; cbn; [by rewrite length_insert|done]. Qed.

Lemma apply_writes_fields r l : capacity (apply_writes r l) = capacity r /\ head (apply_writes r l) = head r /\
  batchCounter (apply_writes r l) = batchCounter r /\ iteration (apply_writes r l) = iteration r /\
  length (data (apply_writes r l)) = length (data r).
Proof.
  unfold apply_writes. revert r. induction l as [|w l IH]; intros r; [done|]. cbn [foldl]. destruct (IH (apply_write r w)) as (-> & -> & -> & -> & ->).
  apply apply_write_fields.
Qed.

Lemma apply_writes_set_head r h l : apply_writes (set_head r h) l = set_head (apply_writes r l) h.
Proof. revert r. induction l as [|[i x|t] l IH]; intros r; [done|exact (IH (apply_write r (WData i x)))|exact (IH (apply_write r (WTail t)))]. Qed.

Lemma apply_writes_private r b i l : apply_writes (set_private r b i) l = set_private (apply_writes r l) b i.
Proof. revert r. induction l as [|[j x|t] l IH]; intros r; [done|exact (IH (apply_write r (WData j x)))|exact (IH (apply_write r (WTail t)))]. Qed.

Lemma latest_tail r pb cb p c a t : tail (latest (mkSpsc r pb cb p c a t)) = tail (apply_writes r pb).
Proof. unfold latest, consumerView. cbn [ring_ pbuf cbuf]. by rewrite apply_writes_set_head. Qed.

(** What has reached memory, followed by each store in turn, is a growing queue. *)
Fixpoint visible (r : TypedRing D) (l : list write) : Prop :=
  ring_ok r /\ match l with [] => True | w :: l => queue r `prefix_of` queue (apply_write r w) /\ visible (apply_write r w) l end.

Lemma visible_ok r l : visible r l -> ring_ok r.
Proof. by destruct l; intros []. Qed.

Lemma visible_prefix r l : visible r l -> queue r `prefix_of` queue (apply_writes r l).
Proof.
  revert r. induction l as [|w l IH]; intros r; cbn; [done|]. intros (_ & Hp & Hv). etrans; [exact Hp|]. by apply IH.
Qed.

Lemma visible_snoc r l w : visible r l -> ring_ok (apply_write (apply_writes r l) w) ->
  queue (apply_writes r l) `prefix_of` queue (apply_write (apply_writes r l) w) -> visible r (l ++ [w]).
Proof.
  revert r. induction l as [|w' l IH]; intros r; cbn [app visible].
  - intros [Hr _] Hw Hp. split; [done|]. by split; [|split].
  - intros (Hr & Hp & Hv) Hw Hq. split; [done|]. split; [done|]. by apply IH.
Qed.

(** The producer's own words do not matter to the consumer. *)
Lemma visible_private r b i l : visible r l -> visible (set_private r b i) l.
Proof.
  revert r. induction l as [|w l IH]; intros r; cbn [visible]; [done|]. intros (Hr & Hp & Hv).
  split; [done|]. change (apply_write (set_private r b i) w) with (apply_writes (set_private r b i) [w]).
  rewrite apply_writes_private. split; [exact Hp|]. by apply IH.
Qed.

Lemma nonempty_prefix (r r' : TypedRing D) : ring_ok r -> ring_ok r' -> peekEmpty r = false -> queue r `prefix_of` queue r' -> peekEmpty r' = false.
Proof.
  intros H H' He [l Hq]. apply not_true_iff_false. rewrite peekEmpty_queue by done. intros Hn.
  rewrite Hn in Hq. symmetry in Hq. apply app_eq_nil in Hq as [Hq _]. apply (peekEmpty_queue r H) in Hq. congruence.
Qed.

(** Removing the first entry, in every state of memory. *)
Lemma pop_apply (r : TypedRing D) w : peekEmpty r = false -> peekEmpty (apply_write r w) = false -> fst (pop (apply_write r w)) = apply_write (fst (pop r)) w.
Proof. intros H H'. unfold pop. rewrite H, H'. by destruct w. Qed.

Lemma visible_pop r l : visible r l -> peekEmpty r = false -> visible (fst (pop r)) l.
Proof.
  revert r. induction l as [|w l IH]; intros r Hv He; pose proof (visible_ok _ _ Hv) as Hok;
    destruct (pop_correct r Hok He) as (x & _ & _ & Hq & _ & Hok' & _); cbn [visible]; [done|].
  destruct Hv as (_ & Hp & Hv). pose proof (visible_ok _ _ Hv) as Hokw.
  pose proof (nonempty_prefix _ _ Hok Hokw He Hp) as Hew.
  destruct (pop_correct _ Hokw Hew) as (y & _ & _ & Hqw & _). rewrite <- pop_apply by done.
  split; [done|]. split; [|by apply IH].
  rewrite Hq, Hqw in Hp. by apply prefix_cons_inv_2 in Hp.
Qed.

Lemma pop_latest r l : visible r l -> peekEmpty r = false -> apply_writes (fst (pop r)) l = fst (pop (apply_writes r l)) /\ peekEmpty (apply_writes r l) = false.
Proof.
  revert r. induction l as [|w l IH]; intros r Hv He; [done|]. cbn [apply_writes foldl]. destruct Hv as (Hok & Hp & Hv).
  pose proof (nonempty_prefix _ _ Hok (visible_ok _ _ Hv) He Hp) as Hew. rewrite <- pop_apply by done. by apply IH.
Qed.

(** The entry at the head is the first one of the queue. *)
Lemma peekHead_queue (r r' : TypedRing D) x :
  ring_ok r -> ring_ok r' -> peekEmpty r = false -> peekHead r ⇓ x -> queue r `prefix_of` queue r' -> peekEmpty r' = false /\ peekHead r' ⇓ x.
Proof.
  intros H H' He Hx Hp. pose proof (nonempty_prefix _ _ H H' He Hp) as He'. split; [done|].
  destruct (pop_correct r H He) as (y & Hy & _ & Hq & _). destruct (pop_correct r' H' He') as (z & Hz & _ & Hqz & _).
  rewrite Hx in Hy. injection Hy as <-. rewrite Hq, Hqz in Hp. apply prefix_cons_inv_1 in Hp as ->. exact Hz.
Qed.

Definition consumer_ok (r : TypedRing D) (c : consumer) : Prop :=
  match c with
  | CIdle => True
  | CSeen => peekEmpty r = false
  | CCopied x => peekEmpty r = false /\ peekHead r ⇓ x
  end.

Lemma consumer_ok_queue r r' c : ring_ok r -> ring_ok r' -> queue r `prefix_of` queue r' -> consumer_ok r c -> consumer_ok r' c.
Proof.
  intros H H' Hp. destruct c as [| |x]; cbn; [done| |]; [intros He; exact (nonempty_prefix _ _ H H' He Hp)|].
  intros [He Hx]. exact (peekHead_queue _ _ _ H H' He Hx Hp).
Qed.

(** ** Heads that the producer may load

    An older head leaves less room. *)
Definition lag (r : TypedRing D) (h : Z) : Z := count (set_head r h).

Definition heads_ok (r : TypedRing D) (l : list Z) : Prop :=
  Forall (fun h => 0 <= h < capacity r /\ lag r h + batchCounter r <= capacity r - 1 /\ count r <= lag r h) l /\ StronglySorted (fun h h' => lag r h' <= lag r h) l.

Definition stale_head (r : TypedRing D) (l : list Z) (ts hs : Z) : Prop :=
  ts = tail r /\ 0 <= hs < capacity r /\ lag r hs + batchCounter r <= capacity r - 1 /\ Forall (fun h => lag r h <= lag r hs) l.

Definition producer_ok (r : TypedRing D) (l : list Z) (p : producer) : Prop :=
  match p with
  | PIdle => True
  | PAttempt n _ _ => n = 2%nat -> lag r (hd 0 l) = 0
  | PLoaded n _ _ ts hs => stale_head r l ts hs /\ (n = 2%nat -> lag r hs = 0)
  | PStored _ el _ ts hs => stale_head r l ts hs /\ push_full r ts hs = false /\ data r !! Z.to_nat (tail r + batchCounter r) = Some el
  | PWait _ _ _ ts => ts = tail r
  end.

Lemma push_full_spec r ts hs : inv r -> ts = tail r -> 0 <= hs < capacity r -> lag r hs + batchCounter r <= capacity r - 1 ->
  push_full r ts hs = (lag r hs + batchCounter r =? capacity r - 1).
Proof.
  intros [] -> Hh Hb. unfold push_full, lag in *. rewrite count_cases in * by (simpl; lia). cbn [set_head head tail capacity batchCounter] in *.
  destruct (Z.leb_spec hs (tail r)).
  - destruct (Z.ltb_spec (tail r + batchCounter r + 1) (capacity r)), (Z.eqb_spec hs 0),
      (Z.eqb_spec (tail r - hs + batchCounter r) (capacity r - 1)); cbn; try done; lia.
  - destruct (Z.ltb_spec (tail r + batchCounter r + 1) hs),
      (Z.eqb_spec (tail r - hs + capacity r + batchCounter r) (capacity r - 1)); cbn; try done; lia.
Qed.

Lemma lag_range r h : 0 < capacity r -> 0 <= lag r h < capacity r.
Proof. intros Hc. unfold lag, count. cbn. by apply Z.mod_pos_bound. Qed.

(** The room that a stale head shows is there. *)
Lemma stale_room r l ts hs : inv r -> stale_head r l ts hs -> push_full r ts hs = false -> lag r hs + batchCounter r < capacity r - 1.
Proof.
  intros H (Ht & Hh & Hb & _) Hf. rewrite push_full_spec in Hf by done. bool_prop. lia.
Qed.

(** ** Publishing *)

Lemma push_publish_view r r' b ts hs : capacity r' = capacity r -> batchCounter r' = batchCounter r -> iteration r' = iteration r ->
  snd (push_publish r' b ts hs) = snd (push_publish r b ts hs) /\
  exists bc it, fst (push_publish r b ts hs) = set_private r bc it /\ fst (push_publish r' b ts hs) = set_private r' bc it.
Proof.
  intros Hc Hb Hi. unfold push_publish. rewrite Hc, Hb, Hi.
  destruct (_ && _); [|destruct b]; (split; [done|]); eexists _, _; split; reflexivity.
Qed.

(** What is published does not depend on how old the snapshot is. *)
Lemma push_publish_eq r l b ts hs : inv r -> stale_head r l ts hs -> push_full r ts hs = false ->
  push_publish r b ts hs = push_publish r b (tail r) (head r) /\ push_full r (tail r) (head r) = false \/ head r ∉ l.
Proof.
  intros H Hst Hf. pose proof (stale_room _ _ _ _ H Hst Hf) as Hroom. destruct Hst as (-> & Hh & Hb & Hl).
  destruct (decide (head r ∈ l)) as [Hin|]; [left|by right]. rewrite Forall_forall in Hl. specialize (Hl _ Hin).
  assert (Hown : set_head r (head r) = r) by by destruct r. unfold lag in Hl at 1. rewrite Hown in Hl.
  assert (Hf' : push_full r (tail r) (head r) = false).
  { rewrite push_full_spec; [|done|done|apply H|]; unfold lag; rewrite Hown; [apply Z.eqb_neq|]; lia. }
  split; [|done]. unfold push_publish, push_full in *.
  destruct (Z.leb_spec hs (tail r)), (Z.leb_spec (head r) (tail r)); cbn [andb]; try done;
    destruct (Z.ltb_spec (tail r + batchCounter r + 1) (capacity r)); cbn [negb andb] in *; try done.
  - bool_prop. destruct H. lia.
  - bool_prop. lia.
Qed.

Lemma store_again (r : TypedRing D) el : inv r -> data r !! Z.to_nat (tail r + batchCounter r) = Some el ->
  store (data r) (tail r + batchCounter r) el ⇓ data r.
Proof.
  intros [] Hx. unfold store. rewrite (proj2 (Z.leb_le _ _)), (proj2 (Z.ltb_lt _ _)) by lia. cbn.
  by rewrite list_insert_id.
Qed.

(** The ring once the producer's stores have arrived. *)
Definition publishedRing (r : TypedRing D) (b : bool) (ts hs : Z) : TypedRing D :=
  apply_writes (fst (push_publish r b ts hs)) (snd (push_publish r b ts hs)).

Lemma publish_correct (r : TypedRing D) l el b ts hs : inv r -> stale_head r l ts hs -> push_full r ts hs = false -> head r ∈ l ->
  data r !! Z.to_nat (tail r + batchCounter r) = Some el -> heads_ok r l ->
  let r' := publishedRing r b ts hs in
  inv r' /\ head r' = head r /\ queue r `prefix_of` queue r' /\ queue r' ++ pending r' = queue r ++ pending r ++ [el] /\ heads_ok r' l.
Proof.
  intros H Hst Hf Hin Hx [Hl1 Hl2]. pose proof (stale_room _ _ _ _ H Hst Hf) as Hroom.
  destruct (push_publish_eq r l b ts hs H Hst Hf) as [[He Hf']|Hno]; [|done].
  destruct (push_correct r el b H) as (r' & ok & Hp & Hok & Hi & Hc & Hh & Hres).
  rewrite push_steps, Hf', (store_again r el H Hx) in Hp. cbn [mbind res_bind] in Hp.
  assert (Hd : set_data r (data r) = r) by by destruct r. rewrite Hd in Hp.
  assert (Hr' : r' = publishedRing r b ts hs /\ ok = true).
  { unfold publishedRing. rewrite He. destruct (push_publish r b (tail r) (head r)). by injection Hp as <- <-. }
  destruct Hr' as [-> ->]. cbn zeta. split; [done|]. split; [done|].
  assert (Hlag : exists k, 0 <= k /\ (forall h, h ∈ l -> lag (publishedRing r b ts hs) h = lag r h + k) /\
            lag r hs + k + batchCounter (publishedRing r b ts hs) <= capacity r - 1).
  { destruct Hst as (Hts & Hhs & Hb & Hl). rewrite Forall_forall in Hl. pose proof H as [I1 I2 I3 I4 I5 I6].
    unfold publishedRing. rewrite He. unfold push_publish, lag.
    assert (Hmod : forall t', (t' = tail r + batchCounter r + 1 \/ tail r + batchCounter r + 1 = capacity r /\ t' = 0) ->
      forall h, h ∈ l -> (t' - h) mod capacity r = (tail r - h) mod capacity r + (batchCounter r + 1)).
    { intros t' Ht h Hh'. specialize (Hl h Hh'). unfold lag, count in Hl. cbn in Hl. pose proof (Z.mod_pos_bound (tail r - h) (capacity r) ltac:(lia)).
      replace ((t' - h) mod capacity r) with ((tail r - h + (batchCounter r + 1)) mod capacity r).
      2: { destruct Ht as [->|[Hc1 ->]]; [f_equal; lia|]. replace (tail r - h + (batchCounter r + 1)) with (0 - h + 1 * capacity r) by lia. by apply Z_mod_plus_full. }
      rewrite <- Zplus_mod_idemp_l. unfold lag, count in Hroom. cbn in Hroom. apply Z.mod_small. lia. }
    destruct ((head r <=? tail r) && _) eqn:Hw; [|destruct b]; cbn [fst snd apply_writes foldl apply_write set_private batchCounter].
    - exists (batchCounter r + 1). split; [lia|]. split; [|unfold lag in Hroom; lia]. intros h Hh'. unfold count. cbn.
      apply andb_true_iff in Hw as [_ Hw%negb_true_iff]. apply Z.ltb_ge in Hw. apply Hmod; [|done]. right. lia.
    - exists 0. split; [lia|]. split; [|unfold lag in Hroom; cbn; lia]. intros h _. unfold count. cbn. lia.
    - exists (batchCounter r + 1). split; [lia|]. split; [|unfold lag in Hroom; lia]. intros h Hh'. unfold count. cbn. apply Hmod; [by left|done]. }
  destruct Hlag as (k & Hk & Hlag & Hbound). destruct Hst as (_ & _ & _ & Hl). rewrite Forall_forall in Hl, Hl1.
  assert (Hheads : heads_ok (publishedRing r b ts hs) l).
  { split.
    - apply Forall_forall. intros h Hh'. rewrite Hc, Hlag by done. pose proof (Hl h Hh') as Hlh. destruct (Hl1 h Hh') as (H1 & _ & H3).
      assert (Hcnt : count (publishedRing r b ts hs) = count r + k).
      { assert (Hown : forall q : TypedRing D, set_head q (head q) = q) by (by intros []). specialize (Hlag _ Hin). unfold lag in Hlag.
        rewrite <- Hh in Hlag at 1. by rewrite !Hown in Hlag. }
      rewrite Hcnt. lia.
    - clear -Hl2 Hlag. induction Hl2 as [|h l Hl2 IH Hall]; constructor.
      + apply IH. intros x Hx. apply Hlag. by right.
      + rewrite Forall_forall in *. intros x Hx. rewrite !Hlag by (by left || by right). specialize (Hall x Hx). cbn in Hall. lia. }
  unfold pushed in Hres. destruct (b && _); destruct Hres as [-> ->]; (split; [|split; [|done]]).
  - done.
  - done.
  - by eexists.
  - by rewrite app_nil_r.
Qed.

(** ** The invariant *)

Definition heads (s : spsc) : list Z := head (ring_ s) :: cbuf s.

Record good (s : spsc) : Prop := mkGood {
  g_inv : inv (latest s);
  g_visible : visible (consumerView s) (pbuf s);
  g_heads : heads_ok (latest s) (heads s);
  g_prod : producer_ok (latest s) (heads s) (prod s);
  g_cons : consumer_ok (consumerView s) (cons_ s);
  g_fifo : taken s ++ queue (latest s) ++ pending (latest s) = accepted s
}.

(** A batch that filled the ring was flushed, and is still counted. *)
Definition overfull (s : spsc) : Prop :=
  2 <= capacity (latest s) /\ batchCounter (latest s) = capacity (latest s) - 1 /\ capacity (latest s) - 1 <= tail (latest s) /\
  Z.of_nat (length (data (latest s))) = capacity (latest s) /\
  match prod s with PLoaded _ _ _ ts _ => ts = tail (latest s) | PStored _ _ _ _ _ => False | _ => True end.

Lemma latest_head s : head (latest s) ∈ heads s.
Proof.
  unfold latest. destruct (apply_writes_fields (consumerView s) (pbuf s)) as (_ & -> & _). unfold consumerView, heads. cbn [set_head head].
  destruct (last (cbuf s)) as [h|] eqn:E; cbn [default from_option]; [|by left]. right. apply last_Some in E as (l & ->). apply elem_of_app. right. by left.
Qed.

Lemma latest_batch s : batchCounter (latest s) = batchCounter (ring_ s) /\ capacity (latest s) = capacity (ring_ s) /\
  iteration (latest s) = iteration (ring_ s) /\ length (data (latest s)) = length (data (ring_ s)).
Proof.
  unfold latest. destruct (apply_writes_fields (consumerView s) (pbuf s)) as (-> & _ & -> & -> & ->). done.
Qed.

Lemma push_full_latest s ts hs : push_full (ring_ s) ts hs = push_full (latest s) ts hs.
Proof. destruct (latest_batch s) as (Hb & Hc & _). unfold push_full. by rewrite Hb, Hc. Qed.

(** Steps of the producer that store nothing. *)
Lemma good_prod r pb cb p p' c a t : good (mkSpsc r pb cb p c a t) ->
  producer_ok (latest (mkSpsc r pb cb p c a t)) (head r :: cb) p' -> good (mkSpsc r pb cb p' c a t).
Proof. intros [H1 H2 H3 _ H5 H6] Hp. by constructor. Qed.

Lemma good_load r pb cb c a t n el b : good (mkSpsc r pb cb (PAttempt n el b) c a t) ->
  good (mkSpsc r pb cb (PLoaded n el b (tail (apply_writes r pb)) (head r)) c a t).
Proof.
  intros Hg. apply good_prod with (PAttempt n el b); [done|]. destruct Hg as [_ _ [Hl1 Hl2] Hp _ _]. cbn [prod producer_ok heads hd] in *.
  rewrite <- (latest_tail r pb cb (PAttempt n el b) c a t). set (L := latest _) in *. unfold heads in *. cbn [ring_ cbuf] in *.
  split; [|exact Hp]. pose proof Hl1 as [(H1 & H2 & _) _]%Forall_cons. split; [done|]. split; [done|]. split; [done|].
  inversion Hl2; subst. by constructor.
Qed.

Lemma good_full r pb cb c a t n el b ts hs : good (mkSpsc r pb cb (PLoaded n el b ts hs) c a t) -> push_full r ts hs = true ->
  let s' := mkSpsc r (pb ++ snd (afterFull (apply_writes r pb) n el b)) cb (fst (afterFull (apply_writes r pb) n el b)) c a t in
  good s' \/ overfull s'.
Proof.
  intros Hg Hf. pose proof (latest_tail r pb cb (PLoaded n el b ts hs) c a t) as Ht.
  pose proof (latest_batch (mkSpsc r pb cb (PLoaded n el b ts hs) c a t)) as (Hb & Hc & _ & Hlen). cbn [ring_] in *.
  assert (Hidle : forall p', producer_ok (latest (mkSpsc r pb cb (PLoaded n el b ts hs) c a t)) (head r :: cb) p' -> good (mkSpsc r (pb ++ []) cb p' c a t)).
  { intros p' Hp'. rewrite app_nil_r. by apply good_prod with (PLoaded n el b ts hs). }
  assert (Hwait : forall m, good (mkSpsc r (pb ++ []) cb (PWait m el b (peekTailOffset (apply_writes r pb))) c a t)) by (intros m; apply Hidle; exact (eq_sym Ht)).
  cbn zeta. destruct n as [|[|[|[|[|n]]]]]; cbn [afterFull fst snd]; try (left; by apply Hidle); try (by left).
  destruct (apply_writes_fields r pb) as (_ & _ & Hba & _). rewrite Hba. destruct (Z.eqb_spec (batchCounter r) 0) as [H0|H0]; [left; by apply Hidle|right].
  rewrite (push_full_latest (mkSpsc r pb cb (PLoaded 2 el b ts hs) c a t)) in Hf. destruct Hg as [Hi _ _ [(Ht1 & Hh1 & Hb1 & _) H2] _ _].
  cbn [prod] in *. specialize (H2 eq_refl). rewrite push_full_spec in Hf by done. apply Z.eqb_eq in Hf. set (L := latest _) in *.
  destruct Hi as [I1 I2 I3 I4 I5 I6]. unfold overfull. cbn [prod].
  replace (latest _) with (apply_write L (WTail (tail (flushBatched (apply_writes r pb))))) by (unfold latest; cbn [pbuf]; by rewrite apply_writes_app).
  unfold flushBatched. rewrite Hba, (proj2 (Z.eqb_neq _ _)) by done. cbn [apply_write capacity batchCounter tail data]. split_and!; try done; lia.
Qed.

Lemma good_waited r pb cb c a t n el b ts : good (mkSpsc r pb cb (PWait n el b ts) c a t) -> head r = ts ->
  good (mkSpsc r pb cb (PAttempt (S n) el b) c a t).
Proof.
  intros Hg Hh. apply good_prod with (PWait n el b ts); [done|]. destruct Hg as [Hi _ _ Hp _ _]. cbn [prod producer_ok hd] in *. intros _.
  rewrite Hh, Hp. set (L := latest _) in *. unfold lag, count. cbn. rewrite Z.sub_diag. done.
Qed.

Lemma good_store r pb cb c a t n el b ts hs : good (mkSpsc r pb cb (PLoaded n el b ts hs) c a t) -> push_full r ts hs = false ->
  good (mkSpsc r (pb ++ [WData (ts + batchCounter r) el]) cb (PStored n el b ts hs) c a t).
Proof.
  intros Hg Hf. rewrite (push_full_latest (mkSpsc r pb cb (PLoaded n el b ts hs) c a t)) in Hf.
  pose proof (latest_head (mkSpsc r pb cb (PLoaded n el b ts hs) c a t)) as Hin.
  destruct (latest_batch (mkSpsc r pb cb (PLoaded n el b ts hs) c a t)) as (Hb & _).
  destruct Hg as [Hi Hv Hl [Hst _] Hc Hq]. cbn [prod cons_ pbuf taken accepted ring_] in *. set (L := latest _) in *.
  pose proof (stale_room _ _ _ _ Hi Hst Hf) as Hroom. pose proof Hst as (Hts & _ & _ & Hll).
  assert (Hcnt : count L <= lag L hs).
  { rewrite Forall_forall in Hll. specialize (Hll _ Hin). unfold lag in Hll at 1. assert (Hown : set_head L (head L) = L) by by destruct L. by rewrite Hown in Hll. }
  destruct (store_fresh L el Hi ltac:(lia)) as (_ & Hqs & Hps & _). rewrite <- Hb, Hts.
  assert (Hlat : forall p', latest (mkSpsc r (pb ++ [WData (tail L + batchCounter L) el]) cb p' c a t) = apply_write L (WData (tail L + batchCounter L) el)).
  { intros p'. unfold latest. cbn [pbuf]. by rewrite apply_writes_app. }
  assert (Hi' : inv (apply_write L (WData (tail L + batchCounter L) el))).
  { destruct Hi. constructor; try done. cbn. by rewrite length_insert. }
  constructor; rewrite ?Hlat; cbn [prod cons_ taken accepted pbuf ring_ heads cbuf].
  - exact Hi'.
  - apply visible_snoc; [exact Hv|by apply inv_ok|]. exists []. rewrite app_nil_r. exact Hqs.
  - exact Hl.
  - split; [rewrite <- Hts; exact Hst|]. split; [rewrite <- Hts; exact Hf|]. cbn [apply_write set_data data tail batchCounter]. apply list_lookup_insert_eq. destruct Hi. lia.
  - exact Hc.
  - rewrite <- Hq. f_equal. f_equal; [exact Hqs|exact Hps].
Qed.

Lemma good_publish r pb cb c a t n el b ts hs : good (mkSpsc r pb cb (PStored n el b ts hs) c a t) ->
  good (mkSpsc (fst (push_publish r b ts hs)) (pb ++ snd (push_publish r b ts hs)) cb PIdle c (a ++ [el]) t).
Proof.
  intros Hg. pose proof (latest_head (mkSpsc r pb cb (PStored n el b ts hs) c a t)) as Hin.
  destruct (latest_batch (mkSpsc r pb cb (PStored n el b ts hs) c a t)) as (Hb & Hc & Hit & _).
  destruct Hg as [Hi Hv Hl (Hst & Hf & Hx) Hco Hq]. cbn [prod cons_ pbuf taken accepted ring_] in *.
  set (V := consumerView _) in Hv. set (L := latest _) in *.
  destruct (publish_correct L _ el b ts hs Hi Hst Hf Hin Hx Hl) as (Hi' & Hh' & Hpre & Hq' & Hl').
  destruct (push_publish_view r L b ts hs Hc Hb Hit) as (Hs & bc & it & Hr & HL). rewrite Hr, <- Hs.
  assert (Hlat : latest (mkSpsc (set_private r bc it) (pb ++ snd (push_publish L b ts hs)) cb PIdle c (a ++ [el]) t) = publishedRing L b ts hs).
  { unfold latest, publishedRing. cbn [pbuf]. rewrite apply_writes_app, HL.
    change (consumerView (mkSpsc (set_private r bc it) (pb ++ snd (push_publish L b ts hs)) cb PIdle c (a ++ [el]) t))
      with (set_private (consumerView (mkSpsc r pb cb (PStored n el b ts hs) c a t)) bc it). by rewrite apply_writes_private. }
  constructor; rewrite ?Hlat; cbn [prod cons_ taken accepted pbuf ring_ heads cbuf producer_ok]; try done.
  - apply (visible_private _ bc it) in Hv. unfold publishedRing in Hi', Hpre. rewrite HL in Hi', Hpre.
    change (latest _) with (apply_writes V pb) in L. change (consumerView _) with (set_private V bc it).
    assert (Hone : snd (push_publish L b ts hs) = [] \/ exists w, snd (push_publish L b ts hs) = [w]).
    { unfold push_publish. destruct (_ && _); [right; by eexists|]. destruct b; [by left|right; by eexists]. }
    destruct Hone as [->|(w & Hw)]; [rewrite app_nil_r; exact Hv|]. rewrite Hw in Hi', Hpre |- *.
    assert (HLs : set_private L bc it = apply_writes (set_private V bc it) pb) by (unfold L; by rewrite apply_writes_private).
    rewrite HLs in Hi', Hpre. apply visible_snoc; [exact Hv|by apply inv_ok|].
    rewrite <- HLs. rewrite <- HLs in Hpre. exact Hpre.
  - rewrite Hq', <- Hq. by rewrite <- !app_assoc.
Qed.

(** ** The stores on their way, and the consumer *)

Lemma producer_drains_views r w pb cb p c a t :
  consumerView (mkSpsc (apply_write r w) pb cb p c a t) = apply_write (consumerView (mkSpsc r (w :: pb) cb p c a t)) w /\
  latest (mkSpsc (apply_write r w) pb cb p c a t) = latest (mkSpsc r (w :: pb) cb p c a t).
Proof.
  unfold latest, consumerView. cbn [ring_ pbuf cbuf]. destruct w as [i x|t0]; by split.
Qed.

Lemma good_producer_drains r w pb cb p c a t : good (mkSpsc r (w :: pb) cb p c a t) -> good (mkSpsc (apply_write r w) pb cb p c a t).
Proof.
  destruct (producer_drains_views r w pb cb p c a t) as [HV HL]. pose proof (apply_write_fields r w) as (_ & Hh & _).
  intros [H1 H2 H3 H4 H5 H6]. cbn [pbuf] in H2. destruct H2 as (Hok & Hp & Hv).
  constructor; rewrite ?HL, ?HV; unfold heads in *; cbn [ring_ pbuf cbuf prod cons_ taken accepted] in *; rewrite ?Hh; try done.
  exact (consumer_ok_queue _ _ _ Hok (visible_ok _ _ Hv) Hp H5).
Qed.

Lemma consumer_drains_views r pb h cb p c a t :
  consumerView (mkSpsc (set_head r h) pb cb p c a t) = consumerView (mkSpsc r pb (h :: cb) p c a t) /\
  latest (mkSpsc (set_head r h) pb cb p c a t) = latest (mkSpsc r pb (h :: cb) p c a t).
Proof.
  assert (HV : consumerView (mkSpsc (set_head r h) pb cb p c a t) = consumerView (mkSpsc r pb (h :: cb) p c a t)).
  { unfold consumerView. cbn [ring_ cbuf set_head head]. rewrite last_cons. by destruct (last cb). }
  split; [exact HV|]. unfold latest. by rewrite HV.
Qed.

(** Loading a later head only leaves more room. *)
Lemma producer_ok_drain L h0 h l p : 0 < capacity L -> heads_ok L (h0 :: h :: l) -> producer_ok L (h0 :: h :: l) p -> producer_ok L (h :: l) p.
Proof.
  intros Hc [_ Hs]. apply StronglySorted_inv in Hs as [_ Hall]. apply Forall_cons in Hall as [Hle _]. pose proof (lag_range L h Hc).
  assert (Hst : forall ts hs, stale_head L (h0 :: h :: l) ts hs -> stale_head L (h :: l) ts hs).
  { intros ts hs (H1 & H2 & H3 & [_ H4]%Forall_cons). exact (conj H1 (conj H2 (conj H3 H4))). }
  destruct p as [|n el b|n el b ts hs|n el b ts hs|n el b ts]; cbn [producer_ok hd] in *; [done| | | |done].
  - intros H0 H2. specialize (H0 H2). lia.
  - intros [H1 H2]. split; [by apply Hst|done].
  - intros (H1 & H2 & H3). split; [by apply Hst|done].
Qed.

Lemma good_consumer_drains r pb h cb p c a t : good (mkSpsc r pb (h :: cb) p c a t) -> good (mkSpsc (set_head r h) pb cb p c a t).
Proof.
  destruct (consumer_drains_views r pb h cb p c a t) as [HV HL]. intros [H1 H2 H3 H4 H5 H6].
  constructor; rewrite ?HL, ?HV; unfold heads in *; cbn [ring_ pbuf cbuf prod cons_ taken accepted set_head head] in *; try done.
  - destruct H3 as [Hf Hs]. split; [exact (proj2 (proj1 (Forall_cons _ _ _) Hf))|exact (proj1 (StronglySorted_inv Hs))].
  - eapply producer_ok_drain; [|exact H3|exact H4]. destruct H1. lia.
Qed.

Lemma good_cons r pb cb p c c' a t : good (mkSpsc r pb cb p c a t) -> consumer_ok (consumerView (mkSpsc r pb cb p c a t)) c' -> good (mkSpsc r pb cb p c' a t).
Proof. intros [] H. by constructor. Qed.

Lemma good_see r pb cb p a t : good (mkSpsc r pb cb p CIdle a t) -> peekEmpty (consumerView (mkSpsc r pb cb p CIdle a t)) = false ->
  good (mkSpsc r pb cb p CSeen a t).
Proof. intros H He. by apply good_cons with CIdle. Qed.

Lemma good_copy r pb cb p a t x : good (mkSpsc r pb cb p CSeen a t) -> peekHead (consumerView (mkSpsc r pb cb p CSeen a t)) ⇓ x ->
  good (mkSpsc r pb cb p (CCopied x) a t).
Proof. intros H He. apply good_cons with CSeen; [done|]. destruct H as [_ _ _ _ H _]. by split. Qed.

Lemma sorted_snoc {A} (R : A -> A -> Prop) l x : StronglySorted R l -> Forall (fun y => R y x) l -> StronglySorted R (l ++ [x]).
Proof.
  induction 1 as [|y l Hs IH Hall]; intros Hx; cbn; [by repeat constructor|]. apply Forall_cons in Hx as [Hy Hx].
  constructor; [by apply IH|]. apply Forall_app. split; [done|by repeat constructor].
Qed.

(** The heads on their way after a pop. *)
Lemma heads_pop L l p : inv L -> peekEmpty L = false -> head L ∈ l -> l <> [] -> heads_ok L l -> producer_ok L l p ->
  let L' := fst (pop L) in heads_ok L' (l ++ [head L']) /\ producer_ok L' (l ++ [head L']) p.
Proof.
  intros Hi He Hin Hne [Hf Hs] Hp. destruct (pop_correct L (inv_ok L Hi) He) as (x & _ & _ & _ & _ & Hok & Hcnt & _). cbv zeta.
  destruct (pop_same L) as (Hd & Ht & Hc & Hb & _). set (L' := fst (pop L)) in *.
  assert (Hlag : forall h, lag L' h = lag L h) by (intros h; unfold lag, count; cbn; by rewrite Ht, Hc).
  assert (Hown : forall q : TypedRing D, lag q (head q) = count q) by (by intros []).
  pose proof (inv_room _ Hi) as Hroom. pose proof (count_range _ Hok) as Hcr.
  assert (Hst : forall ts hs, stale_head L l ts hs -> stale_head L' (l ++ [head L']) ts hs).
  { intros ts hs (H1 & H2 & H3 & H4). unfold stale_head. rewrite Ht, Hc, Hb, Hlag. split; [done|]. split; [done|]. split; [done|].
    apply Forall_app. split; [eapply Forall_impl; [exact H4|]; intros h Hh; cbn; by rewrite Hlag|]. constructor; [|done]. rewrite Hown.
    rewrite Forall_forall in H4. specialize (H4 _ Hin). rewrite Hown in H4. lia. }
  split; [split|].
  - apply Forall_app. split.
    + eapply Forall_impl; [exact Hf|]. intros h (H1 & H2 & H3). rewrite Hc, Hb, Hlag. lia.
    + constructor; [|done]. rewrite Hown. destruct Hok as (_ & Hh & _). rewrite Hb. lia.
  - apply sorted_snoc.
    + clear -Hs Hlag. induction Hs as [|h l Hs IH Hall]; constructor; [done|]. eapply Forall_impl; [exact Hall|]. intros y. cbn. by rewrite !Hlag.
    + eapply Forall_impl; [exact Hf|]. intros h (_ & _ & H3). cbn. rewrite Hown, Hlag. lia.
  - destruct p as [|n el b|n el b ts hs|n el b ts hs|n el b ts]; cbn [producer_ok] in *; [done| | | |by rewrite Ht].
    + destruct l; [done|]. cbn [hd app]. by rewrite Hlag.
    + destruct Hp as [H1 H2]. rewrite Hlag. split; [by apply Hst|done].
    + destruct Hp as (H1 & H2 & H3). rewrite Hd, Ht, Hb. split; [by apply Hst|]. split; [|done]. unfold push_full. by rewrite Hb, Hc.
Qed.

Lemma good_pop r pb cb p a t x : good (mkSpsc r pb cb p (CCopied x) a t) ->
  good (mkSpsc r pb (cb ++ [head (fst (pop (consumerView (mkSpsc r pb cb p (CCopied x) a t))))]) p CIdle a (t ++ [x])).
Proof.
  intros Hg. pose proof (latest_head (mkSpsc r pb cb p (CCopied x) a t)) as Hin. destruct Hg as [Hi Hv Hl Hp [He Hx] Hq].
  cbn [pbuf prod cons_ taken accepted] in *. set (V := consumerView _) in *. set (L := latest _) in *.
  assert (HLV : L = apply_writes V pb) by done.
  destruct (pop_latest V pb Hv He) as [HL' HeL]. rewrite <- HLV in HL', HeL.
  destruct (peekHead_queue V L x (visible_ok _ _ Hv) (inv_ok L Hi) He Hx) as [_ HxL]; [rewrite HLV; by apply visible_prefix|].
  destruct (pop_correct L (inv_ok L Hi) HeL) as (y & Hy & _ & HqL & HpL & HokL & HcL & _). rewrite HxL in Hy. injection Hy as <-.
  destruct (inv_consumer L _ Hi HokL (pop_same L) ltac:(lia)) as [Hi' _].
  destruct (heads_pop L (heads (mkSpsc r pb cb p (CCopied x) a t)) p Hi HeL Hin ltac:(done) Hl Hp) as [Hl' Hp'].
  assert (Hhead : head (fst (pop V)) = head (fst (pop L))).
  { rewrite <- HL'. symmetry. apply (apply_writes_fields (fst (pop V)) pb). }
  assert (HV' : consumerView (mkSpsc r pb (cb ++ [head (fst (pop V))]) p CIdle a (t ++ [x])) = fst (pop V)).
  { unfold consumerView. cbn [ring_ cbuf]. rewrite last_snoc. cbn. unfold V, pop, consumerView. by destruct (peekEmpty _). }
  assert (HL2 : latest (mkSpsc r pb (cb ++ [head (fst (pop V))]) p CIdle a (t ++ [x])) = fst (pop L)).
  { unfold latest. cbn [pbuf]. by rewrite HV'. }
  constructor; rewrite ?HL2, ?HV'; cbn [pbuf prod cons_ taken accepted consumer_ok]; try done.
  - by apply visible_pop.
  - unfold heads in *. cbn [ring_ cbuf] in *. rewrite Hhead. exact Hl'.
  - unfold heads in *. cbn [ring_ cbuf] in *. rewrite Hhead. exact Hp'.
  - rewrite <- Hq, HqL, HpL, <- !app_assoc. done.
Qed.

(** ** A flushed batch that filled the ring *)

Lemma overfull_room (s : spsc) el ts d : overfull s -> ts = tail (latest s) ->
  store (data (ring_ s)) (ts + batchCounter (ring_ s)) el ⇓ d -> False.
Proof.
  intros (H1 & H2 & H3 & H4 & _) -> Hs. destruct (latest_batch s) as (Hb & _ & _ & Hlen). unfold store in Hs.
  rewrite (proj2 (Z.ltb_ge _ _)) in Hs by lia. by rewrite andb_false_r in Hs.
Qed.

Lemma overfull_prod r pb cb c a t p p' : overfull (mkSpsc r pb cb p c a t) ->
  match p' with PLoaded _ _ _ ts _ => ts = tail (apply_writes r pb) | PStored _ _ _ _ _ => False | _ => True end ->
  overfull (mkSpsc r pb cb p' c a t).
Proof.
  intros (H1 & H2 & H3 & H4 & _) H. unfold overfull. cbn [prod]. split_and!; [exact H1|exact H2|exact H3|exact H4|].
  destruct p'; try done. by rewrite latest_tail.
Qed.

Lemma overfull_full r pb cb c a t n el b ts hs : overfull (mkSpsc r pb cb (PLoaded n el b ts hs) c a t) ->
  overfull (mkSpsc r (pb ++ snd (afterFull (apply_writes r pb) n el b)) cb (fst (afterFull (apply_writes r pb) n el b)) c a t).
Proof.
  intros Ho. assert (Hidle : forall p', match p' with PLoaded _ _ _ _ _ | PStored _ _ _ _ _ => False | _ => True end -> overfull (mkSpsc r (pb ++ []) cb p' c a t)).
  { intros p' Hp. rewrite app_nil_r. eapply overfull_prod; [exact Ho|]. by destruct p'. }
  destruct n as [|[|[|[|[|n]]]]]; cbn [afterFull fst snd]; try by apply Hidle.
  destruct (Z.eqb_spec (batchCounter (apply_writes r pb)) 0) as [H0|H0]; [by apply Hidle|].
  destruct Ho as (H1 & H2 & H3 & H4 & _). pose proof (latest_tail r pb cb (PLoaded 2 el b ts hs) c a t) as Ht. set (L := latest _) in *. unfold overfull. cbn [prod].
  destruct (latest_batch (mkSpsc r pb cb (PLoaded 2 el b ts hs) c a t)) as (Hb & _). change (latest _) with L in Hb. cbn [ring_] in Hb.
  destruct (apply_writes_fields r pb) as (_ & _ & Hba & _).
  replace (latest _) with (apply_write L (WTail (tail (flushBatched (apply_writes r pb))))) by (unfold latest; cbn [pbuf]; by rewrite apply_writes_app).
  unfold flushBatched. rewrite (proj2 (Z.eqb_neq _ _)) by done. cbn [apply_write capacity batchCounter tail data]. split_and!; try done; lia.
Qed.

Lemma overfull_step s s' : step s s' -> overfull s -> overfull s'.
Proof.
  intros Hs Ho. destruct Hs as [r pb cb c a t el b|r pb cb c a t n el b|r pb cb c a t n el b ts hs Hf|r pb cb c a t n el b ts Hh|r pb cb c a t n el b ts hs d Hf Hd
    |r pb cb c a t n el b ts hs|r w pb cb p c a t|r pb h cb p c a t|r pb cb p a t He|r pb cb p a t x Hx|r pb cb p a t x].
  - eapply overfull_prod; [exact Ho|done].
  - eapply overfull_prod; [exact Ho|done].
  - eapply overfull_full. exact Ho.
  - eapply overfull_prod; [exact Ho|done].
  - exfalso. eapply overfull_room; [exact Ho| |exact Hd]. apply Ho.
  - exfalso. apply Ho.
  - unfold overfull in *. by rewrite (proj2 (producer_drains_views r w pb cb p c a t)).
  - unfold overfull in *. by rewrite (proj2 (consumer_drains_views r pb h cb p c a t)).
  - exact Ho.
  - exact Ho.
  - assert (HL : exists h, latest (mkSpsc r pb (cb ++ [head (fst (pop (consumerView (mkSpsc r pb cb p (CCopied x) a t))))]) p CIdle a (t ++ [x])) =
        set_head (latest (mkSpsc r pb cb p (CCopied x) a t)) h).
    { eexists. unfold latest, consumerView at 1 3. cbn [ring_ pbuf cbuf]. rewrite last_snoc. rewrite <- apply_writes_set_head. reflexivity. }
    destruct HL as [h HL]. unfold overfull in *. by rewrite HL.
Qed.

Lemma good_step s s' : step s s' -> good s -> good s' \/ overfull s'.
Proof.
  intros Hs Hg. destruct Hs as [r pb cb c a t el b|r pb cb c a t n el b|r pb cb c a t n el b ts hs Hf|r pb cb c a t n el b ts Hh|r pb cb c a t n el b ts hs d Hf Hd
    |r pb cb c a t n el b ts hs|r w pb cb p c a t|r pb h cb p c a t|r pb cb p a t He|r pb cb p a t x Hx|r pb cb p a t x].
  - left. by apply good_prod with PIdle.
  - left. by apply good_load.
  - exact (good_full _ _ _ _ _ _ _ _ _ _ _ Hg Hf).
  - left. by eapply good_waited.
  - left. by apply good_store.
  - left. by eapply good_publish.
  - left. by apply good_producer_drains.
  - left. by apply good_consumer_drains.
  - left. by apply good_see.
  - left. by apply good_copy.
  - left. by apply good_pop.
Qed.

(** ** Without batching *)

Definition unbatched (s : spsc) : Prop :=
  batchCounter (ring_ s) = 0 /\
  match prod s with PIdle => True | PAttempt _ _ b | PLoaded _ _ b _ _ | PStored _ _ b _ _ | PWait _ _ b _ => b = false end.

Lemma unbatched_step s s' : step s s' -> (forall el, prod s' <> PAttempt 1 el true) -> unbatched s -> unbatched s'.
Proof.
  intros Hs Hb [H0 Hp]. unfold unbatched. destruct Hs as [r pb cb c a t el b|r pb cb c a t n el b|r pb cb c a t n el b ts hs Hf|r pb cb c a t n el b ts Hh|r pb cb c a t n el b ts hs d Hf Hd
    |r pb cb c a t n el b ts hs|r w pb cb p c a t|r pb h cb p c a t|r pb cb p a t He|r pb cb p a t x Hx|r pb cb p a t x];
    cbn [ring_ prod] in *; try done.
  - split; [done|]. destruct b; [by destruct (Hb el)|done].
  - split; [done|]. by destruct n as [|[|[|[|[|n]]]]].
  - unfold push_publish. subst b. by destruct ((hs <=? ts) && _).
  - destruct (apply_write_fields r w) as (_ & _ & -> & _). done.
Qed.

(** One step; [batching] tells whether commands may be submitted to a batch. *)
Definition run (batching : bool) (s s' : spsc) : Prop :=
  step s s' /\ (batching = false -> forall el, prod s' <> PAttempt 1 el true).

Definition fresh (d : list D) (cap h t it : Z) : spsc := mkSpsc (reset (mkRing d cap h t 0 it)) [] [] PIdle CIdle [] [].

Lemma fresh_good d cap h t it : 1 <= cap -> Z.of_nat (length d) = cap -> good (fresh d cap h t it).
Proof.
  intros Hc Hl. destruct (reset_inv d cap h t it Hc Hl) as (Hi & Hq & Hp).
  assert (HL : latest (fresh d cap h t it) = reset (mkRing d cap h t 0 it)) by done.
  assert (HV : consumerView (fresh d cap h t it) = reset (mkRing d cap h t 0 it)) by done.
  constructor; rewrite ?HL, ?HV; cbn [pbuf prod cons_ taken accepted fresh].
  - done.
  - split; [by apply inv_ok|done].
  - cbn. split; [|by repeat constructor]. constructor; [|done]. unfold lag, count. cbn. rewrite Z.mod_0_l by lia. lia.
  - done.
  - done.
  - by rewrite Hq, Hp.
Qed.

Lemma run_invariant batching d cap h t it s : 1 <= cap -> Z.of_nat (length d) = cap -> rtc (run batching) (fresh d cap h t it) s ->
  (good s \/ overfull s) /\ (batching = false -> unbatched s).
Proof.
  intros Hc Hl. assert (H0 : (good (fresh d cap h t it) \/ overfull (fresh d cap h t it)) /\ (batching = false -> unbatched (fresh d cap h t it))).
  { split; [left; by apply fresh_good|done]. }
  intros Hr. revert H0. induction Hr as [s|s s1 s2 [Hs Hb] _ IH]; [done|]. intros [Hg Hu]. apply IH. split.
  - destruct Hg as [Hg|Ho]; [by eapply good_step|right; by eapply overfull_step].
  - intros Hn. eapply unbatched_step; [exact Hs|by apply Hb|by apply Hu].
Qed.

(** In a good state no access is outside of the ring. *)
Lemma good_store_defined s n el b ts hs : good s -> prod s = PLoaded n el b ts hs -> push_full (ring_ s) ts hs = false ->
  exists d, store (data (ring_ s)) (ts + batchCounter (ring_ s)) el ⇓ d.
Proof.
  intros [Hi _ _ Hp _ _] E Hf. rewrite E in Hp. destruct Hp as [Hst _]. rewrite push_full_latest in Hf.
  pose proof (stale_room _ _ _ _ Hi Hst Hf) as Hroom. destruct Hst as (-> & _). destruct (latest_batch s) as (Hb & _ & _ & Hlen). destruct Hi.
  unfold store. rewrite (proj2 (Z.leb_le _ _)), (proj2 (Z.ltb_lt _ _)) by lia. by eexists.
Qed.

Lemma good_seen s : good s -> cons_ s = CSeen -> exists x, peekHead (consumerView s) ⇓ x.
Proof.
  intros [_ Hv _ _ Hc _] E. rewrite E in Hc. destruct (pop_correct _ (visible_ok _ _ Hv) Hc) as (x & Hx & _). by exists x.
Qed.

End spsc.
Arguments spsc D : clear implicits.

(** * Properties *)

(** C1: Between a producer that runs [submitCommand] (its five attempts, waits and the flush
    of the batch) and a consumer that peeks, copies and pops, in every interleaving of their
    loads and stores, where stores wait in a buffer per side and reach the other side in
    program order: the entries taken, followed by those published and those pending, are
    those accepted, in order and each once; no slot outside of the ring is stored to or
    read; and what the consumer sees is the oldest part of what was published.  The only way
    out is with batching: a batch that filled the ring was flushed and is still counted
    (which is a defect, see Ring.v). *)
Theorem ring_spsc_fifo {D} (batching : bool) (d : list D) cap h t it s :
  1 <= cap -> Z.of_nat (length d) = cap -> rtc (run batching) (fresh d cap h t it) s ->
  taken s ++ queue (latest s) ++ pending (latest s) = accepted s /\
  (forall n el b ts hs, prod s = PLoaded n el b ts hs -> push_full (ring_ s) ts hs = false ->
    exists d', store (data (ring_ s)) (ts + batchCounter (ring_ s)) el ⇓ d') /\
  (cons_ s = CSeen -> exists x, peekHead (consumerView s) ⇓ x) /\
  queue (consumerView s) `prefix_of` queue (latest s) \/
  batching = true /\ 2 <= capacity (ring_ s) /\ batchCounter (ring_ s) = capacity (ring_ s) - 1 /\ capacity (ring_ s) - 1 <= tail (latest s).
Proof.
  intros Hc Hl Hr. destruct (run_invariant batching d cap h t it s Hc Hl Hr) as [[Hg|Ho] Hu].
  - left. split; [apply Hg|]. split; [intros n el b ts hs; by apply good_store_defined|]. split; [by apply good_seen|].
    apply visible_prefix, Hg.
  - right. destruct Ho as (H1 & H2 & H3 & _ & _). destruct (latest_batch s) as (Hb & Hcap & _). rewrite Hb, Hcap in *.
    destruct batching; [split_and!; try done|destruct (Hu eq_refl) as [H0 _]; lia].
Qed.

(** A run is played by naming its steps. *)
Ltac play c := eapply rtc_l; [split; [eapply c; vm_compute; reflexivity|discriminate]|]; cbn -[consumerView].
Ltac play0 c := eapply rtc_l; [split; [eapply c|discriminate]|]; cbn.

Lemma ring_spsc_fifo_witness :
  exists s, rtc (run true) (fresh [0; 0; 0; 0] 4 0 0 0) s /\ taken s = [7] /\
    taken s ++ queue (latest s) ++ pending (latest s) = [7; 8] /\ accepted s = [7; 8].
Proof.
  assert (H : exists s, rtc (run true) (fresh [0; 0; 0; 0] 4 0 0 0) s /\ taken s = [7] /\ accepted s = [7; 8] /\ batchCounter (ring_ s) = 0 /\ capacity (ring_ s) = 4).
  { eexists. split; [|shelve]. unfold fresh. cbn.
    play0 (step_submit (mkRing [0; 0; 0; 0] 4 0 0 0 0) [] [] CIdle [] [] 7 true). play0 @step_load. play @step_store. play0 @step_publish.
    play0 (step_submit (mkRing [0; 0; 0; 0] 4 0 0 1 0) [WData 0 7] [] CIdle [7] [] 8 false). play0 @step_load. play @step_store. play0 @step_publish.
    play0 @step_producer_drains. play0 @step_producer_drains. play0 @step_producer_drains.
    play @step_see. play @step_copy. play0 @step_pop. apply rtc_refl.
    Unshelve. by vm_compute. }
  destruct H as (s & Hr & Ht & Ha & Hb & Hc). exists s. split; [exact Hr|]. split; [exact Ht|]. split; [|exact Ha].
  destruct (ring_spsc_fifo true [0; 0; 0; 0] 4 0 0 0 s ltac:(lia) eq_refl Hr) as [[Hf _]|(_ & _ & Hn & _)]; [by rewrite Hf|lia].
Defined.

(** ** Stores that overtake each other

    [__ATOMIC_RELAXED] orders nothing: an implementation may let the store to [tail] reach
    memory before the store to the entry. *)
Inductive overtake {D} : spsc D -> spsc D -> Prop :=
| overtake_tail r l1 i x tl l2 cb p c a t :
    overtake (mkSpsc r (l1 ++ WData i x :: WTail tl :: l2) cb p c a t) (mkSpsc r (l1 ++ WTail tl :: WData i x :: l2) cb p c a t).

(** The consumer then takes what was in the slot before. *)
Theorem relaxed_stores_take_stale_entry :
  exists s s1 s2, rtc (run false) (fresh [0; 0; 0; 0] 4 0 0 0) s1 /\ overtake s1 s2 /\ rtc (run false) s2 s /\ accepted s = [7] /\ taken s = [0].
Proof.
  eexists _, (mkSpsc (mkRing [0; 0; 0; 0] 4 0 0 0 0) [WData 0 7; WTail 1] [] PIdle CIdle [7] []), _. split.
  { unfold fresh. cbn. play0 (step_submit (mkRing [0; 0; 0; 0] 4 0 0 0 0) [] [] CIdle [] [] 7 false). play0 @step_load. play @step_store. play0 @step_publish. apply rtc_refl. }
  split; [exact (overtake_tail _ [] 0 7 1 [] _ _ _ _ _)|]. split; [|shelve].
  cbn. play0 @step_producer_drains. play @step_see. play @step_copy. play0 @step_pop. apply rtc_refl.
  Unshelve. by vm_compute.
Qed.
