(* ===== verification/BitAlloc.v ===== *)
(** Bit allocators of shared/allocators.h: [StaticLengthBitAllocator] (one
    64-bit word, lock-free), [BitAllocator] (a vector of words) and
    [TagAllocator] (addresses of tags).

    The operations come twice: as functions, which is what a call does when no
    other thread interferes, and as the atomic steps of any number of threads. *)

From S2P Require Import Prelude.
From stdpp Require Import relations.
Local Open Scope Z_scope.

(** * StaticLengthBitAllocator<uint64_t> *)

Definition nodeCapacity : Z := 64.
Definition fullMask : Z := u64_max.
Definition invalidOffset : Z := u32_max.

(** [__builtin_ffsl]: one plus the index of the least significant one bit. *)
Fixpoint first_set (n : nat) (i x : Z) : option Z :=
  match n with
  | O => None
  | S n => if Z.testbit x i then Some i else first_set n (i + 1) x
  end.

Definition ffsl (x : Z) : Z :=
  match first_set 64 0 x with
  | Some i => i + 1
  | None => 0
  end.

Definition firstUnset (prev : Z) : Z := ffsl (u64 (Z.lnot prev)) - 1.

(** [prev | (1 << firstUnset)]; a negative shift is undefined. *)
Definition with_bit (prev : Z) : res (Z * Z) :=
  let k := firstUnset prev in
  if k <? 0 then Undef else Ret (k, Z.lor prev (u64 (Z.shiftl 1 k))).

(** [allocate] without contention: the first exchange succeeds. *)
Definition node_allocate (occupied : Z) : res (Z * Z) :=
  if occupied =? fullMask then Ret (invalidOffset, occupied)
  else if occupied =? 0 then Ret (0, 1)
  else with_bit occupied.

Definition free_mask (offset : Z) : Z := u64 (Z.lnot (u64 (Z.shiftl 1 offset))).

Definition node_free (occupied offset : Z) : Z := Z.land occupied (free_mask offset).

(** * BitAllocator *)

(** [std::vector<NodeT> nodes] *)
Abbreviation BitAllocator := (list Z).

Definition makeBitAllocator (capacity : Z) : BitAllocator :=
  replicate (Z.to_nat (capacity / nodeCapacity)) 0.

(** The inner loop over the nodes from index [i] on. *)
Fixpoint allocate_nodes (i : Z) (nodes : BitAllocator) : res (Z * BitAllocator) :=
  match nodes with
  | [] => Ret (invalidOffset, [])
  | occupied :: rest =>
      '(localOffset, occupied') ← node_allocate occupied;
      if negb (invalidOffset =? localOffset)
      then Ret (u32 (localOffset + i * nodeCapacity), occupied' :: rest)
      else
        '(offset, rest') ← allocate_nodes (i + 1) rest;
        Ret (offset, occupied' :: rest')
  end.

(** Two tries. *)
Definition bit_allocate (nodes : BitAllocator) : res (Z * BitAllocator) :=
  '(offset, nodes) ← allocate_nodes 0 nodes;
  if negb (invalidOffset =? offset) then Ret (offset, nodes) else allocate_nodes 0 nodes.

Definition bit_free (nodes : BitAllocator) (offset : Z) : BitAllocator * bool :=
  let nodeId := offset / nodeCapacity in
  match nodes !! Z.to_nat nodeId with
  | None => (nodes, false)
  | Some occupied =>
      (<[Z.to_nat nodeId := node_free occupied (offset - nodeId * nodeCapacity)]> nodes, true)
  end.

Definition getCapacity (nodes : BitAllocator) : Z := Z.of_nat (length nodes) * nodeCapacity.

(** * TagAllocator<TagType>; [tagSize] is [sizeof(TagType)] *)

Record TagAllocator := mkTagAllocator { underlyingAllocation : Z; tagSize : Z; allocator : BitAllocator }.

Definition tag_allocate (t : TagAllocator) : res (option Z * TagAllocator) :=
  '(offset, nodes) ← bit_allocate (allocator t);
  let t' := mkTagAllocator (underlyingAllocation t) (tagSize t) nodes in
  if invalidOffset =? offset then Ret (None, t')
  else Ret (Some (underlyingAllocation t + offset * tagSize t), t').

(** [tag - underlyingAllocation], narrowed to the 32-bit offset. *)
Definition tag_free (t : TagAllocator) (tag : Z) : TagAllocator :=
  let offset := u32 ((tag - underlyingAllocation t) / tagSize t) in
  mkTagAllocator (underlyingAllocation t) (tagSize t) (fst (bit_free (allocator t) offset)).

(** * Bits of a word *)

Lemma testbit_u64_lnot x i : 0 <= i < 64 -> Z.testbit (u64 (Z.lnot x)) i = negb (Z.testbit x i).
Proof. intros Hi. unfold u64. change W64 with (2 ^ 64). by rewrite Z.mod_pow2_bits_low, Z.lnot_spec by lia. Qed.

Lemma testbit_bit k i : 0 <= k < 64 -> 0 <= i -> Z.testbit (u64 (Z.shiftl 1 k)) i = (i =? k).
Proof.
  intros Hk Hi. rewrite Z.shiftl_1_l, u64_id.
  - rewrite Z.pow2_bits_eqb, Z.eqb_sym by lia. done.
  - split; [apply Z.pow_nonneg; lia|]. change W64 with (2 ^ 64). apply Z.pow_lt_mono_r; lia.
Qed.

Lemma u64_bits x i : is_u64 x -> 64 <= i -> Z.testbit x i = false.
Proof.
  intros Hx Hi. rewrite <- (Z.mod_small x (2 ^ 64)) by exact Hx. apply Z.mod_pow2_bits_high. lia.
Qed.

Lemma u64_ext x y : is_u64 x -> is_u64 y -> (forall i, 0 <= i < 64 -> Z.testbit x i = Z.testbit y i) -> x = y.
Proof.
  intros Hx Hy H. apply Z.bits_inj'. intros i Hi. destruct (Z.lt_ge_cases i 64); [by apply H|].
  by rewrite !u64_bits.
Qed.

Lemma is_u64_bits x : 0 <= x -> (forall i, 64 <= i -> Z.testbit x i = false) -> is_u64 x.
Proof.
  intros Hx H. split; [done|]. destruct (Z.eq_dec x 0) as [->|Hne]; [done|].
  change W64 with (2 ^ 64). apply Z.log2_lt_pow2; [lia|].
  destruct (Z.lt_ge_cases (Z.log2 x) 64) as [|Hge]; [done|]. specialize (H _ Hge).
  rewrite Z.bit_log2 in H by lia. done.
Qed.

Lemma is_u64_lor x y : is_u64 x -> is_u64 y -> is_u64 (Z.lor x y).
Proof.
  intros Hx Hy. apply is_u64_bits; [apply Z.lor_nonneg; unfold is_u64 in *; lia|].
  intros i Hi. by rewrite Z.lor_spec, !u64_bits.
Qed.

Lemma is_u64_land x y : is_u64 x -> is_u64 (Z.land x y).
Proof.
  intros Hx. apply is_u64_bits; [apply Z.land_nonneg; unfold is_u64 in *; lia|].
  intros i Hi. by rewrite Z.land_spec, u64_bits.
Qed.

Lemma full_bits x : is_u64 x -> x = fullMask <-> forall i, 0 <= i < 64 -> Z.testbit x i = true.
Proof.
  intros Hx. assert (Hf : forall i, 0 <= i < 64 -> Z.testbit fullMask i = true).
  { intros i Hi. change fullMask with (Z.ones 64). by apply Z.ones_spec_low. }
  split; [by intros -> |]. intros H. apply u64_ext; [done|done|]. intros i Hi. by rewrite H, Hf.
Qed.

Lemma first_set_spec n i x :
  match first_set n i x with
  | Some k => i <= k < i + Z.of_nat n /\ Z.testbit x k = true /\ forall j, i <= j < k -> Z.testbit x j = false
  | None => forall j, i <= j < i + Z.of_nat n -> Z.testbit x j = false
  end.
Proof.
  revert i. induction n as [|n IH]; intros i; cbn [first_set]; [intros; lia|].
  destruct (Z.testbit x i) eqn:Hb; [split_and!; [lia|lia|done|intros; lia]|].
  specialize (IH (i + 1)).
  assert (Hext : forall j, i <= j -> (i + 1 <= j -> Z.testbit x j = false) -> Z.testbit x j = false).
  { intros j Hj H. destruct (Z.eq_dec j i) as [->|]; [done|]. apply H. lia. }
  destruct (first_set n (i + 1) x) as [k|].
  - destruct IH as (H1 & H2 & H3). split_and!; [lia|lia|done|].
    intros j Hj. apply Hext; [lia|]. intros. apply H3. lia.
  - intros j Hj. apply Hext; [lia|]. intros. apply IH. lia.
Qed.

(** The least unset bit. *)
Lemma firstUnset_spec prev :
  is_u64 prev -> prev <> fullMask ->
  0 <= firstUnset prev < 64 /\ Z.testbit prev (firstUnset prev) = false /\
  forall i, 0 <= i < firstUnset prev -> Z.testbit prev i = true.
Proof.
  intros Hp Hne. unfold firstUnset, ffsl.
  pose proof (first_set_spec 64 0 (u64 (Z.lnot prev))) as Hf.
  destruct (first_set 64 0 (u64 (Z.lnot prev))) as [k|].
  - destruct Hf as (H1 & H2 & H3). rewrite Z.add_simpl_r. split; [lia|].
    rewrite testbit_u64_lnot in H2 by lia. apply negb_true_iff in H2. split; [done|].
    intros i Hi. specialize (H3 i Hi). rewrite testbit_u64_lnot in H3 by lia. by apply negb_false_iff.
  - exfalso. apply Hne, full_bits; [done|]. intros i Hi. specialize (Hf i ltac:(lia)).
    rewrite testbit_u64_lnot in Hf by done. by apply negb_false_iff.
Qed.

(** [lor] with one bit and [land] with its complement. *)
Lemma set_bit_spec occ k i :
  0 <= k < 64 -> 0 <= i -> Z.testbit (Z.lor occ (u64 (Z.shiftl 1 k))) i = Z.testbit occ i || (i =? k).
Proof. intros Hk Hi. by rewrite Z.lor_spec, testbit_bit. Qed.

Lemma node_free_spec occ k i :
  is_u64 occ -> 0 <= k < 64 -> 0 <= i -> Z.testbit (node_free occ k) i = Z.testbit occ i && negb (i =? k).
Proof.
  intros Ho Hk Hi. unfold node_free, free_mask. rewrite Z.land_spec.
  destruct (Z.lt_ge_cases i 64); [|by rewrite u64_bits].
  by rewrite testbit_u64_lnot, testbit_bit by lia.
Qed.

Lemma with_bit_spec prev :
  is_u64 prev -> prev <> fullMask ->
  exists k occ, with_bit prev ⇓ (k, occ) /\ is_u64 occ /\ 0 <= k < 64 /\ k = firstUnset prev /\
    Z.testbit prev k = false /\ (forall i, 0 <= i < k -> Z.testbit prev i = true) /\
    forall i, 0 <= i -> Z.testbit occ i = Z.testbit prev i || (i =? k).
Proof.
  intros Hp Hne. destruct (firstUnset_spec prev Hp Hne) as (Hk & Hb & Hlow).
  unfold with_bit. rewrite (proj2 (Z.ltb_ge _ _)) by lia. eexists _, _. split; [done|].
  split; [apply is_u64_lor; [done|apply u64_range]|]. split_and!; try done; try lia.
  intros i Hi. by apply set_bit_spec.
Qed.

(** A call that is not disturbed takes the least unset bit. *)
Lemma node_allocate_spec occ :
  is_u64 occ ->
  exists k occ', node_allocate occ ⇓ (k, occ') /\ is_u64 occ' /\
    ((k = invalidOffset /\ occ = fullMask /\ occ' = occ) \/
     (0 <= k < 64 /\ Z.testbit occ k = false /\ (forall i, 0 <= i < k -> Z.testbit occ i = true) /\
      forall i, 0 <= i -> Z.testbit occ' i = Z.testbit occ i || (i =? k))).
Proof.
  intros Hp. unfold node_allocate. destruct (Z.eqb_spec occ fullMask) as [->|Hne].
  { eexists _, _. split; [done|]. split; [done|]. by left. }
  destruct (Z.eqb_spec occ 0) as [->|Hz].
  - exists 0, 1. split; [done|]. split; [done|]. right. split; [done|]. split; [done|].
    split; [intros; lia|]. intros i Hi. rewrite Z.bits_0. cbn [orb]. 
    change 1 with (2 ^ 0). rewrite Z.pow2_bits_eqb by lia. apply Z.eqb_sym.
  - destruct (with_bit_spec occ Hp Hne) as (k & occ' & H & Hu & Hk & _ & Hb & Hlow & Hi).
    exists k, occ'. split; [done|]. split; [done|]. by right.
Qed.

(** * The vector of words as one set of bits *)

Definition taken (nodes : BitAllocator) (n : Z) : bool :=
  match nodes !! Z.to_nat (n / nodeCapacity) with
  | Some occupied => Z.testbit occupied (n mod nodeCapacity)
  | None => false
  end.

Lemma taken_cons x nodes n :
  0 <= n -> taken (x :: nodes) n = if n <? 64 then Z.testbit x n else taken nodes (n - 64).
Proof.
  intros Hn. unfold taken, nodeCapacity. destruct (Z.ltb_spec n 64).
  - rewrite Z.div_small, Z.mod_small by lia. done.
  - assert (E : n / 64 = (n - 64) / 64 + 1 /\ n mod 64 = (n - 64) mod 64 /\ 0 <= (n - 64) / 64)
      by (Z.div_mod_to_equations; lia).
    destruct E as (-> & -> & ?). by rewrite Z2Nat.inj_add, Nat.add_1_r by lia.
Qed.

(** [off] is the least free offset of [nodes] and [nodes'] marks it. *)
Definition takes (nodes : BitAllocator) (off : Z) (nodes' : BitAllocator) : Prop :=
  0 <= off < getCapacity nodes /\ taken nodes off = false /\
  (forall n, 0 <= n < off -> taken nodes n = true) /\
  forall n, 0 <= n -> taken nodes' n = taken nodes n || (n =? off).

Definition all_taken (nodes : BitAllocator) : Prop :=
  forall n, 0 <= n < getCapacity nodes -> taken nodes n = true.

Lemma allocate_nodes_spec nodes i :
  Forall is_u64 nodes -> 0 <= i -> (i + Z.of_nat (length nodes)) * nodeCapacity <= u32_max ->
  exists off nodes', allocate_nodes i nodes ⇓ (off, nodes') /\ Forall is_u64 nodes' /\
    length nodes' = length nodes /\
    ((off = invalidOffset /\ nodes' = nodes /\ all_taken nodes) \/
     exists o, off = o + i * nodeCapacity /\ off < u32_max /\ takes nodes o nodes').
Proof.
  intros Hall. revert i. induction Hall as [|x nodes Hx Hall IH]; intros i Hi Hcap.
  { exists invalidOffset, []. split_and!; try done. left. split_and!; try done. intros n Hn.
    unfold getCapacity in Hn. simpl in Hn. lia. }
  simpl length in *. unfold nodeCapacity, u32_max in *. cbn [allocate_nodes].
  destruct (node_allocate_spec x Hx) as (k & x' & -> & Hx' & Hk). cbn [mbind res_bind].
  assert (Hc : getCapacity (x :: nodes) = 64 + getCapacity nodes) by (unfold getCapacity, nodeCapacity; simpl length; lia).
  destruct Hk as [(-> & Hfull & ->)|(Hk & Hb & Hlow & Hset)].
  - rewrite Z.eqb_refl. cbn [negb].
    destruct (IH (i + 1)) as (off & nodes' & -> & Hall' & Hlen & Hres); [lia..|]. cbn [mbind res_bind].
    exists off, (x :: nodes'). split; [done|]. split; [by constructor|]. split; [simpl; lia|].
    assert (Hxt : forall n, 0 <= n < 64 -> Z.testbit x n = true) by (by apply full_bits).
    destruct Hres as [(-> & -> & Ht)|(o & -> & Hlt & Ht)].
    + left. split_and!; try done. intros n Hn. rewrite taken_cons by lia.
      destruct (Z.ltb_spec n 64); [apply Hxt; lia|]. apply Ht. lia.
    + right. exists (o + 64). split; [unfold nodeCapacity; lia|]. split; [done|].
      destruct Ht as (Ho & Hto & Hlow & Hset). split; [lia|]. split; [|split].
      * rewrite taken_cons by lia. rewrite (proj2 (Z.ltb_ge _ _)) by lia. by rewrite Z.add_simpl_r.
      * intros n Hn. rewrite taken_cons by lia. destruct (Z.ltb_spec n 64); [apply Hxt; lia|]. apply Hlow. lia.
      * intros n Hn. rewrite !taken_cons by lia. destruct (Z.ltb_spec n 64).
        { rewrite (proj2 (Z.eqb_neq _ _)) by lia. by rewrite orb_false_r. }
        rewrite Hset by lia. f_equal. destruct (Z.eqb_spec (n - 64) o), (Z.eqb_spec n (o + 64)); done || lia.
  - rewrite (proj2 (Z.eqb_neq _ _)) by (unfold invalidOffset, u32_max; lia). cbn [negb].
    rewrite u32_id by (split; unfold nodeCapacity; lia).
    eexists _, _. split; [done|]. split; [by constructor|]. split; [done|].
    right. exists k. unfold nodeCapacity. split; [lia|]. split; [lia|].
    pose proof (Zle_0_nat (length nodes)). split; [rewrite Hc; unfold getCapacity, nodeCapacity; lia|]. split; [|split].
    + rewrite taken_cons by lia. by rewrite (proj2 (Z.ltb_lt _ _)) by lia.
    + intros n Hn. rewrite taken_cons by lia. rewrite (proj2 (Z.ltb_lt _ _)) by lia. by apply Hlow.
    + intros n Hn. rewrite !taken_cons by lia. destruct (Z.ltb_spec n 64); [by apply Hset|].
      rewrite (proj2 (Z.eqb_neq _ _)) by lia. by rewrite orb_false_r.
Qed.

(** The offsets fit the 32-bit result and never equal the invalid offset. *)
Definition bits_ok (nodes : BitAllocator) : Prop :=
  Forall is_u64 nodes /\ getCapacity nodes <= u32_max.

Lemma bit_allocate_spec nodes :
  bits_ok nodes ->
  exists off nodes', bit_allocate nodes ⇓ (off, nodes') /\ bits_ok nodes' /\
    ((off = invalidOffset /\ nodes' = nodes /\ all_taken nodes) \/ (off <> invalidOffset /\ takes nodes off nodes')).
Proof.
  intros [Hall Hcap]. unfold bit_allocate.
  destruct (allocate_nodes_spec nodes 0 Hall ltac:(lia)) as (off & nodes' & H & Hall' & Hlen & Hres).
  { unfold getCapacity, nodeCapacity in *. lia. }
  rewrite H. cbn [mbind res_bind].
  assert (Hok : bits_ok nodes') by (split; [done|]; unfold getCapacity in *; by rewrite Hlen).
  destruct Hres as [(-> & -> & Ht)|(o & -> & Hlt & Ht)].
  - rewrite Z.eqb_refl. cbn [negb]. exists invalidOffset, nodes. rewrite H. split_and!; try done. by left.
  - rewrite Z.mul_0_l, Z.add_0_r in *. unfold invalidOffset, u32_max in *.
    rewrite (proj2 (Z.eqb_neq _ _)) by lia. cbn [negb]. exists o, nodes'. split_and!; try done. right. split; [lia|done].
Qed.

Lemma bit_free_spec nodes off :
  bits_ok nodes -> 0 <= off ->
  let r := bit_free nodes off in
  bits_ok (fst r) /\ (snd r = true <-> off < getCapacity nodes) /\
  length (fst r) = length nodes /\
  forall n, 0 <= n -> taken (fst r) n = taken nodes n && negb (n =? off).
Proof.
  intros [Hall Hcap] Ho. unfold bit_free, nodeCapacity. pose proof (Z.div_mod off 64 ltac:(lia)) as Hdm.
  pose proof (Z.mod_pos_bound off 64 ltac:(lia)). assert (0 <= off / 64) by (apply Z.div_pos; lia).
  destruct (nodes !! Z.to_nat (off / 64)) as [occ|] eqn:Hocc; cbn [fst snd].
  - pose proof (lookup_lt_Some _ _ _ Hocc). rewrite Forall_lookup in Hall. pose proof (Hall _ _ Hocc) as Hu.
    replace (off - off / 64 * 64) with (off mod 64) by lia.
    split; [split|]. 
    + apply Forall_lookup. intros j y Hy. apply list_lookup_insert_Some in Hy as [(<- & <- & _)|[_ Hy]]; [|by eapply Hall].
      by apply is_u64_land.
    + unfold getCapacity in *. by rewrite length_insert.
    + split; [unfold getCapacity, nodeCapacity; split; [lia|done]|]. split; [by rewrite length_insert|].
      intros n Hn. unfold taken, nodeCapacity. pose proof (Z.div_mod n 64 ltac:(lia)).
      pose proof (Z.mod_pos_bound n 64 ltac:(lia)). assert (0 <= n / 64) by (apply Z.div_pos; lia).
      destruct (Z.eq_dec (n / 64) (off / 64)) as [Heq|Hne].
      * rewrite Heq. rewrite list_lookup_insert_eq, Hocc by done. rewrite node_free_spec by lia || done.
        f_equal. f_equal. destruct (Z.eqb_spec (n mod 64) (off mod 64)), (Z.eqb_spec n off); done || lia.
      * rewrite list_lookup_insert_ne by lia. rewrite (proj2 (Z.eqb_neq _ _)); [by rewrite andb_true_r|]. by intros ->.
  - apply lookup_ge_None in Hocc. split; [done|]. split; [unfold getCapacity, nodeCapacity; split; [done|lia]|].
    split; [done|]. intros n Hn. destruct (Z.eqb_spec n off) as [->|]; [|by rewrite andb_true_r].
    unfold taken, nodeCapacity. by rewrite (proj2 (lookup_ge_None _ _)).
Qed.

(** * Any number of threads on one word

    [ARun prev] is a thread at the head of the loop of [allocate] with the value
    it last observed; [ARetry prev] one whose exchange of an empty word failed
    and that goes on to search [prev]; [FRun offset prev] one in the loop of
    [free].  A weak exchange may fail at any time. *)
Inductive thread : Type :=
| TIdle
| ARun (prev : Z)
| ARetry (prev : Z)
| FRun (offset prev : Z).

(** [held] are the offsets handed out and not yet given back; [broken] marks an
    undefined shift. *)
Record world := mkWorld { word : Z; threads : list thread; held : list Z; broken : bool }.

Inductive wstep : world -> world -> Prop :=
| w_alloc_load o ts h i :
    ts !! i = Some TIdle -> wstep (mkWorld o ts h false) (mkWorld o (<[i := ARun o]> ts) h false)
| w_alloc_full o ts h i :
    ts !! i = Some (ARun fullMask) -> wstep (mkWorld o ts h false) (mkWorld o (<[i := TIdle]> ts) h false)
| w_alloc_first o ts h i :
    ts !! i = Some (ARun 0) -> o = 0 ->
    wstep (mkWorld o ts h false) (mkWorld 1 (<[i := TIdle]> ts) (0 :: h) false)
| w_alloc_first_fail o ts h i :
    ts !! i = Some (ARun 0) -> wstep (mkWorld o ts h false) (mkWorld o (<[i := ARetry o]> ts) h false)
| w_alloc_bit o ts h i prev k o' :
    ts !! i = Some (ARetry prev) \/ ts !! i = Some (ARun prev) /\ prev <> fullMask /\ prev <> 0 ->
    with_bit prev ⇓ (k, o') -> o = prev ->
    wstep (mkWorld o ts h false) (mkWorld o' (<[i := TIdle]> ts) (k :: h) false)
| w_alloc_bit_fail o ts h i prev k o' :
    ts !! i = Some (ARetry prev) \/ ts !! i = Some (ARun prev) /\ prev <> fullMask /\ prev <> 0 ->
    with_bit prev ⇓ (k, o') ->
    wstep (mkWorld o ts h false) (mkWorld o (<[i := ARun o]> ts) h false)
| w_alloc_undef o ts h i prev :
    ts !! i = Some (ARetry prev) -> with_bit prev = Undef ->
    wstep (mkWorld o ts h false) (mkWorld o ts h true)
| w_free_load o ts h i off h' :
    ts !! i = Some TIdle -> Permutation h (off :: h') ->
    wstep (mkWorld o ts h false) (mkWorld o (<[i := FRun off o]> ts) h' false)
| w_free o ts h i off prev :
    ts !! i = Some (FRun off prev) -> o = prev ->
    wstep (mkWorld o ts h false) (mkWorld (node_free prev off) (<[i := TIdle]> ts) h false)
| w_free_fail o ts h i off prev :
    ts !! i = Some (FRun off prev) ->
    wstep (mkWorld o ts h false) (mkWorld o (<[i := FRun off o]> ts) h false).

(** Offsets that a thread is about to clear. *)
Definition freeing (ts : list thread) : list Z :=
  omap (fun t => match t with FRun off _ => Some off | _ => None end) ts.

Definition observed_ok (t : thread) : Prop :=
  match t with
  | TIdle => True
  | ARun prev | ARetry prev | FRun _ prev => is_u64 prev
  end.

Record world_inv (w : world) : Prop := mkWorldInv {
  wi_word : is_u64 (word w);
  wi_obs : Forall observed_ok (threads w);
  wi_nodup : NoDup (held w ++ freeing (threads w));
  wi_bits : forall k, k ∈ held w ++ freeing (threads w) <-> 0 <= k < 64 /\ Z.testbit (word w) k = true
}.

(** The offsets that are set in the word: handed out, or about to be cleared. *)
Definition pool_ok (o : Z) (pool : list Z) : Prop :=
  is_u64 o /\ NoDup pool /\ forall k, k ∈ pool <-> 0 <= k < 64 /\ Z.testbit o k = true.

Lemma pool_ok_perm o p p' : Permutation p p' -> pool_ok o p -> pool_ok o p'.
Proof. unfold pool_ok. intros Hp (? & Hn & Hk). split_and!; [done|by rewrite <- Hp|]. intros k. by rewrite <- Hp. Qed.

Lemma pool_ok_add o p k o' :
  pool_ok o p -> o <> fullMask -> with_bit o ⇓ (k, o') -> pool_ok o' (k :: p).
Proof.
  intros (Ho & Hn & Hk) Hne Hw. destruct (with_bit_spec o Ho Hne) as (k' & o'' & Hw' & Ho' & Hr & _ & Hb & _ & Hset).
  rewrite Hw in Hw'. injection Hw' as <- <-. split_and!; [done| |].
  - apply NoDup_cons. split; [|done]. rewrite Hk, Hb. intros [_ ?]. done.
  - intros j. rewrite elem_of_cons, Hk. split.
    + intros [-> |[Hj Hb']]; [|split; [done|]]; rewrite Hset by lia; [rewrite Z.eqb_refl, orb_true_r; done|by rewrite Hb'].
    + intros [Hj Hb']. rewrite Hset in Hb' by lia. apply orb_true_iff in Hb' as [Hb'|Hb']; [by right|bool_prop; by left].
Qed.

Lemma pool_ok_remove o p k : pool_ok o (k :: p) -> pool_ok (node_free o k) p.
Proof.
  intros (Ho & Hn & Hk). apply NoDup_cons in Hn as [Hni Hn].
  destruct (proj1 (Hk k) ltac:(by left)) as [Hkr _]. split_and!; [by apply is_u64_land|done|].
  intros j. split.
  - intros Hj. destruct (proj1 (Hk j) ltac:(by right)) as [Hjr Hb]. split; [done|].
    rewrite node_free_spec, Hb by lia || done. rewrite (proj2 (Z.eqb_neq _ _)); [done|]. by intros ->.
  - intros [Hjr Hb]. rewrite node_free_spec in Hb by lia || done. apply andb_true_iff in Hb as [Hb Hne].
    apply negb_true_iff, Z.eqb_neq in Hne.
    destruct (proj1 (elem_of_cons _ _ _) (proj2 (Hk j) (conj Hjr Hb))); done.
Qed.

Lemma freeing_split ts i t :
  ts !! i = Some t ->
  exists rest, Permutation (freeing ts) (freeing [t] ++ rest) /\
    forall t', Permutation (freeing (<[i := t']> ts)) (freeing [t'] ++ rest).
Proof.
  intros Hi. apply list_elem_of_split_length in Hi as (l1 & l2 & -> & ->).
  assert (Hsplit : forall t, Permutation (freeing (l1 ++ t :: l2)) (freeing [t] ++ freeing l1 ++ freeing l2)).
  { intros t'. unfold freeing. rewrite omap_app. change (t' :: l2) with ([t'] ++ l2).
    rewrite omap_app. apply Permutation_app_swap_app. }
  exists (freeing l1 ++ freeing l2). split; [apply Hsplit|]. intros t'. rewrite insert_middle. apply Hsplit.
Qed.

Lemma not_full_of_bit o k o' : with_bit o ⇓ (k, o') -> o <> fullMask.
Proof. intros H ->. by vm_compute in H. Qed.

Definition world_ok (w : world) : Prop :=
  Forall observed_ok (threads w) /\ pool_ok (word w) (held w ++ freeing (threads w)).

(** Replacing the state of one thread. *)
Lemma pool_thread ts i t o h :
  ts !! i = Some t -> pool_ok o (h ++ freeing ts) ->
  exists rest, pool_ok o (freeing [t] ++ h ++ rest) /\
    forall t' o' h', pool_ok o' (freeing [t'] ++ h' ++ rest) -> pool_ok o' (h' ++ freeing (<[i := t']> ts)).
Proof.
  intros Hi Hp. destruct (freeing_split ts i t Hi) as (rest & Hr & Hr'). exists rest. split.
  - eapply pool_ok_perm; [|exact Hp]. rewrite Hr. apply Permutation_app_swap_app.
  - intros t' o' h' H. eapply pool_ok_perm; [|exact H]. rewrite Hr'. apply Permutation_app_swap_app.
Qed.

Lemma wstep_ok w w' : wstep w w' -> world_ok w -> world_ok w'.
Proof.
  assert (Hobs : forall ts i t, Forall observed_ok ts -> observed_ok t -> Forall observed_ok (<[i := t]> ts)).
  { intros. by apply Forall_insert. }
  intros Hstep [Ho Hp]. pose proof (proj1 Hp) as Hu.
  destruct Hstep as [o ts h i Hi|o ts h i Hi|o ts h i Hi Hz|o ts h i Hi|o ts h i prev k o' Hi Hw Hz
    |o ts h i prev k o' Hi Hw|o ts h i prev Hi Hw|o ts h i off h' Hi Hh|o ts h i off prev Hi Hz|o ts h i off prev Hi];
    unfold world_ok in *; cbn [threads word held] in *;
    try (split; [by apply Hobs|]); try (destruct (pool_thread ts i _ o h Hi Hp) as (rest & Hp1 & Hp2)).
  - by apply Hp2.
  - by apply Hp2.
  - apply Hp2. cbn in *. subst o. by apply (pool_ok_add 0 _ 0 1).
  - by apply Hp2.
  - assert (Hi' : exists t, ts !! i = Some t /\ freeing [t] = []) by (destruct Hi as [Hi|[Hi _]]; eauto).
    destruct Hi' as (t & Hit & Hft). destruct (pool_thread ts i t o h Hit Hp) as (rest & Hp1 & Hp2).
    rewrite Hft in Hp1. apply Hp2. cbn in *. subst o.
    apply (pool_ok_add prev _ k o'); [done|by eapply not_full_of_bit|done].
  - assert (Hi' : exists t, ts !! i = Some t /\ freeing [t] = []) by (destruct Hi as [Hi|[Hi _]]; eauto).
    destruct Hi' as (t & Hit & Hft). destruct (pool_thread ts i t o h Hit Hp) as (rest & Hp1 & Hp2).
    rewrite Hft in Hp1. by apply Hp2.
  - done.
  - apply Hp2. cbn in *. eapply pool_ok_perm; [|exact Hp1]. by rewrite Hh.
  - apply Hp2. cbn in *. subst o. by apply pool_ok_remove in Hp1.
  - by apply Hp2.
Qed.

Lemma initial_ok n : world_ok (mkWorld 0 (replicate n TIdle) [] false).
Proof.
  split; cbn [threads word held]; [by apply Forall_replicate|].
  assert (Hf : freeing (replicate n TIdle) = []) by (induction n; done). rewrite Hf.
  split; [done|]. split; [constructor|]. intros k. rewrite Z.bits_0. split; [by intros ?%elem_of_nil|by intros [_ ?]].
Qed.

Lemma reachable_ok n w : rtc wstep (mkWorld 0 (replicate n TIdle) [] false) w -> world_ok w.
Proof.
  pose proof (initial_ok n) as Hi. revert Hi. generalize (mkWorld 0 (replicate n TIdle) [] false).
  intros w0 Hi Hs. induction Hs as [|w1 w2 w3 Hs _ IH]; [done|]. apply IH. by eapply wstep_ok.
Qed.

(** * Tags *)

Definition tag_offset (t : TagAllocator) (tag : Z) : Z := (tag - underlyingAllocation t) / tagSize t.

Lemma tag_offset_of t off : 0 < tagSize t -> tag_offset t (underlyingAllocation t + off * tagSize t) = off.
Proof. intros Hs. unfold tag_offset. rewrite Z.add_simpl_l. by apply Z.div_mul; lia. Qed.

(** * Properties *)

(** A call to [BitAllocator::allocate] that no other thread disturbs takes
    the least free offset and marks exactly it, or returns the invalid offset
    exactly when every offset is taken; [free] of an offset inside the capacity
    clears exactly it, any other offset is refused and nothing changes. *)
Theorem BitAllocator_allocate_free nodes off :
  bits_ok nodes -> 0 <= off ->
  (exists o nodes', bit_allocate nodes ⇓ (o, nodes') /\ bits_ok nodes' /\
     ((o = invalidOffset /\ nodes' = nodes /\ all_taken nodes) \/
      (o <> invalidOffset /\ 0 <= o < getCapacity nodes /\ taken nodes o = false /\
       (forall n, 0 <= n < o -> taken nodes n = true) /\
       forall n, 0 <= n -> taken nodes' n = taken nodes n || (n =? o)))) /\
  let r := bit_free nodes off in
  bits_ok (fst r) /\ (snd r = true <-> off < getCapacity nodes) /\
  forall n, 0 <= n -> taken (fst r) n = taken nodes n && negb (n =? off).
Proof.
  intros Hok Hoff. split.
  - destruct (bit_allocate_spec nodes Hok) as (o & nodes' & H & Hok' & Hres).
    exists o, nodes'. split; [done|]. split; [done|]. unfold takes in Hres. tauto.
  - destruct (bit_free_spec nodes off Hok Hoff) as (H1 & H2 & _ & H3). done.
Qed.

Lemma BitAllocator_allocate_free_witness :
  (exists o nodes', bit_allocate [fullMask; 5] ⇓ (o, nodes') /\ o = 65 /\ taken nodes' 65 = true) /\
  snd (bit_free [fullMask; 5] 130) = false.
Proof.
  assert (Hok : bits_ok [fullMask; 5]).
  { split; [|by vm_compute]. repeat constructor; vm_compute; congruence. }
  destruct (BitAllocator_allocate_free [fullMask; 5] 130 Hok ltac:(lia)) as [(o & nodes' & H & _ & _) (_ & Hf & _)].
  split.
  - exists o, nodes'. split; [done|]. vm_compute in H. injection H as <- <-. by vm_compute.
  - destruct (snd (bit_free [fullMask; 5] 130)) eqn:E; [|done].
    pose proof (proj1 Hf eq_refl) as Hlt. by vm_compute in Hlt.
Defined.

(** C5: With any number of threads allocating and freeing concurrently, no
    offset is ever held twice, every held offset is below 64, and a set bit of
    the word is always either held or about to be cleared by one freeing thread. *)
Theorem StaticLengthBitAllocator_exclusive n w :
  rtc wstep (mkWorld 0 (replicate n TIdle) [] false) w ->
  NoDup (held w) /\ Forall (fun k => 0 <= k < 64) (held w) /\
  forall k, 0 <= k < 64 -> (Z.testbit (word w) k = true <-> k ∈ held w \/ k ∈ freeing (threads w)).
Proof.
  intros Hs. destruct (reachable_ok n w Hs) as [_ (Hu & Hn & Hk)]. split_and!.
  - by apply NoDup_app in Hn as [? _].
  - apply Forall_forall. intros k Hin. apply (Hk k). apply elem_of_app. by left.
  - intros k Hr. rewrite <- elem_of_app, Hk. tauto.
Qed.

Lemma StaticLengthBitAllocator_exclusive_witness : NoDup [1; 0].
Proof.
  apply (StaticLengthBitAllocator_exclusive 2 (mkWorld 3 [TIdle; TIdle] [1; 0] false)).
  eapply rtc_l; [apply (w_alloc_load 0 [TIdle; TIdle] [] 0); done|].
  eapply rtc_l; [apply (w_alloc_load 0 [ARun 0; TIdle] [] 1); done|].
  eapply rtc_l; [apply (w_alloc_first 0 [ARun 0; ARun 0] [] 0); done|].
  eapply rtc_l; [apply (w_alloc_first_fail 1 [TIdle; ARun 0] [0] 1); done|].
  apply rtc_once. apply (w_alloc_bit 1 [TIdle; ARetry 1] [0] 1 1 1 3); [by left|by vm_compute|done].
Defined.

(** Tags come back distinct: an allocated tag is the address of a slot that
    was free, freeing that tag makes exactly that slot free again, and a null
    tag is returned exactly when all slots are taken. *)
Theorem TagAllocator_roundtrip t :
  bits_ok (allocator t) -> 0 < tagSize t ->
  exists r t', tag_allocate t ⇓ (r, t') /\ bits_ok (allocator t') /\
    match r with
    | None => all_taken (allocator t)
    | Some tag =>
        taken (allocator t) (tag_offset t tag) = false /\ taken (allocator t') (tag_offset t tag) = true /\
        forall n, 0 <= n -> taken (allocator (tag_free t' tag)) n = taken (allocator t) n
    end.
Proof.
  intros Hok Hs. destruct (bit_allocate_spec _ Hok) as (o & nodes' & H & Hok' & Hres).
  unfold tag_allocate. rewrite H. cbn [mbind res_bind].
  destruct Hres as [(-> & -> & Hall)|(Hne & Ho & Hf & Hlow & Hset)].
  - rewrite Z.eqb_refl. eexists _, _. split; [done|]. by split.
  - rewrite (proj2 (Z.eqb_neq _ _)) by done. eexists _, _. split; [done|]. split; [done|].
    rewrite tag_offset_of by done. split; [done|]. cbn [allocator]. rewrite Hset, Z.eqb_refl, orb_true_r by lia.
    split; [done|]. intros n Hn. unfold tag_free. cbn [underlyingAllocation tagSize allocator].
    change ((underlyingAllocation t + o * tagSize t - underlyingAllocation t) / tagSize t)
      with (tag_offset t (underlyingAllocation t + o * tagSize t)).
    rewrite tag_offset_of by done. destruct Hok as [Hall Hcap].
    rewrite u32_id by (unfold u32_max in *; split; lia).
    destruct (bit_free_spec nodes' o Hok' ltac:(lia)) as (_ & _ & _ & Hfr).
    rewrite Hfr, Hset by done. destruct (Z.eqb_spec n o) as [-> |]; [by rewrite Hf|].
    by rewrite orb_false_r, andb_true_r.
Qed.

Lemma TagAllocator_roundtrip_witness :
  exists r t', tag_allocate (mkTagAllocator 4096 4 [7]) ⇓ (r, t') /\ r = Some 4108.
Proof.
  destruct (TagAllocator_roundtrip (mkTagAllocator 4096 4 [7])) as (r & t' & H & _);
    [split; [repeat constructor; vm_compute; congruence|by vm_compute]|done|].
  exists r, t'. split; [done|]. vm_compute in H. by injection H as <- <-.
Defined.
