(* ===== verification/RangeAlloc.v ===== *)
(** Range allocators of shared/allocators.h and shared/allocators.cpp:
    [adjustSizeAndAlignment], [LinearAllocator], [RangeAllocatorBase],
    [RangeAllocator] and its two views ([AddressRangeAllocator],
    [OffsetRangeAllocator]).  The tree of allocated ranges is the partitioned
    range of Ranges.v. *)

From S2P Require Import Prelude.
From S2P Require Import Align.
From S2P Require Import Ranges.

(** * Request adjustment *)

(** [None] for a request whose alignment is not a power of two. *)
Definition adjustSizeAndAlignment (MinAlignment size alignment : Z) : option (Z * Z) :=
  if negb (isPow2 alignment) && negb (alignment =? 0) then None
  else if alignment <? MinAlignment then Some (alignUpPow2 MinAlignment size, MinAlignment)
  else Some (alignUp size alignment, alignment).

(** * LinearAllocator *)

Record LinearAllocator := mkLinear { vaRange : AddressRange; linSizeUsed : Z }.

(** The failing branch has already advanced [sizeUsed]. *)
Definition linear_allocate (l : LinearAllocator) (sizeInBytes alignment : Z) : option Z * LinearAllocator :=
  let addr := u64 (start (vaRange l) + linSizeUsed l) in
  let addrAligned := alignUp addr alignment in
  let size := alignUp sizeInBytes alignment in
  let totalSizeUsed := u64 (size + addrAligned - addr) in
  let l' := mkLinear (vaRange l) (u64 (linSizeUsed l + totalSizeUsed)) in
  if rsize (vaRange l) <? linSizeUsed l' then (None, l') else (Some addrAligned, l').

Definition linear_free (l : LinearAllocator) : LinearAllocator := mkLinear (vaRange l) 0.

(** * RangeAllocatorBase *)

Record RangeAllocator := mkRangeAllocator { vma : PartitionedAddressRange; sizeUsed : Z }.

(** [RangeAllocatorBase(vaRange)] *)
Definition newRangeAllocator (r : AddressRange) : RangeAllocator := mkRangeAllocator (leaf r) 0.

Definition getRange (r : RangeAllocator) : AddressRange := getBoundingRange (vma r).
Definition getSizeUsed (r : RangeAllocator) : Z := sizeUsed r.
Definition getSizeLeft (r : RangeAllocator) : Z := u64 (rsize (getBoundingRange (vma r)) - sizeUsed r).

Definition commitRange (r : RangeAllocator) (range : AddressRange) : RangeAllocator :=
  mkRangeAllocator (insertSubRange (vma r) (leaf range)) (u64 (sizeUsed r + rsize range)).

Definition freeRange (r : RangeAllocator) (rangeBase : Z) : res RangeAllocator :=
  key ← rangeOfPtr rangeBase;
  match findSubRange (vma r) key with
  | None => Ret r
  | Some i =>
      match subRanges (vma r) !! i with
      | None => Undef
      | Some range =>
          let bounds := getBoundingRange range in
          '(vma', _) ← destroySubRange (vma r) bounds;
          Ret (mkRangeAllocator vma' (u64 (sizeUsed r - rsize bounds)))
      end
  end.

(** [resizeRange]: the new size (0 for an unknown address), the old size where
    one was found, and the new state. [sizeUsed] is not touched. *)
Definition resizeRange (r : RangeAllocator) (rangeBase newSize : Z) : res (Z * option Z * RangeAllocator) :=
  key ← rangeOfPtr rangeBase;
  match findSubRange (vma r) key with
  | None => Ret (0, None, r)
  | Some i =>
      match subRanges (vma r) !! i with
      | None => Undef
      | Some prevRange =>
          let b := getBoundingRange prevRange in
          let prevSize := rsize b in
          if prevSize =? newSize then Ret (newSize, Some prevSize, r)
          else if newSize <? prevSize then
            let rangeToDelete := mkRange (u64 (start b + newSize)) (end_ b) in
            '(vma', _) ← destroySubRange (vma r) rangeToDelete;
            Ret (newSize, Some prevSize, mkRangeAllocator vma' (sizeUsed r))
          else
            let rangeToAllocate :=
              mkRange (u64 (start b + prevSize)) (u64 (end_ b + u64 (newSize - prevSize))) in
            if intersectsSubRanges (vma r) rangeToAllocate then Ret (prevSize, Some prevSize, r)
            else
              let grown := insertSubRange prevRange (leaf rangeToAllocate) in
              Ret (newSize, Some prevSize,
                   mkRangeAllocator (set_subs (vma r) (<[i := grown]> (subRanges (vma r)))) (sizeUsed r))
      end
  end.

(** * RangeAllocator *)

(** The scan over consecutive sub-ranges for a gap that is large enough. *)
Fixpoint findGap (sizeInBytes alignment : Z) (prev : PartitionedAddressRange)
  (l : list PartitionedAddressRange) : option Z :=
  match l with
  | [] => None
  | it :: l =>
      if sizeInBytes <=? u64 (start (desc it) - alignUp (end_ (desc prev)) alignment)
      then Some (alignUpPtr (end_ (desc prev)) alignment)
      else findGap sizeInBytes alignment it l
  end.

(** [begin()] of an empty vector is dereferenced when a fresh allocator cannot
    place the request at its (aligned) base. *)
Definition allocate (r : RangeAllocator) (sizeInBytes alignment : Z) : res (AddressRange * RangeAllocator) :=
  if getSizeLeft r <? sizeInBytes then Ret (createEmpty, r)
  else
    let subs := subRanges (vma r) in
    let bound := getBoundingRange (vma r) in
    let addr := match last subs with None => start bound | Some x => end_ (desc x) end in
    let addr := alignUpPtr addr alignment in
    range ← rangeOfSize addr sizeInBytes;
    addr ← (if negb (contains bound range) then
              match subs with
              | [] => Undef
              | first :: rest =>
                  if sizeInBytes <=? u64 (alignUp (start (desc first)) alignment - start bound)
                  then Ret (Some (alignUpPtr (start bound) alignment))
                  else Ret (findGap sizeInBytes alignment first rest)
              end
            else Ret (Some addr));
    match addr with
    | None => Ret (createEmpty, r)
    | Some addr =>
        range ← rangeOfSize addr sizeInBytes;
        Ret (range, commitRange r range)
    end.

Definition free (r : RangeAllocator) (rangeBase : Z) : res RangeAllocator := freeRange r rangeBase.

(** [return newRange.base()] converts a pointer: the result is one byte long. *)
Definition resizeOrAllocate (r : RangeAllocator) (rangeBase newSize alignment : Z)
  : res (AddressRange * option Z * RangeAllocator) :=
  '(resizedSize, oldSize, r) ← resizeRange r rangeBase newSize;
  if resizedSize =? 0 then Ret (mkRange 0 u64_max, oldSize, r)
  else if newSize <=? resizedSize then
    range ← rangeOfSize rangeBase resizedSize; Ret (range, oldSize, r)
  else
    '(newRange, r) ← allocate r newSize alignment;
    if rempty newRange then Ret (mkRange 0 u64_max, oldSize, r)
    else range ← rangeOfPtr (start newRange); Ret (range, oldSize, r).

(** * The two views *)

Definition addressMinAlignment : Z := 16.

(** A [void *]: 0 is the null pointer. *)
Definition address_allocate (r : RangeAllocator) (sizeInBytes alignment : Z) : res (Z * RangeAllocator) :=
  '(allocated, r) ← allocate r sizeInBytes alignment;
  Ret (if sizeInBytes <=? rsize allocated then start allocated else 0, r).

Definition address_resizeOrAllocate (r : RangeAllocator) (rangeBase newSize : Z)
  : res (Z * option Z * RangeAllocator) :=
  '(allocated, oldSize, r) ← resizeOrAllocate r rangeBase newSize addressMinAlignment;
  Ret (if newSize <=? rsize allocated then start allocated else 0, oldSize, r).

Definition address_free (r : RangeAllocator) (ptr : Z) : res RangeAllocator := free r ptr.

(** [std::optional<uintptr_t>] *)
Definition offset_allocate (r : RangeAllocator) (sizeInBytes alignment : Z) : res (option Z * RangeAllocator) :=
  '(allocated, r) ← allocate r sizeInBytes alignment;
  Ret (if sizeInBytes <=? rsize allocated then Some (start allocated) else None, r).

Definition offset_free (r : RangeAllocator) (offset : Z) : res RangeAllocator := free r offset.

(** * Invariant *)

Definition total (l : list AddressRange) : Z := fold_right (fun x n => end_ x - start x + n) 0 l.

Lemma total_app l1 l2 : total (l1 ++ l2) = total l1 + total l2.
Proof. induction l1; simpl in *; lia. Qed.

Lemma total_le lo l hi : ordered lo l hi -> 0 <= total l <= hi - lo.
Proof. revert lo. induction l as [|x l IH]; simpl; intros lo; [lia|]. intros (? & ? & H). apply IH in H. lia. Qed.

(** A free placement leaves room for it. *)
Lemma total_placement lo l hi a s :
  ordered lo l hi -> lo <= a -> a + s <= hi -> 0 <= s ->
  Forall (disjoint (mkRange a (a + s))) l -> total l + s <= hi - lo.
Proof.
  intros Ho Hlo Hhi Hs Hd. revert lo Ho Hlo. induction Hd as [|x l Hx _ IH]; simpl; intros lo; [lia|].
  intros (H1 & H2 & H3) Hlo. destruct Hx as [Hx|Hx]; simpl in Hx.
  - specialize (IH _ H3 Hx). lia.
  - apply total_le in H3. lia.
Qed.

(** Addresses stay in the lower half, so that nothing wraps around. *)
Definition half : Z := 9223372036854775808.

Record ra_ok (r : RangeAllocator) : Prop := mkRaOk {
  ra_wf : wf (vma r);
  ra_lo : 0 <= start (getRange r);
  ra_hi : end_ (getRange r) < half;
  ra_ne : start (getRange r) < end_ (getRange r);
  ra_used : sizeUsed r = total (flat (vma r))
}.

(** Every boundary is a multiple of the alignment. *)
Definition all_aligned (al : Z) (r : RangeAllocator) : Prop :=
  start (getRange r) mod al = 0 /\
  Forall (fun x => start x mod al = 0 /\ end_ x mod al = 0) (flat (vma r)).

Lemma alignUpPtr_aligned a al : 0 < al -> 0 <= a -> a + al - 1 < W64 -> a mod al = 0 -> alignUpPtr a al = a.
Proof. intros. rewrite alignUpPtr_alignUp by (word_unfold; lia). by apply alignUp_aligned. Qed.

Lemma sizeLeft_spec r : ra_ok r -> getSizeLeft r = end_ (getRange r) - start (getRange r) - total (flat (vma r)).
Proof.
  intros [Hw Hlo Hhi Hne Hu]. unfold getSizeLeft, rsize. unfold getRange in *. rewrite Hu.
  pose proof (total_le _ _ _ (wf_ordered _ Hw)). unfold getBoundingRange, half in *.
  rewrite !u64_id; word_unfold; rewrite ?Z.mod_small; lia.
Qed.

Lemma findGap_spec size al prev l hi :
  0 < al <= half -> 0 < size -> 0 <= end_ (desc prev) -> hi <= half ->
  ordered (end_ (desc prev)) (desc <$> l) hi ->
  Forall (fun x => start x mod al = 0 /\ end_ x mod al = 0) (desc <$> prev :: l) ->
  match findGap size al prev l with
  | Some a => a mod al = 0 /\ end_ (desc prev) <= a /\ a + size <= hi /\
              Forall (disjoint (mkRange a (a + size))) (desc <$> l)
  | None => forall a, end_ (desc prev) <= a -> a + size <= hi ->
              Forall (disjoint (mkRange a (a + size))) (desc <$> l) ->
              end_ (desc (default prev (last l))) <= a
  end.
Proof.
  intros Hal Hs Hp Hhi Ho Ha. unfold half in *. revert prev Hp Ho Ha.
  induction l as [|it l IH]; intros prev Hp Ho Ha; cbn [findGap]; [done|].
  simpl in Ho. destruct Ho as (H1 & H2 & H3). fold (desc <$> l) in *.
  apply Forall_cons in Ha as [[Hps Hpe] Ha]. pose proof Ha as Ha'. apply Forall_cons in Ha' as [[His Hie] _].
  pose proof (ordered_le _ _ _ H3).
  rewrite alignUp_aligned by (done || lia). rewrite u64_id by (word_unfold; lia).
  destruct (Z.leb_spec size (start (desc it) - end_ (desc prev))) as [Hfit|Hno].
  - rewrite alignUpPtr_aligned by (done || lia). split_and!; [done|lia|lia|].
    constructor; [right; simpl; lia|]. apply ordered_Forall in H3. eapply Forall_impl; [exact H3|].
    intros x Hx. right. simpl in *. lia.
  - specialize (IH it ltac:(lia) H3 Ha). destruct (findGap size al it l) as [a|].
    + destruct IH as (Ham & Hge & Hle & Hd). split_and!; [done|lia|done|]. constructor; [left; simpl; lia|done].
    + intros a Hge Hle Hd. apply Forall_cons in Hd as [Hd1 Hd]. destruct Hd1 as [Hd1|Hd1]; simpl in Hd1; [|lia].
      specialize (IH a Hd1 Hle Hd). destruct l as [|y l]; [done|]. rewrite last_cons_cons.
      destruct (last (y :: l)) eqn:Hl; [done|]. by apply last_None in Hl.
Qed.

Definition placement (r : RangeAllocator) (size a : Z) : Prop :=
  start (getRange r) <= a /\ a + size <= end_ (getRange r) /\
  Forall (disjoint (mkRange a (a + size))) (flat (vma r)).

Lemma rangeOfSize_ok a size : 0 <= a -> 0 < size -> a + size < W64 -> rangeOfSize a size ⇓ mkRange a (a + size).
Proof. intros. unfold rangeOfSize. rewrite u64_id by (word_unfold; lia). apply makeRange_ok. lia. Qed.

(** What follows the choice of an address. *)
Lemma allocate_commit (r : RangeAllocator) size a :
  0 <= a -> 0 < size -> a + size < W64 ->
  (range ← rangeOfSize a size; Ret (range, commitRange r range))
  ⇓ (mkRange a (a + size), commitRange r (mkRange a (a + size))).
Proof. intros. by rewrite rangeOfSize_ok. Qed.

Lemma last_end_bound d first rest x :
  wf (Part d (first :: rest)) -> last (first :: rest) = Some x ->
  start d <= end_ (desc x) <= end_ d /\
  Forall (fun y => end_ y <= end_ (desc x)) (desc <$> first :: rest) /\ x ∈ first :: rest.
Proof.
  intros Hw Hl. pose proof (wf_ordered _ Hw) as Ho. unfold flat in Ho. cbn [desc subRanges] in Ho.
  apply last_Some in Hl as [l' Hl]. rewrite Hl in *. clear Hl Hw. rewrite fmap_app in *.
  apply ordered_app in Ho as (m & Ho & Hx). cbn in Hx. destruct Hx as (H1 & H2 & H3). pose proof (ordered_le _ _ _ Ho).
  split; [lia|]. split; [|apply elem_of_app; right; by left].
  apply Forall_app. split; [|repeat constructor; lia].
  apply ordered_Forall in Ho. eapply Forall_impl; [exact Ho|]. simpl. intros. lia.
Qed.

Lemma allocate_decides r size al :
  ra_ok r -> 0 < al <= half -> 0 < size -> is_u64 size -> all_aligned al r ->
  (exists a, allocate r size al ⇓ (mkRange a (a + size), commitRange r (mkRange a (a + size))) /\
             a mod al = 0 /\ placement r size a) \/
  (allocate r size al ⇓ (createEmpty, r) /\ forall a, ~ placement r size a).
Proof.
  intros Hr Hal Hs Hsu [Hab Haf]. pose proof (sizeLeft_spec r Hr) as Hleft. pose proof Hr as [Hw Hlo Hhi Hne Hu].
  unfold allocate, placement. rewrite Hleft. unfold half in *.
  pose proof (total_le _ _ _ (wf_ordered _ Hw)) as Htot. unfold getRange, getBoundingRange in *.
  destruct (Z.ltb_spec (end_ (desc (vma r)) - start (desc (vma r)) - total (flat (vma r))) size) as [Hsmall|Hroom].
  { right. split; [done|]. intros a (Ha & Ha' & Hd).
    pose proof (total_placement _ _ _ a size (wf_ordered _ Hw) Ha Ha' ltac:(lia) Hd). lia. }
  destruct r as [[d subs] used]. unfold flat in *. cbn [vma subRanges desc] in *.
  destruct subs as [|first rest].
  { left. exists (start d). cbn [last]. rewrite !alignUpPtr_aligned, !rangeOfSize_ok by (done || word_unfold; lia).
    cbn [mbind res_bind]. rewrite (proj2 (contains_spec d _)) by (simpl in *; lia). cbn [negb].
    cbn [mbind res_bind]. rewrite rangeOfSize_ok by lia. cbn [mbind res_bind]. split; [done|]. split; [done|]. split; [lia|]. split; [simpl in *; lia|constructor]. }
  destruct (last (first :: rest)) as [x|] eqn:Hlast; [|by apply last_None in Hlast].
  destruct (last_end_bound _ _ _ _ Hw Hlast) as (He & Hends & Hxin).
  assert (Hxal : end_ (desc x) mod al = 0).
  { rewrite Forall_fmap in Haf. rewrite Forall_forall in Haf. by apply (Haf x Hxin). }
  rewrite (alignUpPtr_aligned (end_ (desc x)) al) by (done || word_unfold; lia). rewrite (rangeOfSize_ok (end_ (desc x)) size) by lia. cbn [mbind res_bind].
  destruct (contains d (mkRange (end_ (desc x)) (end_ (desc x) + size))) eqn:Hc; cbn [negb].
  { left. exists (end_ (desc x)). cbn [mbind res_bind]. rewrite rangeOfSize_ok by lia. cbn [mbind res_bind].
    apply contains_spec in Hc. cbn [start end_] in Hc. split; [done|]. split; [done|]. split; [lia|]. split; [lia|].
    eapply Forall_impl; [exact Hends|]. intros y Hy. left. simpl in *. lia. }
  assert (Hcf : end_ d < end_ (desc x) + size).
  { apply contains_false in Hc; [|simpl; lia]. simpl in Hc. lia. }
  pose proof (wf_ordered _ Hw) as Ho. cbn [desc] in Ho. unfold flat in Ho. cbn [subRanges] in Ho.
  destruct Ho as (H1 & H2 & H3). fold (desc <$> rest) in H3.
  pose proof Haf as Haf'. apply Forall_cons in Haf' as [[Hfs Hfe] _]. pose proof (ordered_le _ _ _ H3).
  rewrite alignUp_aligned by (done || lia). rewrite u64_id by (word_unfold; lia).
  destruct (Z.leb_spec size (start (desc first) - start d)) as [Hfit|Hno].
  { left. exists (start d). rewrite alignUpPtr_aligned by (done || lia). cbn [mbind res_bind].
    rewrite rangeOfSize_ok by lia. cbn [mbind res_bind]. split; [done|]. split; [done|]. split; [lia|]. split; [lia|].
    constructor; [right; simpl; lia|]. apply ordered_Forall in H3. eapply Forall_impl; [exact H3|].
    intros y Hy. right. simpl in *. lia. }
  pose proof (findGap_spec size al first rest (end_ d) Hal Hs ltac:(lia) ltac:(unfold half; lia) H3 Haf) as Hgap.
  destruct (findGap size al first rest) as [a|]; cbn [mbind res_bind].
  - destruct Hgap as (Ham & Hge & Hle & Hd). left. exists a. rewrite rangeOfSize_ok by lia. cbn [mbind res_bind].
    split; [done|]. split; [done|]. split; [lia|]. split; [lia|]. constructor; [left; simpl; lia|done].
  - right. split; [done|]. intros a (Ha & Ha' & Hd). apply Forall_cons in Hd as [Hd1 Hd].
    destruct Hd1 as [Hd1|Hd1]; simpl in Hd1; [|lia]. specialize (Hgap a Hd1 Ha' Hd).
    assert (default first (last rest) = x) as Hdx.
    { destruct rest as [|y rest]; [by injection Hlast as <-|]. rewrite last_cons_cons in Hlast. by rewrite Hlast. }
    rewrite Hdx in Hgap. lia.
Qed.

Lemma total_perm l l' : Permutation l l' -> total l = total l'.
Proof. induction 1; simpl in *; lia. Qed.

Lemma commit_ok r size a :
  ra_ok r -> 0 < size -> placement r size a ->
  let r' := commitRange r (mkRange a (a + size)) in
  ra_ok r' /\ getRange r' = getRange r /\
  exists l1 l2, flat (vma r) = l1 ++ l2 /\ flat (vma r') = l1 ++ mkRange a (a + size) :: l2.
Proof.
  intros Hr Hs (Hlo & Hhi & Hd) r'. pose proof Hr as [Hw Hl Hh Hne Hu]. unfold half in *.
  assert (Hwl : wf (leaf (mkRange a (a + size)))) by (constructor; [simpl; lia|constructor]).
  destruct (insert_correct (vma r) (leaf (mkRange a (a + size))) Hw Hwl ltac:(simpl; lia) Hd)
    as (Hw' & l1 & l2 & H1 & H2).
  assert (Hg : getRange r' = getRange r).
  { unfold r', getRange, commitRange, getBoundingRange, insertSubRange. cbn [vma].
    unfold getRange, getBoundingRange in *. cbn [leaf desc].
    by rewrite (proj2 (contains_spec (desc (vma r)) (mkRange a (a + size)))) by (simpl; lia). }
  assert (Hf : flat (vma r) = (desc <$> l1) ++ (desc <$> l2)) by (unfold flat; by rewrite H1, fmap_app).
  assert (Hf' : flat (vma r') = (desc <$> l1) ++ mkRange a (a + size) :: (desc <$> l2)).
  { unfold flat, r', commitRange. cbn [vma]. by rewrite H2, fmap_app. }
  split; [|split; [done|by exists (desc <$> l1), (desc <$> l2)]].
  assert (Ht : total (flat (vma r')) = total (flat (vma r)) + size).
  { rewrite Hf, Hf', !total_app. cbn [total fold_right start end_]. unfold total. simpl. lia. }
  pose proof (total_placement _ _ _ a size (wf_ordered _ Hw) Hlo Hhi ltac:(lia) Hd) as Htp.
  pose proof (total_le _ _ _ (wf_ordered _ Hw)). unfold getRange, getBoundingRange in *.
  constructor; unfold getRange, getBoundingRange in *; rewrite ?Hg; unfold half; try done.
  rewrite Ht. unfold r', commitRange, rsize. cbn [sizeUsed start end_]. rewrite Hu.
  rewrite !u64_id; word_unfold; rewrite ?Z.mod_small; lia.
Qed.

(** Removing one of the ranges. *)
Lemma cut_member lo l1 x l2 hi : ordered lo (l1 ++ x :: l2) hi -> cut x (l1 ++ x :: l2) = l1 ++ l2.
Proof.
  intros (H1 & H2 & H3)%ordered_middle. rewrite cut_app, cut_cons.
  rewrite pieces_contained, !Z.eqb_refl by lia. cbn [app].
  rewrite (cut_disjoint x l1), (cut_disjoint x l2); [done|lia| |lia|].
  - apply ordered_Forall in H3. eapply Forall_impl; [exact H3|]. simpl. lia.
  - apply ordered_Forall in H1. eapply Forall_impl; [exact H1|]. simpl. lia.
Qed.

Lemma freeRange_found r b l1 x l2 :
  ra_ok r -> 0 <= b -> flat (vma r) = l1 ++ x :: l2 -> start x <= b < end_ x ->
  exists r', freeRange r b ⇓ r' /\ ra_ok r' /\ getRange r' = getRange r /\
    flat (vma r') = l1 ++ l2 /\ sizeUsed r' = sizeUsed r - (end_ x - start x).
Proof.
  intros Hr Hb0 Hf Hb. pose proof Hr as [Hw Hl Hh Hne Hu]. unfold half in *.
  pose proof (wf_ordered _ Hw) as Ho. rewrite Hf in Ho. pose proof (total_le _ _ _ Ho) as Ht.
  apply ordered_middle in Ho as Hom. destruct Hom as (Hom1 & Hx & Hom2).
  pose proof (ordered_le _ _ _ Hom1). pose proof (ordered_le _ _ _ Hom2). unfold getRange, getBoundingRange in *.
  unfold flat in Hf. apply fmap_app_inv in Hf as (s1 & s2 & -> & Hs2 & Hs). symmetry in Hs2.
  apply fmap_cons_inv in Hs2 as (sx & s2' & -> & -> & ->).
  assert (Hlook : subRanges (vma r) !! length s1 = Some sx) by (rewrite Hs; by apply list_lookup_middle).
  assert (Hfind : findSubRange (vma r) (mkRange b (b + 1)) = Some (length s1)).
  { apply findSubRange_iff; [done|simpl; lia|]. exists sx. split; [done|]. apply contains_spec. simpl. lia. }
  unfold freeRange, rangeOfPtr. rewrite u64_id by (word_unfold; lia). rewrite makeRange_ok by lia.
  cbn [mbind res_bind]. rewrite Hfind, Hlook. unfold getBoundingRange.
  destruct (destroy_fuel_correct (height (vma r)) (vma r) (desc sx) (Nat.le_refl _) Hw Hx)
    as (q & n & Hq & (Hqd & Hqf & Hqw) & _).
  unfold destroySubRange. rewrite Hq. cbn [mbind res_bind].
  eexists. split; [done|].
  assert (Hflat : flat (vma r) = (desc <$> s1) ++ desc sx :: (desc <$> s2')) by (unfold flat; by rewrite Hs, fmap_app).
  rewrite Hflat, (cut_member _ _ _ _ _ Ho) in Hqf. cbn [vma].
  rewrite total_app in Ht. cbn [total fold_right] in Ht. rewrite Hflat, total_app in Hu. cbn [total fold_right] in Hu.
  fold (total (desc <$> s2')) in *.
  assert (Hsize : u64 (sizeUsed r - rsize (desc sx)) = sizeUsed r - (end_ (desc sx) - start (desc sx))).
  { pose proof (total_le _ _ _ Hom1). pose proof (total_le _ _ _ Hom2).
    unfold rsize. rewrite !u64_id; word_unfold; rewrite ?Z.mod_small; lia. }
  rewrite Hsize. split; [|split; [done|split; [done|done]]].
  constructor; unfold getRange, getBoundingRange; cbn [vma sizeUsed]; rewrite ?Hqd; unfold half; try done.
  rewrite Hqf, total_app. lia.
Qed.

Lemma freeRange_unknown r b :
  ra_ok r -> 0 <= b -> b + 1 < W64 -> ~ covered (flat (vma r)) b -> freeRange r b ⇓ r.
Proof.
  intros Hr Hb Hb' Hc. unfold freeRange, rangeOfPtr. rewrite u64_id by (word_unfold; lia).
  rewrite makeRange_ok by lia. cbn [mbind res_bind].
  destruct (findSubRange (vma r) (mkRange b (b + 1))) as [i|] eqn:Hf; [|done]. exfalso. apply Hc.
  destruct Hr as [Hw _ _ _ _]. apply findSubRange_iff in Hf as (x & Hx & Hcx); [|done|simpl; lia].
  apply contains_spec in Hcx. apply Exists_exists. exists (desc x). split; [|simpl in *; lia].
  unfold flat. apply list_elem_of_fmap. exists x. split; [done|]. by eapply list_elem_of_lookup_2.
Qed.

Lemma fresh_ok rng :
  0 <= start rng -> start rng < end_ rng -> end_ rng < half -> ra_ok (newRangeAllocator rng).
Proof. intros. constructor; try done. constructor; [simpl; lia|constructor]. Qed.

(** Adjusted requests: the alignment is a power of two and divides the size. *)
Lemma adjust_spec m size alignment :
  0 <= m < 63 -> is_u64 alignment -> 0 <= size -> size + Z.max (2 ^ m) alignment - 1 < W64 ->
  match adjustSizeAndAlignment (2 ^ m) size alignment with
  | None => alignment <> 0 /\ isPow2 alignment = false
  | Some (size', al) =>
      (exists k, 0 <= k < 64 /\ al = 2 ^ k) /\ 2 ^ m <= al /\ alignment <= al /\
      size <= size' < size + al /\ size' mod al = 0
  end.
Proof.
  intros Hm Ha Hs Hb. unfold adjustSizeAndAlignment. pose proof (Z.pow_pos_nonneg 2 m ltac:(lia) ltac:(lia)).
  destruct (isPow2 alignment) eqn:Hp; cbn [negb andb].
  2: destruct (Z.eqb_spec alignment 0) as [->|Hne]; cbn [negb]; [|done].
  - apply isPow2_iff in Hp as (k & Hk & ->); [|done]. pose proof (Z.pow_pos_nonneg 2 k ltac:(lia) ltac:(lia)).
    destruct (Z.ltb_spec (2 ^ k) (2 ^ m)).
    + rewrite alignUpPow2_alignUp by lia. destruct (alignUp_spec size (2 ^ m)) as [Hq1 Hq2]; [lia..|].
      split; [exists m; split; [lia|done]|]. lia.
    + destruct (alignUp_spec size (2 ^ k)) as [Hq1 Hq2]; [lia..|]. split; [by exists k|]. lia.
  - rewrite (proj2 (Z.ltb_lt _ _)) by lia. rewrite alignUpPow2_alignUp by lia.
    destruct (alignUp_spec size (2 ^ m)) as [Hq1 Hq2]; [lia..|]. split; [exists m; split; [lia|done]|]. lia.
Qed.

(** * Properties *)

(** On boundaries that are multiples of the requested alignment,
    [RangeAllocator::allocate] always returns: a range of the requested size that
    is aligned, inside the bounds and disjoint from every allocated range, which
    is then recorded (the accounting of used bytes included) — or, exactly when
    no placement of that size is free anywhere, an empty range and no change. *)
Lemma allocate_aligned_correct r size al :
  ra_ok r -> 0 < al <= half -> 0 < size -> is_u64 size -> all_aligned al r ->
  (exists a r', allocate r size al ⇓ (mkRange a (a + size), r') /\ a mod al = 0 /\
     start (getRange r) <= a /\ a + size <= end_ (getRange r) /\
     Forall (disjoint (mkRange a (a + size))) (flat (vma r)) /\
     ra_ok r' /\ getRange r' = getRange r /\ Permutation (flat (vma r')) (mkRange a (a + size) :: flat (vma r)) /\
     (size mod al = 0 -> all_aligned al r')) \/
  (allocate r size al ⇓ (createEmpty, r) /\ forall a, ~ placement r size a).
Proof.
  intros Hr Hal Hs Hsu Ha. destruct (allocate_decides r size al Hr Hal Hs Hsu Ha) as [(a & H & Ham & Hp)|H]; [left|by right].
  destruct (commit_ok r size a Hr Hs Hp) as (Hr' & Hg & l1 & l2 & H1 & H2). pose proof Hp as (Hp1 & Hp2 & Hp3).
  eexists a, _. split; [exact H|]. split_and!; try done.
  - rewrite H1, H2. symmetry. apply Permutation_middle.
  - intros Hsm. destruct Ha as [Hb Hf]. split; [by rewrite Hg|]. rewrite H2. rewrite H1 in Hf.
    apply Forall_app in Hf as [Hf1 Hf2]. apply Forall_app. split; [done|]. constructor; [|done]. cbn [start end_].
    split; [done|]. rewrite Z.add_mod, Ham, Hsm by lia. by apply Z.mod_0_l; lia.
Qed.

(** A client's calls: allocations of one alignment and frees by address.  [history_ok al
    bounds live r l]: run from [r] while the ranges [live] are handed out, every call of [l]
    returns what a perfect allocator would. *)
Inductive call : Type :=
| CallAllocate (size : Z)
| CallFree (rangeBase : Z).

Definition call_ok (al : Z) (c : call) : Prop :=
  match c with
  | CallAllocate size => 0 < size /\ is_u64 size /\ size mod al = 0
  | CallFree b => 0 <= b /\ b + 1 < W64
  end.

Definition holds_address (b : Z) (x : AddressRange) : bool := (start x <=? b) && (b <? end_ x).

Fixpoint history_ok (al : Z) (bounds : AddressRange) (live : list AddressRange) (r : RangeAllocator) (l : list call) : Prop :=
  match l with
  | [] => True
  | CallAllocate size :: l =>
      (exists a r', allocate r size al ⇓ (mkRange a (a + size), r') /\ a mod al = 0 /\
        start bounds <= a /\ a + size <= end_ bounds /\ Forall (disjoint (mkRange a (a + size))) live /\
        getSizeUsed r' = total live + size /\ history_ok al bounds (mkRange a (a + size) :: live) r' l) \/
      (allocate r size al ⇓ (createEmpty, r) /\
        (forall a, start bounds <= a -> a + size <= end_ bounds -> Forall (disjoint (mkRange a (a + size))) live -> False) /\
        history_ok al bounds live r l)
  | CallFree b :: l =>
      exists r', free r b ⇓ r' /\ getSizeUsed r' = total (List.filter (fun x => negb (holds_address b x)) live) /\
        history_ok al bounds (List.filter (fun x => negb (holds_address b x)) live) r' l
  end.

(** Freeing by address, whatever the address. *)
Lemma freeRange_exact r b : ra_ok r -> 0 <= b -> b + 1 < W64 ->
  exists r', freeRange r b ⇓ r' /\ ra_ok r' /\ getRange r' = getRange r /\
    flat (vma r') = List.filter (fun x => negb (holds_address b x)) (flat (vma r)).
Proof.
  intros Hr Hb Hb'. assert (Hdec : covered (flat (vma r)) b \/ ~ covered (flat (vma r)) b).
  { destruct (List.existsb (holds_address b) (flat (vma r))) eqn:He; [left|right].
    - apply existsb_exists in He as (x & Hx & Hh). apply Exists_exists. exists x. unfold holds_address in Hh. bool_prop. split; [by apply list_elem_of_In|lia].
    - intros (x & Hx & Hh)%Exists_exists. apply not_true_iff_false in He. apply He, existsb_exists. exists x.
      split; [by apply list_elem_of_In|]. unfold holds_address. apply andb_true_iff. rewrite Z.leb_le, Z.ltb_lt. exact Hh. }
  destruct Hdec as [(x & Hx & Hbx)%Exists_exists|Hno].
  - apply list_elem_of_split in Hx as (l1 & l2 & Hf). destruct (freeRange_found r b l1 x l2 Hr Hb Hf Hbx) as (r' & Hfr & Hr' & Hg & Hfl & _).
    exists r'. split; [done|]. split; [done|]. split; [done|]. rewrite Hfl, Hf. pose proof (wf_ordered _ (ra_wf _ Hr)) as Ho. rewrite Hf in Ho.
    apply ordered_middle in Ho as (H1 & Hne & H2). apply ordered_Forall in H1, H2.
    assert (Hkeep : forall l, Forall (fun y => end_ y <= start x \/ end_ x <= start y) l -> List.filter (fun y => negb (holds_address b y)) l = l).
    { induction 1 as [|y l Hy _ IH]; [done|]. cbn. replace (holds_address b y) with false; [cbn; by rewrite IH|].
      symmetry. apply not_true_iff_false. unfold holds_address. rewrite andb_true_iff, Z.leb_le, Z.ltb_lt. lia. }
    rewrite List.filter_app. cbn. replace (holds_address b x) with true by (symmetry; unfold holds_address; rewrite andb_true_iff, Z.leb_le, Z.ltb_lt; lia). cbn.
    rewrite !Hkeep; [done| |].
    + eapply Forall_impl; [exact H2|]. cbn. lia.
    + eapply Forall_impl; [exact H1|]. cbn. lia.
  - exists r. split; [by apply freeRange_unknown|]. split; [done|]. split; [done|]. symmetry. apply List.forallb_filter_id, forallb_forall.
    intros x Hx. apply negb_true_iff, not_true_iff_false. unfold holds_address. rewrite andb_true_iff, Z.leb_le, Z.ltb_lt. intros Hh.
    apply Hno, Exists_exists. exists x. split; [by apply list_elem_of_In|done].
Qed.

Lemma filter_perm {A} (f : A -> bool) l l' : Permutation l l' -> Permutation (List.filter f l) (List.filter f l').
Proof.
  induction 1 as [|x l l' _ IH|x y l|l1 l2 l3 _ IH1 _ IH2]; cbn; [done| | |by etrans].
  - destruct (f x); [by constructor|done].
  - destruct (f x), (f y); [constructor|done..].
Qed.

Lemma history_correct al l r live : 0 < al <= half -> ra_ok r -> all_aligned al r -> Permutation (flat (vma r)) live ->
  Forall (call_ok al) l -> history_ok al (getRange r) live r l.
Proof.
  intros Hal. revert r live. induction l as [|[size|b] l IH]; intros r live Hr Ha Hp Hl; [done| |];
    apply Forall_cons in Hl as [Hc Hl]; cbn [history_ok call_ok] in *.
  - destruct Hc as (Hs & Hsu & Hm). destruct (allocate_aligned_correct r size al Hr Hal Hs Hsu Ha) as
      [(a & r' & Hall & Ham & H1 & H2 & Hd & Hr' & Hg & Hperm & Ha')|[Hall Hno]]; [left|right].
    + exists a, r'. rewrite Hp in Hd. split_and!; try done.
      * unfold getSizeUsed. rewrite (ra_used _ Hr'), (total_perm _ _ Hperm), (total_perm (_ :: _) (mkRange a (a + size) :: live)) by by constructor.
        cbn. fold (total live). lia.
      * rewrite <- Hg. apply IH; [done|by apply Ha'| |done]. rewrite Hperm. by constructor.
    + split; [done|]. split; [|by apply IH]. intros a H1 H2 Hd. apply (Hno a). split; [done|]. split; [done|]. by rewrite Hp.
  - destruct Hc as [Hb Hb']. destruct (freeRange_exact r b Hr Hb Hb') as (r' & Hf & Hr' & Hg & Hfl).
    assert (Hp' : Permutation (flat (vma r')) (List.filter (fun x => negb (holds_address b x)) live)) by (rewrite Hfl; by apply filter_perm).
    exists r'. split; [done|]. split; [unfold getSizeUsed; by rewrite (ra_used _ Hr'), (total_perm _ _ Hp')|].
    rewrite <- Hg. apply IH; [done| |done|done]. destruct Ha as [Hb0 Hall]. split; [by rewrite Hg|]. rewrite Hfl.
    rewrite Forall_forall in Hall |- *. intros x Hx. apply Hall. apply list_elem_of_In, List.filter_In in Hx as [Hx _]. by apply list_elem_of_In.
Qed.

(** C3: In every history of a fresh [RangeAllocator], with bounds aligned to [al], of
    requests of the alignment [al] and sizes that are multiples of it, and frees of any
    addresses, every call is defined: a request is given an aligned range inside the bounds
    that is disjoint from everything handed out and not freed, or it fails, exactly when no
    placement of its size is free anywhere; a free takes back the range that holds the
    address, and nothing when none does; the bytes in use are counted.  (With requests of
    different alignments the code hands out memory in use:
    [RangeAllocator_mixed_alignment_overlap].) *)
Theorem RangeAllocator_allocate_correct al bounds l :
  0 < al <= half -> 0 <= start bounds -> start bounds < end_ bounds -> end_ bounds < half -> start bounds mod al = 0 ->
  Forall (call_ok al) l -> history_ok al bounds [] (newRangeAllocator bounds) l.
Proof.
  intros Hal H1 H2 H3 Hm Hl. apply (history_correct al l (newRangeAllocator bounds) [] Hal); [by apply fresh_ok| |done|done].
  split; [done|constructor].
Qed.

Lemma RangeAllocator_allocate_correct_witness :
  let l := [CallAllocate 4096; CallAllocate 8192; CallFree 5000; CallFree 4096; CallAllocate 4096; CallAllocate 8192] in
  history_ok 4096 (mkRange 4096 20480) [] (newRangeAllocator (mkRange 4096 20480)) l.
Proof.
  intros l. apply (RangeAllocator_allocate_correct 4096 (mkRange 4096 20480) l); [unfold half; lia|simpl; lia|simpl; lia|unfold half; simpl; lia|done|].
  repeat constructor; word_unfold; cbn; lia.
Defined.

(** Freeing what was allocated restores the allocator: the same ranges, in
    the same order, and the same number of used bytes.  Any address inside the
    allocated range frees it; an address that no range covers changes nothing. *)
Theorem RangeAllocator_free_roundtrip r size al rng r' b :
  ra_ok r -> 0 < al <= half -> 0 < size -> is_u64 size -> all_aligned al r ->
  allocate r size al ⇓ (rng, r') -> rng <> createEmpty ->
  0 <= b -> b + 1 < W64 ->
  (start rng <= b < end_ rng ->
     exists r'', free r' b ⇓ r'' /\ ra_ok r'' /\ flat (vma r'') = flat (vma r) /\ sizeUsed r'' = sizeUsed r) /\
  (~ covered (flat (vma r')) b -> free r' b ⇓ r').
Proof.
  intros Hr Hal Hs Hsu Ha Halloc Hne Hb Hb'.
  destruct (allocate_decides r size al Hr Hal Hs Hsu Ha) as [(a & H & Ham & Hp)|[H _]];
    rewrite H in Halloc; injection Halloc as <- <-; [|done].
  destruct (commit_ok r size a Hr Hs Hp) as (Hr' & Hg & l1 & l2 & H1 & H2). split.
  - intros Hbr. destruct (freeRange_found _ b l1 _ l2 Hr' Hb H2 Hbr) as (r'' & Hf & Hr'' & _ & Hfl & _).
    exists r''. split; [exact Hf|]. split; [done|]. rewrite Hfl, H1. split; [done|].
    rewrite (ra_used _ Hr''), (ra_used _ Hr), Hfl, H1. done.
  - intros Hc. by apply freeRange_unknown.
Qed.

Lemma RangeAllocator_free_roundtrip_witness :
  exists r'', free (commitRange (newRangeAllocator (mkRange 4096 20480)) (mkRange 4096 8192)) 5000 ⇓ r'' /\
    flat (vma r'') = [] /\ sizeUsed r'' = 0.
Proof.
  destruct (RangeAllocator_free_roundtrip (newRangeAllocator (mkRange 4096 20480)) 4096 4096 (mkRange 4096 8192)
              (commitRange (newRangeAllocator (mkRange 4096 20480)) (mkRange 4096 8192)) 5000) as [H _];
    [by apply fresh_ok|unfold half; lia|lia|word_unfold; lia|split; [done|constructor]|by vm_compute|done|lia|lia|].
  destruct (H ltac:(simpl; lia)) as (r'' & Hf & _ & Hfl & Hu). by exists r''.
Defined.

(** A sequence of allocations, and of frees. *)
Fixpoint allocate_all (r : RangeAllocator) (reqs : list (Z * Z)) : res RangeAllocator :=
  match reqs with
  | [] => Ret r
  | (size, al) :: reqs => '(_, r) ← allocate r size al; allocate_all r reqs
  end.

Fixpoint free_all (r : RangeAllocator) (bs : list Z) : res RangeAllocator :=
  match bs with
  | [] => Ret r
  | b :: bs => r ← free r b; free_all r bs
  end.

(** Without that alignment hypothesis the allocator hands out memory that
    is in use: the distance from an aligned-up end to the next start is computed
    unsigned and wraps around.  From a fresh allocator over [0, 0x40000), five
    page-aligned allocations and two frees lead to a 64KB-aligned request that is
    granted [0x10000, 0x20000) while [0x2000, 0x11000) is allocated. *)
Theorem RangeAllocator_mixed_alignment_overlap :
  exists r r', (r ← allocate_all (newRangeAllocator (mkRange 0 0x40000))
                  [(0x1000, 0x1000); (0x1000, 0x1000); (0xF000, 0x1000); (0xF000, 0x1000); (0x20000, 0x1000)];
               free_all r [0x1000; 0x11000]) ⇓ r /\
    mkRange 0x2000 0x11000 ∈ flat (vma r) /\
    allocate r 0x10000 0x10000 ⇓ (mkRange 0x10000 0x20000, r') /\
    ~ disjoint (mkRange 0x10000 0x20000) (mkRange 0x2000 0x11000).
Proof.
  eexists _, _. split; [vm_compute; reflexivity|]. split; [right; left|].
  split; [vm_compute; reflexivity|]. unfold disjoint. simpl. lia.
Qed.

(** Growing a range in place consults neither the bounds nor the
    accounting: a 4KB range at the end of a 4KB allocator grows to 64KB, the
    allocator then reports a negative (wrapped) amount of space left once the
    range is freed. *)
Theorem resizeRange_ignores_bounds :
  exists r r' r'', allocate (newRangeAllocator (mkRange 0x1000 0x2000)) 0x1000 0x1000 ⇓ (mkRange 0x1000 0x2000, r) /\
    resizeRange r 0x1000 0x10000 ⇓ (0x10000, Some 0x1000, r') /\
    flat (vma r') = [mkRange 0x1000 0x11000] /\ end_ (getRange r') = 0x2000 /\
    free r' 0x1000 ⇓ r'' /\ getSizeUsed r'' = u64 (- 0xF000).
Proof. eexists _, _, _. repeat (split; [vm_compute; reflexivity|]). vm_compute. reflexivity. Qed.

(** [adjustSizeAndAlignment] turns a request into one whose alignment is a
    power of two that divides the size and is not below the minimum;
    [LinearAllocator::allocate] with such an alignment bumps: it returns an
    aligned block behind everything handed out so far and inside the range, or
    null exactly when the rounded block does not fit.  A failure exhausts the
    allocator: until [free], every further request fails too. *)
Theorem LinearAllocator_bump l size k size2 k2 :
  0 <= k <= 60 -> 0 <= k2 <= 60 -> 0 <= size <= 2 ^ 61 -> 0 <= size2 <= 2 ^ 61 ->
  0 <= start (vaRange l) -> start (vaRange l) <= end_ (vaRange l) -> end_ (vaRange l) < 2 ^ 61 ->
  0 <= linSizeUsed l <= rsize (vaRange l) ->
  let al := 2 ^ k in
  let base := start (vaRange l) + linSizeUsed l in
  let (res, l') := linear_allocate l size al in
  vaRange l' = vaRange l /\
  match res with
  | Some a =>
      base <= a /\ a mod al = 0 /\ a + size <= start (vaRange l) + linSizeUsed l' /\
      linSizeUsed l <= linSizeUsed l' <= rsize (vaRange l)
  | None =>
      end_ (vaRange l) < alignUp base al + alignUp size al /\
      fst (linear_allocate l' size2 (2 ^ k2)) = None
  end.
Proof.
  intros Hk Hk2 Hs Hs2 Hlo Hne Hhi Hu al base. unfold linear_allocate.
  assert (Hal : 1 <= al <= 2 ^ 60) by (split; [apply (Z.pow_le_mono_r 2 0 k); lia|apply Z.pow_le_mono_r; lia]).
  assert (Hal2 : 1 <= 2 ^ k2 <= 2 ^ 60) by (split; [apply (Z.pow_le_mono_r 2 0 k2); lia|apply Z.pow_le_mono_r; lia]).
  assert (Hsz : rsize (vaRange l) = end_ (vaRange l) - start (vaRange l)) by (unfold rsize; apply u64_id; word_unfold; lia).
  rewrite Hsz in *. fold base. rewrite (u64_id base) by (unfold base; word_unfold; lia).
  destruct (alignUp_spec base al) as [Ha Ham]; [lia|unfold base; lia|unfold base; lia|].
  destruct (alignUp_spec size al) as [Hq Hqm]; [lia|lia|lia|].
  rewrite (u64_id (alignUp size al + alignUp base al - base)) by (word_unfold; lia).
  cbn [vaRange linSizeUsed]. rewrite u64_id by (unfold base in *; word_unfold; lia). rewrite ?Hsz.
  set (used := linSizeUsed l + (alignUp size al + alignUp base al - base)).
  destruct (Z.ltb_spec (end_ (vaRange l) - start (vaRange l)) used) as [Hfull|Hfit]; cbn [vaRange linSizeUsed fst].
  - split; [done|]. split; [unfold used, base in *; lia|].
    rewrite (u64_id (start (vaRange l) + used)) by (unfold used, base in *; word_unfold; lia).
    set (base2 := start (vaRange l) + used) in *.
    destruct (alignUp_spec base2 (2 ^ k2)) as [Hb Hbm]; [lia|unfold base2, used, base in *; lia|unfold base2, used, base in *; lia|].
    destruct (alignUp_spec size2 (2 ^ k2)) as [Hc Hcm]; [lia..|].
    rewrite (u64_id (alignUp size2 (2 ^ k2) + alignUp base2 (2 ^ k2) - base2)) by (word_unfold; lia).
    rewrite u64_id by (unfold base2, used, base in *; word_unfold; lia). rewrite ?Hsz.
    by rewrite (proj2 (Z.ltb_lt _ _)) by lia.
  - split; [done|]. unfold used, base in *. split; [lia|]. split; [done|]. lia.
Qed.

Lemma LinearAllocator_bump_witness :
  fst (linear_allocate (mkLinear (mkRange 4096 8192) 100) 200 16) = Some 4208 /\
  fst (linear_allocate (snd (linear_allocate (mkLinear (mkRange 4096 8192) 100) 8000 16)) 1 1) = None.
Proof.
  split; [done|].
  pose proof (LinearAllocator_bump (mkLinear (mkRange 4096 8192) 100) 8000 4 1 0) as H. cbn [vaRange start end_ linSizeUsed] in H.
  specialize (H ltac:(lia) ltac:(lia) ltac:(lia) ltac:(lia) ltac:(lia) ltac:(lia) ltac:(lia) ltac:(vm_compute; intuition congruence)).
  by destruct H as (_ & _ & H).
Defined.
