(* ===== verification/Messages.v ===== *)
(** Control messages of shared/control_messages.h: the requests and responses
    that client and service exchange over the socket, their validation, and the
    layout of the RPC channel that one of them carries.

    Texts are strings without their terminators. *)

From stdpp Require Import strings.
From S2P Require Import Prelude.
From S2P Require Import Align.

(** * Headers (ControlMessageHeader of shared/ipc.h) *)

Definition messageTypeUnknown : Z := 1.
Definition messageTypeNop : Z := 0.
Definition messageTypePing : Z := 2.
Definition messageTypeRequest : Z := 3.
Definition messageTypeStop : Z := 4.

Record ControlMessageHeader := mkHeader { mtype : Z; subtype : Z }.

(** The first two checks of most messages. *)
Definition headerInvalid (h : ControlMessageHeader) (messageSubtype : Z) : bool :=
  negb (mtype h =? messageTypeRequest) || negb (subtype h =? messageSubtype).

(** The header that a message's constructor writes (responses too carry the
    request type). *)
Definition requestHeader (messageSubtype : Z) : ControlMessageHeader :=
  mkHeader messageTypeRequest messageSubtype.

Definition ControlMessageNop : ControlMessageHeader := mkHeader messageTypeNop 0.

(** * Handshake *)

Record ReqHandshake := mkReqHandshake {
  rh_header : ControlMessageHeader; rh_pid : Z; rh_ppid : Z; clientProcessName : string }.

Definition ReqHandshake_subtype : Z := 1.

(** The constant of the kernel's taskstats interface. *)
Definition TS_COMM_LEN : nat := 32.

(** [strncpy] into an array whose last character is then set to the terminator; reading a
    received name cuts it in the same way. *)
Definition boundedName (name : string) : string := String.substring 0 (TS_COMM_LEN - 1) name.

(** [ReqHandshake(initClientInfo)]; the process ids and the name come from the system. *)
Definition newReqHandshake (initClientInfo : bool) (getpid getppid : Z) (processName : string) : ReqHandshake :=
  if initClientInfo then mkReqHandshake (requestHeader ReqHandshake_subtype) getpid getppid (boundedName processName)
  else mkReqHandshake (requestHeader ReqHandshake_subtype) 0 0 EmptyString.

Definition ReqHandshake_isInvalid (m : ReqHandshake) : bool :=
  headerInvalid (rh_header m) ReqHandshake_subtype || (rh_pid m =? 0).

Record RespHandshake := mkRespHandshake { sh_header : ControlMessageHeader; sh_pid : Z; assignedClientOrdinal : Z }.

Definition RespHandshake_subtype : Z := 2.

Definition newRespHandshake (getpid : Z) : RespHandshake :=
  mkRespHandshake (requestHeader RespHandshake_subtype) getpid 0.

Definition RespHandshake_isInvalid (m : RespHandshake) : bool :=
  headerInvalid (sh_header m) RespHandshake_subtype || (sh_pid m =? 0).

(** * Shared memory *)

Inductive AllocationPurpose : Type := purposeUnknown | rpcMessageChannel.

#[export] Instance AllocationPurpose_eq_dec : EqDecision AllocationPurpose.
Proof. solve_decision. Defined.

Record ReqAllocateShmem := mkReqAllocateShmem {
  ras_header : ControlMessageHeader; ras_size : Z; ras_purpose : AllocationPurpose; ras_sharedVa : bool }.

Definition ReqAllocateShmem_subtype : Z := 3.

Definition newReqAllocateShmem : ReqAllocateShmem :=
  mkReqAllocateShmem (requestHeader ReqAllocateShmem_subtype) 0 purposeUnknown false.

Definition ReqAllocateShmem_isInvalid (m : ReqAllocateShmem) : bool :=
  headerInvalid (ras_header m) ReqAllocateShmem_subtype.

(** [operator==]: the [sharedVa] flag is not compared. *)
Definition ReqAllocateShmem_eqb (lhs rhs : ReqAllocateShmem) : bool :=
  (ras_size lhs =? ras_size rhs) && bool_decide (ras_purpose lhs = ras_purpose rhs).

Record RespAllocateShmem := mkRespAllocateShmem {
  pas_header : ControlMessageHeader; pas_size : Z; pas_id : Z; pas_sharedVa : Z }.

Definition RespAllocateShmem_subtype : Z := 4.

Definition newRespAllocateShmem : RespAllocateShmem :=
  mkRespAllocateShmem (requestHeader RespAllocateShmem_subtype) 0 (-1) 0.

Definition RespAllocateShmem_isInvalid (m : RespAllocateShmem) : bool :=
  headerInvalid (pas_header m) RespAllocateShmem_subtype.

(** [operator==]: the [sharedVa] pointer is not compared. *)
Definition RespAllocateShmem_eqb (lhs rhs : RespAllocateShmem) : bool :=
  (pas_size lhs =? pas_size rhs) && (pas_id lhs =? pas_id rhs).

(** * The layout of the RPC channel *)

Definition invalidOffsetWithinChannel : Z := -1.

(** Offsets are [int64_t], capacities [uint64_t]. *)
Record CommandsChannelLayout := mkChannelLayout {
  semClient : Z;
  semServer : Z;
  ringHead : Z;
  ringTail : Z;
  ringStart : Z;
  ringCapacity : Z;
  completionStampsStart : Z;
  completionStampsCapacity : Z;
  hostptrCopiesRingHead : Z;
  hostptrCopiesRingTail : Z;
  hostptrCopiesRingStart : Z;
  hostptrCopiesRingCapacity : Z;
  callbacksRingHead : Z;
  callbacksRingTail : Z;
  semClientCallback : Z;
  callbacksRingStart : Z;
  callbacksRingCapacity : Z;
  serviceHeapStart : Z;
  serviceHeapEnd : Z;
  clientHeapStart : Z;
  clientHeapEnd : Z
}.

#[export] Instance CommandsChannelLayout_eq_dec : EqDecision CommandsChannelLayout.
Proof. solve_decision. Defined.

Definition defaultChannelLayout : CommandsChannelLayout :=
  mkChannelLayout invalidOffsetWithinChannel invalidOffsetWithinChannel invalidOffsetWithinChannel invalidOffsetWithinChannel invalidOffsetWithinChannel 0 invalidOffsetWithinChannel 0 invalidOffsetWithinChannel invalidOffsetWithinChannel invalidOffsetWithinChannel 0 invalidOffsetWithinChannel invalidOffsetWithinChannel invalidOffsetWithinChannel invalidOffsetWithinChannel 0 invalidOffsetWithinChannel invalidOffsetWithinChannel invalidOffsetWithinChannel invalidOffsetWithinChannel.

Definition layout_isValid (l : CommandsChannelLayout) : bool :=
  (0 <=? semClient l) &&
  (0 <=? semServer l) &&
  (0 <=? ringHead l) &&
  (0 <=? ringTail l) &&
  (0 <=? ringStart l) &&
  (0 <? ringCapacity l) &&
  (0 <=? completionStampsStart l) &&
  (0 <? completionStampsCapacity l) &&
  (0 <=? hostptrCopiesRingHead l) &&
  (0 <=? hostptrCopiesRingTail l) &&
  (0 <=? hostptrCopiesRingStart l) &&
  (0 <? hostptrCopiesRingCapacity l) &&
  (0 <=? callbacksRingHead l) &&
  (0 <=? callbacksRingTail l) &&
  (0 <=? semClientCallback l) &&
  (0 <=? callbacksRingStart l) &&
  (0 <? callbacksRingCapacity l) &&
  (0 <=? serviceHeapStart l) &&
  (0 <=? serviceHeapEnd l) &&
  (0 <=? clientHeapStart l) &&
  (0 <=? clientHeapEnd l).

Definition layout_isInvalid (l : CommandsChannelLayout) : bool := negb (layout_isValid l).

(** [operator==] *)
Definition layout_eqb (lhs rhs : CommandsChannelLayout) : bool :=
  (semClient lhs =? semClient rhs) &&
  (semServer lhs =? semServer rhs) &&
  (ringHead lhs =? ringHead rhs) &&
  (ringTail lhs =? ringTail rhs) &&
  (ringStart lhs =? ringStart rhs) &&
  (ringCapacity lhs =? ringCapacity rhs) &&
  (completionStampsStart lhs =? completionStampsStart rhs) &&
  (completionStampsCapacity lhs =? completionStampsCapacity rhs) &&
  (hostptrCopiesRingHead lhs =? hostptrCopiesRingHead rhs) &&
  (hostptrCopiesRingTail lhs =? hostptrCopiesRingTail rhs) &&
  (hostptrCopiesRingStart lhs =? hostptrCopiesRingStart rhs) &&
  (hostptrCopiesRingCapacity lhs =? hostptrCopiesRingCapacity rhs) &&
  (callbacksRingHead lhs =? callbacksRingHead rhs) &&
  (callbacksRingTail lhs =? callbacksRingTail rhs) &&
  (semClientCallback lhs =? semClientCallback rhs) &&
  (callbacksRingStart lhs =? callbacksRingStart rhs) &&
  (callbacksRingCapacity lhs =? callbacksRingCapacity rhs) &&
  (serviceHeapStart lhs =? serviceHeapStart rhs) &&
  (serviceHeapEnd lhs =? serviceHeapEnd rhs) &&
  (clientHeapStart lhs =? clientHeapStart rhs) &&
  (clientHeapEnd lhs =? clientHeapEnd rhs).

Record ReqLaunchRpcShmemRingBuffer := mkReqLaunchRpc {
  rlr_header : ControlMessageHeader; ringbufferShmemId : Z; rlr_layout : CommandsChannelLayout }.

Definition ReqLaunchRpc_subtype : Z := 5.

Definition newReqLaunchRpc : ReqLaunchRpcShmemRingBuffer :=
  mkReqLaunchRpc (requestHeader ReqLaunchRpc_subtype) (-1) defaultChannelLayout.

Definition ReqLaunchRpc_isInvalid (m : ReqLaunchRpcShmemRingBuffer) : bool :=
  headerInvalid (rlr_header m) ReqLaunchRpc_subtype || (ringbufferShmemId m =? -1) || layout_isInvalid (rlr_layout m).

Definition ReqLaunchRpc_eqb (lhs rhs : ReqLaunchRpcShmemRingBuffer) : bool :=
  layout_eqb (rlr_layout lhs) (rlr_layout rhs) && (ringbufferShmemId lhs =? ringbufferShmemId rhs).

Inductive ServiceSynchronizationMethod : Type := syncUnknown | activePolling | semaphores.

#[export] Instance ServiceSynchronizationMethod_eq_dec : EqDecision ServiceSynchronizationMethod.
Proof. solve_decision. Defined.

Record RespLaunchRpcShmemRingBuffer := mkRespLaunchRpc {
  plr_header : ControlMessageHeader; serviceSynchronizationMethod : ServiceSynchronizationMethod }.

Definition RespLaunchRpc_subtype : Z := 6.

Definition newRespLaunchRpc : RespLaunchRpcShmemRingBuffer :=
  mkRespLaunchRpc (requestHeader RespLaunchRpc_subtype) syncUnknown.

Definition RespLaunchRpc_isInvalid (m : RespLaunchRpcShmemRingBuffer) : bool :=
  headerInvalid (plr_header m) RespLaunchRpc_subtype || bool_decide (serviceSynchronizationMethod m = syncUnknown).

Definition RespLaunchRpc_eqb (lhs rhs : RespLaunchRpcShmemRingBuffer) : bool :=
  bool_decide (serviceSynchronizationMethod lhs = serviceSynchronizationMethod rhs).

(** * Negotiation of the USM address range.  The headers are not checked. *)

Record NegotiateUsmAddressRange := mkNegotiate {
  nu_header : ControlMessageHeader; proposedUsmBase : Z; proposedUsmSize : Z }.

Definition ReqNegotiate_subtype : Z := 7.
Definition RespNegotiate_subtype : Z := 8.

Definition newReqNegotiate : NegotiateUsmAddressRange := mkNegotiate (requestHeader ReqNegotiate_subtype) 0 0.
Definition newRespNegotiate : NegotiateUsmAddressRange := mkNegotiate (requestHeader RespNegotiate_subtype) 0 0.

Definition ReqNegotiate_isInvalid (m : NegotiateUsmAddressRange) : bool :=
  negb (isAlignedPow2 pageSize4KB (proposedUsmBase m)) || negb (isAlignedPow2 pageSize4KB (proposedUsmSize m)).

Definition RespNegotiate_isInvalid (m : NegotiateUsmAddressRange) : bool :=
  negb (isAlignedPow2 pageSize4KB (proposedUsmBase m)) || negb (isAlignedPow2 pageSize4KB (proposedUsmSize m)).

Definition ReqNegotiate_eqb (lhs rhs : NegotiateUsmAddressRange) : bool :=
  (proposedUsmBase lhs =? proposedUsmBase rhs) && (proposedUsmSize lhs =? proposedUsmSize rhs).

Definition RespNegotiate_eqb (lhs rhs : NegotiateUsmAddressRange) : bool :=
  (proposedUsmBase lhs =? proposedUsmBase rhs) && (proposedUsmSize lhs =? proposedUsmSize rhs).

(** * Import of the client's address space: never invalid *)

Record ReqImportAddressSpace := mkReqImport {
  ri_header : ControlMessageHeader; mallocShmemResourcePath : string;
  clientAddressSpaceBaseAddress : Z; clientAddressSpaceSize : Z }.

Definition ReqImport_subtype : Z := 9.
Definition newReqImport : ReqImportAddressSpace := mkReqImport (requestHeader ReqImport_subtype) EmptyString u64_max 0.
Definition ReqImport_isInvalid (m : ReqImportAddressSpace) : bool := false.

Record RespImportAddressSpace := mkRespImport {
  pi_header : ControlMessageHeader; successfullyImported : bool; serviceBaseAddressForClientAddressSpace : Z }.

Definition RespImport_subtype : Z := 10.
Definition newRespImport : RespImportAddressSpace := mkRespImport (requestHeader RespImport_subtype) false 0.
Definition RespImport_isInvalid (m : RespImportAddressSpace) : bool := false.

(** * Page faults *)

Record ReqPageFault := mkReqPageFault { rpf_header : ControlMessageHeader; rpf_ptr : Z }.

Definition ReqPageFault_subtype : Z := 11.
Definition newReqPageFault (ptr : Z) : ReqPageFault := mkReqPageFault (requestHeader ReqPageFault_subtype) ptr.
Definition ReqPageFault_isInvalid (m : ReqPageFault) : bool :=
  headerInvalid (rpf_header m) ReqPageFault_subtype || (rpf_ptr m =? 0).

Record RespPageFault := mkRespPageFault { ppf_header : ControlMessageHeader }.

Definition RespPageFault_subtype : Z := 12.
Definition newRespPageFault : RespPageFault := mkRespPageFault (requestHeader RespPageFault_subtype).
Definition RespPageFault_isInvalid (m : RespPageFault) : bool := headerInvalid (ppf_header m) RespPageFault_subtype.

(** * File descriptors *)

Definition maxFdsCount : Z := 4.

Record ReqTransferFd := mkReqTransferFd { rtf_header : ControlMessageHeader; rtf_remoteFds : list Z; usedFdsCount : Z }.

Definition ReqTransferFd_subtype : Z := 13.
Definition newReqTransferFd (usedFdsCount : Z) : ReqTransferFd :=
  mkReqTransferFd (requestHeader ReqTransferFd_subtype) [0; 0; 0; 0] usedFdsCount.

(** The number of descriptors is not checked. *)
Definition ReqTransferFd_isInvalid (m : ReqTransferFd) : bool := headerInvalid (rtf_header m) ReqTransferFd_subtype.

Record ReqReverseTransferFd := mkReqReverseTransferFd { rrt_header : ControlMessageHeader; numOfFds : Z }.

Definition ReqReverseTransferFd_subtype : Z := 14.
Definition newReqReverseTransferFd (numOfFds : Z) : ReqReverseTransferFd :=
  mkReqReverseTransferFd (requestHeader ReqReverseTransferFd_subtype) numOfFds.

Definition ReqReverseTransferFd_isInvalid (m : ReqReverseTransferFd) : bool :=
  headerInvalid (rrt_header m) ReqReverseTransferFd_subtype || (maxFdsCount <? numOfFds m).

Record RespReverseTransferFd := mkRespReverseTransferFd { prt_header : ControlMessageHeader; prt_remoteFds : list Z }.

Definition RespReverseTransferFd_subtype : Z := 15.
Definition newRespReverseTransferFd : RespReverseTransferFd :=
  mkRespReverseTransferFd (requestHeader RespReverseTransferFd_subtype) [0; 0; 0; 0].

Definition RespReverseTransferFd_isInvalid (m : RespReverseTransferFd) : bool :=
  headerInvalid (prt_header m) RespReverseTransferFd_subtype.

(** * Availability of an API *)

Inductive ApiType : Type := ApiUnknown | OpenCL | LevelZero.

#[export] Instance ApiType_eq_dec : EqDecision ApiType.
Proof. solve_decision. Defined.

Record ReqCheckApiAvailability := mkReqCheckApi { rca_header : ControlMessageHeader; rca_api : ApiType }.

Definition ReqCheckApi_subtype : Z := 16.
Definition newReqCheckApi (api : ApiType) : ReqCheckApiAvailability := mkReqCheckApi (requestHeader ReqCheckApi_subtype) api.

Definition ReqCheckApi_isInvalid (m : ReqCheckApiAvailability) : bool :=
  headerInvalid (rca_header m) ReqCheckApi_subtype ||
  (bool_decide (rca_api m <> OpenCL) && bool_decide (rca_api m <> LevelZero)).

Record RespCheckApiAvailability := mkRespCheckApi { pca_header : ControlMessageHeader; available : bool }.

Definition RespCheckApi_subtype : Z := 17.
Definition newRespCheckApi : RespCheckApiAvailability := mkRespCheckApi (requestHeader RespCheckApi_subtype) false.
Definition RespCheckApi_isInvalid (m : RespCheckApiAvailability) : bool :=
  headerInvalid (pca_header m) RespCheckApi_subtype.

(** * Facts about the checks *)

Lemma headerInvalid_false h s : headerInvalid h s = false <-> h = requestHeader s.
Proof.
  unfold headerInvalid, requestHeader. rewrite orb_false_iff, !negb_false_iff, !Z.eqb_eq.
  destruct h; simpl. split; [intros [-> ->]; done|by intros [= -> ->]].
Qed.

(** All fields of a layout, with the capacities marked. *)
Definition layout_fields (l : CommandsChannelLayout) : list (bool * Z) :=
  [(false, semClient l);
   (false, semServer l);
   (false, ringHead l);
   (false, ringTail l);
   (false, ringStart l);
   (true, ringCapacity l);
   (false, completionStampsStart l);
   (true, completionStampsCapacity l);
   (false, hostptrCopiesRingHead l);
   (false, hostptrCopiesRingTail l);
   (false, hostptrCopiesRingStart l);
   (true, hostptrCopiesRingCapacity l);
   (false, callbacksRingHead l);
   (false, callbacksRingTail l);
   (false, semClientCallback l);
   (false, callbacksRingStart l);
   (true, callbacksRingCapacity l);
   (false, serviceHeapStart l);
   (false, serviceHeapEnd l);
   (false, clientHeapStart l);
   (false, clientHeapEnd l)].

Lemma layout_isValid_iff l :
  layout_isValid l = true <-> Forall (fun f : bool * Z => (if f.1 then 0 < f.2 else 0 <= f.2)) (layout_fields l).
Proof.
  unfold layout_isValid, layout_fields. rewrite !andb_true_iff, !Z.ltb_lt, !Z.leb_le.
  rewrite !Forall_cons, Forall_nil. simpl. tauto.
Qed.

Lemma layout_eqb_eq lhs rhs : layout_eqb lhs rhs = true <-> lhs = rhs.
Proof.
  unfold layout_eqb. rewrite !andb_true_iff, !Z.eqb_eq. split; [|by intros ->].
  destruct lhs, rhs; simpl. intros H. repeat (destruct H as [H ?]). by subst.
Qed.

(** * All messages together *)

Inductive message : Type :=
| MReqHandshake (m : ReqHandshake)
| MRespHandshake (m : RespHandshake)
| MReqAllocateShmem (m : ReqAllocateShmem)
| MRespAllocateShmem (m : RespAllocateShmem)
| MReqLaunchRpc (m : ReqLaunchRpcShmemRingBuffer)
| MRespLaunchRpc (m : RespLaunchRpcShmemRingBuffer)
| MReqNegotiate (m : NegotiateUsmAddressRange)
| MRespNegotiate (m : NegotiateUsmAddressRange)
| MReqImport (m : ReqImportAddressSpace)
| MRespImport (m : RespImportAddressSpace)
| MReqPageFault (m : ReqPageFault)
| MRespPageFault (m : RespPageFault)
| MReqTransferFd (m : ReqTransferFd)
| MReqReverseTransferFd (m : ReqReverseTransferFd)
| MRespReverseTransferFd (m : RespReverseTransferFd)
| MReqCheckApi (m : ReqCheckApiAvailability)
| MRespCheckApi (m : RespCheckApiAvailability).

Definition header (msg : message) : ControlMessageHeader :=
  match msg with
  | MReqHandshake m => rh_header m
  | MRespHandshake m => sh_header m
  | MReqAllocateShmem m => ras_header m
  | MRespAllocateShmem m => pas_header m
  | MReqLaunchRpc m => rlr_header m
  | MRespLaunchRpc m => plr_header m
  | MReqNegotiate m => nu_header m
  | MRespNegotiate m => nu_header m
  | MReqImport m => ri_header m
  | MRespImport m => pi_header m
  | MReqPageFault m => rpf_header m
  | MRespPageFault m => ppf_header m
  | MReqTransferFd m => rtf_header m
  | MReqReverseTransferFd m => rrt_header m
  | MRespReverseTransferFd m => prt_header m
  | MReqCheckApi m => rca_header m
  | MRespCheckApi m => pca_header m
  end.

Definition isInvalid (msg : message) : bool :=
  match msg with
  | MReqHandshake m => ReqHandshake_isInvalid m
  | MRespHandshake m => RespHandshake_isInvalid m
  | MReqAllocateShmem m => ReqAllocateShmem_isInvalid m
  | MRespAllocateShmem m => RespAllocateShmem_isInvalid m
  | MReqLaunchRpc m => ReqLaunchRpc_isInvalid m
  | MRespLaunchRpc m => RespLaunchRpc_isInvalid m
  | MReqNegotiate m => ReqNegotiate_isInvalid m
  | MRespNegotiate m => RespNegotiate_isInvalid m
  | MReqImport m => ReqImport_isInvalid m
  | MRespImport m => RespImport_isInvalid m
  | MReqPageFault m => ReqPageFault_isInvalid m
  | MRespPageFault m => RespPageFault_isInvalid m
  | MReqTransferFd m => ReqTransferFd_isInvalid m
  | MReqReverseTransferFd m => ReqReverseTransferFd_isInvalid m
  | MRespReverseTransferFd m => RespReverseTransferFd_isInvalid m
  | MReqCheckApi m => ReqCheckApi_isInvalid m
  | MRespCheckApi m => RespCheckApi_isInvalid m
  end.

Definition messageSubtype (msg : message) : Z :=
  match msg with
  | MReqHandshake m => ReqHandshake_subtype
  | MRespHandshake m => RespHandshake_subtype
  | MReqAllocateShmem m => ReqAllocateShmem_subtype
  | MRespAllocateShmem m => RespAllocateShmem_subtype
  | MReqLaunchRpc m => ReqLaunchRpc_subtype
  | MRespLaunchRpc m => RespLaunchRpc_subtype
  | MReqNegotiate m => ReqNegotiate_subtype
  | MRespNegotiate m => RespNegotiate_subtype
  | MReqImport m => ReqImport_subtype
  | MRespImport m => RespImport_subtype
  | MReqPageFault m => ReqPageFault_subtype
  | MRespPageFault m => RespPageFault_subtype
  | MReqTransferFd m => ReqTransferFd_subtype
  | MReqReverseTransferFd m => ReqReverseTransferFd_subtype
  | MRespReverseTransferFd m => RespReverseTransferFd_subtype
  | MReqCheckApi m => ReqCheckApi_subtype
  | MRespCheckApi m => RespCheckApi_subtype
  end.

(** The negotiation and import messages are accepted whatever their header. *)
Definition checksHeader (msg : message) : bool :=
  match msg with
  | MReqHandshake m => true
  | MRespHandshake m => true
  | MReqAllocateShmem m => true
  | MRespAllocateShmem m => true
  | MReqLaunchRpc m => true
  | MRespLaunchRpc m => true
  | MReqNegotiate m => false
  | MRespNegotiate m => false
  | MReqImport m => false
  | MRespImport m => false
  | MReqPageFault m => true
  | MRespPageFault m => true
  | MReqTransferFd m => true
  | MReqReverseTransferFd m => true
  | MRespReverseTransferFd m => true
  | MReqCheckApi m => true
  | MRespCheckApi m => true
  end.

Lemma accepted_header msg :
  checksHeader msg = true -> isInvalid msg = false -> header msg = requestHeader (messageSubtype msg).
Proof.
  intros Hc Hi. apply headerInvalid_false.
  destruct msg as [m|m|m|m|m|m|m|m|m|m|m|m|m|m|m|m|m]; try discriminate; cbn in *; bool_prop;
    unfold ReqHandshake_isInvalid, RespHandshake_isInvalid, ReqAllocateShmem_isInvalid, RespAllocateShmem_isInvalid,
      ReqLaunchRpc_isInvalid, RespLaunchRpc_isInvalid, ReqPageFault_isInvalid, RespPageFault_isInvalid,
      ReqTransferFd_isInvalid, ReqReverseTransferFd_isInvalid, RespReverseTransferFd_isInvalid,
      ReqCheckApi_isInvalid, RespCheckApi_isInvalid in Hi; bool_prop; done.
Qed.

(** * Properties *)

(** The header identifies the message: two accepted messages (of kinds whose
    header is checked) with the same header are of the same kind, so a reply can
    never be taken for another one; and the layout that a launch request carries
    is accepted exactly when no offset is negative and no capacity is zero. *)
Theorem control_messages_identified msg msg' launch :
  checksHeader msg = true -> checksHeader msg' = true -> isInvalid msg = false -> isInvalid msg' = false ->
  (header msg = header msg' -> messageSubtype msg = messageSubtype msg') /\
  (isInvalid (MReqLaunchRpc launch) = false ->
   Forall (fun f : bool * Z => if f.1 then 0 < f.2 else 0 <= f.2) (layout_fields (rlr_layout launch))).
Proof.
  intros Hc Hc' Hi Hi'. split.
  - rewrite (accepted_header msg), (accepted_header msg') by done. by intros [=].
  - cbn. unfold ReqLaunchRpc_isInvalid, layout_isInvalid. intros H. bool_prop. by apply layout_isValid_iff.
Qed.

Lemma control_messages_identified_witness :
  header (MReqPageFault (newReqPageFault 4096)) <> header (MReqAllocateShmem newReqAllocateShmem).
Proof.
  intros H. pose proof (control_messages_identified (MReqPageFault (newReqPageFault 4096))
    (MReqAllocateShmem newReqAllocateShmem) newReqLaunchRpc eq_refl eq_refl eq_refl eq_refl) as [Hk _].
  by apply Hk in H.
Defined.
