(* ===== verification/Layout.v ===== *)
(** The layout of the RPC channel (shared/rpc.h): how [CommandsChannel::Layout]
    lays the rings, stamps and heaps out in shared memory, how the client
    partitions a channel with it, and the bounds check ([isInBounds]) with which
    the service accepts or rejects the client's layout.

    Sizes of the ABI: [sem_t] has 32 bytes (glibc, x86-64). *)

From S2P Require Import Prelude.
From S2P Require Import Align.
From S2P Require Import Ranges.
From S2P Require Import Messages.

(** * Sizes *)

Definition sizeofOffset : Z := 8.
Definition sizeofSem : Z := 32.
(** [RingEntry]: two offsets. *)
Definition sizeofRingEntry : Z := 16.
(** [CompletionStampT] is [uint32_t]. *)
Definition sizeofCompletionStamp : Z := 4.
(** [TransferDesc]: id, three 64-bit counts, an address and an enum, padded. *)
Definition sizeofTransferDesc : Z := 48.
(** [CallbackIdT]: three words, a call id and flags. *)
Definition sizeofCallbackId : Z := 32.

(** * Layout *)

Record Layout := mkLayout {
  l_ringHead : Z;
  l_semClient : Z;
  l_ringTail : Z;
  l_semServer : Z;
  l_ringStart : Z;
  l_ringEnd : Z;
  l_completionStampsStart : Z;
  l_completionStampsEnd : Z;
  l_hostptrCopiesRingHead : Z;
  l_hostptrCopiesRingTail : Z;
  l_hostptrCopiesRingStart : Z;
  l_hostptrCopiesRingEnd : Z;
  l_callbacksRingHead : Z;
  l_callbacksRingTail : Z;
  l_semClientCallback : Z;
  l_callbacksRingStart : Z;
  l_callbacksRingEnd : Z;
  l_serviceHeapStart : Z;
  l_serviceHeapEnd : Z;
  l_clientHeapStart : Z;
  l_minHeapSize : Z;
  l_minShmemSize : Z
}.

(** The default member initialisers, in their order. *)
Definition defaultLayout : Layout :=
  let ringHead := 0 in
  let semClient := alignUpPow2 sizeofSem (ringHead + sizeofOffset) in
  let ringTail := alignUpPow2 cachelineSize (semClient + sizeofSem) in
  let semServer := alignUpPow2 sizeofSem (ringTail + sizeofOffset) in
  let ringStart := alignUpPow2 cachelineSize semServer in
  let ringEnd := alignUpPow2 pageSize4KB semServer in
  let completionStampsStart := ringEnd in
  let completionStampsEnd := completionStampsStart + pageSize4KB in
  let hostptrCopiesRingHead := completionStampsEnd in
  let hostptrCopiesRingTail := alignUpPow2 cachelineSize (hostptrCopiesRingHead + sizeofOffset) in
  let hostptrCopiesRingStart := alignUpPow2 cachelineSize (hostptrCopiesRingTail + sizeofOffset) in
  let hostptrCopiesRingEnd := alignUpPow2 pageSize4KB (hostptrCopiesRingStart + pageSize4KB) in
  let callbacksRingHead := hostptrCopiesRingEnd in
  let callbacksRingTail := alignUpPow2 cachelineSize (callbacksRingHead + sizeofOffset) in
  let semClientCallback := alignUpPow2 sizeofSem (callbacksRingTail + sizeofOffset) in
  let callbacksRingStart := alignUpPow2 cachelineSize (semClientCallback + sizeofSem) in
  let callbacksRingEnd := alignUpPow2 pageSize4KB (callbacksRingStart + pageSize4KB) in
  let serviceHeapStart := callbacksRingEnd in
  let serviceHeapEnd := serviceHeapStart + pageSize4KB * 4 in
  let clientHeapStart := serviceHeapEnd in
  let minHeapSize := pageSize4KB in
  let minShmemSize := clientHeapStart + minHeapSize in
  mkLayout ringHead semClient ringTail semServer ringStart ringEnd completionStampsStart completionStampsEnd
    hostptrCopiesRingHead hostptrCopiesRingTail hostptrCopiesRingStart hostptrCopiesRingEnd
    callbacksRingHead callbacksRingTail semClientCallback callbacksRingStart callbacksRingEnd
    serviceHeapStart serviceHeapEnd clientHeapStart minHeapSize minShmemSize.

Definition layout_valid (l : Layout) : bool :=
  (2 <=? u64 (l_ringEnd l - l_ringStart l) / sizeofRingEntry) &&
  isAlignedPow2 pageSize4KB (l_ringEnd l) &&
  isAlignedPow2 pageSize4KB (l_completionStampsEnd l) &&
  isAlignedPow2 pageSize4KB (l_hostptrCopiesRingEnd l) &&
  isAlignedPow2 pageSize4KB (l_callbacksRingEnd l) &&
  isAlignedPow2 pageSize4KB (l_serviceHeapEnd l).

(** [minShmemSize] keeps its value. *)
Definition resizeCommandsRing (l : Layout) (numberOfPages : Z) : Layout :=
  let newRingEnd := u64 (alignUpPow2 pageSize4KB (l_ringStart l) + numberOfPages * pageSize4KB) in
  if l_ringEnd l =? newRingEnd then l
  else
    let ringEnd := newRingEnd in
    let numRingEntries := u64 (ringEnd - l_ringStart l) / sizeofRingEntry in
    let comletionStampsCount := u64 (numRingEntries * 4) in
    let completionStampsStart := ringEnd in
    let completionStampsEnd :=
      alignUpPow2 pageSize4KB (u64 (completionStampsStart + comletionStampsCount * sizeofCompletionStamp)) in
    let hostptrCopiesRingHead := completionStampsEnd in
    let hostptrCopiesRingTail := alignUpPow2 cachelineSize (u64 (hostptrCopiesRingHead + sizeofOffset)) in
    let hostptrCopiesRingStart := alignUpPow2 cachelineSize (u64 (hostptrCopiesRingTail + sizeofOffset)) in
    let hostptrCopiesRingEnd := alignUpPow2 pageSize4KB (u64 (hostptrCopiesRingStart + pageSize4KB)) in
    let callbacksRingHead := hostptrCopiesRingEnd in
    let callbacksRingTail := alignUpPow2 cachelineSize (u64 (callbacksRingHead + sizeofOffset)) in
    let semClientCallback := alignUpPow2 sizeofSem (u64 (callbacksRingTail + sizeofOffset)) in
    let callbacksRingStart := alignUpPow2 cachelineSize (u64 (semClientCallback + sizeofSem)) in
    let callbacksRingEnd := alignUpPow2 pageSize4KB (u64 (callbacksRingStart + pageSize4KB)) in
    let serviceHeapStart := callbacksRingEnd in
    let serviceHeapEnd := u64 (serviceHeapStart + pageSize4KB * 4) in
    let clientHeapStart := serviceHeapEnd in
    mkLayout (l_ringHead l) (l_semClient l) (l_ringTail l) (l_semServer l) (l_ringStart l) ringEnd
      completionStampsStart completionStampsEnd
      hostptrCopiesRingHead hostptrCopiesRingTail hostptrCopiesRingStart hostptrCopiesRingEnd
      callbacksRingHead callbacksRingTail semClientCallback callbacksRingStart callbacksRingEnd
      serviceHeapStart serviceHeapEnd clientHeapStart (l_minHeapSize l) (l_minShmemSize l).

(** * The client's partition *)

(** The layout chosen: [requestedRpcRingPages] is the environment's setting
    (-1 when it is not set). *)
Definition chooseLayout (requestedRpcRingPages : Z) (useAsyncCalls : bool) : Layout :=
  if negb (requestedRpcRingPages =? -1) then resizeCommandsRing defaultLayout (u64 requestedRpcRingPages)
  else if useAsyncCalls then resizeCommandsRing defaultLayout 1
  else defaultLayout.

(** The offsets and capacities that describe the channel. *)
Definition channelLayout (l : Layout) (shmemSize : Z) : CommandsChannelLayout :=
  mkChannelLayout (l_semClient l) (l_semServer l) (l_ringHead l) (l_ringTail l)
    (l_ringStart l) (u64 (l_ringEnd l - l_ringStart l) / sizeofRingEntry)
    (l_completionStampsStart l)
    (u64 (l_completionStampsEnd l - l_completionStampsStart l) / sizeofCompletionStamp)
    (l_hostptrCopiesRingHead l) (l_hostptrCopiesRingTail l) (l_hostptrCopiesRingStart l)
    (u64 (l_hostptrCopiesRingEnd l - l_hostptrCopiesRingStart l) / sizeofTransferDesc)
    (l_callbacksRingHead l) (l_callbacksRingTail l) (l_semClientCallback l) (l_callbacksRingStart l)
    (u64 (l_callbacksRingEnd l - l_callbacksRingStart l) / sizeofCallbackId)
    (l_serviceHeapStart l) (l_serviceHeapEnd l) (l_clientHeapStart l) shmemSize.

(** [partition(shmem, shmemSize, ...)] up to the initialisation of the control
    block: the layout of the channel, or a refusal. *)
Definition clientPartition (shmem shmemSize requestedRpcRingPages : Z) (useAsyncCalls : bool)
  : option CommandsChannelLayout :=
  if negb (isAlignedPow2 pageSize4KB shmem) then None
  else if negb (isAlignedPow2 pageSize4KB shmemSize) then None
  else
    let layout := chooseLayout requestedRpcRingPages useAsyncCalls in
    if negb (layout_valid layout) then None
    else if shmemSize <? l_minShmemSize layout then None
    else Some (channelLayout layout shmemSize).

(** * The service's check *)

(** [AddressRange(uintptr_t, uintptr_t)] from signed offsets. *)
Definition offsetRange (s e : Z) : res AddressRange := makeRange (u64 s) (u64 e).

(** The ranges in their order, each with its alignment. *)
Definition channelRanges (el : CommandsChannelLayout) : res (list (AddressRange * Z)) :=
  ringHeadR ← offsetRange (ringHead el) (ringHead el + sizeofOffset);
  ringTailR ← offsetRange (ringTail el) (ringTail el + sizeofOffset);
  semClientR ← offsetRange (semClient el) (semClient el + sizeofSem);
  semServerR ← offsetRange (semServer el) (semServer el + sizeofSem);
  ringR ← offsetRange (ringStart el) (ringStart el + ringCapacity el * sizeofRingEntry);
  stampsR ← offsetRange (completionStampsStart el)
              (completionStampsStart el + completionStampsCapacity el * sizeofCompletionStamp);
  copiesHeadR ← offsetRange (hostptrCopiesRingHead el) (hostptrCopiesRingHead el + sizeofOffset);
  copiesTailR ← offsetRange (hostptrCopiesRingTail el) (hostptrCopiesRingTail el + sizeofOffset);
  copiesR ← offsetRange (hostptrCopiesRingStart el)
              (hostptrCopiesRingStart el + hostptrCopiesRingCapacity el * sizeofTransferDesc);
  callbacksHeadR ← offsetRange (callbacksRingHead el) (callbacksRingHead el + sizeofOffset);
  callbacksTailR ← offsetRange (callbacksRingTail el) (callbacksRingTail el + sizeofOffset);
  semCallbackR ← offsetRange (semClientCallback el) (semClientCallback el + sizeofSem);
  callbacksR ← offsetRange (callbacksRingStart el)
              (callbacksRingStart el + callbacksRingCapacity el * sizeofCallbackId);
  serviceHeapR ← offsetRange (serviceHeapStart el) (serviceHeapEnd el);
  clientHeapR ← offsetRange (clientHeapStart el) (clientHeapEnd el);
  Ret [(ringHeadR, sizeofOffset); (ringTailR, sizeofOffset);
       (semClientR, sizeofSem); (semServerR, sizeofSem);
       (ringR, cachelineSize); (stampsR, cachelineSize);
       (copiesHeadR, sizeofOffset); (copiesTailR, sizeofOffset); (copiesR, cachelineSize);
       (callbacksHeadR, sizeofOffset); (callbacksTailR, sizeofOffset); (callbacksR, cachelineSize);
       (semCallbackR, sizeofSem); (serviceHeapR, pageSize4KB); (clientHeapR, pageSize4KB)].

(** The inner loop compares with every other entry of the array. *)
Definition noOverlap (ranges : list (AddressRange * Z)) (i : nat) (range : AddressRange) : bool :=
  forallb (fun j => match ranges !! j with
                    | Some rhs => (i =? j)%nat || negb (intersects range rhs.1)
                    | None => true
                    end) (seq 0 (length ranges)).

Definition rangeOk (channel : AddressRange) (ranges : list (AddressRange * Z)) (i : nat) : bool :=
  match ranges !! i with
  | Some (range, alignment) =>
      contains channel range &&
      (isAligned (start range) alignment && isAligned (end_ range) alignment) &&
      noOverlap ranges i range
  | None => true
  end.

Definition isInBounds (el : CommandsChannelLayout) (channelSize : Z) : res bool :=
  channel ← makeRange 0 channelSize;
  ranges ← channelRanges el;
  Ret (forallb (rangeOk channel ranges) (seq 0 (length ranges))).

(** [partition(shmem, shmemSize, existingLayout, ...)] up to the initialisation
    of the control block. *)
Definition serverPartition (shmemSize : Z) (existingLayout : CommandsChannelLayout) : res bool :=
  if layout_isValid existingLayout then isInBounds existingLayout shmemSize else Ret false.

(** * Local addresses *)

Definition getAsLocalAddress (shmem offset : Z) : Z := moveByBytes shmem offset.
Definition getAsShmemOffset (shmem localAddress : Z) : Z := byteDistanceAbs shmem localAddress.

(** The client encodes, the service decodes. *)
Definition encodeHeapOffsetFromLocalPtr (shmem localAddress : Z) : Z := byteDistanceAbs shmem localAddress.
Definition decodeLocalPtrFromHeapOffset (shmem heapOffset : Z) : Z := moveByBytes shmem heapOffset.

(** * The shape of every layout the client uses

    [r] pages of control block and ring, stamps up to page [m]; everything
    behind the stamps is at a fixed distance. *)
Definition layoutShape (r m : Z) : Layout :=
  let base := 4096 * m in
  mkLayout 0 32 64 96 128 (4096 * r) (4096 * r) base
    base (base + 64) (base + 128) (base + 8192)
    (base + 8192) (base + 8256) (base + 8288) (base + 8320) (base + 16384)
    (base + 16384) (base + 32768) (base + 32768) 4096 45056.

Lemma alignUp_unique v a w : 0 < a -> 0 <= v -> v + a - 1 < W64 -> v <= w < v + a -> w mod a = 0 -> alignUp v a = w.
Proof.
  intros Ha Hv Hb Hw Hm. destruct (alignUp_spec v a) as [Hs Hsm]; [lia..|].
  pose proof (alignUp_le v a w Ha Hv Hb (proj1 Hw) Hm).
  assert (Hne : a <> 0) by lia. pose proof (Z.div_mod w a Hne) as Hdw. pose proof (Z.div_mod (alignUp v a) a Hne) as Hds.
  rewrite Hm in Hdw. rewrite Hsm in Hds. set (q := w / a) in *. set (q' := alignUp v a / a) in *. clearbody q q'.
  assert (q = q') by nia. subst q'. lia.
Qed.

Lemma alignUpPow2_page v w :
  0 <= v -> v + 4095 < W64 -> v <= w < v + 4096 -> w mod 4096 = 0 -> alignUpPow2 pageSize4KB v = w.
Proof. intros. change pageSize4KB with (2 ^ 12). rewrite alignUpPow2_alignUp by lia. change (2 ^ 12) with 4096. apply alignUp_unique; [lia..|done]. Qed.

Lemma alignUpPow2_line v w :
  0 <= v -> v + 63 < W64 -> v <= w < v + 64 -> w mod 64 = 0 -> alignUpPow2 cachelineSize v = w.
Proof. intros. change cachelineSize with (2 ^ 6). rewrite alignUpPow2_alignUp by lia. change (2 ^ 6) with 64. apply alignUp_unique; [lia..|done]. Qed.

Lemma alignUpPow2_sem v w :
  0 <= v -> v + 31 < W64 -> v <= w < v + 32 -> w mod 32 = 0 -> alignUpPow2 sizeofSem v = w.
Proof. intros. change sizeofSem with (2 ^ 5). rewrite alignUpPow2_alignUp by lia. change (2 ^ 5) with 32. apply alignUp_unique; [lia..|done]. Qed.

Lemma defaultLayout_shape : defaultLayout = layoutShape 1 2.
Proof. by vm_compute. Qed.

Ltac shape_arith := unfold pageSize4KB, KB, sizeofOffset, sizeofSem, sizeofRingEntry, sizeofCompletionStamp in *;
  word_unfold; Z.div_mod_to_equations; lia.

Lemma resize_shape p :
  0 <= p < 1099511627776 -> resizeCommandsRing defaultLayout p = layoutShape (p + 1) (2 * p + 2).
Proof.
  intros Hp. rewrite defaultLayout_shape. unfold resizeCommandsRing. cbn [layoutShape l_ringStart l_ringEnd].
  rewrite (alignUpPow2_page 128 4096) by (done || lia).
  assert (E : u64 (4096 + p * pageSize4KB) = 4096 * (p + 1)) by shape_arith. rewrite E.
  destruct (Z.eqb_spec (4096 * 1) (4096 * (p + 1))) as [H1|H1].
  { assert (p = 0) as -> by lia. done. }
  assert (E1 : u64 (u64 (4096 * (p + 1) - 128) / sizeofRingEntry * 4) = 1024 * p + 992) by shape_arith. rewrite E1.
  rewrite (alignUpPow2_page (u64 (4096 * (p + 1) + (1024 * p + 992) * sizeofCompletionStamp)) (4096 * (2 * p + 2)))
    by shape_arith.
  set (b := 4096 * (2 * p + 2)).
  assert (Hb : 0 <= b < 9007199254740992 * 4 /\ b mod 4096 = 0) by (unfold b; split; [lia|]; Z.div_mod_to_equations; lia).
  rewrite (alignUpPow2_line (u64 (b + sizeofOffset)) (b + 64)) by shape_arith.
  rewrite (alignUpPow2_line (u64 (b + 64 + sizeofOffset)) (b + 128)) by shape_arith.
  rewrite (alignUpPow2_page (u64 (b + 128 + pageSize4KB)) (b + 8192)) by shape_arith.
  rewrite (alignUpPow2_line (u64 (b + 8192 + sizeofOffset)) (b + 8256)) by shape_arith.
  rewrite (alignUpPow2_sem (u64 (b + 8256 + sizeofOffset)) (b + 8288)) by shape_arith.
  rewrite (alignUpPow2_line (u64 (b + 8288 + sizeofSem)) (b + 8320)) by shape_arith.
  rewrite (alignUpPow2_page (u64 (b + 8320 + pageSize4KB)) (b + 16384)) by shape_arith.
  assert (E2 : u64 (b + 16384 + pageSize4KB * 4) = b + 32768) by shape_arith. rewrite E2.
  unfold layoutShape. fold b. cbn. done.
Qed.

(** The ranges of such a layout. *)
Definition shapeRanges (r m size : Z) : list (AddressRange * Z) :=
  let b := 4096 * m in
  [(mkRange 0 8, 8); (mkRange 64 72, 8); (mkRange 32 64, 32); (mkRange 96 128, 32);
   (mkRange 128 (4096 * r), 64); (mkRange (4096 * r) b, 64);
   (mkRange b (b + 8), 8); (mkRange (b + 64) (b + 72), 8); (mkRange (b + 128) (b + 8192), 64);
   (mkRange (b + 8192) (b + 8200), 8); (mkRange (b + 8256) (b + 8264), 8); (mkRange (b + 8320) (b + 16384), 64);
   (mkRange (b + 8288) (b + 8320), 32); (mkRange (b + 16384) (b + 32768), 4096); (mkRange (b + 32768) size, 4096)].

Definition shape_ok (r m size : Z) : Prop :=
  1 <= r < m /\ 4096 * m + 32768 < size /\ size < 4611686018427387904 /\ size mod 4096 = 0.

Lemma offsetRange_ok s e : 0 <= s < e -> e < W64 -> offsetRange s e ⇓ mkRange s e.
Proof. intros. unfold offsetRange. rewrite !u64_id by (word_unfold; lia). apply makeRange_ok. lia. Qed.

Lemma shape_ranges r m size :
  shape_ok r m size -> channelRanges (channelLayout (layoutShape r m) size) ⇓ shapeRanges r m size.
Proof.
  intros (Hr & Hm & Hs & _).
  assert (E1 : u64 (4096 * r - 128) / 16 * 16 = 4096 * r - 128) by shape_arith.
  assert (E2 : u64 (4096 * m - 4096 * r) / 4 * 4 = 4096 * m - 4096 * r) by shape_arith.
  assert (E3 : u64 (4096 * m + 8192 - (4096 * m + 128)) / 48 * 48 = 8064) by shape_arith.
  assert (E4 : u64 (4096 * m + 16384 - (4096 * m + 8320)) / 32 * 32 = 8064) by shape_arith.
  unfold channelRanges. cbn -[u64 Z.mul Z.add Z.sub Z.div offsetRange mbind].
  unfold sizeofOffset, sizeofSem, sizeofRingEntry, sizeofCompletionStamp, sizeofTransferDesc, sizeofCallbackId,
    cachelineSize, pageSize4KB, KB.
  rewrite E1, E2, E3, E4. rewrite !offsetRange_ok by lia. cbn [mbind res_bind].
  unfold shapeRanges. do 2 f_equal; repeat (f_equal; try lia).
Qed.

Lemma isInBounds_intro el size ranges :
  0 < size -> channelRanges el ⇓ ranges ->
  (forall i range alignment, ranges !! i = Some (range, alignment) ->
     contains (mkRange 0 size) range = true /\
     isAligned (start range) alignment = true /\ isAligned (end_ range) alignment = true /\
     forall j rhs, ranges !! j = Some rhs -> i <> j -> intersects range rhs.1 = false) ->
  isInBounds el size ⇓ true.
Proof.
  intros Hs Hr Hall. unfold isInBounds. rewrite makeRange_ok by lia. cbn [mbind res_bind]. rewrite Hr.
  cbn [mbind res_bind]. f_equal. apply forallb_forall. intros i _. unfold rangeOk.
  destruct (ranges !! i) as [[range al]|] eqn:Hi; [|done].
  destruct (Hall i range al Hi) as (-> & -> & -> & Hno). cbn [andb]. unfold noOverlap.
  apply forallb_forall. intros j _. destruct (ranges !! j) as [rhs|] eqn:Hj; [|done].
  destruct (Nat.eqb_spec i j) as [->|Hne]; [done|]. cbn [orb]. by rewrite (Hno j rhs Hj Hne).
Qed.

(** What acceptance means. *)
Lemma isInBounds_elim el size :
  isInBounds el size ⇓ true ->
  exists ranges, channelRanges el ⇓ ranges /\
    forall i range alignment, ranges !! i = Some (range, alignment) ->
     contains (mkRange 0 size) range = true /\
     start range mod alignment = 0 /\ end_ range mod alignment = 0 /\
     forall j rhs, ranges !! j = Some rhs -> i <> j -> intersects range rhs.1 = false.
Proof.
  unfold isInBounds. intros H. apply res_bind_Ret in H as (channel & Hc & H).
  apply res_bind_Ret in H as (ranges & Hr & H). injection H as H. exists ranges. split; [done|].
  assert (channel = mkRange 0 size) as ->.
  { unfold makeRange in Hc. destruct (checkRange 0 size); [done|]. by injection Hc as <-. }
  intros i range al Hi. apply lookup_lt_Some in Hi as Hlt.
  assert (Hok : rangeOk (mkRange 0 size) ranges i = true).
  { apply (proj1 (forallb_forall _ _) H). apply in_seq. lia. }
  unfold rangeOk in Hok. rewrite Hi in Hok. apply andb_true_iff in Hok as [Hok Hno].
  apply andb_true_iff in Hok as [Hcon Hal]. apply andb_true_iff in Hal as [Ha1 Ha2].
  unfold isAligned in *. bool_prop. split_and!; try done.
  intros j rhs Hj Hne. apply lookup_lt_Some in Hj as Hltj.
  unfold noOverlap in Hno. pose proof (proj1 (forallb_forall _ _) Hno j ltac:(apply in_seq; lia)) as Hj'. cbn beta in Hj'.
  rewrite Hj in Hj'. destruct (Nat.eqb_spec i j); [done|]. cbn [orb] in Hj'. by apply negb_true_iff.
Qed.

Lemma shape_inBounds r m size :
  shape_ok r m size -> isInBounds (channelLayout (layoutShape r m) size) size ⇓ true.
Proof.
  intros Hok. pose proof Hok as (Hr & Hm & Hs & Hmod).
  eapply isInBounds_intro; [lia|by apply shape_ranges|].
  assert (Hall : Forall (fun p : AddressRange * Z =>
            0 <= start p.1 /\ start p.1 < end_ p.1 /\ end_ p.1 <= size /\
            start p.1 mod p.2 = 0 /\ end_ p.1 mod p.2 = 0) (shapeRanges r m size)).
  { unfold shapeRanges. repeat constructor; simpl; try lia; try done; try (Z.div_mod_to_equations; lia). }
  assert (Hdis : forall i j p q, (i < j)%nat -> shapeRanges r m size !! i = Some p -> shapeRanges r m size !! j = Some q ->
            end_ p.1 <= start q.1 \/ end_ q.1 <= start p.1).
  { intros i j p q Hij Hi Hj. unfold shapeRanges in *.
    do 15 (destruct i as [|i]; [simpl in Hi; injection Hi as <-;
             do 15 (destruct j as [|j]; [first [lia | simpl in Hj; injection Hj as <-; simpl; lia]|]); done|]). done. }
  rewrite Forall_lookup in Hall. intros i range al Hi. destruct (Hall _ _ Hi) as (H1 & H2 & H3 & H4 & H5).
  cbn [fst snd] in *. split; [apply contains_spec; simpl; lia|].
  split; [by apply Z.eqb_eq|]. split; [by apply Z.eqb_eq|].
  intros j [rhs al'] Hj Hne. destruct (Hall _ _ Hj) as (G1 & G2 & _). cbn [fst snd] in *.
  apply intersects_false; [done..|]. unfold disjoint.
  destruct (Nat.lt_ge_cases i j) as [Hlt|Hge].
  - specialize (Hdis _ _ _ _ Hlt Hi Hj). cbn [fst] in Hdis. lia.
  - assert (Hlt : (j < i)%nat) by lia. specialize (Hdis _ _ _ _ Hlt Hj Hi). cbn [fst] in Hdis. lia.
Qed.

Lemma shape_isValid r m size : shape_ok r m size -> layout_isValid (channelLayout (layoutShape r m) size) = true.
Proof.
  intros (Hr & Hm & Hs & _). apply layout_isValid_iff. unfold layout_fields.
  assert (E1 : 0 < u64 (4096 * r - 128) / sizeofRingEntry) by shape_arith.
  assert (E2 : 0 < u64 (4096 * m - 4096 * r) / sizeofCompletionStamp) by shape_arith.
  assert (E3 : 0 < u64 (4096 * m + 8192 - (4096 * m + 128)) / sizeofTransferDesc) by (unfold sizeofTransferDesc; shape_arith).
  assert (E4 : 0 < u64 (4096 * m + 16384 - (4096 * m + 8320)) / sizeofCallbackId) by (unfold sizeofCallbackId; shape_arith).
  repeat constructor; cbn -[u64 Z.mul Z.add Z.sub Z.div]; first [assumption | lia].
Qed.

Lemma chooseLayout_shape pages async :
  -1 <= pages < 1099511627776 ->
  exists r m, chooseLayout pages async = layoutShape r m /\ 1 <= r < m.
Proof.
  intros Hp. unfold chooseLayout. destruct (Z.eqb_spec pages (-1)) as [->|Hne]; cbn [negb].
  - destruct async; [exists 2, 4; split; [apply (resize_shape 1); lia|lia]|].
    exists 1, 2. split; [apply defaultLayout_shape|lia].
  - rewrite (u64_id pages) by (word_unfold; lia). exists (pages + 1), (2 * pages + 2).
    split; [apply resize_shape; lia|lia].
Qed.

(** * Properties *)

(** C8: The two sides agree on the channel: whatever ring size the client picks,
    if its partition succeeds and leaves room for a client heap, then the layout
    it sends passes the service's validity and bounds checks. *)
Theorem partition_accepted_by_service shmem size pages async el :
  -1 <= pages < 1099511627776 -> 0 <= size < 4611686018427387904 ->
  clientPartition shmem size pages async = Some el -> clientHeapStart el < clientHeapEnd el ->
  serverPartition size el ⇓ true.
Proof.
  intros Hp Hs Hc Hheap. unfold clientPartition in Hc.
  destruct (isAlignedPow2 pageSize4KB shmem); [|done]. cbn [negb] in Hc.
  destruct (isAlignedPow2 pageSize4KB size) eqn:Ha; [|done]. cbn [negb] in Hc.
  destruct (chooseLayout_shape pages async Hp) as (r & m & Hl & Hrm). rewrite Hl in Hc.
  destruct (layout_valid _); [|done]. cbn [negb] in Hc. destruct (_ <? _); [done|]. injection Hc as <-.
  assert (Hok : shape_ok r m size).
  { split; [done|]. cbn -[Z.mul Z.add] in Hheap. split; [done|]. split; [lia|].
    change pageSize4KB with (2 ^ 12) in Ha. rewrite isAlignedPow2_isAligned in Ha by lia. by apply Z.eqb_eq in Ha. }
  unfold serverPartition. rewrite shape_isValid by done. by apply shape_inBounds.
Qed.

Lemma partition_accepted_by_service_witness :
  exists el, clientPartition 8192 1048576 (-1) true = Some el /\ serverPartition 1048576 el ⇓ true.
Proof.
  eexists. split; [vm_compute; reflexivity|].
  apply (partition_accepted_by_service 8192 1048576 (-1) true); [lia|lia|vm_compute; reflexivity|simpl; lia].
Defined.

(** The client's own size check is too weak: [minShmemSize] is not updated
    when the ring grows (which asynchronous calls, the default, imply).  A channel
    of exactly that size is partitioned by the client with a client heap that ends
    before it starts, and is then rejected by the service. *)
Theorem minShmemSize_stale :
  exists el, clientPartition 0 (l_minShmemSize (chooseLayout (-1) true)) (-1) true = Some el /\
    clientHeapEnd el < clientHeapStart el /\
    serverPartition (l_minShmemSize (chooseLayout (-1) true)) el ⇓ false.
Proof. eexists. split; [vm_compute; reflexivity|]. split; [simpl; lia|]. vm_compute. reflexivity. Qed.

(** A layout that the service accepts has all its parts inside the channel,
    aligned and pairwise disjoint, and never makes the check abort or leave the
    array. *)
Theorem isInBounds_sound el size :
  serverPartition size el ⇓ true ->
  exists ranges, channelRanges el ⇓ ranges /\ length ranges = 15%nat /\
    forall i range alignment, ranges !! i = Some (range, alignment) ->
     0 <= start range /\ start range < size /\ end_ range <= size /\
     start range mod alignment = 0 /\ end_ range mod alignment = 0 /\
     forall j rhs, ranges !! j = Some rhs -> i <> j -> intersects range rhs.1 = false.
Proof.
  unfold serverPartition. destruct (layout_isValid el); [|done]. intros H.
  destruct (isInBounds_elim el size H) as (ranges & Hr & Hall). exists ranges. split; [done|]. split.
  - unfold channelRanges in Hr. repeat (apply res_bind_Ret in Hr as (? & _ & Hr)). by injection Hr as <-.
  - intros i range al Hi. destruct (Hall i range al Hi) as (Hc & H1 & H2 & H3).
    apply contains_spec in Hc. cbn [start end_] in Hc. split_and!; try done; lia.
Qed.

(** The layout of a one-megabyte channel, and the same one with a capacity whose
    byte size wraps around in 64 bits. *)
Definition exampleLayout : CommandsChannelLayout := channelLayout (layoutShape 2 4) 1048576.

Definition withRingCapacity (l : CommandsChannelLayout) (c : Z) : CommandsChannelLayout :=
  mkChannelLayout (semClient l) (semServer l) (ringHead l) (ringTail l) (ringStart l) c
    (completionStampsStart l) (completionStampsCapacity l) (hostptrCopiesRingHead l) (hostptrCopiesRingTail l)
    (hostptrCopiesRingStart l) (hostptrCopiesRingCapacity l) (callbacksRingHead l) (callbacksRingTail l)
    (semClientCallback l) (callbacksRingStart l) (callbacksRingCapacity l) (serviceHeapStart l) (serviceHeapEnd l)
    (clientHeapStart l) (clientHeapEnd l).

Lemma isInBounds_sound_witness :
  exists ranges, channelRanges exampleLayout ⇓ ranges /\ length ranges = 15%nat.
Proof.
  destruct (isInBounds_sound exampleLayout 1048576 ltac:(vm_compute; reflexivity)) as (ranges & H1 & H2 & _).
  by exists ranges.
Defined.

(** What the check does not cover: capacities are multiplied by the entry
    size in 64 bits, so the service accepts a ring of 2^60 + 504 entries in the
    place of one with 504, and a capacity of 2^60 (byte size 0) makes it abort. *)
Theorem isInBounds_capacity_wraps :
  serverPartition 1048576 exampleLayout ⇓ true /\
  serverPartition 1048576 (withRingCapacity exampleLayout (2 ^ 60 + 504)) ⇓ true /\
  serverPartition 1048576 (withRingCapacity exampleLayout (2 ^ 60)) = Abort.
Proof. split; [|split]; vm_compute; reflexivity. Qed.
