(* ===== verification/Channel.v ===== *)
(** The two ends of the RPC channel (shared/rpc.h): [ChannelClient] reserves
    space for messages, submits commands and waits for their completion stamps;
    [ChannelServer] takes commands from the ring and reports completions,
    host-pointer copies and callbacks.

    Waiting is described by what the waiting side observes, turn by turn; a list
    of observations that ends before the loop does is [Undef] (still waiting). *)

From S2P Require Import Prelude.
From S2P Require Import Align.
From S2P Require Import Ranges.
From S2P Require Import Ring.
From S2P Require Import RangeAlloc.
From S2P Require Import Messages.
From S2P Require Import Layout.

(** * Data of the rings *)

Definition CompletionStampReady : Z := 1.
Definition CompletionStampNotReady : Z := 0.

Record RingEntry := mkEntry { messageOffset : Z; completionStampOffset : Z }.

Inductive Direction : Type := ClientToService | ServiceToClient.

(** [TransferDesc] of shared/shmem_transfer_desc.h; [emptyTransfer] is its
    default value. *)
Record TransferDesc := mkTransfer {
  shmemId : Z; underlyingSize : Z; bytesCountToCopy : Z; offsetFromResourceStart : Z;
  clientAddress : Z; direction : Direction }.

Definition emptyTransfer : TransferDesc := mkTransfer (-1) 0 0 0 0 ClientToService.

(** [RpcCallId]: type and subtype of a message. *)
Record RpcCallId := mkCallId { call_type : Z; call_subtype : Z }.

Record CallbackIdT := mkCallbackId {
  fptr : Z; cb_handle : Z; cb_data : Z; cb_src : RpcCallId; notificationFlags : Z }.

Definition emptyCallback : CallbackIdT := mkCallbackId 0 0 0 (mkCallId 0 0) 0.

(** Message flags ([RpcMessageHeader::FlagsBits]). *)
Definition flag_signalSemaphoreOnCompletion : Z := 1.
Definition flag_batched : Z := 2.
Definition flag_async : Z := 4.

(** * The client's side *)

Record ChannelClient := mkClient {
  cl_shmem : Z;
  cl_layout : CommandsChannelLayout;
  cl_ring : TypedRing RingEntry;
  cl_copies : TypedRing TransferDesc;
  cl_callbacks : TypedRing CallbackIdT;
  cl_stamp : Z;          (** address of the completion stamp *)
  cl_stampValue : Z;
  cl_cmdHeap : LinearAllocator;
  cl_standaloneHeap : RangeAllocator;
  cl_sync : ServiceSynchronizationMethod;
  cl_stopped : bool
}.

Definition set_ring (c : ChannelClient) r : ChannelClient :=
  mkClient (cl_shmem c) (cl_layout c) r (cl_copies c) (cl_callbacks c) (cl_stamp c) (cl_stampValue c)
    (cl_cmdHeap c) (cl_standaloneHeap c) (cl_sync c) (cl_stopped c).
Definition set_copies (c : ChannelClient) r : ChannelClient :=
  mkClient (cl_shmem c) (cl_layout c) (cl_ring c) r (cl_callbacks c) (cl_stamp c) (cl_stampValue c)
    (cl_cmdHeap c) (cl_standaloneHeap c) (cl_sync c) (cl_stopped c).
Definition set_callbacks (c : ChannelClient) r : ChannelClient :=
  mkClient (cl_shmem c) (cl_layout c) (cl_ring c) (cl_copies c) r (cl_stamp c) (cl_stampValue c)
    (cl_cmdHeap c) (cl_standaloneHeap c) (cl_sync c) (cl_stopped c).
Definition set_stampValue (c : ChannelClient) v : ChannelClient :=
  mkClient (cl_shmem c) (cl_layout c) (cl_ring c) (cl_copies c) (cl_callbacks c) (cl_stamp c) v
    (cl_cmdHeap c) (cl_standaloneHeap c) (cl_sync c) (cl_stopped c).
Definition set_cmdHeap (c : ChannelClient) h : ChannelClient :=
  mkClient (cl_shmem c) (cl_layout c) (cl_ring c) (cl_copies c) (cl_callbacks c) (cl_stamp c) (cl_stampValue c)
    h (cl_standaloneHeap c) (cl_sync c) (cl_stopped c).
Definition set_standaloneHeap (c : ChannelClient) h : ChannelClient :=
  mkClient (cl_shmem c) (cl_layout c) (cl_ring c) (cl_copies c) (cl_callbacks c) (cl_stamp c) (cl_stampValue c)
    (cl_cmdHeap c) h (cl_sync c) (cl_stopped c).

(** The end of [init]: the stamp and the two heaps that share the client heap. *)
Definition initHeaps (c : ChannelClient) : res ChannelClient :=
  let l := cl_layout c in
  let stamp := getAsLocalAddress (cl_shmem c) (completionStampsStart l) in
  let totalClientHeapSize := clientHeapEnd l - clientHeapStart l in
  let cmdHeapSize := Z.quot totalClientHeapSize 4 in
  cmdRange ← rangeOfSize (getAsLocalAddress (cl_shmem c) (clientHeapStart l)) (u64 cmdHeapSize);
  standaloneRange ← rangeOfSize (getAsLocalAddress (cl_shmem c) (clientHeapStart l + cmdHeapSize))
                      (u64 (totalClientHeapSize - cmdHeapSize));
  Ret (mkClient (cl_shmem c) l (cl_ring c) (cl_copies c) (cl_callbacks c) stamp (cl_stampValue c)
         (mkLinear cmdRange 0) (newRangeAllocator standaloneRange) (cl_sync c) (cl_stopped c)).

Definition getCmdSpaceAligned (c : ChannelClient) (size alignment : Z) : res (Z * ChannelClient) :=
  let (addr, heap) := linear_allocate (cl_cmdHeap c) size alignment in
  match addr with
  | None => Abort
  | Some addr => Ret (addr, set_cmdHeap c heap)
  end.

(** [getCmdSpace<MessageT>(dynamicSize)] *)
Definition getCmdSpace (c : ChannelClient) (sizeofMessage dynamicSize : Z) : res (Z * ChannelClient) :=
  getCmdSpaceAligned c (u64 (sizeofMessage + dynamicSize)) defaultAlignmentSize.

Definition getStandaloneSpaceAligned (c : ChannelClient) (size alignment : Z) : res (Z * ChannelClient) :=
  '(addr, heap) ← address_allocate (cl_standaloneHeap c) size alignment;
  if addr =? 0 then Abort else Ret (addr, set_standaloneHeap c heap).

Definition getStandaloneSpace (c : ChannelClient) (size : Z) : res (Z * ChannelClient) :=
  getStandaloneSpaceAligned c size defaultAlignmentSize.

Definition freeSpace (c : ChannelClient) (ptr : Z) : res ChannelClient :=
  heap ← address_free (cl_standaloneHeap c) ptr; Ret (set_standaloneHeap c heap).

Definition allocateCompletionStamp (c : ChannelClient) : Z * ChannelClient :=
  (cl_stamp c, set_stampValue c CompletionStampNotReady).

(** Entries of the ring for a command and its (optional) stamp. *)
Definition ringEntry (c : ChannelClient) (command : Z) (completionStamp : option Z) : RingEntry :=
  mkEntry (getAsShmemOffset (cl_shmem c) command)
    (match completionStamp with
     | Some stamp => getAsShmemOffset (cl_shmem c) stamp
     | None => invalidOffsetWithinChannel
     end).

(** The turns of the service before each attempt of a submission. *)
Record schedule := mkSchedule { k1 : nat; k2 : nat; k3 : nat; k4 : nat; k5 : nat }.

Definition client_submit (c : ChannelClient) (command : Z) (completionStamp : option Z) (batched : bool)
  (ks : schedule) : res (ChannelClient * bool * list RingEntry) :=
  '(r, ok, out) ← submitCommand (cl_ring c) (ringEntry c command completionStamp) batched
                    (k1 ks) (k2 ks) (k3 ks) (k4 ks) (k5 ks);
  Ret (set_ring c r, ok, out).

(** The service beside a call: [running] is the entry whose command it executes.  In a turn it
    finishes that command — the stamp it came with is written —, or takes the next entry. *)
Definition signals (c : ChannelClient) (e : RingEntry) : bool :=
  completionStampOffset e =? getAsShmemOffset (cl_shmem c) (cl_stamp c).

Definition finishEntry (c : ChannelClient) (e : RingEntry) : ChannelClient :=
  if signals c e then set_stampValue c CompletionStampReady else c.

Definition serviceTurn (c : ChannelClient) (running : option RingEntry) : res (ChannelClient * option RingEntry) :=
  match running with
  | Some e => Ret (finishEntry c e, None)
  | None =>
      if peekEmpty (cl_ring c) then Ret (c, None)
      else e ← peekHead (cl_ring c); Ret (set_ring c (fst (pop (cl_ring c))), Some e)
  end.

Fixpoint serviceTurns (n : nat) (c : ChannelClient) (running : option RingEntry) : res (ChannelClient * option RingEntry) :=
  match n with
  | O => Ret (c, running)
  | S n => '(c, running) ← serviceTurn c running; serviceTurns n c running
  end.

(** The entries that the service took during a submission were executed in turn. *)
Fixpoint serviceTook (c : ChannelClient) (running : option RingEntry) (out : list RingEntry) : ChannelClient * option RingEntry :=
  match out with
  | [] => (c, running)
  | e :: out => serviceTook (match running with Some e => finishEntry c e | None => c end) (Some e) out
  end.

(** The loops of [activeWait] and [semaphoreWait]: before each look at the stamp the service
    has some turns; the stop flag is looked at when the stamp is not ready. *)
Fixpoint pollStamp (c : ChannelClient) (running : option RingEntry) (obs : list (nat * bool))
  : res (ChannelClient * option RingEntry * bool) :=
  match obs with
  | [] => Undef
  | (turns, stopped) :: obs =>
      '(c, running) ← serviceTurns turns c running;
      if negb (cl_stampValue c =? CompletionStampNotReady) then Ret (c, running, true)
      else if (stopped : bool) then Ret (c, running, false)
      else pollStamp c running obs
  end.

Definition activeWait := pollStamp.

(** The stop flag is looked at first, once the semaphore was taken. *)
Definition semaphoreWait (stoppedAfterSemaphore : bool) (c : ChannelClient) (running : option RingEntry) (obs : list (nat * bool))
  : res (ChannelClient * option RingEntry * bool) :=
  if stoppedAfterSemaphore then Ret (c, running, false) else pollStamp c running obs.

Definition waitForStamp (messageFlags : Z) (stoppedAfterSemaphore : bool) (c : ChannelClient) (running : option RingEntry) (obs : list (nat * bool))
  : res (ChannelClient * option RingEntry * bool) :=
  if negb (Z.land messageFlags flag_signalSemaphoreOnCompletion =? 0)
  then semaphoreWait stoppedAfterSemaphore c running obs
  else activeWait c running obs.

(** What happens around a synchronous call: the service's turns during the submission, whether
    the service semaphore could be posted, and the service's turns and the stop flag during
    the wait. *)
Record surroundings := mkSurroundings {
  su_schedule : schedule; su_posted : bool; su_stopped : bool; su_obs : list (nat * bool) }.

Definition callSynchronous (c : ChannelClient) (running : option RingEntry) (command flags : Z) (su : surroundings)
  : res (ChannelClient * option RingEntry * bool) :=
  let c := set_stampValue c CompletionStampNotReady in
  '(c, ok, out) ← client_submit c command (Some (cl_stamp c)) false (su_schedule su);
  let (c, running) := serviceTook c running out in
  if negb ok then Ret (c, running, false)
  else if bool_decide (cl_sync c = semaphores) && negb (su_posted su) then Ret (c, running, false)
  else
    '(c, running, ready) ← waitForStamp flags (su_stopped su) c running (su_obs su);
    if negb ready then Ret (c, running, false)
    else Ret (set_cmdHeap c (linear_free (cl_cmdHeap c)), running, true).

(** Posts of the service semaphore are the third component. *)
Definition callAsynchronous (c : ChannelClient) (command flags : Z) (batched : bool) (ks : schedule)
  : res (ChannelClient * Z * bool * list RingEntry) :=
  let flags := if batched then Z.lor flags flag_batched else flags in
  '(c, _, out) ← client_submit c command None batched ks;
  Ret (c, flags, negb batched && bool_decide (cl_sync c = semaphores), out).

(** [waitForCallbacks]: woken up, not stopped, and something to take. *)
Definition waitForCallbacks (c : ChannelClient) : bool :=
  if cl_stopped c then false else negb (peekEmpty (cl_callbacks c)).

Definition acquireHostptrCopiesUpdate (c : ChannelClient) : res (TransferDesc * ChannelClient) :=
  if peekEmpty (cl_copies c) then Ret (emptyTransfer, c)
  else
    locationToUpdate ← peekHead (cl_copies c);
    Ret (locationToUpdate, set_copies c (fst (pop (cl_copies c)))).

Definition popCompletedCallbackId (c : ChannelClient) : res (CallbackIdT * ChannelClient) :=
  if peekEmpty (cl_callbacks c) then Ret (emptyCallback, c)
  else
    callbackId ← peekHead (cl_callbacks c);
    Ret (callbackId, set_callbacks c (fst (pop (cl_callbacks c)))).

Definition peekCompletedCallbackId (c : ChannelClient) : res CallbackIdT :=
  if peekEmpty (cl_callbacks c) then Ret emptyCallback else peekHead (cl_callbacks c).

(** * The service's side *)

Record CommandPacket := mkPacket { pk_command : Z; pk_commandMaxSize : Z; pk_completionStamp : Z }.

Definition emptyPacket : CommandPacket := mkPacket 0 0 0.

Record ChannelServer := mkServer {
  sv_shmem : Z;
  sv_layout : CommandsChannelLayout;
  sv_ring : TypedRing RingEntry;
  sv_copies : TypedRing TransferDesc;
  sv_callbacks : TypedRing CallbackIdT;
  sv_sync : ServiceSynchronizationMethod;
  sv_stopped : bool
}.

Definition packetOf (s : ChannelServer) (e : RingEntry) : CommandPacket :=
  mkPacket (getAsLocalAddress (sv_shmem s) (messageOffset e))
    (u64 (clientHeapEnd (sv_layout s) - messageOffset e))
    (if completionStampOffset e =? invalidOffsetWithinChannel then 0
     else getAsLocalAddress (sv_shmem s) (completionStampOffset e)).

(** The common end of [activeWait] and [semaphoreWait]: a non-empty ring. *)
Definition takeCommand (s : ChannelServer) : res (CommandPacket * ChannelServer) :=
  newRequest ← peekHead (sv_ring s);
  Ret (packetOf s newRequest,
       mkServer (sv_shmem s) (sv_layout s) (fst (pop (sv_ring s))) (sv_copies s) (sv_callbacks s)
         (sv_sync s) (sv_stopped s)).

(** [wait]: each observation is the ring as the client left it and the stop flag. *)
Fixpoint server_wait (s : ChannelServer) (obs : list (TypedRing RingEntry * bool))
  : res (CommandPacket * ChannelServer) :=
  match sv_sync s with
  | syncUnknown => Ret (emptyPacket, s)
  | _ =>
      match obs with
      | [] => Undef
      | (r, stopped) :: obs =>
          let s := mkServer (sv_shmem s) (sv_layout s) r (sv_copies s) (sv_callbacks s) (sv_sync s) stopped in
          if negb (peekEmpty r) then takeCommand s
          else if (stopped : bool) then Ret (emptyPacket, s)
          else server_wait s obs
      end
  end.

(** The stamp is written; the second component says whether the client's
    semaphore is posted. *)
Definition signalCompletion (messageFlags : Z) : Z * bool :=
  (CompletionStampReady, negb (Z.land messageFlags flag_signalSemaphoreOnCompletion =? 0)).

Definition pushHostptrCopyToUpdate (s : ChannelServer) (transferDesc : TransferDesc) : res (ChannelServer * bool) :=
  '(r, ok) ← push (sv_copies s) transferDesc false;
  Ret (mkServer (sv_shmem s) (sv_layout s) (sv_ring s) r (sv_callbacks s) (sv_sync s) (sv_stopped s), ok).

Definition pushCompletedCallbackId (s : ChannelServer) (callbackId : CallbackIdT) : res (ChannelServer * bool) :=
  '(r, ok) ← push (sv_callbacks s) callbackId false;
  Ret (mkServer (sv_shmem s) (sv_layout s) (sv_ring s) (sv_copies s) r (sv_sync s) (sv_stopped s), ok).

(** * Lemmas *)

(** An address inside the channel. *)
Definition inChannel (shmem size a : Z) : Prop := 0 <= shmem /\ shmem <= a < shmem + size /\ shmem + size < W64 /\ size < half.

Lemma offset_of shmem size a : inChannel shmem size a -> getAsShmemOffset shmem a = a - shmem.
Proof.
  unfold inChannel, half. intros (H0 & H1 & H2 & H3). unfold getAsShmemOffset. apply byteDistanceAbs_sub; word_unfold; lia.
Qed.

Lemma local_of shmem off : 0 <= shmem -> 0 <= off -> shmem + off < W64 -> getAsLocalAddress shmem off = shmem + off.
Proof. intros. unfold getAsLocalAddress, moveByBytes. apply u64_id. word_unfold. lia. Qed.

(** The packet that the service makes of the client's entry. *)
Lemma packet_of_entry c s size command stamp :
  inChannel (cl_shmem c) size command -> inChannel (sv_shmem s) size (sv_shmem s + (command - cl_shmem c)) ->
  (forall a, stamp = Some a -> inChannel (cl_shmem c) size a /\ inChannel (sv_shmem s) size (sv_shmem s + (a - cl_shmem c)) /\
     0 < sv_shmem s) ->
  clientHeapEnd (sv_layout s) = size ->
  let p := packetOf s (ringEntry c command stamp) in
  pk_command p = sv_shmem s + (command - cl_shmem c) /\
  pk_commandMaxSize p = cl_shmem c + size - command /\
  match stamp with
  | None => pk_completionStamp p = 0
  | Some a => pk_completionStamp p = sv_shmem s + (a - cl_shmem c) /\ pk_completionStamp p <> 0
  end.
Proof.
  intros Hc Hs Ha Hend p. unfold p, packetOf, ringEntry. cbn [messageOffset completionStampOffset pk_command pk_commandMaxSize pk_completionStamp].
  rewrite (offset_of _ size command) by done. unfold inChannel in Hc, Hs.
  rewrite local_of by lia. split; [done|]. split; [rewrite Hend, u64_id by (word_unfold; lia); lia|].
  destruct stamp as [a|]; [|done]. destruct (Ha a eq_refl) as (Hca & Hsa & Hp).
  rewrite (offset_of _ size a) by done. unfold inChannel in Hca, Hsa. unfold invalidOffsetWithinChannel.
  rewrite (proj2 (Z.eqb_neq _ _)) by lia. rewrite local_of by lia. split; [done|lia].
Qed.

(** The service's wait on its first look at the ring. *)
Lemma server_wait_taken s r stopped obs :
  sv_sync s <> syncUnknown -> peekEmpty r = false ->
  server_wait s ((r, stopped) :: obs) =
    takeCommand (mkServer (sv_shmem s) (sv_layout s) r (sv_copies s) (sv_callbacks s) (sv_sync s) stopped).
Proof. intros Hs Hr. simpl. destruct (sv_sync s); [done|by rewrite Hr..]. Qed.

Lemma server_wait_idle s r obs :
  sv_sync s <> syncUnknown -> peekEmpty r = true ->
  server_wait s ((r, false) :: obs) =
    server_wait (mkServer (sv_shmem s) (sv_layout s) r (sv_copies s) (sv_callbacks s) (sv_sync s) false) obs.
Proof. intros Hs Hr. simpl. destruct (sv_sync s); [done|by rewrite Hr..]. Qed.

(** The service takes entries in order: once an entry was taken, everything that
    was submitted before it was taken too. *)
Lemma consumed_up_to {D} (k : nat) (r r2 : TypedRing D) l x l2 out :
  ring_ok r -> queue r = l ++ x :: l2 -> x ∉ l -> x ∉ l2 ->
  consume k r ⇓ (r2, out) -> x ∈ out -> exists l', queue r2 = l' /\ suffix l' l2.
Proof.
  intros Hok Hq Hl Hl2 Hc Hin. destruct (consume_correct k r Hok) as (r' & out' & Hc' & _ & Hq' & _ & _).
  rewrite Hc in Hc'. injection Hc' as <- <-. exists (queue r2). split; [done|].
  apply list_elem_of_split in Hin as (o1 & o2 & ->). rewrite Hq, <- app_assoc in Hq'. cbn in Hq'.
  assert (l = o1 /\ l2 = o2 ++ queue r2) as [-> ->]; [|by exists o2].
  clear -Hq' Hl Hl2. revert o1 Hq'. induction l as [|a l IH]; intros [|b o1] Hq'; cbn in *.
  - by injection Hq' as <-.
  - injection Hq' as -> Hq'. exfalso. apply Hl2. rewrite Hq'. apply elem_of_app. right. by left.
  - injection Hq' as -> Hq'. exfalso. apply Hl. by left.
  - injection Hq' as -> Hq'. destruct (IH ltac:(intros ?; apply Hl; by right) o1 Hq') as [-> ->]. done.
Qed.

(** What the service still has to finish, in order. *)
Definition outstanding (c : ChannelClient) (running : option RingEntry) : list RingEntry :=
  option_list running ++ queue (cl_ring c) ++ pending (cl_ring c).

(** Commands without a stamp. *)
Definition asynchronous (l : list RingEntry) : Prop := Forall (fun e => completionStampOffset e = invalidOffsetWithinChannel) l.

(** The rest of the client does not change. *)
Definition same_client (c c' : ChannelClient) : Prop :=
  cl_shmem c' = cl_shmem c /\ cl_stamp c' = cl_stamp c /\ cl_cmdHeap c' = cl_cmdHeap c /\ cl_sync c' = cl_sync c.

(** While the call [el] is under way, it is the last thing the service has to do, and the
    stamp is not ready; afterwards it is, and there is nothing to do. *)
Definition under_way (el : RingEntry) (c : ChannelClient) (running : option RingEntry) : Prop :=
  inv (cl_ring c) /\ pending (cl_ring c) = [] /\
  ((exists l, outstanding c running = l ++ [el] /\ asynchronous l /\ cl_stampValue c = CompletionStampNotReady) \/
   (outstanding c running = [] /\ cl_stampValue c = CompletionStampReady)).

Definition work (c : ChannelClient) (running : option RingEntry) : nat :=
  2 * length (queue (cl_ring c)) + (if running then 1 else 0).

Section call.
Context (shmem stamp : Z) (el : RingEntry).
Hypothesis el_stamp : completionStampOffset el = getAsShmemOffset shmem stamp.
Hypothesis stamp_valid : getAsShmemOffset shmem stamp <> invalidOffsetWithinChannel.

Definition ours (c : ChannelClient) : Prop := cl_shmem c = shmem /\ cl_stamp c = stamp.

Lemma signals_el c : ours c -> signals c el = true.
Proof using el_stamp. intros [H1 H2]. unfold signals. rewrite H1, H2, el_stamp. apply Z.eqb_refl. Qed.

Lemma signals_async c e : ours c -> completionStampOffset e = invalidOffsetWithinChannel -> signals c e = false.
Proof using stamp_valid. intros [H1 H2] He. unfold signals. rewrite H1, H2, He. apply Z.eqb_neq. congruence. Qed.

Lemma turn_ok c running : ours c -> under_way el c running ->
  exists c' running', serviceTurn c running ⇓ (c', running') /\ ours c' /\ same_client c c' /\ under_way el c' running' /\
    work c' running' = pred (work c running).
Proof using el_stamp stamp_valid.
  intros Ho (Hi & Hp & Hcase). unfold serviceTurn. destruct running as [e|].
  - exists (finishEntry c e), None. split; [done|]. unfold finishEntry.
    destruct Hcase as [(l & Hl & Ha & Hs)|[H0 _]]; [|done]. unfold outstanding in Hl. cbn in Hl. rewrite Hp, app_nil_r in Hl. destruct l as [|e' l].
    + injection Hl as -> Hq. rewrite signals_el by done. split; [done|]. split; [done|]. split; [|unfold work; cbn; lia].
      split; [done|]. split; [done|]. right. unfold outstanding. cbn. by rewrite Hq, Hp.
    + injection Hl as -> Hq. apply Forall_cons in Ha as [He Ha]. rewrite signals_async by done. split; [done|]. split; [done|]. split; [|unfold work; cbn; lia].
      split; [done|]. split; [done|]. left. exists l. unfold outstanding. cbn. by rewrite Hq, Hp, app_nil_r.
  - destruct (peekEmpty (cl_ring c)) eqn:He.
    { exists c, None. split; [done|]. split; [done|]. split; [done|]. split; [done|]. unfold work.
      by rewrite (proj1 (peekEmpty_queue _ (inv_ok _ Hi)) He). }
    destruct (pop_correct _ (inv_ok _ Hi) He) as (e & -> & _ & Hq & Hp' & Hok & Hcnt & _). cbn [mbind res_bind]. eexists _, _. split; [done|].
    destruct (inv_consumer _ _ Hi Hok (pop_same _) ltac:(lia)) as [Hi' _].
    split; [done|]. split; [done|]. split; [|unfold work; cbn [cl_ring set_ring]; rewrite Hq; cbn; lia].
    split; [done|]. split; [cbn [cl_ring set_ring]; by rewrite Hp'|]. unfold outstanding in *. cbn [cl_ring set_ring option_list app cl_stampValue] in *.
    rewrite Hp', Hp, app_nil_r in *. rewrite Hq in Hcase. exact Hcase.
Qed.

Lemma turns_ok n c running : ours c -> under_way el c running ->
  exists c' running', serviceTurns n c running ⇓ (c', running') /\ ours c' /\ same_client c c' /\ under_way el c' running' /\
    (work c' running' = work c running - n)%nat.
Proof using el_stamp stamp_valid.
  revert c running. induction n as [|n IH]; intros c running Ho Hu; cbn [serviceTurns].
  - exists c, running. split_and!; try done. lia.
  - destruct (turn_ok c running Ho Hu) as (c1 & r1 & -> & Ho1 & Hs1 & Hu1 & Hw1). cbn [mbind res_bind].
    destruct (IH c1 r1 Ho1 Hu1) as (c2 & r2 & H2 & Ho2 & Hs2 & Hu2 & Hw2). exists c2, r2. split_and!; try done; [|lia].
    unfold same_client in *. intuition congruence.
Qed.

Lemma poll_ok obs c running c' running' ready : ours c -> under_way el c running -> pollStamp c running obs ⇓ (c', running', ready) ->
  same_client c c' /\ under_way el c' running' /\ (ready = true -> cl_stampValue c' <> CompletionStampNotReady).
Proof using el_stamp stamp_valid.
  revert c running. induction obs as [|[n stopped] obs IH]; intros c running Ho Hu; cbn [pollStamp]; [done|].
  destruct (turns_ok n c running Ho Hu) as (c1 & r1 & -> & Ho1 & Hs1 & Hu1 & _). cbn [mbind res_bind].
  destruct (Z.eqb_spec (cl_stampValue c1) CompletionStampNotReady) as [Hn|Hn]; cbn [negb].
  - destruct stopped; [by intros [= <- <- <-]|]. intros Hpoll. destruct (IH c1 r1 Ho1 Hu1 Hpoll) as (Hs2 & Hr). split; [|exact Hr].
    unfold same_client in *. intuition congruence.
  - by intros [= <- <- <-].
Qed.

(** With enough turns the stamp is ready. *)
Lemma poll_ready n stopped obs c running : ours c -> under_way el c running -> (work c running <= n)%nat ->
  exists c' running', pollStamp c running ((n, stopped) :: obs) ⇓ (c', running', true).
Proof using el_stamp stamp_valid.
  intros Ho Hu Hn. cbn [pollStamp]. destruct (turns_ok n c running Ho Hu) as (c1 & r1 & -> & Ho1 & Hs1 & Hu1 & Hw). cbn [mbind res_bind].
  destruct Hu1 as (_ & Hp & [(l & Hl & _)|[_ ->]]); [|by eexists _, _].
  exfalso. unfold work in Hw. unfold outstanding in Hl. rewrite Hp, app_nil_r in Hl. destruct r1, (queue (cl_ring c1)); cbn in *; try lia. by destruct l.
Qed.

(** Once the submission is over. *)
Lemma took_under_way out c running q : ours c -> inv (cl_ring c) -> pending (cl_ring c) = [] -> queue (cl_ring c) = q ->
  cl_stampValue c = CompletionStampNotReady -> (exists l, option_list running ++ out ++ q = l ++ [el] /\ asynchronous l) ->
  let (c', running') := serviceTook c running out in ours c' /\ same_client c c' /\ cl_ring c' = cl_ring c /\ under_way el c' running'.
Proof using el_stamp stamp_valid.
  revert c running. induction out as [|e out IH]; intros c running Ho Hi Hp Hq Hs (l & Hl & Ha); cbn [serviceTook].
  - split; [done|]. split; [done|]. split; [done|]. split; [done|]. split; [done|]. left. exists l. unfold outstanding. by rewrite Hp, app_nil_r, Hq.
  - assert (Hsame : match running with Some e => finishEntry c e | None => c end = c).
    { destruct running as [e'|]; [|done]. unfold finishEntry. destruct l as [|e2 l]; [by destruct e', out|]. injection Hl as -> _.
      apply Forall_cons in Ha as [He _]. by rewrite signals_async. }
    rewrite Hsame. apply IH; try done. destruct running as [e'|]; [|by exists l].
    destruct l as [|e2 l]; [by destruct e', out|]. injection Hl as -> Hl. apply Forall_cons in Ha as [_ Ha]. exists l. by split.
Qed.

End call.

(** What the service has to do once a call was submitted. *)
Lemma call_submitted c running command ks :
  inv (cl_ring c) -> batchCounter (cl_ring c) + 1 < capacity (cl_ring c) -> asynchronous (outstanding c running) ->
  getAsShmemOffset (cl_shmem c) (cl_stamp c) <> invalidOffsetWithinChannel ->
  let c0 := set_stampValue c CompletionStampNotReady in
  let el := ringEntry c command (Some (cl_stamp c)) in
  exists c1 out, client_submit c0 command (Some (cl_stamp c)) false ks ⇓ (c1, true, out) /\
    let (c2, running2) := serviceTook c1 running out in
    ours (cl_shmem c) (cl_stamp c) c2 /\ same_client c c2 /\ under_way el c2 running2 /\
    (work c2 running2 <= 2 * length (outstanding c running) + 3)%nat.
Proof.
  intros Hi Hroom Hasync Hoff c0 el.
  destruct (submit_correct (cl_ring c) el false (k1 ks) (k2 ks) (k3 ks) (k4 ks) (k5 ks) Hi Hroom) as (r' & out & Hs & Hir & Hall & Hpub).
  destruct (Hpub eq_refl) as [Hp _]. rewrite Hp, app_nil_r in Hall. exists (set_ring c0 r'), out. split.
  { unfold client_submit. change (ringEntry c0 command (Some (cl_stamp c))) with el. change (cl_ring c0) with (cl_ring c). by rewrite Hs. }
  assert (Hl : option_list running ++ out ++ queue r' = outstanding c running ++ [el]).
  { unfold outstanding. rewrite Hall, <- !app_assoc. done. }
  pose proof (took_under_way (cl_shmem c) (cl_stamp c) el eq_refl Hoff out (set_ring c0 r') running (queue r')) as Htook.
  specialize (Htook (conj eq_refl eq_refl) Hir Hp eq_refl eq_refl (ex_intro _ _ (conj Hl Hasync))).
  destruct (serviceTook (set_ring c0 r') running out) as [c2 running2]. destruct Htook as (Ho & Hsame & Hring & Hu).
  split; [done|]. split; [exact Hsame|]. split; [done|]. unfold work. rewrite Hring. cbn [set_ring cl_ring].
  pose proof (f_equal length Hl) as Hlen. rewrite !length_app in Hlen. cbn [length] in Hlen. destruct running2; lia.
Qed.

(** * Properties *)

(** C7: Resetting the command heap after a synchronous call is safe, beside a service that
    takes the entries in order and writes the stamp of a command when it has executed it,
    whatever asynchronous and batched commands were submitted before (as long as the batch
    leaves two slots of the ring free) and however the service is scheduled: when
    [callSynchronous] returns true, no entry is published or pending and the service
    executes nothing, so that nothing refers to the heap that was reset.  And it does return
    true once the service has had its turns, two for each command and one more. *)
Theorem callSynchronous_heap_reset_safe c running command flags su :
  inv (cl_ring c) -> batchCounter (cl_ring c) + 1 < capacity (cl_ring c) -> asynchronous (outstanding c running) ->
  getAsShmemOffset (cl_shmem c) (cl_stamp c) <> invalidOffsetWithinChannel ->
  (forall c' running', callSynchronous c running command flags su ⇓ (c', running', true) ->
    linSizeUsed (cl_cmdHeap c') = 0 /\ vaRange (cl_cmdHeap c') = vaRange (cl_cmdHeap c) /\
    inv (cl_ring c') /\ queue (cl_ring c') = [] /\ pending (cl_ring c') = [] /\ running' = None) /\
  (forall n stopped obs, su_posted su = true -> su_stopped su = false -> su_obs su = (n, stopped) :: obs ->
    (2 * length (outstanding c running) + 3 <= n)%nat ->
    exists c', callSynchronous c running command flags su ⇓ (c', None, true)).
Proof.
  intros Hi Hroom Hasync Hoff. destruct (call_submitted c running command (su_schedule su) Hi Hroom Hasync Hoff) as (c1 & out & Hs & Htook).
  unfold callSynchronous. cbn [set_stampValue cl_stamp]. rewrite Hs. cbn [mbind res_bind negb].
  destruct (serviceTook c1 running out) as [c2 r2]. destruct Htook as (Ho & Hsame & Hu & Hw).
  assert (Hend : forall c3 r3, under_way (ringEntry c command (Some (cl_stamp c))) c3 r3 -> cl_stampValue c3 <> CompletionStampNotReady ->
    inv (cl_ring c3) /\ queue (cl_ring c3) = [] /\ pending (cl_ring c3) = [] /\ r3 = None).
  { intros c3 r3 (Hi3 & Hp3 & [(l & _ & _ & Hn)|[Hn _]]) Hne; [done|]. unfold outstanding in Hn. rewrite Hp3, app_nil_r in Hn.
    apply app_eq_nil in Hn as [Hr3 Hq3]. split; [done|]. split; [done|]. split; [done|]. by destruct r3. }
  split.
  - intros c' running'. destruct (_ && _); [done|]. intros ([[c3 r3] ready] & Hwait & Hcall)%res_bind_Ret.
    destruct ready; cbn [negb] in Hcall; [|done]. injection Hcall as <- <-.
    assert (Hpoll : pollStamp c2 r2 (su_obs su) ⇓ (c3, r3, true)).
    { unfold waitForStamp, semaphoreWait, activeWait in Hwait. destruct (negb _); [|done]. by destruct (su_stopped su). }
    destruct (poll_ok (cl_shmem c) (cl_stamp c) (ringEntry c command (Some (cl_stamp c))) eq_refl Hoff _ _ _ _ _ _ Ho Hu Hpoll) as (Hs3 & Hu3 & Hready). destruct (Hend _ _ Hu3 (Hready eq_refl)) as (H1 & H2 & H3 & H4).
    cbn [set_cmdHeap cl_cmdHeap cl_ring linear_free linSizeUsed vaRange]. unfold same_client in *. split_and!; try done. intuition congruence.
  - intros n stopped obs Hpost Hstop Hobs Hn. rewrite Hpost, andb_false_r, Hstop, Hobs.
    destruct (poll_ready (cl_shmem c) (cl_stamp c) (ringEntry c command (Some (cl_stamp c))) eq_refl Hoff n stopped obs c2 r2 Ho Hu ltac:(lia)) as (c3 & r3 & Hpoll).
    destruct (poll_ok (cl_shmem c) (cl_stamp c) (ringEntry c command (Some (cl_stamp c))) eq_refl Hoff _ _ _ _ _ _ Ho Hu Hpoll) as (_ & Hu3 & Hready). destruct (Hend _ _ Hu3 (Hready eq_refl)) as (_ & _ & _ & ->).
    assert (Hwait : waitForStamp flags false c2 r2 ((n, stopped) :: obs) ⇓ (c3, None, true)).
    { unfold waitForStamp, semaphoreWait, activeWait. by destruct (negb _). }
    rewrite Hwait. by eexists.
Qed.

(** A client of the example channel with an asynchronous command in the ring. *)
Definition exampleClient : ChannelClient :=
  mkClient 65536 exampleLayout
    (mkRing [mkEntry 49152 (-1); mkEntry 0 0; mkEntry 0 0; mkEntry 0 0] 4 0 1 0 0)
    (mkRing [emptyTransfer; emptyTransfer] 2 0 0 0 0) (mkRing [emptyCallback; emptyCallback] 2 0 0 0 0)
    73728 0 (mkLinear (mkRange 114688 364544) 512) (newRangeAllocator (mkRange 364544 1114112)) activePolling false.

Lemma callSynchronous_heap_reset_safe_witness :
  exists c', callSynchronous exampleClient None 114944 0 (mkSurroundings (mkSchedule 0 0 0 0 0) true false [(1%nat, false); (9%nat, false)])
               ⇓ (c', None, true) /\ linSizeUsed (cl_cmdHeap c') = 0 /\ queue (cl_ring c') = [].
Proof.
  destruct (callSynchronous_heap_reset_safe exampleClient None 114944 0 (mkSurroundings (mkSchedule 0 0 0 0 0) true false [(1%nat, false); (9%nat, false)]))
    as [H _]; [constructor; vm_compute; intuition congruence|vm_compute; reflexivity|repeat constructor|vm_compute; congruence|].
  eexists. split; [vm_compute; reflexivity|]. destruct (H _ _ ltac:(vm_compute; reflexivity)) as (H1 & _ & _ & H2 & _). by split.
Defined.

(** The two heaps of the client partition its part of the channel: inside
    the channel the service accepted, the command heap gets the first quarter,
    the standalone heap the rest, they meet without overlap, and both start out
    empty in the sense of their allocators' invariants. *)
Theorem client_heaps_partition c size :
  serverPartition size (cl_layout c) ⇓ true -> 0 <= cl_shmem c -> cl_shmem c + size < half ->
  clientHeapEnd (cl_layout c) = size -> clientHeapStart (cl_layout c) + 4096 <= size ->
  exists c', initHeaps c ⇓ c' /\
    start (vaRange (cl_cmdHeap c')) = cl_shmem c + clientHeapStart (cl_layout c) /\
    end_ (vaRange (cl_cmdHeap c')) = start (getRange (cl_standaloneHeap c')) /\
    end_ (getRange (cl_standaloneHeap c')) = cl_shmem c + size /\
    rsize (vaRange (cl_cmdHeap c')) = (size - clientHeapStart (cl_layout c)) / 4 /\
    linSizeUsed (cl_cmdHeap c') = 0 /\ ra_ok (cl_standaloneHeap c') /\ flat (vma (cl_standaloneHeap c')) = [].
Proof.
  intros Hsp Hsh Hhalf Hend Hroom. unfold half in *. unfold serverPartition in Hsp.
  destruct (layout_isValid (cl_layout c)) eqn:Hv; [|done].
  apply layout_isValid_iff in Hv. unfold layout_fields in Hv. rewrite !Forall_cons in Hv. cbn in Hv.
  assert (Hs0 : 0 <= clientHeapStart (cl_layout c)) by tauto. clear Hv Hsp.
  set (s := clientHeapStart (cl_layout c)) in *. unfold initHeaps. rewrite Hend. fold s.
  set (q := Z.quot (size - s) 4). assert (Hq : 4 * q <= size - s < 4 * q + 4 /\ 1024 <= q).
  { unfold q. rewrite Z.quot_div_nonneg by lia. Z.div_mod_to_equations. lia. }
  assert (Hqd : q = (size - s) / 4) by (unfold q; apply Z.quot_div_nonneg; lia).
  rewrite (local_of _ s), (local_of _ (s + q)) by lia. rewrite !(u64_id q), (u64_id (size - s - q)) by (word_unfold; lia).
  rewrite !rangeOfSize_ok by lia. cbn [mbind res_bind]. eexists. split; [done|].
  cbn [cl_cmdHeap cl_standaloneHeap vaRange linSizeUsed start end_ getRange newRangeAllocator vma getBoundingRange desc leaf].
  split; [done|]. split; [simpl; lia|]. split; [simpl; lia|]. split; [unfold rsize; simpl; rewrite u64_id by (word_unfold; lia); lia|].
  split; [done|]. split; [|done]. apply fresh_ok; simpl; unfold half; lia.
Qed.

Lemma client_heaps_partition_witness :
  exists c', initHeaps exampleClient ⇓ c' /\ rsize (vaRange (cl_cmdHeap c')) = 249856.
Proof.
  destruct (client_heaps_partition exampleClient 1048576) as (c' & H & _ & _ & _ & Hr & _);
    [vm_compute; reflexivity|simpl; lia|unfold half; simpl; lia|done|simpl; lia|].
  exists c'. split; [done|]. by rewrite Hr.
Defined.

(** A command arrives at the service as it was sent: when the entry that the
    client made of a command is the oldest of the ring, the service's wait takes
    exactly it, after any number of looks at an empty ring, and decodes it to the
    command and the completion stamp at the same offsets of its own mapping of the
    channel, with the distance to the end of the channel as the size limit; a
    command without a stamp arrives as one with a null stamp. *)
Theorem command_arrives c s size command stamp empties r stopped obs rest :
  inChannel (cl_shmem c) size command -> 0 < sv_shmem s -> sv_shmem s + size < W64 ->
  from_option (inChannel (cl_shmem c) size) True stamp ->
  clientHeapEnd (sv_layout s) = size -> sv_sync s <> syncUnknown ->
  Forall (fun r => peekEmpty r = true) empties -> inv r -> queue r = ringEntry c command stamp :: rest ->
  exists p s', server_wait s (map (fun r => (r, false)) empties ++ (r, stopped) :: obs) ⇓ (p, s') /\
    pk_command p = sv_shmem s + (command - cl_shmem c) /\
    pk_commandMaxSize p = cl_shmem c + size - command /\
    pk_completionStamp p = from_option (fun a => sv_shmem s + (a - cl_shmem c)) 0 stamp /\
    (pk_completionStamp p = 0 <-> stamp = None) /\
    queue (sv_ring s') = rest /\ sv_layout s' = sv_layout s /\ sv_shmem s' = sv_shmem s.
Proof.
  intros Hc Hsp Hs Ha Hend Hsync He Hinv Hq. revert s Hsp Hs Hend Hsync.
  induction He as [|r0 l Hr0 _ IH]; intros s Hsp Hs Hend Hsync.
  - assert (Hne : peekEmpty r = false).
    { apply not_true_iff_false. rewrite peekEmpty_queue by by apply inv_ok. by rewrite Hq. }
    destruct (pop_correct r (inv_ok _ Hinv) Hne) as (x & Hx & _ & Hpop & _). rewrite Hq in Hpop. injection Hpop as <- Hrest.
    pose (s0 := mkServer (sv_shmem s) (sv_layout s) r (sv_copies s) (sv_callbacks s) (sv_sync s) stopped).
    exists (packetOf s0 (ringEntry c command stamp)), (mkServer (sv_shmem s) (sv_layout s) (fst (pop r)) (sv_copies s) (sv_callbacks s) (sv_sync s) stopped).
    split; [cbn [map app]; rewrite server_wait_taken by done; unfold takeCommand; cbn [sv_ring]; by rewrite Hx|].
    destruct (packet_of_entry c s0 size command stamp) as (H1 & H2 & H3); cbn [s0 sv_shmem sv_layout] in *;
      [done|unfold inChannel in *; lia| |done|].
    { intros a ->. simpl in Ha. unfold inChannel in *. lia. }
    split; [done|]. split; [done|]. destruct stamp as [a|]; cbn in *; intuition (congruence || lia).
  - destruct (IH (mkServer (sv_shmem s) (sv_layout s) r0 (sv_copies s) (sv_callbacks s) (sv_sync s) false)) as (p & s' & Hw & H);
      [done..|]. exists p, s'. split; [|done]. cbn [map app]. rewrite server_wait_idle by done. exact Hw.
Qed.

Lemma command_arrives_witness :
  exists p s', server_wait (mkServer 1048576 exampleLayout (cl_ring exampleClient) (cl_copies exampleClient)
                              (cl_callbacks exampleClient) semaphores false)
                 [(mkRing [mkEntry 49152 (-1); mkEntry 0 0; mkEntry 0 0; mkEntry 0 0] 4 0 0 0 0, false);
                  (cl_ring exampleClient, false)] ⇓ (p, s') /\
    pk_command p = 1048576 + 49152 /\ pk_completionStamp p = 0.
Proof.
  destruct (command_arrives exampleClient
              (mkServer 1048576 exampleLayout (cl_ring exampleClient) (cl_copies exampleClient)
                 (cl_callbacks exampleClient) semaphores false) 1048576 (65536 + 49152) None
              [mkRing [mkEntry 49152 (-1); mkEntry 0 0; mkEntry 0 0; mkEntry 0 0] 4 0 0 0 0]
              (cl_ring exampleClient) false [] []) as (p & s' & H & H1 & _ & H2 & _);
    [unfold inChannel, half; simpl; lia|simpl; lia|simpl; lia|done|done|done|repeat constructor
    |constructor; vm_compute; intuition congruence|vm_compute; reflexivity|].
  exists p, s'. split; [exact H|]. split; [rewrite H1; reflexivity|exact H2].
Defined.
