(* ===== verification/Kernel.v ===== *)
(** The operating system calls of shared/sys.h, which the repository reaches
    through function pointers, as an interface: a state of the kernel and one
    operation per call.  [KernelLaws] states the documented behaviour that the
    components rely on, and [Toy] is a small kernel with those laws that the
    concrete examples run on. *)

From stdpp Require Import strings.
From S2P Require Import Prelude.
From S2P Require Import Align.
From S2P Require Import RangeAlloc.

(** Where [mmap] is told to put a mapping: [addr] is null, [MAP_FIXED] or
    [MAP_FIXED_NOREPLACE]. *)
Inductive Placement : Type := Anywhere | Fixed | FixedNoReplace.

#[export] Instance Placement_eq_dec : EqDecision Placement.
Proof. solve_decision. Defined.

(** [shm_unlink] returns 0, or -1 with [ENOENT] or another [errno]. *)
Inductive UnlinkResult : Type := Unlinked | NoEntry | UnlinkError.

#[export] Instance UnlinkResult_eq_dec : EqDecision UnlinkResult.
Proof. solve_decision. Defined.

(** [None] is [MAP_FAILED], or the file descriptor -1; [false] the result -1. *)
Class Kernel (K : Type) := {
  sys_mmap : K -> Placement -> Z -> Z -> Z -> Z -> option Z * K;
  sys_munmap : K -> Z -> Z -> bool * K;
  sys_shm_open : K -> string -> bool -> option Z * K;
  sys_shm_unlink : K -> string -> UnlinkResult * K;
  sys_ftruncate : K -> Z -> Z -> bool * K;
  sys_close : K -> Z -> bool * K
}.

(** Mappings are page aligned and in the user's half of the address space, a
    fixed one is where it was asked for, an empty one fails ([EINVAL]), and file
    descriptors are not negative. *)
Class KernelLaws (K : Type) `{Kernel K} : Prop := {
  mmap_page (k : K) pl addr size fd off p k' :
    sys_mmap k pl addr size fd off = (Some p, k') -> p mod pageSize4KB = 0 /\ 0 < p /\ p + size < half;
  mmap_fixed (k : K) addr size fd off p k' :
    sys_mmap k Fixed addr size fd off = (Some p, k') -> p = addr;
  mmap_fixed_noreplace (k : K) addr size fd off p k' :
    sys_mmap k FixedNoReplace addr size fd off = (Some p, k') -> p = addr;
  mmap_empty (k : K) pl addr fd off :
    fst (sys_mmap k pl addr 0 fd off) = None;
  shm_open_fd (k : K) path create fd k' : sys_shm_open k path create = (Some fd, k') -> 0 <= fd
}.

(** * A small kernel

    Mappings without an address go upwards from [next]; the calls fail when the
    script says so. *)
Module Toy.

Record kernel := mkKernel {
  next : Z;
  nextFd : Z;
  names : list string;
  mmaps : list bool;      (** outcomes of the coming [mmap] calls, then success *)
  opens : list bool;      (** outcomes of the coming [shm_open] calls *)
  truncates : list bool   (** outcomes of the coming [ftruncate] calls *)
}.

Definition fresh : kernel := mkKernel 0x10000000 3 [] [] [] [].

Definition outcome (script : list bool) : bool := hd true script.

Definition placed (k : kernel) (pl : Placement) (addr : Z) : Z :=
  match pl with Anywhere => next k | _ => addr end.

Definition mmap_ok (k : kernel) (pl : Placement) (addr size : Z) : bool :=
  let p := placed k pl addr in
  outcome (mmaps k) && (p mod pageSize4KB =? 0) && (0 <? p) && (p + size <? half) && (0 <? size).

Definition mmap (k : kernel) (pl : Placement) (addr size fd off : Z) : option Z * kernel :=
  let k' next := mkKernel next (nextFd k) (names k) (tl (mmaps k)) (opens k) (truncates k) in
  if mmap_ok k pl addr size
  then (Some (placed k pl addr), k' (match pl with Anywhere => next k + alignUp size pageSize4KB | _ => next k end))
  else (None, k' (next k)).

Definition munmap (k : kernel) (addr size : Z) : bool * kernel := (true, k).

Definition shm_open (k : kernel) (path : string) (create : bool) : option Z * kernel :=
  let k' fd names := mkKernel (next k) fd names (mmaps k) (tl (opens k)) (truncates k) in
  if outcome (opens k) && (0 <=? nextFd k)
     && (if create then negb (bool_decide (path ∈ names k)) else bool_decide (path ∈ names k))
  then (Some (nextFd k), k' (nextFd k + 1) (if create then path :: names k else names k))
  else (None, k' (nextFd k) (names k)).

Definition shm_unlink (k : kernel) (path : string) : UnlinkResult * kernel :=
  if bool_decide (path ∈ names k)
  then (Unlinked, mkKernel (next k) (nextFd k) (base.filter (fun n => n <> path) (names k)) (mmaps k) (opens k) (truncates k))
  else (NoEntry, k).

Definition ftruncate (k : kernel) (fd size : Z) : bool * kernel :=
  (outcome (truncates k), mkKernel (next k) (nextFd k) (names k) (mmaps k) (opens k) (tl (truncates k))).

Definition close (k : kernel) (fd : Z) : bool * kernel := (true, k).

End Toy.

#[export] Instance toy_kernel : Kernel Toy.kernel := {|
  sys_mmap := Toy.mmap;
  sys_munmap := Toy.munmap;
  sys_shm_open := Toy.shm_open;
  sys_shm_unlink := Toy.shm_unlink;
  sys_ftruncate := Toy.ftruncate;
  sys_close := Toy.close |}.

#[export] Instance toy_laws : KernelLaws Toy.kernel.
Proof.
  split; cbn [sys_mmap sys_shm_open toy_kernel]; unfold Toy.mmap, Toy.shm_open.
  - intros k pl addr size fd off p k'. split_if; [|done]. intros [= <- _]. unfold Toy.mmap_ok in *. bool_prop. done.
  - intros k addr size fd off p k'. split_if; [|done]. by intros [= <- _].
  - intros k addr size fd off p k'. split_if; [|done]. by intros [= <- _].
  - intros k pl addr fd off. unfold Toy.mmap_ok. rewrite Z.ltb_irrefl, andb_false_r. done.
  - intros k path create fd k'. destruct (_ && _ && _) eqn:Hc; [|done]. intros [= <- _]. bool_prop. done.
Qed.
