(* ===== verification/SubAlloc.v ===== *)
(** Allocations and the allocators stacked on each other in
    shared/allocators.h: the decorations of an allocation ([FdAllocation],
    [FdSubAllocation], [MmappedAllocation]), [SubAllocator],
    [AllocatorWithGlobalMmapToFd], [AllocatorWithBoundedMmapToFd] and
    [ArenaAllocator].  The template parameters are the classes [Allocation],
    [FdAllocationLike] and [UnderlyingAllocator]; what an allocator promises to
    the one above it is [UnderlyingLaws]. *)

From S2P Require Import Prelude.
From S2P Require Import Align.
From S2P Require Import Ranges.
From S2P Require Import RangeAlloc.
From S2P Require Import Kernel.

(** * Interfaces *)

(** What every allocation type offers; [noAlloc] is the default-constructed one. *)
Class Allocation (A : Type) := {
  noAlloc : A;
  isValid : A -> bool;
  allocRange : A -> res AddressRange
}.

(** Allocations that are backed by a file ([isFdAllocation]). *)
Class FdAllocationLike (A : Type) := {
  getFd : A -> Z;
  getFileSize : A -> Z;
  getFdOffset : A -> Z
}.

(** An allocator [U] of allocations [A]; it may call the kernel. *)
Class UnderlyingAllocator (K U A : Type) := {
  u_allocate : K -> U -> Z -> Z -> res (A * U * K);
  u_free : K -> U -> A -> res (U * K)
}.

(** * Allocations *)

(** [BaseAllocation] carries nothing and is always valid. *)
#[export] Instance base_allocation : Allocation unit := {|
  noAlloc := tt;
  isValid := fun _ => true;
  allocRange := fun _ => Ret (mkRange 0 0) |}.

Record FdAllocation (B : Type) := mkFdAllocation { fd_base : B; fileSize : Z; fd : Z; isFdOwner : bool }.
Arguments mkFdAllocation {B} fd_base fileSize fd isFdOwner.
Arguments fd_base {B} f.
Arguments fileSize {B} f.
Arguments fd {B} f.
Arguments isFdOwner {B} f.

#[export] Instance fd_allocation {B} `{Allocation B} : Allocation (FdAllocation B) := {|
  noAlloc := mkFdAllocation noAlloc 0 (-1) false;
  isValid := fun a => negb (fd a =? -1) && isValid (fd_base a);
  allocRange := fun a => makeRange 0 (fileSize a) |}.

#[export] Instance fd_allocation_fd {B} : FdAllocationLike (FdAllocation B) := {|
  getFd := fd; getFileSize := fileSize; getFdOffset := fun _ => 0 |}.

Record FdSubAllocation (B : Type) := mkFdSub { fds_base : B; fdOffset : Z }.
Arguments mkFdSub {B} fds_base fdOffset.
Arguments fds_base {B} f.
Arguments fdOffset {B} f.

#[export] Instance fd_sub_allocation {B} `{Allocation B, FdAllocationLike B} : Allocation (FdSubAllocation B) := {|
  noAlloc := mkFdSub noAlloc 0;
  isValid := fun a => (fdOffset a <? getFileSize (fds_base a)) && isValid (fds_base a);
  allocRange := fun a => makeRange (fdOffset a) (getFileSize (fds_base a)) |}.

#[export] Instance fd_sub_allocation_fd {B} `{FdAllocationLike B} : FdAllocationLike (FdSubAllocation B) := {|
  getFd := fun a => getFd (fds_base a);
  getFileSize := fun a => getFileSize (fds_base a);
  getFdOffset := fdOffset |}.

Record MmappedAllocation (B : Type) := mkMmapped { mm_base : B; mmappedPtr : Z; mmappedSize : Z }.
Arguments mkMmapped {B} mm_base mmappedPtr mmappedSize.
Arguments mm_base {B} m.
Arguments mmappedPtr {B} m.
Arguments mmappedSize {B} m.

#[export] Instance mmapped_allocation {B} `{Allocation B} : Allocation (MmappedAllocation B) := {|
  noAlloc := mkMmapped noAlloc 0 0;
  isValid := fun a => negb (mmappedPtr a =? 0) && negb (mmappedSize a =? 0) && isValid (mm_base a);
  allocRange := fun a => rangeOfSize (mmappedPtr a) (mmappedSize a) |}.

#[export] Instance mmapped_allocation_fd {B} `{FdAllocationLike B} : FdAllocationLike (MmappedAllocation B) := {|
  getFd := fun a => getFd (mm_base a);
  getFileSize := fun a => getFileSize (mm_base a);
  getFdOffset := fun a => getFdOffset (mm_base a) |}.

(** [SubAllocation] and [ArenaSubAllocation]: the source pointer may be null;
    the arena is known by its position in [allArenas]. *)
Record SubAllocation (A : Type) := mkSub {
  sourceAllocation : option A; subAllocationOffset : Z; subAllocationSize : Z; arena : option nat }.
Arguments mkSub {A} sourceAllocation subAllocationOffset subAllocationSize arena.
Arguments sourceAllocation {A} s.
Arguments subAllocationOffset {A} s.
Arguments subAllocationSize {A} s.
Arguments arena {A} s.

#[export] Instance sub_allocation {A} `{Allocation A} : Allocation (SubAllocation A) := {|
  noAlloc := mkSub None 0 0 None;
  isValid := fun s => negb (subAllocationSize s =? 0) && from_option isValid false (sourceAllocation s);
  allocRange := fun s =>
    match sourceAllocation s with
    | None => Undef
    | Some a =>
        range ← allocRange a;
        let s' := u64 (start range + subAllocationOffset s) in
        Ret (mkRange s' (u64 (s' + subAllocationSize s)))
    end |}.

(** [getSubAllocationPtr] of a sub-allocation of a mapped allocation. *)
Definition getSubAllocationPtr {B} (s : SubAllocation (MmappedAllocation B)) : res Z :=
  match sourceAllocation s with
  | None => Undef
  | Some a => if mmappedPtr a =? 0 then Ret 0 else Ret (moveByBytes (mmappedPtr a) (subAllocationOffset s))
  end.

(** * SubAllocator *)

Record SubAllocator (A : Type) := mkSubAllocator {
  underlyingAllocation : A; rangeAllocator : RangeAllocator; offsetRangeIsRelative : bool }.
Arguments mkSubAllocator {A} underlyingAllocation rangeAllocator offsetRangeIsRelative.
Arguments underlyingAllocation {A} s.
Arguments rangeAllocator {A} s.
Arguments offsetRangeIsRelative {A} s.

Definition set_range {A} (s : SubAllocator A) (r : RangeAllocator) : SubAllocator A :=
  mkSubAllocator (underlyingAllocation s) r (offsetRangeIsRelative s).

Definition sub_allocate {A} `{Allocation A} (minAlignment : Z) (s : SubAllocator A) (size alignment : Z)
  : res (SubAllocation A * SubAllocator A) :=
  match adjustSizeAndAlignment minAlignment size alignment with
  | None => Ret (noAlloc, s)
  | Some (size, alignment) =>
      '(assignedOffset, r) ← offset_allocate (rangeAllocator s) size alignment;
      match assignedOffset with
      | None => Ret (noAlloc, set_range s r)
      | Some offset =>
          let relativeOffset := if offsetRangeIsRelative s then offset else u64 (offset - start (getRange r)) in
          Ret (mkSub (Some (underlyingAllocation s)) relativeOffset size None, set_range s r)
      end
  end.

Definition sub_free {A} (s : SubAllocator A) (allocation : SubAllocation A) : res (SubAllocator A) :=
  let offset := subAllocationOffset allocation in
  let offset := if offsetRangeIsRelative s then offset else u64 (offset + start (getRange (rangeAllocator s))) in
  r ← offset_free (rangeAllocator s) offset;
  Ret (set_range s r).

Definition sub_getSizeLeft {A} (s : SubAllocator A) : Z := getSizeLeft (rangeAllocator s).

(** * Mapping allocators *)

Section mmap_allocators.
Context {K U A : Type} `{Kernel K} `{Allocation A} `{FdAllocationLike A} `{UnderlyingAllocator K U A}.

(** [AllocatorWithGlobalMmapToFd]: the kernel chooses the address. *)
Definition global_allocate (k : K) (u : U) (size alignment : Z) : res (MmappedAllocation A * U * K) :=
  match adjustSizeAndAlignment pageSize4KB size alignment with
  | None => Ret (noAlloc, u, k)
  | Some (size, alignment) =>
      '(baseAlloc, u, k) ← u_allocate k u size alignment;
      if negb (isValid baseAlloc) then Ret (noAlloc, u, k)
      else if pageSize4KB <? alignment then Ret (noAlloc, u, k)
      else
        let (ptr, k) := sys_mmap k Anywhere 0 size (getFd baseAlloc) (getFdOffset baseAlloc) in
        match ptr with
        | None => '(u, k) ← u_free k u baseAlloc; Ret (noAlloc, u, k)
        | Some ptr => Ret (mkMmapped baseAlloc ptr size, u, k)
        end
  end.

Definition global_free (k : K) (u : U) (allocation : MmappedAllocation A) : res (U * K) :=
  let (unmapped, k) := if mmappedPtr allocation =? 0 then (true, k)
                       else sys_munmap k (mmappedPtr allocation) (mmappedSize allocation) in
  if unmapped then u_free k u (mm_base allocation) else Ret (u, k).

(** [AllocatorWithBoundedMmapToFd]: addresses come from a range of its own. *)
Record BoundedMmap := mkBounded {
  bm_underlying : U; useResetInsteadOfMunmap : bool; bm_range : RangeAllocator }.

Definition bounded_allocate (k : K) (b : BoundedMmap) (size alignment : Z)
  : res (MmappedAllocation A * BoundedMmap * K) :=
  match adjustSizeAndAlignment pageSize4KB size alignment with
  | None => Ret (noAlloc, b, k)
  | Some (size, alignment) =>
      '(baseAlloc, u, k) ← u_allocate k (bm_underlying b) size alignment;
      let b := mkBounded u (useResetInsteadOfMunmap b) (bm_range b) in
      if negb (isValid baseAlloc) then Ret (noAlloc, b, k)
      else
        '(assignedPtr, r) ← address_allocate (bm_range b) size alignment;
        if assignedPtr =? 0 then
          '(u, k) ← u_free k u baseAlloc;
          Ret (noAlloc, mkBounded u (useResetInsteadOfMunmap b) r, k)
        else
          let (ptr, k) := sys_mmap k Fixed assignedPtr size (getFd baseAlloc) (getFdOffset baseAlloc) in
          match ptr with
          | None =>
              r ← address_free r assignedPtr;
              '(u, k) ← u_free k u baseAlloc;
              Ret (noAlloc, mkBounded u (useResetInsteadOfMunmap b) r, k)
          | Some ptr => Ret (mkMmapped baseAlloc ptr size, mkBounded u (useResetInsteadOfMunmap b) r, k)
          end
  end.

(** Resetting maps the range again without a file; an allocation that cannot be
    unmapped is leaked on purpose. *)
Definition bounded_free (k : K) (b : BoundedMmap) (allocation : MmappedAllocation A) : res (BoundedMmap * K) :=
  if mmappedPtr allocation =? 0
  then '(u, k) ← u_free k (bm_underlying b) (mm_base allocation);
       Ret (mkBounded u (useResetInsteadOfMunmap b) (bm_range b), k)
  else
    let (unmapSuccessful, k) :=
      if useResetInsteadOfMunmap b
      then let (ptr, k) := sys_mmap k Fixed (mmappedPtr allocation) (mmappedSize allocation) (-1) 0 in
           (bool_decide (is_Some ptr), k)
      else sys_munmap k (mmappedPtr allocation) (mmappedSize allocation) in
    if (unmapSuccessful : bool) then
      r ← address_free (bm_range b) (mmappedPtr allocation);
      '(u, k) ← u_free k (bm_underlying b) (mm_base allocation);
      Ret (mkBounded u (useResetInsteadOfMunmap b) r, k)
    else Ret (b, k).

End mmap_allocators.
Arguments BoundedMmap U : clear implicits.
Arguments mkBounded {U} bm_underlying useResetInsteadOfMunmap bm_range.

(** The two as underlying allocators of an arena. *)
Record GlobalMmap (U : Type) := mkGlobal { gm_underlying : U }.
Arguments mkGlobal {U} gm_underlying.
Arguments gm_underlying {U} g.

#[export] Instance global_underlying {K U A} `{Kernel K, Allocation A, FdAllocationLike A, UnderlyingAllocator K U A}
  : UnderlyingAllocator K (GlobalMmap U) (MmappedAllocation A) := {|
  u_allocate := fun k g size alignment =>
    '(a, u, k) ← global_allocate k (gm_underlying g) size alignment; Ret (a, mkGlobal u, k);
  u_free := fun k g a => '(u, k) ← global_free k (gm_underlying g) a; Ret (mkGlobal u, k) |}.

#[export] Instance bounded_underlying {K U A} `{Kernel K, Allocation A, FdAllocationLike A, UnderlyingAllocator K U A}
  : UnderlyingAllocator K (BoundedMmap U) (MmappedAllocation A) := {|
  u_allocate := bounded_allocate;
  u_free := bounded_free |}.

(** * ArenaAllocator

    The arenas are kept in creation order ([allArenas]); pointers to arenas are
    positions in that list.  Other threads may act on the allocator while
    [allocate] does not hold its locks: [between1] is what happens between the
    fast path and the look at the recycled arenas, [between2] what happens before
    the lock of [allArenas] is taken. *)
Section arena.
Context {K U A : Type} `{Allocation A} `{UnderlyingAllocator K U A}.

Record ArenaAllocator := mkArena {
  underlyingAllocator : U;
  underlyingAllocationGranularity : Z;
  standaloneAllocationThreshold : Z;
  allArenas : list (SubAllocator A);
  recycledArenas : list nat;
  latestArena : nat
}.

Definition set_arenas (a : ArenaAllocator) (l : list (SubAllocator A)) : ArenaAllocator :=
  mkArena (underlyingAllocator a) (underlyingAllocationGranularity a) (standaloneAllocationThreshold a)
    l (recycledArenas a) (latestArena a).
Definition set_recycled (a : ArenaAllocator) (l : list nat) : ArenaAllocator :=
  mkArena (underlyingAllocator a) (underlyingAllocationGranularity a) (standaloneAllocationThreshold a)
    (allArenas a) l (latestArena a).
Definition set_latest (a : ArenaAllocator) (i : nat) : ArenaAllocator :=
  mkArena (underlyingAllocator a) (underlyingAllocationGranularity a) (standaloneAllocationThreshold a)
    (allArenas a) (recycledArenas a) i.
Definition set_underlying (a : ArenaAllocator) (u : U) : ArenaAllocator :=
  mkArena u (underlyingAllocationGranularity a) (standaloneAllocationThreshold a)
    (allArenas a) (recycledArenas a) (latestArena a).

Definition getArenaOffsetRange (alloc : A) (sizeAllocated : Z) : res AddressRange :=
  range ← allocRange alloc;
  if rempty range && isValid alloc then makeRange 0 sizeAllocated else Ret range.

Definition newArena (alloc : A) (granularity : Z) : res (SubAllocator A) :=
  range ← getArenaOffsetRange alloc granularity;
  Ret (mkSubAllocator alloc (newRangeAllocator range) false).

Definition makeArenaAllocator (k : K) (u : U) (granularity : Z) : res (ArenaAllocator * K) :=
  '(entry, u, k) ← u_allocate k u 4096 pageSize4KB;
  ar ← newArena entry granularity;
  Ret (mkArena u granularity (Z.quot granularity 2) [ar] [] O, k).

Definition allocateAsStandalone (k : K) (a : ArenaAllocator) (size alignment : Z)
  : res (SubAllocation A * ArenaAllocator * K) :=
  '(source, u, k) ← u_allocate k (underlyingAllocator a) size alignment;
  if negb (isValid source) then Ret (noAlloc, set_underlying a u, k)
  else Ret (mkSub (Some source) 0 size None, set_underlying a u, k).

(** An allocation from the arena at position [i]; the arena is noted in it. *)
Definition allocateIn (a : ArenaAllocator) (i : nat) (size alignment : Z)
  : res (SubAllocation A * ArenaAllocator) :=
  match allArenas a !! i with
  | None => Undef
  | Some ar =>
      '(alloc, ar) ← sub_allocate pageSize4KB ar size alignment;
      Ret (mkSub (sourceAllocation alloc) (subAllocationOffset alloc) (subAllocationSize alloc) (Some i),
           set_arenas a (<[i := ar]> (allArenas a)))
  end.

(** The arena that was recycled last is taken out, whether or not it serves. *)
Definition tryRecycled (a : ArenaAllocator) (snapshot : nat) (size alignment : Z)
  : res (option (SubAllocation A) * ArenaAllocator) :=
  match last (recycledArenas a) with
  | None => Ret (None, a)
  | Some i =>
      let a := set_recycled a (removelast (recycledArenas a)) in
      '(alloc, a) ← allocateIn a i size alignment;
      if isValid alloc
      then Ret (Some alloc, if Nat.eqb (latestArena a) snapshot then set_latest a i else a)
      else Ret (None, a)
  end.

(** When the latest arena has changed meanwhile, it is tried, but the result is
    dropped: [alloc] still is the failed allocation. *)
Definition retryLatest (a : ArenaAllocator) (snapshot : nat) (size alignment : Z) : res ArenaAllocator :=
  if Nat.eqb (latestArena a) snapshot then Ret a
  else '(_, a) ← allocateIn a (latestArena a) size alignment; Ret a.

Definition allocateInNewArena (k : K) (a : ArenaAllocator) (size alignment : Z)
  : res (SubAllocation A * ArenaAllocator * K) :=
  '(source, u, k) ← u_allocate k (underlyingAllocator a) (underlyingAllocationGranularity a) pageSize4KB;
  let a := set_underlying a u in
  if negb (isValid source) then Ret (noAlloc, a, k)
  else
    ar ← newArena source (underlyingAllocationGranularity a);
    let i := length (allArenas a) in
    '(alloc, a) ← allocateIn (set_arenas a (allArenas a ++ [ar])) i size alignment;
    Ret (alloc, set_latest a i, k).

Definition arena_allocate (between1 between2 : ArenaAllocator -> ArenaAllocator) (k : K) (a : ArenaAllocator)
  (size alignment : Z) : res (SubAllocation A * ArenaAllocator * K) :=
  match adjustSizeAndAlignment pageSize4KB size alignment with
  | None => Ret (noAlloc, a, k)
  | Some (size, alignment) =>
      if standaloneAllocationThreshold a <? size then allocateAsStandalone k a size alignment
      else
        let snapshot := latestArena a in
        '(alloc, a) ← allocateIn a snapshot size alignment;
        if isValid alloc then Ret (alloc, a, k)
        else
          '(recycled, a) ← tryRecycled (between1 a) snapshot size alignment;
          match recycled with
          | Some alloc => Ret (alloc, a, k)
          | None =>
              a ← retryLatest (between2 a) snapshot size alignment;
              allocateInNewArena k a size alignment
          end
  end.

Definition arena_free (k : K) (a : ArenaAllocator) (alloc : SubAllocation A) : res (ArenaAllocator * K) :=
  match arena alloc with
  | None =>
      match sourceAllocation alloc with
      | None => Undef
      | Some source => '(u, k) ← u_free k (underlyingAllocator a) source; Ret (set_underlying a u, k)
      end
  | Some i =>
      match allArenas a !! i with
      | None => Undef
      | Some ar =>
          ar ← sub_free ar alloc;
          let a := set_arenas a (<[i := ar]> (allArenas a)) in
          if Nat.eqb (latestArena a) i then Ret (a, k)
          else if (standaloneAllocationThreshold a <=? sub_getSizeLeft ar)
                  && negb (bool_decide (i ∈ recycledArenas a))
          then Ret (set_recycled a (recycledArenas a ++ [i]), k)
          else Ret (a, k)
      end
  end.

(** The destructor. *)
Fixpoint free_arenas (k : K) (u : U) (l : list (SubAllocator A)) : res (U * K) :=
  match l with
  | [] => Ret (u, k)
  | ar :: l => '(u, k) ← u_free k u (underlyingAllocation ar); free_arenas k u l
  end.

Definition destroyArenaAllocator (k : K) (a : ArenaAllocator) : res (U * K) :=
  free_arenas k (underlyingAllocator a) (allArenas a).

End arena.
Arguments ArenaAllocator U A : clear implicits.

(** * What an allocator promises to the one above it *)

(** On a state [u_inv], requests at page alignment return (possibly without an
    allocation), and what was just allocated can be freed ([u_live]). *)
Class AllocatorLaws (K U A : Type) `{Allocation A} `{UnderlyingAllocator K U A} := {
  u_inv : U -> Prop;
  u_live : U -> A -> Prop;
  u_allocate_total (k : K) (u : U) size :
    u_inv u -> 0 < size <= 2 ^ 62 ->
    exists a u' k', u_allocate k u size pageSize4KB ⇓ (a, u', k') /\ u_inv u' /\
      (isValid a = true -> u_live u' a);
  u_free_total (k : K) (u : U) a :
    u_inv u -> u_live u a -> exists u' k', u_free k u a ⇓ (u', k') /\ u_inv u'
}.

(** A valid allocation of a mapping allocator is a page-aligned range of memory
    of at least the requested size. *)
Class MappedLaws (K U A : Type) `{AllocatorLaws K U A} : Prop := {
  mapped_range (k : K) (u : U) size a u' k' :
    u_inv u -> 0 < size <= 2 ^ 62 -> u_allocate k u size pageSize4KB ⇓ (a, u', k') -> isValid a = true ->
    exists r, allocRange a ⇓ r /\ 0 < start r /\ start r mod pageSize4KB = 0 /\
      start r + size <= end_ r /\ end_ r < half
}.

(** * Lemmas *)

(** Requests for at most page alignment. *)
Definition request_ok (size alignment : Z) : Prop :=
  0 < size <= 2 ^ 62 /\ 0 <= alignment <= pageSize4KB /\ (alignment = 0 \/ isPow2 alignment = true).

Lemma adjust_page size alignment :
  request_ok size alignment ->
  exists size', adjustSizeAndAlignment pageSize4KB size alignment = Some (size', pageSize4KB) /\
    size' mod pageSize4KB = 0 /\ size <= size' < size + pageSize4KB /\ 0 < size' <= 2 ^ 62.
Proof.
  unfold request_ok. intros (Hs & Ha & Hp). change pageSize4KB with (2 ^ 12) in *.
  pose proof (adjust_spec 12 size alignment ltac:(lia) ltac:(word_unfold; lia) ltac:(lia) ltac:(lia)) as Hadj.
  assert (Hal : exists s, adjustSizeAndAlignment (2 ^ 12) size alignment = Some (s, 2 ^ 12)).
  { unfold adjustSizeAndAlignment. destruct Hp as [->|Hp]; [by eexists|]. rewrite Hp. cbn [negb andb].
    destruct (Z.ltb_spec alignment (2 ^ 12)); [by eexists|]. replace alignment with (2 ^ 12) by lia. by eexists. }
  destruct Hal as (s & Hal). rewrite Hal in *. exists s. split; [done|]. destruct Hadj as (_ & _ & _ & Hr & Hm). split; [done|]. split; [done|].
  Z.div_mod_to_equations. lia.
Qed.

Lemma adjust_aligned size :
  0 < size <= 2 ^ 62 -> size mod pageSize4KB = 0 ->
  adjustSizeAndAlignment pageSize4KB size pageSize4KB = Some (size, pageSize4KB).
Proof.
  intros Hs Hm. unfold adjustSizeAndAlignment. change (isPow2 pageSize4KB) with true. cbn [negb andb].
  rewrite Z.ltb_irrefl. rewrite alignUp_aligned; [done|change pageSize4KB with 4096; lia|lia|change pageSize4KB with 4096; lia|done].
Qed.

(** A range allocator of pages. *)
Definition pages_ok (r : RangeAllocator) : Prop := ra_ok r /\ all_aligned pageSize4KB r.

(** [r'] is [r] after a range [x] was taken. *)
Definition took (r r' : RangeAllocator) (x : AddressRange) : Prop :=
  start (getRange r) <= start x /\ end_ x <= end_ (getRange r) /\ start x mod pageSize4KB = 0 /\
  Forall (disjoint x) (flat (vma r)) /\ pages_ok r' /\ getRange r' = getRange r /\
  Permutation (flat (vma r')) (x :: flat (vma r)).

Lemma pages_allocate r size :
  pages_ok r -> 0 < size <= 2 ^ 62 -> size mod pageSize4KB = 0 ->
  (exists a r', allocate r size pageSize4KB ⇓ (mkRange a (a + size), r') /\ took r r' (mkRange a (a + size))) \/
  (allocate r size pageSize4KB ⇓ (createEmpty, r) /\ forall a, ~ placement r size a).
Proof.
  intros (Hr & Ha) Hs Hm.
  destruct (allocate_decides r size pageSize4KB Hr ltac:(unfold half; change pageSize4KB with 4096; lia) ltac:(lia)
              ltac:(word_unfold; lia) Ha) as [(a & Hal & Haa & Hp)|Hno]; [left|by right].
  exists a, (commitRange r (mkRange a (a + size))). split; [done|].
  destruct (commit_ok r size a Hr ltac:(lia) Hp) as (Hr' & Hg & l1 & l2 & Hf & Hf').
  destruct Hp as (H1 & H2 & H3). unfold took. cbn [start end_].
  do 4 (split; [done|]). split; [|split; [done|rewrite Hf', Hf; symmetry; apply Permutation_middle]].
  split; [done|]. destruct Ha as [Hb Hfl]. split; [rewrite Hg; exact Hb|]. rewrite Hf'. rewrite Hf in Hfl.
  apply Forall_app in Hfl as [Hf1 Hf2]. apply Forall_app. split; [done|]. constructor; [|done].
  cbn [start end_]. split; [done|]. change pageSize4KB with 4096 in *. rewrite Z.add_mod, Haa, Hm by lia. done.
Qed.

(** Taking a recorded range out again. *)
Lemma pages_free r x b :
  pages_ok r -> x ∈ flat (vma r) -> start x <= b < end_ x ->
  exists r', free r b ⇓ r' /\ pages_ok r' /\ getRange r' = getRange r /\
    Permutation (x :: flat (vma r')) (flat (vma r)) /\
    (exists l1 l2, flat (vma r) = l1 ++ x :: l2 /\ flat (vma r') = l1 ++ l2).
Proof.
  intros (Hr & Hb & Hf) Hx Hxb. apply list_elem_of_split in Hx as (l1 & l2 & Hl).
  pose proof (wf_ordered _ (ra_wf _ Hr)) as Ho. apply ordered_Forall in Ho. rewrite Hl in Ho.
  apply Forall_app in Ho as [_ [Hox _]%Forall_cons]. pose proof (ra_lo _ Hr). unfold getRange, getBoundingRange in *.
  destruct (freeRange_found r b l1 x l2 Hr ltac:(lia) Hl Hxb) as (r' & Hfr & Hr' & Hg & Hf' & _).
  exists r'. split; [exact Hfr|]. unfold getRange, getBoundingRange in Hg. split; [split; [done|]|].
  - split; [unfold getRange, getBoundingRange; by rewrite Hg|]. rewrite Hf'. rewrite Hl in Hf.
    apply Forall_app in Hf as [? [? ?]%Forall_cons]. by apply Forall_app.
  - split; [done|]. rewrite Hf', Hl. split; [apply Permutation_middle|by exists l1, l2].
Qed.

(** An arena whose memory can be handed out. *)
Definition sub_ok {A} `{Allocation A} (s : SubAllocator A) : Prop :=
  pages_ok (rangeAllocator s) /\ offsetRangeIsRelative s = false /\ isValid (underlyingAllocation s) = true.

Lemma took_bounds r r' x : took r r' x -> ra_ok r -> 0 <= start x - start (getRange r) < W64.
Proof.
  intros (H1 & H2 & _ & _ & ([Hr _ _ _ _] & _) & Hg & Hp) Hok. destruct Hok as [_ Hlo Hhi _ _]. unfold half in *.
  assert (Hx : x ∈ flat (vma r')) by (rewrite Hp; constructor).
  pose proof (wf_ordered _ Hr) as Ho. apply ordered_Forall in Ho. rewrite Forall_forall in Ho. specialize (Ho x Hx).
  lia.
Qed.

Lemma sub_allocate_correct {A} `{Allocation A} (s : SubAllocator A) size :
  sub_ok s -> 0 < size <= 2 ^ 62 -> size mod pageSize4KB = 0 ->
  (exists a r', sub_allocate pageSize4KB s size pageSize4KB
      ⇓ (mkSub (Some (underlyingAllocation s)) (a - start (getRange (rangeAllocator s))) size None, set_range s r') /\
     took (rangeAllocator s) r' (mkRange a (a + size)) /\ sub_ok (set_range s r')) \/
  (sub_allocate pageSize4KB s size pageSize4KB ⇓ (noAlloc, s) /\ forall a, ~ placement (rangeAllocator s) size a).
Proof.
  intros (Hp & Hrel & Hv) Hs Hm. unfold sub_allocate. rewrite adjust_aligned by done. unfold offset_allocate.
  destruct (pages_allocate _ _ Hp Hs Hm) as [(a & r' & Hal & Ht)|[Hal Hno]]; rewrite Hal; cbn [mbind res_bind]; [left|right].
  - assert (Hsz : rsize (mkRange a (a + size)) = size).
    { unfold rsize. cbn [start end_]. replace (a + size - a) with size by lia. apply u64_id. word_unfold. lia. }
    rewrite Hsz, Z.leb_refl, Hrel. pose proof (took_bounds _ _ _ Ht (proj1 Hp)) as Hb. cbn [start] in *.
    destruct Ht as (H1 & H2 & H3 & H4 & H5 & H6 & H7). rewrite H6.
    exists a, r'. rewrite u64_id by (word_unfold; lia). split; [done|]. done.
  - change (rsize createEmpty) with 0. rewrite (proj2 (Z.leb_gt size 0)) by lia. split; [by destruct s|done].
Qed.

(** ** Arenas *)
Section arena_lemmas.
Context {K U A : Type} `{AL : AllocatorLaws K U A} {ML : MappedLaws K U A}.

(** The ranges that are handed out from the arena at position [i]. *)
Definition arena_ranges (a : ArenaAllocator U A) (i : nat) : list AddressRange :=
  match allArenas a !! i with Some s => flat (vma (rangeAllocator s)) | None => [] end.

Definition arena_bounds (a : ArenaAllocator U A) (i : nat) : AddressRange :=
  match allArenas a !! i with Some s => getRange (rangeAllocator s) | None => createEmpty end.

Record arena_inv (a : ArenaAllocator U A) : Prop := mkArenaInv {
  ai_arenas : Forall sub_ok (allArenas a);
  ai_latest : (latestArena a < length (allArenas a))%nat;
  ai_recycled : Forall (fun i => (i < length (allArenas a))%nat) (recycledArenas a);
  ai_nodup : NoDup (recycledArenas a);
  ai_apart : latestArena a ∉ recycledArenas a;
  ai_underlying : u_inv (underlyingAllocator a);
  ai_granularity : 0 < underlyingAllocationGranularity a <= 2 ^ 62
}.

(** [alloc] is the range [x] of the arena at position [i], whose memory is valid. *)
Definition is_range (a : ArenaAllocator U A) (alloc : SubAllocation A) (i : nat) (x : AddressRange) : Prop :=
  arena alloc = Some i /\ subAllocationOffset alloc = start x - start (arena_bounds a i) /\
  subAllocationSize alloc = end_ x - start x /\
  (exists s, allArenas a !! i = Some s /\ sourceAllocation alloc = Some (underlyingAllocation s)) /\
  isValid alloc = true.

(** [a'] is [a] after the range [x] was taken from the arena at position [i]. *)
Definition granted (a a' : ArenaAllocator U A) (i : nat) (x : AddressRange) : Prop :=
  start (arena_bounds a' i) <= start x /\ start x < end_ x /\ end_ x <= end_ (arena_bounds a' i) /\
  start x mod pageSize4KB = 0 /\ Forall (disjoint x) (arena_ranges a i) /\
  Permutation (arena_ranges a' i) (x :: arena_ranges a i) /\
  forall j, j <> i -> arena_ranges a' j = arena_ranges a j.

Lemma sub_ok_lookup a i s : arena_inv a -> allArenas a !! i = Some s -> sub_ok s.
Proof. intros Ha Hi. exact (Forall_lookup_1 _ _ _ _ (ai_arenas a Ha) Hi). Qed.

(** A change of the arena at position [i] alone. *)
Lemma set_arena_inv a i s :
  arena_inv a -> sub_ok s -> (i < length (allArenas a))%nat ->
  arena_inv (set_arenas a (<[i := s]> (allArenas a))).
Proof.
  intros [] Hs Hi. constructor; cbn [set_arenas allArenas latestArena recycledArenas underlyingAllocator underlyingAllocationGranularity];
    rewrite ?length_insert; try done.
  by apply Forall_insert.
Qed.

Lemma allocateIn_correct a i size :
  arena_inv a -> (i < length (allArenas a))%nat -> 0 < size <= 2 ^ 62 -> size mod pageSize4KB = 0 ->
  (exists alloc a' x, allocateIn a i size pageSize4KB ⇓ (alloc, a') /\ arena_inv a' /\
     is_range a' alloc i x /\ end_ x - start x = size /\ granted a a' i x /\
     a' = set_arenas a (allArenas a') /\ length (allArenas a') = length (allArenas a)) \/
  (exists alloc, allocateIn a i size pageSize4KB ⇓ (alloc, a) /\ isValid alloc = false).
Proof.
  intros Ha Hi Hs Hm. destruct (lookup_lt_is_Some_2 _ _ Hi) as (s & Hl). pose proof (sub_ok_lookup _ _ _ Ha Hl) as Hok.
  unfold allocateIn. rewrite Hl.
  destruct (sub_allocate_correct s size Hok Hs Hm) as [(p & r' & Hal & Ht & Hok')|[Hal _]]; rewrite Hal; cbn [mbind res_bind].
  - left. destruct Ht as (H1 & H2 & H3 & H4 & H5 & H6 & H7). cbn [start end_] in *.
    eexists _, _, (mkRange p (p + size)). split; [reflexivity|]. split; [by apply set_arena_inv|].
    assert (Hlk : <[i := set_range s r']> (allArenas a) !! i = Some (set_range s r')) by by apply list_lookup_insert_eq.
    unfold is_range, granted, arena_ranges, arena_bounds. cbn [set_arenas allArenas]. rewrite Hlk, Hl.
    cbn [set_range rangeAllocator underlyingAllocation arena subAllocationOffset subAllocationSize sourceAllocation start end_].
    rewrite H6. destruct Hok as (_ & _ & Hv). split.
    { split; [done|]. split; [done|]. split; [lia|]. split; [by eexists|].
      unfold isValid, sub_allocation. cbn [subAllocationSize sourceAllocation from_option].
      rewrite (proj2 (Z.eqb_neq size 0)) by lia. exact Hv. }
    split; [lia|]. split.
    { split; [lia|]. split; [lia|]. split; [lia|]. split; [done|]. split; [done|]. split; [done|].
      intros j Hj. by rewrite list_lookup_insert_ne. }
    split; [by destruct a|]. by rewrite length_insert.
  - right. rewrite list_insert_id by done. eexists. split; [by destruct a|reflexivity].
Qed.

(** Only the arenas matter for what is handed out. *)
Lemma granted_arenas a b a' b' i x :
  (forall j, arena_ranges b j = arena_ranges a j) -> allArenas b' = allArenas a' ->
  granted b b' i x -> granted a a' i x.
Proof.
  intros Hr He. unfold granted, arena_bounds. rewrite Hr.
  assert (Hr' : forall j, arena_ranges b' j = arena_ranges a' j) by (intros j; unfold arena_ranges; by rewrite He).
  rewrite He, Hr'. intros (H1 & H2 & H3 & H4 & H5 & H6 & H7). do 6 (split; [done|]).
  intros j Hj. rewrite <- Hr', <- Hr. by apply H7.
Qed.

Lemma is_range_arenas a b alloc i x : allArenas b = allArenas a -> is_range b alloc i x -> is_range a alloc i x.
Proof. intros He. unfold is_range, arena_bounds. by rewrite He. Qed.

Lemma tryRecycled_correct a snapshot size :
  arena_inv a -> 0 < size <= 2 ^ 62 -> size mod pageSize4KB = 0 ->
  exists r a', tryRecycled a snapshot size pageSize4KB ⇓ (r, a') /\ arena_inv a' /\
    match r with
    | Some alloc => exists i x, is_range a' alloc i x /\ end_ x - start x = size /\ granted a a' i x
    | None => allArenas a' = allArenas a /\ latestArena a' = latestArena a
    end.
Proof.
  intros Ha Hs Hm. pose proof Ha as [Har Hla Hre Hnd Hap Hu Hg]. unfold tryRecycled.
  destruct (last (recycledArenas a)) as [i|] eqn:Hlast; [|by exists None, a].
  apply last_Some in Hlast as (l & Hl). rewrite Hl, removelast_last. rewrite Hl in Hre, Hnd, Hap.
  apply Forall_app in Hre as [Hre [Hi _]%Forall_cons]. apply NoDup_app in Hnd as (Hnd & Hni & _).
  assert (Hil : i ∉ l) by (intros Hin; apply (Hni i Hin); constructor).
  assert (Hal : latestArena a ∉ l) by (intros Hin; apply Hap, elem_of_app; by left).
  set (b := set_recycled a l). assert (Hb : arena_inv b) by (by constructor).
  destruct (allocateIn_correct b i size Hb Hi Hs Hm) as [(alloc & a' & x & Heq & Hinv & Hr & Hx & Hgr & Hset & Hlen)|(alloc & Heq & Hv)];
    rewrite Heq; cbn [mbind res_bind].
  - assert (Hv : isValid alloc = true) by apply Hr. rewrite Hv. eexists _, _. split; [reflexivity|].
    assert (Hlat : latestArena a' = latestArena a) by (by rewrite Hset).
    assert (Hrec : recycledArenas a' = l) by (by rewrite Hset).
    destruct Hinv as [Har' Hla' Hre' Hnd' Hap' Hu' Hg']. destruct (Nat.eqb (latestArena a') snapshot).
    + split; [constructor; try done; cbn [set_latest latestArena allArenas recycledArenas]; [by rewrite Hlen|by rewrite Hrec]|].
      exists i, x. split; [by apply (is_range_arenas _ a')|]. split; [done|]. by apply (granted_arenas a b _ a').
    + split; [by constructor|]. exists i, x. split; [done|]. split; [done|]. by apply (granted_arenas a b a' a').
  - rewrite Hv. by eexists _, _.
Qed.

(** A new arena over a valid mapped allocation. *)
Lemma newArena_correct k u size source u' k' :
  u_inv u -> 0 < size <= 2 ^ 62 -> u_allocate k u size pageSize4KB ⇓ (source, u', k') -> isValid source = true ->
  exists s, newArena source size ⇓ s /\ sub_ok s /\ flat (vma (rangeAllocator s)) = [].
Proof.
  intros Hu Hs Hal Hv. destruct (mapped_range _ _ _ _ _ _ Hu Hs Hal Hv) as (r & Hr & Hp & Hm & Hsz & Hh).
  unfold newArena, getArenaOffsetRange. rewrite Hr. cbn [mbind res_bind].
  assert (He : rempty r = false).
  { unfold rempty, rsize. unfold half in Hh. rewrite u64_id by (word_unfold; lia). apply Z.eqb_neq. lia. }
  rewrite He. cbn [andb mbind res_bind]. eexists. split; [reflexivity|]. split; [|done].
  split; [|by split]. split; [apply fresh_ok; cbn; lia|]. split; [done|constructor].
Qed.

Lemma allocateInNewArena_correct k a size :
  arena_inv a -> 0 < size <= 2 ^ 62 -> size mod pageSize4KB = 0 ->
  exists alloc a' k', allocateInNewArena k a size pageSize4KB ⇓ (alloc, a', k') /\ arena_inv a' /\
    if isValid alloc then exists i x, is_range a' alloc i x /\ end_ x - start x = size /\ granted a a' i x
    else forall i, arena_ranges a' i = arena_ranges a i.
Proof.
  intros Ha Hs Hm. pose proof Ha as [Har Hla Hre Hnd Hap Hu Hg]. unfold allocateInNewArena.
  destruct (u_allocate_total k _ _ Hu Hg) as (source & u' & k' & Hal & Hu' & _). rewrite Hal. cbn [mbind res_bind].
  destruct (isValid source) eqn:Hv; cbn [negb].
  2: { eexists _, _, _. split; [reflexivity|]. split; [by constructor|]. cbn. done. }
  destruct (newArena_correct _ _ _ _ _ _ Hu Hg Hal Hv) as (s & Hns & Hok & Hfl).
  cbn [set_underlying underlyingAllocationGranularity allArenas]. rewrite Hns. cbn [mbind res_bind].
  set (b := set_arenas (set_underlying a u') (allArenas a ++ [s])). set (i := length (allArenas a)).
  assert (Hlen : length (allArenas b) = S i) by (cbn; rewrite length_app; simpl; unfold i; lia).
  assert (Hb : arena_inv b).
  { constructor; try done; rewrite ?Hlen; [apply Forall_app; split; [done|]; constructor; [done|constructor]|cbn; unfold i; lia|].
    eapply Forall_impl; [exact Hre|]. cbn. unfold i. lia. }
  assert (Hbr : forall j, arena_ranges b j = arena_ranges a j).
  { intros j. unfold arena_ranges, b. cbn [set_arenas allArenas]. destruct (Nat.lt_ge_cases j i) as [Hj|Hj].
    - by rewrite lookup_app_l.
    - rewrite lookup_app_r by done. rewrite (lookup_ge_None_2 (allArenas a)) by done.
      fold i. destruct (j - i)%nat; [by cbn|done]. }
  destruct (allocateIn_correct b i size Hb ltac:(lia) Hs Hm) as [(alloc & a' & x & Heq & Hinv & Hr & Hx & Hgr & Hset & Hl')|(alloc & Heq & Hva)];
    rewrite Heq; cbn [mbind res_bind]; eexists _, _, _; (split; [reflexivity|]).
  - assert (Hrec : recycledArenas a' = recycledArenas a) by (by rewrite Hset).
    assert (Hnin : i ∉ recycledArenas a) by (intros Hin; rewrite Forall_forall in Hre; specialize (Hre i Hin); unfold i in Hre; lia).
    destruct Hinv as [Har' Hla' Hre' Hnd' Hap' Hu'' Hg']. split.
    { constructor; try done; cbn [set_latest latestArena allArenas recycledArenas]; [lia|by rewrite Hrec]. }
    assert (Hv' : isValid alloc = true) by apply Hr. rewrite Hv'. exists i, x.
    split; [by apply (is_range_arenas _ a')|]. split; [done|]. by apply (granted_arenas a b _ a').
  - rewrite Hva. split; [|done].
    assert (Hnin : i ∉ recycledArenas a) by (intros Hin; rewrite Forall_forall in Hre; specialize (Hre i Hin); unfold i in Hre; lia).
    destruct Hb as [Har' Hla' Hre' Hnd' Hap' Hu'' Hg']. constructor; try done.
    cbn [set_latest latestArena allArenas]. lia.
Qed.

(** What [allocate] hands out, from the state [a]. *)
Definition served (a a' : ArenaAllocator U A) (alloc : SubAllocation A) (size : Z) : Prop :=
  (exists i x, is_range a' alloc i x /\ size <= end_ x - start x /\ granted a a' i x) \/
  (arena alloc = None /\ subAllocationOffset alloc = 0 /\ size <= subAllocationSize alloc /\
   standaloneAllocationThreshold a < subAllocationSize alloc /\
   exists source r, sourceAllocation alloc = Some source /\ allocRange source ⇓ r /\
     start r + subAllocationSize alloc <= end_ r /\ forall i, arena_ranges a' i = arena_ranges a i).

Lemma standalone_correct k a size :
  arena_inv a -> 0 < size <= 2 ^ 62 -> standaloneAllocationThreshold a < size ->
  exists alloc a' k', allocateAsStandalone k a size pageSize4KB ⇓ (alloc, a', k') /\ arena_inv a' /\
    if isValid alloc then served a a' alloc size else forall i, arena_ranges a' i = arena_ranges a i.
Proof.
  intros Ha Hs Ht. pose proof Ha as [Har Hla Hre Hnd Hap Hu Hg]. unfold allocateAsStandalone.
  destruct (u_allocate_total k _ _ Hu Hs) as (source & u' & k' & Hal & Hu' & _). rewrite Hal. cbn [mbind res_bind].
  destruct (isValid source) eqn:Hv; cbn [negb]; eexists _, _, _; (split; [reflexivity|]); (split; [by constructor|]); [|done].
  unfold isValid at 1. cbn [sub_allocation subAllocationSize sourceAllocation from_option].
  rewrite (proj2 (Z.eqb_neq size 0)) by lia. rewrite Hv. cbn [negb andb].
  destruct (mapped_range _ _ _ _ _ _ Hu Hs Hal Hv) as (r & Hr & _ & _ & Hsz & _).
  right. cbn [arena subAllocationOffset subAllocationSize sourceAllocation]. do 2 (split; [done|]). split; [lia|].
  split; [done|]. by exists source, r.
Qed.

(** What the retry at an arena that another thread put up costs: nothing, or a range that
    nobody gets. *)
Definition retried (snapshot : nat) (b b' : ArenaAllocator U A) : Prop :=
  (forall i, arena_ranges b' i = arena_ranges b i) \/
  (latestArena b <> snapshot /\ exists x, granted b b' (latestArena b) x).

Lemma retryLatest_correct b snapshot size :
  arena_inv b -> 0 < size <= 2 ^ 62 -> size mod pageSize4KB = 0 ->
  exists b', retryLatest b snapshot size pageSize4KB ⇓ b' /\ arena_inv b' /\ retried snapshot b b'.
Proof.
  intros Hb Hs Hm. unfold retryLatest. destruct (Nat.eqb_spec (latestArena b) snapshot) as [He|Hne].
  { exists b. split; [done|]. split; [done|]. by left. }
  destruct (allocateIn_correct b (latestArena b) size Hb (ai_latest _ Hb) Hs Hm)
    as [(alloc & b' & x & Heq & Hinv & _ & _ & Hgr & _)|(alloc & Heq & _)]; rewrite Heq; cbn [mbind res_bind].
  - exists b'. split; [done|]. split; [done|]. right. split; [done|]. by exists x.
  - exists b. split; [done|]. split; [done|]. by left.
Qed.

(** The moment of an allocation at which it takes its memory: at once, or after other threads
    acted and the recycled arenas were looked at, or after they acted again. *)
Definition moment (between1 between2 : ArenaAllocator U A -> ArenaAllocator U A) (a before : ArenaAllocator U A) : Prop :=
  before = a \/ before = between1 a \/
  exists c, arena_inv c /\ (forall i, arena_ranges c i = arena_ranges (between1 a) i) /\
    latestArena c = latestArena (between1 a) /\ retried (latestArena a) (between2 c) before.

Lemma arena_allocate_served between1 between2 k a size alignment :
  (forall a, arena_inv a -> arena_inv (between1 a)) -> (forall a, arena_inv a -> arena_inv (between2 a)) ->
  arena_inv a -> request_ok size alignment ->
  exists alloc a' k' before, arena_allocate between1 between2 k a size alignment ⇓ (alloc, a', k') /\ arena_inv a' /\
    moment between1 between2 a before /\
    if isValid alloc then served before a' alloc size else forall i, arena_ranges a' i = arena_ranges before i.
Proof.
  intros Hb1 Hb2 Ha Hreq. destruct (adjust_page _ _ Hreq) as (size' & Hadj & Hm & Hsz & Hs'). destruct Hreq as (Hs & _).
  assert (Hgrow : forall c b alloc, served c b alloc size' -> served c b alloc size).
  { intros c b alloc [(i & x & H1 & H2 & H3)|(H1 & H2 & H3 & H4)]; [left; exists i, x; split; [done|]; split; [lia|done]|right].
    split; [done|]. split; [done|]. split; [lia|done]. }
  unfold arena_allocate. rewrite Hadj. destruct (Z.ltb_spec (standaloneAllocationThreshold a) size') as [Ht|_].
  - destruct (standalone_correct k a size' Ha Hs' Ht) as (alloc & a' & k' & Heq & Hinv & Hr).
    exists alloc, a', k', a. split; [done|]. split; [done|]. split; [by left|]. destruct (isValid alloc); [by apply Hgrow|done].
  - destruct (allocateIn_correct a (latestArena a) size' Ha (ai_latest _ Ha) Hs' Hm)
      as [(alloc & a' & x & Heq & Hinv & Hr & Hx & Hgr & _)|(alloc & Heq & Hv)]; rewrite Heq; cbn [mbind res_bind].
    + assert (Hv : isValid alloc = true) by apply Hr. rewrite Hv. exists alloc, a', k, a. split; [done|]. split; [done|]. split; [by left|].
      rewrite Hv. left. exists (latestArena a), x. split; [done|]. split; [lia|done].
    + rewrite Hv. destruct (tryRecycled_correct (between1 a) (latestArena a) size' (Hb1 _ Ha) Hs' Hm) as ([alloc2|] & c & Hrec & Hc & Hres); rewrite Hrec; cbn [mbind res_bind].
      * destruct Hres as (i & x & Hr & Hx & Hgr). assert (Hv2 : isValid alloc2 = true) by apply Hr.
        exists alloc2, c, k, (between1 a). split; [done|]. split; [done|]. split; [by right; left|]. rewrite Hv2. left. exists i, x. split; [done|]. split; [lia|done].
      * destruct Hres as [Hres Hlat]. destruct (retryLatest_correct (between2 c) (latestArena a) size' (Hb2 _ Hc) Hs' Hm) as (d & Hret & Hd & Hdr).
        rewrite Hret. cbn [mbind res_bind].
        destruct (allocateInNewArena_correct k d size' Hd Hs' Hm) as (alloc2 & a' & k' & Heq2 & Hinv & Hr2).
        exists alloc2, a', k', d. split; [done|]. split; [done|]. split.
        { right. right. exists c. split; [done|]. split; [|done]. intros j. unfold arena_ranges. by rewrite Hres. }
        destruct (isValid alloc2); [|done]. destruct Hr2 as (i & x & Hr & Hx & Hgr). left. exists i, x. split; [done|]. split; [lia|done].
Qed.

Lemma set_recycled_inv a l :
  arena_inv a -> Forall (fun i => (i < length (allArenas a))%nat) l -> NoDup l -> latestArena a ∉ l ->
  arena_inv (set_recycled a l).
Proof. intros [] ???. by constructor. Qed.

(** Freeing a range that is handed out gives back exactly that range. *)
Lemma arena_free_range k a alloc i x :
  arena_inv a -> is_range a alloc i x -> x ∈ arena_ranges a i ->
  exists a', arena_free k a alloc ⇓ (a', k) /\ arena_inv a' /\
    Permutation (x :: arena_ranges a' i) (arena_ranges a i) /\
    (exists l1 l2, arena_ranges a i = l1 ++ x :: l2 /\ arena_ranges a' i = l1 ++ l2) /\
    (forall j, j <> i -> arena_ranges a' j = arena_ranges a j) /\
    (i ∈ recycledArenas a' \/ i = latestArena a' \/
     sub_getSizeLeft (from_option id (mkSubAllocator noAlloc (newRangeAllocator createEmpty) false) (allArenas a' !! i))
       < standaloneAllocationThreshold a').
Proof.
  intros Ha (Hari & Hoff & _ & (s & Hl & _) & _) Hx. unfold arena_free. rewrite Hari, Hl.
  unfold arena_bounds in Hoff. unfold arena_ranges in Hx. rewrite Hl in Hoff, Hx.
  pose proof (sub_ok_lookup _ _ _ Ha Hl) as (Hp & Hrel & Hv).
  pose proof (wf_ordered _ (ra_wf _ (proj1 Hp))) as Ho. apply ordered_Forall in Ho. rewrite Forall_forall in Ho. specialize (Ho x Hx).
  pose proof (ra_lo _ (proj1 Hp)) as Hlo. pose proof (ra_hi _ (proj1 Hp)) as Hhi. unfold half, getRange, getBoundingRange in *.
  unfold sub_free. rewrite Hrel, Hoff. unfold getRange, getBoundingRange.
  replace (start x - start (desc (vma (rangeAllocator s))) + start (desc (vma (rangeAllocator s)))) with (start x) by lia.
  rewrite u64_id by (word_unfold; lia).
  destruct (pages_free _ x (start x) Hp Hx ltac:(lia)) as (r' & Hf & Hp' & Hg & Hperm & Hsplit).
  unfold offset_free. rewrite Hf. cbn [mbind res_bind].
  set (b := set_arenas a (<[i := set_range s r']> (allArenas a))).
  assert (Hi : (i < length (allArenas a))%nat) by (by apply lookup_lt_is_Some; eexists).
  assert (Hb : arena_inv b) by (apply set_arena_inv; [done|by split|done]).
  assert (Hlk : allArenas b !! i = Some (set_range s r')) by by apply list_lookup_insert_eq.
  assert (Hri : forall a', allArenas a' = allArenas b ->
     Permutation (x :: arena_ranges a' i) (arena_ranges a i) /\
     (exists l1 l2, arena_ranges a i = l1 ++ x :: l2 /\ arena_ranges a' i = l1 ++ l2) /\
     (forall j, j <> i -> arena_ranges a' j = arena_ranges a j)).
  { intros a' He. unfold arena_ranges. rewrite He, Hlk, Hl. do 2 (split; [done|]). intros j Hj.
    unfold b. cbn [set_arenas allArenas]. by rewrite list_lookup_insert_ne. }
  destruct (Nat.eqb_spec (latestArena b) i) as [He|Hne].
  { exists b. split; [done|]. split; [done|]. destruct (Hri b eq_refl) as (H1 & H2 & H3). do 3 (split; [done|]). by right; left. }
  destruct (Z.leb_spec (standaloneAllocationThreshold b) (sub_getSizeLeft (set_range s r'))) as [Hth|Hth];
    destruct (bool_decide_reflect (i ∈ recycledArenas b)) as [Hin|Hnin]; cbn [negb andb].
  2: { eexists. split; [reflexivity|]. split.
       { destruct Hb as [_ _ Hre Hnd Hap _ _]. apply set_recycled_inv; [by apply set_arena_inv; [done|by split|done]|..].
         - apply Forall_app. split; [done|]. constructor; [|constructor]. cbn. by rewrite length_insert.
         - apply NoDup_app. split; [done|]. split; [|apply NoDup_singleton]. intros j Hj ->%list_elem_of_singleton. done.
         - intros [Hin|Hin%list_elem_of_singleton]%elem_of_app; [done|]. by apply Hne. }
       destruct (Hri (set_recycled b (recycledArenas b ++ [i])) eq_refl) as (H1 & H2 & H3). do 3 (split; [done|]).
       left. apply elem_of_app. right. constructor. }
  all: exists b; split; [done|]; split; [done|]; destruct (Hri b eq_refl) as (H1 & H2 & H3); do 3 (split; [done|]).
  1: by left.
  1: by left.
  right. right. rewrite Hlk. exact Hth.
Qed.

End arena_lemmas.

(** An ordered list is determined by its elements. *)
Lemma ordered_Permutation lo hi l1 l2 : ordered lo l1 hi -> ordered lo l2 hi -> Permutation l1 l2 -> l1 = l2.
Proof.
  revert lo l2. induction l1 as [|x l1 IH]; intros lo l2 H1 H2 Hp; [by apply Permutation_nil in Hp|].
  destruct l2 as [|y l2]; [by apply Permutation_sym, Permutation_nil in Hp|].
  destruct (decide (x = y)) as [->|Hne].
  { f_equal. destruct H1 as (_ & _ & H1), H2 as (_ & _ & H2). apply (IH _ _ H1 H2). by apply Permutation_cons_inv in Hp. }
  exfalso. destruct H1 as (_ & Hx & H1), H2 as (_ & Hy & H2). apply ordered_Forall in H1, H2. rewrite Forall_forall in H1, H2.
  assert (Hxl : x ∈ y :: l2) by (rewrite <- Hp; constructor). assert (Hyl : y ∈ x :: l1) by (rewrite Hp; constructor).
  apply elem_of_cons in Hxl as [?|Hxl]; [done|]. apply elem_of_cons in Hyl as [?|Hyl]; [done|].
  specialize (H1 _ Hyl). specialize (H2 _ Hxl). lia.
Qed.

(** ** Mapping allocators *)
Section mmap_lemmas.
Context {K U A : Type} `{KL : KernelLaws K} `{FdAllocationLike A} `{AL : AllocatorLaws K U A}.

Lemma mapped_bounds ptr size :
  ptr mod pageSize4KB = 0 -> 0 < ptr -> 0 < size -> ptr + size < half ->
  rangeOfSize ptr size ⇓ mkRange ptr (ptr + size).
Proof. unfold half. intros. apply rangeOfSize_ok; lia. Qed.

Lemma mmapped_valid (base : A) ptr size :
  0 < ptr -> 0 < size -> isValid (mkMmapped base ptr size) = isValid base.
Proof.
  intros. unfold isValid at 1. cbn [mmapped_allocation mmappedPtr mmappedSize mm_base].
  by rewrite (proj2 (Z.eqb_neq ptr 0)), (proj2 (Z.eqb_neq size 0)) by lia.
Qed.

Lemma noAlloc_mmapped : isValid (noAlloc : MmappedAllocation A) = false.
Proof. done. Qed.

(** A request to the global mapping allocator. *)
Lemma global_allocate_page (k : K) (u : U) size alignment :
  u_inv u -> request_ok size alignment ->
  exists a u' k', global_allocate k u size alignment ⇓ (a, u', k') /\ u_inv u' /\
    (isValid a = true -> u_live u' (mm_base a) /\ 0 < mmappedPtr a /\ mmappedPtr a mod pageSize4KB = 0 /\
       size <= mmappedSize a /\ mmappedPtr a + mmappedSize a < half).
Proof.
  intros Hu Hreq. destruct (adjust_page _ _ Hreq) as (size' & Hadj & Hm & Hsz & Hs'). unfold global_allocate. rewrite Hadj.
  destruct Hreq as (Hs & _).
  destruct (u_allocate_total k u size' Hu Hs') as (base & u' & k' & Hal & Hu' & Hlive). rewrite Hal. cbn [mbind res_bind].
  destruct (isValid base) eqn:Hv; cbn [negb]; [|by eexists _, _, _].
  rewrite Z.ltb_irrefl.
  destruct (sys_mmap k' Anywhere 0 size' (getFd base) (getFdOffset base)) as [[ptr|] k2] eqn:Hmm.
  - eexists _, _, _. split; [reflexivity|]. split; [done|]. intros _. destruct (mmap_page _ _ _ _ _ _ _ _ Hmm) as (P1 & P2 & P3).
    cbn [mm_base mmappedPtr mmappedSize]. split; [by apply Hlive|]. split; [done|]. split; [done|]. split; [lia|done].
  - destruct (u_free_total k2 u' base Hu' (Hlive eq_refl)) as (u2 & k3 & Hf & Hu2). rewrite Hf. by eexists _, _, _.
Qed.

#[export] Instance global_laws : AllocatorLaws K (GlobalMmap U) (MmappedAllocation A).
Proof.
  refine {| u_inv := fun g : GlobalMmap U => u_inv (gm_underlying g);
            u_live := fun (g : GlobalMmap U) (a : MmappedAllocation A) => u_live (gm_underlying g) (mm_base a) |}.
  - intros k [u] size Hu Hs. cbn [u_allocate global_underlying gm_underlying] in *.
    destruct (global_allocate_page k u size pageSize4KB Hu) as (a & u' & k' & Hal & Hu' & Hl).
    { split; [done|]. by split; [split|right]. }
    rewrite Hal. cbn [mbind res_bind]. eexists _, _, _. split; [reflexivity|]. split; [done|]. intros Hv. by apply Hl.
  - intros k [u] a Hu Hl. cbn [u_free global_underlying gm_underlying] in *. unfold global_free.
    destruct (if mmappedPtr a =? 0 then _ else _) as [unmapped k1]. destruct unmapped; [|by eexists _, _].
    destruct (u_free_total k1 u (mm_base a) Hu Hl) as (u2 & k2 & Hf & Hu2). rewrite Hf. by eexists _, _.
Defined.

#[export] Instance global_mapped : MappedLaws K (GlobalMmap U) (MmappedAllocation A).
Proof.
  constructor. intros k [u] size a u' k' Hu Hs Hal Hv. cbn [u_allocate global_underlying gm_underlying u_inv global_laws] in *.
  destruct (global_allocate_page k u size pageSize4KB Hu) as (a2 & u2 & k2 & Hal2 & _ & Hl).
  { split; [done|]. by split; [split|right]. }
  rewrite Hal2 in Hal. injection Hal as -> _ _. destruct (Hl Hv) as (_ & P1 & P2 & P3 & P4).
  exists (mkRange (mmappedPtr a) (mmappedPtr a + mmappedSize a)).
  split; [apply mapped_bounds; (done || lia)|]. cbn [start end_]. split; [done|]. split; [done|]. split; [lia|done].
Qed.

(** The bounded allocator hands out pages of its range. *)
Definition bounded_inv (b : BoundedMmap U) : Prop :=
  u_inv (bm_underlying b) /\ pages_ok (bm_range b) /\ 0 < start (getRange (bm_range b)).

(** Either nothing is kept of a request, or the mapping is at the range taken. *)
Lemma bounded_allocate_page (k : K) (b : BoundedMmap U) size alignment :
  bounded_inv b -> request_ok size alignment ->
  exists a b' k', bounded_allocate k b size alignment ⇓ (a, b', k') /\ bounded_inv b' /\
    getRange (bm_range b') = getRange (bm_range b) /\
    if isValid a
    then size <= mmappedSize a /\ took (bm_range b) (bm_range b') (mkRange (mmappedPtr a) (mmappedPtr a + mmappedSize a)) /\
         u_live (bm_underlying b') (mm_base a)
    else flat (vma (bm_range b')) = flat (vma (bm_range b)) /\
         exists base size' u1 k1, u_allocate k (bm_underlying b) size' pageSize4KB ⇓ (base, u1, k1) /\
           (isValid base = true -> exists k2, u_free k2 u1 base ⇓ (bm_underlying b', k')).
Proof.
  intros (Hu & Hp & Hst) Hreq. destruct (adjust_page _ _ Hreq) as (size' & Hadj & Hm & Hsz & Hs'). unfold bounded_allocate. rewrite Hadj.
  destruct Hreq as (Hs & _).
  destruct (u_allocate_total k _ _ Hu Hs') as (base & u' & k' & Hal & Hu' & Hlive). rewrite Hal. cbn [mbind res_bind].
  destruct (isValid base) eqn:Hv; cbn [negb].
  2: { eexists _, _, _. split; [reflexivity|]. split; [by split|]. split; [done|]. rewrite noAlloc_mmapped. split; [done|].
       exists base, size', u', k'. by rewrite Hv. }
  cbn [bm_range bm_underlying useResetInsteadOfMunmap]. unfold address_allocate.
  destruct (pages_allocate _ size' Hp Hs' Hm) as [(p & r' & Har & Ht)|[Har _]]; rewrite Har; cbn [mbind res_bind].
  2: { change (rsize createEmpty) with 0. rewrite (proj2 (Z.leb_gt size' 0)) by lia. rewrite Z.eqb_refl.
       destruct (u_free_total k' u' base Hu' (Hlive eq_refl)) as (u2 & k2 & Hf & Hu2). rewrite Hf. cbn [mbind res_bind].
       eexists _, _, _. split; [reflexivity|]. split; [by split|]. split; [done|]. rewrite noAlloc_mmapped. split; [done|].
       exists base, size', u', k'. split; [done|]. intros _. by exists k'. }
  assert (Hrs : rsize (mkRange p (p + size')) = size').
  { unfold rsize. cbn [start end_]. replace (p + size' - p) with size' by lia. apply u64_id. word_unfold. lia. }
  rewrite Hrs, Z.leb_refl. cbn [start]. pose proof Ht as (Ht1 & Ht2 & Ht3 & Ht4 & Hp' & Hg & Hperm). cbn [start end_] in *.
  rewrite (proj2 (Z.eqb_neq p 0)) by lia.
  destruct (sys_mmap k' Fixed p size' (getFd base) (getFdOffset base)) as [[ptr|] k2] eqn:Hmm.
  - apply mmap_fixed in Hmm as ->. eexists _, _, _. split; [reflexivity|].
    rewrite mmapped_valid, Hv by lia. cbn [bm_range mmappedPtr mmappedSize bm_underlying mm_base].
    split; [split; [done|split; [done|by cbn; rewrite Hg]]|]. split; [done|]. split; [lia|]. split; [done|by apply Hlive].
  - destruct (pages_free r' (mkRange p (p + size')) p Hp') as (r2 & Hfr & Hp2 & Hg2 & Hperm2 & _).
    { rewrite Hperm. constructor. }
    { cbn. lia. }
    assert (Hfl : flat (vma r2) = flat (vma (bm_range b))).
    { assert (Hpp : Permutation (flat (vma r2)) (flat (vma (bm_range b)))).
      { apply (Permutation_cons_inv (a := mkRange p (p + size'))). by rewrite Hperm2, Hperm. }
      apply (ordered_Permutation (start (getRange (bm_range b))) (end_ (getRange (bm_range b)))); [|apply wf_ordered; apply Hp|done].
      rewrite <- Hg, <- Hg2. apply wf_ordered. apply Hp2. }
    unfold address_free. rewrite Hfr. cbn [mbind res_bind].
    destruct (u_free_total k2 u' base Hu' (Hlive eq_refl)) as (u2 & k3 & Hf & Hu2). rewrite Hf. cbn [mbind res_bind].
    eexists _, _, _. split; [reflexivity|]. split; [split; [done|split; [done|by cbn; rewrite Hg2, Hg]]|].
    split; [cbn; by rewrite Hg2|]. rewrite noAlloc_mmapped. split; [done|].
    exists base, size', u', k'. split; [done|]. intros _. by exists k2.
Qed.

Lemma bounded_free_range (k : K) (b : BoundedMmap U) (a : MmappedAllocation A) :
  bounded_inv b -> u_live (bm_underlying b) (mm_base a) -> 0 < mmappedPtr a -> 0 < mmappedSize a ->
  mkRange (mmappedPtr a) (mmappedPtr a + mmappedSize a) ∈ flat (vma (bm_range b)) ->
  exists b' k', bounded_free k b a ⇓ (b', k') /\ bounded_inv b' /\ getRange (bm_range b') = getRange (bm_range b) /\
    (b' = b \/ Permutation (mkRange (mmappedPtr a) (mmappedPtr a + mmappedSize a) :: flat (vma (bm_range b')))
                 (flat (vma (bm_range b)))).
Proof.
  intros (Hu & Hp & Hst) Hl Hptr Hsz Hin. unfold bounded_free. rewrite (proj2 (Z.eqb_neq (mmappedPtr a) 0)) by lia.
  destruct (if useResetInsteadOfMunmap b then _ else _) as [unmapped k1]. destruct unmapped.
  - destruct (pages_free _ _ (mmappedPtr a) Hp Hin) as (r' & Hf & Hp' & Hg & Hperm & _); [cbn; lia|].
    unfold address_free. rewrite Hf. cbn [mbind res_bind].
    destruct (u_free_total k1 _ _ Hu Hl) as (u' & k2 & Hfu & Hu'). rewrite Hfu. cbn [mbind res_bind].
    eexists _, _. split; [reflexivity|]. split; [split; [done|split; [done|by cbn; rewrite Hg]]|]. split; [done|]. by right.
  - eexists _, _. split; [reflexivity|]. split; [by split|]. split; [done|by left].
Qed.

Lemma bounded_free_taken (k : K) (b b' : BoundedMmap U) (a : MmappedAllocation A) :
  bounded_inv b -> bounded_inv b' -> u_live (bm_underlying b') (mm_base a) -> 0 < mmappedSize a ->
  took (bm_range b) (bm_range b') (mkRange (mmappedPtr a) (mmappedPtr a + mmappedSize a)) ->
  exists b2 k2, bounded_free k b' a ⇓ (b2, k2) /\ bounded_inv b2 /\
    (b2 = b' \/ flat (vma (bm_range b2)) = flat (vma (bm_range b))).
Proof.
  intros (_ & (Hr & _) & Hst) Hb' Hl Hsz (Ht1 & _ & _ & _ & _ & Hg & Hperm). cbn [start] in *.
  destruct (bounded_free_range k b' a Hb' Hl) as (b2 & k2 & Hf & Hb2 & Hg2 & Hres); [lia|done|rewrite Hperm; constructor|].
  exists b2, k2. split; [done|]. split; [done|]. destruct Hres as [->|Hres]; [by left|right].
  rewrite Hperm in Hres. apply Permutation_cons_inv in Hres.
  apply (ordered_Permutation (start (getRange (bm_range b))) (end_ (getRange (bm_range b)))); [|apply wf_ordered; apply Hr|done].
  rewrite <- Hg, <- Hg2. apply wf_ordered. apply Hb2.
Qed.

End mmap_lemmas.

(** * A small allocator of files

    The state lists the descriptors that are in use. *)
Module ToyFiles.

Definition allocate {K} (k : K) (used : list Z) (size alignment : Z) : res (FdAllocation unit * list Z * K) :=
  let fd := fold_right Z.max 2 used + 1 in
  Ret (mkFdAllocation tt size fd true, fd :: used, k).

Definition free {K} (k : K) (used : list Z) (a : FdAllocation unit) : res (list Z * K) :=
  Ret (base.filter (fun n => n <> fd a) used, k).

End ToyFiles.

#[export] Instance toy_files {K} : UnderlyingAllocator K (list Z) (FdAllocation unit) := {|
  u_allocate := ToyFiles.allocate;
  u_free := ToyFiles.free |}.

#[export] Instance toy_files_laws {K} : AllocatorLaws K (list Z) (FdAllocation unit).
Proof.
  refine {| u_inv := fun _ => True; u_live := fun _ _ => True |}.
  - intros k u size _ _. by eexists _, _, _.
  - intros k u a _ _. by eexists _, _.
Defined.

(** * Properties *)
Section properties.
Context {K U A : Type}.

(** C9: An arena allocator never hands out memory twice, whatever other threads do to it while
    an allocation holds no lock ([between1], [between2]: any changes that keep the
    invariant): on arenas whose ranges are well formed, [allocate] of at most page alignment
    always returns and keeps the invariant.  A valid result is, at the moment it is taken,
    either a page-aligned range of one arena — inside the arena, disjoint from everything
    handed out of it, now recorded there, all other arenas untouched — or, above half the
    arena size, a source allocation of its own; with an invalid result nothing is taken.
    What may be lost before that moment is stated by [retried]: one range of an arena that
    another thread put up meanwhile ([ArenaAllocator_race_leaks]); alone, nothing. *)
Theorem ArenaAllocator_allocate_exclusive `{MappedLaws K U A} between1 between2 (k : K) (a : ArenaAllocator U A) size alignment :
  (forall a, arena_inv a -> arena_inv (between1 a)) -> (forall a, arena_inv a -> arena_inv (between2 a)) ->
  arena_inv a -> request_ok size alignment ->
  exists alloc a' k' before, arena_allocate between1 between2 k a size alignment ⇓ (alloc, a', k') /\ arena_inv a' /\
    moment between1 between2 a before /\
    if isValid alloc then served before a' alloc size else forall i, arena_ranges a' i = arena_ranges before i.
Proof. apply arena_allocate_served. Qed.

(** Alone, an allocation takes its memory from the state it starts in. *)
Lemma moment_alone `{MappedLaws K U A} (a before : ArenaAllocator U A) : moment id id a before -> forall i, arena_ranges before i = arena_ranges a i.
Proof.
  intros [->|[->|(c & _ & Hc & Hl & [Hr|(Hne & _)])]] i; [done..|unfold id in *; by rewrite Hr, Hc|]. unfold id in *. congruence.
Qed.

(** Freeing what an arena handed out gives back exactly that range and
    nothing else, and keeps the invariant; afterwards the arena is the latest one,
    or waits to be recycled, or has less than the threshold left. *)
Theorem ArenaAllocator_free_returns_range `{MappedLaws K U A} (k : K) (a : ArenaAllocator U A) alloc i x :
  arena_inv a -> is_range a alloc i x -> x ∈ arena_ranges a i ->
  exists a', arena_free k a alloc ⇓ (a', k) /\ arena_inv a' /\
    (exists l1 l2, arena_ranges a i = l1 ++ x :: l2 /\ arena_ranges a' i = l1 ++ l2) /\
    (forall j, j <> i -> arena_ranges a' j = arena_ranges a j) /\
    (i ∈ recycledArenas a' \/ i = latestArena a' \/
     sub_getSizeLeft (from_option id (mkSubAllocator noAlloc (newRangeAllocator createEmpty) false) (allArenas a' !! i))
       < standaloneAllocationThreshold a').
Proof.
  intros Ha Hr Hx. destruct (arena_free_range k a alloc i x Ha Hr Hx) as (a' & Hf & Hinv & _ & Hs & Ho & Hrec). by exists a'.
Qed.

(** The bounded mapping allocator is all or nothing: a request either maps
    pages of the range that were free, at the address the range allocator chose,
    or leaves the range as it was; and freeing the mapping restores the range,
    unless the pages could not be unmapped, when they stay taken. *)
Theorem BoundedMmap_allocate_free `{KernelLaws K, FdAllocationLike A, AllocatorLaws K U A}
  (k : K) (b : BoundedMmap U) size alignment :
  bounded_inv b -> request_ok size alignment ->
  exists (a : MmappedAllocation A) b' k', bounded_allocate k b size alignment ⇓ (a, b', k') /\ bounded_inv b' /\
    if isValid a
    then size <= mmappedSize a /\ took (bm_range b) (bm_range b') (mkRange (mmappedPtr a) (mmappedPtr a + mmappedSize a)) /\
         forall k1, exists b2 k2, bounded_free k1 b' a ⇓ (b2, k2) /\ bounded_inv b2 /\
           (b2 = b' \/ flat (vma (bm_range b2)) = flat (vma (bm_range b)))
    else flat (vma (bm_range b')) = flat (vma (bm_range b)).
Proof.
  intros Hb Hreq. destruct (bounded_allocate_page k b size alignment Hb Hreq) as (a & b' & k' & Hal & Hb' & _ & Hres).
  exists a, b', k'. do 2 (split; [done|]). destruct (isValid a); [|by destruct Hres as [Hres _]].
  destruct Hres as (Hs & Ht & Hl). do 2 (split; [done|]). intros k1. destruct Hreq as (Hp & _).
  apply (bounded_free_taken k1 b b' a); try done. lia.
Qed.

(** The global mapping allocator cannot serve an alignment above a page, and
    finds out only after the underlying allocation was made: it returns an invalid
    allocation and the underlying one is never freed. *)
Theorem GlobalMmap_overaligned_leaks `{Kernel K, Allocation A, FdAllocationLike A, UnderlyingAllocator K U A}
  (k k' : K) (u u' : U) (base : A) size alignment :
  isPow2 alignment = true -> pageSize4KB < alignment ->
  u_allocate k u (alignUp size alignment) alignment ⇓ (base, u', k') -> isValid base = true ->
  global_allocate k u size alignment ⇓ (noAlloc, u', k').
Proof.
  intros Hp Ha Hal Hv. unfold global_allocate, adjustSizeAndAlignment. rewrite Hp. cbn [negb andb].
  rewrite (proj2 (Z.ltb_ge alignment pageSize4KB)) by lia. rewrite Hal. cbn [mbind res_bind]. rewrite Hv. cbn [negb].
  by rewrite (proj2 (Z.ltb_lt pageSize4KB alignment)).
Qed.

End properties.

(** * Concrete runs *)

(** An arena allocator of 64 KiB arenas over mapped files. *)
Definition exampleUnderlying : GlobalMmap (list Z) := mkGlobal [].

Definition exampleArena : ArenaAllocator (GlobalMmap (list Z)) (MmappedAllocation (FdAllocation unit)) :=
  mkArena (mkGlobal [3]) 65536 32768
    [mkSubAllocator (mkMmapped (mkFdAllocation tt 4096 3 true) 0x10000000 4096)
       (newRangeAllocator (mkRange 0x10000000 0x10001000)) false] [] 0.

Definition exampleKernel : Toy.kernel := Toy.mkKernel 0x10001000 3 [] [] [] [].

Lemma makeArenaAllocator_example :
  makeArenaAllocator Toy.fresh exampleUnderlying 65536 ⇓ (exampleArena, exampleKernel).
Proof. reflexivity. Qed.

Lemma exampleArena_inv : arena_inv (K := Toy.kernel) exampleArena.
Proof.
  apply mkArenaInv; [|cbn; lia|constructor|constructor|apply not_elem_of_nil|done|cbn; lia].
  constructor; [|constructor]. split; [|by split]. split; [apply fresh_ok; cbn; unfold half; lia|].
  split; [done|constructor].
Qed.

(** The same arena with its only page handed out. *)
Definition fullArena : ArenaAllocator (GlobalMmap (list Z)) (MmappedAllocation (FdAllocation unit)) :=
  set_arenas exampleArena
    [mkSubAllocator (mkMmapped (mkFdAllocation tt 4096 3 true) 0x10000000 4096)
       (commitRange (newRangeAllocator (mkRange 0x10000000 0x10001000)) (mkRange 0x10000000 0x10001000)) false].

Definition fullArena_alloc : SubAllocation (MmappedAllocation (FdAllocation unit)) :=
  mkSub (Some (mkMmapped (mkFdAllocation tt 4096 3 true) 0x10000000 4096)) 0 4096 (Some O).

Lemma ArenaAllocator_free_returns_range_witness :
  exists a', arena_free exampleKernel fullArena fullArena_alloc ⇓ (a', exampleKernel) /\ arena_inv a' /\
    arena_ranges a' 0 = [] /\ recycledArenas a' = [].
Proof.
  destruct (ArenaAllocator_free_returns_range exampleKernel fullArena fullArena_alloc 0 (mkRange 0x10000000 0x10001000))
    as (a' & Hf & Hinv & (l1 & l2 & Hl & Hl') & _).
  - apply mkArenaInv; [|cbn; lia|constructor|constructor|apply not_elem_of_nil|done|cbn; lia].
    constructor; [|constructor]. split; [|by split]. split; [constructor; cbn; unfold half; (done || lia || idtac)|].
    + repeat constructor; cbn; lia.
    + split; [done|]. repeat constructor.
  - split; [done|]. split; [reflexivity|]. split; [reflexivity|]. split; [by eexists|reflexivity].
  - constructor.
  - exists a'. split; [exact Hf|]. split; [exact Hinv|]. split.
    + rewrite Hl'. by destruct l1 as [|? [|? ?]], l2.
    + vm_compute in Hf. by injection Hf as <-.
Defined.

Definition exampleBounded : BoundedMmap (list Z) :=
  mkBounded [3] true (newRangeAllocator (mkRange 0x20000000 0x20010000)).

Lemma BoundedMmap_allocate_free_witness :
  exists (a : MmappedAllocation (FdAllocation unit)) b' k',
    bounded_allocate exampleKernel exampleBounded 5000 0 ⇓ (a, b', k') /\ mmappedPtr a = 0x20000000 /\
    mmappedSize a = 8192 /\ bounded_inv (K := Toy.kernel) (A := FdAllocation unit) b' /\
    exists b2 k2, bounded_free k' b' a ⇓ (b2, k2) /\ flat (vma (bm_range b2)) = [].
Proof.
  destruct (BoundedMmap_allocate_free exampleKernel exampleBounded 5000 0) as (a & b' & k' & Hal & Hb' & Hres).
  - split; [done|]. split; [split; [apply fresh_ok; cbn; unfold half; lia|split; [done|constructor]]|cbn; lia].
  - split; [lia|]. split; [change pageSize4KB with 4096; lia|by left].
  - vm_compute in Hal. injection Hal as <- <- <-. eexists _, _, _. split; [vm_compute; reflexivity|].
    do 2 (split; [reflexivity|]). split; [exact Hb'|]. cbn [isValid] in Hres.
    destruct Hres as (_ & _ & Hfree). eexists _, _. split; [vm_compute; reflexivity|]. reflexivity.
Defined.

Lemma GlobalMmap_overaligned_leaks_witness :
  global_allocate exampleKernel [3] 5000 8192 ⇓ (noAlloc : MmappedAllocation (FdAllocation unit), [4; 3], exampleKernel).
Proof.
  apply (GlobalMmap_overaligned_leaks exampleKernel exampleKernel [3] [4; 3] (mkFdAllocation tt 8192 4 true) 5000 8192);
    [reflexivity|change pageSize4KB with 4096; lia|reflexivity|reflexivity].
Defined.

(** What another thread that also found the latest arena full does first. *)
Definition otherThread (a : ArenaAllocator (GlobalMmap (list Z)) (MmappedAllocation (FdAllocation unit))) :=
  match allocateInNewArena exampleKernel a 4096 4096 with
  | Ret (_, a', _) => a'
  | _ => a
  end.

Lemma fullArena_inv : arena_inv (K := Toy.kernel) fullArena.
Proof.
  apply mkArenaInv; [|cbn; lia|constructor|constructor|apply not_elem_of_nil|done|cbn; lia].
  constructor; [|constructor]. split; [|by split]. split; [constructor; [repeat constructor; cbn; lia|cbn; unfold half; lia..|done]|].
  split; [done|repeat constructor].
Qed.

Lemma otherThread_inv a : arena_inv (K := Toy.kernel) a -> arena_inv (K := Toy.kernel) (otherThread a).
Proof.
  intros Ha. unfold otherThread. change 4096 with pageSize4KB at 2.
  destruct (allocateInNewArena_correct exampleKernel a 4096 Ha ltac:(lia) ltac:(done)) as (alloc & a' & k' & Heq & Hinv & _). by rewrite Heq.
Qed.

(** Another thread puts up an arena before the lock of the arenas is taken. *)
Lemma ArenaAllocator_allocate_exclusive_witness :
  exists alloc a' k' before, arena_allocate id otherThread exampleKernel fullArena 4096 4096 ⇓ (alloc, a', k') /\ arena_inv a' /\
    isValid alloc = true /\ moment id otherThread fullArena before /\ served before a' alloc 4096.
Proof.
  destruct (ArenaAllocator_allocate_exclusive id otherThread exampleKernel fullArena 4096 4096) as (alloc & a' & k' & before & Heq & Hinv & Hmom & Hs);
    [done|intros a Ha; by apply otherThread_inv|exact fullArena_inv|split; [lia|]; split; [change pageSize4KB with 4096; lia|by right]|].
  exists alloc, a', k', before. split; [exact Heq|]. split; [exact Hinv|].
  assert (Hv : isValid alloc = true) by (vm_compute in Heq; injection Heq as <- _ _; reflexivity).
  rewrite Hv in Hs. split; [exact Hv|]. by split.
Defined.

(** When another thread has put up a new arena between the fast path and the
    lock of the arenas, [allocate] takes a range from that arena and drops it: the
    caller gets a range of yet another arena, and the dropped range stays recorded
    although nobody can free it. *)
Theorem ArenaAllocator_race_leaks :
  exists alloc a' k', arena_allocate id otherThread Toy.fresh fullArena 4096 4096 ⇓ (alloc, a', k') /\
    isValid alloc = true /\ arena alloc = Some 2%nat /\
    arena_ranges (otherThread fullArena) 1 = [mkRange 0x10001000 0x10002000] /\
    arena_ranges a' 1 = [mkRange 0x10001000 0x10002000; mkRange 0x10002000 0x10003000].
Proof. eexists _, _, _. split; [vm_compute; reflexivity|]. repeat split. Qed.
