(* ===== verification/Shmem.v ===== *)
(** Shared memory files: [ShmemAllocation], [ShmemAllocator],
    [ShmemImporter], [allocateShmemOnRemote] and [MallocShmemImporter] of
    shared/shmem.h, and [UsmShmemImporter] of shared/usm.h.  The shared memory
    allocator implements the interface that the mapping allocators of SubAlloc.v
    are stacked on. *)

From stdpp Require Import gmap strings pretty.
From S2P Require Import Prelude.
From S2P Require Import Align.
From S2P Require Import Ranges.
From S2P Require Import BitAlloc.
From S2P Require Import RangeAlloc.
From S2P Require Import Kernel.
From S2P Require Import SubAlloc.
From S2P Require Import Messages.
Local Open Scope Z_scope.

(** * ShmemAllocation *)

Definition invalidShmemId : Z := -1.

Record ShmemAllocation := mkShmem { shmem_id : Z; isShmemOwner : bool }.

#[export] Instance shmem_allocation : Allocation ShmemAllocation := {|
  noAlloc := mkShmem invalidShmemId false;
  isValid := fun a => negb (shmem_id a =? invalidShmemId);
  allocRange := fun _ => Ret (mkRange 0 0) |}.

Abbreviation OpenedShmemAllocation := (FdAllocation ShmemAllocation).
Abbreviation MmappedShmemAllocation := (MmappedAllocation OpenedShmemAllocation).
Abbreviation MmappedShmemSubAllocation := (MmappedAllocation (FdSubAllocation OpenedShmemAllocation)).

(** The name of a file: [basePath + std::to_string(id)]. *)
Definition shmPath (basePath : string) (id : Z) : string := (basePath +:+ pretty id)%string.

(** * ShmemAllocator *)

Definition maxShmems : Z := 4096.

(** [totalShmemAvailable] only matters for a warning. *)
Record ShmemAllocator := mkShmemAllocator {
  shmemIdAllocator : BitAllocator; sh_basePath : string; totalShmemAllocated : Z }.

Definition newShmemAllocator (path : string) : ShmemAllocator :=
  mkShmemAllocator (makeBitAllocator maxShmems) path 0.

Definition incrementShmemUsed (s : ShmemAllocator) (sizeDiff : Z) : ShmemAllocator :=
  mkShmemAllocator (shmemIdAllocator s) (sh_basePath s) (u64 (totalShmemAllocated s + sizeDiff)).
Definition decrementShmemUsed (s : ShmemAllocator) (sizeDiff : Z) : ShmemAllocator :=
  mkShmemAllocator (shmemIdAllocator s) (sh_basePath s) (u64 (totalShmemAllocated s - sizeDiff)).
Definition set_ids (s : ShmemAllocator) (ids : BitAllocator) : ShmemAllocator :=
  mkShmemAllocator ids (sh_basePath s) (totalShmemAllocated s).

Section shmem_allocator.
Context {K : Type} `{Kernel K}.

Definition shmem_allocate (k : K) (s : ShmemAllocator) (size alignment : Z)
  : res (OpenedShmemAllocation * ShmemAllocator * K) :=
  match adjustSizeAndAlignment pageSize4KB size alignment with
  | None => Ret (noAlloc, s, k)
  | Some (size, _) =>
      let s := incrementShmemUsed s size in
      '(id, ids) ← bit_allocate (shmemIdAllocator s);
      let s := set_ids s ids in
      if invalidOffset =? id then Ret (noAlloc, decrementShmemUsed s size, k)
      else
        let path := shmPath (sh_basePath s) id in
        let (_, k) := sys_shm_unlink k path in
        let (shmemFd, k) := sys_shm_open k path true in
        match shmemFd with
        | None => Ret (noAlloc, decrementShmemUsed s size, k)
        | Some shmemFd =>
            let (truncated, k) := sys_ftruncate k shmemFd size in
            if negb truncated then
              let (_, k) := sys_close k shmemFd in
              let (_, k) := sys_shm_unlink k path in
              Ret (noAlloc, decrementShmemUsed s size, k)
            else Ret (mkFdAllocation (mkShmem id true) size shmemFd true, s, k)
        end
  end.

(** Errors of [ftruncate] and [close] are only logged; the id goes back when the
    file could be unlinked. *)
Definition shmem_free (k : K) (s : ShmemAllocator) (alloc : OpenedShmemAllocation) : ShmemAllocator * K :=
  let id := shmem_id (fd_base alloc) in
  let path := shmPath (sh_basePath s) id in
  let k := if isFdOwner alloc
           then let (_, k) := sys_ftruncate k (fd alloc) 0 in snd (sys_close k (fd alloc))
           else k in
  if isShmemOwner (fd_base alloc) then
    let (unlinked, k) := sys_shm_unlink k path in
    if bool_decide (unlinked = Unlinked)
    then (decrementShmemUsed (set_ids s (fst (bit_free (shmemIdAllocator s) id))) (fileSize alloc), k)
    else (s, k)
  else (s, k).

End shmem_allocator.

#[export] Instance shmem_underlying {K} `{Kernel K} : UnderlyingAllocator K ShmemAllocator OpenedShmemAllocation := {|
  u_allocate := shmem_allocate;
  u_free := fun k s a => Ret (shmem_free k s a) |}.

(** * ShmemImporter *)

Record RefCountedFd := mkRefCountedFd { rc_fd : Z; refcnt : Z }.

Record ShmemImporter := mkImporter {
  im_basePath : string; fileMap : gmap string RefCountedFd; doEarlyUnlink : bool }.

Definition set_fileMap (s : ShmemImporter) (m : gmap string RefCountedFd) : ShmemImporter :=
  mkImporter (im_basePath s) m (doEarlyUnlink s).

Section importer.
Context {K : Type} `{Kernel K}.

Definition getFileDescriptor (k : K) (s : ShmemImporter) (path : string) : option Z * ShmemImporter * K :=
  match fileMap s !! path with
  | None =>
      let (fd, k) := sys_shm_open k path false in
      match fd with
      | None => (None, s, k)
      | Some fd =>
          let k := if doEarlyUnlink s then snd (sys_shm_unlink k path) else k in
          (Some fd, set_fileMap s (<[path := mkRefCountedFd fd 1]> (fileMap s)), k)
      end
  | Some e =>
      (Some (rc_fd e), set_fileMap s (<[path := mkRefCountedFd (rc_fd e) (refcnt e + 1)]> (fileMap s)), k)
  end.

Definition closeFileDescriptor (k : K) (s : ShmemImporter) (shmemFd : Z) (path : string) : ShmemImporter * K :=
  match fileMap s !! path with
  | None => (s, k)
  | Some e =>
      if negb (rc_fd e =? shmemFd) then (s, k)
      else if refcnt e <=? 0 then (s, k)
      else if doEarlyUnlink s then
        (set_fileMap s (<[path := mkRefCountedFd (rc_fd e) (refcnt e - 1)]> (fileMap s)), k)
      else if refcnt e =? 1 then
        let (closed, k) := sys_close k (rc_fd e) in
        if (closed : bool) then (set_fileMap s (delete path (fileMap s)), k) else (s, k)
      else (set_fileMap s (<[path := mkRefCountedFd (rc_fd e) (refcnt e - 1)]> (fileMap s)), k)
  end.

Definition import_open (k : K) (s : ShmemImporter) (id offset size enforcedVaForMmap : Z)
  : MmappedShmemSubAllocation * ShmemImporter * K :=
  if id =? invalidShmemId then (noAlloc, s, k)
  else if negb (isAlignedPow2 pageSize4KB size) then (noAlloc, s, k)
  else if negb (enforcedVaForMmap =? 0) && negb (isAlignedPow2 pageSize4KB enforcedVaForMmap) then (noAlloc, s, k)
  else
    let path := shmPath (im_basePath s) id in
    let '(shmemFd, s, k) := getFileDescriptor k s path in
    match shmemFd with
    | None => (noAlloc, s, k)
    | Some shmemFd =>
        let (ptr, k) := sys_mmap k (if enforcedVaForMmap =? 0 then Anywhere else Fixed) enforcedVaForMmap size shmemFd offset in
        match ptr with
        | None => (noAlloc, s, snd (sys_shm_unlink k path))
        | Some ptr =>
            (mkMmapped (mkFdSub (mkFdAllocation (mkShmem id false) (u64 (offset + size)) shmemFd true) offset) ptr size, s, k)
        end
    end.

Definition import_release (k : K) (s : ShmemImporter) (shmem : MmappedShmemSubAllocation) : ShmemImporter * K :=
  let opened := fds_base (mm_base shmem) in
  let path := shmPath (im_basePath s) (shmem_id (fd_base opened)) in
  let k := if mmappedPtr shmem =? 0 then k else snd (sys_munmap k (mmappedPtr shmem) (mmappedSize shmem)) in
  if isFdOwner opened then closeFileDescriptor k s (fd opened) path else (s, k).

(** [UsmShmemImporter]: the four-argument [open] insists on an address, and a
    release resets the range instead of unmapping it. *)
Definition usm_open (k : K) (s : ShmemImporter) (id offset size enforcedVaForMmap : Z)
  : MmappedShmemSubAllocation * ShmemImporter * K :=
  if enforcedVaForMmap =? 0 then (noAlloc, s, k) else import_open k s id offset size enforcedVaForMmap.

Definition usm_release (k : K) (s : ShmemImporter) (shmem : MmappedShmemSubAllocation) : ShmemImporter * K :=
  let opened := fds_base (mm_base shmem) in
  let (unmapSuccessful, k) :=
    if mmappedPtr shmem =? 0 then (true, k)
    else let (ptr, k) := sys_mmap k Fixed (mmappedPtr shmem) (mmappedSize shmem) (-1) 0 in (bool_decide (is_Some ptr), k) in
  if (unmapSuccessful : bool) && isFdOwner opened
  then closeFileDescriptor k s (fd opened) (shmPath (im_basePath s) (shmem_id (fd_base opened)))
  else (s, k).

End importer.

(** * Shared memory of the remote process *)

Record RemoteShmemDesc := mkRemoteShmem { rs_id : Z; rs_offset : Z; rs_size : Z; rs_sharedVa : Z }.

Definition noRemoteShmem : RemoteShmemDesc := mkRemoteShmem invalidShmemId 0 0 0.

Definition remoteShmem_isValid (d : RemoteShmemDesc) : bool := negb (invalidShmemId =? rs_id d).

(** The connection is a parameter: whether the request was sent, and the response
    (if any) that was received. *)
Definition allocateShmemOnRemote (send : ReqAllocateShmem -> bool) (receive : ReqAllocateShmem -> option RespAllocateShmem)
  (purpose : AllocationPurpose) (minSize : Z) (useSharedVa : bool) : RemoteShmemDesc :=
  let alignedSize := alignUpPow2 pageSize4KB minSize in
  let request := mkReqAllocateShmem (ras_header newReqAllocateShmem) alignedSize purpose useSharedVa in
  if negb (send request) then noRemoteShmem
  else
    match receive request with
    | None => noRemoteShmem
    | Some response =>
        if RespAllocateShmem_isInvalid response then noRemoteShmem
        else mkRemoteShmem (pas_id response) 0 (pas_size response) (pas_sharedVa response)
    end.

(** [open(const RemoteShmemDesc &)] of the two importers; the shared one drops
    the offset. *)
Definition import_openRemote {K} `{Kernel K} (k : K) (s : ShmemImporter) (d : RemoteShmemDesc) :=
  import_open k s (rs_id d) (rs_offset d) (rs_size d) (rs_sharedVa d).
Definition usm_openRemote {K} `{Kernel K} (k : K) (s : ShmemImporter) (d : RemoteShmemDesc) :=
  import_open k s (rs_id d) 0 (rs_size d) (rs_sharedVa d).

(** * MallocShmemImporter *)

Record MallocShmemImporter := mkMallocImporter {
  ms_fd : Z; exporterBaseAddress : Z; ms_capacity : Z; importedHeapSize : Z; localBaseAddress : Z }.

Definition newMallocImporter : MallocShmemImporter := mkMallocImporter (-1) u64_max 0 0 0.

Section malloc_importer.
Context {K : Type} `{Kernel K}.

Definition malloc_open (k : K) (m : MallocShmemImporter) (path : string) (capacity base : Z)
  : bool * MallocShmemImporter * K :=
  if negb (ms_fd m =? -1) then (false, m, k)
  else
    let (fd, k) := sys_shm_open k path false in
    match fd with
    | None => (false, mkMallocImporter (-1) base capacity (importedHeapSize m) (localBaseAddress m), k)
    | Some fd =>
        let (ptr, k) := sys_mmap k Anywhere 0 capacity fd 0 in
        match ptr with
        | None => (false, mkMallocImporter (-1) base capacity (importedHeapSize m) 0, snd (sys_close k fd))
        | Some ptr => (true, mkMallocImporter fd base capacity (importedHeapSize m) ptr, k)
        end
    end.

(** [before] is what other threads do before the lock of [importedHeapSize] is
    taken; a null pointer is 0. *)
Definition malloc_import (before : MallocShmemImporter -> MallocShmemImporter) (k : K) (m : MallocShmemImporter)
  (exporterAddress size exporterHeapSizeHint : Z) : Z * MallocShmemImporter * K :=
  if exporterAddress <? exporterBaseAddress m then (0, m, k)
  else
    let offset := exporterAddress - exporterBaseAddress m in
    let requiredHeapSize := if exporterHeapSizeHint =? 0 then alignUp (u64 (offset + size)) pageSize4KB
                            else exporterHeapSizeHint in
    if ms_capacity m <? requiredHeapSize then (0, m, k)
    else if requiredHeapSize <? u64 (offset + size) then (0, m, k)
    else if u64 (offset + size) <? importedHeapSize m then (moveByBytes (localBaseAddress m) offset, m, k)
    else
      let m := before m in
      if u64 (offset + size) <? importedHeapSize m then (moveByBytes (localBaseAddress m) offset, m, k)
      else
        let importedEnd := moveByBytes (localBaseAddress m) (importedHeapSize m) in
        let (ptr, k) := sys_mmap k Fixed importedEnd (u64 (requiredHeapSize - importedHeapSize m)) (ms_fd m) (importedHeapSize m) in
        match ptr with
        | None => (0, m, k)
        | Some _ =>
            (moveByBytes (localBaseAddress m) offset,
             mkMallocImporter (ms_fd m) (exporterBaseAddress m) (ms_capacity m) requiredHeapSize (localBaseAddress m), k)
        end.

Definition malloc_isImported (m : MallocShmemImporter) (ptr : Z) : res bool :=
  range ← rangeOfSize (localBaseAddress m) (ms_capacity m);
  one ← rangeOfPtr ptr;
  Ret (contains range one).

Definition malloc_destroy (k : K) (m : MallocShmemImporter) : K :=
  let k := if localBaseAddress m =? 0 then k else snd (sys_munmap k (localBaseAddress m) (ms_capacity m)) in
  if ms_fd m =? -1 then k else snd (sys_close k (ms_fd m)).

End malloc_importer.

(** * Lemmas *)

(** ** The allocator *)

Record shm_ok (s : ShmemAllocator) : Prop := mkShmOk {
  so_bits : bits_ok (shmemIdAllocator s);
  so_total : is_u64 (totalShmemAllocated s)
}.

Lemma used_roundtrip s sizeDiff :
  is_u64 (totalShmemAllocated s) -> decrementShmemUsed (incrementShmemUsed s sizeDiff) sizeDiff = s.
Proof.
  intros Ht. destruct s as [ids path total]. unfold decrementShmemUsed, incrementShmemUsed. cbn in *. f_equal.
  word_unfold. Z.div_mod_to_equations. lia.
Qed.

(** What [allocate] did to the ids and to the accounting. *)
Definition shm_allocated (s s' : ShmemAllocator) (a : OpenedShmemAllocation) (size : Z) : Prop :=
  sh_basePath s' = sh_basePath s /\
  if isValid a
  then takes (shmemIdAllocator s) (shmem_id (fd_base a)) (shmemIdAllocator s') /\
       fileSize a mod pageSize4KB = 0 /\ size <= fileSize a < size + pageSize4KB /\
       isShmemOwner (fd_base a) = true /\ isFdOwner a = true /\
       totalShmemAllocated s' = u64 (totalShmemAllocated s + fileSize a)
  else totalShmemAllocated s' = totalShmemAllocated s /\
       ((all_taken (shmemIdAllocator s) /\ shmemIdAllocator s' = shmemIdAllocator s) \/
        exists id, takes (shmemIdAllocator s) id (shmemIdAllocator s')).

Section shmem_lemmas.
Context {K : Type} `{KL : KernelLaws K}.

Lemma noAlloc_opened : isValid (noAlloc : OpenedShmemAllocation) = false.
Proof. done. Qed.

Lemma shmem_allocate_correct (k : K) s size alignment :
  shm_ok s -> request_ok size alignment ->
  exists a s' k', shmem_allocate k s size alignment ⇓ (a, s', k') /\ shm_ok s' /\ shm_allocated s s' a size.
Proof.
  intros [Hb Ht] Hreq. destruct (adjust_page _ _ Hreq) as (size' & Hadj & Hm & Hsz & Hs'). unfold shmem_allocate. rewrite Hadj.
  destruct (bit_allocate_spec _ Hb) as (id & ids & Hbit & Hids & Hres). cbn [incrementShmemUsed shmemIdAllocator]. rewrite Hbit.
  cbn [mbind res_bind].
  assert (Hfail : forall s0, s0 = decrementShmemUsed (set_ids (incrementShmemUsed s size') ids) size' ->
            shm_ok s0 /\ shm_allocated s s0 noAlloc size).
  { intros s0 ->. replace (decrementShmemUsed _ _) with (set_ids s ids)
      by (destruct s; unfold decrementShmemUsed, set_ids, incrementShmemUsed; cbn in *; f_equal; word_unfold; Z.div_mod_to_equations; lia).
    split; [by split|]. split; [done|]. rewrite noAlloc_opened. split; [done|].
    destruct Hres as [(_ & -> & Hall)|[_ Htk]]; [by left|right; by exists id]. }
  destruct (Z.eqb_spec invalidOffset id) as [Hid|Hid].
  { eexists _, _, _. split; [reflexivity|]. by apply Hfail. }
  destruct Hres as [(? & _)|[_ Htk]]; [by exfalso; apply Hid|].
  destruct (sys_shm_unlink k _) as [u1 k1]. destruct (sys_shm_open k1 _ true) as [[shmemFd|] k2] eqn:Hopen.
  2: { eexists _, _, _. split; [reflexivity|]. by apply Hfail. }
  apply shm_open_fd in Hopen.
  destruct (sys_ftruncate k2 shmemFd size') as [[|] k3]; cbn [negb].
  2: { destruct (sys_close k3 shmemFd) as [u2 k4]. destruct (sys_shm_unlink k4 _) as [u3 k5].
       eexists _, _, _. split; [reflexivity|]. by apply Hfail. }
  eexists _, _, _. split; [reflexivity|].
  assert (Hv : isValid (mkFdAllocation (mkShmem id true) size' shmemFd true) = true).
  { unfold isValid, fd_allocation, isValid, shmem_allocation. cbn [fd fd_base shmem_id].
    destruct Htk as (Hr & _). unfold invalidShmemId.
    by rewrite (proj2 (Z.eqb_neq shmemFd (-1))), (proj2 (Z.eqb_neq id (-1))) by lia. }
  split; [split; [done|apply u64_range]|]. split; [done|]. rewrite Hv. cbn [fd_base shmem_id fileSize].
  split; [exact Htk|]. split; [done|]. split; [lia|done].
Qed.

Lemma shmem_free_correct (k : K) s a :
  shm_ok s -> isFdOwner a = true -> isShmemOwner (fd_base a) = true -> 0 <= shmem_id (fd_base a) ->
  exists k1, let (unlinked, k2) := sys_shm_unlink k1 (shmPath (sh_basePath s) (shmem_id (fd_base a))) in
    snd (shmem_free k s a) = k2 /\ shm_ok (fst (shmem_free k s a)) /\
    if bool_decide (unlinked = Unlinked)
    then (forall n, 0 <= n -> taken (shmemIdAllocator (fst (shmem_free k s a))) n =
                              taken (shmemIdAllocator s) n && negb (n =? shmem_id (fd_base a))) /\
         totalShmemAllocated (fst (shmem_free k s a)) = u64 (totalShmemAllocated s - fileSize a)
    else fst (shmem_free k s a) = s.
Proof.
  intros Hok Hf Ho Hid. pose proof Hok as [Hb Ht]. unfold shmem_free. rewrite Hf, Ho.
  destruct (sys_ftruncate k (fd a) 0) as [u1 k0]. exists (snd (sys_close k0 (fd a))).
  destruct (sys_shm_unlink _ _) as [unlinked k2]. destruct (bool_decide (unlinked = Unlinked)); [|done].
  destruct (bit_free_spec _ _ Hb Hid) as (Hb' & _ & _ & Htk). split; [done|]. cbn [fst decrementShmemUsed set_ids shmemIdAllocator totalShmemAllocated].
  split; [split; [done|apply u64_range]|]. by split.
Qed.

#[export] Instance shmem_laws : AllocatorLaws K ShmemAllocator OpenedShmemAllocation.
Proof.
  refine {| u_inv := shm_ok;
            u_live := fun _ a => isFdOwner a = true /\ isShmemOwner (fd_base a) = true /\ 0 <= shmem_id (fd_base a) |}.
  - intros k s size Hok Hs. cbn [u_allocate shmem_underlying].
    destruct (shmem_allocate_correct k s size pageSize4KB Hok) as (a & s' & k' & Hal & Hok' & _ & Hres).
    { split; [done|]. by split; [split|right]. }
    exists a, s', k'. do 2 (split; [done|]). intros Hv. rewrite Hv in Hres. destruct Hres as ((Hr & _) & _ & _ & ? & ? & _).
    split; [done|]. split; [done|lia].
  - intros k s a Hok (Hf & Ho & Hid). cbn [u_free shmem_underlying].
    destruct (shmem_free_correct k s a Hok Hf Ho Hid) as (k1 & Hres). destruct (sys_shm_unlink k1 _) as [u2 k2].
    destruct Hres as (_ & Hok' & _). exists (fst (shmem_free k s a)), (snd (shmem_free k s a)).
    split; [by destruct (shmem_free k s a)|done].
Defined.

End shmem_lemmas.

(** ** The importer *)

(** The file of an imported allocation, and its descriptor. *)
Definition allocPath (s : ShmemImporter) (a : MmappedShmemSubAllocation) : string :=
  shmPath (im_basePath s) (shmem_id (fd_base (fds_base (mm_base a)))).
Definition allocFd (a : MmappedShmemSubAllocation) : Z := fd (fds_base (mm_base a)).

Definition live_at (s : ShmemImporter) (p : string) (live : list MmappedShmemSubAllocation) : list MmappedShmemSubAllocation :=
  List.filter (fun a => bool_decide (allocPath s a = p)) live.

(** Imports and releases, with any kernel state at each of them: the live
    allocations are the ones that [open] returned with a mapping. *)
Inductive imp_step {K} `{Kernel K} :
  ShmemImporter * list MmappedShmemSubAllocation -> ShmemImporter * list MmappedShmemSubAllocation -> Prop :=
| imp_opened k k' s s' live id offset size va a :
    import_open k s id offset size va = (a, s', k') -> mmappedPtr a <> 0 -> imp_step (s, live) (s', a :: live)
| imp_failed k k' s s' live id offset size va a :
    import_open k s id offset size va = (a, s', k') -> mmappedPtr a = 0 -> imp_step (s, live) (s', live)
| imp_released k k' s s' l1 l2 a :
    import_release k s a = (s', k') -> imp_step (s, l1 ++ a :: l2) (s', l1 ++ l2)
| imp_usm_released k k' s s' l1 l2 a :
    usm_release k s a = (s', k') -> imp_step (s, l1 ++ a :: l2) (s', l1 ++ l2).

(** Every live allocation holds the descriptor that is cached for its file, and
    the references counted for a file are at least its live allocations. *)
Definition imp_ok (w : ShmemImporter * list MmappedShmemSubAllocation) : Prop :=
  let (s, live) := w in
  (forall a, a ∈ live -> isFdOwner (fds_base (mm_base a)) = true /\
     exists e, fileMap s !! allocPath s a = Some e /\ rc_fd e = allocFd a) /\
  (forall p e, fileMap s !! p = Some e -> Z.of_nat (length (live_at s p live)) <= refcnt e).

Section importer_lemmas.
Context {K : Type} `{KL : KernelLaws K}.

Lemma live_at_app s p l1 a l2 :
  length (live_at s p (l1 ++ a :: l2)) =
    ((if bool_decide (allocPath s a = p) then 1 else 0) + length (live_at s p (l1 ++ l2)))%nat.
Proof.
  unfold live_at. rewrite !List.filter_app, !length_app. cbn [List.filter].
  destruct (bool_decide (allocPath s a = p)); cbn [length]; lia.
Qed.

Lemma live_at_pos s a live : a ∈ live -> (1 <= length (live_at s (allocPath s a) live))%nat.
Proof.
  intros (l1 & l2 & ->)%list_elem_of_split. rewrite live_at_app, bool_decide_eq_true_2 by done. lia.
Qed.

(** Maps that agree on a path: the importer keeps its base path throughout. *)
Lemma allocPath_set s m a : allocPath (set_fileMap s m) a = allocPath s a.
Proof. done. Qed.

Lemma live_at_set s m p live : live_at (set_fileMap s m) p live = live_at s p live.
Proof. done. Qed.

(** The entry of the file [p] is replaced by one with the same descriptor. *)
Lemma imp_ok_update s live p fd n :
  imp_ok (s, live) -> (forall e, fileMap s !! p = Some e -> rc_fd e = fd) ->
  Z.of_nat (length (live_at s p live)) <= n ->
  imp_ok (set_fileMap s (<[p := mkRefCountedFd fd n]> (fileMap s)), live).
Proof.
  intros [Hl Hc] Hfd Hn. split.
  - intros a Ha. destruct (Hl a Ha) as (Ho & e & He & Hf). split; [done|]. rewrite allocPath_set. cbn [set_fileMap fileMap].
    destruct (decide (allocPath s a = p)) as [Heq|Hne].
    + rewrite Heq in *. rewrite lookup_insert_eq. eexists. split; [reflexivity|]. cbn. by rewrite <- (Hfd e He).
    + exists e. by rewrite lookup_insert_ne.
  - intros q e. cbn [set_fileMap fileMap]. rewrite live_at_set. destruct (decide (p = q)) as [->|Hne].
    + rewrite lookup_insert_eq. by intros [= <-].
    + rewrite lookup_insert_ne by done. apply Hc.
Qed.

(** Without an entry there is no live allocation. *)
Lemma imp_ok_none s live p : imp_ok (s, live) -> fileMap s !! p = None -> live_at s p live = [].
Proof.
  intros [Hl _] Hp. destruct (live_at s p live) as [|a l] eqn:He; [done|]. exfalso.
  assert (Ha : In a (live_at s p live)) by (rewrite He; left; reflexivity).
  apply filter_In in Ha as [Ha Hq]. apply bool_decide_eq_true in Hq. apply list_elem_of_In in Ha.
  destruct (Hl a Ha) as (_ & e & Hf & _). by rewrite Hq, Hp in Hf.
Qed.

Lemma getFileDescriptor_ok (k : K) s live p shmemFd s' k' :
  imp_ok (s, live) -> getFileDescriptor k s p = (Some shmemFd, s', k') ->
  imp_ok (s', live) /\ im_basePath s' = im_basePath s /\ doEarlyUnlink s' = doEarlyUnlink s /\
  exists n, fileMap s' !! p = Some (mkRefCountedFd shmemFd n) /\ 1 + Z.of_nat (length (live_at s p live)) <= n.
Proof.
  intros Hok. unfold getFileDescriptor. destruct (fileMap s !! p) as [e|] eqn:He.
  - intros [= <- <- <-]. pose proof (proj2 Hok p e He) as Hc. split; [apply imp_ok_update; [done| |lia]|].
    + by intros e' [= <-]%(eq_trans (eq_sym He)).
    + do 2 (split; [done|]). eexists. cbn [set_fileMap fileMap]. rewrite lookup_insert_eq. split; [reflexivity|lia].
  - pose proof (imp_ok_none _ _ _ Hok He) as Hn.
    destruct (sys_shm_open k p false) as [[f|] k1]; [|done]. intros [= <- <- <-].
    split; [apply imp_ok_update; [done|by intros e'; rewrite He|rewrite Hn; cbn; lia]|].
    do 2 (split; [done|]). eexists. cbn [set_fileMap fileMap]. rewrite lookup_insert_eq. split; [reflexivity|]. rewrite Hn. cbn. lia.
Qed.

(** A new live allocation of a file that has a reference to spare. *)
Lemma imp_ok_add s live a n :
  imp_ok (s, live) -> isFdOwner (fds_base (mm_base a)) = true ->
  fileMap s !! allocPath s a = Some (mkRefCountedFd (allocFd a) n) ->
  1 + Z.of_nat (length (live_at s (allocPath s a) live)) <= n -> imp_ok (s, a :: live).
Proof.
  intros [Hl Hc] Ho He Hn. split.
  - intros b [->|Hb]%elem_of_cons; [|by apply Hl]. split; [done|]. by eexists.
  - intros p e Hp. pose proof (live_at_app s p [] a live) as Hlen. cbn [app] in Hlen. rewrite Hlen.
    destruct (bool_decide_reflect (allocPath s a = p)) as [<-|_]; [|by apply Hc].
    rewrite He in Hp. injection Hp as <-. cbn [refcnt]. lia.
Qed.

Lemma import_open_ok (k : K) s live id offset size va a s' k' :
  imp_ok (s, live) -> import_open k s id offset size va = (a, s', k') ->
  imp_ok (s', if mmappedPtr a =? 0 then live else a :: live).
Proof.
  intros Hok. unfold import_open.
  destruct (id =? invalidShmemId); [by intros [= <- <- _]|]. destruct (negb (isAlignedPow2 pageSize4KB size)); [by intros [= <- <- _]|].
  destruct (negb (va =? 0) && _); [by intros [= <- <- _]|].
  destruct (getFileDescriptor k s (shmPath (im_basePath s) id)) as [[shmemFd s1] k1] eqn:Hget.
  destruct shmemFd as [f|].
  2: { intros [= <- <- _]. revert Hget. unfold getFileDescriptor. destruct (fileMap s !! _); [done|].
       destruct (sys_shm_open k _ false) as [[?|] ?]; [done|]. by intros [= <- _]. }
  destruct (getFileDescriptor_ok _ _ _ _ _ _ _ Hok Hget) as (Hok1 & Hbase & _ & n & Hn & Hc).
  destruct (sys_mmap k1 _ va size f offset) as [[ptr|] k2] eqn:Hmm.
  - destruct (mmap_page _ _ _ _ _ _ _ _ Hmm) as (_ & Hptr & _). intros [= <- <- _]. cbn [mmappedPtr].
    rewrite (proj2 (Z.eqb_neq ptr 0)) by lia.
    apply (imp_ok_add _ _ _ n Hok1); [done|..]; unfold allocPath, allocFd; cbn [mm_base fds_base fd_base shmem_id fd]; rewrite Hbase; [done|].
    replace (length (live_at s1 (shmPath (im_basePath s) id) live)) with (length (live_at s (shmPath (im_basePath s) id) live)); [done|].
    unfold live_at, allocPath. by rewrite Hbase.
  - by intros [= <- <- _].
Qed.

Lemma closeFileDescriptor_ok (k : K) s l1 a l2 :
  imp_ok (s, l1 ++ a :: l2) -> imp_ok (fst (closeFileDescriptor k s (allocFd a) (allocPath s a)), l1 ++ l2).
Proof.
  intros Hok. assert (Hdrop : imp_ok (s, l1 ++ l2)).
  { destruct Hok as [Hl Hc]. split.
    - intros b Hb. apply Hl. apply elem_of_app in Hb as [Hb|Hb]; apply elem_of_app; [by left|right; by apply elem_of_cons; right].
    - intros p e Hp. specialize (Hc p e Hp). rewrite live_at_app in Hc. lia. }
  unfold closeFileDescriptor. destruct (proj1 Hok a) as (_ & e & He & Hfd); [apply elem_of_app; right; constructor|].
  rewrite He. rewrite Hfd, Z.eqb_refl. cbn [negb].
  pose proof (proj2 Hok _ _ He) as Hc. rewrite live_at_app, bool_decide_eq_true_2 in Hc by done.
  rewrite (proj2 (Z.leb_gt (refcnt e) 0)) by lia.
  assert (Hdec : imp_ok (set_fileMap s (<[allocPath s a := mkRefCountedFd (rc_fd e) (refcnt e - 1)]> (fileMap s)), l1 ++ l2)).
  { apply imp_ok_update; [done| |lia]. by intros e' [= <-]%(eq_trans (eq_sym He)). }
  rewrite <- Hfd. destruct (doEarlyUnlink s); [done|]. destruct (Z.eqb_spec (refcnt e) 1) as [H1|_]; [|done].
  destruct (sys_close k (rc_fd e)) as [[|] k']; [|done]. cbn [fst].
  assert (Hnone : live_at s (allocPath s a) (l1 ++ l2) = []) by (apply length_zero_iff_nil; lia).
  destruct Hdrop as [Hl Hc']. split; cbn [set_fileMap fileMap].
  - intros b Hb. destruct (Hl b Hb) as (Ho & eb & Heb & Hfb). split; [done|]. exists eb. split; [|done].
    rewrite lookup_delete_ne; [done|]. intros Heq.
    pose proof (live_at_pos s b _ Hb) as Hp. rewrite allocPath_set in Heq. rewrite <- Heq, Hnone in Hp. cbn in Hp. lia.
  - intros p e' Hp%lookup_delete_Some. destruct Hp as [_ Hp]. by apply Hc'.
Qed.

Lemma imp_step_ok w w' : imp_step (K := K) w w' -> imp_ok w -> imp_ok w'.
Proof.
  intros Hst Hok. destruct Hst as [k k' s s' live id offset size va a Hop Hp|k k' s s' live id offset size va a Hop Hp
    |k k' s s' l1 l2 a Hrel|k k' s s' l1 l2 a Hrel].
  - pose proof (import_open_ok _ _ _ _ _ _ _ _ _ _ Hok Hop) as H'. by rewrite (proj2 (Z.eqb_neq _ _) Hp) in H'.
  - pose proof (import_open_ok _ _ _ _ _ _ _ _ _ _ Hok Hop) as H'. by rewrite Hp in H'.
  - unfold import_release in Hrel. destruct (proj1 Hok a) as (Ho & _); [apply elem_of_app; right; constructor|].
    rewrite Ho in Hrel. pose proof (closeFileDescriptor_ok (if mmappedPtr a =? 0 then k else snd (sys_munmap k (mmappedPtr a) (mmappedSize a))) _ _ _ _ Hok) as H'.
    unfold allocFd, allocPath in H'. rewrite Hrel in H'. exact H'.
  - unfold usm_release in Hrel. destruct (proj1 Hok a) as (Ho & _); [apply elem_of_app; right; constructor|].
    destruct (if mmappedPtr a =? 0 then _ else _) as [unmapped k1]. rewrite Ho, andb_true_r in Hrel. destruct unmapped.
    + pose proof (closeFileDescriptor_ok k1 _ _ _ _ Hok) as H'. unfold allocFd, allocPath in H'. rewrite Hrel in H'. exact H'.
    + injection Hrel as <- _. destruct Hok as [Hl Hc]. split.
      * intros b Hb. apply Hl. apply elem_of_app in Hb as [Hb|Hb]; apply elem_of_app; [by left|right; by apply elem_of_cons; right].
      * intros p e Hp. specialize (Hc p e Hp). rewrite live_at_app in Hc. lia.
Qed.

End importer_lemmas.

(** ** The malloc importer *)

(** An opened importer: the imported part is whole pages at the start of the
    mapping. *)
Record malloc_ok (m : MallocShmemImporter) : Prop := mkMallocOk {
  mo_fd : ms_fd m <> -1;
  mo_base : 0 <= exporterBaseAddress m;
  mo_local : 0 < localBaseAddress m;
  mo_top : localBaseAddress m + ms_capacity m < half;
  mo_heap : 0 <= importedHeapSize m <= ms_capacity m;
  mo_page : importedHeapSize m mod pageSize4KB = 0
}.

Lemma local_offset m off : malloc_ok m -> 0 <= off <= ms_capacity m ->
  moveByBytes (localBaseAddress m) off = localBaseAddress m + off.
Proof. intros [] Ho. unfold half in *. unfold moveByBytes. apply u64_id. word_unfold. lia. Qed.

Lemma required_heap x : 0 <= x < half -> alignUp x pageSize4KB mod pageSize4KB = 0 /\ x <= alignUp x pageSize4KB < x + pageSize4KB.
Proof.
  unfold half. intros Hx. destruct (alignUp_spec x pageSize4KB) as [H1 H2]; [done|lia|change pageSize4KB with 4096; lia|]. split; done.
Qed.

(** * Properties *)
Section properties.
Context {K : Type}.

(** A shared memory allocation of at most page alignment always returns; a
    valid one has the least free id, which is now taken, whole pages and is owned;
    a failed one leaves the accounting of used memory as it was — but unless all
    ids were taken it keeps an id, which no allocation carries: a failure of
    [shm_open] or [ftruncate] costs an id. *)
Theorem ShmemAllocator_allocate_correct `{KernelLaws K} (k : K) (s : ShmemAllocator) size alignment :
  shm_ok s -> request_ok size alignment ->
  exists a s' k', shmem_allocate k s size alignment ⇓ (a, s', k') /\ shm_ok s' /\ shm_allocated s s' a size.
Proof. apply shmem_allocate_correct. Qed.

(** Freeing an owned file gives back its id and its size exactly when the
    kernel unlinks the name.  When the name is already gone — which is what an
    importer with early unlink leaves behind — the id and the accounted size stay
    taken for good. *)
Theorem ShmemAllocator_free_needs_unlink `{KernelLaws K} (k : K) (s : ShmemAllocator) (a : OpenedShmemAllocation) :
  shm_ok s -> isFdOwner a = true -> isShmemOwner (fd_base a) = true -> 0 <= shmem_id (fd_base a) ->
  exists k1, let (unlinked, k2) := sys_shm_unlink k1 (shmPath (sh_basePath s) (shmem_id (fd_base a))) in
    snd (shmem_free k s a) = k2 /\ shm_ok (fst (shmem_free k s a)) /\
    if bool_decide (unlinked = Unlinked)
    then (forall n, 0 <= n -> taken (shmemIdAllocator (fst (shmem_free k s a))) n =
                              taken (shmemIdAllocator s) n && negb (n =? shmem_id (fd_base a))) /\
         totalShmemAllocated (fst (shmem_free k s a)) = u64 (totalShmemAllocated s - fileSize a)
    else fst (shmem_free k s a) = s.
Proof. apply shmem_free_correct. Qed.

(** C10: However files are imported and released, with whatever outcome of the
    system calls, the importer never closes or forgets a descriptor that is in
    use: the descriptor of every live allocation is the cached one of its file,
    and at least as many references are counted as there are live allocations of
    the file. *)
Theorem ShmemImporter_keeps_descriptors `{KernelLaws K} basePath early (s : ShmemImporter) live :
  rtc (imp_step (K := K)) (mkImporter basePath ∅ early, []) (s, live) ->
  forall a, a ∈ live -> exists e, fileMap s !! allocPath s a = Some e /\ rc_fd e = allocFd a /\
    1 <= Z.of_nat (length (live_at s (allocPath s a) live)) <= refcnt e.
Proof.
  intros Hrtc a Ha. assert (Hok : imp_ok (s, live)).
  { revert Hrtc. generalize (s, live). intros w Hrtc.
    assert (H0' : imp_ok (mkImporter basePath ∅ early, [])).
    { split; [intros b Hb; by apply elem_of_nil in Hb|]. intros p e Hp. cbn [fileMap] in Hp. by rewrite lookup_empty in Hp. }
    clear Ha. revert H0'. induction Hrtc as [w|w w1 w2 Hst _ IH]; [done|]. intros H0'. apply IH. by apply (imp_step_ok _ _ Hst). }
  destruct (proj1 Hok a Ha) as (_ & e & He & Hf). exists e. do 2 (split; [done|]).
  pose proof (proj2 Hok _ _ He). pose proof (live_at_pos s a live Ha). lia.
Qed.

(** [MallocShmemImporter::import] translates an exporter's address to the
    address at the same offset of the local mapping: what it returns lies, with
    all its bytes, in the part of the heap that is imported then, and the imported
    part only grows, up to the capacity; addresses below the exporter's base, and
    sizes beyond the capacity or the announced heap size, give a null pointer. *)
Theorem MallocShmemImporter_import_correct `{KernelLaws K} (k : K) (m : MallocShmemImporter) addr size hint :
  malloc_ok m -> 0 <= addr -> 0 < size -> addr - exporterBaseAddress m + size < half ->
  0 <= hint -> hint mod pageSize4KB = 0 ->
  let offset := addr - exporterBaseAddress m in
  let required := if hint =? 0 then alignUp (offset + size) pageSize4KB else hint in
  let '(p, m', k') := malloc_import id k m addr size hint in
  malloc_ok m' /\ importedHeapSize m <= importedHeapSize m' <= ms_capacity m /\
  localBaseAddress m' = localBaseAddress m /\ exporterBaseAddress m' = exporterBaseAddress m /\
  (p <> 0 -> 0 <= offset /\ p = localBaseAddress m + offset /\ offset + size <= importedHeapSize m') /\
  (offset < 0 \/ ms_capacity m < required \/ required < offset + size -> p = 0 /\ m' = m).
Proof.
  intros Hm Ha Hs Hb Hh Hhp offset required. pose proof Hm as [Hfd Hbase Hlo Htop Hheap Hpage].
  unfold malloc_import. fold offset. destruct (Z.ltb_spec addr (exporterBaseAddress m)) as [Hlt|Hge].
  { split; [done|]. split; [lia|]. do 3 (split; [done|]). done. }
  assert (Hoff : 0 <= offset) by (unfold offset; lia). unfold half in *.
  rewrite u64_id by (word_unfold; lia). fold required. destruct (Z.ltb_spec (ms_capacity m) required) as [Hcap|Hcap].
  { split; [done|]. split; [lia|]. do 3 (split; [done|]). done. }
  destruct (Z.ltb_spec required (offset + size)) as [Hreq|Hreq].
  { split; [done|]. split; [lia|]. do 3 (split; [done|]). done. }
  assert (Hmv : moveByBytes (localBaseAddress m) offset = localBaseAddress m + offset) by (apply local_offset; [done|lia]).
  destruct (Z.ltb_spec (offset + size) (importedHeapSize m)) as [Him|Him].
  { rewrite Hmv. split; [done|]. split; [lia|]. do 2 (split; [done|]). split; [lia|]. lia. }
  unfold id. rewrite (proj2 (Z.ltb_ge _ _) Him).
  destruct (sys_mmap k Fixed _ _ _ _) as [[ptr|] k'].
  - rewrite Hmv. assert (Hr : required mod pageSize4KB = 0).
    { unfold required. destruct (hint =? 0); [|done]. apply required_heap. unfold half. lia. }
    cbn [importedHeapSize localBaseAddress exporterBaseAddress]. split; [constructor; cbn; unfold half; (done || lia)|].
    split; [lia|]. do 2 (split; [done|]). split; [lia|]. lia.
  - split; [done|]. split; [lia|]. do 3 (split; [done|]). done.
Qed.

(** Memory that ends exactly where the imported part of the heap ends is
    already mapped, but importing it (again) always fails: the comparison with the
    imported size is strict, and the heap is then grown by an empty mapping. *)
Theorem MallocShmemImporter_exact_end_fails `{KernelLaws K} (k : K) (m : MallocShmemImporter) addr size :
  malloc_ok m -> exporterBaseAddress m <= addr -> addr - exporterBaseAddress m + size = importedHeapSize m ->
  exists k', malloc_import id k m addr size 0 = (0, m, k').
Proof.
  intros Hm Hge Hend. pose proof Hm as [Hfd Hbase Hlo Htop Hheap Hpage]. unfold half in *. unfold malloc_import, id.
  rewrite (proj2 (Z.ltb_ge addr (exporterBaseAddress m))) by lia. rewrite Hend. rewrite u64_id by (word_unfold; lia).
  rewrite alignUp_aligned by (done || (change pageSize4KB with 4096; lia)). cbn [Z.eqb].
  rewrite (proj2 (Z.ltb_ge (ms_capacity m) _)) by lia. rewrite !Z.ltb_irrefl, Z.sub_diag.
  change (u64 0) with 0. pose proof (mmap_empty k Fixed (moveByBytes (localBaseAddress m) (importedHeapSize m)) (ms_fd m) (importedHeapSize m)) as Hmm.
  destruct (sys_mmap k Fixed _ 0 _ _) as [ptr k']. cbn [fst] in Hmm. subst ptr. by exists k'.
Qed.

End properties.

(** * Concrete runs *)

Definition exampleShmem : ShmemAllocator := newShmemAllocator "/cal_shmem_"%string.

Lemma exampleShmem_ok : shm_ok exampleShmem.
Proof.
  split; [|by vm_compute]. split; [|by vm_compute]. unfold exampleShmem, newShmemAllocator, makeBitAllocator. cbn [shmemIdAllocator].
  apply Forall_replicate. by vm_compute.
Qed.

(** [shm_open] fails once: the request fails and id 0 is gone. *)
Lemma ShmemAllocator_allocate_correct_witness :
  exists a s' k', shmem_allocate (Toy.mkKernel 0x10000000 3 [] [] [false] []) exampleShmem 5000 0 ⇓ (a, s', k') /\ shm_ok s' /\
    isValid a = false /\ totalShmemAllocated s' = 0 /\ taken (shmemIdAllocator s') 0 = true.
Proof.
  destruct (ShmemAllocator_allocate_correct (Toy.mkKernel 0x10000000 3 [] [] [false] []) exampleShmem 5000 0 exampleShmem_ok)
    as (a & s' & k' & Hal & Hok & _).
  { split; [lia|]. split; [change pageSize4KB with 4096; lia|by left]. }
  exists a, s', k'. split; [exact Hal|]. split; [exact Hok|]. vm_compute in Hal. injection Hal as <- <- _. by vm_compute.
Defined.

(** Id 0 was allocated, but its name has been unlinked by an importer. *)
Lemma ShmemAllocator_free_needs_unlink_witness :
  let s := mkShmemAllocator (1 :: replicate 63 0) "/cal_shmem_"%string 8192 in
  let a := mkFdAllocation (mkShmem 0 true) 8192 3 true in
  fst (shmem_free Toy.fresh s a) = s.
Proof.
  intros s a. destruct (ShmemAllocator_free_needs_unlink Toy.fresh s a) as (k1 & Hres); [|done|done|cbn; lia|].
  - split; [|by vm_compute]. split; [|by vm_compute]. constructor; [by vm_compute|]. apply Forall_replicate. by vm_compute.
  - destruct (sys_shm_unlink k1 _) as [unlinked k2]. destruct Hres as (_ & _ & Hres).
    destruct (bool_decide (unlinked = Unlinked)); [|exact Hres]. exfalso. destruct Hres as [_ Hres]. vm_compute in Hres. congruence.
Defined.

(** One file imported twice. *)
Definition exampleNames : Toy.kernel := Toy.mkKernel 0x10000000 3 ["/cal7"%string] [] [] [].

Lemma ShmemImporter_keeps_descriptors_witness :
  exists s live, rtc (imp_step (K := Toy.kernel)) (mkImporter "/cal"%string ∅ true, []) (s, live) /\
    length live = 2%nat /\ forall a, a ∈ live -> exists e, fileMap s !! allocPath s a = Some e /\ rc_fd e = allocFd a.
Proof.
  pose (o1 := import_open exampleNames (mkImporter "/cal"%string ∅ true) 7 0 4096 0).
  pose (o2 := import_open (snd o1) (snd (fst o1)) 7 4096 8192 0).
  assert (Hrun : rtc (imp_step (K := Toy.kernel)) (mkImporter "/cal"%string ∅ true, []) (snd (fst o2), [fst (fst o2); fst (fst o1)])).
  { eapply rtc_l; [apply (imp_opened exampleNames (snd o1) _ (snd (fst o1)) [] 7 0 4096 0 (fst (fst o1)));
                   [by destruct o1 as [[? ?] ?] eqn:E|by vm_compute]|].
    eapply rtc_l; [apply (imp_opened (snd o1) (snd o2) _ (snd (fst o2)) _ 7 4096 8192 0 (fst (fst o2)));
                   [by destruct o2 as [[? ?] ?] eqn:E|by vm_compute]|]. apply rtc_refl. }
  exists (snd (fst o2)), [fst (fst o2); fst (fst o1)]. split; [exact Hrun|]. split; [reflexivity|].
  intros a Ha. destruct (ShmemImporter_keeps_descriptors "/cal"%string true _ _ Hrun a Ha) as (e & H1 & H2 & _). by exists e.
Defined.

Definition exampleMalloc : MallocShmemImporter := mkMallocImporter 5 0x700000 0x100000 0x2000 0x30000000.

Lemma exampleMalloc_ok : malloc_ok exampleMalloc.
Proof. constructor; cbn; unfold half; (done || lia). Qed.

Lemma MallocShmemImporter_import_correct_witness :
  fst (malloc_import id Toy.fresh exampleMalloc 0x702800 0x1000 0) =
    (0x30002800, mkMallocImporter 5 0x700000 0x100000 0x4000 0x30000000) /\
  exists p m' k', malloc_import id Toy.fresh exampleMalloc 0x702800 0x1000 0 = (p, m', k') /\
    0x2800 + 0x1000 <= importedHeapSize m'.
Proof.
  split; [by vm_compute|].
  pose proof (MallocShmemImporter_import_correct Toy.fresh exampleMalloc 0x702800 0x1000 0 exampleMalloc_ok
                ltac:(lia) ltac:(lia) ltac:(unfold half; cbn; lia) ltac:(lia) eq_refl) as H.
  destruct (malloc_import id Toy.fresh exampleMalloc 0x702800 0x1000 0) as [[p m'] k'] eqn:E.
  destruct H as (_ & _ & _ & _ & H & _). vm_compute in E. injection E as <- <- <-. eexists _, _, _. split; [reflexivity|].
  apply H. by vm_compute.
Defined.

Lemma MallocShmemImporter_exact_end_fails_witness :
  exists k', malloc_import id Toy.fresh exampleMalloc 0x701000 0x1000 0 = (0, exampleMalloc, k').
Proof. apply (MallocShmemImporter_exact_end_fails Toy.fresh exampleMalloc 0x701000 0x1000 exampleMalloc_ok); cbn; lia. Defined.
