(* ===== verification/MemBlocks.v ===== *)
(** Shared memory for client memory that the service cannot reach:
    [BasicMemoryBlock] and [BasicMemoryBlocksManager] of shared/shmem.h.  A block
    is a run of client pages backed by chunks of shared memory; the manager keeps
    the blocks in a [std::map] by their first page and merges blocks that a new
    range overlaps. *)

From stdpp Require Import gmap.
From S2P Require Import Prelude.
From S2P Require Import Align.
From S2P Require Import Ranges.
From S2P Require Import RangeAlloc.
From S2P Require Import BitAlloc.
From S2P Require Import Kernel.
From S2P Require Import SubAlloc.
From S2P Require Import Shmem.
From S2P Require Import Channel.
Local Open Scope Z_scope.

(** * BasicMemoryBlock *)

Record ChunkDescription := mkChunk { firstPageAddress : Z; shmem : MmappedShmemAllocation }.

(** The deque of chunks is never empty: [front] and [others]. *)
Record MemoryBlock := mkBlock {
  front : ChunkDescription; others : list ChunkDescription; oldMappings : list (Z * Z) }.

Definition chunks (b : MemoryBlock) : list ChunkDescription := front b :: others b.
Definition back (b : MemoryBlock) : ChunkDescription := List.last (others b) (front b).

Definition chunkSize (c : ChunkDescription) : Z := getFileSize (shmem c).
Definition chunkId (c : ChunkDescription) : Z := shmem_id (fd_base (mm_base (shmem c))).
Definition chunkEnd (c : ChunkDescription) : Z := u64 (firstPageAddress c + chunkSize c).

Definition getBlockStartAddress (b : MemoryBlock) : Z := firstPageAddress (front b).
Definition getBlockEndAddress (b : MemoryBlock) : Z := chunkEnd (back b).

(** [shmem.remap(va, size)] *)
Definition remap (c : ChunkDescription) (va size : Z) : ChunkDescription :=
  mkChunk (firstPageAddress c) (mkMmapped (mm_base (shmem c)) va size).

Definition overlaps (srcBegin srcEnd blockBegin blockEnd : Z) : bool :=
  (srcBegin <=? blockBegin) && (blockBegin <? srcEnd) || (blockBegin <=? srcBegin) && (srcBegin <? blockEnd).

Definition overlapsPages (b : MemoryBlock) (srcptr size : Z) : bool :=
  overlaps srcptr (u64 (srcptr + size)) (getBlockStartAddress b) (getBlockEndAddress b).

Definition pageBegin (srcptr : Z) : Z := srcptr - srcptr mod pageSize4KB.

Definition requiresExtension (b : MemoryBlock) (srcptr size : Z) : bool :=
  (pageBegin srcptr <? getBlockStartAddress b) || (getBlockEndAddress b <? u64 (srcptr + size)).

Definition translate (b : MemoryBlock) (srcptr : Z) : Z :=
  if (getBlockStartAddress b <=? srcptr) && (srcptr <? getBlockEndAddress b)
  then u64 (mmappedPtr (shmem (front b)) + (srcptr - getBlockStartAddress b))
  else 0.

Definition chunkOverlaps (srcBegin srcEnd : Z) (c : ChunkDescription) : bool :=
  overlaps srcBegin srcEnd (firstPageAddress c) (chunkEnd c).

Definition getCountOfOverlappingChunks (b : MemoryBlock) (srcPtr srcSize : Z) : Z :=
  Z.of_nat (length (List.filter (chunkOverlaps srcPtr (u64 (srcPtr + srcSize))) (chunks b))).

(** The descriptor for the part of a chunk; [old] is what the slot held. *)
Definition transferOf (srcBegin srcEnd : Z) (c : ChunkDescription) (old : TransferDesc) : TransferDesc :=
  let copyBegin := Z.max (firstPageAddress c) srcBegin in
  let copyEnd := Z.min (chunkEnd c) srcEnd in
  mkTransfer (chunkId c) (chunkSize c) (u64 (copyEnd - copyBegin)) (u64 (copyBegin - firstPageAddress c))
    copyBegin (direction old).

(** [transferDescs] is the caller's array, of [transferDescsCount] elements as the
    caller says; writing outside of it is undefined. *)
Fixpoint appendOverlapping (srcBegin srcEnd : Z) (l : list ChunkDescription)
  (appended : Z) (transferDescs : list TransferDesc) (transferDescsCount : Z) : res (bool * Z * list TransferDesc) :=
  match l with
  | [] => Ret (true, appended, transferDescs)
  | c :: l =>
      if chunkOverlaps srcBegin srcEnd c then
        if transferDescsCount <=? appended then Ret (false, appended, transferDescs)
        else
          match transferDescs !! Z.to_nat appended with
          | None => Undef
          | Some old =>
              appendOverlapping srcBegin srcEnd l (u32 (appended + 1))
                (<[Z.to_nat appended := transferOf srcBegin srcEnd c old]> transferDescs) transferDescsCount
          end
      else appendOverlapping srcBegin srcEnd l appended transferDescs transferDescsCount
  end.

Definition appendOverlappingChunks (b : MemoryBlock) (srcPtr srcSize appended : Z)
  (transferDescs : list TransferDesc) (transferDescsCount : Z) : res (bool * Z * list TransferDesc) :=
  appendOverlapping srcPtr (u64 (srcPtr + srcSize)) (chunks b) appended transferDescs transferDescsCount.

Section block.
Context {K : Type} `{Kernel K}.

(** The constructor maps its first chunk. *)
Definition newBlock (k : K) (s : ShmemAllocator) (srcptr size : Z) : res (MemoryBlock * ShmemAllocator * K) :=
  let pageOffset := srcptr mod pageSize4KB in
  '(a, s, k) ← global_allocate k s (u64 (pageOffset + size)) pageSize4KB;
  Ret (mkBlock (mkChunk (srcptr - pageOffset) a) [] [], s, k).

(** Further chunks are allocated without a mapping. *)
Definition newChunk (k : K) (s : ShmemAllocator) (first size : Z) : res (ChunkDescription * ShmemAllocator * K) :=
  '(a, s, k) ← shmem_allocate k s size pageSize4KB;
  Ret (mkChunk first (mkMmapped a 0 0), s, k).

Definition prependChunk (k : K) (s : ShmemAllocator) (b : MemoryBlock) (blockBegin srcPageBegin : Z)
  : res (MemoryBlock * ShmemAllocator * K) :=
  '(c, s, k) ← newChunk k s srcPageBegin (u64 (blockBegin - srcPageBegin));
  Ret (mkBlock c (chunks b) (oldMappings b), s, k).

Definition appendChunk (k : K) (s : ShmemAllocator) (b : MemoryBlock) (blockEnd srcEnd : Z)
  : res (MemoryBlock * ShmemAllocator * K) :=
  '(c, s, k) ← newChunk k s blockEnd (u64 (srcEnd - blockEnd));
  Ret (mkBlock (front b) (others b ++ [c]) (oldMappings b), s, k).

Definition forget (c : ChunkDescription) : ChunkDescription :=
  if mmappedPtr (shmem c) =? 0 then c else remap c 0 0.

Definition preserveExistingMappings (b : MemoryBlock) : MemoryBlock :=
  mkBlock (forget (front b)) (map forget (others b))
    (oldMappings b ++ omap (fun c => if mmappedPtr (shmem c) =? 0 then None else Some (mmappedPtr (shmem c), chunkSize c)) (chunks b)).

Definition getTotalContiguousSize (b : MemoryBlock) : Z := u64 (getBlockEndAddress b - getBlockStartAddress b).

Definition remapChunk (mappedSpaceBegin blockBegin : Z) (k : K) (c : ChunkDescription) : ChunkDescription * K :=
  let destAddress := u64 (mappedSpaceBegin + (firstPageAddress c - blockBegin)) in
  let (mappedChunk, k) := sys_mmap k Fixed destAddress (chunkSize c) (getFd (shmem c)) 0 in
  match mappedChunk with
  | None => (c, k)
  | Some ptr => (remap c ptr (chunkSize c), k)
  end.

Fixpoint remapAll (mappedSpaceBegin blockBegin : Z) (k : K) (l : list ChunkDescription) : list ChunkDescription * K :=
  match l with
  | [] => ([], k)
  | c :: l =>
      let (c, k) := remapChunk mappedSpaceBegin blockBegin k c in
      let (l, k) := remapAll mappedSpaceBegin blockBegin k l in
      (c :: l, k)
  end.

Definition remapChunksAsContiguousMemory (k : K) (b : MemoryBlock) : MemoryBlock * K :=
  let b := preserveExistingMappings b in
  let (mappedSpace, k) := sys_mmap k Anywhere 0 (getTotalContiguousSize b) (-1) 0 in
  match mappedSpace with
  | None => (b, k)
  | Some mappedSpaceBegin =>
      let (f, k) := remapChunk mappedSpaceBegin (getBlockStartAddress b) k (front b) in
      let (l, k) := remapAll mappedSpaceBegin (getBlockStartAddress b) k (others b) in
      (mkBlock f l (oldMappings b), k)
  end.

Definition extendBlockIfRequired (k : K) (s : ShmemAllocator) (b : MemoryBlock) (srcptr size : Z)
  : res (MemoryBlock * ShmemAllocator * K) :=
  let srcEnd := u64 (srcptr + size) in
  let srcPageBegin := pageBegin srcptr in
  let blockBegin := getBlockStartAddress b in
  let prepends := srcPageBegin <? blockBegin in
  '(b, s, k) ← (if prepends then prependChunk k s b blockBegin srcPageBegin else Ret (b, s, k));
  let blockEnd := getBlockEndAddress b in
  let appends := blockEnd <? srcEnd in
  '(b, s, k) ← (if appends then appendChunk k s b blockEnd srcEnd else Ret (b, s, k));
  if prepends || appends
  then let (b, k) := remapChunksAsContiguousMemory k b in Ret (b, s, k)
  else Ret (b, s, k).

(** The assertion that only greater blocks are merged. *)
Definition merge (k : K) (s : ShmemAllocator) (b rhs : MemoryBlock) : res (MemoryBlock * ShmemAllocator * K) :=
  let lhsEnd := getBlockEndAddress b in
  let rhsBegin := getBlockStartAddress rhs in
  if rhsBegin <? lhsEnd then Abort
  else
    '(b, s, k) ← (if negb (lhsEnd =? rhsBegin) then appendChunk k s b lhsEnd rhsBegin else Ret (b, s, k));
    Ret (mkBlock (front b) (others b ++ chunks rhs) (oldMappings b ++ oldMappings rhs), s, k).

(** The destructor: errors are only logged. *)
Fixpoint unmapOld (k : K) (l : list (Z * Z)) : K :=
  match l with
  | [] => k
  | (ptr, size) :: l => unmapOld (if ptr =? 0 then k else snd (sys_munmap k ptr size)) l
  end.

Fixpoint freeChunks (k : K) (s : ShmemAllocator) (l : list ChunkDescription) : res (ShmemAllocator * K) :=
  match l with
  | [] => Ret (s, k)
  | c :: l => '(s, k) ← global_free k s (shmem c); freeChunks k s l
  end.

Definition destroyBlock (k : K) (s : ShmemAllocator) (b : MemoryBlock) : res (ShmemAllocator * K) :=
  freeChunks (unmapOld k (oldMappings b)) s (chunks b).

End block.

(** * BasicMemoryBlocksManager *)

(** [std::map] as the list of its entries in the order of the keys. *)
Abbreviation BlockMap := (list (Z * MemoryBlock)).

Record MemoryBlocksManager := mkManager { memoryBlocks : BlockMap; usmMemoryPairs : gmap Z Z }.

(** Position of the first entry whose key is not below [key]. *)
Fixpoint lower_bound (l : BlockMap) (key : Z) : nat :=
  match l with
  | [] => O
  | (x, _) :: l => if x <? key then S (lower_bound l key) else O
  end.

(** [try_emplace] and [insert]: nothing when the key is present. *)
Fixpoint map_insert (l : BlockMap) (key : Z) (b : MemoryBlock) : option BlockMap :=
  match l with
  | [] => Some [(key, b)]
  | (x, y) :: l' =>
      if key <? x then Some ((key, b) :: l)
      else if key =? x then None
      else option_map (cons (x, y)) (map_insert l' key b)
  end.

Definition overlapsAt (l : BlockMap) (i : nat) (srcptr size : Z) : bool :=
  match l !! i with
  | Some (_, b) => overlapsPages b srcptr size
  | None => false
  end.

(** Iterators are positions; [end()] is [None]. *)
Definition getOverlappingBlocksBegin (l : BlockMap) (srcptr size : Z) : option nat :=
  let i := lower_bound l srcptr in
  if match i with O => false | S j => overlapsAt l j srcptr size end then Some (pred i)
  else if overlapsAt l i srcptr size then Some i
  else None.

Definition getOverlappingBlocksEnd (l : BlockMap) (srcptr size : Z) : nat :=
  lower_bound l (u64 (srcptr + size)).

Section manager.
Context {K : Type} `{Kernel K}.

Fixpoint mergeAll (k : K) (s : ShmemAllocator) (b : MemoryBlock) (l : BlockMap) : res (MemoryBlock * ShmemAllocator * K) :=
  match l with
  | [] => Ret (b, s, k)
  | (_, rhs) :: l => '(b, s, k) ← merge k s b rhs; mergeAll k s b l
  end.

(** The position of the block that now holds the range; a range of iterators whose
    end is before its begin is undefined. *)
Definition getMergedOverlappingMemoryBlocks (k : K) (s : ShmemAllocator) (l : BlockMap) (srcptr size : Z)
  : res (option nat * BlockMap * ShmemAllocator * K) :=
  match getOverlappingBlocksBegin l srcptr size with
  | None => Ret (None, l, s, k)
  | Some i =>
      match l !! i with
      | None => Undef
      | Some (key, singleBlock) =>
          let mergeEnd := getOverlappingBlocksEnd l srcptr size in
          if Nat.eqb (S i) mergeEnd then Ret (Some i, l, s, k)
          else if Nat.ltb mergeEnd (S i) then Undef
          else
            '(singleBlock, s, k) ← mergeAll k s singleBlock (take (mergeEnd - S i) (drop (S i) l));
            let (singleBlock, k) :=
              if negb (requiresExtension singleBlock srcptr size)
              then remapChunksAsContiguousMemory k singleBlock else (singleBlock, k) in
            Ret (Some i, take i l ++ (key, singleBlock) :: drop mergeEnd l, s, k)
      end
  end.

(** [extract] of the old key and [insert] with the new one; the assertion that
    the key is new. *)
Definition updateBeginningAddressInContainer (l : BlockMap) (i : nat) (b : MemoryBlock) (newFirstPageAddress : Z)
  : res BlockMap :=
  match map_insert (take i l ++ drop (S i) l) newFirstPageAddress b with
  | None => Abort
  | Some l => Ret l
  end.

(** The registered block and the new state. *)
Definition registerMemoryBlock (k : K) (s : ShmemAllocator) (m : MemoryBlocksManager) (srcptr size : Z)
  : res (MemoryBlock * MemoryBlocksManager * ShmemAllocator * K) :=
  '(merged, l, s, k) ← getMergedOverlappingMemoryBlocks k s (memoryBlocks m) srcptr size;
  match merged with
  | Some i =>
      match l !! i with
      | None => Undef
      | Some (key, memoryBlock) =>
          let oldFirstPageAddress := getBlockStartAddress memoryBlock in
          '(memoryBlock, s, k) ← extendBlockIfRequired k s memoryBlock srcptr size;
          let newFirstPageAddress := getBlockStartAddress memoryBlock in
          l ← (if negb (oldFirstPageAddress =? newFirstPageAddress)
               then updateBeginningAddressInContainer l i memoryBlock newFirstPageAddress
               else Ret (<[i := (key, memoryBlock)]> l));
          Ret (memoryBlock, mkManager l (usmMemoryPairs m), s, k)
      end
  | None =>
      '(b, s, k) ← newBlock k s srcptr size;
      match map_insert l (pageBegin srcptr) b with
      | None => Abort
      | Some l => Ret (b, mkManager l (usmMemoryPairs m), s, k)
      end
  end.

End manager.

Definition registerUSMStaging (m : MemoryBlocksManager) (usmAddress size : Z) : MemoryBlocksManager :=
  match usmMemoryPairs m !! usmAddress with
  | Some _ => m
  | None => mkManager (memoryBlocks m) (<[usmAddress := size]> (usmMemoryPairs m))
  end.

Definition getMemoryBlockWhichIncludesChunk (m : MemoryBlocksManager) (srcptr size : Z) : option MemoryBlock :=
  match getOverlappingBlocksBegin (memoryBlocks m) srcptr size with
  | None => None
  | Some i =>
      if negb (Z.of_nat (getOverlappingBlocksEnd (memoryBlocks m) srcptr size) - Z.of_nat i =? 1) then None
      else
        match memoryBlocks m !! i with
        | Some (_, b) => if requiresExtension b srcptr size then None else Some b
        | None => None
        end
  end.

(** [MemChunk]: address and size. *)
Fixpoint getCountOfRequiredTransferDescs (m : MemoryBlocksManager) (l : list (Z * Z)) (count : Z) : bool * Z :=
  match l with
  | [] => (true, count)
  | (address, size) :: l =>
      match getMemoryBlockWhichIncludesChunk m address size with
      | Some b => getCountOfRequiredTransferDescs m l (u32 (count + getCountOfOverlappingChunks b address size))
      | None =>
          match usmMemoryPairs m !! address with
          | Some _ => getCountOfRequiredTransferDescs m l (u32 (count + 1))
          | None => (false, count)
          end
      end
  end.

Definition fillTransferDescFromUsmPair (old : TransferDesc) (address size : Z) : TransferDesc :=
  mkTransfer (-1) (underlyingSize old) size address (clientAddress old) (direction old).

(** The USM branch writes its slot without looking at the count. *)
Fixpoint getRequiredTransferDescs (m : MemoryBlocksManager) (transferDescsCount : Z) (l : list (Z * Z))
  (appended : Z) (transferDescs : list TransferDesc) : res (bool * Z * list TransferDesc * MemoryBlocksManager) :=
  match l with
  | [] => Ret (true, appended, transferDescs, m)
  | (address, size) :: l =>
      match getMemoryBlockWhichIncludesChunk m address size with
      | Some b =>
          '(enough, appended, transferDescs) ← appendOverlappingChunks b address size appended transferDescs transferDescsCount;
          if negb enough then Ret (false, transferDescsCount, transferDescs, m)
          else getRequiredTransferDescs m transferDescsCount l appended transferDescs
      | None =>
          match usmMemoryPairs m !! address with
          | Some usmSize =>
              match transferDescs !! Z.to_nat appended with
              | None => Undef
              | Some old =>
                  getRequiredTransferDescs (mkManager (memoryBlocks m) (delete address (usmMemoryPairs m)))
                    transferDescsCount l (u32 (appended + 1))
                    (<[Z.to_nat appended := fillTransferDescFromUsmPair old address usmSize]> transferDescs)
              end
          | None => Ret (false, transferDescsCount, transferDescs, m)
          end
      end
  end.

(** The overload for one range and a growing vector. *)
Definition getRequiredTransferDescsOfRange (m : MemoryBlocksManager) (range : AddressRange) (transferDescs : list TransferDesc)
  : res (bool * list TransferDesc * MemoryBlocksManager) :=
  match getMemoryBlockWhichIncludesChunk m (start range) (rsize range) with
  | None =>
      match usmMemoryPairs m !! start range with
      | Some usmSize =>
          Ret (true, transferDescs ++ [fillTransferDescFromUsmPair emptyTransfer (start range) usmSize],
               mkManager (memoryBlocks m) (delete (start range) (usmMemoryPairs m)))
      | None => Ret (false, transferDescs, m)
      end
  | Some b =>
      let newTransferDescsCount := u32 (getCountOfOverlappingChunks b (start range) (rsize range)) in
      let prevTransferDescsCount := u32 (Z.of_nat (length transferDescs)) in
      let all := resize (Z.to_nat (u32 (prevTransferDescsCount + newTransferDescsCount))) emptyTransfer transferDescs in
      '(enough, _, all) ← appendOverlappingChunks b (start range) (rsize range) prevTransferDescsCount
                             all (u32 (Z.of_nat (length all)));
      Ret (enough, all, m)
  end.

(** * What a block stands for

    The skeleton of a chunk: its first page and its file, without the mapping. *)
Abbreviation Skeleton := (Z * OpenedShmemAllocation)%type.

Definition skel (c : ChunkDescription) : Skeleton := (firstPageAddress c, mm_base (shmem c)).
Definition skels (b : MemoryBlock) : list Skeleton := skel <$> chunks b.

Definition sk_valid (x : Skeleton) : Prop := isValid (snd x) = true.

(** Addresses of clients stay below this bound. *)
Definition top : Z := 2 ^ 61.

(** Chunks without a gap from the address [lo] on. *)
Fixpoint chain (lo : Z) (l : list Skeleton) : Prop :=
  match l with
  | [] => True
  | x :: l => fst x = lo /\ chain (lo + fileSize (snd x)) l
  end.

Fixpoint chain_end (lo : Z) (l : list Skeleton) : Z :=
  match l with
  | [] => lo
  | x :: l => chain_end (lo + fileSize (snd x)) l
  end.

Definition sk_good (x : Skeleton) : Prop :=
  isValid (snd x) = true /\ 0 < fileSize (snd x) /\ fileSize (snd x) mod pageSize4KB = 0.

(** Whole pages, without a gap, each backed by a valid file. *)
Record block_ok (b : MemoryBlock) : Prop := mkBlockOk {
  bo_start : 0 <= getBlockStartAddress b;
  bo_page : getBlockStartAddress b mod pageSize4KB = 0;
  bo_chain : chain (getBlockStartAddress b) (skels b);
  bo_good : Forall sk_good (skels b);
  bo_top : chain_end (getBlockStartAddress b) (skels b) <= top
}.

(** * Lemmas *)

Lemma chain_app lo l1 l2 : chain lo (l1 ++ l2) <-> chain lo l1 /\ chain (chain_end lo l1) l2.
Proof. revert lo. induction l1 as [|x l1 IH]; simpl; intros lo; [tauto|]. rewrite IH. tauto. Qed.

Lemma chain_end_app lo l1 l2 : chain_end lo (l1 ++ l2) = chain_end (chain_end lo l1) l2.
Proof. revert lo. induction l1 as [|x l1 IH]; simpl; intros lo; [done|apply IH]. Qed.

Lemma chain_end_ge lo l : Forall sk_good l -> lo <= chain_end lo l.
Proof. intros Hl. revert lo. induction Hl as [|x l (_ & H1 & _) _ IH]; simpl; intros lo; [lia|]. specialize (IH (lo + fileSize (snd x))). lia. Qed.

Lemma chain_end_page lo l : lo mod pageSize4KB = 0 -> Forall sk_good l -> chain_end lo l mod pageSize4KB = 0.
Proof.
  intros Hlo Hl. revert lo Hlo. induction Hl as [|x l (_ & _ & H1) _ IH]; simpl; intros lo Hlo; [done|].
  apply IH. rewrite Z.add_mod, Hlo, H1 by done. done.
Qed.

Lemma page_floor a : 0 <= a -> pageBegin a mod pageSize4KB = 0 /\ pageBegin a <= a < pageBegin a + pageSize4KB /\ 0 <= pageBegin a.
Proof. intros Ha. unfold pageBegin. change pageSize4KB with 4096. Z.div_mod_to_equations. lia. Qed.

(** Aligned bounds around an address. *)
Lemma page_le a p : 0 <= a -> p mod pageSize4KB = 0 -> p <= a -> p <= pageBegin a.
Proof. intros Ha Hp. unfold pageBegin. change pageSize4KB with 4096 in *. Z.div_mod_to_equations. lia. Qed.

Lemma skels_cons b : skels b = skel (front b) :: (skel <$> others b).
Proof. done. Qed.

Lemma last_snoc {A} (l : list A) x d : List.last (l ++ [x]) d = x.
Proof. apply last_last. Qed.

Lemma last_first {A} (l : list A) x d : List.last (x :: l) d = List.last l x.
Proof.
  revert x d. induction l as [|y l IH]; intros x d; [done|]. change (List.last (x :: y :: l) d) with (List.last (y :: l) d).
  by rewrite !IH.
Qed.

Lemma last_app_cons {A} (l1 : list A) x l2 d : List.last (l1 ++ x :: l2) d = List.last l2 x.
Proof. revert d. induction l1 as [|y l1 IH]; intros d; [apply last_first|]. cbn [app]. by rewrite last_first. Qed.

(** The end of a block is where its chain ends. *)
Lemma last_chain lo c l :
  chain lo (skel <$> c :: l) ->
  firstPageAddress (List.last l c) + chunkSize (List.last l c) = chain_end lo (skel <$> c :: l).
Proof.
  revert lo c. induction l as [|d l IH]; intros lo c.
  - by intros [<- _].
  - intros [<- Hc]. rewrite last_first. exact (IH _ _ Hc).
Qed.

Lemma block_end b : block_ok b -> getBlockEndAddress b = chain_end (getBlockStartAddress b) (skels b).
Proof.
  intros [Hs Hp Hc Hg Ht]. unfold getBlockEndAddress, chunkEnd, back. rewrite (last_chain (getBlockStartAddress b)) by exact Hc.
  fold (chunks b) (skels b). pose proof (chain_end_ge (getBlockStartAddress b) _ Hg). unfold top in *. apply u64_id. word_unfold. lia.
Qed.

Lemma block_bounds b : block_ok b ->
  0 <= getBlockStartAddress b < getBlockEndAddress b /\ getBlockEndAddress b <= top /\ getBlockEndAddress b mod pageSize4KB = 0.
Proof.
  intros Hb. rewrite (block_end _ Hb). destruct Hb as [Hs Hp Hc Hg Ht].
  pose proof (chain_end_page _ _ Hp Hg). rewrite skels_cons in *. apply Forall_cons in Hg as [(_ & Hf & _) Hg]. cbn [chain_end] in *.
  pose proof (chain_end_ge (getBlockStartAddress b + fileSize (snd (skel (front b)))) _ Hg). lia.
Qed.

(** Mappings do not matter for any of this. *)
Lemma start_skels b b' : skels b' = skels b -> getBlockStartAddress b' = getBlockStartAddress b.
Proof. rewrite !skels_cons. unfold getBlockStartAddress, skel. by intros [= -> _ _]. Qed.

Lemma last_skel l l' c c' :
  skel <$> l' = skel <$> l -> skel c' = skel c -> skel (List.last l' c') = skel (List.last l c).
Proof.
  revert l' c c'. induction l as [|x l IH]; intros [|x' l'] c c' Hl Hc; try done.
  injection Hl as Hx1 Hx2 Hl. rewrite !last_first. apply IH; [done|]. unfold skel. congruence.
Qed.

Lemma end_skels b b' : skels b' = skels b -> getBlockEndAddress b' = getBlockEndAddress b.
Proof.
  intros Heq. unfold getBlockEndAddress, chunkEnd, back, chunkSize. rewrite !skels_cons in Heq. injection Heq as H1 H2 H3.
  assert (Hl : skel (List.last (others b') (front b')) = skel (List.last (others b) (front b))).
  { apply last_skel; [done|]. unfold skel. congruence. }
  unfold skel in Hl. injection Hl as -> Hb. cbn [getFileSize mmapped_allocation_fd]. by rewrite Hb.
Qed.

Lemma block_ok_skels b b' : skels b' = skels b -> block_ok b -> block_ok b'.
Proof. intros Heq [Hs Hp Hc Hg Ht]. pose proof (start_skels _ _ Heq) as Hst. constructor; by rewrite ?Hst, ?Heq. Qed.

(** The blocks of the manager: ordered, disjoint, above [lo], under their keys. *)
Fixpoint blocks_ok (lo : Z) (l : BlockMap) : Prop :=
  match l with
  | [] => True
  | (key, b) :: l => key = getBlockStartAddress b /\ lo <= getBlockStartAddress b /\ block_ok b /\ blocks_ok (getBlockEndAddress b) l
  end.

Fixpoint blocks_end (lo : Z) (l : BlockMap) : Z :=
  match l with
  | [] => lo
  | (_, b) :: l => blocks_end (getBlockEndAddress b) l
  end.

Definition all_skels (l : BlockMap) : list Skeleton := concat (map (fun e => skels (snd e)) l).

Lemma all_skels_app l1 l2 : all_skels (l1 ++ l2) = all_skels l1 ++ all_skels l2.
Proof. unfold all_skels. by rewrite map_app, concat_app. Qed.

Lemma all_skels_cons e l : all_skels (e :: l) = skels (snd e) ++ all_skels l.
Proof. done. Qed.

Lemma blocks_ok_app lo l1 l2 : blocks_ok lo (l1 ++ l2) <-> blocks_ok lo l1 /\ blocks_ok (blocks_end lo l1) l2.
Proof. revert lo. induction l1 as [|[key b] l1 IH]; simpl; intros lo; [tauto|]. rewrite IH. tauto. Qed.

Lemma blocks_end_app lo l1 l2 : blocks_end lo (l1 ++ l2) = blocks_end (blocks_end lo l1) l2.
Proof. revert lo. induction l1 as [|[key b] l1 IH]; simpl; intros lo; [done|apply IH]. Qed.

Lemma blocks_ok_weaken lo lo' l : blocks_ok lo l -> lo' <= lo -> blocks_ok lo' l.
Proof. destruct l as [|[key b] l]; simpl; [done|]. intros (? & ? & ? & ?) ?. split; [done|]. split; [lia|done]. Qed.

(** Every block of a list lies between its bounds. *)
Lemma blocks_ok_range lo l : blocks_ok lo l ->
  Forall (fun e => fst e = getBlockStartAddress (snd e) /\ block_ok (snd e) /\ lo <= getBlockStartAddress (snd e) /\
    getBlockEndAddress (snd e) <= blocks_end lo l) l /\ (l <> [] -> lo < blocks_end lo l).
Proof.
  revert lo. induction l as [|[key b] l IH]; simpl; intros lo; [by split|]. intros (-> & Hlo & Hb & Hl).
  pose proof (block_bounds _ Hb) as (H1 & H2 & _). destruct (IH _ Hl) as [Hf Hne].
  assert (He : getBlockEndAddress b <= blocks_end (getBlockEndAddress b) l).
  { destruct l as [|e l]; [cbn; lia|]. specialize (Hne ltac:(done)). lia. }
  split; [|intros _; lia]. constructor; [cbn; split; [done|]; split; [done|]; lia|].
  eapply Forall_impl; [exact Hf|]. intros e (? & ? & ? & ?). split; [done|]. split; [done|]. lia.
Qed.

Section block_lemmas.
Context {K : Type} `{KL : KernelLaws K}.

(** ** Remapping *)

Lemma forget_skel c : skel (forget c) = skel c.
Proof. unfold forget. by destruct (mmappedPtr (shmem c) =? 0). Qed.

Lemma preserve_skels b : skels (preserveExistingMappings b) = skels b.
Proof.
  unfold skels, chunks, preserveExistingMappings. cbn [front others fmap list_fmap]. rewrite forget_skel. f_equal.
  induction (others b) as [|c l IH]; [done|]. cbn. by rewrite forget_skel, IH.
Qed.

Lemma remapChunk_skel from begin (k : K) c : skel (fst (remapChunk from begin k c)) = skel c.
Proof. unfold remapChunk. by destruct (sys_mmap k Fixed _ _ _ _) as [[ptr|] k']. Qed.

Lemma remapAll_skels from begin (k : K) l : skel <$> fst (remapAll from begin k l) = skel <$> l.
Proof.
  revert k. induction l as [|c l IH]; intros k; [done|]. cbn [remapAll].
  pose proof (remapChunk_skel from begin k c) as Hc. destruct (remapChunk from begin k c) as [c' k'].
  specialize (IH k'). destruct (remapAll from begin k' l) as [l' k2]. cbn in *. by rewrite Hc, IH.
Qed.

Lemma remap_skels (k : K) b : skels (fst (remapChunksAsContiguousMemory k b)) = skels b.
Proof.
  unfold remapChunksAsContiguousMemory. destruct (sys_mmap k Anywhere _ _ _ _) as [[from|] k1]; [|apply preserve_skels].
  set (p := preserveExistingMappings b). pose proof (remapChunk_skel from (getBlockStartAddress p) k1 (front p)) as Hf.
  destruct (remapChunk from _ k1 (front p)) as [f k2]. pose proof (remapAll_skels from (getBlockStartAddress p) k2 (others p)) as Hl.
  destruct (remapAll from _ k2 (others p)) as [l k3]. cbn [fst] in *. rewrite skels_cons. cbn [front others].
  rewrite Hf, Hl. fold (skels p). apply preserve_skels.
Qed.

(** ** Allocation of chunks *)

Lemma newChunk_correct (k : K) s first n :
  shm_ok s -> 0 < n <= 2 ^ 62 ->
  exists c s' k', newChunk k s first n ⇓ (c, s', k') /\ shm_ok s' /\ firstPageAddress c = first /\
    (sk_valid (skel c) -> sk_good (skel c) /\ n <= fileSize (snd (skel c)) < n + pageSize4KB).
Proof.
  intros Hs Hn. unfold newChunk.
  destruct (shmem_allocate_correct k s n pageSize4KB Hs) as (a & s' & k' & Hal & Hs' & _ & Hres).
  { split; [done|]. by split; [split|right]. }
  rewrite Hal. cbn [mbind res_bind]. eexists _, _, _. split; [reflexivity|]. do 2 (split; [done|]).
  unfold sk_valid, sk_good. cbn [skel snd firstPageAddress shmem mm_base]. intros Hv. rewrite Hv in Hres.
  destruct Hres as (_ & Hm & Hsz & _). split; [|done]. split; [done|]. split; [lia|done].
Qed.

Lemma newBlock_correct (k : K) s srcptr size :
  shm_ok s -> 0 <= srcptr -> 0 < size -> srcptr + size <= top ->
  exists b s' k', newBlock k s srcptr size ⇓ (b, s', k') /\ shm_ok s' /\ others b = [] /\ oldMappings b = [] /\
    getBlockStartAddress b = pageBegin srcptr /\
    (Forall sk_valid (skels b) -> Forall sk_good (skels b) /\
       srcptr + size <= pageBegin srcptr + fileSize (snd (skel (front b))) < srcptr + size + pageSize4KB).
Proof.
  intros Hs Hsrc Hsz Htop. unfold newBlock, top in *. pose proof (page_floor srcptr Hsrc) as (Hpf & Hpb & _). unfold pageBegin in Hpb.
  set (n := srcptr mod pageSize4KB + size). assert (Hn : 0 < n <= 2 ^ 62).
  { unfold n. change pageSize4KB with 4096 in *. pose proof (Z.mod_pos_bound srcptr 4096 ltac:(lia)). lia. }
  rewrite (u64_id n) by (word_unfold; lia).
  assert (Hreq : forall m, 0 < m <= 2 ^ 62 -> request_ok m pageSize4KB).
  { intros m Hm. split; [done|]. by split; [split|right]. }
  destruct (adjust_page _ _ (Hreq n Hn)) as (n' & Hadj & Hm & Hsz' & Hn'). unfold global_allocate. rewrite Hadj.
  destruct (shmem_allocate_correct k s n' pageSize4KB Hs (Hreq n' Hn')) as (a & s' & k' & Hal & Hs' & _ & Hres).
  cbn [u_allocate shmem_underlying]. rewrite Hal. cbn [mbind res_bind].
  assert (Hbad : forall x : OpenedShmemAllocation, isValid x = false -> forall b f, skels b = [(f, x)] -> ~ Forall sk_valid (skels b)).
  { intros x Hx b f -> [Hv _]%Forall_cons. unfold sk_valid in Hv. cbn [snd] in Hv. congruence. }
  destruct (isValid a) eqn:Hv; cbn [negb].
  2: { eexists _, _, _. split; [reflexivity|]. do 4 (split; [done|]). intros Hall. exfalso. revert Hall. by eapply (Hbad _ noAlloc_opened). }
  rewrite Z.ltb_irrefl. destruct Hres as (Htk & Hfm & Hfs & Hown & Hfdo & _).
  assert (Hfs' : fileSize a = n') by (change pageSize4KB with 4096 in *; Z.div_mod_to_equations; lia).
  destruct (sys_mmap k' Anywhere 0 n' _ _) as [[ptr|] k2].
  - eexists _, _, _. split; [reflexivity|]. do 4 (split; [done|]). intros _.
    unfold sk_good. cbn [skels chunks front others fmap list_fmap skel snd firstPageAddress shmem mm_base].
    split; [constructor; [|constructor]; cbn; split; [done|]; split; [lia|done]|]. unfold pageBegin. lia.
  - cbn [u_free shmem_underlying]. destruct Htk as (Hid & _).
    destruct (shmem_free_correct k2 s' a Hs' Hfdo Hown ltac:(lia)) as (k3 & Hfree). destruct (sys_shm_unlink k3 _) as [ul k4].
    destruct Hfree as (_ & Hs2 & _). destruct (shmem_free k2 s' a) as [s2 k5]. cbn [mbind res_bind].
    eexists _, _, _. split; [reflexivity|]. do 4 (split; [done|]). intros Hall. exfalso. revert Hall. by eapply (Hbad _ noAlloc_opened).
Qed.

(** ** Growing a block *)

Lemma valid_incl (l1 l2 : list Skeleton) : l1 ⊆ l2 -> Forall sk_valid l2 -> Forall sk_valid l1.
Proof. rewrite !Forall_forall. intros Hi Hv x Hx. apply Hv, Hi, Hx. Qed.

(** What every growth step keeps: [b] is part of [b'], and a good block stays good
    when the files that were added are valid. *)
Definition grows (b b' : MemoryBlock) : Prop :=
  skels b ⊆ skels b' /\ (Forall sk_valid (skels b') -> block_ok b -> block_ok b').

Lemma grows_refl b b' : skels b' = skels b -> grows b b'.
Proof. intros Heq. split; [by rewrite Heq|]. intros _. by apply block_ok_skels. Qed.

Lemma grows_trans b1 b2 b3 : grows b1 b2 -> grows b2 b3 -> grows b1 b3.
Proof.
  intros [H1 H2] [H3 H4]. split; [by transitivity (skels b2)|]. intros Hv Hb. apply H4; [done|]. apply H2; [|done].
  by apply (valid_incl _ _ H3).
Qed.

Lemma prepend_correct (k : K) s b p :
  shm_ok s -> 0 <= p < getBlockStartAddress b -> getBlockStartAddress b <= top -> p mod pageSize4KB = 0 ->
  exists b' s' k', prependChunk k s b (getBlockStartAddress b) p ⇓ (b', s', k') /\ shm_ok s' /\
    getBlockStartAddress b' = p /\ getBlockEndAddress b' = getBlockEndAddress b /\ grows b b'.
Proof.
  intros Hs Hp Ht Hm. unfold prependChunk, top in *. rewrite u64_id by (word_unfold; lia).
  destruct (newChunk_correct k s p (getBlockStartAddress b - p) Hs ltac:(lia)) as (c & s' & k' & Hnew & Hs' & Hf & Hg).
  rewrite Hnew. cbn [mbind res_bind]. eexists _, _, _. split; [reflexivity|]. split; [done|].
  set (b' := mkBlock c (chunks b) (oldMappings b)). assert (Hsk : skels b' = skel c :: skels b) by done.
  split; [exact Hf|]. split; [unfold getBlockEndAddress, back, b', chunks; cbn [others front]; by rewrite last_first|].
  split; [rewrite Hsk; intros x Hx; by right|]. intros Hv Hb. pose proof (block_bounds _ Hb) as Hbb. destruct Hb as [Hst Hpg Hc Hgd Htp].
  assert (Hst' : getBlockStartAddress b' = p) by exact Hf.
  rewrite Hsk in Hv. apply Forall_cons in Hv as [Hvc _]. destruct (Hg Hvc) as (Hgood & Hsz).
  assert (Heq : p + fileSize (snd (skel c)) = getBlockStartAddress b).
  { destruct Hgood as (_ & _ & Hfm). change pageSize4KB with 4096 in *. Z.div_mod_to_equations. lia. }
  constructor; rewrite ?Hst', ?Hsk; [lia|done| | |].
  - cbn [chain]. split; [exact Hf|]. by rewrite Heq.
  - by constructor.
  - cbn [chain_end]. by rewrite Heq.
Qed.

(** The end after an append is where the file ends, if there is one. *)
Lemma append_correct (k : K) s b e :
  shm_ok s -> 0 <= getBlockEndAddress b < e -> e <= top ->
  exists b' s' k', appendChunk k s b (getBlockEndAddress b) e ⇓ (b', s', k') /\ shm_ok s' /\
    front b' = front b /\ oldMappings b' = oldMappings b /\ grows b b' /\
    (Forall sk_valid (skels b') -> block_ok b -> e <= getBlockEndAddress b' < e + pageSize4KB /\
       (e mod pageSize4KB = 0 -> getBlockEndAddress b' = e)).
Proof.
  intros Hs He Ht. unfold appendChunk, top in *. rewrite u64_id by (word_unfold; lia).
  destruct (newChunk_correct k s (getBlockEndAddress b) (e - getBlockEndAddress b) Hs ltac:(lia)) as (c & s' & k' & Hnew & Hs' & Hf & Hg).
  rewrite Hnew. cbn [mbind res_bind]. eexists _, _, _. split; [reflexivity|]. split; [done|]. do 2 (split; [done|]).
  set (b' := mkBlock (front b) (others b ++ [c]) (oldMappings b)).
  assert (Hsk : skels b' = skels b ++ [skel c]) by (rewrite !skels_cons; cbn [others b' front]; by rewrite fmap_app).
  assert (Hst : getBlockStartAddress b' = getBlockStartAddress b) by done.
  assert (Hok : Forall sk_valid (skels b') -> block_ok b ->
     block_ok b' /\ e <= getBlockEndAddress b + fileSize (snd (skel c)) < e + pageSize4KB /\
     getBlockEndAddress b' = getBlockEndAddress b + fileSize (snd (skel c)) /\
     (e mod pageSize4KB = 0 -> getBlockEndAddress b + fileSize (snd (skel c)) = e)).
  { intros Hv Hb. pose proof (block_end _ Hb) as Hbe. pose proof (block_bounds _ Hb) as (_ & _ & Hem). destruct Hb as [Hs0 Hpg Hc Hgd Htp].
    rewrite Hsk in Hv. apply Forall_app in Hv as [_ [Hvc _]%Forall_cons]. destruct (Hg Hvc) as (Hgood & Hsz).
    assert (Hend : chain_end (getBlockStartAddress b) (skels b') = getBlockEndAddress b + fileSize (snd (skel c))).
    { rewrite Hsk, chain_end_app, <- Hbe. done. }
    assert (Hfm : fileSize (snd (skel c)) mod pageSize4KB = 0) by apply Hgood.
    assert (Hb' : block_ok b').
    { constructor; rewrite ?Hst; [done|done| | |].
      - rewrite Hsk. apply chain_app. split; [done|]. rewrite <- Hbe. cbn [chain]. done.
      - rewrite Hsk. apply Forall_app. split; [done|]. by constructor.
      - rewrite Hend. unfold top in *. change pageSize4KB with 4096 in *.
        assert (2 ^ 61 mod 4096 = 0) by done. Z.div_mod_to_equations. lia. }
    split; [done|]. split; [lia|]. split; [by rewrite (block_end _ Hb'), Hst|].
    intros Hm. change pageSize4KB with 4096 in *. Z.div_mod_to_equations. lia. }
  split; [split|].
  - rewrite Hsk. intros x Hx. apply elem_of_app. by left.
  - intros Hv Hb. by apply Hok.
  - intros Hv Hb. destruct (Hok Hv Hb) as (_ & H1 & -> & H2). done.
Qed.

Lemma extend_correct (k : K) s b srcptr size :
  shm_ok s -> 0 <= srcptr -> 0 < size -> srcptr + size <= top ->
  0 <= getBlockStartAddress b <= top -> 0 <= getBlockEndAddress b ->
  exists b' s' k', extendBlockIfRequired k s b srcptr size ⇓ (b', s', k') /\ shm_ok s' /\
    getBlockStartAddress b' = Z.min (pageBegin srcptr) (getBlockStartAddress b) /\ grows b b' /\
    (Forall sk_valid (skels b') -> block_ok b ->
       getBlockEndAddress b' = getBlockEndAddress b /\ srcptr + size <= getBlockEndAddress b \/
       getBlockEndAddress b < srcptr + size <= getBlockEndAddress b' /\ getBlockEndAddress b' < srcptr + size + pageSize4KB).
Proof.
  intros Hs Hsrc Hsz Ht Hst Hen. pose proof (page_floor srcptr Hsrc) as (Hpm & Hpb & Hp0). unfold extendBlockIfRequired, top in *.
  rewrite (u64_id (srcptr + size)) by (word_unfold; lia).
  assert (Hpre : exists b1 s1 k1, (if pageBegin srcptr <? getBlockStartAddress b
      then prependChunk k s b (getBlockStartAddress b) (pageBegin srcptr) else Ret (b, s, k)) ⇓ (b1, s1, k1) /\ shm_ok s1 /\
      getBlockStartAddress b1 = Z.min (pageBegin srcptr) (getBlockStartAddress b) /\
      getBlockEndAddress b1 = getBlockEndAddress b /\ grows b b1).
  { destruct (Z.ltb_spec (pageBegin srcptr) (getBlockStartAddress b)) as [Hlt|Hge].
    - destruct (prepend_correct k s b (pageBegin srcptr) Hs ltac:(lia) ltac:(unfold top; lia) Hpm) as (b1 & s1 & k1 & H1 & H2 & H3 & H4 & H5).
      exists b1, s1, k1. do 2 (split; [done|]). split; [lia|done].
    - exists b, s, k. do 2 (split; [done|]). split; [lia|]. split; [done|]. by apply grows_refl. }
  destruct Hpre as (b1 & s1 & k1 & Hpre & Hs1 & Hst1 & Hen1 & Hg1). rewrite Hpre. cbn [mbind res_bind].
  rewrite Hen1 in *. destruct (Z.ltb_spec (getBlockEndAddress b) (srcptr + size)) as [Hlt|Hge].
  - rewrite <- Hen1. destruct (append_correct k1 s1 b1 (srcptr + size) Hs1 ltac:(lia) ltac:(unfold top; lia))
      as (b2 & s2 & k2 & Happ & Hs2 & Hfr & _ & Hg2 & Hend2). rewrite Happ. cbn [mbind res_bind].
    rewrite orb_true_r. pose proof (remap_skels k2 b2) as Hr. destruct (remapChunksAsContiguousMemory k2 b2) as [b3 k3]. cbn [fst] in Hr.
    eexists _, _, _. split; [reflexivity|]. split; [done|]. split.
    { rewrite (start_skels _ _ Hr). unfold getBlockStartAddress at 1. rewrite Hfr. exact Hst1. }
    split; [apply (grows_trans _ b2); [by apply (grows_trans _ b1)|by apply grows_refl]|].
    intros Hv Hb. right. rewrite (end_skels _ _ Hr). rewrite Hr in Hv.
    destruct (Hend2 Hv) as (Hz & _); [apply Hg1; [by apply (valid_incl _ _ (proj1 Hg2))|done]|]. lia.
  - cbn [mbind res_bind]. rewrite orb_false_r.
    assert (Hr : exists b3 k3, (if pageBegin srcptr <? getBlockStartAddress b
       then let (b, k) := remapChunksAsContiguousMemory k1 b1 in Ret (b, s1, k) else Ret (b1, s1, k1)) ⇓ (b3, s1, k3) /\ skels b3 = skels b1).
    { destruct (_ <? _); [|by exists b1, k1]. pose proof (remap_skels k1 b1) as Hr.
      destruct (remapChunksAsContiguousMemory k1 b1) as [b3 k3]. by exists b3, k3. }
    destruct Hr as (b3 & k3 & Heq & Hr). exists b3, s1, k3. do 2 (split; [done|]). split; [by rewrite (start_skels _ _ Hr)|].
    split; [apply (grows_trans _ b1); [done|by apply grows_refl]|]. intros _ _. left. by rewrite (end_skels _ _ Hr).
Qed.

(** ** Merging *)

Lemma merge_correct (k : K) s b rhs :
  shm_ok s -> 0 <= getBlockEndAddress b <= getBlockStartAddress rhs -> getBlockStartAddress rhs <= top ->
  exists b' s' k', merge k s b rhs ⇓ (b', s', k') /\ shm_ok s' /\
    getBlockStartAddress b' = getBlockStartAddress b /\ getBlockEndAddress b' = getBlockEndAddress rhs /\
    skels b ⊆ skels b' /\ skels rhs ⊆ skels b' /\
    (Forall sk_valid (skels b') -> block_ok b -> block_ok rhs -> block_ok b').
Proof.
  intros Hs He Ht. unfold merge. rewrite (proj2 (Z.ltb_ge (getBlockStartAddress rhs) (getBlockEndAddress b))) by lia.
  assert (Hfill : exists b1 s1 k1, (if negb (getBlockEndAddress b =? getBlockStartAddress rhs)
       then appendChunk k s b (getBlockEndAddress b) (getBlockStartAddress rhs) else Ret (b, s, k)) ⇓ (b1, s1, k1) /\ shm_ok s1 /\
       front b1 = front b /\ grows b b1 /\
       (Forall sk_valid (skels b1) -> block_ok b -> block_ok rhs -> getBlockEndAddress b1 = getBlockStartAddress rhs)).
  { destruct (Z.eqb_spec (getBlockEndAddress b) (getBlockStartAddress rhs)) as [Heq|Hne]; cbn [negb].
    - exists b, s, k. do 3 (split; [done|]). split; [by apply grows_refl|done].
    - destruct (append_correct k s b (getBlockStartAddress rhs) Hs ltac:(lia) Ht) as (b1 & s1 & k1 & H1 & H2 & H3 & _ & H4 & H5).
      exists b1, s1, k1. do 4 (split; [done|]). intros Hv Hb Hr. apply (H5 Hv Hb). apply Hr. }
  destruct Hfill as (b1 & s1 & k1 & Hf & Hs1 & Hfr & [Hi Hg] & Hend). rewrite Hf. cbn [mbind res_bind].
  eexists _, _, _. split; [reflexivity|]. split; [done|].
  set (b' := mkBlock (front b1) (others b1 ++ chunks rhs) (oldMappings b1 ++ oldMappings rhs)).
  assert (Hsk : skels b' = skels b1 ++ skels rhs) by (rewrite !skels_cons; cbn [others b' front]; by rewrite fmap_app).
  assert (Hst : getBlockStartAddress b' = getBlockStartAddress b) by (unfold getBlockStartAddress, b'; cbn [front]; by rewrite Hfr).
  split; [done|]. split; [unfold getBlockEndAddress, back, b', chunks; cbn [others front]; by rewrite last_app_cons|].
  rewrite Hsk. split; [intros x Hx; apply elem_of_app; left; by apply Hi|]. split; [intros x Hx; apply elem_of_app; by right|].
  intros [Hv1 Hv2]%Forall_app Hb Hr. specialize (Hend Hv1 Hb Hr). specialize (Hg Hv1 Hb).
  pose proof (block_end _ Hg) as He1. assert (Hst1 : getBlockStartAddress b1 = getBlockStartAddress b) by (unfold getBlockStartAddress; by rewrite Hfr).
  destruct Hg as [A1 A2 A3 A4 A5], Hr as [B1 B2 B3 B4 B5]. rewrite Hst1 in *.
  constructor; rewrite ?Hst, ?Hsk; [done|done| | |].
  - apply chain_app. split; [done|]. by rewrite <- He1, Hend.
  - by apply Forall_app.
  - rewrite chain_end_app, <- He1, Hend. done.
Qed.

Lemma mergeAll_correct (k : K) s b l :
  shm_ok s -> 0 <= getBlockEndAddress b -> blocks_ok (getBlockEndAddress b) l ->
  exists b' s' k', mergeAll k s b l ⇓ (b', s', k') /\ shm_ok s' /\
    getBlockStartAddress b' = getBlockStartAddress b /\ getBlockEndAddress b' = blocks_end (getBlockEndAddress b) l /\
    skels b ⊆ skels b' /\ all_skels l ⊆ skels b' /\
    (Forall sk_valid (skels b') -> block_ok b -> block_ok b').
Proof.
  revert k s b. induction l as [|[key rhs] l IH]; intros k s b Hs He Hl.
  - exists b, s, k. do 4 (split; [done|]). split; [done|]. split; [|done]. intros x Hx. by apply elem_of_nil in Hx.
  - cbn [mergeAll blocks_ok blocks_end] in *. destruct Hl as (_ & Hlo & Hr & Hl). pose proof (block_bounds _ Hr) as (H1 & H2 & _).
    destruct (merge_correct k s b rhs Hs ltac:(lia) ltac:(lia)) as (b1 & s1 & k1 & Hm & Hs1 & Hst & Hen & Hi1 & Hi2 & Hok).
    rewrite Hm. cbn [mbind res_bind].
    destruct (IH k1 s1 b1 Hs1) as (b' & s' & k' & Hm' & Hs' & Hst' & Hen' & Hi1' & Hi2' & Hok'); [lia|by rewrite Hen|].
    exists b', s', k'. do 2 (split; [done|]). split; [by rewrite Hst'|]. split; [by rewrite Hen', Hen|].
    split; [by transitivity (skels b1)|]. split.
    + intros x. unfold all_skels. cbn [map concat snd]. intros [Hx|Hx]%elem_of_app; [by apply Hi1', Hi2|by apply Hi2'].
    + intros Hv Hb. apply Hok'; [done|]. apply Hok; [by apply (valid_incl _ _ Hi1')|done|done].
Qed.

End block_lemmas.

(** ** Positions in the map *)

(** The entries before, at and after the pages that a range touches. *)
Definition before_src (srcptr : Z) (e : Z * MemoryBlock) : Prop := getBlockEndAddress (snd e) <= srcptr.
Definition touches (srcptr srcEnd : Z) (e : Z * MemoryBlock) : Prop :=
  srcptr < getBlockEndAddress (snd e) /\ getBlockStartAddress (snd e) < srcEnd.
Definition after_src (srcEnd : Z) (e : Z * MemoryBlock) : Prop := srcEnd <= getBlockStartAddress (snd e).

Lemma blocks_split lo l srcptr srcEnd :
  blocks_ok lo l -> srcptr < srcEnd ->
  exists l1 l2 l3, l = l1 ++ l2 ++ l3 /\ Forall (before_src srcptr) l1 /\ Forall (touches srcptr srcEnd) l2 /\ Forall (after_src srcEnd) l3.
Proof.
  intros Hl Hs. revert lo Hl. induction l as [|[key b] l IH]; intros lo Hl; [by exists [], [], []|].
  destruct Hl as (-> & Hlo & Hb & Hl). pose proof (block_bounds _ Hb) as (Hbb & _).
  destruct (Z.le_gt_cases (getBlockEndAddress b) srcptr) as [Hle|Hgt].
  - destruct (IH _ Hl) as (l1 & l2 & l3 & -> & H1 & H2 & H3). exists ((getBlockStartAddress b, b) :: l1), l2, l3.
    split; [done|]. split; [by constructor|done].
  - destruct (Z.le_gt_cases srcEnd (getBlockStartAddress b)) as [Hge|Hlt].
    + exists [], [], ((getBlockStartAddress b, b) :: l). do 3 (split; [done|]). constructor; [done|].
      destruct (blocks_ok_range _ _ Hl) as [Hr _]. eapply Forall_impl; [exact Hr|]. unfold after_src. intros e (_ & _ & He & _). lia.
    + destruct (IH _ Hl) as (l1 & l2 & l3 & -> & H1 & H2 & H3). exists [], ((getBlockStartAddress b, b) :: l1 ++ l2), l3.
      destruct (blocks_ok_range _ _ Hl) as [Hr _].
      assert (Hno : l1 = []).
      { destruct l1 as [|e l1]; [done|]. apply Forall_cons in H1 as [He _]. apply Forall_cons in Hr as [(_ & Hbe & Hle & _) _].
        pose proof (block_bounds _ Hbe) as (He2 & _). unfold before_src in He. lia. }
      subst l1. split; [done|]. split; [constructor|]. split; [|done]. constructor; [by split|done].
Qed.

Lemma lower_bound_app l1 l2 key :
  Forall (fun e => fst e < key) l1 -> Forall (fun e => key <= fst e) l2 -> lower_bound (l1 ++ l2) key = length l1.
Proof.
  intros H1 H2. induction H1 as [|[x b] l1 Hx _ IH]; simpl in *.
  - destruct H2 as [|[x b] l2 Hx _]; simpl in *; [done|]. by rewrite (proj2 (Z.ltb_ge x key)).
  - rewrite (proj2 (Z.ltb_lt x key)) by done. by rewrite IH.
Qed.

(** The first block that a range touches is found, and only if there is one. *)
Lemma overlapping_begin lo l1 l2 l3 srcptr size :
  blocks_ok lo (l1 ++ l2 ++ l3) -> 0 <= lo -> 0 <= srcptr -> 0 < size -> srcptr + size <= top ->
  Forall (before_src srcptr) l1 -> Forall (touches srcptr (srcptr + size)) l2 -> Forall (after_src (srcptr + size)) l3 ->
  getOverlappingBlocksBegin (l1 ++ l2 ++ l3) srcptr size = (match l2 with [] => None | _ => Some (length l1) end) /\
  getOverlappingBlocksEnd (l1 ++ l2 ++ l3) srcptr size = length (l1 ++ l2).
Proof.
  intros Hl Hlo Hs Hsz Ht H1 H2 H3. unfold top in *. destruct (blocks_ok_range _ _ Hl) as [Hr _].
  assert (Hov : forall e, fst e = getBlockStartAddress (snd e) /\ block_ok (snd e) ->
     overlapsPages (snd e) srcptr size = true <-> touches srcptr (srcptr + size) e).
  { intros e (_ & Hb). pose proof (block_bounds _ Hb) as (Hbb & _). unfold overlapsPages, overlaps, touches.
    rewrite u64_id by (word_unfold; lia). rewrite orb_true_iff, !andb_true_iff, !Z.leb_le, !Z.ltb_lt. lia. }
  apply Forall_app in Hr as [Hr1 [Hr2 Hr3]%Forall_app].
  assert (Hk1 : Forall (fun e => fst e < srcptr) l1).
  { apply Forall_forall. intros e He. rewrite Forall_forall in Hr1, H1. destruct (Hr1 e He) as (-> & Hb & _).
    pose proof (block_bounds _ Hb). specialize (H1 e He). unfold before_src in H1. lia. }
  assert (Hk3 : Forall (fun e => srcptr + size <= fst e) l3).
  { apply Forall_forall. intros e He. rewrite Forall_forall in Hr3, H3. destruct (Hr3 e He) as (-> & _). exact (H3 e He). }
  split.
  2: { unfold getOverlappingBlocksEnd. rewrite u64_id by (word_unfold; lia). rewrite (assoc_L app). apply lower_bound_app; [|exact Hk3].
       apply Forall_app. split; [eapply Forall_impl; [exact Hk1|]; cbn; lia|].
       apply Forall_forall. intros e He. rewrite Forall_forall in Hr2, H2. destruct (Hr2 e He) as (-> & _). apply (H2 e He). }
  assert (Hat : forall i e, (l1 ++ l2 ++ l3) !! i = Some e -> overlapsAt (l1 ++ l2 ++ l3) i srcptr size = overlapsPages (snd e) srcptr size).
  { intros i [x b] Hi. unfold overlapsAt. by rewrite Hi. }
  assert (Hno1 : forall j e, l1 !! j = Some e -> overlapsAt (l1 ++ l2 ++ l3) j srcptr size = false).
  { intros j e Hj. pose proof (Forall_lookup_1 _ _ _ _ Hr1 Hj) as (Hke & Hbe & _). pose proof (Forall_lookup_1 _ _ _ _ H1 Hj) as Hbf.
    rewrite (Hat j e) by (rewrite lookup_app_l; [done|by eapply lookup_lt_Some]). apply not_true_iff_false. rewrite Hov by done.
    unfold touches, before_src in *. lia. }
  unfold getOverlappingBlocksBegin. destruct l2 as [|e l2].
  - cbn [app] in *. rewrite (lower_bound_app l1 l3) by (done || (eapply Forall_impl; [exact Hk3|]; cbn; lia)).
    assert (Hprev : match length l1 with O => false | S j => overlapsAt (l1 ++ l3) j srcptr size end = false).
    { destruct (length l1) as [|j] eqn:Hlen; [done|]. destruct (lookup_lt_is_Some_2 l1 j ltac:(lia)) as [e He]. by apply (Hno1 j e). }
    rewrite Hprev. destruct l3 as [|e l3].
    + unfold overlapsAt. by rewrite lookup_ge_None_2 by (rewrite app_nil_r; lia).
    + assert (Hi : (l1 ++ e :: l3) !! length l1 = Some e) by by apply list_lookup_middle.
      rewrite (Hat _ e Hi). apply Forall_cons in Hr3 as [(Hke & Hbe & _) _], H3 as [He _].
      assert (Hf : overlapsPages (snd e) srcptr size = false).
      { apply not_true_iff_false. rewrite Hov by done. unfold touches, after_src in *. lia. }
      by rewrite Hf.
  - apply Forall_cons in H2 as [He H2]. apply Forall_cons in Hr2 as [(Hke & Hbe & Hloe & Hre) Hr2].
    assert (Hi : (l1 ++ (e :: l2) ++ l3) !! length l1 = Some e) by by apply list_lookup_middle.
    assert (Htrue : overlapsAt (l1 ++ (e :: l2) ++ l3) (length l1) srcptr size = true) by (rewrite (Hat _ e Hi); by apply Hov).
    assert (Hrest : Forall (fun e => srcptr <= fst e) (l2 ++ l3)).
    { apply blocks_ok_app in Hl as [_ Hl]. cbn [app] in Hl. destruct e as [key b]. cbn [blocks_ok snd fst] in *. destruct Hl as (_ & _ & _ & Hl).
      destruct (blocks_ok_range _ _ Hl) as [Hr _]. eapply Forall_impl; [exact Hr|]. cbn beta. intros e' (-> & _ & Hge & _). unfold touches in He. cbn in He. lia. }
    destruct (Z.lt_ge_cases (fst e) srcptr) as [Hlt|Hge].
    + replace (l1 ++ (e :: l2) ++ l3) with ((l1 ++ [e]) ++ l2 ++ l3) in * by (by rewrite <- (assoc_L app)).
      rewrite (lower_bound_app (l1 ++ [e]) (l2 ++ l3)); [|apply Forall_app; split; [done|by constructor]|done].
      rewrite length_app. cbn [length]. rewrite Nat.add_1_r, Htrue. done.
    + rewrite (lower_bound_app l1 ((e :: l2) ++ l3)); [|done|cbn [app]; by constructor].
      assert (Hprev : match length l1 with O => false | S j => overlapsAt (l1 ++ (e :: l2) ++ l3) j srcptr size end = false).
      { destruct (length l1) as [|j] eqn:Hlen; [done|]. destruct (lookup_lt_is_Some_2 l1 j ltac:(lia)) as [e' He']. by apply (Hno1 j e'). }
      by rewrite Hprev, Htrue.
Qed.

Lemma map_insert_app l1 l2 key b :
  Forall (fun e => fst e < key) l1 -> Forall (fun e => key < fst e) l2 ->
  map_insert (l1 ++ l2) key b = Some (l1 ++ (key, b) :: l2).
Proof.
  intros H1 H2. induction H1 as [|[x y] l1 Hx _ IH]; cbn [app map_insert fst] in *.
  - destruct H2 as [|[x y] l2 Hx _]; cbn [map_insert fst] in *; [done|]. by rewrite (proj2 (Z.ltb_lt key x)).
  - rewrite (proj2 (Z.ltb_ge key x)), (proj2 (Z.eqb_neq key x)) by lia. by rewrite IH.
Qed.

Definition manager_ok (m : MemoryBlocksManager) : Prop := blocks_ok 0 (memoryBlocks m).

Section register.
Context {K : Type} `{KL : KernelLaws K}.
Context (srcptr size : Z) (Hsrc : 0 <= srcptr) (Hsize : 0 < size) (Htop : srcptr + size <= top).

(** What is known of the entries around the pages of the range. *)
Record around (l1 l3 : BlockMap) : Prop := mkAround {
  ar_l1 : blocks_ok 0 l1;
  ar_l3 : forall e, e <= srcptr + size -> blocks_ok e l3;
  ar_before : blocks_end 0 l1 <= pageBegin srcptr;
  ar_keys1 : Forall (fun e => fst e < pageBegin srcptr) l1;
  ar_keys3 : Forall (fun e => srcptr + size <= fst e /\ fst e mod pageSize4KB = 0) l3
}.

Lemma around_intro l1 l2 l3 :
  blocks_ok 0 (l1 ++ l2 ++ l3) -> Forall (before_src srcptr) l1 -> Forall (after_src (srcptr + size)) l3 -> around l1 l3.
Proof.
  intros Hl H1 H3. apply blocks_ok_app in Hl as [Hl1 Hl]. apply blocks_ok_app in Hl as [_ Hl3].
  destruct (blocks_ok_range _ _ Hl1) as [Hr1 _]. destruct (blocks_ok_range _ _ Hl3) as [Hr3 _].
  assert (Hpage : Forall (fun e => getBlockEndAddress (snd e) <= pageBegin srcptr) l1).
  { apply Forall_forall. intros e He. rewrite Forall_forall in Hr1, H1. destruct (Hr1 e He) as (_ & Hb & _).
    pose proof (block_bounds _ Hb) as (_ & _ & Hm). apply page_le; [done|done|exact (H1 e He)]. }
  constructor.
  - done.
  - intros e He. destruct l3 as [|[key b] l3]; [done|]. cbn [blocks_ok] in *. destruct Hl3 as (-> & _ & Hb & Hl3).
    apply Forall_cons in H3 as [H3 _]. unfold after_src in H3. cbn in H3. split; [done|]. split; [lia|done].
  - destruct (list_eq_nil_dec l1) as [->|Hne]; [apply page_floor; done|].
    destruct (exists_last Hne) as (l & e & ->). rewrite blocks_end_app. destruct e as [key b]. cbn [blocks_end].
    apply Forall_app in Hpage as [_ [Hp _]%Forall_cons]. exact Hp.
  - apply Forall_forall. intros e He. rewrite Forall_forall in Hr1, Hpage. destruct (Hr1 e He) as (-> & Hb & _).
    pose proof (block_bounds _ Hb). specialize (Hpage e He). cbn in Hpage. lia.
  - apply Forall_forall. intros e He. rewrite Forall_forall in Hr3, H3. destruct (Hr3 e He) as (-> & Hb & _).
    split; [exact (H3 e He)|]. apply Hb.
Qed.

(** A block that covers the range takes its place between the others. *)
Lemma around_middle l1 l3 b :
  around l1 l3 -> block_ok b -> blocks_end 0 l1 <= getBlockStartAddress b ->
  (getBlockEndAddress b < srcptr + size + pageSize4KB \/ blocks_ok (getBlockEndAddress b) l3) ->
  blocks_ok 0 (l1 ++ (getBlockStartAddress b, b) :: l3).
Proof.
  intros [H1 H3 Hbe Hk1 Hk3] Hb Hst Hen. apply blocks_ok_app. split; [done|]. cbn [blocks_ok]. do 2 (split; [done|]). split; [done|].
  destruct Hen as [Hlt|]; [|done]. pose proof (block_bounds _ Hb) as (_ & _ & Hm).
  destruct l3 as [|[key c] l3]; [done|]. specialize (H3 (srcptr + size) ltac:(lia)). cbn [blocks_ok] in *.
  apply Forall_cons in Hk3 as [[Hk Hkm] _]. cbn in Hk, Hkm. destruct H3 as (-> & _ & Hc & H3). split; [done|]. split; [|done].
  change pageSize4KB with 4096 in *. Z.div_mod_to_equations. lia.
Qed.

(** The overlapped blocks become one. *)
Lemma merged_correct (k : K) s l1 e l2 l3 :
  shm_ok s -> blocks_ok 0 (l1 ++ (e :: l2) ++ l3) -> Forall (before_src srcptr) l1 ->
  Forall (touches srcptr (srcptr + size)) (e :: l2) -> Forall (after_src (srcptr + size)) l3 ->
  exists mb s' k', getMergedOverlappingMemoryBlocks k s (l1 ++ (e :: l2) ++ l3) srcptr size
      ⇓ (Some (length l1), l1 ++ (fst e, mb) :: l3, s', k') /\ shm_ok s' /\
    getBlockStartAddress mb = getBlockStartAddress (snd e) /\
    getBlockEndAddress mb = blocks_end (getBlockEndAddress (snd e)) l2 /\
    all_skels (e :: l2) ⊆ skels mb /\ (Forall sk_valid (skels mb) -> block_ok mb).
Proof.
  intros Hs Hl H1 H2 H3. destruct (overlapping_begin 0 _ _ _ _ _ Hl ltac:(lia) Hsrc Hsize Htop H1 H2 H3) as [Hbeg Hend].
  unfold getMergedOverlappingMemoryBlocks. rewrite Hbeg.
  assert (Hi : (l1 ++ (e :: l2) ++ l3) !! length l1 = Some e) by by apply list_lookup_middle. rewrite Hi. destruct e as [key b].
  rewrite Hend. apply blocks_ok_app in Hl as [_ Hl]. cbn [app blocks_ok] in Hl. destruct Hl as (-> & Hlo & Hb & Hl).
  apply blocks_ok_app in Hl as [Hl _]. pose proof (block_bounds _ Hb) as (Hbb & _). cbn [fst snd].
  rewrite length_app. cbn [length]. destruct l2 as [|e2 l2].
  - cbn [length]. replace (length l1 + 1)%nat with (S (length l1)) by lia. rewrite Nat.eqb_refl.
    exists b, s, k. do 4 (split; [done|]). split; [|done]. unfold all_skels. cbn. by rewrite app_nil_r.
  - rewrite (proj2 (Nat.eqb_neq _ _)) by (cbn [length]; lia). rewrite (proj2 (Nat.ltb_ge _ _)) by lia.
    set (ll := e2 :: l2) in *.
    assert (Hdrop : drop (S (length l1)) (l1 ++ ((getBlockStartAddress b, b) :: ll) ++ l3) = ll ++ l3).
    { cbn [app]. rewrite (cons_middle _ l1), (assoc_L app). rewrite drop_app_length'; [done|]. rewrite length_app. cbn. lia. }
    rewrite Hdrop. replace (length l1 + S (length ll) - S (length l1))%nat with (length ll) by lia. rewrite (take_app_length ll l3).
    destruct (mergeAll_correct k s b ll Hs ltac:(lia) Hl) as (mb & s' & k' & Hm & Hs' & Hst & Hen & Hi1 & Hi2 & Hok).
    rewrite Hm. cbn [mbind res_bind].
    assert (Hr : exists mb2 k2, (if negb (requiresExtension mb srcptr size) then remapChunksAsContiguousMemory k' mb else (mb, k')) = (mb2, k2) /\ skels mb2 = skels mb).
    { destruct (negb _); [|by exists mb, k']. pose proof (remap_skels k' mb). destruct (remapChunksAsContiguousMemory k' mb) as [mb2 k2]. by exists mb2, k2. }
    destruct Hr as (mb2 & k2 & -> & Hsk). exists mb2, s', k2. split.
    { do 4 f_equal.
      assert (Htake : take (length l1) (l1 ++ ((getBlockStartAddress b, b) :: ll) ++ l3) = l1) by apply take_app_length.
      assert (Hd3 : drop (length l1 + S (length ll)) (l1 ++ ((getBlockStartAddress b, b) :: ll) ++ l3) = l3).
      { rewrite (assoc_L app). apply drop_app_length'. rewrite length_app. done. }
      by rewrite Htake, Hd3. }
    split; [done|]. split; [by rewrite (start_skels _ _ Hsk)|]. split; [by rewrite (end_skels _ _ Hsk)|]. rewrite Hsk. split.
    + intros x. unfold all_skels. cbn [map concat snd]. intros [Hx|Hx]%elem_of_app; [by apply Hi1|by apply Hi2].
    + intros Hv. apply (block_ok_skels _ _ Hsk). by apply Hok.
Qed.

(** What [registerMemoryBlock] achieves. *)
Definition registered (m m' : MemoryBlocksManager) (b : MemoryBlock) : Prop :=
  (getBlockStartAddress b, b) ∈ memoryBlocks m' /\ usmMemoryPairs m' = usmMemoryPairs m /\
  all_skels (memoryBlocks m) ⊆ all_skels (memoryBlocks m') /\
  (Forall sk_valid (all_skels (memoryBlocks m')) ->
     manager_ok m' /\ getBlockStartAddress b <= srcptr /\ srcptr + size <= getBlockEndAddress b).

Lemma skels_in_all l b key : (key, b) ∈ l -> skels b ⊆ all_skels l.
Proof.
  intros (l1 & l2 & ->)%list_elem_of_split x Hx. rewrite all_skels_app, all_skels_cons, !elem_of_app. tauto.
Qed.

Lemma register_fresh (k : K) s m l1 l3 :
  shm_ok s -> manager_ok m -> memoryBlocks m = l1 ++ l3 ->
  Forall (before_src srcptr) l1 -> Forall (after_src (srcptr + size)) l3 ->
  exists b m' s' k', registerMemoryBlock k s m srcptr size ⇓ (b, m', s', k') /\ shm_ok s' /\ registered m m' b.
Proof.
  intros Hs Hm Hl H1 H3. pose proof (page_floor srcptr Hsrc) as (Hpm & Hpb & Hp0). unfold manager_ok in Hm. rewrite Hl in Hm.
  destruct (overlapping_begin 0 l1 [] l3 srcptr size Hm ltac:(lia) Hsrc Hsize Htop H1 ltac:(constructor) H3) as [Hbeg _].
  pose proof (around_intro l1 [] l3 Hm H1 H3) as Har. unfold registerMemoryBlock, getMergedOverlappingMemoryBlocks.
  cbn [app] in Hbeg. rewrite Hl, Hbeg. cbn [mbind res_bind].
  destruct (newBlock_correct k s srcptr size Hs Hsrc Hsize Htop) as (b & s' & k' & Hnew & Hs' & Hot & Hom & Hst & Hok).
  rewrite Hnew. cbn [mbind res_bind].
  rewrite (map_insert_app l1 l3 (pageBegin srcptr) b); [|apply Har|].
  2: { eapply Forall_impl; [exact (ar_keys3 _ _ Har)|]. cbn beta. lia. }
  eexists _, _, _, _. split; [reflexivity|]. split; [done|]. unfold registered, manager_ok. cbn [memoryBlocks usmMemoryPairs].
  split; [rewrite Hst; apply elem_of_app; right; constructor|]. split; [done|]. split.
  { rewrite Hl. intros x. rewrite !all_skels_app, all_skels_cons, !elem_of_app. tauto. }
  intros Hv. assert (Hvb : Forall sk_valid (skels b)).
  { eapply valid_incl; [|exact Hv]. apply (skels_in_all _ b (pageBegin srcptr)). apply elem_of_app. right. constructor. }
  destruct (Hok Hvb) as (Hg & Hsz). unfold top in *.
  assert (Hsk : skels b = [skel (front b)]) by (rewrite skels_cons, Hot; done).
  assert (Hfm : fileSize (snd (skel (front b))) mod pageSize4KB = 0).
  { rewrite Hsk in Hg. apply Forall_cons in Hg as [(_ & _ & Hx) _]. exact Hx. }
  assert (Hb : block_ok b).
  { constructor; rewrite ?Hst, ?Hsk; [done|done|split; [exact Hst|done]|by rewrite <- Hsk|].
    cbn [chain_end]. unfold top. assert (2 ^ 61 mod 4096 = 0) by done. change pageSize4KB with 4096 in *. Z.div_mod_to_equations. lia. }
  assert (Hen : getBlockEndAddress b = pageBegin srcptr + fileSize (snd (skel (front b)))).
  { rewrite (block_end _ Hb), Hsk, Hst. done. }
  split; [|lia]. rewrite <- Hst. apply around_middle; [done|done|rewrite Hst; apply Har|left; lia].
Qed.

Lemma register_merged (k : K) s m l1 e l2 l3 :
  shm_ok s -> manager_ok m -> memoryBlocks m = l1 ++ (e :: l2) ++ l3 ->
  Forall (before_src srcptr) l1 -> Forall (touches srcptr (srcptr + size)) (e :: l2) -> Forall (after_src (srcptr + size)) l3 ->
  exists b m' s' k', registerMemoryBlock k s m srcptr size ⇓ (b, m', s', k') /\ shm_ok s' /\ registered m m' b.
Proof.
  intros Hs Hm Hl H1 H2 H3. pose proof (page_floor srcptr Hsrc) as (Hpm & Hpb & Hp0). unfold manager_ok in Hm. rewrite Hl in Hm.
  pose proof (around_intro l1 (e :: l2) l3 Hm H1 H3) as Har.
  destruct (merged_correct k s l1 e l2 l3 Hs Hm H1 H2 H3) as (mb & s1 & k1 & Hmg & Hs1 & Hst & Hen & Hin & Hok).
  unfold registerMemoryBlock. rewrite Hl, Hmg. cbn [mbind res_bind].
  assert (Hi : (l1 ++ (fst e, mb) :: l3) !! length l1 = Some (fst e, mb)) by by apply list_lookup_middle. rewrite Hi.
  apply blocks_ok_app in Hm as [_ Hm]. destruct e as [key eb]. cbn [app blocks_ok fst snd] in *. destruct Hm as (-> & Hlo & Hb & Hm).
  apply blocks_ok_app in Hm as [Hm2 Hm3]. pose proof (block_bounds _ Hb) as (Hbb & Hbt & Hbm).
  assert (Hbe2 : getBlockEndAddress eb <= blocks_end (getBlockEndAddress eb) l2).
  { destruct (blocks_ok_range _ _ Hm2) as [_ Hne]. destruct l2; [cbn; lia|]. specialize (Hne ltac:(done)). lia. }
  destruct (extend_correct k1 s1 mb srcptr size Hs1 Hsrc Hsize Htop ltac:(lia) ltac:(lia))
    as (b & s2 & k2 & Hex & Hs2 & Hst2 & [Hgi Hg] & Hend). rewrite Hex. cbn [mbind res_bind]. rewrite Hst in *.
  assert (Hupd : (if negb (getBlockStartAddress eb =? getBlockStartAddress b)
      then updateBeginningAddressInContainer (l1 ++ (getBlockStartAddress eb, mb) :: l3) (length l1) b (getBlockStartAddress b)
      else Ret (<[length l1:=(getBlockStartAddress eb, b)]> (l1 ++ (getBlockStartAddress eb, mb) :: l3)))
      ⇓ (l1 ++ (getBlockStartAddress b, b) :: l3)).
  { destruct (Z.eqb_spec (getBlockStartAddress eb) (getBlockStartAddress b)) as [Heq|Hne]; cbn [negb].
    - by rewrite insert_middle, Heq.
    - unfold updateBeginningAddressInContainer. rewrite take_app_length, (cons_middle _ l1), (assoc_L app).
      rewrite drop_app_length' by (rewrite length_app; cbn; lia). rewrite map_insert_app; [done| |].
      + eapply Forall_impl; [exact (ar_keys1 _ _ Har)|]. cbn beta. intros x Hx. rewrite Hst2. lia.
      + eapply Forall_impl; [exact (ar_keys3 _ _ Har)|]. cbn beta. lia. }
  rewrite Hupd. cbn [mbind res_bind]. eexists _, _, _, _. split; [reflexivity|]. split; [done|].
  unfold registered, manager_ok. cbn [memoryBlocks usmMemoryPairs].
  split; [apply elem_of_app; right; constructor|]. split; [done|]. split.
  { rewrite Hl. intros x. cbn [app]. rewrite !all_skels_app, !all_skels_cons, !all_skels_app, !elem_of_app.
    assert (Hall : x ∈ all_skels ((getBlockStartAddress eb, eb) :: l2) -> x ∈ skels b) by (intros Hx; by apply Hgi, Hin).
    rewrite all_skels_cons, elem_of_app in Hall. cbn [snd] in *. tauto. }
  intros Hv. assert (Hvb : Forall sk_valid (skels b)).
  { eapply valid_incl; [|exact Hv]. apply (skels_in_all _ b (getBlockStartAddress b)). apply elem_of_app. right. constructor. }
  assert (Hmb : block_ok mb) by (apply Hok; by apply (valid_incl _ _ Hgi)).
  specialize (Hg Hvb Hmb). specialize (Hend Hvb Hmb). split; [|lia].
  apply around_middle; [done|done|rewrite Hst2; pose proof (ar_before _ _ Har); lia|].
  destruct Hend as [[-> _]|Hend]; [right; by rewrite Hen|left; lia].
Qed.

Lemma register_correct (k : K) s m :
  shm_ok s -> manager_ok m ->
  exists b m' s' k', registerMemoryBlock k s m srcptr size ⇓ (b, m', s', k') /\ shm_ok s' /\ registered m m' b.
Proof.
  intros Hs Hm. destruct (blocks_split 0 (memoryBlocks m) srcptr (srcptr + size) Hm ltac:(lia)) as (l1 & l2 & l3 & Hl & H1 & H2 & H3).
  destruct l2 as [|e l2]; [by apply (register_fresh k s m l1 l3)|by apply (register_merged k s m l1 e l2 l3)].
Qed.

End register.

(** ** Transfer descriptors *)

(** Descriptors one behind the other from the client address [lo] to [hi]. *)
Fixpoint covers (lo : Z) (ts : list TransferDesc) (hi : Z) : Prop :=
  match ts with
  | [] => lo = hi
  | t :: ts => clientAddress t = lo /\ 0 < bytesCountToCopy t /\ covers (lo + bytesCountToCopy t) ts hi
  end.

(** A descriptor names the file of one of the chunks, and the bytes at the same
    offset in it as in the client's pages. *)
Definition backed (l : list Skeleton) (t : TransferDesc) : Prop :=
  exists x, x ∈ l /\ shmemId t = shmem_id (fd_base (snd x)) /\ underlyingSize t = fileSize (snd x) /\
    offsetFromResourceStart t = clientAddress t - fst x /\ 0 <= offsetFromResourceStart t /\
    offsetFromResourceStart t + bytesCountToCopy t <= fileSize (snd x).

Lemma backed_incl l1 l2 t : l1 ⊆ l2 -> backed l1 t -> backed l2 t.
Proof. intros Hi (x & Hx & H). exists x. split; [by apply Hi|done]. Qed.

(** The transfers for the chunks of a list that overlap, given what the slots held. *)
Definition transfers_ok (srcBegin srcEnd lo : Z) (l : list ChunkDescription) (ts : list TransferDesc) : Prop :=
  let hi := chain_end lo (skel <$> l) in
  Forall (backed (skel <$> l)) ts /\
  (if Z.max srcBegin lo <=? Z.min srcEnd hi then covers (Z.max srcBegin lo) ts (Z.min srcEnd hi) else ts = []).

Lemma transfer_of_chunk srcBegin srcEnd c old :
  0 <= firstPageAddress c -> sk_good (skel c) -> firstPageAddress c + chunkSize c <= top ->
  Z.max (firstPageAddress c) srcBegin < Z.min (firstPageAddress c + chunkSize c) srcEnd -> 0 <= srcBegin ->
  let t := transferOf srcBegin srcEnd c old in
  backed [skel c] t /\ clientAddress t = Z.max srcBegin (firstPageAddress c) /\
  bytesCountToCopy t = Z.min srcEnd (firstPageAddress c + chunkSize c) - Z.max srcBegin (firstPageAddress c).
Proof.
  intros H0 (_ & Hsz & _) Ht Hlt Hs t. unfold top in *. unfold t, transferOf, chunkEnd.
  change (fileSize (snd (skel c))) with (chunkSize c) in Hsz.
  cbn [clientAddress bytesCountToCopy]. rewrite !(u64_id (firstPageAddress c + chunkSize c)) by (word_unfold; lia).
  rewrite !u64_id by (word_unfold; lia). split; [|lia].
  exists (skel c). split; [constructor|]. cbn [shmemId underlyingSize offsetFromResourceStart clientAddress bytesCountToCopy].
  do 2 (split; [reflexivity|]). change (fst (skel c)) with (firstPageAddress c). change (fileSize (snd (skel c))) with (chunkSize c). lia.
Qed.

Lemma transfers_cons srcBegin srcEnd c l ts old :
  srcBegin < srcEnd -> 0 <= srcBegin -> 0 <= firstPageAddress c ->
  Forall sk_good (skel <$> c :: l) -> chain_end (firstPageAddress c) (skel <$> c :: l) <= top ->
  transfers_ok srcBegin srcEnd (firstPageAddress c + chunkSize c) l ts ->
  transfers_ok srcBegin srcEnd (firstPageAddress c) (c :: l)
    (if chunkOverlaps srcBegin srcEnd c then transferOf srcBegin srcEnd c old :: ts else ts).
Proof.
  intros Hlt Hs H0 [Hg Hgl]%Forall_cons Ht [Hb Hc]. unfold transfers_ok.
  cbn [fmap list_fmap chain_end] in *. change (fileSize (snd (skel c))) with (chunkSize c) in *. change (skel <$> l) with (list_fmap _ _ skel l) in *.
  set (mid := firstPageAddress c + chunkSize c) in *. set (hi := chain_end mid (list_fmap _ _ skel l)) in *.
  assert (Hsz : 0 < chunkSize c) by apply Hg. assert (Hhi : mid <= hi) by (apply chain_end_ge; exact Hgl).
  assert (Hin : Forall (backed (skel c :: list_fmap _ _ skel l)) ts).
  { eapply Forall_impl; [exact Hb|]. intros t. apply backed_incl. intros x Hx. by right. }
  unfold chunkOverlaps, overlaps, chunkEnd. fold mid. unfold top in Ht. rewrite (u64_id mid) by (word_unfold; lia).
  destruct (Z.leb_spec srcBegin (firstPageAddress c)); destruct (Z.ltb_spec (firstPageAddress c) srcEnd);
    destruct (Z.leb_spec (firstPageAddress c) srcBegin); destruct (Z.ltb_spec srcBegin mid); cbn [andb orb];
    try lia.
  all: try (split; [exact Hin|]; destruct (Z.leb_spec (Z.max srcBegin (firstPageAddress c)) (Z.min srcEnd hi));
            destruct (Z.leb_spec (Z.max srcBegin mid) (Z.min srcEnd hi)); try lia; try done; try (subst ts; cbn; lia);
            replace (Z.max srcBegin (firstPageAddress c)) with (Z.max srcBegin mid) by lia; done).
  all: destruct (transfer_of_chunk srcBegin srcEnd c old H0 Hg ltac:(unfold top; lia) ltac:(lia) Hs) as (Hbk & Hca & Hby).
  all: split; [constructor; [eapply backed_incl; [|exact Hbk]; intros x Hx; apply list_elem_of_singleton in Hx as ->; constructor|exact Hin]|].
  all: rewrite (proj2 (Z.leb_le _ _)) by lia; cbn [covers]; split; [exact Hca|]; split; [lia|]; rewrite Hby; fold mid.
  all: destruct (Z.leb_spec (Z.max srcBegin mid) (Z.min srcEnd hi)) as [Hle|Hgt];
    [|subst ts; cbn; lia]; match goal with |- covers ?x _ _ => replace x with (Z.max srcBegin mid) by lia end; exact Hc.
Qed.

Definition overlapCount (srcBegin srcEnd : Z) (l : list ChunkDescription) : nat :=
  length (List.filter (chunkOverlaps srcBegin srcEnd) l).

(** Enough slots: the descriptors are written one behind the other. *)
Lemma append_enough srcBegin srcEnd l lo a arr cnt :
  srcBegin < srcEnd -> 0 <= srcBegin -> 0 <= lo -> chain lo (skel <$> l) -> Forall sk_good (skel <$> l) ->
  chain_end lo (skel <$> l) <= top ->
  Z.of_nat a + Z.of_nat (overlapCount srcBegin srcEnd l) <= cnt -> cnt <= Z.of_nat (length arr) -> cnt < W32 ->
  exists ts, appendOverlapping srcBegin srcEnd l (Z.of_nat a) arr cnt
      ⇓ (true, Z.of_nat (a + overlapCount srcBegin srcEnd l), take a arr ++ ts ++ drop (a + length ts) arr) /\
    length ts = overlapCount srcBegin srcEnd l /\ transfers_ok srcBegin srcEnd lo l ts.
Proof.
  intros Hlt Hs. revert lo a arr. induction l as [|c l IH]; intros lo a arr Hlo Hc Hg Ht Hsp Hlen Hw.
  - exists []. cbn [appendOverlapping overlapCount List.filter length]. rewrite !Nat.add_0_r, app_nil_l, take_drop.
    split; [done|]. split; [done|]. split; [constructor|]. cbn. destruct (Z.leb_spec (Z.max srcBegin lo) (Z.min srcEnd lo)); [lia|done].
  - pose proof Hc as [Hfc Hc']. cbn [fst skel] in Hfc. subst lo.
    pose proof Hg as [Hgc Hgl]%Forall_cons. pose proof Hgc as (_ & Hsz & _).
    assert (Hstep : forall b arr', Z.of_nat b + Z.of_nat (overlapCount srcBegin srcEnd l) <= cnt -> length arr' = length arr ->
      exists ts, appendOverlapping srcBegin srcEnd l (Z.of_nat b) arr' cnt
        ⇓ (true, Z.of_nat (b + overlapCount srcBegin srcEnd l), take b arr' ++ ts ++ drop (b + length ts) arr') /\
      length ts = overlapCount srcBegin srcEnd l /\ transfers_ok srcBegin srcEnd (firstPageAddress c + chunkSize c) l ts).
    { intros b arr' Hb Hl'. apply IH; [change (chunkSize c) with (fileSize (snd (skel c))); lia|exact Hc'|exact Hgl|exact Ht|done|by rewrite Hl'|done]. }
    cbn [appendOverlapping]. unfold overlapCount in *. cbn [List.filter] in *.
    pose proof (transfers_cons srcBegin srcEnd c l) as Htr.
    destruct (chunkOverlaps srcBegin srcEnd c) eqn:Hov; cbn [length] in *.
    + rewrite (proj2 (Z.leb_gt cnt (Z.of_nat a))) by lia. rewrite Nat2Z.id.
      destruct (lookup_lt_is_Some_2 arr a ltac:(lia)) as (old & Hold). rewrite Hold.
      set (t := transferOf srcBegin srcEnd c old).
      rewrite u32_id by (word_unfold; lia). replace (Z.of_nat a + 1) with (Z.of_nat (S a)) by lia.
      destruct (Hstep (S a) (<[a := t]> arr) ltac:(lia) ltac:(by rewrite length_insert)) as (ts & Heq & Hn & Hts).
      exists (t :: ts). rewrite Heq. split.
      { f_equal. f_equal; [f_equal; lia|]. rewrite (take_S_r _ _ t) by (apply list_lookup_insert_eq; lia).
        rewrite take_insert_ge by lia. rewrite drop_insert_lt by lia. cbn [length]. rewrite <- (assoc_L app). cbn [app].
        by replace (S a + length ts)%nat with (a + S (length ts))%nat by lia. }
      split; [cbn; by rewrite Hn|]. specialize (Htr ts old Hlt Hs Hlo Hg Ht Hts). exact Htr.
    + destruct (Hstep a arr ltac:(lia) eq_refl) as (ts & Heq & Hn & Hts). exists ts. split; [exact Heq|]. split; [exact Hn|].
      specialize (Htr ts emptyTransfer Hlt Hs Hlo Hg Ht Hts). exact Htr.
Qed.

(** The block of a range that is inside a block is found. *)
Lemma includes_found m key b srcptr size :
  manager_ok m -> (key, b) ∈ memoryBlocks m -> 0 < size ->
  getBlockStartAddress b <= srcptr -> srcptr + size <= getBlockEndAddress b ->
  getMemoryBlockWhichIncludesChunk m srcptr size = Some b.
Proof.
  intros Hm Hin Hsz Hst Hen. unfold manager_ok in Hm. apply list_elem_of_split in Hin as (l1 & l3 & Hl).
  rewrite Hl in Hm. pose proof Hm as Hm'. apply blocks_ok_app in Hm' as [Hm1 Hm']. cbn [blocks_ok] in Hm'.
  destruct Hm' as (Hkey & Hlo & Hb & Hm3). pose proof (block_bounds _ Hb) as (Hbb & Hbt & _).
  destruct (blocks_ok_range _ _ Hm1) as [Hr1 _]. destruct (blocks_ok_range _ _ Hm3) as [Hr3 _].
  change (l1 ++ (key, b) :: l3) with (l1 ++ [(key, b)] ++ l3) in Hm.
  destruct (overlapping_begin 0 l1 [(key, b)] l3 srcptr size Hm ltac:(lia) ltac:(lia) Hsz ltac:(lia)) as [Hbeg Hend].
  { eapply Forall_impl; [exact Hr1|]. unfold before_src. cbn beta. lia. }
  { constructor; [|constructor]. unfold touches. cbn. lia. }
  { eapply Forall_impl; [exact Hr3|]. unfold after_src. cbn beta. lia. }
  unfold getMemoryBlockWhichIncludesChunk. rewrite Hl. change (l1 ++ (key, b) :: l3) with (l1 ++ [(key, b)] ++ l3).
  rewrite Hbeg, Hend. rewrite length_app. cbn [length]. rewrite (proj2 (Z.eqb_eq _ _)) by lia. cbn [negb].
  change (l1 ++ [(key, b)] ++ l3) with (l1 ++ (key, b) :: l3). rewrite list_lookup_middle by done. unfold requiresExtension. unfold top in *. rewrite u64_id by (word_unfold; lia).
  assert (Hpb : getBlockStartAddress b <= pageBegin srcptr) by (apply page_le; [lia|apply Hb|done]).
  rewrite (proj2 (Z.ltb_ge _ _)) by lia. by rewrite (proj2 (Z.ltb_ge _ _)) by lia.
Qed.

Lemma range_transfers m key b srcptr size descs :
  manager_ok m -> (key, b) ∈ memoryBlocks m -> 0 < size ->
  getBlockStartAddress b <= srcptr -> srcptr + size <= getBlockEndAddress b ->
  Z.of_nat (length descs) + Z.of_nat (length (skels b)) < W32 ->
  exists ts, getRequiredTransferDescsOfRange m (mkRange srcptr (srcptr + size)) descs ⇓ (true, descs ++ ts, m) /\
    covers srcptr ts (srcptr + size) /\ Forall (backed (skels b)) ts.
Proof.
  intros Hm Hin Hsz Hst Hen Hcnt. unfold getRequiredTransferDescsOfRange.
  assert (Hb : block_ok b).
  { unfold manager_ok in Hm. destruct (blocks_ok_range _ _ Hm) as [Hr _]. rewrite Forall_forall in Hr. by apply (Hr _ Hin). }
  pose proof (block_bounds _ Hb) as (Hbb & Hbt & _). unfold top in *.
  assert (Hrs : rsize (mkRange srcptr (srcptr + size)) = size).
  { unfold rsize. cbn. replace (srcptr + size - srcptr) with size by lia. apply u64_id. word_unfold. lia. }
  rewrite Hrs. cbn [start]. rewrite (includes_found m key b srcptr size) by (unfold top; done).
  unfold getCountOfOverlappingChunks, appendOverlappingChunks. rewrite (u64_id (srcptr + size)) by (word_unfold; lia).
  fold (overlapCount srcptr (srcptr + size) (chunks b)).
  assert (Hle : (overlapCount srcptr (srcptr + size) (chunks b) <= length (skels b))%nat).
  { unfold overlapCount, skels. rewrite length_fmap. apply List.filter_length_le. }
  set (n := overlapCount srcptr (srcptr + size) (chunks b)) in *.
  rewrite (u32_id (Z.of_nat n)), (u32_id (Z.of_nat (length descs))) by (word_unfold; lia).
  rewrite <- Nat2Z.inj_add, (u32_id (Z.of_nat (length descs + n))), Nat2Z.id by (word_unfold; lia).
  rewrite resize_ge by lia. replace (length descs + n - length descs)%nat with n by lia.
  destruct Hb as [H0 Hpg Hc Hg Htp].
  destruct (append_enough srcptr (srcptr + size) (chunks b) (getBlockStartAddress b) (length descs) (descs ++ replicate n emptyTransfer)
              (u32 (Z.of_nat (length (descs ++ replicate n emptyTransfer))))) as (ts & Heq & Hn & Hbk & Hcv);
    [lia|lia|done|exact Hc|exact Hg|exact Htp|..].
  1-3: rewrite length_app, length_replicate; try rewrite u32_id; fold n; word_unfold; lia.
  rewrite Heq. cbn [mbind res_bind]. exists ts. fold n in Hn. split; [|split; [|exact Hbk]].
  - rewrite take_app_length, Hn, drop_ge by (rewrite length_app, length_replicate; lia). by rewrite app_nil_r.
  - fold (skels b) in Hcv. rewrite <- (block_end b) in Hcv by (by constructor).
    rewrite (proj2 (Z.leb_le _ _)) in Hcv by lia.
    replace (Z.max srcptr (getBlockStartAddress b)) with srcptr in Hcv by lia.
    by replace (Z.min (srcptr + size) (getBlockEndAddress b)) with (srcptr + size) in Hcv by lia.
Qed.

(** ** One mapping for the whole block *)

Section mapping.
Context {K : Type} `{KL : KernelLaws K}.

(** A chunk is not mapped, or is mapped at its place in the mapping at [from]. *)
Definition mapped_at (from begin : Z) (c : ChunkDescription) : Prop :=
  mmappedPtr (shmem c) = 0 \/ mmappedPtr (shmem c) = u64 (from + (firstPageAddress c - begin)).

Lemma forget_unmapped c : mmappedPtr (shmem (forget c)) = 0.
Proof. unfold forget. destruct (Z.eqb_spec (mmappedPtr (shmem c)) 0); done. Qed.

Lemma remapChunk_mapped from begin (k : K) c :
  mmappedPtr (shmem c) = 0 -> mapped_at from begin (fst (remapChunk from begin k c)).
Proof.
  intros Hc. unfold remapChunk. destruct (sys_mmap k Fixed _ _ _ _) as [[ptr|] k'] eqn:Hm; [right|by left].
  apply (mmap_fixed k) in Hm as ->. done.
Qed.

Lemma remapAll_mapped from begin (k : K) l :
  Forall (fun c => mmappedPtr (shmem c) = 0) l -> Forall (mapped_at from begin) (fst (remapAll from begin k l)).
Proof.
  intros Hl. revert k. induction Hl as [|c l Hc Hl IH]; intros k; [constructor|]. cbn [remapAll].
  pose proof (remapChunk_mapped from begin k c Hc) as Hm. destruct (remapChunk from begin k c) as [c' k'].
  specialize (IH k'). destruct (remapAll from begin k' l) as [l' k2]. by constructor.
Qed.

Lemma chain_in lo l x : chain lo l -> Forall sk_good l -> x ∈ l -> lo <= fst x /\ fst x + fileSize (snd x) <= chain_end lo l.
Proof.
  revert lo. induction l as [|y l IH]; intros lo Hc Hg Hx; [by apply elem_of_nil in Hx|].
  destruct Hc as [Hy Hc]. apply Forall_cons in Hg as [(_ & Hsz & _) Hg]. apply elem_of_cons in Hx as [->|Hx]; cbn [chain_end].
  - pose proof (chain_end_ge (lo + fileSize (snd y)) l Hg). lia.
  - destruct (IH _ Hc Hg Hx). lia.
Qed.

Lemma mapped_all (k : K) b :
  let b' := fst (remapChunksAsContiguousMemory k b) in
  oldMappings b' = oldMappings (preserveExistingMappings b) /\
  (Forall (fun c => mmappedPtr (shmem c) = 0) (chunks b') \/
   exists from, 0 < from /\ from + getTotalContiguousSize b < half /\ Forall (mapped_at from (getBlockStartAddress b)) (chunks b')).
Proof.
  cbn zeta. unfold remapChunksAsContiguousMemory. set (p := preserveExistingMappings b).
  assert (Hp : Forall (fun c => mmappedPtr (shmem c) = 0) (chunks p)).
  { unfold p, chunks, preserveExistingMappings. cbn [front others]. constructor; [apply forget_unmapped|].
    apply List.Forall_map, Forall_true. intros c. apply forget_unmapped. }
  assert (Hst : getBlockStartAddress p = getBlockStartAddress b) by (apply start_skels, preserve_skels).
  assert (Hen : getBlockEndAddress p = getBlockEndAddress b) by (apply end_skels, preserve_skels).
  replace (getTotalContiguousSize p) with (getTotalContiguousSize b) by (unfold getTotalContiguousSize; by rewrite Hst, Hen).
  rewrite Hst. destruct (sys_mmap k Anywhere _ _ _ _) as [[from|] k1] eqn:Hm; [|split; [done|by left]].
  apply (mmap_page k) in Hm as (_ & Hpos & Hhalf). inversion Hp as [|? ? Hf Ho]; subst.
  pose proof (remapChunk_mapped from (getBlockStartAddress b) k1 (front p) Hf) as Hfm.
  destruct (remapChunk from _ k1 (front p)) as [f k2].
  pose proof (remapAll_mapped from (getBlockStartAddress b) k2 (others p) Ho) as Hom.
  destruct (remapAll from _ k2 (others p)) as [l k3]. split; [done|]. right. exists from. split; [done|]. split; [done|].
  by constructor.
Qed.

(** Remapping a block as contiguous memory keeps its files and pages, keeps every
    earlier mapping alive in the list of old mappings, and every chunk that the kernel
    mapped is where the translation of an address through the first chunk expects it:
    once the first chunk is mapped, translating an address of any mapped chunk gives
    that chunk's own memory at the same offset. *)
Theorem MemoryBlock_translate_contiguous (k : K) b c srcptr :
  let b' := fst (remapChunksAsContiguousMemory k b) in
  block_ok b -> c ∈ chunks b' ->
  mmappedPtr (shmem (front b')) <> 0 -> mmappedPtr (shmem c) <> 0 ->
  firstPageAddress c <= srcptr < firstPageAddress c + chunkSize c ->
  translate b' srcptr = mmappedPtr (shmem c) + (srcptr - firstPageAddress c) /\
  skels b' = skels b /\ (forall old, old ∈ oldMappings b -> old ∈ oldMappings b') /\
  (forall o, o ∈ chunks b -> mmappedPtr (shmem o) <> 0 -> (mmappedPtr (shmem o), chunkSize o) ∈ oldMappings b').
Proof.
  cbn zeta. intros Hb Hc Hf0 Hc0 Hin.
  pose proof (remap_skels k b) as Hsk. destruct (mapped_all k b) as [Hold Hmap].
  set (b' := fst (remapChunksAsContiguousMemory k b)) in *.
  split; [|split; [exact Hsk|]].
  - destruct Hmap as [Hno|(from & Hpos & Hhalf & Hmap)].
    { rewrite Forall_forall in Hno. by specialize (Hno c Hc). }
    pose proof (block_bounds _ Hb) as (Hlt & Htop & _). pose proof (bo_start _ Hb) as H0.
    pose proof (start_skels _ _ Hsk) as Hst. pose proof (end_skels _ _ Hsk) as Hen.
    assert (Hcin : skel c ∈ skels b) by (rewrite <- Hsk; by apply list_elem_of_fmap_2).
    destruct (chain_in _ _ _ (bo_chain _ Hb) (bo_good _ Hb) Hcin) as [Hlo Hhi]. rewrite <- (block_end _ Hb) in Hhi.
    change (fst (skel c)) with (firstPageAddress c) in *. change (fileSize (snd (skel c))) with (chunkSize c) in *.
    unfold getTotalContiguousSize, half, top in *. rewrite u64_id in Hhalf by (word_unfold; lia).
    inversion Hmap as [|? ? Hfm _]; subst. rewrite Forall_forall in Hmap.
    destruct (Hmap c Hc) as [?|Hcm]; [done|]. destruct Hfm as [?|Hfm]; [done|].
    unfold translate. rewrite Hst, Hen. rewrite (proj2 (Z.leb_le _ _)), (proj2 (Z.ltb_lt _ _)) by lia. cbn [andb].
    rewrite Hcm, Hfm. change (firstPageAddress (front b')) with (getBlockStartAddress b'). rewrite Hst.
    rewrite Z.sub_diag, Z.add_0_r. rewrite (u64_id from) by (word_unfold; lia).
    rewrite (u64_id (from + (firstPageAddress c - _))), u64_id by (word_unfold; lia). lia.
  - rewrite Hold. unfold preserveExistingMappings. cbn [oldMappings]. split; intros; apply elem_of_app; [by left|right].
    apply list_elem_of_omap. exists o. split; [done|]. by rewrite (proj2 (Z.eqb_neq _ _)).
Qed.

(** C11: Registering client memory brings the manager from one consistent state to another:
    the blocks stay ordered, disjoint and under the key of their first page, none of the
    shared files that back client pages is lost or replaced, and, unless the kernel refused
    a file, the returned block is in the manager and contains the whole range. *)
Theorem MemoryBlocksManager_register_correct (k : K) s m srcptr size :
  shm_ok s -> manager_ok m -> 0 <= srcptr -> 0 < size -> srcptr + size <= top ->
  exists b m' s' k', registerMemoryBlock k s m srcptr size ⇓ (b, m', s', k') /\ shm_ok s' /\
    (getBlockStartAddress b, b) ∈ memoryBlocks m' /\ usmMemoryPairs m' = usmMemoryPairs m /\
    all_skels (memoryBlocks m) ⊆ all_skels (memoryBlocks m') /\
    (Forall sk_valid (all_skels (memoryBlocks m')) ->
       manager_ok m' /\ getBlockStartAddress b <= srcptr /\ srcptr + size <= getBlockEndAddress b).
Proof. intros Hs Hm H0 Hsz Ht. exact (register_correct srcptr size H0 Hsz Ht k s m Hs Hm). Qed.

(** What the service asks for after a registration: the transfer descriptors of any part
    of the range that was registered are found, follow each other without gap or overlap from
    the first to the last byte, and each names a file of the block and the offset of its bytes
    in it. *)
Theorem registered_range_has_transfers (k : K) s m srcptr size b m' s' k' part psize descs :
  shm_ok s -> manager_ok m -> 0 <= srcptr -> 0 < size -> srcptr + size <= top ->
  registerMemoryBlock k s m srcptr size ⇓ (b, m', s', k') -> Forall sk_valid (all_skels (memoryBlocks m')) ->
  srcptr <= part -> 0 < psize -> part + psize <= srcptr + size ->
  Z.of_nat (length descs) + Z.of_nat (length (skels b)) < W32 ->
  exists ts, getRequiredTransferDescsOfRange m' (mkRange part (part + psize)) descs ⇓ (true, descs ++ ts, m') /\
    covers part ts (part + psize) /\ Forall (backed (skels b)) ts.
Proof.
  intros Hs Hm H0 Hsz Ht Hreg Hv Hp Hps Hpe Hn.
  destruct (register_correct srcptr size H0 Hsz Ht k s m Hs Hm) as (b2 & m2 & s2 & k2 & Hreg2 & _ & Hin & _ & _ & Hres).
  rewrite Hreg in Hreg2. injection Hreg2 as <- <- <- <-. destruct (Hres Hv) as (Hm' & Hst & Hen).
  apply (range_transfers _ (getBlockStartAddress b)); (done || lia).
Qed.

End mapping.

(** A staged USM range that no block contains is answered without looking at the
    number of descriptors the caller has room for: with room for none, the array is
    written out of its bounds, while a range of a block reports too little space. *)
Theorem getRequiredTransferDescs_usm_overflows m address size usmSize :
  getMemoryBlockWhichIncludesChunk m address size = None -> usmMemoryPairs m !! address = Some usmSize ->
  getRequiredTransferDescs m 0 [(address, size)] 0 [] = Undef /\
  getCountOfRequiredTransferDescs m [(address, size)] 0 = (true, 1).
Proof. intros Hno Hu. cbn. rewrite Hno, Hu. by vm_compute. Qed.

(** * Concrete runs *)

(** Two blocks with a gap of one byte's page between the ranges. *)
Definition exampleRun : res (MemoryBlock * MemoryBlocksManager * ShmemAllocator * Toy.kernel) :=
  '(_, m, s, k) ← registerMemoryBlock Toy.fresh exampleShmem (mkManager [] ∅) 0x5123 100;
  registerMemoryBlock k s m 0x7800 0x1000.

Definition exampleManager : MemoryBlocksManager := match exampleRun with Ret (_, m, _, _) => m | _ => mkManager [] ∅ end.
Definition exampleAllocator : ShmemAllocator := match exampleRun with Ret (_, _, s, _) => s | _ => exampleShmem end.
Definition exampleKernel : Toy.kernel := match exampleRun with Ret (_, _, _, k) => k | _ => Toy.fresh end.

Lemma example_two_blocks :
  map (fun e => (fst e, getBlockEndAddress (snd e))) (memoryBlocks exampleManager) = [(0x5000, 0x6000); (0x7000, 0x9000)].
Proof. by vm_compute. Qed.

Lemma Forall_valid_dec (l : list Skeleton) : forallb (fun x => isValid (snd x)) l = true -> Forall sk_valid l.
Proof. intros H. apply Forall_forall. intros x Hx. rewrite List.forallb_forall in H. apply H. by apply list_elem_of_In. Qed.

Lemma example_ok : shm_ok exampleAllocator /\ manager_ok exampleManager.
Proof.
  destruct (register_correct 0x5123 100 ltac:(lia) ltac:(lia) ltac:(unfold top; lia) Toy.fresh exampleShmem (mkManager [] ∅)
              exampleShmem_ok I) as (b1 & m1 & s1 & k1 & H1 & Hs1 & _ & _ & _ & Hm1).
  unfold exampleManager, exampleAllocator, exampleRun. rewrite H1. cbn [mbind res_bind].
  assert (Hv1 : Forall sk_valid (all_skels (memoryBlocks m1))).
  { apply Forall_valid_dec. vm_compute in H1. injection H1 as <- <- <- <-. by vm_compute. }
  destruct (Hm1 Hv1) as [Hok1 _].
  destruct (register_correct 0x7800 0x1000 ltac:(lia) ltac:(lia) ltac:(unfold top; lia) k1 s1 m1 Hs1 Hok1)
    as (b2 & m2 & s2 & k2 & H2 & Hs2 & _ & _ & _ & Hm2).
  rewrite H2. split; [done|]. apply Hm2. apply Forall_valid_dec.
  vm_compute in H1. injection H1 as <- <- <- <-. vm_compute in H2. injection H2 as <- <- <- <-. by vm_compute.
Qed.

(** A range that touches both blocks merges them, filling the page between them. *)
Lemma MemoryBlocksManager_register_correct_witness :
  exists b m' s' k', registerMemoryBlock exampleKernel exampleAllocator exampleManager 0x5f00 0x1c00 ⇓ (b, m', s', k') /\
    manager_ok m' /\ getBlockStartAddress b <= 0x5f00 /\ 0x5f00 + 0x1c00 <= getBlockEndAddress b /\
    length (chunks b) = 3%nat.
Proof.
  destruct (MemoryBlocksManager_register_correct exampleKernel exampleAllocator exampleManager 0x5f00 0x1c00
              (proj1 example_ok) (proj2 example_ok) ltac:(lia) ltac:(lia) ltac:(unfold top; lia))
    as (b & m' & s' & k' & Hr & _ & _ & _ & _ & Hm).
  exists b, m', s', k'. split; [exact Hr|]. vm_compute in Hr. injection Hr as <- <- <- <-.
  destruct Hm as (H1 & H2 & H3); [by apply Forall_valid_dec; vm_compute|]. by vm_compute in H2, H3 |- *.
Defined.

Lemma registered_range_has_transfers_witness :
  exists b m' s' k' ts, registerMemoryBlock exampleKernel exampleAllocator exampleManager 0x5f00 0x1c00 ⇓ (b, m', s', k') /\
    getRequiredTransferDescsOfRange m' (mkRange 0x5ff0 0x7010) [] ⇓ (true, [] ++ ts, m') /\ covers 0x5ff0 ts 0x7010 /\
    length ts = 3%nat.
Proof.
  destruct (registerMemoryBlock exampleKernel exampleAllocator exampleManager 0x5f00 0x1c00) as [[[[b m'] s'] k']| |] eqn:Hr;
    [|by vm_compute in Hr|by vm_compute in Hr].
  assert (Hv : forallb (fun x => isValid (snd x)) (all_skels (memoryBlocks m')) = true /\ length (skels b) = 3%nat).
  { vm_compute in Hr. injection Hr as <- <- <- <-. by vm_compute. }
  destruct Hv as [Hv Hn].
  destruct (registered_range_has_transfers exampleKernel exampleAllocator exampleManager 0x5f00 0x1c00 b m' s' k' 0x5ff0 0x1020 []
              (proj1 example_ok) (proj2 example_ok) ltac:(lia) ltac:(lia) ltac:(unfold top; lia) Hr (Forall_valid_dec _ Hv)
              ltac:(lia) ltac:(lia) ltac:(lia)) as (ts & Hts & Hc & _).
  { rewrite Hn. by vm_compute. }
  exists b, m', s', k', ts. split; [done|]. split; [exact Hts|]. split; [exact Hc|].
  vm_compute in Hr. injection Hr as <- <- <- <-. vm_compute in Hts. by injection Hts as <-.
Defined.

Definition exampleBlock : MemoryBlock :=
  match memoryBlocks exampleManager with (_, b) :: _ => b | [] => mkBlock (mkChunk 0 (mkMmapped (mkFdAllocation (mkShmem 0 false) 0 0 false) 0 0)) [] [] end.

Definition exampleExtended : MemoryBlock :=
  match appendChunk exampleKernel exampleAllocator exampleBlock 0x6000 0x7000 with Ret (b, _, _) => b | _ => exampleBlock end.

Lemma exampleExtended_ok : block_ok exampleExtended.
Proof.
  constructor; [by vm_compute|by vm_compute|by vm_compute| |by vm_compute].
  vm_compute. repeat (constructor; [done|]). constructor.
Qed.

(** A block of two pages in two files, once mapped as a whole: an address of the second page. *)
Lemma MemoryBlock_translate_contiguous_witness :
  let b' := fst (remapChunksAsContiguousMemory exampleKernel exampleExtended) in
  translate b' 0x6020 = mmappedPtr (shmem (back b')) + 0x20 /\ mmappedPtr (shmem (back b')) <> 0 /\
  length (oldMappings b') = 1%nat.
Proof.
  intros b'. split; [|by vm_compute].
  destruct (MemoryBlock_translate_contiguous exampleKernel exampleExtended (back b') 0x6020 exampleExtended_ok) as (H & _).
  - apply elem_of_cons. right. vm_compute. constructor.
  - by vm_compute.
  - by vm_compute.
  - by vm_compute.
  - etransitivity; [exact H|]. by vm_compute.
Defined.

Lemma getRequiredTransferDescs_usm_overflows_witness :
  getRequiredTransferDescs (registerUSMStaging exampleManager 0x40000 64) 0 [(0x40000, 64)] 0 [] = Undef /\
  fst (fst (fst (match getRequiredTransferDescs exampleManager 0 [(0x5000, 64)] 0 [] with Ret x => x | _ => (true, 0, [], exampleManager) end))) = false.
Proof.
  split; [|by vm_compute].
  apply (getRequiredTransferDescs_usm_overflows (registerUSMStaging exampleManager 0x40000 64) 0x40000 64 64); by vm_compute.
Defined.
