(* ===== verification/MemMap.v ===== *)
(** What the negotiation of the USM range and the reservations of address space
    rely on in [mmap] and [munmap]: a mapping that is not forced takes addresses
    that nothing occupies, and unmapping frees exactly the given pages.  [Pages] is a small
    kernel with these laws. *)

From stdpp Require Import strings.
From S2P Require Import Prelude.
From S2P Require Import Align.
From S2P Require Import RangeAlloc.
From S2P Require Import Kernel.
Local Open Scope Z_scope.

(** The pages of a request: whole pages from a page boundary. *)
Definition paged (addr size : Z) : Prop :=
  addr mod pageSize4KB = 0 /\ size mod pageSize4KB = 0 /\ 0 < size.

(** [busy k a]: some mapping of the process contains the address [a]. *)
Class MapLaws (K : Type) `{KernelLaws K} := {
  busy : K -> Z -> Prop;
  map_free (k : K) pl addr size fd off p k' a :
    sys_mmap k pl addr size fd off = (Some p, k') -> pl <> Fixed -> p <= a < p + size -> ~ busy k a;
  map_covers (k : K) pl addr size fd off p k' a :
    sys_mmap k pl addr size fd off = (Some p, k') -> busy k a \/ p <= a < p + size -> busy k' a;
  map_only (k : K) pl addr size fd off p k' a :
    sys_mmap k pl addr size fd off = (Some p, k') -> size mod pageSize4KB = 0 ->
    busy k' a -> busy k a \/ p <= a < p + size;
  map_fail (k : K) pl addr size fd off k' a :
    sys_mmap k pl addr size fd off = (None, k') -> busy k' a <-> busy k a;
  unmap (k : K) addr size ok k' a :
    sys_munmap k addr size = (ok, k') -> paged addr size ->
    busy k' a <-> busy k a /\ ~ (addr <= a < addr + size)
}.

(** * A kernel that keeps its mappings

    Mappings without an address go behind the last one. *)
Module Pages.

Record kernel := mkPages { base : Z; used : list (Z * Z) }.

Definition inside (a : Z) (m : Z * Z) : bool := (fst m <=? a) && (a <? snd m).
Definition meets (p e : Z) (m : Z * Z) : bool := (fst m <? e) && (p <? snd m) && (fst m <? snd m).

Definition last_end (k : kernel) : Z := fold_right (fun m acc => Z.max (snd m) acc) (base k) (used k).

Definition placed (k : kernel) (pl : Placement) (addr : Z) : Z :=
  match pl with Anywhere => alignUp (last_end k) pageSize4KB | _ => addr end.

Definition mmap_ok (k : kernel) (pl : Placement) (addr size : Z) : bool :=
  let p := placed k pl addr in
  (0 <? size) && (p mod pageSize4KB =? 0) && (0 <? p) && (p + size <? half) &&
  match pl with Fixed => true | _ => negb (existsb (meets p (p + size)) (used k)) end.

Definition mmap (k : kernel) (pl : Placement) (addr size fd off : Z) : option Z * kernel :=
  if mmap_ok k pl addr size
  then (Some (placed k pl addr), mkPages (base k) ((placed k pl addr, placed k pl addr + size) :: used k))
  else (None, k).

(** What unmapping [p, e) leaves of a mapping. *)
Definition remains (p e : Z) (m : Z * Z) : list (Z * Z) := [(fst m, Z.min (snd m) p); (Z.max (fst m) e, snd m)].

Definition munmap (k : kernel) (addr size : Z) : bool * kernel :=
  (true, mkPages (base k) (concat (map (remains addr (addr + size)) (used k)))).

Definition is_busy (k : kernel) (a : Z) : bool := existsb (inside a) (used k).

Lemma inside_spec a m : inside a m = true <-> fst m <= a < snd m.
Proof. unfold inside. rewrite andb_true_iff, Z.leb_le, Z.ltb_lt. done. Qed.

Lemma meets_spec p e a m : meets p e m = false -> p <= a < e -> inside a m = false.
Proof.
  intros Hm Ha. apply not_true_iff_false. rewrite inside_spec. intros Hi. apply not_true_iff_false in Hm. apply Hm.
  unfold meets. rewrite !andb_true_iff, !Z.ltb_lt. lia.
Qed.

Lemma remains_spec p e a m : p < e -> existsb (inside a) (remains p e m) = true <-> inside a m = true /\ ~ (p <= a < e).
Proof. intros He. cbn. rewrite !orb_true_iff, !inside_spec. cbn. split; [intros [?|[?|?]]|intros [? ?]]; (done || lia). Qed.

Lemma munmap_spec k addr size a : 0 < size ->
  is_busy (snd (munmap k addr size)) a = true <-> is_busy k a = true /\ ~ (addr <= a < addr + size).
Proof.
  intros Hs. unfold munmap, is_busy. cbn [snd used]. induction (used k) as [|m l IH]; [cbn; intuition done|].
  cbn [map concat existsb]. rewrite existsb_app, !orb_true_iff, IH, remains_spec by lia. tauto.
Qed.

End Pages.

#[export] Instance pages_kernel : Kernel Pages.kernel := {|
  sys_mmap := Pages.mmap;
  sys_munmap := Pages.munmap;
  sys_shm_open := fun k _ _ => (Some 3, k);
  sys_shm_unlink := fun k _ => (Unlinked, k);
  sys_ftruncate := fun k _ _ => (true, k);
  sys_close := fun k _ => (true, k) |}.

#[export] Instance pages_laws : KernelLaws Pages.kernel.
Proof.
  split; cbn [sys_mmap sys_shm_open pages_kernel]; unfold Pages.mmap.
  - intros k pl addr size fd off p k'. split_if; [|done]. intros [= <- _]. unfold Pages.mmap_ok in *. bool_prop. done.
  - intros k addr size fd off p k'. split_if; [|done]. by intros [= <- _].
  - intros k addr size fd off p k'. split_if; [|done]. by intros [= <- _].
  - intros k pl addr fd off. done.
  - by intros k path create fd k' [= <- _].
Qed.

#[export] Instance pages_map : MapLaws Pages.kernel.
Proof.
  refine {| busy k a := Pages.is_busy k a = true |}; cbn [sys_mmap sys_munmap pages_kernel]; unfold Pages.mmap.
  - intros k pl addr size fd off p k' a. split_if; [|done]. intros [= <- _] Hpl Ha. unfold Pages.mmap_ok in *. bool_prop.
    rewrite not_true_iff_false. assert (Hno : existsb (Pages.meets (Pages.placed k pl addr) (Pages.placed k pl addr + size)) (Pages.used k) = false)
      by (destruct pl; bool_prop; done).
    unfold Pages.is_busy. revert Hno Ha. generalize (Pages.placed k pl addr) as p. intros p Hno Ha. clear - Hno Ha.
    induction (Pages.used k) as [|m l IH]; [done|]. cbn [existsb] in *.
    apply orb_false_iff in Hno as [Hm Hl]. apply orb_false_iff. split; [by eapply Pages.meets_spec|by apply IH].
  - intros k pl addr size fd off p k' a. split_if; [|done]. intros [= <- <-]. unfold Pages.is_busy. cbn [Pages.used existsb].
    rewrite orb_true_iff, Pages.inside_spec. cbn. tauto.
  - intros k pl addr size fd off p k' a. split_if; [|done]. intros [= <- <-] _. unfold Pages.is_busy. cbn [Pages.used existsb].
    rewrite orb_true_iff, Pages.inside_spec. cbn. tauto.
  - intros k pl addr size fd off k' a. split_if; [done|]. by intros [= <-].
  - intros k addr size ok k' a Hu (_ & _ & Hs). apply (f_equal snd) in Hu. cbn [snd] in Hu. subst k'.
    by apply Pages.munmap_spec.
Defined.
