(* ===== verification/Usm.v ===== *)
(** The negotiation of the address range for unified shared memory
    (shared/usm.cpp): client and service look for a range that both can reserve
    at the same addresses.  Each side is a program that sends and receives
    messages; the pair of them runs over two queues. *)

From stdpp Require Import relations.
From S2P Require Import Prelude.
From S2P Require Import Align.
From S2P Require Import Ranges.
From S2P Require Import RangeAlloc.
From S2P Require Import Messages.
From S2P Require Import Kernel.
From S2P Require Import MemMap.
Local Open Scope Z_scope.

(** * Programs with a connection

    [Send] continues with whether the message was sent, [Recv] with the message
    or with nothing when the connection is broken.  [Crash]: the process aborts
    or its behaviour is undefined; [NoFuel]: a loop was cut off. *)
Inductive prog (M A : Type) : Type :=
| Done (a : A)
| Crash
| NoFuel
| Send (m : M) (cont : bool -> prog M A)
| Recv (cont : option M -> prog M A).
Arguments Done {M A} a.
Arguments Crash {M A}.
Arguments NoFuel {M A}.
Arguments Send {M A} m cont.
Arguments Recv {M A} cont.

#[export] Instance prog_ret {M} : MRet (prog M) := fun A => @Done M A.
#[export] Instance prog_bind {M} : MBind (prog M) := fun A B f =>
  fix go (p : prog M A) : prog M B :=
    match p with
    | Done a => f a
    | Crash => Crash
    | NoFuel => NoFuel
    | Send m cont => Send m (fun ok => go (cont ok))
    | Recv cont => Recv (fun m => go (cont m))
    end.

Definition lift {M A} (m : res A) : prog M A := match m with Ret a => Done a | _ => Crash end.

(** * The code of both sides *)

Section usm.
Context {K : Type} `{Kernel K}.

Abbreviation proc := (prog NegotiateUsmAddressRange).

Definition reserveUsmCpuRange (k : K) (base size : Z) : option Z * K :=
  sys_mmap k (if base =? 0 then Anywhere else FixedNoReplace) base size (-1) 0.

Definition forceReserveUsmCpuRange (k : K) (base size : Z) : option Z * K :=
  sys_mmap k (if base =? 0 then Anywhere else Fixed) base size (-1) 0.

Definition proposal (subtype : Z) (r : AddressRange) : NegotiateUsmAddressRange :=
  mkNegotiate (requestHeader subtype) (start r) (rsize r).

Definition sendUsmRangeProposal (subtype : Z) (r : AddressRange) : proc bool :=
  Send (proposal subtype r) (fun ok => Done ok).

Definition receiveUsmRangeProposal (isInvalid : NegotiateUsmAddressRange -> bool) : proc (option AddressRange) :=
  Recv (fun received =>
    match received with
    | None => Done None
    | Some message =>
        if isInvalid message then Done None
        else if proposedUsmBase message =? 0 then Done None
        else if proposedUsmSize message =? 0 then Done None
        else r ← lift (rangeOfSize (proposedUsmBase message) (proposedUsmSize message)); Done (Some r)
    end).

Definition sendUsmRangeProposalToService := sendUsmRangeProposal ReqNegotiate_subtype.
Definition sendUsmRangeProposalToClient := sendUsmRangeProposal RespNegotiate_subtype.
Definition receiveUsmRangeProposalFromService := receiveUsmRangeProposal RespNegotiate_isInvalid.
Definition receiveUsmRangeProposalFromClient := receiveUsmRangeProposal ReqNegotiate_isInvalid.

(** Each missing range is reserved and noted in [existingReservations]. *)
Fixpoint reserveMissing (k : K) (existingReservations : PartitionedAddressRange) (missingSubRanges : list AddressRange)
  : bool * PartitionedAddressRange * K :=
  match missingSubRanges with
  | [] => (true, existingReservations, k)
  | diff :: missingSubRanges =>
      match reserveUsmCpuRange k (start diff) (rsize diff) with
      | (Some _, k) => reserveMissing k (insertSubRange existingReservations (leaf diff)) missingSubRanges
      | (None, k) => (false, existingReservations, k)
      end
  end.

(** [existingReservations] is passed by value: what the loop notes is dropped. *)
Definition tryMergeUsmRegions (k : K) (desiredRange : AddressRange) (existingReservations : PartitionedAddressRange)
  : res (bool * K) :=
  if negb (intersectsSubRanges existingReservations desiredRange) then Ret (false, k)
  else
    missingSubRanges ← getSubRangesDiffFrom existingReservations desiredRange;
    let '(ok, _, k) := reserveMissing k existingReservations missingSubRanges in
    Ret (ok, k).

Definition sendAckToService (r : AddressRange) : proc bool :=
  Send (proposal ReqNegotiate_subtype r) (fun ok =>
    if negb ok then Done false
    else Recv (fun received =>
      match received with
      | None => Done false
      | Some response => Done (negb (RespNegotiate_isInvalid response))
      end)).

Definition sendAckToClient (r : AddressRange) : proc bool :=
  Send (proposal RespNegotiate_subtype r) (fun ok => Done ok).

Definition unmapRange (k : K) (base size : Z) : K := snd (sys_munmap k base size).

(** One reservation, while a range is in use. *)
Definition cleanupReservation (usedRange : AddressRange) (k : K) (r : AddressRange) : K * bool :=
  if negb (intersects r usedRange) then (unmapRange k (start r) (rsize r), false)
  else if bool_decide (r = usedRange) then (k, false)
  else
    let k := if start r <? start usedRange then unmapRange k (start r) (u64 (start usedRange - start r)) else k in
    let k := if end_ usedRange <? end_ r then unmapRange k (end_ usedRange) (u64 (end_ r - end_ usedRange)) else k in
    (k, true).

Fixpoint cleanupReservations (usedRange : AddressRange) (k : K) (l : list AddressRange) (partitionedReservation : bool) : K * bool :=
  match l with
  | [] => (k, partitionedReservation)
  | r :: l =>
      let (k, partitioned) := cleanupReservation usedRange k r in
      cleanupReservations usedRange k l (partitionedReservation || partitioned)
  end.

Definition cleanupObsoleteAddressReservations (k : K) (usedRangeOpt : option AddressRange)
  (allReservations : PartitionedAddressRange) : K :=
  let reservations := map getBoundingRange (subRanges allReservations) in
  match usedRangeOpt with
  | None => fold_left (fun k r => unmapRange k (start r) (rsize r)) reservations k
  | Some usedRange =>
      let (k, partitionedReservation) := cleanupReservations usedRange k reservations false in
      if partitionedReservation then snd (forceReserveUsmCpuRange k (start usedRange) (rsize usedRange)) else k
  end.

(** ** The client *)

Record Negotiation := mkNegotiation {
  tryNum : Z; usmBase : Z; usmSize : Z; mmapReservations : PartitionedAddressRange; kernel : K }.

Abbreviation outcome := (option AddressRange * Negotiation)%type.

(** The rest of an iteration once the service's proposal is known not to be ours. *)
Definition considerProposal (again : Negotiation -> proc outcome) (st : Negotiation) (receivedProposal : AddressRange) : proc outcome :=
  let (ptr, k) := reserveUsmCpuRange (kernel st) (start receivedProposal) (rsize receivedProposal) in
  '(suitable, reservations, k) ←
    match ptr with
    | Some _ => Done (true, insertSubRange (mmapReservations st) (leaf receivedProposal), k)
    | None => '(merged, k) ← lift (tryMergeUsmRegions k receivedProposal (mmapReservations st)); Done (merged, mmapReservations st, k)
    end;
  if (suitable : bool) then
    ok ← sendAckToService receivedProposal;
    Done (if (ok : bool) then Some receivedProposal else None, mkNegotiation (tryNum st) (usmBase st) (usmSize st) reservations k)
  else
    let (base, k) := reserveUsmCpuRange k 0 (rsize receivedProposal) in
    match base with
    | None => Done (None, mkNegotiation (tryNum st) (usmBase st) (rsize receivedProposal) reservations k)
    | Some base =>
        own ← lift (rangeOfSize base (rsize receivedProposal));
        again (mkNegotiation (tryNum st) base (rsize receivedProposal) (insertSubRange reservations (leaf own)) k)
    end.

Definition tryWithService (again : Negotiation -> proc outcome) (st : Negotiation) : proc outcome :=
  let st := mkNegotiation (tryNum st + 1) (usmBase st) (usmSize st) (mmapReservations st) (kernel st) in
  own ← lift (rangeOfSize (usmBase st) (usmSize st));
  sent ← sendUsmRangeProposalToService own;
  if negb sent then Done (None, st)
  else
    receivedOpt ← receiveUsmRangeProposalFromService;
    match receivedOpt with
    | None => Done (None, st)
    | Some receivedProposal =>
        if usmBase st =? start receivedProposal then Done (Some receivedProposal, st)
        else considerProposal again st receivedProposal
    end.

(** [while (tryNum < maxTries)] *)
Fixpoint negotiate (try : (Negotiation -> proc outcome) -> Negotiation -> proc outcome)
  (maxTries : Z) (fuel : nat) (st : Negotiation) : proc outcome :=
  match fuel with
  | O => NoFuel
  | S fuel => if negb (tryNum st <? maxTries) then Done (None, st) else try (negotiate try maxTries fuel) st
  end.

Definition finish (r : outcome) : option AddressRange * K :=
  (fst r, cleanupObsoleteAddressReservations (kernel (snd r)) (fst r) (mmapReservations (snd r))).

Definition noReservations : PartitionedAddressRange := leaf createEmpty.

Definition negotiateUsmRangeWithService (k : K) (proposedUsmBase proposedUsmSize maxTries : Z) : proc (option AddressRange * K) :=
  r ← negotiate tryWithService maxTries (S (Z.to_nat maxTries)) (mkNegotiation 0 proposedUsmBase proposedUsmSize noReservations k);
  Done (finish r).

(** ** The service *)

Inductive Answer := Failed | Accepted (r : AddressRange) | Declined (r : AddressRange).

(** Wait for what the client says to the proposal of [ptr]. *)
Definition awaitAnswer (ptr : Z) : proc Answer :=
  receivedOpt ← receiveUsmRangeProposalFromClient;
  match receivedOpt with
  | None => Done Failed
  | Some receivedProposal =>
      if start receivedProposal =? ptr then
        ok ← sendAckToClient receivedProposal;
        Done (if (ok : bool) then Accepted receivedProposal else Failed)
      else Done (Declined receivedProposal)
  end.

Definition proposeToClient (r : AddressRange) (ptr : Z) : proc Answer :=
  sent ← sendUsmRangeProposalToClient r;
  if negb sent then Done Failed else awaitAnswer ptr.

(** Use the answer: [agreed] is the range in use when the client accepts. *)
Definition useAnswer (again : Negotiation -> proc outcome) (st : Negotiation) (agreed : AddressRange -> AddressRange) (a : Answer) : proc outcome :=
  match a with
  | Failed => Done (None, st)
  | Accepted r => Done (Some (agreed r), st)
  | Declined r => again (mkNegotiation (tryNum st) (start r) (rsize r) (mmapReservations st) (kernel st))
  end.

Definition tryWithClient (again : Negotiation -> proc outcome) (st : Negotiation) : proc outcome :=
  let st := mkNegotiation (tryNum st + 1) (usmBase st) (usmSize st) (mmapReservations st) (kernel st) in
  let reserved k r := mkNegotiation (tryNum st) (usmBase st) (usmSize st) (insertSubRange (mmapReservations st) (leaf r)) k in
  let failed k := mkNegotiation (tryNum st) (usmBase st) (usmSize st) (mmapReservations st) k in
  match reserveUsmCpuRange (kernel st) (usmBase st) (usmSize st) with
  | (Some ptr, k) =>
      r ← lift (rangeOfSize ptr (usmSize st));
      let st := reserved k r in
      if negb (usmBase st =? 0) then
        requested ← lift (rangeOfSize (usmBase st) (usmSize st));
        ok ← sendAckToClient requested;
        Done (if (ok : bool) then Some requested else None, st)
      else
        a ← proposeToClient r ptr;
        useAnswer again st (fun _ => r) a
  | (None, k) =>
      if negb (usmBase st =? 0) then
        match reserveUsmCpuRange k 0 (usmSize st) with
        | (None, k) => Done (None, failed k)
        | (Some ptr, k) =>
            r ← lift (rangeOfSize ptr (usmSize st));
            let st := reserved k r in
            a ← proposeToClient r ptr;
            useAnswer again st (fun received => received) a
        end
      else Done (None, failed k)
  end.

Definition negotiateUsmRangeWithClient (k : K) (requestedUsmBase requestedUsmSize maxTries : Z) : proc (option AddressRange * K) :=
  if requestedUsmSize =? 0 then Done (None, k)
  else
    r ← negotiate tryWithClient maxTries (S (Z.to_nat maxTries)) (mkNegotiation 0 requestedUsmBase requestedUsmSize noReservations k);
    Done (finish r).

Definition maxTriesWhenNegotiatingUsmRange : Z := 64.

(** The client's part of connecting: it leaves base and size to the service. *)
Definition negotiateInitialHeap (k : K) : proc (option AddressRange * K) :=
  negotiateUsmRangeWithService k 0 0 maxTriesWhenNegotiatingUsmRange.

(** The service's handler of the request, with the size it suggests in bytes. *)
Definition serviceNegotiateUsmAddressRange (defaultSharedVaSize : Z) (k : K) : proc (option AddressRange * K) :=
  Recv (fun received =>
    match received with
    | None => Done (None, k)
    | Some request =>
        if ReqNegotiate_isInvalid request then Done (None, k)
        else
          let size := if proposedUsmSize request =? 0 then defaultSharedVaSize else proposedUsmSize request in
          negotiateUsmRangeWithClient k (proposedUsmBase request) size maxTriesWhenNegotiatingUsmRange
    end).

End usm.

(** * Termination

    Whatever arrives over the connection, a program that [ends n] finishes
    normally after at most [n] sends and receives. *)

Definition message_ok (m : NegotiateUsmAddressRange) : Prop :=
  0 <= proposedUsmBase m < W64 /\ 0 <= proposedUsmSize m < W64.

Fixpoint ends {A} (n : nat) (p : prog NegotiateUsmAddressRange A) {struct p} : Prop :=
  match p with
  | Done _ => True
  | Crash | NoFuel => False
  | Send _ cont => match n with O => False | S n => forall ok, ends n (cont ok) end
  | Recv cont => match n with O => False | S n => ends n (cont None) /\ forall m, message_ok m -> ends n (cont (Some m)) end
  end.

Lemma ends_mono {A} (p : prog NegotiateUsmAddressRange A) n m : ends n p -> (n <= m)%nat -> ends m p.
Proof.
  revert n m. induction p as [a| | |msg cont IH|cont IH]; intros n m H Hle; try exact I; try (exfalso; exact H).
  - destruct n as [|n], m as [|m]; [done|done|lia|]. intros ok. apply (IH ok n); [apply H|lia].
  - destruct n as [|n], m as [|m]; [done|done|lia|]. destruct H as [H1 H2].
    split; [apply (IH None n); [done|lia]|]. intros msg Hm. apply (IH (Some msg) n); [by apply H2|lia].
Qed.

Lemma ends_bind {A B} (p : prog NegotiateUsmAddressRange A) (f : A -> prog NegotiateUsmAddressRange B) n m :
  ends n p -> (forall a, ends m (f a)) -> ends (n + m) (p ≫= f).
Proof.
  intros Hp Hf. revert n Hp. induction p as [a| | |msg cont IH|cont IH]; intros n; cbn; try done.
  - intros _. apply (ends_mono _ m); [apply Hf|lia].
  - destruct n as [|n]; [done|]. intros H ok. cbn. apply IH, H.
  - destruct n as [|n]; [done|]. intros [H1 H2]. split; [by apply IH|]. intros msg Hm. by apply IH, H2.
Qed.

(** The same when what follows depends on what was received being a proper range. *)
Definition range_ok (r : AddressRange) : Prop := rangeOfSize (start r) (rsize r) ⇓ r /\ 0 < start r < W64 /\ 0 < rsize r < W64.

Lemma usmRange_ok base size : 0 <= base < W64 -> 0 < size < W64 ->
  exists r, rangeOfSize base size ⇓ r /\ start r = base /\ rsize r = size.
Proof.
  intros Hb Hs. unfold rangeOfSize, makeRange, checkRange.
  assert (Hne : u64 (base + size) <> base) by solve_word. apply not_eq_sym, Z.eqb_neq in Hne. rewrite Hne. cbn [andb].
  eexists. split; [reflexivity|]. cbn. split; [done|]. unfold rsize. cbn. solve_word.
Qed.

Lemma range_ok_intro base size r : 0 < base < W64 -> 0 < size < W64 -> rangeOfSize base size ⇓ r ->
  range_ok r /\ start r = base /\ rsize r = size.
Proof.
  intros Hb Hs Hr. destruct (usmRange_ok base size) as (r' & Hr' & Hst & Hsz); [lia|done|].
  rewrite Hr in Hr'. injection Hr' as <-. unfold range_ok. by rewrite Hst, Hsz.
Qed.

(** The two bookkeeping functions of the ranges never abort. *)
Lemma diff_loop_ret e l acc : exists r, diff_loop e l acc ⇓ r.
Proof.
  revert e acc. induction l as [|x l IH]; intros e acc; cbn; [by eexists|].
  destruct (Z.eqb_spec (start (desc x)) e); [apply IH|]. unfold makeRange, checkRange.
  rewrite (proj2 (Z.eqb_neq _ _)) by lia. cbn. apply IH.
Qed.

Lemma getSubRangesDiffFrom_ret p r : exists l, getSubRangesDiffFrom p r ⇓ l.
Proof.
  unfold getSubRangesDiffFrom. destruct (getIntersectedSubRanges p r) as [|x rest]; [by eexists|].
  assert (exists acc, (if start r <? start (desc x) then r0 ← makeRange (start r) (start (desc x)); Ret [r0] else Ret []) ⇓ acc) as (acc & ->).
  { destruct (Z.ltb_spec (start r) (start (desc x))); [|by eexists]. unfold makeRange, checkRange.
    rewrite (proj2 (Z.eqb_neq _ _)) by lia. by eexists. }
  cbn [mbind res_bind]. destruct (diff_loop_ret (end_ (desc x)) rest acc) as (lr & ->). cbn [mbind res_bind].
  destruct (Z.ltb_spec lr.1 (end_ r)); [|by eexists]. unfold makeRange, checkRange. rewrite (proj2 (Z.eqb_neq _ _)) by lia. by eexists.
Qed.

Section termination.
Context {K : Type} `{KL : KernelLaws K}.

Lemma tryMerge_ret (k : K) r p : exists o, tryMergeUsmRegions k r p ⇓ o.
Proof.
  unfold tryMergeUsmRegions. destruct (intersectsSubRanges p r); cbn [negb]; [|by eexists].
  destruct (getSubRangesDiffFrom_ret p r) as (l & ->). cbn [mbind res_bind].
  destruct (reserveMissing k p l) as [[ok p'] k']. by eexists.
Qed.

Lemma reserve_ok (k : K) base size p k' : 0 <= size < W64 -> reserveUsmCpuRange k base size = (Some p, k') ->
  0 < size /\ 0 < p /\ p + size < half /\ p mod pageSize4KB = 0 /\ (base <> 0 -> p = base).
Proof.
  intros Hs. unfold reserveUsmCpuRange. intros Hm. pose proof (mmap_page _ _ _ _ _ _ _ _ Hm) as (Hp & H0 & Hh).
  destruct (Z.eq_dec size 0) as [->|].
  { pose proof (mmap_empty k (if base =? 0 then Anywhere else FixedNoReplace) base (-1) 0) as He. by rewrite Hm in He. }
  split_and!; try done; [lia|]. intros Hb. apply Z.eqb_neq in Hb. rewrite Hb in Hm. by apply mmap_fixed_noreplace in Hm.
Qed.

Lemma receive_ends {A} isInvalid n (f : option AddressRange -> prog NegotiateUsmAddressRange A) :
  ends n (f None) -> (forall r, range_ok r -> ends n (f (Some r))) -> ends (S n) (receiveUsmRangeProposal isInvalid ≫= f).
Proof.
  intros H1 H2. split; [exact H1|]. intros m (Hb & Hs). cbn.
  destruct (isInvalid m); [exact H1|]. destruct (Z.eqb_spec (proposedUsmBase m) 0); [exact H1|].
  destruct (Z.eqb_spec (proposedUsmSize m) 0); [exact H1|].
  destruct (usmRange_ok (proposedUsmBase m) (proposedUsmSize m)) as (r & Hr & Hst & Hsz); [lia..|].
  rewrite Hr. cbn. apply H2. unfold range_ok. rewrite Hst, Hsz. split; [done|]. lia.
Qed.

(** What the next iteration needs of the state. *)
Definition state_ok (st : Negotiation (K := K)) : Prop := 0 <= usmBase st < W64 /\ 0 <= usmSize st < W64 /\ (usmBase st <> 0 -> usmSize st <> 0).

Lemma consider_ends again (st : Negotiation (K := K)) r n :
  range_ok r -> (2 <= n)%nat -> (forall st', state_ok st' -> tryNum st' = tryNum st -> ends n (again st')) ->
  ends n (considerProposal again st r).
Proof.
  intros (Hr & Hst & Hsz) Hn Hagain. unfold considerProposal.
  destruct (reserveUsmCpuRange (kernel st) (start r) (rsize r)) as [ptr k1].
  assert (Hrest : forall (suitable : bool) reservations k,
    ends n (if suitable then
      ok ← sendAckToService r;
      Done (if (ok : bool) then Some r else None, mkNegotiation (tryNum st) (usmBase st) (usmSize st) reservations k)
    else
      let (base, k) := reserveUsmCpuRange k 0 (rsize r) in
      match base with
      | None => Done (None, mkNegotiation (tryNum st) (usmBase st) (rsize r) reservations k)
      | Some base =>
          own ← lift (rangeOfSize base (rsize r));
          again (mkNegotiation (tryNum st) base (rsize r) (insertSubRange reservations (leaf own)) k)
      end)).
  { intros suitable reservations k. destruct suitable.
    - apply (ends_mono _ 2); [|done]. intros [|]; cbn; [|done]. by split.
    - destruct (reserveUsmCpuRange k 0 (rsize r)) as [[base|] k2] eqn:Hres; [|done].
      apply reserve_ok in Hres as (_ & Hb & Hh & _); [|lia]. unfold half in Hh.
      destruct (usmRange_ok base (rsize r)) as (own & -> & _); [lia..|]. cbn. apply Hagain; [|done].
      unfold state_ok. cbn. lia. }
  destruct ptr as [ptr|]; [exact (Hrest true _ k1)|].
  destruct (tryMerge_ret k1 r (mmapReservations st)) as ([merged k2] & ->). exact (Hrest merged _ k2).
Qed.

(** Two messages for each try, and the acknowledgement. *)
Lemma client_ends maxTries fuel (st : Negotiation (K := K)) :
  state_ok st -> (Z.to_nat (maxTries - tryNum st) < fuel)%nat ->
  ends (2 * Z.to_nat (maxTries - tryNum st) + 2) (negotiate tryWithService maxTries fuel st).
Proof.
  revert st. induction fuel as [|fuel IH]; intros st (Hb & Hs & Hbs) Hf; [lia|]. cbn [negotiate].
  destruct (Z.ltb_spec (tryNum st) maxTries); cbn [negb]; [|done].
  set (st1 := mkNegotiation (tryNum st + 1) (usmBase st) (usmSize st) (mmapReservations st) (kernel st)).
  assert (Hown : exists own, rangeOfSize (usmBase st) (usmSize st) ⇓ own).
  { destruct (Z.eq_dec (usmSize st) 0) as [Hz|Hz].
    - assert (Hz' : usmBase st = 0) by (destruct (Z.eq_dec (usmBase st) 0); [done|by destruct Hbs]).
      rewrite Hz, Hz'. by eexists.
    - destruct (usmRange_ok (usmBase st) (usmSize st)) as (own & -> & _); [lia..|]. by eexists. }
  destruct Hown as (own & Hown). unfold tryWithService. cbn zeta. cbn [usmBase usmSize]. rewrite Hown. cbn [mbind prog_bind lift].
  replace (2 * Z.to_nat (maxTries - tryNum st) + 2)%nat with (S (S (2 * Z.to_nat (maxTries - (tryNum st + 1)) + 2))) by lia.
  intros [|]; cbn [negb]; [|done]. apply receive_ends; [done|]. intros r Hr.
  destruct (_ =? _); [done|]. apply consider_ends; [done|lia|]. intros st' Hst' Htry. cbn [tryNum] in Htry.
  rewrite <- Htry. apply IH; [done|lia].
Qed.

Lemma propose_ends {A} r ptr n (f : Answer -> prog NegotiateUsmAddressRange A) :
  (1 <= n)%nat -> (forall a, match a with Declined r => range_ok r | _ => True end -> ends n (f a)) ->
  (forall a, match a with Declined r => False | _ => True end -> ends 0 (f a)) ->
  ends (S (S n)) (proposeToClient r ptr ≫= f).
Proof.
  intros Hn Hf H0. intros [|]; cbn [negb]; [|apply (ends_mono _ 0); [by apply (H0 Failed)|lia]].
  change (ends (S n) (awaitAnswer ptr ≫= f)). split; [apply (ends_mono _ 0); [by apply (H0 Failed)|lia]|].
  assert (Hfail : ends n (f Failed)) by (apply (ends_mono _ 0); [by apply (H0 Failed)|lia]).
  intros m (Hb & Hs). cbn. destruct (ReqNegotiate_isInvalid m); [exact Hfail|].
  destruct (Z.eqb_spec (proposedUsmBase m) 0); [exact Hfail|]. destruct (Z.eqb_spec (proposedUsmSize m) 0); [exact Hfail|].
  destruct (usmRange_ok (proposedUsmBase m) (proposedUsmSize m)) as (q & Hq & Hst & Hsz); [lia..|]. rewrite Hq. cbn.
  destruct (_ =? _); cbn.
  - destruct n as [|n]; [lia|]. intros [|]; (apply (ends_mono _ 0); [by apply H0|lia]).
  - apply Hf. unfold range_ok. rewrite Hst, Hsz. split; [done|]. lia.
Qed.

Lemma use_ends again (st : Negotiation (K := K)) agreed a n :
  (forall st', state_ok st' -> tryNum st' = tryNum st -> usmSize st' <> 0 -> ends n (again st')) ->
  match a with Declined r => range_ok r | _ => True end -> ends n (useAnswer again st agreed a).
Proof. intros Hagain. destruct a as [|r|r]; [done|done|]. intros (_ & Hst & Hsz). apply Hagain; [|done|cbn; lia]. unfold state_ok. cbn. lia. Qed.

Lemma service_ends maxTries fuel (st : Negotiation (K := K)) :
  state_ok st -> (Z.to_nat (maxTries - tryNum st) < fuel)%nat ->
  ends (2 * Z.to_nat (maxTries - tryNum st) + 1) (negotiate tryWithClient maxTries fuel st).
Proof.
  revert st. induction fuel as [|fuel IH]; intros st (Hb & Hs & Hbs) Hf; [lia|]. cbn [negotiate].
  destruct (Z.ltb_spec (tryNum st) maxTries); cbn [negb]; [|done]. unfold tryWithClient. cbn zeta. cbn [usmBase usmSize kernel tryNum].
  assert (Hagain : forall st', state_ok st' -> tryNum st' = tryNum st + 1 ->
    ends (2 * Z.to_nat (maxTries - (tryNum st + 1)) + 1) (negotiate tryWithClient maxTries fuel st')).
  { intros st' Hst' Htry. rewrite <- Htry. apply IH; [done|lia]. }
  replace (2 * Z.to_nat (maxTries - tryNum st) + 1)%nat with (S (S (2 * Z.to_nat (maxTries - (tryNum st + 1)) + 1))) by lia.
  destruct (reserveUsmCpuRange (kernel st) (usmBase st) (usmSize st)) as [[ptr|] k1] eqn:Hres.
  - apply reserve_ok in Hres as (Hsz & Hp & Hh & _); [|lia]. unfold half in Hh.
    destruct (usmRange_ok ptr (usmSize st)) as (r & -> & _); [lia..|]. cbn [lift mbind prog_bind].
    destruct (Z.eqb_spec (usmBase st) 0) as [|Hne]; cbn [negb].
    + apply propose_ends; [lia| |by intros [| |]]. intros a Ha. apply use_ends; [|done]. intros st' Hst' Htry _. by apply Hagain.
    + destruct (usmRange_ok (usmBase st) (usmSize st)) as (q & -> & _); [lia..|]. cbn. done.
  - destruct (Z.eqb_spec (usmBase st) 0) as [|Hne]; cbn [negb]; [done|].
    destruct (reserveUsmCpuRange k1 0 (usmSize st)) as [[ptr|] k2] eqn:Hres2; [|done].
    apply reserve_ok in Hres2 as (Hsz & Hp & Hh & _); [|lia]. unfold half in Hh.
    destruct (usmRange_ok ptr (usmSize st)) as (r & -> & _); [lia..|]. cbn [lift mbind prog_bind].
    apply propose_ends; [lia| |by intros [| |]]. intros a Ha. apply use_ends; [|done]. intros st' Hst' Htry _. by apply Hagain.
Qed.

(** The whole negotiation of the service. *)
Lemma withClient_ends (k : K) base size maxTries :
  0 <= base < W64 -> 0 <= size < W64 -> ends (2 * Z.to_nat maxTries + 1) (negotiateUsmRangeWithClient k base size maxTries).
Proof.
  intros Hb Hs. unfold negotiateUsmRangeWithClient. destruct (Z.eqb_spec size 0) as [|Hne]; [exact I|].
  replace (2 * Z.to_nat maxTries + 1)%nat with (2 * Z.to_nat (maxTries - 0) + 1 + 0)%nat by lia.
  apply ends_bind; [|done]. apply (service_ends maxTries _ (mkNegotiation 0 base size noReservations k)); [|cbn; lia].
  split; [exact Hb|]. split; [exact Hs|]. by intros _.
Qed.

End termination.

(** * The two sides together

    A reliable connection: what is sent arrives in order, and a side that waits
    for more than will come notices that the other one is done. *)

Section duet.
Context {A B : Type}.
Abbreviation proc := (prog NegotiateUsmAddressRange).

Record conf := mkConf { client : proc A; server : proc B; toServer : list NegotiateUsmAddressRange; toClient : list NegotiateUsmAddressRange }.

Inductive cstep : conf -> conf -> Prop :=
| client_sends m cont s q1 q2 : cstep (mkConf (Send m cont) s q1 q2) (mkConf (cont true) s (q1 ++ [m]) q2)
| client_receives m cont s q1 q2 : cstep (mkConf (Recv cont) s q1 (m :: q2)) (mkConf (cont (Some m)) s q1 q2)
| client_eof cont b q1 : cstep (mkConf (Recv cont) (Done b) q1 []) (mkConf (cont None) (Done b) q1 [])
| server_sends m cont c q1 q2 : cstep (mkConf c (Send m cont) q1 q2) (mkConf c (cont true) q1 (q2 ++ [m]))
| server_receives m cont c q1 q2 : cstep (mkConf c (Recv cont) (m :: q1) q2) (mkConf c (cont (Some m)) q1 q2)
| server_eof cont a q2 : cstep (mkConf (Done a) (Recv cont) [] q2) (mkConf (Done a) (cont None) [] q2).

Definition stuck (c : conf) : Prop := forall c', ~ cstep c c'.

(** The steps of the two sides do not disturb each other. *)
Lemma cstep_diamond c c1 c2 : cstep c c1 -> cstep c c2 -> c1 = c2 \/ exists d, cstep c1 d /\ cstep c2 d.
Proof.
  intros H1 H2. destruct H1; inversion H2; subst; try (by left); right;
    cbn [app]; eexists; split; solve [constructor | rewrite ?app_comm_cons; constructor | cbn; constructor].
Qed.

Lemma one_step_forward n c d c1 : nsteps cstep n c d -> stuck d -> cstep c c1 -> exists n', n = S n' /\ nsteps cstep n' c1 d.
Proof.
  revert c c1. induction n as [|n IH]; intros c c1 Hn Hd H1; inversion Hn as [|? ? c2 ? H2 Hn2]; subst.
  - by destruct (Hd c1).
  - exists n. split; [done|]. destruct (cstep_diamond c c1 c2 H1 H2) as [->|(e & He1 & He2)]; [done|].
    destruct (IH _ _ Hn2 Hd He2) as (n' & -> & Hn'). by econstructor.
Qed.

(** One terminating run is all of them. *)
Lemma all_runs n c d m c1 : nsteps cstep n c d -> stuck d -> nsteps cstep m c c1 -> (m <= n)%nat /\ rtc cstep c1 d.
Proof.
  intros Hn Hd. revert n c Hn. induction m as [|m IH]; intros n c Hn Hm; inversion Hm as [|? ? c2 ? H2 Hm2]; subst.
  - split; [lia|]. apply rtc_nsteps. by exists n.
  - destruct (one_step_forward _ _ _ _ Hn Hd H2) as (n' & -> & Hn'). destruct (IH _ _ Hn' Hm2). split; [lia|done].
Qed.

Lemma done_stuck a b q1 q2 : stuck (mkConf (Done a) (Done b) q1 q2).
Proof. intros c' Hc. inversion Hc. Qed.

End duet.
Arguments conf : clear implicits.

(** Both results processed further. *)
Section results.
Context {A A' B B' : Type} (f : A -> A') (g : B -> B').

Definition finished (c : conf A B) : conf A' B' :=
  mkConf (client c ≫= fun a => Done (f a)) (server c ≫= fun b => Done (g b)) (toServer c) (toClient c).

Lemma finished_step c c' : cstep c c' -> cstep (finished c) (finished c').
Proof. destruct 1; constructor. Qed.

Lemma finished_run c c' : rtc cstep c c' -> rtc cstep (finished c) (finished c').
Proof. induction 1 as [|c c1 c' H _ IH]; [constructor|]. eapply rtc_l; [by apply finished_step|done]. Qed.

End results.

Ltac step_by rule := eapply rtc_l; [apply rule|cbn [app]].

(** * Agreement

    A range that a side reserved has whole pages in the user's half. *)

Definition placed_ok (base size : Z) : Prop := paged base size /\ 0 < base /\ base + size < half.

Definition rangeAt (base size : Z) : AddressRange := mkRange base (base + size).

Lemma rangeAt_spec base size : placed_ok base size ->
  rangeOfSize base size ⇓ rangeAt base size /\ rsize (rangeAt base size) = size.
Proof.
  intros ((_ & _ & Hs) & Hb & Hh). unfold half in Hh. unfold rangeOfSize, makeRange, checkRange, rangeAt, rsize. cbn.
  rewrite (u64_id (base + size)) by (word_unfold; lia). rewrite (proj2 (Z.eqb_neq _ _)) by lia. cbn.
  split; [done|]. rewrite u64_id; [lia|word_unfold; lia].
Qed.

Lemma proposal_valid sub base size : placed_ok base size ->
  ReqNegotiate_isInvalid (proposal sub (rangeAt base size)) = false /\ RespNegotiate_isInvalid (proposal sub (rangeAt base size)) = false.
Proof.
  intros Hp. destruct (rangeAt_spec _ _ Hp) as [_ Hsz]. destruct Hp as ((Hb & Hs & Hs0) & Hb0 & Hh).
  unfold ReqNegotiate_isInvalid, RespNegotiate_isInvalid, proposal. cbn [proposedUsmBase proposedUsmSize]. rewrite Hsz.
  cbn [start rangeAt]. change pageSize4KB with (2 ^ 12). rewrite !isAlignedPow2_isAligned by done. unfold isAligned.
  change (2 ^ 12) with pageSize4KB. by rewrite Hb, Hs.
Qed.

(** What the other side's proposal is taken for. *)
Lemma proposal_received sub isInvalid base size : placed_ok base size ->
  isInvalid = ReqNegotiate_isInvalid \/ isInvalid = RespNegotiate_isInvalid ->
  let m := proposal sub (rangeAt base size) in
  isInvalid m = false /\ (proposedUsmBase m =? 0) = false /\ (proposedUsmSize m =? 0) = false /\
  rangeOfSize (proposedUsmBase m) (proposedUsmSize m) ⇓ rangeAt base size.
Proof.
  intros Hp Hi m. destruct (proposal_valid sub _ _ Hp) as [Hv1 Hv2]. destruct (rangeAt_spec _ _ Hp) as [Hr Hsz].
  split; [by destruct Hi as [->| ->]|]. unfold m, proposal. cbn [proposedUsmBase proposedUsmSize]. rewrite Hsz. cbn [start rangeAt].
  destruct Hp as ((_ & _ & Hs) & Hb & _). by rewrite !(proj2 (Z.eqb_neq _ _)) by lia.
Qed.

Section agreement.
Context {KC KS : Type} `{KLC : KernelLaws KC} `{KLS : KernelLaws KS}.

(** The kernel of the service refuses the address [base], without replacement, and then
    chooses it when it may choose any.  A kernel may do so: the mapping can fail for another
    reason than its address. *)
Definition refused_then_chosen (base size : Z) : Prop :=
  exists k k1 k2 : KS, reserveUsmCpuRange k base size = (None, k1) /\ reserveUsmCpuRange k1 0 size = (Some base, k2).

Lemma reserved_placed {K} `{KernelLaws K} (k : K) base size p k' : size mod pageSize4KB = 0 -> 0 <= size < W64 ->
  reserveUsmCpuRange k base size = (Some p, k') -> placed_ok p size /\ (base <> 0 -> p = base).
Proof. intros Hm Hs Hr. destruct (reserve_ok _ _ _ _ _ Hs Hr) as (? & ? & ? & ? & ?). by split. Qed.

Context (N M size : Z).
Abbreviation clientLoop := (negotiate (K := KC) tryWithService N).
Abbreviation serverLoop := (negotiate (K := KS) tryWithClient M).

(** The server while it waits for the answer to its proposal. *)
Definition awaiting (fs : nat) (st : Negotiation (K := KS)) (agreed : AddressRange -> AddressRange) (ptr : Z) :=
  a ← awaitAnswer ptr; useAnswer (serverLoop fs) st agreed a.

(** What both sides may end with: the same, or — after the odd behaviour of the kernel above —
    the client with a range and the service with none. *)
Definition answers (rc rs : option AddressRange) : Prop :=
  (forall x, rc = Some x -> exists base, placed_ok base size /\ x = rangeAt base size) /\
  (rs = rc \/ rs = None /\ exists base, rc = Some (rangeAt base size) /\ refused_then_chosen base size).

(** Some run ends with such answers. *)
Definition agrees (c : conf (option AddressRange * Negotiation (K := KC)) (option AddressRange * Negotiation (K := KS))) : Prop :=
  exists rc rs sc ss, rtc cstep c (mkConf (Done (rc, sc)) (Done (rs, ss)) [] []) /\ answers rc rs.

Lemma agrees_step c c' : cstep c c' -> agrees c' -> agrees c.
Proof. intros Hone (rc & rs & sc & ss & Hr & Hx). exists rc, rs, sc, ss. split; [by eapply rtc_l|done]. Qed.

Lemma agrees_none sc ss : agrees (mkConf (Done (None, sc)) (Done (None, ss)) [] []).
Proof. exists None, None, sc, ss. split; [done|]. split; [done|by left]. Qed.

Lemma agrees_done base sc ss : placed_ok base size ->
  agrees (mkConf (Done (Some (rangeAt base size), sc)) (Done (Some (rangeAt base size), ss)) [] []).
Proof. intros Hp. eexists (Some _), _, sc, ss. split; [done|]. split; [|by left]. intros x [= <-]. by exists base. Qed.

(** The answers of the two programs that wait. *)
Lemma awaiting_spec fs st agreed ptr : exists cont,
  awaiting fs st agreed ptr = Recv cont /\ cont None = Done (None, st) /\
  forall sub base, placed_ok base size ->
    cont (Some (proposal sub (rangeAt base size))) =
      if base =? ptr then Send (proposal RespNegotiate_subtype (rangeAt base size))
                            (fun ok => useAnswer (serverLoop fs) st agreed (if (ok : bool) then Accepted (rangeAt base size) else Failed))
      else serverLoop fs (mkNegotiation (tryNum st) base size (mmapReservations st) (kernel st)).
Proof.
  eexists. split; [reflexivity|]. split; [reflexivity|]. intros sub base Hp.
  destruct (proposal_received sub ReqNegotiate_isInvalid _ _ Hp (or_introl eq_refl)) as (Hv & Hb & Hs & Hr).
  destruct (rangeAt_spec _ _ Hp) as [_ Hsz].
  set (m := proposal sub (rangeAt base size)) in *. clearbody m.
  cbn -[rangeAt rsize]. rewrite Hv, Hb, Hs, Hr. cbn -[rangeAt rsize]. change (start (rangeAt base size)) with base.
  destruct (base =? ptr); [done|]. cbn -[rangeAt rsize]. by rewrite Hsz.
Qed.

(** A side that gave up leaves the other one with nothing. *)
Lemma agrees_client_failed sc fs st agreed ptr : agrees (mkConf (Done (None, sc)) (awaiting fs st agreed ptr) [] []).
Proof.
  destruct (awaiting_spec fs st agreed ptr) as (cont & -> & Hn & _). eapply agrees_step; [apply server_eof|].
  rewrite Hn. apply agrees_none.
Qed.

(** The client takes a proposal of its own address for an acknowledgement. *)
Lemma agrees_taken base sc fs st agreed ptr : placed_ok base size -> refused_then_chosen base size ->
  agrees (mkConf (Done (Some (rangeAt base size), sc)) (awaiting fs st agreed ptr) [] []).
Proof.
  intros Hp Hodd. destruct (awaiting_spec fs st agreed ptr) as (cont & -> & Hn & _). eapply agrees_step; [apply server_eof|]. rewrite Hn.
  eexists (Some _), None, sc, st. split; [done|]. split; [intros x [= <-]; by exists base|]. right. split; [done|]. by exists base.
Qed.

(** The client accepts the proposal that the server waits for. *)
Lemma agrees_ack sc fs st (agreed : AddressRange -> AddressRange) ptr :
  placed_ok ptr size -> agreed (rangeAt ptr size) = rangeAt ptr size ->
  agrees (mkConf (ok ← sendAckToService (rangeAt ptr size); Done (if (ok : bool) then Some (rangeAt ptr size) else None, sc))
                 (awaiting fs st agreed ptr) [] []).
Proof.
  intros Hp Hag. destruct (awaiting_spec fs st agreed ptr) as (cont & -> & _ & Hr).
  eapply agrees_step; [apply client_sends|]. eapply agrees_step; [apply server_receives|].
  rewrite Hr by done. rewrite Z.eqb_refl. eapply agrees_step; [apply server_sends|].
  eapply agrees_step; [apply client_receives|]. pose proof (proj2 (proposal_valid RespNegotiate_subtype _ _ Hp)) as Hv.
  set (m := proposal RespNegotiate_subtype (rangeAt ptr size)) in *. clearbody m. cbn -[rangeAt]. rewrite Hv. cbn -[rangeAt].
  rewrite Hag. by apply agrees_done.
Qed.

Definition server_fuel (fs : nat) (st : Negotiation (K := KS)) : Prop := (Z.to_nat (M - tryNum st) < fs)%nat.

(** The next round of the client, when it comes to it: what the client does from a proposal of its own on. *)
Definition round_agrees (fc : nat) : Prop := forall (sc : Negotiation (K := KC)) base fs st agreed ptr,
  (Z.to_nat (N - tryNum sc) < fc)%nat -> usmBase sc = base -> usmSize sc = size ->
  placed_ok base size -> placed_ok ptr size -> agreed (rangeAt ptr size) = rangeAt ptr size -> server_fuel fs st ->
  agrees (mkConf (clientLoop fc sc) (awaiting fs st agreed ptr) [] []).

(** The client considers the proposal that the server waits for. *)
Lemma agrees_consider fc (sc : Negotiation (K := KC)) fs st agreed ptr :
  round_agrees fc -> (Z.to_nat (N - tryNum sc) < fc)%nat ->
  placed_ok ptr size -> agreed (rangeAt ptr size) = rangeAt ptr size -> server_fuel fs st ->
  agrees (mkConf (considerProposal (clientLoop fc) sc (rangeAt ptr size)) (awaiting fs st agreed ptr) [] []).
Proof.
  intros Hround Hfc Hp Hag Hfs. unfold considerProposal. destruct (rangeAt_spec _ _ Hp) as [_ Hsz]. rewrite Hsz.
  destruct (reserveUsmCpuRange (kernel sc) (start (rangeAt ptr size)) size) as [p k1].
  assert (Hrest : forall (suitable : bool) reservations (k : KC),
    agrees (mkConf (if suitable then
      ok ← sendAckToService (rangeAt ptr size);
      Done (if (ok : bool) then Some (rangeAt ptr size) else None, mkNegotiation (tryNum sc) (usmBase sc) (usmSize sc) reservations k)
    else
      let (base, k) := reserveUsmCpuRange k 0 size in
      match base with
      | None => Done (None, mkNegotiation (tryNum sc) (usmBase sc) size reservations k)
      | Some base =>
          own ← lift (rangeOfSize base size);
          clientLoop fc (mkNegotiation (tryNum sc) base size (insertSubRange reservations (leaf own)) k)
      end) (awaiting fs st agreed ptr) [] [])).
  { intros [|] reservations k; [by apply agrees_ack|].
    destruct (reserveUsmCpuRange k 0 size) as [[base|] k2] eqn:Hres; [|apply agrees_client_failed].
    apply reserved_placed in Hres as [Hb _]; [|apply Hp|destruct Hp as ((_ & _ & ?) & ? & ?); unfold half in *; lia].
    destruct (rangeAt_spec _ _ Hb) as [-> _]. cbn [lift mbind prog_bind].
    apply (Hround _ base); try done. }
  destruct p as [p|]; [exact (Hrest true _ k1)|].
  destruct (tryMerge_ret k1 (rangeAt ptr size) (mmapReservations sc)) as ([merged k2] & ->). exact (Hrest merged _ k2).
Qed.

(** The server looks at a proposal of the client, which waits for what it says. *)
Lemma agrees_server_try fc (sc : Negotiation (K := KC)) fs (st : Negotiation (K := KS)) base cont :
  round_agrees fc -> (Z.to_nat (N - tryNum sc) < fc)%nat -> (Z.to_nat (M - tryNum st) < fs)%nat ->
  usmBase st = base -> usmSize st = size -> placed_ok base size ->
  (cont None = Done (None, sc)) ->
  (forall ptr, placed_ok ptr size -> cont (Some (proposal RespNegotiate_subtype (rangeAt ptr size))) =
     if base =? ptr then Done (Some (rangeAt ptr size), sc) else considerProposal (clientLoop fc) sc (rangeAt ptr size)) ->
  agrees (mkConf (Recv cont) (serverLoop fs st) [] []).
Proof.
  intros Hround Hfc Hfs Hb Hs Hp Hn Hr. destruct fs as [|fs]; [lia|]. cbn [negotiate].
  assert (Hfail : forall ss, agrees (mkConf (Recv cont) (Done (None, ss)) [] [])).
  { intros ss. eapply agrees_step; [apply client_eof|]. rewrite Hn. apply agrees_none. }
  destruct (Z.ltb_spec (tryNum st) M); cbn [negb]; [|apply Hfail].
  unfold tryWithClient. cbn zeta. cbn [usmBase usmSize kernel tryNum mmapReservations]. rewrite Hb, Hs.
  pose proof Hp as ((_ & Hpg & Hs0) & Hb0 & Hh). unfold half in Hh.
  rewrite (proj2 (Z.eqb_neq base 0)) by lia. cbn [negb].
  destruct (reserveUsmCpuRange (kernel st) base size) as [[p|] k1] eqn:Hres.
  - apply reserved_placed in Hres as [_ Hpb]; [|done|lia]. rewrite Hpb by lia.
    destruct (rangeAt_spec _ _ Hp) as [-> _]. cbn [lift mbind prog_bind].
    eapply agrees_step; [apply server_sends|]. eapply agrees_step; [apply client_receives|].
    rewrite Hr, Z.eqb_refl by done. by apply agrees_done.
  - destruct (reserveUsmCpuRange k1 0 size) as [[ptr|] k2] eqn:Hres2; [|apply Hfail].
    pose proof Hres2 as Hres3. apply reserved_placed in Hres2 as [Hpt _]; [|done|lia].
    destruct (rangeAt_spec _ _ Hpt) as [-> _]. cbn [lift mbind prog_bind].
    eapply agrees_step; [apply server_sends|]. eapply agrees_step; [apply client_receives|].
    rewrite Hr by done. destruct (Z.eqb_spec base ptr) as [<-|Hne]; cbn [negb].
    + apply agrees_taken; [done|]. by exists (kernel st), k1, k2.
    + apply agrees_consider; try done. unfold server_fuel. cbn [tryNum]. lia.
Qed.

Lemma all_rounds_agree fc : round_agrees fc.
Proof.
  induction fc as [|fc IH]; intros sc base fs st agreed ptr Hfc Hb Hs Hp Hpt Hag Hfs; [lia|]. cbn [negotiate].
  destruct (Z.ltb_spec (tryNum sc) N); cbn [negb]; [|apply agrees_client_failed].
  unfold tryWithService. cbn zeta. cbn [usmBase usmSize]. rewrite Hb, Hs. destruct (rangeAt_spec _ _ Hp) as [-> Hsz]. cbn [lift mbind prog_bind].
  destruct (awaiting_spec fs st agreed ptr) as (cont & -> & _ & Hr).
  eapply agrees_step; [apply client_sends|]. eapply agrees_step; [apply server_receives|]. rewrite Hr by done.
  set (sc1 := mkNegotiation (tryNum sc + 1) base size (mmapReservations sc) (kernel sc)). cbn [negb].
  destruct (Z.eqb_spec base ptr) as [->|Hne].
  - eapply agrees_step; [apply server_sends|]. eapply agrees_step; [apply client_receives|].
    destruct (proposal_received RespNegotiate_subtype RespNegotiate_isInvalid _ _ Hpt (or_intror eq_refl)) as (Hv & Hb1 & Hs1 & Hr1).
    set (m := proposal RespNegotiate_subtype (rangeAt ptr size)) in *. clearbody m.
    cbn -[rangeAt rsize]. rewrite Hv, Hb1, Hs1, Hr1. cbn -[rangeAt rsize]. rewrite Z.eqb_refl, Hag. by apply agrees_done.
  - apply (agrees_server_try fc sc1 fs _ base); try done; [unfold sc1; cbn; lia|]. intros q Hq.
    destruct (proposal_received RespNegotiate_subtype RespNegotiate_isInvalid _ _ Hq (or_intror eq_refl)) as (Hv & Hb1 & Hs1 & Hr1).
    set (m := proposal RespNegotiate_subtype (rangeAt q size)) in *. clearbody m.
    cbn -[rangeAt considerProposal negotiate tryWithService]. rewrite Hv, Hb1, Hs1, Hr1. cbn -[rangeAt considerProposal negotiate tryWithService]. change (start (rangeAt q size)) with q. destruct (base =? q); reflexivity.
Qed.

End agreement.

(** ** The first request *)

Section initial.
Context {KC KS : Type} `{KLC : KernelLaws KC} `{KLS : KernelLaws KS}.
Context (defaultSharedVaSize : Z) (Hdefault : defaultSharedVaSize mod pageSize4KB = 0 /\ 0 < defaultSharedVaSize < W64).

Definition firstState {K} (base size : Z) (k : K) : Negotiation (K := K) := mkNegotiation 0 base size noReservations k.

(** The server looks for any range, the client waits for it. *)
Lemma first_round_agrees (ks : KS) (sc : Negotiation (K := KC)) cont fc fs :
  (63 < fc)%nat -> (63 < fs)%nat -> tryNum sc = 1 -> cont None = Done (None, sc) ->
  (forall ptr, placed_ok ptr defaultSharedVaSize -> cont (Some (proposal RespNegotiate_subtype (rangeAt ptr defaultSharedVaSize))) =
     considerProposal (negotiate tryWithService 64 fc) sc (rangeAt ptr defaultSharedVaSize)) ->
  agrees defaultSharedVaSize (mkConf (Recv cont) (negotiate tryWithClient 64 (S fs) (firstState 0 defaultSharedVaSize ks)) [] []).
Proof.
  intros Hfc Hfs Ht Hn Hr. cbn [negotiate]. cbn [firstState tryNum]. change (0 <? 64) with true. cbn [negb].
  unfold tryWithClient. cbn zeta. cbn [usmBase usmSize kernel tryNum mmapReservations firstState]. change (0 =? 0) with true. cbn [negb].
  destruct (reserveUsmCpuRange ks 0 defaultSharedVaSize) as [[ptr|] k1] eqn:Hres.
  - apply reserved_placed in Hres as [Hp _]; [|apply Hdefault|lia]. destruct (rangeAt_spec _ _ Hp) as [-> _]. cbn [lift mbind prog_bind].
    eapply agrees_step; [apply server_sends|]. eapply agrees_step; [apply client_receives|]. rewrite Hr by done. cbn [negb].
    apply (agrees_consider 64 64); try done; [apply all_rounds_agree|rewrite Ht; lia].
  - eapply agrees_step; [apply client_eof|]. rewrite Hn. apply agrees_none.
Qed.

(** The client's first two steps. *)
Lemma client_starts (kc : KC) fc : exists cont cont2,
  negotiate tryWithService 64 (S fc) (firstState 0 0 kc) = Send (proposal ReqNegotiate_subtype (mkRange 0 0)) cont /\
  cont true = Recv cont2 /\ cont2 None = Done (None, mkNegotiation 1 0 0 noReservations kc) /\
  forall ptr, placed_ok ptr defaultSharedVaSize -> cont2 (Some (proposal RespNegotiate_subtype (rangeAt ptr defaultSharedVaSize))) =
    considerProposal (negotiate tryWithService 64 fc) (mkNegotiation 1 0 0 noReservations kc) (rangeAt ptr defaultSharedVaSize).
Proof.
  eexists _, _. split; [reflexivity|]. split; [reflexivity|]. split; [reflexivity|]. intros ptr Hp.
  destruct (proposal_received RespNegotiate_subtype RespNegotiate_isInvalid _ _ Hp (or_intror eq_refl)) as (Hv & Hb & Hs & Hr).
  set (m := proposal RespNegotiate_subtype (rangeAt ptr defaultSharedVaSize)) in *. clearbody m.
  rewrite Hv, Hb, Hs, Hr. destruct Hp as (_ & Hp & _). change (start (rangeAt ptr defaultSharedVaSize)) with ptr.
  cbn [mbind prog_bind lift start rangeAt].
  match goal with |- context [?b =? ptr] => replace (b =? ptr) with false by (symmetry; apply Z.eqb_neq; cbn; lia) end. reflexivity.
Qed.

Lemma server_starts (ks : KS) : exists cont,
  serviceNegotiateUsmAddressRange defaultSharedVaSize ks = Recv cont /\
  cont (Some (proposal ReqNegotiate_subtype (mkRange 0 0))) =
    (negotiate tryWithClient 64 (S (Z.to_nat 64)) (firstState 0 defaultSharedVaSize ks) ≫= fun r => Done (finish r)).
Proof.
  eexists. split; [reflexivity|]. cbv beta iota.
  assert (ReqNegotiate_isInvalid (proposal ReqNegotiate_subtype (mkRange 0 0)) = false) as -> by (by vm_compute).
  change (proposedUsmSize (proposal _ _)) with 0. change (proposedUsmBase (proposal _ _)) with 0. cbn [Z.eqb]. unfold negotiateUsmRangeWithClient. rewrite (proj2 (Z.eqb_neq _ _)) by lia. done.
Qed.

(** C14: Negotiating the USM range always comes to an end, and both sides end with the same
    answer. From the first request on, with any kernels and in every interleaving of
    client and service: no run takes more than [n] steps, every configuration that is
    reached can still be run to the one final configuration, and there both sides hold
    the same range, of whole pages and of the size that the service chose, or both hold
    none.  The one exception is a service whose kernel refuses the address that the client
    asks for and then, free to choose, chooses that very address: the client takes the
    service's proposal for an acknowledgement and holds the range, the service waits for an
    answer and holds none. *)
Theorem usm_negotiation_agrees (kc : KC) (ks : KS) :
  exists rc rs kc' ks' n,
    let final := mkConf (Done (rc, kc')) (Done (rs, ks')) [] [] in
    (forall m c, nsteps cstep m (mkConf (negotiateInitialHeap kc) (serviceNegotiateUsmAddressRange defaultSharedVaSize ks) [] []) c ->
       (m <= n)%nat /\ rtc cstep c final) /\
    stuck final /\
    (forall x, rc = Some x -> exists base, placed_ok base defaultSharedVaSize /\ x = rangeAt base defaultSharedVaSize) /\
    (rs = rc \/ rs = None /\ exists base, rc = Some (rangeAt base defaultSharedVaSize) /\
       exists k k1 k2 : KS, reserveUsmCpuRange k base defaultSharedVaSize = (None, k1) /\
         reserveUsmCpuRange k1 0 defaultSharedVaSize = (Some base, k2)).
Proof.
  assert (Hruns : exists rc rs sc ss,
    rtc cstep (mkConf (negotiateInitialHeap kc) (serviceNegotiateUsmAddressRange defaultSharedVaSize ks) [] [])
      (finished finish finish (mkConf (Done (rc, sc)) (Done (rs, ss)) [] [])) /\ answers (KS := KS) defaultSharedVaSize rc rs).
  { destruct (client_starts kc (Z.to_nat 64)) as (cont & cont2 & Hc & Hc2 & Hn & Hr). destruct (server_starts ks) as (scont & Hs & Hs2).
    destruct (first_round_agrees ks (mkNegotiation 1 0 0 noReservations kc) _ (Z.to_nat 64) (Z.to_nat 64) ltac:(lia) ltac:(lia) eq_refl Hn Hr) as (rc & rs & sc & ss & Hrun & Hx).
    exists rc, rs, sc, ss. split; [|exact Hx].
    unfold negotiateInitialHeap, negotiateUsmRangeWithService, maxTriesWhenNegotiatingUsmRange. unfold firstState in Hc.
    rewrite Hc, Hs. cbn [mbind prog_bind]. eapply rtc_l; [apply client_sends|]. cbv beta. rewrite Hc2. cbn [mbind prog_bind app]. eapply rtc_l; [apply server_receives|]. rewrite Hs2.
    exact (finished_run finish finish _ _ Hrun). }
  destruct Hruns as (rc & rs & sc & ss & Hrun & Hr). apply rtc_nsteps in Hrun as (n & Hn).
  eexists rc, rs, _, _, n. split; [|split; [apply done_stuck|exact Hr]]. intros m c Hm. eapply all_runs; [exact Hn|apply done_stuck|exact Hm].
Qed.
End initial.

(** * What remains mapped *)

Section mapped.
Context {K : Type} `{ML : MapLaws K}.

Definition paged_range (r : AddressRange) : Prop :=
  paged (start r) (end_ r - start r) /\ 0 < start r /\ end_ r < half.

Definition inside_range (r : AddressRange) (a : Z) : Prop := start r <= a < end_ r.

Lemma paged_range_size r : paged_range r -> rsize r = end_ r - start r.
Proof. intros ((_ & _ & Hs) & Hz & Hh). unfold half, rsize in *. apply u64_id. word_unfold. lia. Qed.

Lemma unmapRange_spec (k : K) base size a : paged base size ->
  busy (unmapRange k base size) a <-> busy k a /\ ~ (base <= a < base + size).
Proof. intros Hp. unfold unmapRange. destruct (sys_munmap k base size) as [ok k'] eqn:Hu. by apply (unmap k base size ok). Qed.

Lemma paged_sub x y z : paged x (y - x) -> z mod pageSize4KB = 0 -> x < z -> paged x (z - x).
Proof. intros (Hx & _ & _) Hz Hlt. split_and!; [done| |lia]. by rewrite Zminus_mod, Hz, Hx. Qed.

Lemma paged_end x y : paged x (y - x) -> y mod pageSize4KB = 0.
Proof. intros (Hx & Hd & _). replace y with (x + (y - x)) by lia. by rewrite Z.add_mod, Hx, Hd. Qed.

Lemma cleanupReservation_spec usedRange (k : K) r a : paged_range usedRange -> paged_range r ->
  busy (fst (cleanupReservation usedRange k r)) a <-> busy k a /\ ~ (inside_range r a /\ ~ inside_range usedRange a).
Proof.
  intros Hu Hr. pose proof (paged_range_size _ Hr) as Hsz. destruct Hu as (Hup & Hu0 & Huh), Hr as (Hrp & Hr0 & Hrh).
  pose proof (paged_end _ _ Hup) as Hue. pose proof (paged_end _ _ Hrp) as Hre. pose proof Hup as (Hus & _ & Hul). pose proof Hrp as (Hrs & _ & Hrl).
  unfold cleanupReservation, inside_range. destruct (intersects r usedRange) eqn:Hi; cbn [negb fst].
  - apply intersects_spec in Hi; [|lia..]. unfold disjoint in Hi.
    case_bool_decide as He; [subst; cbn; tauto|]. cbn [fst].
    set (k1 := if start r <? start usedRange then _ else k).
    assert (Hk1 : busy k1 a <-> busy k a /\ ~ (start r <= a < start usedRange)).
    { unfold k1. destruct (Z.ltb_spec (start r) (start usedRange)); [|intuition lia].
      rewrite u64_id by (word_unfold; unfold half in *; lia). rewrite unmapRange_spec by (by eapply paged_sub). intuition lia. }
    destruct (Z.ltb_spec (end_ usedRange) (end_ r)).
    + rewrite u64_id by (word_unfold; unfold half in *; lia). rewrite unmapRange_spec, Hk1; [intuition lia|].
      split_and!; [done| |lia]. by rewrite Zminus_mod, Hre, Hue.
    + rewrite Hk1. intuition lia.
  - apply intersects_false in Hi; [|lia..]. unfold disjoint in Hi. rewrite Hsz, unmapRange_spec by done. intuition lia.
Qed.

Lemma cleanupReservations_spec usedRange (k : K) l b a : paged_range usedRange -> Forall paged_range l ->
  busy (fst (cleanupReservations usedRange k l b)) a <-> busy k a /\ ~ (covered l a /\ ~ inside_range usedRange a).
Proof.
  intros Hu Hl. revert k b. induction Hl as [|r l Hr Hl IH]; intros k b; cbn [cleanupReservations].
  - unfold covered. rewrite Exists_nil. cbn. tauto.
  - pose proof (cleanupReservation_spec usedRange k r a Hu Hr) as Hone.
    destruct (cleanupReservation usedRange k r) as [k1 b1]. cbn [fst] in Hone. rewrite IH, Hone, covered_cons. unfold inside_range. tauto.
Qed.

Lemma unmap_all_spec (k : K) l a : Forall paged_range l ->
  busy (fold_left (fun k r => unmapRange k (start r) (rsize r)) l k) a <-> busy k a /\ ~ covered l a.
Proof.
  intros Hl. revert k. induction Hl as [|r l Hr Hl IH]; intros k; cbn [fold_left].
  - unfold covered. rewrite Exists_nil. tauto.
  - rewrite IH, paged_range_size, unmapRange_spec, covered_cons by (done || apply Hr).
    replace (start r + (end_ r - start r)) with (end_ r) by lia. tauto.
Qed.

(** At the end of a negotiation exactly the reservations that are not in use are
    given back: every reserved address outside of the negotiated range is unmapped (all
    of them when there is none), no other mapping of the process is touched, and what is
    mapped inside of the negotiated range stays mapped. *)
Theorem cleanup_unmaps_exactly (k : K) usedRange reservations a :
  Forall paged_range (flat reservations) -> paged_range usedRange ->
  (busy (cleanupObsoleteAddressReservations k None reservations) a <-> busy k a /\ ~ covered (flat reservations) a) /\
  (let k' := cleanupObsoleteAddressReservations k (Some usedRange) reservations in
   (~ inside_range usedRange a -> busy k' a <-> busy k a /\ ~ covered (flat reservations) a) /\
   (inside_range usedRange a -> busy k a -> busy k' a)).
Proof.
  intros Hl Hu. change (flat reservations) with (map getBoundingRange (subRanges reservations)) in *.
  split; [by apply unmap_all_spec|]. cbn [cleanupObsoleteAddressReservations].
  pose proof (cleanupReservations_spec usedRange k _ false a Hu Hl) as Hc.
  destruct (cleanupReservations usedRange k _ false) as [k1 [|]]; cbn [fst] in Hc; [|split; [tauto|tauto]].
  unfold forceReserveUsmCpuRange. destruct Hu as (Hup & Hu0 & Huh). rewrite (proj2 (Z.eqb_neq (start usedRange) 0)) by lia.
  rewrite paged_range_size by done. destruct (sys_mmap k1 Fixed _ _ _ _) as [[p|] k2] eqn:Hm; cbn [snd].
  - pose proof (mmap_fixed _ _ _ _ _ _ _ Hm) as ->. unfold inside_range in *. split.
    + intros Hno. split.
      * intros Hb. apply (map_only _ _ _ _ _ _ _ _ _ Hm) in Hb; [|apply Hup]. destruct Hb as [Hb|Hb]; [tauto|lia].
      * intros Hb. apply (map_covers _ _ _ _ _ _ _ _ _ Hm). left. tauto.
    + intros Hin Hb. apply (map_covers _ _ _ _ _ _ _ _ _ Hm). right. lia.
  - rewrite (map_fail _ _ _ _ _ _ _ _ Hm). split; [tauto|tauto].
Qed.

Lemma reserveMissing_spec (k : K) p l p' k' a lo hi : reserveMissing k p l = (true, p', k') -> ordered lo l hi -> 0 < lo -> hi < half ->
  (busy k a -> busy k' a) /\ (covered l a -> busy k' a /\ ~ busy k a).
Proof.
  revert k p lo. induction l as [|d l IH]; intros k p lo Hres Ho Hlo Hhi; cbn [reserveMissing] in Hres.
  - injection Hres as <- <-. unfold covered. rewrite Exists_nil. done.
  - destruct Ho as (Hd & Hne & Ho). pose proof (ordered_le _ _ _ Ho) as Hle. unfold half in *.
    unfold reserveUsmCpuRange in Hres. rewrite (proj2 (Z.eqb_neq (start d) 0)) in Hres by lia.
    destruct (sys_mmap k FixedNoReplace _ _ _ _) as [[q|] k1] eqn:Hm; [|done].
    assert (Hsz : rsize d = end_ d - start d) by (unfold rsize; apply u64_id; word_unfold; lia). rewrite Hsz in Hm.
    pose proof (mmap_fixed_noreplace _ _ _ _ _ _ _ Hm) as ->.
    destruct (IH _ _ _ Hres Ho ltac:(lia) ltac:(lia)) as [Hk Hc]. split.
    + intros Hb. apply Hk. apply (map_covers _ _ _ _ _ _ _ _ _ Hm). by left.
    + rewrite covered_cons. intros [Ha|Ha].
      * split; [apply Hk, (map_covers _ _ _ _ _ _ _ _ _ Hm); right; lia|]. apply (map_free _ _ _ _ _ _ _ _ a Hm); [done|lia].
      * destruct (Hc Ha) as [H1' H2']. split; [done|]. intros Hb. apply H2', (map_covers _ _ _ _ _ _ _ _ _ Hm). by left.
Qed.

(** The gaps that the client reserves to merge its reservations into the proposed
    range are noted only in a copy of its list: when the negotiation fails afterwards
    (the acknowledgement is not answered, for example), every address of the gaps, which
    was free before, stays mapped for good. *)
Theorem merged_gaps_leak (k : K) r reservations k' a :
  wf reservations -> Forall paged_range (flat reservations) -> paged_range r ->
  tryMergeUsmRegions k r reservations ⇓ (true, k') -> inside_range r a -> ~ covered (flat reservations) a ->
  ~ busy k a /\ busy (cleanupObsoleteAddressReservations k' None reservations) a.
Proof.
  intros Hwf Hl ((_ & _ & Hr) & Hr0 & Hrh) Hm Ha Hno. unfold tryMergeUsmRegions in Hm.
  destruct (intersectsSubRanges reservations r); cbn [negb] in Hm; [|done].
  destruct (getSubRangesDiffFrom_correct reservations r Hwf ltac:(lia)) as (l & Hd & Ho & Hg). rewrite Hd in Hm. cbn [mbind res_bind] in Hm.
  destruct (reserveMissing k reservations l) as [[ok p'] k1] eqn:Hres. injection Hm as -> ->.
  destruct (reserveMissing_spec _ _ _ _ _ a _ _ Hres Ho ltac:(lia) Hrh) as [_ Hc].
  destruct (Hc (proj2 (Hg a) (conj Ha Hno))) as [Hb Hf]. split; [done|].
  change (flat reservations) with (map getBoundingRange (subRanges reservations)) in *.
  cbn [cleanupObsoleteAddressReservations]. by rewrite unmap_all_spec.
Qed.

(** Whatever the other side sends, a negotiation with at most [maxTries] tries ends: the
    client after at most two messages for each try and one acknowledgement with its answer,
    the service after at most two messages for each try and one acknowledgement; it never
    aborts, and its loop is never cut short by the fuel. *)
Theorem usm_negotiation_terminates (k : K) base size maxTries :
  0 <= base < W64 -> 0 <= size < W64 -> (base <> 0 -> size <> 0) ->
  ends (2 * Z.to_nat maxTries + 2) (negotiateUsmRangeWithService k base size maxTries) /\
  ends (2 * Z.to_nat maxTries + 1) (negotiateUsmRangeWithClient k base size maxTries).
Proof.
  intros Hb Hs Hbs. assert (Hst : state_ok (firstState base size k)) by done. split.
  - unfold negotiateUsmRangeWithService. replace (2 * Z.to_nat maxTries + 2)%nat with (2 * Z.to_nat (maxTries - 0) + 2 + 0)%nat by lia.
    apply ends_bind; [|done]. apply (client_ends maxTries _ (firstState base size k)); [done|cbn; lia].
  - by apply withClient_ends.
Qed.

End mapped.

(** * Concrete runs *)

(** The next step of a configuration, the client's first. *)
Definition next {A B} (c : conf A B) : option (conf A B) :=
  match c with
  | mkConf (Send m cont) s q1 q2 => Some (mkConf (cont true) s (q1 ++ [m]) q2)
  | mkConf (Recv cont) s q1 (m :: q2) => Some (mkConf (cont (Some m)) s q1 q2)
  | mkConf (Recv cont) (Done b) q1 [] => Some (mkConf (cont None) (Done b) q1 [])
  | mkConf c (Send m cont) q1 q2 => Some (mkConf c (cont true) q1 (q2 ++ [m]))
  | mkConf c (Recv cont) (m :: q1) q2 => Some (mkConf c (cont (Some m)) q1 q2)
  | mkConf (Done a) (Recv cont) [] q2 => Some (mkConf (Done a) (cont None) [] q2)
  | _ => None
  end.

Fixpoint steps {A B} (n : nat) (c : conf A B) : conf A B :=
  match n with
  | O => c
  | S n => match next c with Some c => steps n c | None => c end
  end.

Lemma next_sound {A B} (c c' : conf A B) : next c = Some c' -> cstep c c'.
Proof.
  destruct c as [[a| | |m cont|cont] [b| | |m' cont'|cont'] [|q q1] [|q' q2]]; intros [= <-]; constructor.
Qed.

Lemma steps_sound {A B} n (c : conf A B) : rtc cstep c (steps n c).
Proof.
  revert c. induction n as [|n IH]; intros c; cbn; [constructor|]. destruct (next c) as [c'|] eqn:Hn; [|constructor].
  eapply rtc_l; [by apply next_sound|apply IH].
Qed.

(** The client cannot use the first proposal, nor the service the client's; the client
    merges the second proposal with what it reserved. *)
Definition clientPages : Pages.kernel := Pages.mkPages 0x10000000 [(0x20008000, 0x20009000)].
Definition servicePages : Pages.kernel := Pages.mkPages 0x20000000 [].

Definition exampleNegotiation :=
  mkConf (negotiateInitialHeap clientPages) (serviceNegotiateUsmAddressRange 0x10000 servicePages) [] [].

Lemma usm_negotiation_agrees_witness :
  exists kc' ks' n,
    let final := mkConf (Done (Some (mkRange 0x20010000 0x20020000), kc')) (Done (Some (mkRange 0x20010000 0x20020000), ks')) [] [] in
    forall m c, nsteps cstep m exampleNegotiation c -> (m <= n)%nat /\ rtc cstep c final.
Proof.
  destruct (usm_negotiation_agrees 0x10000 ltac:(split; [by vm_compute|lia]) clientPages servicePages)
    as (r & rs & kc' & ks' & n & Hall & Hst & _). cbn zeta in Hall, Hst.
  pose proof (steps_sound 40 exampleNegotiation) as Hrun. apply rtc_nsteps in Hrun as (m & Hrun).
  destruct (Hall _ _ Hrun) as [_ Hfin].
  assert (Hr : r = Some (mkRange 0x20010000 0x20020000) /\ rs = r).
  { assert (Hdone : exists kc2 ks2, steps 40 exampleNegotiation =
        mkConf (Done (Some (mkRange 0x20010000 0x20020000), kc2)) (Done (Some (mkRange 0x20010000 0x20020000), ks2)) [] [])
      by (vm_compute; by eexists _, _).
    destruct Hdone as (kc2 & ks2 & Hdone). rewrite Hdone in Hfin. clear - Hfin.
    apply rtc_inv in Hfin as [Heq|(c' & Hstep & _)]; [by injection Heq as <- _ <- _|inversion Hstep]. }
  destruct Hr as [-> ->]. by exists kc', ks', n.
Defined.

(** A kernel that refuses every address it is asked for, and chooses the client's one itself:
    the client then holds a range, and the service none. *)
Inductive moody : Type := Moody (calls : nat).

#[export] Instance moody_kernel : Kernel moody := {|
  sys_mmap := fun '(Moody n) pl _ _ _ _ =>
    match pl with Anywhere => (Some (if Nat.eqb n 0 then 0x20000000 else 0x20009000), Moody (S n)) | _ => (None, Moody n) end;
  sys_munmap := fun k _ _ => (true, k);
  sys_shm_open := fun k _ _ => (None, k);
  sys_shm_unlink := fun k _ => (Unlinked, k);
  sys_ftruncate := fun k _ _ => (true, k);
  sys_close := fun k _ => (true, k) |}.

Theorem refused_address_splits : exists kc' ks',
  rtc cstep (mkConf (negotiateInitialHeap clientPages) (serviceNegotiateUsmAddressRange 0x10000 (Moody 0)) [] [])
    (mkConf (Done (Some (mkRange 0x20009000 0x20019000), kc')) (Done (None, ks')) [] []).
Proof.
  set (c := mkConf _ _ _ _). pose proof (steps_sound 40 c) as Hrun.
  assert (Hdone : exists kc2 ks2, steps 40 c = mkConf (Done (Some (mkRange 0x20009000 0x20019000), kc2)) (Done (None, ks2)) [] [])
    by (vm_compute; by eexists _, _).
  destruct Hdone as (kc' & ks' & Hdone). rewrite Hdone in Hrun. by exists kc', ks'.
Qed.

Lemma usm_negotiation_terminates_witness :
  ends 130 (negotiateUsmRangeWithService clientPages 0 0 64) /\ ends 129 (negotiateUsmRangeWithClient servicePages 0 0x10000 64).
Proof.
  split; [apply (usm_negotiation_terminates clientPages 0 0 64)|apply (usm_negotiation_terminates servicePages 0 0x10000 64)]; lia.
Defined.

(** One reservation, of which the upper half is in use. *)
Definition exampleReservations : PartitionedAddressRange := insertSubRange noReservations (leaf (mkRange 0x20000000 0x20010000)).

Lemma exampleReservations_paged : Forall paged_range (flat exampleReservations).
Proof. constructor; [|constructor]. split_and!; by vm_compute. Qed.

Lemma cleanup_unmaps_exactly_witness :
  let k := Pages.mkPages 0 [(0x20000000, 0x20010000)] in
  let k' := cleanupObsoleteAddressReservations k (Some (mkRange 0x20008000 0x20010000)) exampleReservations in
  ~ busy k' 0x20007fff /\ busy k' 0x20008000 /\ ~ busy (cleanupObsoleteAddressReservations k None exampleReservations) 0x20008000.
Proof.
  intros k k'.
  assert (Hu : paged_range (mkRange 0x20008000 0x20010000)) by (split_and!; by vm_compute).
  destruct (cleanup_unmaps_exactly k (mkRange 0x20008000 0x20010000) exampleReservations 0x20007fff exampleReservations_paged Hu) as [_ [Hout _]].
  destruct (cleanup_unmaps_exactly k (mkRange 0x20008000 0x20010000) exampleReservations 0x20008000 exampleReservations_paged Hu) as [Hnone [_ Hin]].
  split_and!.
  - intros Hb. apply Hout in Hb as [_ Hno]; [|unfold inside_range; cbn; lia]. apply Hno. constructor. cbn. lia.
  - apply Hin; [unfold inside_range; cbn; lia|by vm_compute].
  - intros Hb. apply Hnone in Hb as [_ Hno]. apply Hno. constructor. cbn. lia.
Defined.

(** The client holds one page below the proposal and two pages of it; the other pages leak. *)
Lemma merged_gaps_leak_witness :
  let k := Pages.mkPages 0 [(0x20000000, 0x20010000)] in
  exists k', tryMergeUsmRegions k (mkRange 0x20008000 0x20018000) exampleReservations ⇓ (true, k') /\
    ~ busy k 0x20010000 /\ busy (cleanupObsoleteAddressReservations k' None exampleReservations) 0x20010000.
Proof.
  intros k. eexists. split; [reflexivity|].
  apply (merged_gaps_leak k (mkRange 0x20008000 0x20018000) exampleReservations).
  - constructor; [cbn; lia|]. constructor; [|constructor]. constructor; [cbn; lia|constructor].
  - exact exampleReservations_paged.
  - split_and!; by vm_compute.
  - reflexivity.
  - unfold inside_range. cbn. lia.
  - intros Hc. apply Exists_exists in Hc as (x & Hx & Ha). apply list_elem_of_singleton in Hx as ->. cbn in Ha. lia.
Defined.
