(* ===== verification/ClientContext.v ===== *)
(** What the service keeps for one client ([ClientContext] of service/service.h):
    its heaps of unified shared memory, its shared memory files, its USM
    allocations and the API handles that are tracked for automatic cleanup; the
    cleanup when the client leaves ([l0SpecificCleanup] of service/service.cpp),
    and the handler that allocates USM host memory. *)

From stdpp Require Import gmap.
From S2P Require Import Prelude.
From S2P Require Import Align.
From S2P Require Import Ranges.
From S2P Require Import RangeAlloc.
From S2P Require Import Kernel.
From S2P Require Import SubAlloc.
From S2P Require Import Messages.
From S2P Require Import Shmem.
From S2P Require Import MemMap.
Local Open Scope Z_scope.

(** * The shared allocator

    All heaps of all clients refer to the one [ShmemAllocator] of the service, so
    it is part of the world that the operations change, beside the kernel; the
    allocators hold a reference to it ([unit]). *)
Definition World (K : Type) : Type := (K * ShmemAllocator)%type.

(** The instances below are only used once the type of the kernel is known. *)
#[export] Hint Mode Kernel ! : typeclass_instances.
#[export] Hint Mode UnderlyingAllocator ! ! - : typeclass_instances.

Section world.
Context {K : Type} `{Kernel K}.

Definition on_kernel {A} (f : K -> A * K) (w : World K) : A * World K :=
  let (a, k) := f (fst w) in (a, (k, snd w)).

#[export] Instance world_kernel : Kernel (World K) := {|
  sys_mmap := fun w pl addr size fd off => on_kernel (fun k => sys_mmap k pl addr size fd off) w;
  sys_munmap := fun w addr size => on_kernel (fun k => sys_munmap k addr size) w;
  sys_shm_open := fun w path create => on_kernel (fun k => sys_shm_open k path create) w;
  sys_shm_unlink := fun w path => on_kernel (fun k => sys_shm_unlink k path) w;
  sys_ftruncate := fun w fd size => on_kernel (fun k => sys_ftruncate k fd size) w;
  sys_close := fun w fd => on_kernel (fun k => sys_close k fd) w |}.

#[export] Instance world_shmem : UnderlyingAllocator (World K) unit OpenedShmemAllocation := {|
  u_allocate := fun w _ size alignment =>
    '(a, s, k) ← shmem_allocate (fst w) (snd w) size alignment; Ret (a, tt, (k, s));
  u_free := fun w _ a => let (s, k) := shmem_free (fst w) (snd w) a in Ret (tt, (k, s)) |}.

End world.

(** * The context *)

Abbreviation UsmHeap := (ArenaAllocator (BoundedMmap unit) MmappedShmemAllocation).
Abbreviation UsmAllocation := (SubAllocation MmappedShmemAllocation).

(** [UsmSharedHostAlloc]: the destructor is known by a number, 0 for none. *)
Record UsmSharedHostAlloc := mkUsmAlloc {
  ua_ctx : Z; ua_shmem : UsmAllocation; ua_apiType : ApiType; gpuDestructor : Z }.

(** The kinds of handles with a tracking set. *)
Inductive HandleT : Type :=
| Context_ | CommandQueue | CommandList | Module_ | ModuleBuildLog | Kernel_ | Event | EventPool | Fence | Image | MetricStreamer.

#[export] Instance HandleT_eq_dec : EqDecision HandleT.
Proof. solve_decision. Defined.

(** What is asked of the graphics drivers. *)
Inductive GpuCall : Type :=
| CallGpuDestructor (destructor ctx ptr : Z)
| DestroyHandle (kind : HandleT) (handle : Z).

Record ClientContext := mkContext {
  automaticCleanupOfApiHandles : bool;
  isStopping : bool;
  rpcChannels : list Z;
  usmHeaps : list UsmHeap;
  globalShmemsMap : gmap Z MmappedShmemAllocation;
  usmSharedHostMap : gmap Z UsmSharedHostAlloc;
  tracking : HandleT -> gset Z
}.

Definition newClientContext (automaticCleanup : bool) : ClientContext :=
  mkContext automaticCleanup false [] [] ∅ ∅ (fun _ => ∅).

Definition set_heaps (c : ClientContext) (l : list UsmHeap) : ClientContext :=
  mkContext (automaticCleanupOfApiHandles c) (isStopping c) (rpcChannels c) l (globalShmemsMap c) (usmSharedHostMap c) (tracking c).
Definition set_allocs (c : ClientContext) (m : gmap Z UsmSharedHostAlloc) : ClientContext :=
  mkContext (automaticCleanupOfApiHandles c) (isStopping c) (rpcChannels c) (usmHeaps c) (globalShmemsMap c) m (tracking c).
Definition set_shmems (c : ClientContext) (m : gmap Z MmappedShmemAllocation) : ClientContext :=
  mkContext (automaticCleanupOfApiHandles c) (isStopping c) (rpcChannels c) (usmHeaps c) m (usmSharedHostMap c) (tracking c).
Definition set_tracking (c : ClientContext) (f : HandleT -> gset Z) : ClientContext :=
  mkContext (automaticCleanupOfApiHandles c) (isStopping c) (rpcChannels c) (usmHeaps c) (globalShmemsMap c) (usmSharedHostMap c) f.

Definition registerShmem (c : ClientContext) (shmem : MmappedShmemAllocation) : ClientContext :=
  set_shmems c (<[shmem_id (fd_base (mm_base shmem)) := shmem]> (globalShmemsMap c)).

Definition getShmemById (c : ClientContext) (id : Z) : MmappedShmemAllocation :=
  match globalShmemsMap c !! id with Some shmem => shmem | None => noAlloc end.

Definition addUsmHeap (c : ClientContext) (heap : UsmHeap) : ClientContext := set_heaps c (usmHeaps c ++ [heap]).

Definition addUsmSharedHostAlloc (c : ClientContext) (ctx : Z) (shmem : UsmAllocation) (apiType : ApiType) (destructor : Z) : res ClientContext :=
  ptr ← getSubAllocationPtr shmem;
  Ret (set_allocs c (<[ptr := mkUsmAlloc ctx shmem apiType destructor]> (usmSharedHostMap c))).

(** ** Tracking of handles *)

Definition set_kind (f : HandleT -> gset Z) (kind : HandleT) (s : gset Z) : HandleT -> gset Z :=
  fun x => if decide (x = kind) then s else f x.

Definition trackAllocatedResource (c : ClientContext) (kind : HandleT) (handle : Z) : ClientContext :=
  if automaticCleanupOfApiHandles c then
    if handle =? 0 then c else set_tracking c (set_kind (tracking c) kind ({[handle]} ∪ tracking c kind))
  else c.

Definition removeResourceTracking (c : ClientContext) (kind : HandleT) (handle : Z) : ClientContext :=
  if automaticCleanupOfApiHandles c then
    if handle =? 0 then c else set_tracking c (set_kind (tracking c) kind (tracking c kind ∖ {[handle]}))
  else c.

(** The order in which [l0SpecificCleanup] goes through the sets. *)
Definition destroyOrder : list HandleT :=
  [Fence; CommandList; CommandQueue; Kernel_; ModuleBuildLog; Module_; Event; EventPool; Image; MetricStreamer; Context_].

Definition destroyResources (c : ClientContext) (kind : HandleT) : ClientContext * list GpuCall :=
  (set_tracking c (set_kind (tracking c) kind ∅), map (DestroyHandle kind) (elements (tracking c kind))).

Fixpoint destroyKinds (c : ClientContext) (l : list HandleT) : ClientContext * list GpuCall :=
  match l with
  | [] => (c, [])
  | kind :: l =>
      let (c, calls) := destroyResources c kind in
      let (c, more) := destroyKinds c l in
      (c, calls ++ more)
  end.

(** The guard is the code's: the cleanup is skipped when it is enabled. *)
Definition l0SpecificCleanup (c : ClientContext) : ClientContext * list GpuCall :=
  if automaticCleanupOfApiHandles c then (c, []) else destroyKinds c destroyOrder.

(** ** Giving back memory *)

Section memory.
Context {K : Type} `{Kernel K}.
Abbreviation W := (World K).

Definition getMmapRange (heap : UsmHeap) : AddressRange := getRange (bm_range (underlyingAllocator heap)).

(** [heap.getUnderlyingAllocator().getMmapRange().contains(ptr)] *)
Definition heapContains (heap : UsmHeap) (ptr : Z) : res bool :=
  byte ← rangeOfPtr ptr; Ret (contains (getMmapRange heap) byte).

(** Every heap whose range contains the pointer frees the allocation. *)
Fixpoint freeInHeaps (w : W) (heaps : list UsmHeap) (ptr : Z) (shmem : UsmAllocation) : res (list UsmHeap * W) :=
  match heaps with
  | [] => Ret ([], w)
  | heap :: heaps =>
      inside ← heapContains heap ptr;
      '(heap, w) ← (if (inside : bool) then arena_free w heap shmem else Ret (heap, w));
      '(heaps, w) ← freeInHeaps w heaps ptr shmem;
      Ret (heap :: heaps, w)
  end.

Definition reapUsmSharedHostAlloc (w : W) (c : ClientContext) (ptr : Z) (callGpuDestructor : bool)
  : res (ClientContext * list GpuCall * W) :=
  match usmSharedHostMap c !! ptr with
  | None => Ret (c, [], w)
  | Some alloc =>
      allocPtr ← getSubAllocationPtr (ua_shmem alloc);
      let calls := if callGpuDestructor && negb (gpuDestructor alloc =? 0)
                   then [CallGpuDestructor (gpuDestructor alloc) (ua_ctx alloc) allocPtr] else [] in
      '(heaps, w) ← freeInHeaps w (usmHeaps c) allocPtr (ua_shmem alloc);
      Ret (set_allocs (set_heaps c heaps) (delete ptr (usmSharedHostMap c)), calls, w)
  end.

(** The leaked allocations: only Level Zero destructors of tracked contexts are called. *)
Definition leakedCalls (c : ClientContext) (alloc : UsmSharedHostAlloc) (ptr : Z) : list GpuCall :=
  if negb (gpuDestructor alloc =? 0) && bool_decide (ua_apiType alloc = LevelZero) && bool_decide (ua_ctx alloc ∈ tracking c Context_)
  then [CallGpuDestructor (gpuDestructor alloc) (ua_ctx alloc) ptr] else [].

Fixpoint cleanupAllocs (w : W) (c : ClientContext) (l : list UsmSharedHostAlloc) : res (ClientContext * list GpuCall * W) :=
  match l with
  | [] => Ret (c, [], w)
  | alloc :: l =>
      ptr ← getSubAllocationPtr (ua_shmem alloc);
      '(heaps, w) ← freeInHeaps w (usmHeaps c) ptr (ua_shmem alloc);
      '(c', calls, w) ← cleanupAllocs w (set_heaps c heaps) l;
      Ret (c', leakedCalls c alloc ptr ++ calls, w)
  end.

Fixpoint unmapHeaps (w : W) (heaps : list UsmHeap) : W :=
  match heaps with
  | [] => w
  | heap :: heaps => unmapHeaps (snd (sys_munmap w (start (getMmapRange heap)) (rsize (getMmapRange heap)))) heaps
  end.

Fixpoint inSomeHeap (heaps : list UsmHeap) (ptr : Z) : res bool :=
  match heaps with
  | [] => Ret false
  | heap :: heaps => inside ← heapContains heap ptr; if (inside : bool) then Ret true else inSomeHeap heaps ptr
  end.

(** Files that were mapped in a heap are already unmapped. *)
Fixpoint freeShmems (w : W) (heaps : list UsmHeap) (l : list MmappedShmemAllocation) : res W :=
  match l with
  | [] => Ret w
  | shmem :: l =>
      wasSharedVaShmem ← inSomeHeap heaps (mmappedPtr shmem);
      '(_, w) ← (if (wasSharedVaShmem : bool) then u_free w tt (mm_base shmem) else global_free w tt shmem);
      freeShmems w heaps l
  end.

(** The maps are gone through in the order of [map_to_list]. *)
Definition cleanup (w : W) (c : ClientContext) : res (ClientContext * list GpuCall * W) :=
  let c := mkContext (automaticCleanupOfApiHandles c) true [] (usmHeaps c) (globalShmemsMap c) (usmSharedHostMap c) (tracking c) in
  '(c, calls, w) ← cleanupAllocs w c (snd <$> map_to_list (usmSharedHostMap c));
  let c := set_allocs c ∅ in
  let w := unmapHeaps w (usmHeaps c) in
  w ← freeShmems w (usmHeaps c) (snd <$> map_to_list (globalShmemsMap c));
  let (c, destroyed) := l0SpecificCleanup (set_shmems c ∅) in
  Ret (c, calls ++ destroyed, w).

(** The destructor of the context destroys the heaps. *)
Fixpoint destroyHeaps (w : W) (heaps : list UsmHeap) : res W :=
  match heaps with
  | [] => Ret w
  | heap :: heaps => '(_, w) ← destroyArenaAllocator w heap; destroyHeaps w heaps
  end.

End memory.

(** * [zeMemAllocHostHandler]

    The driver is a parameter: [zeMemAllocHost] gets the host pointer to use and
    answers with a result and the pointer it used. *)

Definition ZE_RESULT_SUCCESS : Z := 0.
Definition ZE_RESULT_ERROR_OUT_OF_HOST_MEMORY : Z := 0x70000002.
Definition ZE_RESULT_ERROR_INVALID_NULL_POINTER : Z := 0x78000007.
Definition pageSize64KB : Z := 65536.

(** The part of the message that the handler fills in. *)
Record Captures := mkCaptures {
  cap_ret : Z; cap_pptr : Z; shmem_resource : Z; offset_within_resource : Z; aligned_size : Z }.

Definition set_result (c : Captures) (ret pptr : Z) : Captures :=
  mkCaptures ret pptr (shmem_resource c) (offset_within_resource c) (aligned_size c).

Record HostAllocArgs := mkHostAllocArgs { hContext : Z; host_desc : Z; req_size : Z; req_alignment : Z; arg_pptr : Z }.

Section host_alloc.
Context {K D : Type} `{Kernel K}.
Context (zeMemAllocHost : D -> HostAllocArgs -> Z -> Z * Z * D) (zeMemFree : D -> Z -> Z -> D).
Context (useStandaloneAllocations : bool) (gpuDestructorUsm : Z).
Abbreviation W := (World K).

Definition minAlignment (args : HostAllocArgs) : Z :=
  if req_alignment args =? 0 then pageSize64KB else alignUpPow2 pageSize64KB (req_alignment args).
Definition alignedSize (args : HostAllocArgs) : Z := alignUpPow2 pageSize64KB (req_size args).

Definition allocateFromHeap (w : W) (heap : UsmHeap) (args : HostAllocArgs) : res (UsmAllocation * UsmHeap * W) :=
  if useStandaloneAllocations then allocateAsStandalone w heap (alignedSize args) (minAlignment args)
  else arena_allocate id id w heap (alignedSize args) (minAlignment args).

(** One heap: the driver took the allocation, or the handler returns at once, or the
    next heap is tried. *)
Inductive HeapOutcome : Type := Taken (shmem : UsmAllocation) | StopHere | NextHeap.

Definition tryHeap (w : W) (d : D) (args : HostAllocArgs) (cap : Captures) (heap : UsmHeap)
  : res (HeapOutcome * UsmHeap * Captures * W * D) :=
  '(shmem, heap, w) ← allocateFromHeap w heap args;
  if negb (isValid shmem) then Ret (NextHeap, heap, cap, w, d)
  else
    cpuAddress ← getSubAllocationPtr shmem;
    let '(ret, pptr, d) := zeMemAllocHost d args cpuAddress in
    if negb (ret =? ZE_RESULT_SUCCESS) then
      '(heap, w) ← arena_free w heap shmem;
      Ret (NextHeap, heap, set_result cap ret 0, w, d)
    else if pptr =? cpuAddress then
      Ret (Taken shmem, heap,
           mkCaptures ret pptr (from_option (fun a => shmem_id (fd_base (mm_base a))) (-1) (sourceAllocation shmem))
             (subAllocationOffset shmem) (alignedSize args), w, d)
    else
      let d := zeMemFree d (hContext args) pptr in
      '(heap, w) ← arena_free w heap shmem;
      Ret (StopHere, heap, set_result cap ZE_RESULT_ERROR_OUT_OF_HOST_MEMORY 0, w, d).

Fixpoint tryHeaps (w : W) (d : D) (args : HostAllocArgs) (cap : Captures) (heaps : list UsmHeap)
  : res (HeapOutcome * list UsmHeap * Captures * W * D) :=
  match heaps with
  | [] => Ret (NextHeap, [], cap, w, d)
  | heap :: heaps =>
      '(o, heap, cap, w, d) ← tryHeap w d args cap heap;
      match o with
      | NextHeap => '(o, heaps, cap, w, d) ← tryHeaps w d args cap heaps; Ret (o, heap :: heaps, cap, w, d)
      | _ => Ret (o, heap :: heaps, cap, w, d)
      end
  end.

(** The final check of the result. *)
Definition checkResult (cap : Captures) : Captures :=
  if negb (cap_ret cap =? ZE_RESULT_SUCCESS) || (cap_pptr cap =? 0)
  then set_result cap (if cap_ret cap =? ZE_RESULT_SUCCESS then ZE_RESULT_ERROR_OUT_OF_HOST_MEMORY else cap_ret cap) 0
  else cap.

Definition zeMemAllocHostHandler (w : W) (d : D) (c : ClientContext) (args : HostAllocArgs) (cap : Captures)
  : res (ClientContext * Captures * W * D) :=
  if (host_desc args =? 0) || (arg_pptr args =? 0)
  then Ret (c, set_result cap ZE_RESULT_ERROR_INVALID_NULL_POINTER (cap_pptr cap), w, d)
  else
    '(o, heaps, cap, w, d) ← tryHeaps w d args cap (usmHeaps c);
    let c := set_heaps c heaps in
    match o with
    | Taken shmem =>
        c ← addUsmSharedHostAlloc c (hContext args) shmem LevelZero gpuDestructorUsm;
        Ret (c, checkResult cap, w, d)
    | StopHere => Ret (c, cap, w, d)
    | NextHeap => Ret (c, checkResult cap, w, d)
    end.

End host_alloc.

(** * Properties *)

(** ** Handles *)

(** What the handlers of the client's API calls do with handles. *)
Inductive HandleOp : Type := Track (kind : HandleT) (handle : Z) | Untrack (kind : HandleT) (handle : Z).

Definition applyHandleOp (c : ClientContext) (op : HandleOp) : ClientContext :=
  match op with
  | Track kind handle => trackAllocatedResource c kind handle
  | Untrack kind handle => removeResourceTracking c kind handle
  end.

Lemma handle_ops_flag ops c : automaticCleanupOfApiHandles (fold_left applyHandleOp ops c) = automaticCleanupOfApiHandles c.
Proof.
  revert c. induction ops as [|op ops IH]; intros c; [done|]. cbn [fold_left]. rewrite IH.
  destruct op as [kind handle|kind handle]; cbn; unfold trackAllocatedResource, removeResourceTracking;
    destruct (automaticCleanupOfApiHandles c) eqn:He, (handle =? 0); cbn; done.
Qed.

Lemma handle_ops_disabled ops c : automaticCleanupOfApiHandles c = false -> fold_left applyHandleOp ops c = c.
Proof.
  intros Hc. induction ops as [|op ops IH]; [done|]. cbn [fold_left].
  replace (applyHandleOp c op) with c; [exact IH|].
  destruct op; cbn; unfold trackAllocatedResource, removeResourceTracking; by rewrite Hc.
Qed.

Lemma destroyKinds_empty c l : (forall kind, tracking c kind = ∅) -> snd (destroyKinds c l) = [].
Proof.
  revert c. induction l as [|kind l IH]; intros c Hc; [done|]. cbn.
  match goal with |- context [destroyKinds ?x l] => specialize (IH x); destruct (destroyKinds x l) as [c2 more] end.
  cbn [snd] in *. rewrite IH; [by rewrite Hc, elements_empty|]. intros k. cbn. unfold set_kind. destruct (decide (k = kind)); [done|apply Hc].
Qed.

(** The handles that a client created are tracked exactly when automatic cleanup is
    enabled, and then the cleanup skips them: whatever the client created and released, and
    whether or not automatic cleanup is enabled, no handle is ever destroyed for it. *)
Theorem tracked_handles_never_destroyed automaticCleanup ops :
  snd (l0SpecificCleanup (fold_left applyHandleOp ops (newClientContext automaticCleanup))) = [].
Proof.
  unfold l0SpecificCleanup. rewrite handle_ops_flag. cbn [newClientContext automaticCleanupOfApiHandles].
  destruct automaticCleanup; [done|]. rewrite handle_ops_disabled by done. by apply destroyKinds_empty.
Qed.

(** Which handles are tracked by a sequence of operations, newest last. *)
Fixpoint liveHandles (kind : HandleT) (ops : list HandleOp) (live : gset Z) : gset Z :=
  match ops with
  | [] => live
  | Track k h :: ops => liveHandles kind ops (if decide (k = kind /\ h <> 0) then {[h]} ∪ live else live)
  | Untrack k h :: ops => liveHandles kind ops (if decide (k = kind /\ h <> 0) then live ∖ {[h]} else live)
  end.

(** With automatic cleanup, the set of a kind of handles holds exactly the handles of
    that kind that were created and not released since, never the null handle, and
    operations on one kind do not touch another. *)
Theorem tracking_exact ops kind :
  let c := fold_left applyHandleOp ops (newClientContext true) in
  tracking c kind = liveHandles kind ops ∅ /\ 0 ∉ tracking c kind.
Proof.
  assert (Hgen : forall c live, automaticCleanupOfApiHandles c = true -> tracking c kind = live -> 0 ∉ live ->
    tracking (fold_left applyHandleOp ops c) kind = liveHandles kind ops live /\ 0 ∉ tracking (fold_left applyHandleOp ops c) kind).
  { induction ops as [|op ops IH]; intros c live Hc Ht H0; [by subst|]. cbn [fold_left].
    destruct op as [k h|k h]; cbn [applyHandleOp liveHandles]; unfold trackAllocatedResource, removeResourceTracking; rewrite Hc;
      destruct (Z.eqb_spec h 0) as [->|Hh].
    - rewrite decide_False by tauto. by apply IH.
    - destruct (decide (k = kind /\ h <> 0)) as [[-> _]|Hn]; (apply IH; [done| |]).
      + cbn. unfold set_kind. rewrite decide_True by done. by rewrite Ht.
      + set_solver.
      + cbn. unfold set_kind. rewrite decide_False; [done|]. intros ->. tauto.
      + done.
    - rewrite decide_False by tauto. by apply IH.
    - destruct (decide (k = kind /\ h <> 0)) as [[-> _]|Hn]; (apply IH; [done| |]).
      + cbn. unfold set_kind. rewrite decide_True by done. by rewrite Ht.
      + set_solver.
      + cbn. unfold set_kind. rewrite decide_False; [done|]. intros ->. tauto.
      + done. }
  apply Hgen; [done|done|set_solver].
Qed.

(** ** USM allocations *)

Section usm_allocs.
Context {K D : Type} `{Kernel K}.
Context (zeMemAllocHost : D -> HostAllocArgs -> Z -> Z * Z * D) (zeMemFree : D -> Z -> Z -> D).
Context (standalone : bool) (destructor : Z).
Abbreviation W := (World K).

(** A heap that was tried in vain: it had no memory, or what it gave was given back. *)
Definition settled (args : HostAllocArgs) (w : W) (heap heap' : UsmHeap) (w' : W) : Prop :=
  exists shmem h1 w1, allocateFromHeap standalone w heap args ⇓ (shmem, h1, w1) /\
    if (isValid shmem : bool) then arena_free w1 h1 shmem ⇓ (heap', w') else heap' = h1 /\ w' = w1.

Inductive tried (args : HostAllocArgs) : W -> list UsmHeap -> list UsmHeap -> W -> Prop :=
| tried_nil w : tried args w [] [] w
| tried_cons w w1 w2 heap heap' l l' : settled args w heap heap' w1 -> tried args w1 l l' w2 -> tried args w (heap :: l) (heap' :: l') w2.

(** What the driver took from a heap, and what the message says about it. *)
Definition taken (args : HostAllocArgs) (w : W) (heap heap' : UsmHeap) (w' : W) (shmem : UsmAllocation) (cap : Captures) : Prop :=
  allocateFromHeap standalone w heap args ⇓ (shmem, heap', w') /\ isValid shmem = true /\
  getSubAllocationPtr shmem ⇓ cap_pptr cap /\ cap_ret cap = ZE_RESULT_SUCCESS /\
  offset_within_resource cap = subAllocationOffset shmem /\ aligned_size cap = alignedSize args.

Lemma tryHeap_spec (w : W) d args cap heap o heap' cap' w' d' :
  tryHeap zeMemAllocHost zeMemFree standalone w d args cap heap ⇓ (o, heap', cap', w', d') ->
  match o with
  | Taken shmem => taken args w heap heap' w' shmem cap'
  | StopHere => settled args w heap heap' w' /\ cap_ret cap' = ZE_RESULT_ERROR_OUT_OF_HOST_MEMORY /\ cap_pptr cap' = 0
  | NextHeap => settled args w heap heap' w' /\ (cap_ret cap <> ZE_RESULT_SUCCESS -> cap_ret cap' <> ZE_RESULT_SUCCESS)
  end.
Proof.
  unfold tryHeap, settled. intros Hr. apply res_bind_Ret in Hr as ([[shmem h1] w1] & Hal & Hr). rewrite Hal.
  destruct (isValid shmem) eqn:Hv; cbn [negb] in Hr.
  - apply res_bind_Ret in Hr as (cpu & Hcpu & Hr). destruct (zeMemAllocHost d args cpu) as [[ret pptr] d1].
    destruct (Z.eqb_spec ret ZE_RESULT_SUCCESS) as [->|Hret]; cbn [negb] in Hr.
    + destruct (Z.eqb_spec pptr cpu) as [->|Hne].
      * injection Hr as <- <- <- <- <-. unfold taken. cbn. done.
      * apply res_bind_Ret in Hr as ([h2 w2] & Hf & Hr). injection Hr as <- <- <- <- <-.
        split; [|done]. exists shmem, h1, w1. by rewrite Hv.
    + apply res_bind_Ret in Hr as ([h2 w2] & Hf & Hr). injection Hr as <- <- <- <- <-.
      split; [|done]. exists shmem, h1, w1. by rewrite Hv.
  - injection Hr as <- <- <- <- <-. split; [|done]. exists shmem, h1, w1. by rewrite Hv.
Qed.

Lemma tryHeaps_spec (w : W) d args cap heaps o heaps' cap' w' d' :
  cap_ret cap <> ZE_RESULT_SUCCESS ->
  tryHeaps zeMemAllocHost zeMemFree standalone w d args cap heaps ⇓ (o, heaps', cap', w', d') ->
  exists l1 l1' l2 w1, tried args w l1 l1' w1 /\
  match o with
  | Taken shmem => exists heap heap', heaps = l1 ++ heap :: l2 /\ heaps' = l1' ++ heap' :: l2 /\ taken args w1 heap heap' w' shmem cap'
  | StopHere => w' = w1 /\ heaps = l1 ++ l2 /\ heaps' = l1' ++ l2 /\ cap_ret cap' = ZE_RESULT_ERROR_OUT_OF_HOST_MEMORY /\ cap_pptr cap' = 0
  | NextHeap => w' = w1 /\ heaps = l1 ++ l2 /\ heaps' = l1' ++ l2 /\ cap_ret cap' <> ZE_RESULT_SUCCESS
  end.
Proof.
  revert w d cap heaps' cap' w' d'. induction heaps as [|heap heaps IH]; intros w d cap heaps' cap' w' d' Hcap Hr; cbn [tryHeaps] in Hr.
  { injection Hr as <- <- <- <- <-. exists [], [], [], w. split; [constructor|done]. }
  apply res_bind_Ret in Hr as ([[[[o1 h1] cap1] w1] d1] & H1' & Hr). apply tryHeap_spec in H1'.
  destruct o1 as [shmem| |].
  - injection Hr as <- <- <- <- <-. exists [], [], heaps, w. split; [constructor|]. by exists heap, h1.
  - injection Hr as <- <- <- <- <-. destruct H1' as (Hs & Hc1 & Hc2). exists [heap], [h1], heaps, w1.
    split; [econstructor; [exact Hs|constructor]|done].
  - destruct H1' as [Hs Hc1]. apply res_bind_Ret in Hr as ([[[[o2 hs2] cap2] w2] d2] & H2' & Hr). injection Hr as <- <- <- <- <-.
    destruct (IH _ _ _ _ _ _ _ (Hc1 Hcap) H2') as (l1 & l1' & l2 & w3 & Ht & Ho).
    exists (heap :: l1), (h1 :: l1'), l2, w3. split; [by econstructor|].
    destruct o2 as [shmem| |].
    + destruct Ho as (h & h' & -> & -> & Htk). by exists h, h'.
    + destruct Ho as (-> & -> & -> & Hc2 & Hc3). done.
    + destruct Ho as (-> & -> & -> & Hc2). done.
Qed.

(** A request for USM host memory either gives the client memory of exactly one heap,
    which the context remembers under the pointer that the driver uses, with the message
    describing where the client finds it; or it fails with an error and a null pointer,
    and the context remembers nothing. In both cases every other allocation that was made
    on the way has been given back to its heap. *)
Theorem zeMemAllocHost_outcome (w : W) d c args cap c' cap' w' d' :
  host_desc args <> 0 -> arg_pptr args <> 0 -> cap_ret cap <> ZE_RESULT_SUCCESS ->
  zeMemAllocHostHandler zeMemAllocHost zeMemFree standalone destructor w d c args cap ⇓ (c', cap', w', d') ->
  exists l1 l1' l2 w1, tried args w l1 l1' w1 /\
  ((exists heap heap' shmem cap1, usmHeaps c = l1 ++ heap :: l2 /\ usmHeaps c' = l1' ++ heap' :: l2 /\
      taken args w1 heap heap' w' shmem cap1 /\ (if cap_pptr cap1 =? 0 then cap_ret cap' <> ZE_RESULT_SUCCESS else cap' = cap1) /\
      usmSharedHostMap c' = <[cap_pptr cap1 := mkUsmAlloc (hContext args) shmem LevelZero destructor]> (usmSharedHostMap c)) \/
   (w' = w1 /\ usmHeaps c = l1 ++ l2 /\ usmHeaps c' = l1' ++ l2 /\
      cap_ret cap' <> ZE_RESULT_SUCCESS /\ cap_pptr cap' = 0 /\ usmSharedHostMap c' = usmSharedHostMap c)).
Proof.
  intros Hh Hp Hcap Hr. unfold zeMemAllocHostHandler in Hr. rewrite !(proj2 (Z.eqb_neq _ _)) in Hr by done. cbn [orb] in Hr.
  apply res_bind_Ret in Hr as ([[[[o heaps] cap1] w1] d1] & Ht & Hr).
  destruct (tryHeaps_spec _ _ _ _ _ _ _ _ _ _ Hcap Ht) as (l1 & l1' & l2 & w2 & Htr & Ho). exists l1, l1', l2, w2. split; [exact Htr|].
  destruct o as [shmem| |].
  - destruct Ho as (heap & heap' & Hl & Hl' & Htk). left.
    apply res_bind_Ret in Hr as (c1 & Hadd & Hr). injection Hr as <- <- <- <-.
    unfold addUsmSharedHostAlloc in Hadd. pose proof Htk as (_ & _ & Hptr & Hret & _). rewrite Hptr in Hadd. injection Hadd as <-.
    exists heap, heap', shmem, cap1. split; [done|]. split; [done|]. split; [done|]. split; [|done].
    unfold checkResult. rewrite Hret. cbn [Z.eqb negb orb]. by destruct (cap_pptr cap1 =? 0).
  - injection Hr as <- <- <- <-. destruct Ho as (-> & Hl & Hl' & Hc1 & Hc2). right. rewrite Hc1. done.
  - injection Hr as <- <- <- <-. destruct Ho as (-> & Hl & Hl' & Hc1). right. do 3 (split; [done|]).
    unfold checkResult. rewrite (proj2 (Z.eqb_neq _ _) Hc1). by cbn.
Qed.

Lemma freeInHeaps_one (w : W) l1 heap l2 ptr shmem heap' w' :
  Forall (fun h => heapContains h ptr ⇓ false) l1 -> heapContains heap ptr ⇓ true -> Forall (fun h => heapContains h ptr ⇓ false) l2 ->
  arena_free w heap shmem ⇓ (heap', w') -> freeInHeaps w (l1 ++ heap :: l2) ptr shmem ⇓ (l1 ++ heap' :: l2, w').
Proof.
  intros H1' Hh H2' Hf.
  assert (Hno : forall l (w : W), Forall (fun h => heapContains h ptr ⇓ false) l -> freeInHeaps w l ptr shmem ⇓ (l, w)).
  { intros l w0 Hl. induction Hl as [|h l Hin Hl IH]; [done|]. cbn [freeInHeaps]. rewrite Hin. cbn [mbind res_bind]. by rewrite IH. }
  induction H1' as [|h l1 Hin Hl1 IH]; cbn [app freeInHeaps].
  - rewrite Hh. cbn [mbind res_bind]. rewrite Hf. cbn [mbind res_bind]. by rewrite Hno.
  - rewrite Hin. cbn [mbind res_bind]. by rewrite IH.
Qed.

(** Releasing a USM allocation calls its destructor once, if that is wanted and it has
    one, returns its memory to the one heap that contains it, touches no other heap, and
    forgets it; releasing any other pointer, or the same one again, changes nothing. *)
Theorem reapUsmSharedHostAlloc_correct (w : W) c ptr callGpu alloc l1 heap l2 heap' w' :
  usmSharedHostMap c !! ptr = Some alloc -> getSubAllocationPtr (ua_shmem alloc) ⇓ ptr ->
  usmHeaps c = l1 ++ heap :: l2 ->
  Forall (fun h => heapContains h ptr ⇓ false) l1 -> heapContains heap ptr ⇓ true -> Forall (fun h => heapContains h ptr ⇓ false) l2 ->
  arena_free w heap (ua_shmem alloc) ⇓ (heap', w') ->
  exists c', reapUsmSharedHostAlloc w c ptr callGpu
      ⇓ (c', if callGpu && negb (gpuDestructor alloc =? 0) then [CallGpuDestructor (gpuDestructor alloc) (ua_ctx alloc) ptr] else [], w') /\
    usmHeaps c' = l1 ++ heap' :: l2 /\ usmSharedHostMap c' = delete ptr (usmSharedHostMap c) /\
    forall w2 : W, reapUsmSharedHostAlloc w2 c' ptr callGpu ⇓ (c', [], w2).
Proof.
  intros Hm Hptr Hheaps H1' Hh H2' Hf. unfold reapUsmSharedHostAlloc at 1. rewrite Hm, Hptr. cbn [mbind res_bind].
  rewrite Hheaps, (freeInHeaps_one w l1 heap l2 ptr _ heap' w') by done. cbn [mbind res_bind].
  eexists. split; [reflexivity|]. split; [done|]. split; [done|]. intros w2. unfold reapUsmSharedHostAlloc. cbn [usmSharedHostMap set_allocs].
  by rewrite lookup_delete_eq.
Qed.

Lemma cleanupAllocs_calls (w : W) c l c' calls w' :
  cleanupAllocs w c l ⇓ (c', calls, w') ->
  exists ptrs, Forall2 (fun alloc ptr => getSubAllocationPtr (ua_shmem alloc) ⇓ ptr) l ptrs /\
    calls = concat (zip_with (leakedCalls c) l ptrs) /\ tracking c' = tracking c /\
    automaticCleanupOfApiHandles c' = automaticCleanupOfApiHandles c /\ rpcChannels c' = rpcChannels c /\ isStopping c' = isStopping c.
Proof.
  revert w c c' calls w'. induction l as [|alloc l IH]; intros w c c' calls w' Hr; cbn [cleanupAllocs] in Hr.
  { injection Hr as <- <- <-. by exists []. }
  apply res_bind_Ret in Hr as (ptr & Hptr & Hr). apply res_bind_Ret in Hr as ([heaps w1] & Hf & Hr).
  apply res_bind_Ret in Hr as ([[c2 calls2] w2] & Hr2 & Hr). injection Hr as <- <- <-.
  destruct (IH _ _ _ _ _ Hr2) as (ptrs & Hp & -> & Ht & Ha). exists (ptr :: ptrs). split; [by constructor|]. split; [done|]. done.
Qed.

Lemma l0_fields c : usmSharedHostMap (fst (l0SpecificCleanup c)) = usmSharedHostMap c /\ globalShmemsMap (fst (l0SpecificCleanup c)) = globalShmemsMap c /\
  rpcChannels (fst (l0SpecificCleanup c)) = rpcChannels c /\ isStopping (fst (l0SpecificCleanup c)) = isStopping c.
Proof.
  unfold l0SpecificCleanup. destruct (automaticCleanupOfApiHandles c); [done|]. generalize destroyOrder as l. intros l. revert c.
  induction l as [|kind l IH]; intros c; [done|]. cbn [destroyKinds destroyResources].
  match goal with |- context [destroyKinds ?x l] => specialize (IH x); destruct (destroyKinds x l) as [c2 more] end. exact IH.
Qed.

(** After the cleanup of a client nothing is registered for it any more. Of its leaked
    allocations exactly those of Level Zero with a destructor and a context that is still
    tracked have their destructor called, and nothing else is asked of the drivers; without
    automatic cleanup no context is tracked, so the drivers are not asked anything. *)
Theorem cleanup_outcome (w : W) ops c c' calls w' :
  let reached := fold_left applyHandleOp ops (newClientContext (automaticCleanupOfApiHandles c)) in
  tracking c = tracking reached -> cleanup w c ⇓ (c', calls, w') ->
  usmSharedHostMap c' = ∅ /\ globalShmemsMap c' = ∅ /\ rpcChannels c' = [] /\ isStopping c' = true /\
  (exists ptrs, Forall2 (fun alloc ptr => getSubAllocationPtr (ua_shmem alloc) ⇓ ptr) (snd <$> map_to_list (usmSharedHostMap c)) ptrs /\
     calls = concat (zip_with (leakedCalls c) (snd <$> map_to_list (usmSharedHostMap c)) ptrs)) /\
  (automaticCleanupOfApiHandles c = false -> calls = []).
Proof.
  intros reached Htr Hr. unfold cleanup in Hr.
  apply res_bind_Ret in Hr as ([[c1 calls1] w1] & Ha & Hr). apply res_bind_Ret in Hr as (w2 & Hs & Hr).
  destruct (cleanupAllocs_calls _ _ _ _ _ _ Ha) as (ptrs & Hp & Hcalls & Ht1 & Ha1 & Hst). cbn in Ht1, Ha1.
  assert (Hno : l0SpecificCleanup (set_shmems (set_allocs c1 ∅) ∅) = (fst (l0SpecificCleanup (set_shmems (set_allocs c1 ∅) ∅)), [])).
  { unfold l0SpecificCleanup. cbn [set_shmems set_allocs automaticCleanupOfApiHandles]. rewrite Ha1.
    destruct (automaticCleanupOfApiHandles c) eqn:Hauto; [done|]. rewrite (surjective_pairing (destroyKinds _ _)). cbn [fst]. f_equal.
    apply destroyKinds_empty. intros kind. cbn. rewrite Ht1, Htr. unfold reached. by rewrite handle_ops_disabled. }
  rewrite Hno in Hr. injection Hr as <- <- <-. rewrite app_nil_r.
  destruct (l0_fields (set_shmems (set_allocs c1 ∅) ∅)) as (-> & -> & -> & ->). cbn in Hst |- *. destruct Hst as [-> ->].
  do 4 (split; [done|]). split; [by exists ptrs|]. intros Hauto. subst calls1.
  assert (Hnone : forall l (ps : list Z), concat (zip_with (leakedCalls c) l ps) = []).
  { intros l. induction l as [|a l IH]; intros [|p ps]; [done..|]. cbn. rewrite IH, app_nil_r. unfold leakedCalls.
    rewrite Htr. unfold reached. rewrite Hauto, handle_ops_disabled by done. cbn.
    rewrite (bool_decide_eq_false_2 (ua_ctx a ∈ ∅)) by set_solver. by rewrite andb_false_r. }
  apply Hnone.
Qed.

End usm_allocs.

(** * Concrete runs *)

Definition exampleWorld : World Pages.kernel := (Pages.mkPages 0x10000 [], exampleShmem).

(** A heap for addresses from [base] on, with arenas of one megabyte. *)
Definition exampleHeap (w : World Pages.kernel) (base size : Z) : res (UsmHeap * World Pages.kernel) :=
  makeArenaAllocator w (mkBounded tt true (newRangeAllocator (mkRange base (base + size)))) 0x100000.

(** The first heap has room for its entry arena only. *)
Definition exampleContext : res (ClientContext * World Pages.kernel) :=
  '(h1, w) ← exampleHeap exampleWorld 0x40000000 0x1000;
  '(h2, w) ← exampleHeap w 0x50000000 0x200000;
  Ret (addUsmHeap (addUsmHeap (newClientContext true) h1) h2, w).

Definition exampleDriver (d : unit) (args : HostAllocArgs) (ptr : Z) : Z * Z * unit := (0, ptr, d).
Definition exampleFree (d : unit) (ctx ptr : Z) : unit := d.
Definition exampleArgs : HostAllocArgs := mkHostAllocArgs 7 1 100 0 1.
Definition exampleCaptures : Captures := mkCaptures ZE_RESULT_ERROR_OUT_OF_HOST_MEMORY 0 0 0 0.

(** The value of a result that is known to be one. *)
Definition get {A} (r : res A) (d : A) : A := match r with Ret a => a | _ => d end.
Definition is_ret {A} (r : res A) : bool := match r with Ret _ => true | _ => false end.
Lemma get_ret {A} (r : res A) d : is_ret r = true -> r ⇓ get r d.
Proof. by destruct r. Qed.

Definition exampleC : ClientContext := fst (get exampleContext (newClientContext true, exampleWorld)).
Definition exampleW : World Pages.kernel := snd (get exampleContext (newClientContext true, exampleWorld)).

Definition exampleAlloc : res (ClientContext * Captures * World Pages.kernel * unit) :=
  zeMemAllocHostHandler exampleDriver exampleFree false 1 exampleW tt exampleC exampleArgs exampleCaptures.

Definition afterAlloc : ClientContext * Captures * World Pages.kernel * unit := get exampleAlloc (exampleC, exampleCaptures, exampleW, tt).
Definition allocC : ClientContext := fst (fst (fst afterAlloc)).
Definition allocCap : Captures := snd (fst (fst afterAlloc)).
Definition allocW : World Pages.kernel := snd (fst afterAlloc).

Lemma exampleAlloc_returns :
  zeMemAllocHostHandler exampleDriver exampleFree false 1 exampleW tt exampleC exampleArgs exampleCaptures
    ⇓ (allocC, allocCap, allocW, snd afterAlloc).
Proof.
  fold exampleAlloc. rewrite (get_ret exampleAlloc (exampleC, exampleCaptures, exampleW, tt)) by (by vm_compute).
  unfold allocC, allocCap, allocW, afterAlloc. by destruct (get exampleAlloc _) as [[[? ?] ?] ?].
Qed.

(** The second heap serves the request from a new arena. *)
Lemma zeMemAllocHost_outcome_witness :
  cap_ret allocCap = ZE_RESULT_SUCCESS /\
  exists shmem, usmSharedHostMap allocC = <[0x50010000 := mkUsmAlloc 7 shmem LevelZero 1]> (usmSharedHostMap exampleC).
Proof.
  assert (Hret : cap_ret allocCap = ZE_RESULT_SUCCESS /\ cap_pptr allocCap = 0x50010000) by (by vm_compute).
  destruct Hret as [Hret Hptr]. split; [exact Hret|].
  assert (Hd1 : host_desc exampleArgs <> 0) by (by vm_compute). assert (Hd2 : arg_pptr exampleArgs <> 0) by (by vm_compute).
  assert (Hd3 : cap_ret exampleCaptures <> ZE_RESULT_SUCCESS) by (by vm_compute).
  destruct (zeMemAllocHost_outcome exampleDriver exampleFree false 1 exampleW tt exampleC exampleArgs exampleCaptures
              allocC allocCap allocW (snd afterAlloc) Hd1 Hd2 Hd3 exampleAlloc_returns)
    as (l1 & l1' & l2 & w1 & _ & [(heap & heap' & shmem & cap1 & _ & _ & Ht & Hcap & Hm)|(_ & _ & _ & Hno & _)]);
    [|exfalso; exact (Hno Hret)].
  destruct (Z.eqb_spec (cap_pptr cap1) 0); [exfalso; exact (Hcap Hret)|]. exists shmem. by rewrite Hm, <- Hcap, Hptr.
Defined.

Definition allocShmem : UsmAllocation :=
  from_option ua_shmem (mkSub None 0 0 None) (usmSharedHostMap allocC !! 0x50010000).

Lemma reapUsmSharedHostAlloc_correct_witness :
  exists c' w', reapUsmSharedHostAlloc allocW allocC 0x50010000 true ⇓ (c', [CallGpuDestructor 1 7 0x50010000], w') /\
    usmSharedHostMap c' = delete 0x50010000 (usmSharedHostMap allocC).
Proof.
  assert (Hh : exists h1 h2, usmHeaps allocC = [h1; h2]) by (unfold allocC; vm_compute; by eexists _, _).
  destruct Hh as (h1 & h2 & Hh).
  assert (Hl : usmSharedHostMap allocC !! 0x50010000 = Some (mkUsmAlloc 7 allocShmem LevelZero 1)) by (by vm_compute).
  assert (Hin : map (fun h => heapContains h 0x50010000) (usmHeaps allocC) = [Ret false; Ret true]) by (by vm_compute).
  rewrite Hh in Hin. cbn [map] in Hin. 
  pose proof (f_equal (fun l => List.nth 0 l Undef) Hin : heapContains h1 0x50010000 = Ret false) as Hi1.
  pose proof (f_equal (fun l => List.nth 1 l Undef) Hin : heapContains h2 0x50010000 = Ret true) as Hi2.
  assert (Hf : forallb (fun h => is_ret (arena_free allocW h allocShmem)) (drop 1 (usmHeaps allocC)) = true) by (by vm_compute).
  rewrite Hh in Hf. cbn [drop forallb] in Hf. apply andb_true_iff in Hf as [Hf _].
  destruct (arena_free allocW h2 allocShmem) as [[h2' w']| |] eqn:Hfree; [|done|done].
  assert (Hp : getSubAllocationPtr allocShmem ⇓ 0x50010000) by (by vm_compute).
  destruct (reapUsmSharedHostAlloc_correct allocW allocC 0x50010000 true (mkUsmAlloc 7 allocShmem LevelZero 1) [h1] h2 [] h2' w' Hl Hp Hh
              (Forall_cons_2 _ _ _ Hi1 (Forall_nil_2 _)) Hi2 (Forall_nil_2 _) Hfree) as (c' & Hr & _ & Hm & _).
  exists c', w'. split; [exact Hr|exact Hm].
Defined.

(** The client leaves without releasing its allocation, whose context is tracked. *)
Definition trackedC : ClientContext := trackAllocatedResource allocC Context_ 7.

Lemma cleanup_outcome_witness :
  exists c' w', cleanup allocW trackedC ⇓ (c', [CallGpuDestructor 1 7 0x50010000], w') /\ usmSharedHostMap c' = ∅ /\ globalShmemsMap c' = ∅.
Proof.
  pose (r := get (cleanup allocW trackedC) (trackedC, [], allocW)).
  assert (Hr : cleanup allocW trackedC ⇓ (fst (fst r), snd (fst r), snd r)).
  { rewrite (get_ret (cleanup allocW trackedC) (trackedC, [], allocW)) by (by vm_compute). unfold r. by destruct (get _ _) as [[? ?] ?]. }
  assert (Hcalls : snd (fst r) = [CallGpuDestructor 1 7 0x50010000]) by (by vm_compute).
  assert (Ht : tracking trackedC = tracking (fold_left applyHandleOp [Track Context_ 7] (newClientContext true))) by (by vm_compute).
  destruct (cleanup_outcome allocW [Track Context_ 7] trackedC _ _ _ Ht Hr) as (H1 & H2 & _).
  exists (fst (fst r)), (snd r). rewrite Hcalls in Hr. split; [exact Hr|]. by split.
Defined.

(** The heaps are unmapped by the cleanup, but destroying them resets the range of every
    arena: the first page of the first heap is mapped again, for good. *)
Lemma destroyed_heaps_are_mapped_again :
  let r := get (cleanup allocW trackedC) (trackedC, [], allocW) in
  Pages.is_busy (fst (snd r)) 0x40000000 = false /\
  Pages.is_busy (fst (get (destroyHeaps (snd r) (usmHeaps (fst (fst r)))) (snd r))) 0x40000000 = true.
Proof. by vm_compute. Qed.
