(* ===== verification/ModuleCache.v ===== *)
(** The cache of native module binaries of the service ([Provider::ModuleCache]
    of service/service.h, used by [zeModuleCreateHandler] of service/service.cpp):
    what a stored entry remembers of a module description and when it is found. *)

From S2P Require Import Prelude ClientContext.

(** [ze_module_desc_t]: the module's bytes, the build flags when there are some,
    and the specialization constants (ids and values) when there are some. *)
Record ModuleDesc := mkDesc {
  format : Z; pNext : Z; pInputModule : list Z; pBuildFlags : option (list Z); pConstants : option (list (Z * Z)) }.

Definition inputSize (d : ModuleDesc) : Z := Z.of_nat (length (pInputModule d)).

(** A default-constructed entry has null handles and zeros. *)
Record Entry := mkEntry {
  e_hContext : Z; e_hDevice : Z; e_format : Z; e_constants : list (Z * Z); e_inputSize : Z;
  binaryHash : Z; buildOptionsHash : Z; pNativeBinary : list Z; nativeSize : Z }.

Abbreviation Cache := (list Entry).

Section cache.
(** [std::hash<std::string>] *)
Context (hash : list Z -> Z).

Definition compareConstants (c : list (Z * Z)) (e : list (Z * Z)) : bool :=
  Nat.eqb (length c) (length e) &&
  bool_decide (fst <$> c = fst <$> e) && bool_decide (snd <$> c = snd <$> e).

Definition compareDesc (d : ModuleDesc) (e : Entry) : bool :=
  let ret := (format d =? e_format e) && (pNext d =? 0) && (inputSize d =? e_inputSize e) in
  if negb ret then false
  else
    let ret := hash (pInputModule d) =? binaryHash e in
    if negb ret then false
    else
      let ret := match pBuildFlags d with
                 | Some flags => hash flags =? buildOptionsHash e
                 | None => buildOptionsHash e =? 0
                 end in
      if negb ret then false
      else
        match pConstants d with
        | Some constants => compareConstants constants (e_constants e)
        | None => Nat.eqb (length (e_constants e)) 0
        end.

(** The first entry of the device that fits; the context is not compared. *)
Fixpoint find_from (cache : Cache) (hDevice : Z) (d : ModuleDesc) (i : nat) : option nat :=
  match cache with
  | [] => None
  | entry :: cache =>
      if (hDevice =? e_hDevice entry) && compareDesc d entry then Some i else find_from cache hDevice d (S i)
  end.

Definition find (cache : Cache) (hContext hDevice : Z) (desc : option ModuleDesc) : option nat :=
  match desc with
  | None => None
  | Some d => find_from cache hDevice d 0
  end.

Definition entryOf (hContext hDevice : Z) (d : ModuleDesc) (size : Z) (native : list Z) : Entry :=
  mkEntry hContext hDevice (format d) (from_option id [] (pConstants d)) (inputSize d)
    (hash (pInputModule d)) (from_option hash 0 (pBuildFlags d)) native size.

Definition store (cache : Cache) (hContext hDevice : Z) (desc : option ModuleDesc) (size : Z) (native : list Z) : Cache :=
  match desc with
  | None => cache
  | Some d => if negb (pNext d =? 0) then cache else cache ++ [entryOf hContext hDevice d size native]
  end.

(** A request; [phModule], [phBuildLog]: whether the client passed places for the handles.
    The handler dereferences the former to fetch the native binary. *)
Record Request := mkReq { hContext : Z; hDevice : Z; desc : option ModuleDesc; phModule : bool; phBuildLog : bool }.

(** The driver's answer: its result and the handles. *)
Record Answer := mkAnswer { a_ret : Z; a_module : Z; a_buildLog : Z }.

Definition isSuccessful (a : Answer) : bool := a_ret a =? 0.

(** What [zeModuleCreateHandler] asks of the driver: the description of the client
    or the cached binary. *)
Inductive ModuleSource : Type := FromDescription (desc : option ModuleDesc) | FromNative (native : list Z) (size : Z).

Section handler.
(** The driver: whether the module could be created, and its native binary. *)
Context (zeModuleCreate : Z -> Z -> ModuleSource -> Answer) (zeModuleGetNativeBinary : Z -> Z -> ModuleSource -> list Z).

(** The new handles are tracked for the client: a build log even when the creation failed. *)
Definition trackModule (c : ClientContext) (r : Request) (a : Answer) : ClientContext :=
  let c := if isSuccessful a && phModule r then trackAllocatedResource c Module_ (a_module a) else c in
  if phBuildLog r then trackAllocatedResource c ModuleBuildLog (a_buildLog a) else c.

Definition zeModuleCreateHandler (cache : Cache) (c : ClientContext) (r : Request) : res (ModuleSource * Answer * Cache * ClientContext) :=
  match find cache (hContext r) (hDevice r) (desc r) with
  | Some i =>
      match cache !! i with
      | None => Undef
      | Some entry =>
          let source := FromNative (pNativeBinary entry) (nativeSize entry) in
          let a := zeModuleCreate (hContext r) (hDevice r) source in
          Ret (source, a, cache, trackModule c r a)
      end
  | None =>
      let source := FromDescription (desc r) in
      let a := zeModuleCreate (hContext r) (hDevice r) source in
      if isSuccessful a then
        if negb (phModule r) then Undef
        else
          let native := zeModuleGetNativeBinary (hContext r) (hDevice r) source in
          Ret (source, a, store cache (hContext r) (hDevice r) (desc r) (Z.of_nat (length native)) native, trackModule c r a)
      else Ret (source, a, cache, trackModule c r a)
  end.

Fixpoint handleAll (cache : Cache) (c : ClientContext) (l : list Request) : res (Cache * ClientContext) :=
  match l with
  | [] => Ret (cache, c)
  | r :: l => '(_, _, cache, c) ← zeModuleCreateHandler cache c r; handleAll cache c l
  end.

End handler.

(** * Properties *)

Lemma pairs_eq (c e : list (Z * Z)) : fst <$> c = fst <$> e -> snd <$> c = snd <$> e -> c = e.
Proof.
  revert e. induction c as [|[x y] c IH]; intros [|[x' y'] e]; cbn; try done. intros [= -> H1] [= -> H2]. f_equal. by apply IH.
Qed.

(** A description fits a stored entry exactly when the two agree in what the entry keeps. *)
Lemma compareDesc_entryOf d d' ctx dev size native :
  compareDesc d' (entryOf ctx dev d size native) = true <->
  format d' = format d /\ pNext d' = 0 /\ inputSize d' = inputSize d /\ hash (pInputModule d') = hash (pInputModule d) /\
  from_option hash 0 (pBuildFlags d') = from_option hash 0 (pBuildFlags d) /\
  from_option id [] (pConstants d') = from_option id [] (pConstants d).
Proof.
  unfold compareDesc, entryOf. cbn [e_format e_inputSize binaryHash buildOptionsHash e_constants].
  set (hd := hash (pInputModule d)). set (opt := from_option hash 0 (pBuildFlags d)). set (cs := from_option id [] (pConstants d)).
  destruct ((format d' =? format d) && (pNext d' =? 0) && (inputSize d' =? inputSize d)) eqn:H1; cbn [negb].
  2: { split; [done|]. intros (E1 & E2 & E3 & _). rewrite E1, E2, E3, !Z.eqb_refl in H1. done. }
  bool_prop. destruct (Z.eqb_spec (hash (pInputModule d')) hd) as [Hh|Hh]; cbn [negb]; [|split; [done|]; by intros (_ & _ & _ & E & _)].
  assert (Hopt : match pBuildFlags d' with Some flags => hash flags =? opt | None => opt =? 0 end = true <->
                 from_option hash 0 (pBuildFlags d') = opt).
  { destruct (pBuildFlags d') as [f|]; cbn; rewrite Z.eqb_eq; [done|]. by split. }
  destruct (match pBuildFlags d' with Some flags => hash flags =? opt | None => opt =? 0 end); cbn [negb].
  2: { split; [done|]. intros (_ & _ & _ & _ & E & _). apply Hopt in E. done. }
  assert (Hcs : match pConstants d' with Some c => compareConstants c cs | None => Nat.eqb (length cs) 0 end = true <->
                from_option id [] (pConstants d') = cs).
  { destruct (pConstants d') as [c|]; cbn.
    - unfold compareConstants. rewrite !andb_true_iff, Nat.eqb_eq, !bool_decide_eq_true. split.
      + intros [[_ E1] E2]. by apply pairs_eq.
      + intros ->. done.
    - rewrite Nat.eqb_eq. destruct cs; cbn; split; done. }
  rewrite Hcs. assert (Ho : from_option hash 0 (pBuildFlags d') = opt) by (by apply Hopt). tauto.
Qed.

(** What the cache distinguishes descriptions by. *)
Definition key (d : ModuleDesc) : Z * Z * Z * Z * list (Z * Z) :=
  (format d, inputSize d, hash (pInputModule d), from_option hash 0 (pBuildFlags d), from_option id [] (pConstants d)).

Lemma compareDesc_key d d' ctx dev size native :
  compareDesc d' (entryOf ctx dev d size native) = true <-> pNext d' = 0 /\ key d' = key d.
Proof. rewrite compareDesc_entryOf. unfold key. split; [intros (-> & -> & -> & -> & -> & ->); done|by intros [-> [= -> -> -> -> ->]]]. Qed.

(** [find] returns the first entry of the device that fits. *)
Lemma find_from_spec cache dev d i :
  match find_from cache dev d i with
  | Some k => exists n e, k = (i + n)%nat /\ cache !! n = Some e /\ e_hDevice e = dev /\ compareDesc d e = true
  | None => forall e, e ∈ cache -> e_hDevice e = dev -> compareDesc d e = false
  end.
Proof.
  revert i. induction cache as [|e cache IH]; intros i; [by intros e He%elem_of_nil|]. cbn [find_from].
  destruct ((dev =? e_hDevice e) && compareDesc d e) eqn:He.
  - apply andb_true_iff in He as [->%Z.eqb_eq Hc]. exists 0%nat, e. split; [lia|done].
  - specialize (IH (S i)). destruct (find_from cache dev d (S i)) as [k|].
    + destruct IH as (n & e' & -> & Hn & Hd & Hc). exists (S n), e'. split; [lia|done].
    + intros e' [->|Hin]%elem_of_cons Hd; [|by apply IH]. by rewrite Hd, Z.eqb_refl in He.
Qed.

Section driver.
Context (zeModuleCreate : Z -> Z -> ModuleSource -> Answer) (zeModuleGetNativeBinary : Z -> Z -> ModuleSource -> list Z).

Abbreviation handler := (zeModuleCreateHandler zeModuleCreate zeModuleGetNativeBinary).
Abbreviation handled := (handleAll zeModuleCreate zeModuleGetNativeBinary).

(** The driver built the request's description, and the result could be cached. *)
Definition built (r : Request) (d : ModuleDesc) : Prop :=
  desc r = Some d /\ pNext d = 0 /\ isSuccessful (zeModuleCreate (hContext r) (hDevice r) (FromDescription (Some d))) = true.

Definition binaryOf (r : Request) (d : ModuleDesc) : list Z :=
  zeModuleGetNativeBinary (hContext r) (hDevice r) (FromDescription (Some d)).

(** The entries are the binaries of requests, and each description a request could build is
    found. *)
Definition cache_ok (l : list Request) (cache : Cache) : Prop :=
  (forall e, e ∈ cache -> exists r d, r ∈ l /\ built r d /\
     e = entryOf (hContext r) (hDevice r) d (Z.of_nat (length (binaryOf r d))) (binaryOf r d)) /\
  (forall r d, r ∈ l -> built r d -> exists e, e ∈ cache /\ e_hDevice e = hDevice r /\ compareDesc d e = true).

(** A request that adds nothing to the cache. *)
Lemma cache_ok_same l cache r :
  cache_ok l cache -> (forall d, built r d -> exists e, e ∈ cache /\ e_hDevice e = hDevice r /\ compareDesc d e = true) ->
  cache_ok (l ++ [r]) cache.
Proof.
  intros [Hs Hc] Hr. split.
  - intros e He. destruct (Hs e He) as (r' & d & Hin & Hb). exists r', d. split; [apply elem_of_app; by left|done].
  - intros r' d' [Hin| ->%list_elem_of_singleton]%elem_of_app; [by apply Hc|by apply Hr].
Qed.

Lemma cache_ok_store l cache r d :
  cache_ok l cache -> built r d ->
  cache_ok (l ++ [r]) (store cache (hContext r) (hDevice r) (Some d) (Z.of_nat (length (binaryOf r d))) (binaryOf r d)).
Proof.
  intros [Hs Hc] Hb. pose proof Hb as (Hd & Hp & _). unfold store. rewrite (proj2 (Z.eqb_eq _ _) Hp). cbn [negb]. split.
  - intros e [He| ->%list_elem_of_singleton]%elem_of_app.
    + destruct (Hs e He) as (r' & d' & Hin & Hx). exists r', d'. split; [apply elem_of_app; by left|done].
    + exists r, d. split; [apply elem_of_app; right; by left|]. by split.
  - intros r' d' [Hin| ->%list_elem_of_singleton]%elem_of_app Hb'.
    + destruct (Hc r' d' Hin Hb') as (e & He & Hx). exists e. split; [apply elem_of_app; by left|done].
    + destruct Hb' as (H1 & _). rewrite Hd in H1. injection H1 as <-. eexists. split; [apply elem_of_app; right; by left|].
      split; [done|]. by apply compareDesc_key.
Qed.

Lemma handler_ok l cache c r source a cache' c' :
  cache_ok l cache -> handler cache c r ⇓ (source, a, cache', c') -> cache_ok (l ++ [r]) cache'.
Proof.
  intros Hok Hr. unfold zeModuleCreateHandler, find in Hr. destruct (desc r) as [d|] eqn:Hd.
  2: { assert (Heq : cache' = cache) by (destruct (isSuccessful _); [destruct (phModule r)|]; by first [done|injection Hr]).
       subst cache'. apply cache_ok_same; [done|]. intros d [H1 _]. congruence. }
  pose proof (find_from_spec cache (hDevice r) d 0) as Hf. destruct (find_from cache (hDevice r) d 0) as [k|].
  { destruct Hf as (n & e & -> & Hn & He & Hcmp). cbn [Nat.add] in Hr. rewrite Hn in Hr. injection Hr as _ _ <- _.
    apply cache_ok_same; [done|]. intros d' (H1 & _). rewrite Hd in H1. injection H1 as <-.
    exists e. split; [by eapply list_elem_of_lookup_2|done]. }
  destruct (isSuccessful (zeModuleCreate (hContext r) (hDevice r) (FromDescription (Some d)))) eqn:Hz.
  2: { injection Hr as _ _ <- _. apply cache_ok_same; [done|]. intros d' (H1 & _ & H3). rewrite Hd in H1. injection H1 as <-. congruence. }
  destruct (phModule r); [|done]. injection Hr as _ _ <- _. destruct (decide (pNext d = 0)) as [Hp|Hp].
  - by apply (cache_ok_store l cache r d).
  - unfold store. rewrite (proj2 (Z.eqb_neq _ _) Hp). cbn [negb]. apply cache_ok_same; [done|].
    intros d' (H1 & H2 & _). rewrite Hd in H1. injection H1 as <-. done.
Qed.

Lemma handled_ok l c0 cache c : handled [] c0 l ⇓ (cache, c) -> cache_ok l cache.
Proof.
  assert (Hgen : forall l0 x y, cache_ok l0 x -> handled x y l ⇓ (cache, c) -> cache_ok (l0 ++ l) cache).
  { induction l as [|r l IH]; intros l0 x y Hc; cbn [handleAll]; [intros [= <- <-]; by rewrite app_nil_r|].
    intros Hr. apply res_bind_Ret in Hr as ([[[s a] x2] y2] & H1 & Hr). rewrite (cons_middle r l0 l), (assoc_L app).
    apply (IH _ x2 y2); [|exact Hr]. by eapply handler_ok. }
  apply (Hgen [] [] c0). split; [by intros e ?%elem_of_nil|by intros r d ?%elem_of_nil].
Qed.

(** C17: The module cache is sound and complete up to its hashes, whatever modules were
    created before. A module is created from a cached binary exactly when some earlier
    request for the same device built a description with the same format, constants, module
    length, module hash and build-flags hash (the context is not compared), both without
    extension; the binary is then the one the driver made of such a description. Otherwise
    the driver gets the client's description. *)
Theorem module_cache_correct l c0 cache c r d :
  handled [] c0 l ⇓ (cache, c) -> desc r = Some d -> phModule r = true ->
  exists source cache', let a := zeModuleCreate (hContext r) (hDevice r) source in
    handler cache c r ⇓ (source, a, cache', trackModule c r a) /\
    ((source = FromDescription (Some d) /\
      (pNext d = 0 -> forall r' d', r' ∈ l -> built r' d' -> hDevice r' = hDevice r -> key d' <> key d)) \/
     (pNext d = 0 /\ cache' = cache /\ exists r' d', r' ∈ l /\ built r' d' /\ hDevice r' = hDevice r /\ key d' = key d /\
        source = FromNative (binaryOf r' d') (Z.of_nat (length (binaryOf r' d'))))).
Proof.
  intros [Hs Hc]%handled_ok Hd Hm. unfold zeModuleCreateHandler, find. rewrite Hd, Hm. cbn [negb].
  pose proof (find_from_spec cache (hDevice r) d 0) as Hf. destruct (find_from cache (hDevice r) d 0) as [k|].
  - destruct Hf as (n & e & -> & Hn & He & Hcmp). cbn [Nat.add]. rewrite Hn. eexists _, _. cbn zeta. split; [reflexivity|]. right.
    destruct (Hs e) as (r' & d' & Hin & Hb & ->); [by eapply list_elem_of_lookup_2|]. apply compareDesc_key in Hcmp as [Hp Hk].
    split; [done|]. split; [done|]. by exists r', d'.
  - assert (Hmiss : pNext d = 0 -> forall r' d', r' ∈ l -> built r' d' -> hDevice r' = hDevice r -> key d' <> key d).
    { intros Hp r' d' Hin Hb Hdev Hk. destruct (Hc r' d' Hin Hb) as (e & He & Hed & Hcmp).
      destruct (Hs e He) as (r2 & d2 & _ & _ & ->). apply compareDesc_key in Hcmp as [_ Hk2].
      rewrite Hdev in Hed. specialize (Hf _ He Hed). rewrite (proj2 (compareDesc_key d2 d _ _ _ _)) in Hf; [done|]. split; [done|by rewrite <- Hk2]. }
    exists (FromDescription (Some d)). cbn zeta.
    destruct (isSuccessful (zeModuleCreate (hContext r) (hDevice r) (FromDescription (Some d)))); eexists; (split; [reflexivity|by left]).
Qed.

End driver.
End cache.

(** * Concrete runs *)

Definition exampleDesc : ModuleDesc := mkDesc 0 0 [7; 35; 2; 3] (Some [45; 79]) (Some [(1, 64)]).
Definition exampleHash (l : list Z) : Z := fold_left (fun acc x => u64 (acc * 31 + x)) l 17.
Definition exampleRequest (ctx : Z) : Request := mkReq ctx 6 (Some exampleDesc) true true.
Definition exampleCreate (ctx dev : Z) (source : ModuleSource) : Answer := mkAnswer 0 (ctx * 10) 0.

(** The same module for the same device, from two contexts: the second time from the cache. *)
Lemma module_cache_correct_witness :
  exists cache a cache' c',
    handleAll exampleHash exampleCreate (fun ctx _ _ => [1; ctx]) [] (newClientContext false) [exampleRequest 5]
      ⇓ (cache, newClientContext false) /\
    zeModuleCreateHandler exampleHash exampleCreate (fun ctx _ _ => [1; ctx]) cache (newClientContext false) (exampleRequest 7)
      ⇓ (FromNative [1; 5] 2, a, cache', c').
Proof.
  eexists. assert (Hl : handleAll exampleHash exampleCreate (fun ctx _ _ => [1; ctx]) [] (newClientContext false) [exampleRequest 5]
    ⇓ ([entryOf exampleHash 5 6 exampleDesc 2 [1; 5]], newClientContext false)) by reflexivity.
  destruct (module_cache_correct exampleHash exampleCreate (fun ctx _ _ => [1; ctx]) _ _ _ _ (exampleRequest 7) exampleDesc Hl eq_refl eq_refl)
    as (source & c & Hr & [[_ Hno]|(_ & _ & r' & d' & Hin%list_elem_of_singleton & [Hd' _] & _ & _ & Hs)]).
  - exfalso. apply (Hno eq_refl (exampleRequest 5) exampleDesc); [by left|by split; [|split]|done|done].
  - eexists _, c, _. split; [exact Hl|]. subst r'. injection Hd' as <-. subst source. exact Hr.
Defined.
