(* ===== verification/QueueGroups.v ===== *)
(** Spreading the queues of the clients over the engines of the device:
    [parseCommandQueueGroups], [overrideCommandQueueDesc] and
    [overrideCommandListDesc] of the service's [Provider] (service/service.h). *)

From S2P Require Import Prelude.
Local Open Scope Z_scope.

(** Flags of [ze_command_queue_group_properties_t]. *)
Definition FLAG_COMPUTE : Z := 1.
Definition FLAG_COPY : Z := 2.

Record GroupProperties := mkProps { flags : Z; numQueues : Z }.

Definition hasFlag (p : GroupProperties) (f : Z) : bool := negb (Z.land (flags p) f =? 0).

Record CommandQueueGroups := mkGroups {
  copyRoundRobinEnabled : bool; selector : Z;
  copyGroupIndex : Z; linkedCopyGroupIndex : Z; numLinkedCopyEngines : Z;
  computeRoundRobinEnabled : bool; computeSelector : Z;
  computeGroupindex : Z; numComputeEngines : Z; initialized : bool }.

Definition newGroups (copyRoundRobin computeRoundRobin : bool) : CommandQueueGroups :=
  mkGroups copyRoundRobin 0 u32_max u32_max u32_max computeRoundRobin 0 u32_max u32_max false.

Definition set_copyGroup (g : CommandQueueGroups) (i : Z) : CommandQueueGroups :=
  mkGroups (copyRoundRobinEnabled g) (selector g) i (linkedCopyGroupIndex g) (numLinkedCopyEngines g)
    (computeRoundRobinEnabled g) (computeSelector g) (computeGroupindex g) (numComputeEngines g) (initialized g).
Definition set_linkedCopyGroup (g : CommandQueueGroups) (i n : Z) : CommandQueueGroups :=
  mkGroups (copyRoundRobinEnabled g) (selector g) (copyGroupIndex g) i n
    (computeRoundRobinEnabled g) (computeSelector g) (computeGroupindex g) (numComputeEngines g) (initialized g).
Definition set_computeGroup (g : CommandQueueGroups) (i n : Z) : CommandQueueGroups :=
  mkGroups (copyRoundRobinEnabled g) (selector g) (copyGroupIndex g) (linkedCopyGroupIndex g) (numLinkedCopyEngines g)
    (computeRoundRobinEnabled g) (computeSelector g) i n (initialized g).
Definition set_initialized (g : CommandQueueGroups) : CommandQueueGroups :=
  mkGroups (copyRoundRobinEnabled g) (selector g) (copyGroupIndex g) (linkedCopyGroupIndex g) (numLinkedCopyEngines g)
    (computeRoundRobinEnabled g) (computeSelector g) (computeGroupindex g) (numComputeEngines g) true.
Definition set_selectors (g : CommandQueueGroups) (s c : Z) : CommandQueueGroups :=
  mkGroups (copyRoundRobinEnabled g) s (copyGroupIndex g) (linkedCopyGroupIndex g) (numLinkedCopyEngines g)
    (computeRoundRobinEnabled g) c (computeGroupindex g) (numComputeEngines g) (initialized g).

(** One group of the device. *)
Definition parseGroup (g : CommandQueueGroups) (i : Z) (p : GroupProperties) : CommandQueueGroups :=
  let g := if hasFlag p FLAG_COPY && negb (hasFlag p FLAG_COMPUTE)
           then if numQueues p =? 1 then set_copyGroup g i else set_linkedCopyGroup g i (numQueues p)
           else g in
  if hasFlag p FLAG_COMPUTE then set_computeGroup g i (numQueues p) else g.

Fixpoint parseGroups (g : CommandQueueGroups) (i : Z) (l : list GroupProperties) : CommandQueueGroups :=
  match l with
  | [] => g
  | p :: l => parseGroups (parseGroup g i p) (u32 (i + 1)) l
  end.

Definition allKnown (g : CommandQueueGroups) : bool :=
  negb (copyGroupIndex g =? u32_max) && negb (linkedCopyGroupIndex g =? u32_max) && negb (numLinkedCopyEngines g =? u32_max) &&
  negb (computeGroupindex g =? u32_max) && negb (numComputeEngines g =? u32_max).

(** [None] for null pointers. *)
Definition parseCommandQueueGroups (g : CommandQueueGroups) (properties : option (list GroupProperties)) : CommandQueueGroups :=
  match properties with
  | None => g
  | Some l =>
      if initialized g then g
      else let g := parseGroups g 0 l in if allKnown g then set_initialized g else g
  end.

(** The client's choice, made once: [numeric_limits::max] before. *)
Record ClientQueues := mkClientQueues { copyCommandQueueGroupIndex : Z; computeCommandQueueGroupIndex : Z }.

Definition newClientQueues : ClientQueues := mkClientQueues u32_max u32_max.

Record QueueDesc := mkQueueDesc { ordinal : Z; index : Z }.

(** [% 0] is undefined. *)
Definition u32_mod (a b : Z) : res Z := if b =? 0 then Undef else Ret (a mod b).

(** The copy engine of the client, chosen when there is none yet: [index] is what the thread
    read before it took the lock, and it is not read again under the lock. *)
Definition chooseCopy (index : Z) (g : CommandQueueGroups) (c : ClientQueues) : res (Z * CommandQueueGroups * ClientQueues) :=
  if index =? u32_max then
    i ← u32_mod (selector g) (u32 (numLinkedCopyEngines g + 1));
    Ret (i, set_selectors g (u32 (selector g + 1)) (computeSelector g), mkClientQueues i (computeCommandQueueGroupIndex c))
  else Ret (index, g, c).

Definition copyIndex (g : CommandQueueGroups) (c : ClientQueues) : res (Z * CommandQueueGroups * ClientQueues) :=
  chooseCopy (copyCommandQueueGroupIndex c) g c.

Definition computeIndex (g : CommandQueueGroups) (c : ClientQueues) : res (Z * CommandQueueGroups * ClientQueues) :=
  let i := computeCommandQueueGroupIndex c in
  if i =? u32_max then
    i ← u32_mod (computeSelector g) (numComputeEngines g);
    Ret (i, set_selectors g (selector g) (u32 (computeSelector g + 1)), mkClientQueues (copyCommandQueueGroupIndex c) i)
  else Ret (i, g, c).

Definition isCopyGroup (g : CommandQueueGroups) (o : Z) : bool := (o =? copyGroupIndex g) || (o =? linkedCopyGroupIndex g).

Definition overrideCommandQueueDesc (g : CommandQueueGroups) (c : ClientQueues) (d : QueueDesc)
  : res (QueueDesc * CommandQueueGroups * ClientQueues) :=
  if negb (initialized g) then Ret (d, g, c)
  else if isCopyGroup g (ordinal d) && copyRoundRobinEnabled g then
    '(i, g, c) ← copyIndex g c;
    Ret (if i =? 0 then mkQueueDesc (copyGroupIndex g) 0 else mkQueueDesc (linkedCopyGroupIndex g) (u32 (i - 1)), g, c)
  else if (ordinal d =? computeGroupindex g) && computeRoundRobinEnabled g then
    '(i, g, c) ← computeIndex g c; Ret (mkQueueDesc (ordinal d) i, g, c)
  else Ret (d, g, c).

(** A command list only names the group. *)
Definition overrideCommandListDesc (g : CommandQueueGroups) (c : ClientQueues) (commandQueueGroupOrdinal : Z)
  : res (Z * CommandQueueGroups * ClientQueues) :=
  if negb (initialized g) || negb (isCopyGroup g commandQueueGroupOrdinal) || negb (copyRoundRobinEnabled g)
  then Ret (commandQueueGroupOrdinal, g, c)
  else
    '(i, g, c) ← copyIndex g c;
    Ret (if i =? 0 then copyGroupIndex g else linkedCopyGroupIndex g, g, c).

(** * Properties *)

(** A device as the driver describes it: each group has queues, and there are few. *)
Definition device_ok (l : list GroupProperties) : Prop :=
  Z.of_nat (length l) < u32_max /\ Forall (fun p => 1 <= numQueues p < u32_max) l.

Definition has_queue (l : list GroupProperties) (o i : Z) : Prop :=
  0 <= o /\ exists p, l !! Z.to_nat o = Some p /\ 0 <= i < numQueues p.

(** The groups name groups of the device, with their numbers of queues. *)
Record groups_ok (l : list GroupProperties) (g : CommandQueueGroups) : Prop := mkGroupsOk {
  go_copy : copyGroupIndex g <> u32_max -> has_queue l (copyGroupIndex g) 0;
  go_linked : linkedCopyGroupIndex g <> u32_max ->
    0 <= linkedCopyGroupIndex g /\ exists p, l !! Z.to_nat (linkedCopyGroupIndex g) = Some p /\ numQueues p = numLinkedCopyEngines g;
  go_compute : computeGroupindex g <> u32_max ->
    0 <= computeGroupindex g /\ exists p, l !! Z.to_nat (computeGroupindex g) = Some p /\ numQueues p = numComputeEngines g;
  go_known : initialized g = true -> allKnown g = true;
  go_selectors : 0 <= selector g /\ 0 <= computeSelector g }.

Lemma parseGroup_ok l g i p : device_ok l -> 0 <= i -> l !! Z.to_nat i = Some p -> initialized g = false ->
  groups_ok l g -> groups_ok l (parseGroup g i p) /\ initialized (parseGroup g i p) = false.
Proof.
  intros [_ Hq] Hi Hp Hin [H1 H2 H3 H4 H5]. assert (Hn : 1 <= numQueues p < u32_max).
  { rewrite Forall_forall in Hq. apply Hq. by eapply list_elem_of_lookup_2. }
  unfold parseGroup.
  set (g1 := if hasFlag p FLAG_COPY && _ then _ else g).
  assert (Hg1 : groups_ok l g1 /\ initialized g1 = false).
  { unfold g1. destruct (_ && _); [|by split; [constructor|]].
    destruct (Z.eqb_spec (numQueues p) 1); (split; [constructor; cbn; try done|done]).
    - intros _. split; [done|]. exists p. split; [done|lia].
    - by rewrite Hin.
    - intros _. split; [done|]. by exists p.
    - by rewrite Hin. }
  destruct Hg1 as [[K1 K2 K3 K4 K5] Hin1]. destruct (hasFlag p FLAG_COMPUTE); [|by split; [constructor|]].
  split; [constructor; cbn; try done|done].
  - intros _. split; [done|]. by exists p.
  - by rewrite Hin1.
Qed.

Lemma parseGroups_ok l pre rest g : device_ok l -> l = pre ++ rest -> initialized g = false -> groups_ok l g ->
  groups_ok l (parseGroups g (Z.of_nat (length pre)) rest) /\ initialized (parseGroups g (Z.of_nat (length pre)) rest) = false.
Proof.
  intros Hl. revert pre g. induction rest as [|p rest IH]; intros pre g Heq Hin Hg; [done|]. cbn [parseGroups].
  assert (Hlen : Z.of_nat (length pre) + 1 < W32).
  { destruct Hl as [Hl _]. unfold u32_max in Hl. rewrite Heq, length_app in Hl. cbn [length] in Hl. lia. }
  destruct (parseGroup_ok l g (Z.of_nat (length pre)) p Hl ltac:(lia)) as [Hg' Hin']; [|done|done|].
  { rewrite Nat2Z.id, Heq. by rewrite list_lookup_middle. }
  rewrite u32_id by (word_unfold; lia). replace (Z.of_nat (length pre) + 1) with (Z.of_nat (length (pre ++ [p]))) by (rewrite length_app; cbn; lia).
  apply IH; [by rewrite <- (assoc_L app)|done|done].
Qed.

(** The choice of a client is one of the engines. *)
Definition client_ok (g : CommandQueueGroups) (c : ClientQueues) : Prop :=
  (copyCommandQueueGroupIndex c = u32_max \/ 0 <= copyCommandQueueGroupIndex c <= numLinkedCopyEngines g) /\
  (computeCommandQueueGroupIndex c = u32_max \/ 0 <= computeCommandQueueGroupIndex c < numComputeEngines g).

(** Everything but the selectors. *)
Definition same_groups (g g' : CommandQueueGroups) : Prop := set_selectors g' (selector g) (computeSelector g) = g.

Lemma groups_ok_selectors l g s c : 0 <= s -> 0 <= c -> groups_ok l g -> groups_ok l (set_selectors g s c).
Proof. intros Hs Hc [H1 H2 H3 H4 H5]. constructor; cbn; try done. Qed.

Lemma copyIndex_ok l g c : device_ok l -> groups_ok l g -> initialized g = true -> client_ok g c ->
  exists i g' c', copyIndex g c ⇓ (i, g', c') /\ 0 <= i <= numLinkedCopyEngines g /\ copyCommandQueueGroupIndex c' = i /\
    (copyCommandQueueGroupIndex c = u32_max -> i = selector g mod (numLinkedCopyEngines g + 1)) /\
    groups_ok l g' /\ same_groups g g' /\ client_ok g' c'.
Proof.
  intros [_ Hq] Hg Hin [Hc1 Hc2]. pose proof Hg as [_ H2 _ H4 [H5 H6]]. specialize (H4 Hin). unfold allKnown in H4. bool_prop.
  assert (Hn : 1 <= numLinkedCopyEngines g < u32_max).
  { destruct H2 as (_ & p & Hp & Hpn); [done|]. rewrite <- Hpn. rewrite Forall_forall in Hq. apply Hq. by eapply list_elem_of_lookup_2. }
  unfold copyIndex, chooseCopy, u32_mod. destruct (Z.eqb_spec (copyCommandQueueGroupIndex c) u32_max) as [He|He].
  - rewrite (u32_id (numLinkedCopyEngines g + 1)) by (word_unfold; lia). rewrite (proj2 (Z.eqb_neq _ _)) by lia. cbn [mbind res_bind].
    pose proof (Z.mod_pos_bound (selector g) (numLinkedCopyEngines g + 1) ltac:(lia)) as Hb.
    eexists _, _, _. split; [reflexivity|]. split; [lia|]. split; [done|]. split; [done|].
    split; [apply groups_ok_selectors; [apply u32_range|done|done]|]. split; [by destruct g|]. split; cbn; [right; lia|done].
  - destruct Hc1 as [|Hc1]; [done|]. eexists _, _, _. split; [reflexivity|]. do 4 (split; [done|]). split; [by destruct g|]. by split; [right|].
Qed.

Lemma computeIndex_ok l g c : device_ok l -> groups_ok l g -> initialized g = true -> client_ok g c ->
  exists i g' c', computeIndex g c ⇓ (i, g', c') /\ 0 <= i < numComputeEngines g /\ computeCommandQueueGroupIndex c' = i /\
    (computeCommandQueueGroupIndex c = u32_max -> i = computeSelector g mod numComputeEngines g) /\
    groups_ok l g' /\ same_groups g g' /\ client_ok g' c'.
Proof.
  intros [_ Hq] Hg Hin [Hc1 Hc2]. pose proof Hg as [_ _ H3 H4 [H5 H6]]. specialize (H4 Hin). unfold allKnown in H4. bool_prop.
  assert (Hn : 1 <= numComputeEngines g < u32_max).
  { destruct H3 as (_ & p & Hp & Hpn); [done|]. rewrite <- Hpn. rewrite Forall_forall in Hq. apply Hq. by eapply list_elem_of_lookup_2. }
  unfold computeIndex, u32_mod. destruct (Z.eqb_spec (computeCommandQueueGroupIndex c) u32_max) as [He|He].
  - rewrite (proj2 (Z.eqb_neq _ _)) by lia. cbn [mbind res_bind].
    pose proof (Z.mod_pos_bound (computeSelector g) (numComputeEngines g) ltac:(lia)) as Hb.
    eexists _, _, _. split; [reflexivity|]. split; [lia|]. split; [done|]. split; [done|].
    split; [apply groups_ok_selectors; [done|apply u32_range|done]|]. split; [by destruct g|]. split; cbn; [done|right; lia].
  - destruct Hc2 as [|Hc2]; [done|]. eexists _, _, _. split; [reflexivity|]. do 4 (split; [done|]). split; [by destruct g|]. by split; [|right].
Qed.

Lemma mod_succ_neq (s n : Z) : 2 <= n -> s mod n <> (s + 1) mod n.
Proof.
  intros Hn E. assert (E1 : (s + 1 - s) mod n = 0) by (by rewrite Zminus_mod, E, Z.sub_diag, Z.mod_0_l by lia).
  replace (s + 1 - s) with 1 in E1 by ring. by rewrite Z.mod_1_l in E1 by lia.
Qed.

(** Two threads of a client that both read the unset index before either takes the lock are
    given two different engines, and the later one's choice replaces the earlier one's. *)
Lemma copyIndex_race g c : copyCommandQueueGroupIndex c = u32_max -> 0 <= selector g < u32_max ->
  1 <= numLinkedCopyEngines g < u32_max ->
  exists i j g1 c1 g2 c2, chooseCopy (copyCommandQueueGroupIndex c) g c ⇓ (i, g1, c1) /\
    chooseCopy (copyCommandQueueGroupIndex c) g1 c1 ⇓ (j, g2, c2) /\ i <> j /\
    copyCommandQueueGroupIndex c2 = j /\ selector g2 = u32 (selector g + 2).
Proof.
  intros Hc Hs Hn. unfold chooseCopy, u32_mod. rewrite Hc, Z.eqb_refl.
  rewrite (u32_id (numLinkedCopyEngines g + 1)) by (word_unfold; lia). rewrite (proj2 (Z.eqb_neq _ _)) by lia. cbn [mbind res_bind].
  eexists _, _, _, _, _, _. split; [reflexivity|]. cbn [numLinkedCopyEngines selector set_selectors].
  rewrite (u32_id (numLinkedCopyEngines g + 1)) by (word_unfold; lia). rewrite (proj2 (Z.eqb_neq _ _)) by lia. cbn [mbind res_bind].
  rewrite (u32_id (selector g + 1)) by (word_unfold; lia).
  split; [reflexivity|]. cbn. split; [|split; [done|by rewrite <- Z.add_assoc]].
  set (n := numLinkedCopyEngines g + 1). assert (Hn2 : 2 <= n) by lia. clearbody n. intros E.
  by apply (mod_succ_neq (selector g) n).
Qed.

(** Whatever groups the device has, and whichever client asks for a queue of whichever
    group: once the groups are known, overriding the description never fails, leaves the
    groups and the client's choice in order, and turns a description of an existing queue
    into one of an existing queue, so that no client is sent to an engine that is not there.
    The choice is made once for a client, round robin over the engines of the group. *)
Theorem overrideCommandQueueDesc_in_range l g c d :
  device_ok l -> groups_ok l g -> client_ok g c -> has_queue l (ordinal d) (index d) ->
  exists d' g' c', overrideCommandQueueDesc g c d ⇓ (d', g', c') /\ has_queue l (ordinal d') (index d') /\
    groups_ok l g' /\ client_ok g' c' /\ same_groups g g' /\
    (initialized g = true -> computeRoundRobinEnabled g = true -> copyRoundRobinEnabled g = false -> ordinal d = computeGroupindex g ->
       computeCommandQueueGroupIndex c = u32_max -> index d' = computeSelector g mod numComputeEngines g /\
       overrideCommandQueueDesc g' c' d ⇓ (d', g', c')).
Proof.
  intros Hl Hg Hc Hd. unfold overrideCommandQueueDesc. destruct (initialized g) eqn:Hin; cbn [negb].
  2: { exists d, g, c. do 4 (split; [done|]). split; [by destruct g|done]. }
  pose proof Hg as [Hg1 Hg2 Hg3 Hg4 Hg5]. pose proof (Hg4 Hin) as Hk. unfold allKnown in Hk. bool_prop.
  destruct (isCopyGroup g (ordinal d) && copyRoundRobinEnabled g) eqn:Hcopy.
  - destruct (copyIndex_ok l g c Hl Hg Hin Hc) as (i & g' & c' & Hi & Hb & _ & _ & Hg' & Hs & Hc'). rewrite Hi. cbn [mbind res_bind].
    eexists _, g', c'. split; [reflexivity|].
    assert (Hsame : copyGroupIndex g' = copyGroupIndex g /\ linkedCopyGroupIndex g' = linkedCopyGroupIndex g).
    { unfold same_groups in Hs. rewrite <- Hs. by cbn. }
    destruct Hsame as [-> ->]. split; [|split; [done|]; split; [done|]; split; [done|]].
    + destruct (Z.eqb_spec i 0); cbn [ordinal index]; [by apply Hg1|].
      destruct Hg2 as (Ho0 & p & Hp & Hn); [done|]. split; [done|]. exists p. split; [done|].
      assert (numLinkedCopyEngines g < u32_max) by (destruct Hl as [_ Hq]; rewrite Forall_forall in Hq; rewrite <- Hn; apply Hq; by eapply list_elem_of_lookup_2).
      rewrite u32_id by (word_unfold; lia). lia.
    + intros _ _ Hoff. apply andb_true_iff in Hcopy as [_ Hon]. congruence.
  - destruct ((ordinal d =? computeGroupindex g) && computeRoundRobinEnabled g) eqn:Hcomp.
    + destruct (computeIndex_ok l g c Hl Hg Hin Hc) as (i & g' & c' & Hi & Hb & Hci & Hrr & Hg' & Hs & Hc'). rewrite Hi. cbn [mbind res_bind].
      eexists _, g', c'. split; [reflexivity|]. apply andb_true_iff in Hcomp as [Ho%Z.eqb_eq Hon]. cbn [ordinal index].
      split; [|split; [done|]; split; [done|]; split; [done|]].
      * rewrite Ho. destruct Hg3 as (Ho0 & p & Hp & Hn); [done|]. split; [done|]. exists p. split; [done|lia].
      * intros _ _ Hoff _ Hmax. split; [by apply Hrr|].
        assert (Hsame : initialized g' = true /\ copyRoundRobinEnabled g' = false /\ computeGroupindex g' = computeGroupindex g /\
                        computeRoundRobinEnabled g' = true /\ numComputeEngines g' = numComputeEngines g).
        { pose proof (f_equal initialized Hs). pose proof (f_equal copyRoundRobinEnabled Hs). pose proof (f_equal computeGroupindex Hs).
          pose proof (f_equal computeRoundRobinEnabled Hs). pose proof (f_equal numComputeEngines Hs). cbn in *. by repeat split; congruence. }
        destruct Hsame as (-> & -> & -> & -> & Hn'). rewrite andb_false_r. cbn [negb]. rewrite Ho, Z.eqb_refl. cbn [andb].
        unfold computeIndex. rewrite Hci. assert (i <> u32_max).
        { destruct Hg3 as (_ & p & Hp & Hn); [done|]. destruct Hl as [_ Hq]. rewrite Forall_forall in Hq.
          specialize (Hq p ltac:(by eapply list_elem_of_lookup_2)). lia. }
        by rewrite (proj2 (Z.eqb_neq _ _)).
    + exists d, g, c. do 4 (split; [done|]). split; [by destruct g|]. intros _ Hon _ Ho. apply andb_false_iff in Hcomp as [Hx|Hx]; [|congruence].
      by apply Z.eqb_neq in Hx.
Qed.

(** The parsed groups, known or not. *)
Lemma parsed_ok l copyRoundRobin computeRoundRobin :
  device_ok l ->
  let g := parseCommandQueueGroups (newGroups copyRoundRobin computeRoundRobin) (Some l) in
  groups_ok l g /\ client_ok g newClientQueues /\ initialized g = allKnown g.
Proof.
  intros Hl. cbn zeta. unfold parseCommandQueueGroups. cbn [newGroups initialized].
  assert (Hnew : groups_ok l (newGroups copyRoundRobin computeRoundRobin)) by (constructor; cbn; done).
  destruct (parseGroups_ok l [] l (newGroups copyRoundRobin computeRoundRobin) Hl eq_refl eq_refl Hnew) as [[H1 H2 H3 H4 H5] Hin].
  cbn [length] in *. change (Z.of_nat 0) with 0 in *.
  set (g := parseGroups (newGroups copyRoundRobin computeRoundRobin) 0 l) in *.
  destruct (allKnown g) eqn:Hk.
  - split; [constructor; cbn; done|]. split; [by split; left|by cbn].
  - split; [constructor; try done; congruence|]. split; [by split; left|by rewrite Hin, Hk].
Qed.

(** C18: Parsing the properties of a device, from the initial state, gives groups in order:
    each index that is set names a group of the device with its number of queues, and the
    groups count as known only when all of them are; once they are known, no other device
    changes them. *)
Theorem parseCommandQueueGroups_ok l copyRoundRobin computeRoundRobin :
  device_ok l ->
  let g := parseCommandQueueGroups (newGroups copyRoundRobin computeRoundRobin) (Some l) in
  groups_ok l g /\ client_ok g newClientQueues /\ (initialized g = true <-> allKnown g = true) /\
  (initialized g = true -> forall other, parseCommandQueueGroups g other = g).
Proof.
  intros Hl g. destruct (parsed_ok l copyRoundRobin computeRoundRobin Hl) as (H1 & H2 & H3). fold g in H1, H2, H3.
  split; [exact H1|]. split; [exact H2|]. split; [by rewrite H3|]. intros Hi [other|]; unfold parseCommandQueueGroups; [by rewrite Hi|done].
Qed.

(** * Concrete runs *)

(** A compute group with four engines, a copy engine and a group of seven linked ones. *)
Definition exampleDevice : list GroupProperties := [mkProps 3 4; mkProps 2 1; mkProps 2 7].
Definition exampleGroups : CommandQueueGroups := parseCommandQueueGroups (newGroups false true) (Some exampleDevice).

Lemma exampleDevice_ok : device_ok exampleDevice.
Proof. split; [by vm_compute|]. repeat (constructor; [cbn; unfold u32_max; lia|]). constructor. Qed.

Lemma parseCommandQueueGroups_ok_witness :
  groups_ok exampleDevice exampleGroups /\ initialized exampleGroups = true /\
  parseCommandQueueGroups exampleGroups (Some []) = exampleGroups.
Proof.
  destruct (parseCommandQueueGroups_ok exampleDevice false true exampleDevice_ok) as (H1 & _ & _ & H4).
  split; [exact H1|]. split; [by vm_compute|]. apply H4. by vm_compute.
Defined.

Lemma overrideCommandQueueDesc_in_range_witness :
  exists d' g' c', overrideCommandQueueDesc exampleGroups newClientQueues (mkQueueDesc 0 3) ⇓ (d', g', c') /\
    has_queue exampleDevice (ordinal d') (index d') /\ index d' = 0.
Proof.
  destruct (parsed_ok exampleDevice false true exampleDevice_ok) as (H1 & H2 & _).
  destruct (overrideCommandQueueDesc_in_range exampleDevice exampleGroups newClientQueues (mkQueueDesc 0 3) exampleDevice_ok H1 H2)
    as (d' & g' & c' & Hr & Hq & _ & _ & _ & Hrr).
  - split; [done|]. exists (mkProps 3 4). split; [done|cbn; lia].
  - exists d', g', c'. split; [exact Hr|]. split; [exact Hq|]. apply Hrr; by vm_compute.
Defined.
