(* ===== verification/Spectacles.v ===== *)
(** How the service assigns its clients to spectacles
    ([Provider::assignToSpectacle] of service/service.h): spectacles recruit the
    processes of a parent, or the processes of a name, until they are full.
    Choreographies and spectacles themselves are interfaces of
    service/cochoreographer.h whose implementations are not part of the code. *)

From stdpp Require Import gmap strings.
From S2P Require Import Prelude.
Local Open Scope Z_scope.

(** [IChoreography], [ISpectacle] and [ChoreographyLibrary]: an operation that
    changes a spectacle returns the new one. *)
Class Choreographies (C S M : Type) := {
  recruitByPpid : C -> bool;
  recruitByName : C -> bool;
  createSpectacle : C -> S;
  isStillRecruting : S -> bool;
  addNewMember : S -> option M * S;
  getChoreography : S -> C;
  known : string -> option C
}.

(** A spectacle keeps its choreography. *)
Class ChoreographyLaws (C S M : Type) `{Choreographies C S M} : Prop := {
  created_choreography : forall c, getChoreography (createSpectacle c) = c;
  member_choreography : forall s, getChoreography (snd (addNewMember s)) = getChoreography s
}.

Record Spectacles (S : Type) := mkSpectacles {
  recrutingByPpid : gmap Z S;
  recrutingByName : gmap string S;
  pidToPpidMapForNewSpectacles : gmap Z Z;
  active : list S
}.
Arguments mkSpectacles {S} recrutingByPpid recrutingByName pidToPpidMapForNewSpectacles active.
Arguments recrutingByPpid {S} s.
Arguments recrutingByName {S} s.
Arguments pidToPpidMapForNewSpectacles {S} s.
Arguments active {S} s.

Inductive Found : Type := FoundByPpid (key : Z) | FoundByName | NotFound.

Section spectacles.
Context {C S M : Type} `{Choreographies C S M}.
(** Whether [assert] is compiled in. *)
Context (asserts : bool).
Abbreviation state := (Spectacles S).

(** The recruiter of a sibling, of a child, or of the parent. *)
Definition findByPpid (st : state) (ppid pid : Z) : res (option Z) :=
  match recrutingByPpid st !! ppid with
  | Some _ => Ret (Some ppid)
  | None =>
      match recrutingByPpid st !! pid with
      | Some _ => Ret (Some pid)
      | None =>
          match pidToPpidMapForNewSpectacles st !! ppid with
          | None => Ret None
          | Some grandparent =>
              match recrutingByPpid st !! grandparent with
              | Some _ => Ret (Some grandparent)
              | None => if asserts then Abort else Ret None
              end
          end
      end
  end.

Definition findRecruiter (st : state) (ppid pid : Z) (name : string) : res Found :=
  key ← findByPpid st ppid pid;
  match key with
  | Some key => Ret (FoundByPpid key)
  | None => Ret (match recrutingByName st !! name with Some _ => FoundByName | None => NotFound end)
  end.

Definition spectacleAt (st : state) (name : string) (f : Found) : option S :=
  match f with
  | FoundByPpid key => recrutingByPpid st !! key
  | FoundByName => recrutingByName st !! name
  | NotFound => None
  end.

(** The spectacle behind the iterator changes in place. *)
Definition update (st : state) (name : string) (f : Found) (s : S) : state :=
  match f with
  | FoundByPpid key => mkSpectacles (<[key := s]> (recrutingByPpid st)) (recrutingByName st) (pidToPpidMapForNewSpectacles st) (active st)
  | FoundByName => mkSpectacles (recrutingByPpid st) (<[name := s]> (recrutingByName st)) (pidToPpidMapForNewSpectacles st) (active st)
  | NotFound => st
  end.

(** A spectacle that recruits no more becomes active.  Which iterator is erased
    depends on the choreography: erasing [end()] is undefined. *)
Definition retire (st : state) (ppid : Z) (name : string) (f : Found) (s : S) : res state :=
  if recruitByPpid (getChoreography s) then
    match f with
    | FoundByPpid key =>
        Ret (mkSpectacles (delete key (recrutingByPpid st)) (recrutingByName st)
               (delete ppid (pidToPpidMapForNewSpectacles st)) (active st ++ [s]))
    | _ => Undef
    end
  else
    match f with
    | FoundByName =>
        Ret (mkSpectacles (recrutingByPpid st) (delete name (recrutingByName st))
               (pidToPpidMapForNewSpectacles st) (active st ++ [s]))
    | _ => Undef
    end.

Definition startSpectacle (st : state) (ppid pid : Z) (name : string) : option M * state :=
  match known name with
  | None => (None, st)
  | Some choreography =>
      let (newMember, s) := addNewMember (createSpectacle choreography) in
      (newMember,
       if recruitByPpid choreography then
         mkSpectacles (<[ppid := s]> (recrutingByPpid st)) (recrutingByName st)
           (<[pid := ppid]> (pidToPpidMapForNewSpectacles st)) (active st)
       else if recruitByName choreography then
         mkSpectacles (recrutingByPpid st) (<[name := s]> (recrutingByName st)) (pidToPpidMapForNewSpectacles st) (active st)
       else mkSpectacles (recrutingByPpid st) (recrutingByName st) (pidToPpidMapForNewSpectacles st) (active st ++ [s]))
  end.

(** The member the client is assigned to, if any. *)
Definition assignToSpectacle (st : state) (ppid pid : Z) (name : string) : res (option M * state) :=
  f ← findRecruiter st ppid pid name;
  match spectacleAt st name f with
  | None => Ret (startSpectacle st ppid pid name)
  | Some s =>
      let (newMember, s) := if isStillRecruting s then addNewMember s else (None, s) in
      match newMember with
      | Some m => Ret (Some m, update st name f s)
      | None => st ← retire st ppid name f s; Ret (startSpectacle st ppid pid name)
      end
  end.

(** * Properties *)

(** Every spectacle of the service. *)
Definition all (st : state) : list S :=
  (snd <$> map_to_list (recrutingByPpid st)) ++ (snd <$> map_to_list (recrutingByName st)) ++ active st.

(** The recruiting spectacles are where their choreographies say. *)
Definition sorted_out (st : state) : Prop :=
  (forall k s, recrutingByPpid st !! k = Some s -> recruitByPpid (getChoreography s) = true) /\
  (forall n s, recrutingByName st !! n = Some s -> recruitByPpid (getChoreography s) = false).

(** No assertion fails: the parent's recruiter is still there. *)
Definition parents_known (st : state) (ppid pid : Z) : Prop :=
  asserts = true -> forall g, recrutingByPpid st !! ppid = None -> recrutingByPpid st !! pid = None ->
    pidToPpidMapForNewSpectacles st !! ppid = Some g -> is_Some (recrutingByPpid st !! g).

(** A new spectacle would replace the one that recruits by the same name. *)
Definition replaces (st : state) (ppid pid : Z) (name : string) : Prop :=
  is_Some (recrutingByName st !! name) /\ (exists key, findByPpid st ppid pid ⇓ Some key) /\
  exists c, known name = Some c /\ recruitByPpid c = false /\ recruitByName c = true.

Context `{!ChoreographyLaws C S M}.

Lemma snd_delete {K} `{Countable K} (m : gmap K S) k s : m !! k = Some s ->
  snd <$> map_to_list m ≡ₚ s :: (snd <$> map_to_list (delete k m)).
Proof. intros Hk. by rewrite <- (map_to_list_delete m k s Hk). Qed.

Lemma snd_update {K} `{Countable K} (m : gmap K S) k s' :
  snd <$> map_to_list (<[k := s']> m) ≡ₚ s' :: (snd <$> map_to_list (delete k m)).
Proof. rewrite <- insert_delete_eq, map_to_list_insert; [done|]. apply lookup_delete_eq. Qed.

Lemma snd_insert {K} `{Countable K} (m : gmap K S) k s : m !! k = None ->
  snd <$> map_to_list (<[k := s]> m) ≡ₚ s :: (snd <$> map_to_list m).
Proof. intros Hk. by rewrite map_to_list_insert. Qed.

(** Nobody joined the spectacles [l]: at most, one of them declined. *)
Inductive declined (l : list S) : list S -> Prop :=
| declined_none l' : l ≡ₚ l' -> declined l l'
| declined_one s s' rest : l ≡ₚ s :: rest -> isStillRecruting s = true -> addNewMember s = (None, s') -> declined l (s' :: rest).

(** What assigning does to the spectacles [l]: one of them gets a new member, or a new one is
    started. *)
Inductive evolves (l : list S) (name : string) : option M -> list S -> Prop :=
| evolves_joined s rest m s' :
    l ≡ₚ s :: rest -> isStillRecruting s = true -> addNewMember s = (Some m, s') -> evolves l name (Some m) (s' :: rest)
| evolves_started l' c m s :
    known name = Some c -> addNewMember (createSpectacle c) = (m, s) -> declined l l' -> evolves l name m (s :: l')
| evolves_unknown l' : known name = None -> declined l l' -> evolves l name None l'.

(** The place of the recruiter that was found. *)
Lemma all_update st name f s : spectacleAt st name f = Some s ->
  exists rest, all st ≡ₚ s :: rest /\ forall s', all (update st name f s') ≡ₚ s' :: rest.
Proof.
  destruct f as [key| |]; cbn [spectacleAt]; intros Hs; [| |done]; unfold all; cbn [update recrutingByPpid recrutingByName active].
  - exists ((snd <$> map_to_list (delete key (recrutingByPpid st))) ++ (snd <$> map_to_list (recrutingByName st)) ++ active st).
    split; [by rewrite (snd_delete _ _ _ Hs)|]. intros s'. by rewrite snd_update.
  - exists ((snd <$> map_to_list (recrutingByPpid st)) ++ (snd <$> map_to_list (delete name (recrutingByName st))) ++ active st).
    split; [rewrite (snd_delete _ _ _ Hs)|intros s'; rewrite snd_update]; cbn [app]; by rewrite <- Permutation_middle.
Qed.

Lemma update_sorted_out st name f s s' : sorted_out st -> spectacleAt st name f = Some s ->
  getChoreography s' = getChoreography s -> sorted_out (update st name f s').
Proof.
  intros [H1 H2] Hs Hc. destruct f as [key| |]; cbn [spectacleAt update] in *; [| |done]; split; cbn; try done.
  - intros k x. destruct (decide (k = key)) as [->|Hne]; [rewrite lookup_insert_eq|rewrite lookup_insert_ne by done; apply H1].
    intros [= <-]. rewrite Hc. by eapply H1.
  - intros k x. destruct (decide (k = name)) as [->|Hne]; [rewrite lookup_insert_eq|rewrite lookup_insert_ne by done; apply H2].
    intros [= <-]. rewrite Hc. by eapply H2.
Qed.

(** The recruiter that was found retires to the active ones, wherever it is. *)
Lemma retire_ok st ppid name f s s' : sorted_out st -> spectacleAt st name f = Some s ->
  getChoreography s' = getChoreography s ->
  exists st', retire st ppid name f s' ⇓ st' /\ sorted_out st' /\ (forall rest, all st ≡ₚ s :: rest -> all st' ≡ₚ s' :: rest) /\
    match f with
    | FoundByPpid key => recrutingByPpid st' = delete key (recrutingByPpid st) /\ recrutingByName st' = recrutingByName st
    | _ => recrutingByPpid st' = recrutingByPpid st /\ recrutingByName st' = delete name (recrutingByName st)
    end.
Proof.
  intros [H1 H2] Hs Hc. unfold retire. rewrite Hc. destruct f as [key| |]; cbn [spectacleAt] in Hs; [| |done].
  - rewrite (H1 _ _ Hs). eexists. split; [reflexivity|]. split; [split; cbn; [|done]|split; [|done]].
    { intros k x. rewrite lookup_delete_Some. intros [_ ?]. by eapply H1. }
    intros rest Hr. unfold all in *. cbn [recrutingByPpid recrutingByName active].
    rewrite (snd_delete _ _ _ Hs) in Hr. cbn [app] in Hr. apply (Permutation_cons_inv (a := s)) in Hr. rewrite <- Hr, !(assoc_L app). by rewrite <- Permutation_cons_append.
  - rewrite (H2 _ _ Hs). eexists. split; [reflexivity|]. split; [split; cbn; [done|]|split; [|done]].
    { intros k x. rewrite lookup_delete_Some. intros [_ ?]. by eapply H2. }
    intros rest Hr. unfold all in *. cbn [recrutingByPpid recrutingByName active].
    rewrite (snd_delete _ _ _ Hs) in Hr. cbn [app] in Hr. rewrite <- Permutation_middle in Hr. apply (Permutation_cons_inv (a := s)) in Hr. rewrite <- Hr, !(assoc_L app). by rewrite <- Permutation_cons_append.
Qed.

Lemma start_ok st ppid pid name m st' : sorted_out st -> recrutingByPpid st !! ppid = None ->
  (forall c, known name = Some c -> recruitByPpid c = false -> recruitByName c = true -> recrutingByName st !! name = None) ->
  startSpectacle st ppid pid name = (m, st') ->
  sorted_out st' /\
  ((known name = None /\ m = None /\ st' = st) \/
   exists c s, known name = Some c /\ addNewMember (createSpectacle c) = (m, s) /\ all st' ≡ₚ s :: all st).
Proof.
  intros [H1 H2] Hp Hn. unfold startSpectacle. destruct (known name) as [c|] eqn:Hk; [|intros [= <- <-]; split; [done|by left]].
  destruct (addNewMember (createSpectacle c)) as [m' s] eqn:Ha. intros [= -> <-].
  assert (Hc : getChoreography s = c).
  { rewrite <- (created_choreography c), <- (member_choreography (createSpectacle c)), Ha. done. }
  unfold all. destruct (recruitByPpid c) eqn:Hbp; [|destruct (recruitByName c) eqn:Hbn].
  - split; [split; cbn; [|done]|right; exists c, s; split; [done|]; split; [done|]; cbn; by rewrite snd_insert].
    intros k x. destruct (decide (k = ppid)) as [->|Hne]; [rewrite lookup_insert_eq; intros [= <-]; by rewrite Hc|].
    rewrite lookup_insert_ne by done. apply H1.
  - split; [split; cbn; [done|]|right; exists c, s; split; [done|]; split; [done|]; cbn].
    + intros k x. destruct (decide (k = name)) as [->|Hne]; [rewrite lookup_insert_eq; intros [= <-]; by rewrite Hc|].
      rewrite lookup_insert_ne by done. apply H2.
    + rewrite snd_insert by (by eapply Hn). cbn [app]. by rewrite <- Permutation_middle.
  - split; [split; cbn; done|right; exists c, s; split; [done|]; split; [done|]; cbn].
    rewrite !(assoc_L app). by rewrite <- Permutation_cons_append.
Qed.

(** What finding a recruiter says about the maps. *)
Lemma findByPpid_ok st ppid pid : parents_known st ppid pid ->
  exists key, findByPpid st ppid pid ⇓ key /\
    match key with
    | Some key => is_Some (recrutingByPpid st !! key) /\ (key = ppid \/ recrutingByPpid st !! ppid = None)
    | None => recrutingByPpid st !! ppid = None
    end.
Proof.
  intros Hpk. unfold findByPpid. destruct (recrutingByPpid st !! ppid) as [s|] eqn:Hp; [exists (Some ppid); split; [done|]; split; [by rewrite Hp|by left]|].
  destruct (recrutingByPpid st !! pid) as [s|] eqn:Hc; [exists (Some pid); split; [done|]; split; [by rewrite Hc|by right]|].
  destruct (pidToPpidMapForNewSpectacles st !! ppid) as [g|] eqn:Hg; [|by exists None].
  destruct (recrutingByPpid st !! g) as [s|] eqn:Hs; [exists (Some g); split; [done|]; split; [by rewrite Hs|by right]|].
  destruct asserts eqn:Ha; [|by exists None]. destruct (Hpk Ha g Hp Hc Hg). congruence.
Qed.

(** Where the search ends. *)
Definition found (st : state) (name : string) (key : option Z) : Found :=
  match key with
  | Some key => FoundByPpid key
  | None => match recrutingByName st !! name with Some _ => FoundByName | None => NotFound end
  end.

Lemma findRecruiter_found st ppid pid name key : findByPpid st ppid pid ⇓ key -> findRecruiter st ppid pid name ⇓ found st name key.
Proof. intros Hk. unfold findRecruiter. rewrite Hk. by destruct key. Qed.

(** Once the recruiter that was found has retired, its place is free for a new one. *)
Lemma retired_free st ppid pid name key st' :
  ~ replaces st ppid pid name -> findByPpid st ppid pid ⇓ key ->
  match key with
  | Some key => is_Some (recrutingByPpid st !! key) /\ (key = ppid \/ recrutingByPpid st !! ppid = None)
  | None => recrutingByPpid st !! ppid = None
  end ->
  match found st name key with
  | FoundByPpid key => recrutingByPpid st' = delete key (recrutingByPpid st) /\ recrutingByName st' = recrutingByName st
  | _ => recrutingByPpid st' = recrutingByPpid st /\ recrutingByName st' = delete name (recrutingByName st)
  end ->
  recrutingByPpid st' !! ppid = None /\
  (forall c, known name = Some c -> recruitByPpid c = false -> recruitByName c = true -> recrutingByName st' !! name = None).
Proof.
  intros Hnr Hkey Hfound Hst'. destruct key as [key|]; cbn [found] in Hst'.
  - destruct Hst' as [-> ->]. destruct Hfound as [_ Hfound]. split.
    + destruct (decide (key = ppid)) as [->|Hne]; [apply lookup_delete_eq|]. rewrite lookup_delete_ne by done. by destruct Hfound.
    + intros c Hc H1 H2. destruct (recrutingByName st !! name) as [x|] eqn:Hx; [|done]. exfalso. apply Hnr.
      split; [by rewrite Hx|]. split; [by exists key|]. by exists c.
  - assert (Hst2 : recrutingByPpid st' = recrutingByPpid st /\ recrutingByName st' = delete name (recrutingByName st)).
    { destruct (recrutingByName st !! name); exact Hst'. }
    destruct Hst2 as [-> ->]. split; [done|]. intros. apply lookup_delete_eq.
Qed.

(** No recruiter was found. *)
Lemma not_found st name key :
  match key with
  | Some key => is_Some (recrutingByPpid st !! key)
  | None => True
  end -> spectacleAt st name (found st name key) = None -> key = None /\ recrutingByName st !! name = None.
Proof.
  intros Hf Hs. destruct key as [key|]; cbn in Hs; [by rewrite Hs in Hf; destruct Hf|].
  split; [done|]. destruct (recrutingByName st !! name) eqn:E; cbn in Hs; [congruence|done].
Qed.

(** Assigning a client never loses a spectacle. While parents are known and no
    recruiter by name is in the way, the assignment succeeds, the client is made a member
    of a spectacle that was still recruiting or of a new one for its name, every other
    spectacle is kept as it is, and the recruiting spectacles stay where their
    choreographies say, so that the later erasure of a full one finds it. *)
Theorem assignToSpectacle_keeps st ppid pid name :
  sorted_out st -> parents_known st ppid pid -> ~ replaces st ppid pid name ->
  exists m st' l', assignToSpectacle st ppid pid name ⇓ (m, st') /\ sorted_out st' /\
    evolves (all st) name m l' /\ all st' ≡ₚ l'.
Proof.
  intros Hso Hpk Hnr. unfold assignToSpectacle.
  destruct (findByPpid_ok st ppid pid Hpk) as (key & Hkey & Hfound). rewrite (findRecruiter_found _ _ _ _ _ Hkey). cbn [mbind res_bind].
  pose proof (fun st' => retired_free st ppid pid name key st' Hnr Hkey Hfound) as Hfree.
  set (f := found st name key) in *. destruct (spectacleAt st name f) as [s|] eqn:Hs.
  2: { destruct (startSpectacle st ppid pid name) as [m st'] eqn:Hstart.
       destruct (not_found st name key) as [-> Hnn]; [by destruct key; [apply Hfound|]|exact Hs|].
       destruct (start_ok st ppid pid name m st' Hso Hfound ltac:(done) Hstart) as [Hso' [(Hk & -> & ->)|(c & s & Hk & Ha & Hall)]].
       - exists None, st, (all st). split; [done|]. split; [done|]. split; [|done]. apply evolves_unknown; [done|by constructor].
       - exists m, st', (s :: all st). split; [done|]. split; [done|]. split; [|done]. eapply evolves_started; [done..|by constructor]. }
  destruct (all_update st name f s Hs) as (rest & Hrest & Hupd).
  assert (Hmiss : forall s', getChoreography s' = getChoreography s -> declined (all st) (s' :: rest) ->
    exists m st' l', (st ← retire st ppid name f s'; Ret (startSpectacle st ppid pid name)) ⇓ (m, st') /\ sorted_out st' /\
      evolves (all st) name m l' /\ all st' ≡ₚ l').
  { intros s' Hc Hd. destruct (retire_ok st ppid name f s s' Hso Hs Hc) as (st1 & Hr & Hso1 & Hall1 & Hmaps). rewrite Hr. cbn [mbind res_bind].
    specialize (Hall1 rest Hrest). destruct (Hfree st1) as [Hp Hn]; [by destruct f|].
    destruct (startSpectacle st1 ppid pid name) as [m st'] eqn:Hstart.
    destruct (start_ok st1 ppid pid name m st' Hso1 Hp Hn Hstart) as [Hso' [(Hk & -> & ->)|(c & x & Hk & Ha & Hall)]].
    - exists None, st1, (s' :: rest). split; [done|]. split; [done|]. split; [|done]. by apply evolves_unknown.
    - exists m, st', (x :: s' :: rest). split; [done|]. split; [done|]. split; [|by rewrite Hall, Hall1]. by eapply evolves_started. }
  destruct (isStillRecruting s) eqn:Hrec.
  - destruct (addNewMember s) as [newMember s'] eqn:Ha.
    assert (Hc : getChoreography s' = getChoreography s) by (by rewrite <- (member_choreography s), Ha).
    destruct newMember as [m|]; [|apply Hmiss; [done|by eapply declined_one]].
    eexists _, _, _. split; [reflexivity|]. split; [by eapply update_sorted_out|]. split; [by eapply evolves_joined|apply Hupd].
  - apply Hmiss; [done|by constructor].
Qed.

(** What happens otherwise. A client whose parent's entry outlived its spectacle fails an
    assertion; and when a client of a full spectacle by process starts one by name, a
    spectacle that recruits under that name is replaced and destroyed, with its members. *)
Theorem assignToSpectacle_hazards st ppid pid name :
  (asserts = true -> ~ parents_known st ppid pid -> assignToSpectacle st ppid pid name = Abort) /\
  (forall key s old c, sorted_out st -> findByPpid st ppid pid ⇓ Some key -> recrutingByPpid st !! key = Some s -> isStillRecruting s = false ->
     recrutingByName st !! name = Some old -> known name = Some c -> recruitByPpid c = false -> recruitByName c = true ->
     exists m x st' rest, assignToSpectacle st ppid pid name ⇓ (m, st') /\ addNewMember (createSpectacle c) = (m, x) /\
       all st ≡ₚ old :: rest /\ all st' ≡ₚ x :: rest).
Proof.
  split.
  - intros Ha Hnp. unfold assignToSpectacle, findRecruiter. assert (E : findByPpid st ppid pid = Abort).
    { unfold findByPpid, parents_known in *. rewrite Ha. destruct (recrutingByPpid st !! ppid); [exfalso; apply Hnp; congruence|].
      destruct (recrutingByPpid st !! pid); [exfalso; apply Hnp; congruence|].
      destruct (pidToPpidMapForNewSpectacles st !! ppid) as [g|]; [|exfalso; apply Hnp; congruence].
      destruct (recrutingByPpid st !! g) eqn:Hg; [|done]. exfalso. apply Hnp. intros _ g' _ _ [= <-]. by rewrite Hg. }
    by rewrite E.
  - intros key s old c Hso Hkey Hs Hfull Hold Hk Hbp Hbn. unfold assignToSpectacle, findRecruiter. rewrite Hkey. cbn [mbind res_bind spectacleAt].
    rewrite Hs, Hfull. destruct (retire_ok st ppid name (FoundByPpid key) s s Hso Hs eq_refl) as (st1 & Hr & _ & Hall & Hp & Hn).
    rewrite Hr. cbn [mbind res_bind]. unfold startSpectacle. rewrite Hk, Hbp, Hbn. destruct (addNewMember (createSpectacle c)) as [m x] eqn:Ha.
    rewrite <- Hn in Hold. destruct (all_update st1 name FoundByName old Hold) as (rest & Hrest & Hupd).
    eexists m, x, _, rest. split; [reflexivity|]. split; [done|]. split; [|apply (Hupd x)].
    destruct (all_update st name (FoundByPpid key) s Hs) as (rest0 & E0 & _). by rewrite E0, <- (Hall rest0 E0).
Qed.

End spectacles.

(** * Concrete runs *)

(** A choreography recruits by process or by name, for a number of members. *)
Record ToyChoreography := mkToy { byPpid : bool; capacity : nat }.

#[export] Instance toyChoreographies : Choreographies ToyChoreography (ToyChoreography * nat) nat := {|
  recruitByPpid := byPpid;
  recruitByName := fun c => negb (byPpid c);
  createSpectacle := fun c => (c, O);
  isStillRecruting := fun s => Nat.ltb (snd s) (capacity (fst s));
  addNewMember := fun s => (Some (snd s), (fst s, S (snd s)));
  getChoreography := fst;
  known := fun name =>
    if bool_decide (name = "ranks"%string) then Some (mkToy true 1)
    else if bool_decide (name = "tool"%string) then Some (mkToy false 4) else None |}.

#[export] Instance toyLaws : ChoreographyLaws ToyChoreography (ToyChoreography * nat) nat.
Proof. by split. Qed.

Definition noSpectacles : Spectacles (ToyChoreography * nat) := mkSpectacles ∅ ∅ ∅ [].

(** Process 10 of parent 1 fills a spectacle, and a tool recruits by name. *)
Definition exampleSpectacles : Spectacles (ToyChoreography * nat) :=
  mkSpectacles {[1 := (mkToy true 1, 1%nat)]} {["tool"%string := (mkToy false 4, 2%nat)]} {[10 := 1]} [].

Lemma exampleSpectacles_sorted_out : sorted_out exampleSpectacles.
Proof.
  split; cbn; intros k s; rewrite lookup_singleton_Some; by intros [_ <-].
Qed.

(** A second tool joins the first. *)
Lemma assignToSpectacle_keeps_witness :
  exists st', assignToSpectacle true exampleSpectacles 50 60 "tool" ⇓ (Some 2%nat, st') /\ sorted_out st' /\
    recrutingByName st' !! "tool"%string = Some (mkToy false 4, 3%nat).
Proof.
  destruct (assignToSpectacle_keeps true exampleSpectacles 50 60 "tool" exampleSpectacles_sorted_out) as (m & st' & l' & Hr & Hso & _).
  - intros _ g _ _. by vm_compute.
  - intros (_ & [key Hkey] & _). by vm_compute in Hkey.
  - assert (E : fst <$> Some (m, st') = Some (Some 2%nat) /\ recrutingByName st' !! "tool"%string = Some (mkToy false 4, 3%nat)).
    { vm_compute in Hr. injection Hr as <- <-. by vm_compute. }
    destruct E as [[= ->] E]. by exists st'.
Defined.

(** A process of another program retires the spectacle of the siblings of 10; then a child
    of 10 arrives.  And a tool that is a sibling of 10 replaces the tools' spectacle. *)
Lemma assignToSpectacle_hazards_witness :
  (exists st', assignToSpectacle true exampleSpectacles 1 11 "other" ⇓ (None, st') /\
     assignToSpectacle true st' 10 20 "ranks" = Abort) /\
  (exists st', assignToSpectacle true exampleSpectacles 1 12 "tool" ⇓ (Some 0%nat, st') /\
     all exampleSpectacles = [(mkToy true 1, 1%nat); (mkToy false 4, 2%nat)] /\
     all st' ≡ₚ [(mkToy false 4, 1%nat); (mkToy true 1, 1%nat)]).
Proof.
  split.
  - eexists. split; [by vm_compute|].
    apply (proj1 (assignToSpectacle_hazards true _ 10 20 "ranks")); [done|]. intros Hp.
    destruct (Hp eq_refl 1 ltac:(by vm_compute) ltac:(by vm_compute) ltac:(by vm_compute)) as [x Hx]. by vm_compute in Hx.
  - destruct (proj2 (assignToSpectacle_hazards true exampleSpectacles 1 12 "tool") 1 (mkToy true 1, 1%nat) (mkToy false 4, 2%nat) (mkToy false 4)
      exampleSpectacles_sorted_out) as (m & x & st' & rest & Hr & Hx & H1 & H2); [by vm_compute..|].
    injection Hx as <- <-. exists st'. split; [exact Hr|]. split; [by vm_compute|].
    assert (Hrest : rest ≡ₚ [(mkToy true 1, 1%nat)]).
    { apply (Permutation_cons_inv (a := (mkToy false 4, 2%nat))). rewrite <- H1. vm_compute. by apply perm_swap. }
    by rewrite H2, Hrest.
Defined.
