(* ===== verification/EventTrackers.v ===== *)
(** How the service follows copies into client memory (service/level_zero and
    the handlers of service/service.cpp that use it): every such copy signals
    an artificial event of the service ([ArtificialEventsManager]) instead of
    the client's event, which a relay signals afterwards; the pending copies
    are polled, reported once and, when their command list can run again, kept
    for the next run ([OngoingHostptrCopiesManager]); [ContextMappingsTracker]
    tells the context of a command list.  The driver is an interface. *)

From stdpp Require Import gmap.
From S2P Require Import Prelude.
From S2P Require Import FlatMap.
From S2P Require Import Kernel.
From S2P Require Import Shmem.
From S2P Require Import MemBlocks.
From S2P Require Import Ranges.
From S2P Require Import Messages.
From S2P Require Import Layout.
From S2P Require Import Ring.
From S2P Require Import Channel.
From S2P Require Import ClientContext.
Local Open Scope Z_scope.

(** * The driver *)

(** Entry points of the driver that these components call: a result code, the
    handle that is written, the state of the driver. *)
Class EventDriver (D : Type) := {
  zeEventPoolCreate : D -> Z -> Z -> Z * Z * D;
  zeEventCreate : D -> Z -> Z -> Z * Z * D;
  zeEventPoolDestroy : D -> Z -> Z * D;
  zeEventDestroy : D -> Z -> Z * D;
  zeEventHostReset : D -> Z -> Z * D;
  zeEventQueryStatus : D -> Z -> Z;
  zeCommandListAppendBarrier : D -> Z -> Z -> list Z -> Z * D
}.

(** What the specification of Level Zero promises: a new handle is not null and
    differs from the live ones; an event is made from a free index of a live
    pool, and calls about one object leave the others as they are. *)
Class EventDriverLaws (D : Type) `{EventDriver D} := {
  live_events : D -> gset Z;
  live_pools : D -> gset Z;
  room : D -> Z -> Z -> Prop;
  pool_create_law d ctx n r p d' : zeEventPoolCreate d ctx n = (r, p, d') ->
    live_events d' = live_events d /\ (forall q i, q ∈ live_pools d -> room d q i -> room d' q i) /\
    if r =? ZE_RESULT_SUCCESS
    then p <> 0 /\ p ∉ live_pools d /\ live_pools d' = {[p]} ∪ live_pools d /\ (forall i, 0 <= i < n -> room d' p i)
    else live_pools d' = live_pools d;
  event_create_law d p i r e d' : p ∈ live_pools d -> room d p i -> zeEventCreate d p i = (r, e, d') ->
    live_pools d' = live_pools d /\ (forall q j, (q, j) <> (p, i) -> room d q j -> room d' q j) /\
    if r =? ZE_RESULT_SUCCESS
    then e <> 0 /\ e ∉ live_events d /\ live_events d' = {[e]} ∪ live_events d
    else live_events d' = live_events d;
  event_destroy_law d e r d' : zeEventDestroy d e = (r, d') ->
    live_events d ∖ {[e]} ⊆ live_events d' /\ live_pools d' = live_pools d /\ (forall q i, room d q i -> room d' q i);
  pool_destroy_law d p r d' : zeEventPoolDestroy d p = (r, d') ->
    live_events d ⊆ live_events d' /\ live_pools d ∖ {[p]} ⊆ live_pools d' /\ (forall q i, q <> p -> room d q i -> room d' q i);
  reset_law d e r d' : zeEventHostReset d e = (r, d') ->
    live_events d' = live_events d /\ live_pools d' = live_pools d /\ (forall q i, room d q i -> room d' q i) /\
    (forall e', e' <> e -> zeEventQueryStatus d' e' = zeEventQueryStatus d e');
  barrier_law d cl e ws r d' : zeCommandListAppendBarrier d cl e ws = (r, d') ->
    live_events d' = live_events d /\ live_pools d' = live_pools d /\ (forall q i, room d q i -> room d' q i)
}.

(** * Contexts of command lists and metric streamers *)

Record ContextMappingsTracker := mkMappings {
  commandListToContextMapping : list (Z * Z);
  metricStreamerToContextMappings : list (Z * Z)
}.

Definition getAssociatedContext (t : ContextMappingsTracker) (commandList : Z) : Z :=
  match fm_find (commandListToContextMapping t) commandList with Some context => context | None => 0 end.

Definition registerCommandListToContextMapping (t : ContextMappingsTracker) (commandList context : Z) : ContextMappingsTracker :=
  mkMappings (fm_emplace (commandListToContextMapping t) commandList context) (metricStreamerToContextMappings t).

Definition deregisterCommandListMapping (t : ContextMappingsTracker) (commandList : Z) : ContextMappingsTracker :=
  mkMappings (fm_erase (commandListToContextMapping t) commandList) (metricStreamerToContextMappings t).

Definition getAssociatedContextOfStreamer (t : ContextMappingsTracker) (metricStreamer : Z) : Z :=
  match fm_find (metricStreamerToContextMappings t) metricStreamer with Some context => context | None => 0 end.

Definition registerMetricStreamerToContextMapping (t : ContextMappingsTracker) (metricStreamer context : Z) : ContextMappingsTracker :=
  mkMappings (commandListToContextMapping t) (fm_emplace (metricStreamerToContextMappings t) metricStreamer context).

Definition deregisterMetricStreamerMapping (t : ContextMappingsTracker) (metricStreamer : Z) : ContextMappingsTracker :=
  mkMappings (commandListToContextMapping t) (fm_erase (metricStreamerToContextMappings t) metricStreamer).

(** * Artificial events *)

Record ArtificialEvent := mkEvent { isFree : bool; eventHandle : Z }.

(** [EventPool]: the driver's pools of one context and the events made from them. *)
Record ContextEvents := mkPool {
  pools : list Z; events : list ArtificialEvent; eventsFromCurrentPool : Z }.

Definition newPool : ContextEvents := mkPool [] [] 0.

Definition eventsCountPerPool : Z := 64.

(** [eventPools], by context. *)
Abbreviation EventsManager := (list (Z * ContextEvents)).

(** The first free event, which is taken. *)
Fixpoint takeFree (l : list ArtificialEvent) : option (Z * list ArtificialEvent) :=
  match l with
  | [] => None
  | ev :: l =>
      if isFree ev then Some (eventHandle ev, mkEvent false (eventHandle ev) :: l)
      else match takeFree l with Some (h, l') => Some (h, ev :: l') | None => None end
  end.

(** The first event with the handle becomes free. *)
Fixpoint releaseIn (l : list ArtificialEvent) (h : Z) : option (list ArtificialEvent) :=
  match l with
  | [] => None
  | ev :: l =>
      if eventHandle ev =? h then Some (mkEvent true (eventHandle ev) :: l)
      else match releaseIn l h with Some l' => Some (ev :: l') | None => None end
  end.

Definition set_events (pool : ContextEvents) (l : list ArtificialEvent) : ContextEvents :=
  mkPool (pools pool) l (eventsFromCurrentPool pool).

Fixpoint releaseEvent (m : EventsManager) (h : Z) : option EventsManager :=
  match m with
  | [] => None
  | (ctx, pool) :: m =>
      match releaseIn (events pool) h with
      | Some l => Some ((ctx, set_events pool l) :: m)
      | None => match releaseEvent m h with Some m' => Some ((ctx, pool) :: m') | None => None end
      end
  end.

Section trackers.
Context {D : Type} `{EventDriver D}.

(** ** The allocator: a failed call gives the null handle *)

Definition createEventPool (d : D) (context eventsCount : Z) : Z * D :=
  let '(result, eventPool, d) := zeEventPoolCreate d context eventsCount in
  if result =? ZE_RESULT_SUCCESS then (eventPool, d) else (0, d).

Definition createEvent (d : D) (eventPool index : Z) : Z * D :=
  let '(result, event, d) := zeEventCreate d eventPool index in
  if result =? ZE_RESULT_SUCCESS then (event, d) else (0, d).

Definition destroyEventPool (d : D) (eventPool : Z) : D := snd (zeEventPoolDestroy d eventPool).
Definition destroyEvent (d : D) (event : Z) : D := snd (zeEventDestroy d event).
Definition resetEvent (d : D) (event : Z) : D := snd (zeEventHostReset d event).

(** ** The manager *)

(** The destructor of [EventPool]. *)
Definition destroyPool (d : D) (pool : ContextEvents) : D :=
  let d := foldl (fun d ev => destroyEvent d (eventHandle ev)) d (events pool) in
  foldl destroyEventPool d (pools pool).

Definition clearDataForContext (m : EventsManager) (d : D) (context : Z) : EventsManager * D :=
  match fm_find m context with
  | None => (m, d)
  | Some pool => (fm_erase m context, destroyPool d pool)
  end.

(** A pool of the driver with room for one more event; [false] when there is none. *)
Definition ensurePool (d : D) (context : Z) (pool : ContextEvents) : bool * ContextEvents * D :=
  if (match pools pool with [] => true | _ => false end) || (eventsCountPerPool <=? eventsFromCurrentPool pool) then
    let (p, d) := createEventPool d context eventsCountPerPool in
    if p =? 0 then (false, pool, d) else (true, mkPool (pools pool ++ [p]) (events pool) 0, d)
  else (true, pool, d).

Definition obtainEventReplacement (m : EventsManager) (d : D) (context : Z) : Z * EventsManager * D :=
  if context =? 0 then (0, m, d) else
  let pool := match fm_find m context with Some pool => pool | None => newPool end in
  match takeFree (events pool) with
  | Some (h, l) => (h, fm_set m context (set_events pool l), d)
  | None =>
      let '(ok, pool, d) := ensurePool d context pool in
      if ok then
        let (event, d) := createEvent d (List.last (pools pool) 0) (eventsFromCurrentPool pool) in
        let l := if event =? 0 then events pool else events pool ++ [mkEvent false event] in
        (event, fm_set m context (mkPool (pools pool) l (u32 (eventsFromCurrentPool pool + 1))), d)
      else (0, fm_set m context pool, d)
  end.

Definition returnObtainedEvent (m : EventsManager) (d : D) (h : Z) : EventsManager * D :=
  match releaseEvent m h with
  | Some m => (m, resetEvent d h)
  | None => (m, d)
  end.

End trackers.

(** * Pending copies *)

Record InternalOngoingHostptrCopy := mkCopy {
  destination : Z; destinationSize : Z;
  commandList : Z; associatedEvent : Z; isFinished : bool; canBeResubmitted : bool }.

Definition set_finished (op : InternalOngoingHostptrCopy) (b : bool) : InternalOngoingHostptrCopy :=
  mkCopy (destination op) (destinationSize op) (commandList op) (associatedEvent op) b (canBeResubmitted op).

Record CopiesManager := mkCopies {
  ongoingOperations : list InternalOngoingHostptrCopy;
  operationsForResubmit : gmap Z (list InternalOngoingHostptrCopy)
}.

Definition noCopies : CopiesManager := mkCopies [] ∅.

Definition registerCopyOperation (c : CopiesManager) (cl event dst size : Z) (resubmit : bool) : CopiesManager :=
  mkCopies (ongoingOperations c ++ [mkCopy dst size cl event false resubmit]) (operationsForResubmit c).

Definition resubmitOperationsOfCommandList (c : CopiesManager) (cl : Z) : CopiesManager :=
  match operationsForResubmit c !! cl with
  | None => c
  | Some ops =>
      mkCopies (ongoingOperations c ++ map (fun op => set_finished op false) ops) (<[cl := []]> (operationsForResubmit c))
  end.

Section copies.
Context {D : Type} `{EventDriver D}.

Definition returnAll (l : list InternalOngoingHostptrCopy) (m : EventsManager) (d : D) : EventsManager * D :=
  foldl (fun md op => returnObtainedEvent (fst md) (snd md) (associatedEvent op)) (m, d) l.

Definition ofList (cl : Z) (op : InternalOngoingHostptrCopy) : bool := commandList op =? cl.

Definition freeOperationsOfCommandList (c : CopiesManager) (m : EventsManager) (d : D) (cl : Z)
  : CopiesManager * EventsManager * D :=
  let (m, d) := returnAll (List.filter (ofList cl) (ongoingOperations c)) m d in
  let ongoing := List.filter (fun op => negb (ofList cl op)) (ongoingOperations c) in
  match operationsForResubmit c !! cl with
  | None => (mkCopies ongoing (operationsForResubmit c), m, d)
  | Some ops =>
      let (m, d) := returnAll ops m d in
      (mkCopies ongoing (delete cl (operationsForResubmit c)), m, d)
  end.

(** [operationsForResubmit[key].push_back(op)] *)
Definition keepForResubmit (f : gmap Z (list InternalOngoingHostptrCopy)) (op : InternalOngoingHostptrCopy) :=
  <[commandList op := default [] (f !! commandList op) ++ [op]]> f.

(** What happens to an operation that is finished. *)
Definition settle (op : InternalOngoingHostptrCopy) (f : gmap Z (list InternalOngoingHostptrCopy)) (m : EventsManager) (d : D) :=
  if canBeResubmitted op then (keepForResubmit f op, m, resetEvent d (associatedEvent op))
  else let (m, d) := returnObtainedEvent m d (associatedEvent op) in (f, m, d).

(** The loop over the operations: those that stay (with their flags), and the
    destinations in their order. *)
Fixpoint pollCopies (l : list InternalOngoingHostptrCopy) (f : gmap Z (list InternalOngoingHostptrCopy)) (m : EventsManager) (d : D)
  : res (list InternalOngoingHostptrCopy * gmap Z (list InternalOngoingHostptrCopy) * EventsManager * D * list AddressRange) :=
  match l with
  | [] => Ret ([], f, m, d, [])
  | op :: l =>
      if isFinished op || (zeEventQueryStatus d (associatedEvent op) =? ZE_RESULT_SUCCESS) then
        let op := set_finished op true in
        let '(f, m, d) := settle op f m d in
        copy ← rangeOfSize (destination op) (destinationSize op);
        '(l, f, m, d, copies) ← pollCopies l f m d;
        Ret (op :: l, f, m, d, copy :: copies)
      else
        '(l, f, m, d, copies) ← pollCopies l f m d;
        Ret (op :: l, f, m, d, copies)
  end.

Definition acquireFinishedCopies (c : CopiesManager) (m : EventsManager) (d : D)
  : res (CopiesManager * EventsManager * D * list AddressRange) :=
  '(l, f, m, d, copies) ← pollCopies (ongoingOperations c) (operationsForResubmit c) m d;
  Ret (mkCopies (List.filter (fun op => negb (isFinished op)) l) f, m, d, copies).

End copies.

(** * The handlers *)

(** The trackers of a [ClientContext] and its blocks of client memory. *)
Record Trackers := mkTrackers {
  contextMappings : ContextMappingsTracker;
  artificialEvents : EventsManager;
  hostptrCopies : CopiesManager;
  clientBlocks : MemoryBlocksManager
}.

Definition set_deferred (t : Trackers) (m : EventsManager) (c : CopiesManager) : Trackers :=
  mkTrackers (contextMappings t) m c (clientBlocks t).
Definition set_mappings (t : Trackers) (mp : ContextMappingsTracker) : Trackers :=
  mkTrackers mp (artificialEvents t) (hostptrCopies t) (clientBlocks t).

Section handlers.
Context {D K : Type} `{EventDriver D} `{Kernel K}.

Definition getInternalEvent (t : Trackers) (d : D) (cmdList : Z) : Z * Trackers * D :=
  let l0Ctx := getAssociatedContext (contextMappings t) cmdList in
  let '(event, m, d) := obtainEventReplacement (artificialEvents t) d l0Ctx in
  (event, set_deferred t m (hostptrCopies t), d).

(** The status and whether the relay exists. *)
Definition addRelay (d : D) (status action trigger cmdList : Z) : bool * Z * D :=
  if negb (status =? ZE_RESULT_SUCCESS) then (false, status, d)
  else if action =? 0 then (true, status, d)
  else if trigger =? 0 then (false, status, d)
  else let (status, d) := zeCommandListAppendBarrier d cmdList action [trigger] in (status =? ZE_RESULT_SUCCESS, status, d).

Definition remapPointer (k : K) (s : ShmemAllocator) (t : Trackers) (clientAddress memorySize : Z)
  : res (Z * Trackers * ShmemAllocator * K) :=
  '(b, blocks, s, k) ← registerMemoryBlock k s (clientBlocks t) clientAddress memorySize;
  Ret (translate b clientAddress, mkTrackers (contextMappings t) (artificialEvents t) (hostptrCopies t) blocks, s, k).

(** What the handlers that write client memory do with the remapped or staged
    destination: an internal event is attached to the command, relayed to the
    client's event, and the copy is remembered: whether there was an event, and
    the result.  [append] is the call of the driver with the remaining arguments
    of the message. *)
Definition appendWithInternalEvent (append : D -> Z -> Z -> Z * D) (t : Trackers) (d : D)
  (hCommandList hSignalEvent ptr size target : Z) (resubmit : bool) : bool * Z * Trackers * D :=
  let '(event, t, d) := getInternalEvent t d hCommandList in
  if event =? 0 then (false, ZE_RESULT_ERROR_OUT_OF_HOST_MEMORY, t, d) else
  let (ret, d) := append d target event in
  let '(_, ret, d) := addRelay d ret hSignalEvent event hCommandList in
  (true, ret,
   if ret =? ZE_RESULT_SUCCESS
   then set_deferred t (artificialEvents t) (registerCopyOperation (hostptrCopies t) hCommandList event ptr size resubmit)
   else t,
   d).

(** [zeCommandListAppendMemoryFillRpcHelperUsm2MallocHandler] and its sibling for
    patterns in client memory: the result of the call. *)
Definition zeCommandListAppendMemoryFillHandler (append : D -> Z -> Z -> Z * D) (k : K) (s : ShmemAllocator) (t : Trackers) (d : D)
  (hCommandList hSignalEvent ptr size : Z) : res (Z * Trackers * ShmemAllocator * K * D) :=
  '(remapped, t, s, k) ← remapPointer k s t ptr size;
  let '(_, ret, t, d) := appendWithInternalEvent append t d hCommandList hSignalEvent ptr size remapped true in
  Ret (ret, t, s, k, d).

(** [zeCommandListAppendMemoryCopyDeferred_Remapped_UsmHandler]: whether the
    handler succeeds, and the result of the call where it is written. *)
Definition zeCommandListAppendMemoryCopyDeferredHandler (append : D -> Z -> Z -> Z * D) (k : K) (s : ShmemAllocator) (t : Trackers) (d : D)
  (hCommandList hSignalEvent dstptr size : Z) : res (bool * option Z * Trackers * ShmemAllocator * K * D) :=
  '(remapped, t, s, k) ← remapPointer k s t dstptr size;
  if (remapped =? 0) && negb (dstptr =? 0) then Ret (false, None, t, s, k, d) else
  let '(ok, ret, t, d) := appendWithInternalEvent append t d hCommandList hSignalEvent dstptr size remapped true in
  Ret (ok, Some ret, t, s, k, d).

(** [updateHostptrCopies] *)
Fixpoint collectTransfers (m : MemoryBlocksManager) (l : list AddressRange) (descs : list TransferDesc)
  : res (list TransferDesc * MemoryBlocksManager) :=
  match l with
  | [] => Ret (descs, m)
  | r :: l => '(_, descs, m) ← getRequiredTransferDescsOfRange m r descs; collectTransfers m l descs
  end.

Fixpoint pushTransfers (channel : ChannelServer) (l : list TransferDesc) : res (ChannelServer * bool) :=
  match l with
  | [] => Ret (channel, true)
  | td :: l =>
      '(channel, ok) ← pushHostptrCopyToUpdate channel td;
      if ok : bool then pushTransfers channel l else Ret (channel, false)
  end.

Definition updateHostptrCopies (channel : ChannelServer) (t : Trackers) (d : D) : res (bool * ChannelServer * Trackers * D) :=
  '(c, m, d, finished) ← acquireFinishedCopies (hostptrCopies t) (artificialEvents t) d;
  '(descs, blocks) ← collectTransfers (clientBlocks t) finished [];
  '(channel, ok) ← pushTransfers channel descs;
  Ret (ok, channel, mkTrackers (contextMappings t) m c blocks, d).

(** [zeCommandListResetHandler]; the driver's call follows the release. *)
Definition zeCommandListResetHandler (reset : D -> Z -> Z * D) (t : Trackers) (d : D) (cl : Z) : Z * Trackers * D :=
  let '(c, m, d) := freeOperationsOfCommandList (hostptrCopies t) (artificialEvents t) d cl in
  let (ret, d) := reset d cl in (ret, set_deferred t m c, d).

(** [zeCommandListDestroyHandler], but for the tracking of handles. *)
Definition zeCommandListDestroyHandler (destroy : D -> Z -> Z * D) (t : Trackers) (d : D) (cl : Z) : Z * Trackers * D :=
  let '(c, m, d) := freeOperationsOfCommandList (hostptrCopies t) (artificialEvents t) d cl in
  let (ret, d) := destroy d cl in
  let t := set_deferred t m c in
  (ret, if (ret =? ZE_RESULT_SUCCESS) && negb (cl =? 0) then set_mappings t (deregisterCommandListMapping (contextMappings t) cl) else t, d).

(** [zeCommandQueueExecuteCommandListsHandler]: whether the handler succeeds, and
    the result of the call. *)
Definition zeCommandQueueExecuteCommandListsHandler (execute : D -> list Z -> Z * D) (channel : ChannelServer) (t : Trackers) (d : D)
  (lists : list Z) : res (bool * Z * ChannelServer * Trackers * D) :=
  let (ret, d) := execute d lists in
  if negb (ret =? ZE_RESULT_SUCCESS) then Ret (true, ret, channel, t, d) else
  let t := set_deferred t (artificialEvents t) (foldl resubmitOperationsOfCommandList (hostptrCopies t) lists) in
  '(ok, channel, t, d) ← updateHostptrCopies channel t d;
  Ret (ok, ret, channel, t, d).

(** The handlers that wait for or query events, fences, command lists and queues. *)
Definition synchronizeHandler (wait : D -> Z -> Z -> Z * D) (channel : ChannelServer) (t : Trackers) (d : D) (handle timeout : Z)
  : res (bool * Z * ChannelServer * Trackers * D) :=
  let (ret, d) := wait d handle timeout in
  if negb (ret =? ZE_RESULT_SUCCESS) then Ret (true, ret, channel, t, d) else
  '(ok, channel, t, d) ← updateHostptrCopies channel t d;
  Ret (ok, ret, channel, t, d).

(** [zeContextDestroyHandler], but for the tracking of handles. *)
Definition zeContextDestroyHandler (destroy : D -> Z -> Z * D) (t : Trackers) (d : D) (hContext : Z) : Z * Trackers * D :=
  let (m, d) := clearDataForContext (artificialEvents t) d hContext in
  let (ret, d) := destroy d hContext in (ret, set_deferred t m (hostptrCopies t), d).

(** [zeCommandListCreateHandler]: the handle that the driver wrote is mapped. *)
Definition zeCommandListCreateHandler (create : D -> Z -> Z * Z * D) (t : Trackers) (d : D) (hContext : Z) (hasHandle : bool)
  : Z * Z * Trackers * D :=
  let '(ret, cl, d) := create d hContext in
  (ret, cl, if (ret =? ZE_RESULT_SUCCESS) && hasHandle
            then set_mappings t (registerCommandListToContextMapping (contextMappings t) cl hContext) else t, d).

End handlers.

(** * Invariants *)

Definition all_events (m : EventsManager) : list ArtificialEvent := concat (map (fun e => events (snd e)) m).
Definition all_pools (m : EventsManager) : list Z := concat (map (fun e => pools (snd e)) m).
Definition handles (l : list ArtificialEvent) : list Z := map eventHandle l.
Definition taken (l : list ArtificialEvent) : list Z := map eventHandle (List.filter (fun ev => negb (isFree ev)) l).

(** The events that were handed out and not returned. *)
Definition obtained (m : EventsManager) : list Z := taken (all_events m).

#[export] Instance handles_perm : Proper ((≡ₚ) ==> (≡ₚ)) handles.
Proof. intros l l' Hp. by apply Permutation_map. Qed.

#[export] Instance taken_perm : Proper ((≡ₚ) ==> (≡ₚ)) taken.
Proof.
  intros l l' Hp. apply Permutation_map. induction Hp as [|x l l' Hp IH|x y l|l1 l2 l3 H1 IH1 H2 IH2]; cbn; [done| | |by rewrite IH1].
  - destruct (negb (isFree x)); [by constructor|done].
  - destruct (negb (isFree x)), (negb (isFree y)); first [done|apply perm_swap].
Qed.

#[export] Instance all_events_perm : Proper ((≡ₚ) ==> (≡ₚ)) all_events.
Proof. intros m m' Hp. unfold all_events. by rewrite Hp. Qed.

#[export] Instance all_pools_perm : Proper ((≡ₚ) ==> (≡ₚ)) all_pools.
Proof. intros m m' Hp. unfold all_pools. by rewrite Hp. Qed.

Lemma handles_app l l' : handles (l ++ l') = handles l ++ handles l'.
Proof. apply map_app. Qed.

Lemma taken_app l l' : taken (l ++ l') = taken l ++ taken l'.
Proof. unfold taken. by rewrite List.filter_app, map_app. Qed.

Lemma taken_handles l h : h ∈ taken l -> h ∈ handles l.
Proof.
  unfold taken, handles. rewrite !list_elem_of_In, !in_map_iff. intros (ev & <- & Hin). apply filter_In in Hin. naive_solver.
Qed.

Lemma taken_sublist l : sublist (taken l) (handles l).
Proof.
  induction l as [|[b h] l IH]; cbn; [constructor|]. destruct b; cbn; [by apply sublist_cons|by apply sublist_skip].
Qed.

(** Taking and releasing. *)
Lemma takeFree_some l h l' : takeFree l = Some (h, l') ->
  handles l' = handles l /\ taken l' ≡ₚ h :: taken l.
Proof.
  revert l'. induction l as [|[b e] l IH]; cbn; [done|]. intros l'. destruct b.
  - intros [= <- <-]. cbn. done.
  - destruct (takeFree l) as [[h' l1]|] eqn:E; [|done]. intros [= -> <-]. destruct (IH l1 eq_refl) as [Hh Ht].
    unfold handles, taken in *. cbn. rewrite Hh. split; [done|]. cbn [eventHandle isFree negb List.filter map] in *. rewrite Ht. constructor.
Qed.

Lemma releaseIn_some l h l' : releaseIn l h = Some l' -> NoDup (handles l) ->
  handles l' = handles l /\ (h ∈ taken l -> taken l ≡ₚ h :: taken l') /\ (h ∉ taken l -> taken l' = taken l).
Proof.
  revert l'. induction l as [|[b e] l IH]; cbn; [done|]. intros l'. destruct (Z.eqb_spec e h) as [->|Hne].
  - intros [= <-] Hnd. apply NoDup_cons in Hnd as [Hn Hnd]. split; [done|]. unfold taken. destruct b; cbn; [|split; [done|]].
    + split; [|done]. intros Hin. exfalso. apply Hn. by apply taken_handles.
    + intros Hc. exfalso. apply Hc. by left.
  - destruct (releaseIn l h) as [l1|] eqn:E; [|done]. intros [= <-] Hnd. apply NoDup_cons in Hnd as [Hn Hnd].
    destruct (IH l1 eq_refl Hnd) as (Hh & Hin & Hout). split; [unfold handles in *; cbn; by rewrite Hh|]. unfold taken in *.
    cbn [List.filter isFree]. destruct b; cbn [negb map eventHandle]; [done|]. split.
    + intros Hi. apply elem_of_cons in Hi as [->|Hi]; [done|]. rewrite (Hin Hi). constructor.
    + intros Ho. rewrite Hout; [done|]. intros Hi. apply Ho. by right.
Qed.

Lemma releaseIn_in l h l' : releaseIn l h = Some l' -> h ∈ handles l.
Proof.
  revert l'. induction l as [|[b e] l IH]; cbn; [done|]. intros l'. destruct (Z.eqb_spec e h) as [->|]; [intros _; by left|].
  destruct (releaseIn l h) eqn:E; [|done]. intros _. right. by eapply IH.
Qed.

Lemma releaseIn_none l h : releaseIn l h = None -> h ∉ handles l.
Proof.
  induction l as [|[b e] l IH]; cbn; [intros _; apply not_elem_of_nil|]. destruct (Z.eqb_spec e h) as [->|Hne]; [done|].
  destruct (releaseIn l h) eqn:E; [done|]. intros _. apply not_elem_of_cons. split; [done|]. by apply IH.
Qed.

Lemma releaseEvent_some m h m' : releaseEvent m h = Some m' -> exists m1 ctx pool l m2,
  m = m1 ++ (ctx, pool) :: m2 /\ releaseIn (events pool) h = Some l /\ m' = m1 ++ (ctx, set_events pool l) :: m2.
Proof.
  revert m'. induction m as [|[ctx pool] m IH]; cbn; [done|]. intros m'. destruct (releaseIn (events pool) h) as [l|] eqn:E.
  - intros [= <-]. by exists [], ctx, pool, l, m.
  - destruct (releaseEvent m h) as [m0|] eqn:E2; [|done]. intros [= <-]. destruct (IH m0 eq_refl) as (m1 & c & p & l & m2 & -> & Hl & ->).
    by exists ((ctx, pool) :: m1), c, p, l, m2.
Qed.

Lemma releaseEvent_none m h : releaseEvent m h = None -> h ∉ handles (all_events m).
Proof.
  induction m as [|[ctx pool] m IH]; cbn; [intros _; apply not_elem_of_nil|]. destruct (releaseIn (events pool) h) eqn:E; [done|].
  destruct (releaseEvent m h) eqn:E2; [done|]. intros _. unfold all_events. cbn. rewrite handles_app, not_elem_of_app.
  split; [by apply releaseIn_none|by apply IH].
Qed.

Section laws.
Context {D : Type} `{EventDriverLaws D}.

(** The manager and the driver: every handle is a live event and occurs once,
    and the current pool of each context has room at the indices not yet used. *)
Record events_ok (d : D) (m : EventsManager) : Prop := mkEventsOk {
  eo_sorted : fm_sorted m;
  eo_handles : NoDup (handles (all_events m));
  eo_live h : h ∈ handles (all_events m) -> h <> 0 /\ h ∈ live_events d;
  eo_pools : NoDup (all_pools m);
  eo_live_pools p : p ∈ all_pools m -> p ∈ live_pools d;
  eo_room ctx pool : (ctx, pool) ∈ m ->
    0 <= eventsFromCurrentPool pool <= eventsCountPerPool /\
    (pools pool <> [] -> forall i, eventsFromCurrentPool pool <= i < eventsCountPerPool -> room d (List.last (pools pool) 0) i)
}.

(** What the calls about one event may change. *)
Definition preserves (d d' : D) : Prop :=
  live_events d' = live_events d /\ live_pools d' = live_pools d /\ (forall p i, room d p i -> room d' p i).

#[export] Instance preserves_preorder : PreOrder preserves.
Proof.
  split; [intros d; by repeat split|]. intros d1 d2 d3 (E1 & P1 & R1) (E2 & P2 & R2). repeat split; [by rewrite E2|by rewrite P2|auto].
Qed.

Lemma events_ok_preserved d d' m : preserves d d' -> events_ok d m -> events_ok d' m.
Proof.
  intros (He & Hp & Hr) [H1 H2 H3 H4 H5 H6]. constructor; try done.
  - intros h Hh. rewrite He. auto.
  - intros p Hin. rewrite Hp. auto.
  - intros ctx pool Hin. destruct (H6 _ _ Hin) as [Hc Hroom]. split; [done|]. intros Hne i Hi. apply Hr. auto.
Qed.

Lemma reset_preserves d h : preserves d (resetEvent d h).
Proof. unfold resetEvent. destruct (zeEventHostReset d h) as [r d'] eqn:E. apply reset_law in E. cbn. by destruct_and!. Qed.

(** The other contexts, and what [m] is up to the order of its entries. *)
Definition poolOf (m : EventsManager) (context : Z) : ContextEvents :=
  match fm_find m context with Some pool => pool | None => newPool end.

Lemma with_pool m ctx : fm_sorted m -> forall pool',
  fm_set m ctx pool' ≡ₚ (ctx, pool') :: fm_erase m ctx /\
  all_events m ≡ₚ events (poolOf m ctx) ++ all_events (fm_erase m ctx) /\
  all_pools m ≡ₚ pools (poolOf m ctx) ++ all_pools (fm_erase m ctx).
Proof.
  intros Hs pool'. unfold poolOf. destruct (fm_find m ctx) as [pool|] eqn:E.
  - pose proof (fm_erase_present _ _ _ Hs E) as Hp. split; [by eapply fm_set_present|]. split; by rewrite Hp at 1.
  - rewrite fm_erase_absent by done. split; [by apply fm_set_absent|]. done.
Qed.

Lemma poolOf_room d m ctx : events_ok d m ->
  0 <= eventsFromCurrentPool (poolOf m ctx) <= eventsCountPerPool /\
  (pools (poolOf m ctx) <> [] -> forall i, eventsFromCurrentPool (poolOf m ctx) <= i < eventsCountPerPool ->
     room d (List.last (pools (poolOf m ctx)) 0) i).
Proof.
  intros Ho. unfold poolOf. destruct (fm_find m ctx) as [pool|] eqn:E.
  - apply (eo_room _ _ Ho ctx). by apply fm_find_in.
  - unfold eventsCountPerPool. cbn. split; [lia|done].
Qed.

(** Replacing the events of one context. *)
Lemma set_pool_ok d d' m ctx pool' : events_ok d m ->
  NoDup (handles (events pool') ++ handles (all_events (fm_erase m ctx))) ->
  (forall h, h ∈ handles (events pool') -> h <> 0 /\ h ∈ live_events d') -> live_events d ⊆ live_events d' ->
  NoDup (pools pool' ++ all_pools (fm_erase m ctx)) ->
  (forall p, p ∈ pools pool' -> p ∈ live_pools d') -> live_pools d ⊆ live_pools d' ->
  0 <= eventsFromCurrentPool pool' <= eventsCountPerPool ->
  (pools pool' <> [] -> forall i, eventsFromCurrentPool pool' <= i < eventsCountPerPool -> room d' (List.last (pools pool') 0) i) ->
  (forall p i, p ∈ all_pools (fm_erase m ctx) -> room d p i -> room d' p i) ->
  events_ok d' (fm_set m ctx pool').
Proof.
  intros Ho Hn Hl Hle Hnp Hlp Hlpe Hc Hr Hrest. pose proof (eo_sorted _ _ Ho) as Hs.
  destruct (with_pool m ctx Hs pool') as (Hset & He & Hp).
  assert (Hev : all_events (fm_set m ctx pool') ≡ₚ events pool' ++ all_events (fm_erase m ctx)) by (by rewrite Hset).
  assert (Hpl : all_pools (fm_set m ctx pool') ≡ₚ pools pool' ++ all_pools (fm_erase m ctx)) by (by rewrite Hset).
  constructor.
  - by apply fm_set_sorted.
  - by rewrite Hev, handles_app.
  - intros h. rewrite Hev, handles_app, elem_of_app. intros [Hh|Hh]; [by apply Hl|].
    destruct (eo_live _ _ Ho h) as [H1 H2]; [rewrite He, handles_app, elem_of_app; by right|]. split; [done|]. by apply Hle.
  - by rewrite Hpl.
  - intros p. rewrite Hpl, elem_of_app. intros [Hin|Hin]; [by apply Hlp|]. apply Hlpe, (eo_live_pools _ _ Ho).
    rewrite Hp, elem_of_app. by right.
  - intros c pl Hin. apply fm_set_elem in Hin as Hin'. rewrite Hset in Hin. apply elem_of_cons in Hin as [[= -> ->]|Hin]; [done|].
    assert (Hm : (c, pl) ∈ m) by (unfold fm_erase in Hin; apply list_elem_of_filter in Hin as [_ Hin]; exact Hin).
    destruct (eo_room _ _ Ho _ _ Hm) as [H1 H2]. split; [done|]. intros Hne i Hi. apply Hrest; [|by apply H2].
    unfold all_pools. apply list_elem_of_In, in_concat. exists (pools pl). split; [apply in_map_iff; exists (c, pl); split; [done|by apply list_elem_of_In]|].
    destruct (pools pl) as [|q l] eqn:El; [done|]. apply exists_last in Hne as (l' & a & ->). rewrite last_last. apply in_or_app. right. by left.
Qed.

Lemma pools_in_rest d m ctx : events_ok d m -> forall p, p ∈ all_pools (fm_erase m ctx) -> p ∈ live_pools d.
Proof.
  intros Ho p Hp. destruct (with_pool m ctx (eo_sorted _ _ Ho) newPool) as (_ & _ & Hpl).
  apply (eo_live_pools _ _ Ho). rewrite Hpl. apply elem_of_app. by right.
Qed.

(** What [ensurePool] achieves for the context. *)
Lemma ensurePool_ok d m ctx ok pool' d' : events_ok d m -> ensurePool d ctx (poolOf m ctx) = (ok, pool', d') ->
  events pool' = events (poolOf m ctx) /\ live_events d' = live_events d /\ live_pools d ⊆ live_pools d' /\
  NoDup (pools pool' ++ all_pools (fm_erase m ctx)) /\ (forall p, p ∈ pools pool' -> p ∈ live_pools d') /\
  (forall p i, p ∈ live_pools d -> room d p i -> room d' p i) /\
  0 <= eventsFromCurrentPool pool' <= eventsCountPerPool /\
  (pools pool' <> [] -> forall i, eventsFromCurrentPool pool' <= i < eventsCountPerPool -> room d' (List.last (pools pool') 0) i) /\
  (ok = true -> pools pool' <> [] /\ eventsFromCurrentPool pool' < eventsCountPerPool).
Proof.
  intros Ho. destruct (poolOf_room d m ctx Ho) as [Hc Hroom].
  destruct (with_pool m ctx (eo_sorted _ _ Ho) newPool) as (_ & _ & Hpl).
  assert (Hnd : NoDup (pools (poolOf m ctx) ++ all_pools (fm_erase m ctx))) by (rewrite <- Hpl; apply (eo_pools _ _ Ho)).
  assert (Hlp : forall p, p ∈ pools (poolOf m ctx) -> p ∈ live_pools d).
  { intros p Hp. apply (eo_live_pools _ _ Ho). rewrite Hpl. apply elem_of_app. by left. }
  unfold ensurePool. destruct ((_ || _)%bool) eqn:Ec.
  - unfold createEventPool. destruct (zeEventPoolCreate d ctx eventsCountPerPool) as [[r p] d1] eqn:Ecr.
    apply pool_create_law in Ecr as (Hev & Hkeep & Hres). destruct (r =? ZE_RESULT_SUCCESS); [|cbn; intros [= <- <- <-]].
    + destruct Hres as (Hp0 & Hpn & Hlive & Hfresh). rewrite (proj2 (Z.eqb_neq _ _)) by done. intros [= <- <- <-]. cbn.
      split_and!; try done; try (unfold eventsCountPerPool; lia).
      * rewrite Hlive. apply union_subseteq_r.
      * rewrite <- app_assoc. cbn [app]. rewrite <- Permutation_middle. apply NoDup_cons. split; [|done].
        rewrite elem_of_app. intros [Hi|Hi]; [by apply Hpn, Hlp|]. by eapply Hpn, pools_in_rest.
      * intros q Hq. rewrite Hlive. apply elem_of_union. apply elem_of_app in Hq as [Hq|Hq]; [right; by apply Hlp|].
        left. apply list_elem_of_singleton in Hq as ->. by apply elem_of_singleton.
      * intros _ i Hi. rewrite last_last. apply Hfresh. done.
      * intros _. split; [by destruct (pools (poolOf m ctx))|unfold eventsCountPerPool; lia].
    + split_and!; try done; try lia; [by rewrite Hres|by rewrite Hres|]. intros Hne i Hi. apply Hkeep; [|by apply Hroom].
      apply Hlp. apply exists_last in Hne as (l' & a & ->). rewrite last_last. apply elem_of_app. right. by left.
  - intros [= <- <- <-]. apply orb_false_iff in Ec as [E1 E2]. split_and!; try done; try lia.
    intros _. split; [by destruct (pools (poolOf m ctx))|lia].
Qed.

Lemma createEvent_ok d p i e d' : p ∈ live_pools d -> room d p i -> createEvent d p i = (e, d') ->
  live_pools d' = live_pools d /\ (forall q j, (q, j) <> (p, i) -> room d q j -> room d' q j) /\ live_events d ⊆ live_events d' /\
  (e <> 0 -> e ∉ live_events d /\ e ∈ live_events d').
Proof.
  intros Hp Hr. unfold createEvent. destruct (zeEventCreate d p i) as [[r h] d1] eqn:Ec.
  destruct (event_create_law _ _ _ _ _ _ Hp Hr Ec) as (H1 & H2 & H3). destruct (r =? ZE_RESULT_SUCCESS); intros [= <- <-].
  - destruct H3 as (Hh & Hn & Hl). rewrite Hl. split_and!; try done; [apply union_subseteq_r|].
    intros _. split; [done|]. apply elem_of_union. left. by apply elem_of_singleton.
  - rewrite H3. by split_and!.
Qed.

(** What handing out an event does to the events that are handed out. *)
Definition hands_out (m m' : EventsManager) (h : Z) : Prop :=
  if h =? 0 then obtained m' ≡ₚ obtained m else h ∉ obtained m /\ obtained m' ≡ₚ h :: obtained m.

Lemma obtained_set m ctx pool' : fm_sorted m ->
  obtained m ≡ₚ taken (events (poolOf m ctx)) ++ obtained (fm_erase m ctx) /\
  obtained (fm_set m ctx pool') ≡ₚ taken (events pool') ++ obtained (fm_erase m ctx).
Proof.
  intros Hs. destruct (with_pool m ctx Hs pool') as (Hset & He & _). unfold obtained. rewrite He, Hset, taken_app. split; [done|].
  change (all_events ((ctx, pool') :: fm_erase m ctx)) with (events pool' ++ all_events (fm_erase m ctx)). by rewrite taken_app.
Qed.

Lemma obtain_taken d m ctx h l : events_ok d m -> takeFree (events (poolOf m ctx)) = Some (h, l) ->
  events_ok d (fm_set m ctx (set_events (poolOf m ctx) l)) /\ h <> 0 /\ hands_out m (fm_set m ctx (set_events (poolOf m ctx) l)) h.
Proof.
  intros Ho Ht. apply takeFree_some in Ht as [Hh Htk]. pose proof (eo_sorted _ _ Ho) as Hs.
  destruct (with_pool m ctx Hs newPool) as (_ & He & Hp). destruct (poolOf_room d m ctx Ho) as [Hc Hroom].
  pose proof (eo_handles _ _ Ho) as Hnd. pose proof (eo_pools _ _ Ho) as Hnp. rewrite He, handles_app in Hnd. rewrite Hp in Hnp.
  assert (Hlive : forall x, x ∈ handles l -> x <> 0 /\ x ∈ live_events d).
  { intros x Hx. apply (eo_live _ _ Ho). rewrite He, handles_app, elem_of_app, <- Hh. by left. }
  assert (Hnew : events_ok d (fm_set m ctx (set_events (poolOf m ctx) l))).
  { apply (set_pool_ok d); cbn [set_events events pools eventsFromCurrentPool]; try done; [by rewrite Hh|].
    intros p Hin. apply (eo_live_pools _ _ Ho). rewrite Hp, elem_of_app. by left. }
  destruct (obtained_set m ctx (set_events (poolOf m ctx) l) Hs) as [E1 E2]. cbn [set_events events] in E2. rewrite Htk in E2. cbn [app] in E2.
  assert (Hin : h ∈ handles l) by (apply taken_handles; rewrite Htk; by left).
  destruct (Hlive h Hin) as [Hh0 _]. split; [done|]. split; [done|]. unfold hands_out. rewrite (proj2 (Z.eqb_neq _ _)) by done.
  assert (Hn : NoDup (obtained (fm_set m ctx (set_events (poolOf m ctx) l)))).
  { eapply sublist_NoDup; [apply (eo_handles _ _ Hnew)|apply taken_sublist]. }
  rewrite E2 in Hn. apply NoDup_cons in Hn as [Hn _]. rewrite E1, E2. by split.
Qed.


Lemma obtain_created d m ctx ok pool' d1 h d2 : events_ok d m -> ensurePool d ctx (poolOf m ctx) = (ok, pool', d1) -> ok = true ->
  createEvent d1 (List.last (pools pool') 0) (eventsFromCurrentPool pool') = (h, d2) ->
  let l := if h =? 0 then events pool' else events pool' ++ [mkEvent false h] in
  let m' := fm_set m ctx (mkPool (pools pool') l (u32 (eventsFromCurrentPool pool' + 1))) in
  events_ok d2 m' /\ hands_out m m' h.
Proof.
  intros Ho He Hok Hc l m'. pose proof (eo_sorted _ _ Ho) as Hs.
  destruct (ensurePool_ok _ _ _ _ _ _ Ho He) as (Hev & Hle & Hlp & Hnp & Hpl & Hkeep & Hcnt & Hroom & Hyes).
  destruct (Hyes Hok) as [Hne Hlt]. unfold eventsCountPerPool in *.
  assert (Hlast : exists l' a, pools pool' = l' ++ [a]) by (destruct (exists_last Hne) as (l' & a & E); eauto).
  destruct Hlast as (l' & a & El). assert (Ela : List.last (pools pool') 0 = a) by (rewrite El; apply last_last). rewrite Ela in Hroom, Hc.
  assert (Hina : a ∈ pools pool') by (rewrite El; apply elem_of_app; right; by left).
  destruct (createEvent_ok _ _ _ _ _ (Hpl a Hina) (Hroom Hne (eventsFromCurrentPool pool') ltac:(lia)) Hc) as (Hp2 & Hr2 & Hl2 & Hnew).
  destruct (with_pool m ctx Hs newPool) as (_ & Hall & _). pose proof (eo_handles _ _ Ho) as Hnd. rewrite Hall, handles_app in Hnd.
  assert (Hold : forall x, x ∈ handles (all_events m) -> x <> 0 /\ x ∈ live_events d2).
  { intros x Hx. destruct (eo_live _ _ Ho x Hx) as [Hx0 Hx1]. split; [done|]. apply Hl2. by rewrite Hle. }
  assert (Hfresh : h <> 0 -> h ∉ handles (all_events m)).
  { intros Hh Hx. destruct (Hnew Hh) as [Hn _]. apply Hn. rewrite Hle. by apply (eo_live _ _ Ho). }
  assert (Hcount : u32 (eventsFromCurrentPool pool' + 1) = eventsFromCurrentPool pool' + 1) by (apply u32_id; word_unfold; lia).
  split.
  - apply (set_pool_ok d); cbn [events pools eventsFromCurrentPool]; rewrite ?Hcount; unfold eventsCountPerPool.
    + done.
    + unfold l. rewrite Hev. destruct (Z.eqb_spec h 0); [done|]. rewrite handles_app, <- app_assoc. cbn.
      rewrite <- Permutation_middle. apply NoDup_cons. split; [|done]. rewrite <- handles_app, <- Hall. by apply Hfresh.
    + intros x Hx. unfold l in Hx. rewrite Hev in Hx. destruct (Z.eqb_spec h 0) as [|Hh].
      * apply Hold. rewrite Hall, handles_app, elem_of_app. by left.
      * rewrite handles_app, elem_of_app in Hx. destruct Hx as [Hx|Hx]; [apply Hold; rewrite Hall, handles_app, elem_of_app; by left|].
        cbn in Hx. apply list_elem_of_singleton in Hx as ->. split; [done|]. by apply Hnew.
    + rewrite <- Hle. done.
    + done.
    + intros p Hp. rewrite Hp2. by apply Hpl.
    + by rewrite Hp2.
    + lia.
    + intros _ i Hi. rewrite Ela. apply Hr2; [intros [=]; lia|]. apply Hroom; [done|lia].
    + intros p i Hin Hroomp. apply Hr2; [|apply Hkeep; [by eapply pools_in_rest|done]].
      intros [= -> ->]. apply NoDup_app in Hnp as (_ & Hd & _). by apply (Hd a).
  - unfold hands_out. destruct (obtained_set m ctx (mkPool (pools pool') l (u32 (eventsFromCurrentPool pool' + 1))) Hs) as [E1 E2].
    fold m' in E2. cbn [events] in E2. unfold l in E2. rewrite Hev in E2. destruct (Z.eqb_spec h 0) as [|Hh]; [by rewrite E1, E2|].
    split; [intros Hin; apply (Hfresh Hh); by apply taken_handles|]. rewrite E2, E1, taken_app. cbn. rewrite <- app_assoc. cbn. by rewrite <- Permutation_middle.
Qed.

(** Handing out internal events. For every context, whatever the driver answers: an
    event that is handed out is not null and was not handed out before without being
    returned; the null event means that nothing changed hands; every request to the driver
    names a live pool and an index with room, and the manager stays consistent. *)
Theorem obtain_ok d m ctx h m' d' :
  events_ok d m -> obtainEventReplacement m d ctx = (h, m', d') -> events_ok d' m' /\ hands_out m m' h.
Proof.
  intros Ho. unfold obtainEventReplacement. fold (poolOf m ctx). destruct (Z.eqb_spec ctx 0) as [->|Hctx].
  { intros [= <- <- <-]. split; [done|]. unfold hands_out. by cbn. }
  destruct (takeFree (events (poolOf m ctx))) as [[e l]|] eqn:Et.
  { intros [= <- <- <-]. by destruct (obtain_taken d m ctx e l Ho Et) as (H1 & _ & H3). }
  destruct (ensurePool d ctx (poolOf m ctx)) as [[ok pool'] d1] eqn:Ee. destruct ok.
  - destruct (createEvent d1 _ _) as [e d2] eqn:Ec. intros [= <- <- <-]. by apply (obtain_created d m ctx true pool' d1 e d2).
  - intros [= <- <- <-]. pose proof (eo_sorted _ _ Ho) as Hs.
    destruct (ensurePool_ok _ _ _ _ _ _ Ho Ee) as (Hev & Hle & Hlp & Hnp & Hpl & Hkeep & Hcnt & Hroom & _).
    destruct (with_pool m ctx Hs newPool) as (_ & Hall & _). pose proof (eo_handles _ _ Ho) as Hnd. rewrite Hall, handles_app in Hnd.
    split.
    + apply (set_pool_ok d); try done.
      * by rewrite Hev.
      * intros x Hx. rewrite Hle. apply (eo_live _ _ Ho). rewrite Hall, handles_app, elem_of_app, <- Hev. by left.
      * by rewrite Hle.
      * intros p i Hp. apply Hkeep. by eapply pools_in_rest.
    + unfold hands_out. cbn. destruct (obtained_set m ctx pool' Hs) as [E1 E2]. by rewrite E1, E2, Hev.
Qed.

(** Returning an event. *)
Lemma returned_ok d m h m' d' : events_ok d m -> returnObtainedEvent m d h = (m', d') ->
  events_ok d' m' /\ (h ∈ obtained m -> obtained m ≡ₚ h :: obtained m') /\ (h ∉ obtained m -> obtained m' = obtained m) /\
  preserves d d' /\ (forall e, e <> h -> zeEventQueryStatus d' e = zeEventQueryStatus d e).
Proof.
  intros Ho. unfold returnObtainedEvent. destruct (releaseEvent m h) as [m1|] eqn:Er; intros [= <- <-].
  - pose proof (reset_preserves d h) as Hpres. apply releaseEvent_some in Er as (ma & ctx & pool & l & mb & -> & Hl & ->).
    pose proof (eo_handles _ _ Ho) as Hnd. unfold all_events in Hnd. rewrite map_app, concat_app in Hnd. cbn in Hnd. rewrite !handles_app in Hnd.
    apply NoDup_app in Hnd as (N1 & N2 & N3). apply NoDup_app in N3 as (N3 & N4 & N5).
    destruct (releaseIn_some _ _ _ Hl N3) as (Hh & Hin & Hout).
    assert (Hhs : handles (all_events (ma ++ (ctx, set_events pool l) :: mb)) = handles (all_events (ma ++ (ctx, pool) :: mb))).
    { unfold all_events. rewrite !map_app, !concat_app. cbn. by rewrite !handles_app, Hh. }
    assert (Hps : all_pools (ma ++ (ctx, set_events pool l) :: mb) = all_pools (ma ++ (ctx, pool) :: mb)).
    { unfold all_pools. by rewrite !map_app, !concat_app. }
    split; [|split; [|split; [|split; [done|]]]].
    + apply (events_ok_preserved d); [done|]. destruct Ho as [P1 P2 P3 P4 P5 P6].
      constructor; rewrite ?Hhs, ?Hps; try done.
      * by eapply fm_sorted_replace.
      * intros c p Hp. rewrite elem_of_app, elem_of_cons in Hp.
        destruct Hp as [Hp|[[= -> ->]|Hp]]; [apply (P6 c); apply elem_of_app; by left| |apply (P6 c); apply elem_of_app; right; by right].
        apply (P6 ctx pool). apply elem_of_app. right. by left.
    + unfold obtained, all_events. rewrite !map_app, !concat_app. cbn. rewrite !taken_app, !elem_of_app. intros Hi.
      assert (Hp : h ∈ taken (events pool)).
      { pose proof (releaseIn_in _ _ _ Hl) as Hx.
        destruct Hi as [Hi|[Hi|Hi]]; [exfalso; apply taken_handles in Hi; apply (N2 h Hi); apply elem_of_app; by left|done|].
        exfalso. apply taken_handles in Hi. by apply (N4 h). }
      rewrite (Hin Hp). cbn. by rewrite <- Permutation_middle.
    + unfold obtained, all_events. rewrite !map_app, !concat_app. cbn. rewrite !taken_app, !elem_of_app. intros Hi.
      rewrite Hout; [done|]. tauto.
    + intros e He. unfold resetEvent. destruct (zeEventHostReset d h) as [r d2] eqn:E. apply reset_law in E as (_ & _ & _ & Hq). by apply Hq.
  - split; [done|]. split; [|by split_and!]. intros Hi. exfalso. by apply (releaseEvent_none _ _ Er), taken_handles.
Qed.


(** ** Copies and their events *)

Definition resubmittable (c : CopiesManager) : list InternalOngoingHostptrCopy :=
  concat (map snd (map_to_list (operationsForResubmit c))).

(** All operations that an event is kept for. *)
Definition pending (c : CopiesManager) : list InternalOngoingHostptrCopy := ongoingOperations c ++ resubmittable c.

Abbreviation events_of l := (map associatedEvent l).

(** Each event that was handed out belongs to one pending operation, but for
    those in [lost]. *)
Definition owned (c : CopiesManager) (m : EventsManager) (lost : list Z) : Prop :=
  obtained m ≡ₚ events_of (pending c) ++ lost.

Lemma obtained_NoDup d m : events_ok d m -> NoDup (obtained m).
Proof. intros Ho. eapply sublist_NoDup; [apply (eo_handles _ _ Ho)|apply taken_sublist]. Qed.

Lemma resubmit_insert (f : gmap Z (list InternalOngoingHostptrCopy)) cl ops :
  concat (map snd (map_to_list (<[cl := ops]> f))) ≡ₚ ops ++ concat (map snd (map_to_list (delete cl f))).
Proof. rewrite <- insert_delete_eq. rewrite map_to_list_insert by apply lookup_delete_eq. done. Qed.

Lemma resubmit_lookup (f : gmap Z (list InternalOngoingHostptrCopy)) cl ops : f !! cl = Some ops ->
  concat (map snd (map_to_list f)) ≡ₚ ops ++ concat (map snd (map_to_list (delete cl f))).
Proof. intros Hf. rewrite <- (map_to_list_delete f cl ops Hf). done. Qed.

(** [operationsForResubmit[cl]] *)
Lemma resubmit_default (f : gmap Z (list InternalOngoingHostptrCopy)) cl :
  concat (map snd (map_to_list f)) ≡ₚ default [] (f !! cl) ++ concat (map snd (map_to_list (delete cl f))).
Proof. destruct (f !! cl) eqn:E; cbn; [by apply resubmit_lookup|]. by rewrite delete_id. Qed.

Lemma keepForResubmit_perm f op :
  concat (map snd (map_to_list (keepForResubmit f op))) ≡ₚ op :: concat (map snd (map_to_list f)).
Proof.
  unfold keepForResubmit. rewrite resubmit_insert, (resubmit_default f (commandList op)), <- app_assoc. cbn. by rewrite <- Permutation_middle.
Qed.

Lemma keepAll_perm ops f :
  concat (map snd (map_to_list (foldl keepForResubmit f ops))) ≡ₚ ops ++ concat (map snd (map_to_list f)).
Proof.
  revert f. induction ops as [|op ops IH]; intros f; cbn; [done|]. rewrite IH, keepForResubmit_perm. by rewrite <- Permutation_middle.
Qed.

Lemma resubmit_pending c cl : events_of (pending (resubmitOperationsOfCommandList c cl)) ≡ₚ events_of (pending c).
Proof.
  unfold resubmitOperationsOfCommandList. destruct (operationsForResubmit c !! cl) as [ops|] eqn:E; [|done].
  unfold pending, resubmittable. cbn [ongoingOperations operationsForResubmit].
  rewrite resubmit_insert, (resubmit_lookup _ _ _ E). cbn [app]. rewrite <- app_assoc, !map_app, map_map. done.
Qed.

Lemma returnAll_ok l d m rest m' d' : events_ok d m -> obtained m ≡ₚ events_of l ++ rest -> returnAll l m d = (m', d') ->
  events_ok d' m' /\ obtained m' ≡ₚ rest /\ preserves d d'.
Proof.
  revert d m. induction l as [|op l IH]; intros d m Ho Hp; unfold returnAll; cbn; [intros [= <- <-]; by split_and!|].
  destruct (returnObtainedEvent m d (associatedEvent op)) as [m1 d1] eqn:E.
  destruct (returned_ok _ _ _ _ _ Ho E) as (Ho1 & Hin & _ & Hpr & _). fold (returnAll l m1 d1). intros Hr.
  assert (Hp1 : obtained m1 ≡ₚ events_of l ++ rest).
  { cbn [map app] in Hp. apply (Permutation_cons_inv (a := associatedEvent op)). rewrite <- Hp. symmetry. apply Hin. rewrite Hp. by left. }
  destruct (IH _ _ Ho1 Hp1 Hr) as (H1 & H2 & H3). split_and!; try done. by etrans.
Qed.

Lemma in_filter {A} (p : A -> bool) l x : x ∈ List.filter p l -> x ∈ l.
Proof. rewrite !list_elem_of_In, filter_In. tauto. Qed.

Lemma filter_split {A} (p : A -> bool) l : l ≡ₚ List.filter p l ++ List.filter (fun x => negb (p x)) l.
Proof.
  induction l as [|x l IH]; cbn; [done|]. destruct (p x); cbn; [by rewrite IH at 1|]. rewrite <- Permutation_middle. by rewrite IH at 1.
Qed.

(** Resetting or destroying a command list returns exactly the events of its pending
    copies to the manager, whether they are waiting for the driver or for the next run,
    and forgets the copies; the other copies keep theirs. *)
Theorem free_ok c m d cl lost c' m' d' :
  events_ok d m -> owned c m lost -> freeOperationsOfCommandList c m d cl = (c', m', d') ->
  events_ok d' m' /\ owned c' m' lost /\
  obtained m ≡ₚ obtained m' ++ events_of (List.filter (ofList cl) (ongoingOperations c) ++ default [] (operationsForResubmit c !! cl)) /\
  ongoingOperations c' = List.filter (fun op => negb (ofList cl op)) (ongoingOperations c) /\
  operationsForResubmit c' = delete cl (operationsForResubmit c).
Proof.
  intros Ho Hw. unfold freeOperationsOfCommandList.
  destruct (returnAll (List.filter (ofList cl) (ongoingOperations c)) m d) as [m1 d1] eqn:E1.
  set (gone := List.filter (ofList cl) (ongoingOperations c)) in *.
  set (stay := List.filter (fun op => negb (ofList cl op)) (ongoingOperations c)).
  assert (Hpend : pending c ≡ₚ gone ++ default [] (operationsForResubmit c !! cl) ++ stay ++ concat (map snd (map_to_list (delete cl (operationsForResubmit c))))).
  { unfold pending, resubmittable. rewrite (resubmit_default _ cl). rewrite (filter_split (ofList cl) (ongoingOperations c)).
    fold gone stay. rewrite <- !app_assoc. apply Permutation_app_head. rewrite !app_assoc. apply Permutation_app_tail, Permutation_app_comm. }
  unfold owned in Hw. rewrite Hpend, !map_app, <- !app_assoc in Hw.
  destruct (returnAll_ok _ _ _ _ _ _ Ho Hw E1) as (Ho1 & Hp1 & _).
  destruct (operationsForResubmit c !! cl) as [ops|] eqn:El; cbn [default] in *.
  - destruct (returnAll ops m1 d1) as [m2 d2] eqn:E2. intros [= <- <- <-].
    destruct (returnAll_ok _ _ _ _ _ _ Ho1 Hp1 E2) as (Ho2 & Hp2 & _). split; [done|].
    unfold owned, pending, resubmittable. cbn [ongoingOperations operationsForResubmit]. rewrite map_app, <- app_assoc.
    split; [done|]. split; [|done]. rewrite Hw, map_app, Hp2. rewrite app_assoc. apply Permutation_app_comm.
  - intros [= <- <- <-]. rewrite delete_id in * by done. split; [done|]. cbn [map app] in Hp1.
    unfold owned, pending, resubmittable. cbn [ongoingOperations operationsForResubmit]. rewrite map_app, <- app_assoc.
    split; [done|]. split; [|done]. rewrite Hw, Hp1, app_nil_r. cbn. apply Permutation_app_comm.
Qed.


(** ** Polling *)

Definition finished (d : D) (op : InternalOngoingHostptrCopy) : bool :=
  isFinished op || (zeEventQueryStatus d (associatedEvent op) =? ZE_RESULT_SUCCESS).

(** A copy of some bytes that does not end where it begins. *)
Definition copies_bytes (op : InternalOngoingHostptrCopy) : Prop :=
  checkRange (destination op) (u64 (destination op + destinationSize op)) = false.

Definition rangeOf (op : InternalOngoingHostptrCopy) : AddressRange :=
  mkRange (destination op) (u64 (destination op + destinationSize op)).

(** The finished operations that wait for the next run. *)
Definition kept (d : D) (l : list InternalOngoingHostptrCopy) : list InternalOngoingHostptrCopy :=
  map (fun op => set_finished op true) (List.filter (fun op => finished d op && canBeResubmitted op) l).

Definition returned (d : D) (l : list InternalOngoingHostptrCopy) : list InternalOngoingHostptrCopy :=
  List.filter (fun op => finished d op && negb (canBeResubmitted op)) l.

Lemma finished_ext d d' l : (forall op, op ∈ l -> zeEventQueryStatus d' (associatedEvent op) = zeEventQueryStatus d (associatedEvent op)) ->
  kept d' l = kept d l /\ returned d' l = returned d l /\ List.filter (finished d') l = List.filter (finished d) l /\
  map (fun op => if finished d' op then set_finished op true else op) l = map (fun op => if finished d op then set_finished op true else op) l.
Proof.
  unfold kept, returned. induction l as [|op l IH]; intros Hq; cbn; [done|].
  assert (E : finished d' op = finished d op) by (unfold finished; rewrite Hq; [done|by left]). rewrite E.
  destruct IH as (H1 & H2 & H3 & H4); [intros; apply Hq; by right|]. injection H4 as H4 || idtac.
  rewrite H2, H3, H4. destruct (finished d op), (canBeResubmitted op); cbn; rewrite ?H1; done.
Qed.

(** One finished operation: it is kept with its event reset, or its event is returned. *)
Lemma settle_ok d m op f rest f' m' d' : events_ok d m -> obtained m ≡ₚ associatedEvent op :: rest ->
  settle (set_finished op true) f m d = (f', m', d') ->
  events_ok d' m' /\ preserves d d' /\ (forall e, e <> associatedEvent op -> zeEventQueryStatus d' e = zeEventQueryStatus d e) /\
  if canBeResubmitted op then f' = keepForResubmit f (set_finished op true) /\ obtained m' = obtained m
  else f' = f /\ obtained m' ≡ₚ rest.
Proof.
  intros Ho Hp. unfold settle. cbn [canBeResubmitted set_finished associatedEvent]. destruct (canBeResubmitted op).
  - intros [= <- <- <-]. pose proof (reset_preserves d (associatedEvent op)) as Hpr. split_and!; try done; [by eapply events_ok_preserved|].
    intros e He. unfold resetEvent. destruct (zeEventHostReset d _) as [r d1] eqn:E. apply reset_law in E as (_ & _ & _ & Hq). by apply Hq.
  - destruct (returnObtainedEvent m d (associatedEvent op)) as [m1 d1] eqn:E. intros [= <- <- <-].
    destruct (returned_ok _ _ _ _ _ Ho E) as (Ho1 & Hin & _ & Hpr & Hq). split_and!; try done.
    apply (Permutation_cons_inv (a := associatedEvent op)). rewrite <- Hp. symmetry. apply Hin. rewrite Hp. by left.
Qed.

Lemma pollCopies_ok l : forall f m d rest, events_ok d m -> Forall copies_bytes l -> obtained m ≡ₚ events_of l ++ rest ->
  exists m' d', pollCopies l f m d ⇓ (map (fun op => if finished d op then set_finished op true else op) l,
      foldl keepForResubmit f (kept d l), m', d', map rangeOf (List.filter (finished d) l)) /\
    events_ok d' m' /\ preserves d d' /\ obtained m ≡ₚ events_of (returned d l) ++ obtained m' /\
    (forall e, e ∉ events_of l -> zeEventQueryStatus d' e = zeEventQueryStatus d e).
Proof.
  induction l as [|op l IH]; intros f m d rest Ho Hb Hp; cbn [pollCopies].
  { exists m, d. split; [done|]. by split_and!. }
  apply Forall_cons in Hb as [Hb1 Hb2]. fold (finished d op). cbn [map app] in Hp.
  assert (Hnd : associatedEvent op ∉ events_of l).
  { pose proof (obtained_NoDup _ _ Ho) as Hn. rewrite Hp in Hn. apply NoDup_cons in Hn as [Hn _]. intros Hi. apply Hn, elem_of_app. by left. }
  assert (Hne : forall o, o ∈ l -> associatedEvent o <> associatedEvent op).
  { intros o Hin Heq. apply Hnd. rewrite <- Heq. apply list_elem_of_fmap. by exists o. }
  destruct (finished d op) eqn:Ef.
  - destruct (settle (set_finished op true) f m d) as [[f1 m1] d1] eqn:Es.
    destruct (settle_ok _ _ _ _ _ _ _ _ Ho Hp Es) as (Ho1 & Hpr1 & Hq & Hcase).
    destruct (finished_ext d d1 l) as (K1 & K2 & K3 & K4); [intros o Hin; apply Hq; by apply Hne|].
    unfold rangeOfSize, makeRange. cbn [destination destinationSize set_finished]. unfold copies_bytes in Hb1. rewrite Hb1. cbn [mbind res_bind].
    assert (Hrest : exists rest', obtained m1 ≡ₚ events_of l ++ rest').
    { destruct (canBeResubmitted op); destruct Hcase as [_ Hc]; [exists (associatedEvent op :: rest)|by exists rest].
      rewrite Hc, Hp. by rewrite <- Permutation_middle. }
    destruct Hrest as [rest' Hp1]. destruct (IH f1 m1 d1 rest' Ho1 Hb2 Hp1) as (m2 & d2 & -> & Ho2 & Hpr2 & Hret & Hq2).
    cbn [mbind res_bind]. exists m2, d2. rewrite K1, K3, K4. rewrite K2 in Hret. unfold kept, returned. cbn [List.filter map]. rewrite Ef. cbn [andb].
    split; [|split; [done|split; [by etrans|split]]].
    + destruct (canBeResubmitted op); destruct Hcase as [-> _]; done.
    + destruct (canBeResubmitted op); cbn [negb map app]; destruct Hcase as [_ Hc]; [by rewrite <- Hc|]. rewrite Hp. constructor. by rewrite <- Hc.
    + intros e Hn. apply not_elem_of_cons in Hn as [Hn1 Hn2]. rewrite Hq2 by done. by apply Hq.
  - destruct (IH f m d (associatedEvent op :: rest) Ho Hb2) as (m2 & d2 & -> & Ho2 & Hpr2 & Hret & Hq2); [rewrite Hp; by rewrite <- Permutation_middle|].
    cbn [mbind res_bind]. exists m2, d2. unfold kept, returned. cbn [List.filter map]. rewrite Ef. cbn [andb]. split_and!; try done.
    intros e Hn. apply not_elem_of_cons in Hn as [Hn1 Hn2]. by apply Hq2.
Qed.

Lemma filter_filter {A} (p q : A -> bool) l : List.filter p (List.filter q l) = List.filter (fun x => q x && p x) l.
Proof. induction l as [|x l IH]; cbn; [done|]. destruct (q x); cbn; [|done]. destruct (p x); by rewrite IH. Qed.

Lemma split_events d l :
  events_of l ≡ₚ events_of (kept d l) ++ events_of (returned d l) ++ events_of (List.filter (fun op => negb (finished d op)) l).
Proof.
  unfold kept. rewrite map_map. cbn [associatedEvent set_finished]. rewrite app_assoc, <- !map_app. apply Permutation_map.
  rewrite (filter_split (finished d) l) at 1. apply Permutation_app_tail.
  rewrite (filter_split canBeResubmitted (List.filter (finished d) l)). by rewrite !filter_filter.
Qed.

Lemma unfinished_stay d l : Forall (fun op => isFinished op = false) l ->
  List.filter (fun op => negb (isFinished op)) (map (fun op => if finished d op then set_finished op true else op) l)
  = List.filter (fun op => negb (finished d op)) l.
Proof.
  induction 1 as [|op l Hf _ IH]; cbn; [done|]. destruct (finished d op) eqn:E; cbn; [done|]. rewrite Hf. cbn. by f_equal.
Qed.

(** Polling. With the statuses that the driver reports when the poll begins: the ranges
    that are handed to the client are those of the pending copies that are finished, each
    once and in their order; these copies leave the list of pending ones, and wait for the
    next run of their command list when it can be run again; otherwise exactly their
    events are returned. No event is lost, and nothing else changes hands. *)
Theorem copies_acquired c m d lost :
  events_ok d m -> owned c m lost -> Forall copies_bytes (ongoingOperations c) ->
  Forall (fun op => isFinished op = false) (ongoingOperations c) ->
  exists c' m' d', acquireFinishedCopies c m d ⇓ (c', m', d', map rangeOf (List.filter (finished d) (ongoingOperations c))) /\
    ongoingOperations c' = List.filter (fun op => negb (finished d op)) (ongoingOperations c) /\
    resubmittable c' ≡ₚ kept d (ongoingOperations c) ++ resubmittable c /\
    obtained m ≡ₚ events_of (returned d (ongoingOperations c)) ++ obtained m' /\
    events_ok d' m' /\ owned c' m' lost.
Proof.
  intros Ho Hw Hb Hf. unfold acquireFinishedCopies, owned, pending in *. rewrite map_app, <- app_assoc in Hw.
  destruct (pollCopies_ok _ (operationsForResubmit c) m d _ Ho Hb Hw) as (m' & d' & -> & Ho' & _ & Hret & _). cbn [mbind res_bind].
  eexists _, m', d'. split; [reflexivity|]. unfold resubmittable. cbn [ongoingOperations operationsForResubmit].
  rewrite (unfinished_stay d) by done. split; [done|]. rewrite keepAll_perm. split; [done|]. split; [done|]. split; [done|].
  apply (Permutation_app_inv_l (events_of (returned d (ongoingOperations c)))). rewrite <- Hret, Hw. rewrite !map_app, !app_assoc.
  apply Permutation_app_tail. rewrite (split_events d (ongoingOperations c)), <- !app_assoc. fold (resubmittable c).
  rewrite !(Permutation_app_swap_app (events_of (kept _ _))). done.
Qed.


(** ** Destroying a context *)

Lemma destroyEvents_ok l d : exists d', foldl (fun d ev => destroyEvent d (eventHandle ev)) d l = d' /\
  (forall h, h ∈ live_events d -> h ∉ handles l -> h ∈ live_events d') /\ live_pools d' = live_pools d /\ (forall p i, room d p i -> room d' p i).
Proof.
  revert d. induction l as [|ev l IH]; intros d; cbn; [by exists d|].
  destruct (IH (destroyEvent d (eventHandle ev))) as (d' & E & H1 & H2 & H3). exists d'. split; [done|].
  unfold destroyEvent in *. destruct (zeEventDestroy d (eventHandle ev)) as [r d1] eqn:Ed. cbn [snd] in *.
  apply event_destroy_law in Ed as (K1 & K2 & K3). split_and!.
  - intros h Hh Hn. apply not_elem_of_cons in Hn as [Hn1 Hn2]. apply H1; [|done]. apply K1. apply elem_of_difference.
    split; [done|]. by apply not_elem_of_singleton.
  - by rewrite H2.
  - auto.
Qed.

Lemma destroyPools_ok l d : exists d', foldl destroyEventPool d l = d' /\ live_events d ⊆ live_events d' /\
  (forall p, p ∈ live_pools d -> p ∉ l -> p ∈ live_pools d') /\ (forall p i, p ∉ l -> room d p i -> room d' p i).
Proof.
  revert d. induction l as [|q l IH]; intros d; cbn; [by exists d|].
  destruct (IH (destroyEventPool d q)) as (d' & E & H1 & H2 & H3). exists d'. split; [done|].
  unfold destroyEventPool in *. destruct (zeEventPoolDestroy d q) as [r d1] eqn:Ed. cbn [snd] in *.
  apply pool_destroy_law in Ed as (K1 & K2 & K3). split_and!.
  - by etrans.
  - intros p Hp Hn. apply not_elem_of_cons in Hn as [Hn1 Hn2]. apply H2; [|done]. apply K2. apply elem_of_difference.
    split; [done|]. by apply not_elem_of_singleton.
  - intros p i Hn Hr. apply not_elem_of_cons in Hn as [Hn1 Hn2]. auto.
Qed.

Lemma clearDataForContext_ok d m ctx m' d' : events_ok d m -> clearDataForContext m d ctx = (m', d') ->
  events_ok d' m' /\ m' = fm_erase m ctx /\ obtained m ≡ₚ taken (events (poolOf m ctx)) ++ obtained m'.
Proof.
  intros Ho. pose proof (eo_sorted _ _ Ho) as Hs. unfold clearDataForContext. destruct (obtained_set m ctx newPool Hs) as [Hob _].
  destruct (with_pool m ctx Hs newPool) as (_ & Hall & Hpl). unfold poolOf in *.
  destruct (fm_find m ctx) as [pool|] eqn:E; intros [= <- <-]; [|by rewrite fm_erase_absent in *].
  split; [|done]. unfold destroyPool. pose proof (eo_handles _ _ Ho) as Hnd. pose proof (eo_pools _ _ Ho) as Hnp.
  rewrite Hall, handles_app in Hnd. rewrite Hpl in Hnp. apply NoDup_app in Hnd as (_ & Hd1 & Hnd). apply NoDup_app in Hnp as (_ & Hd2 & Hnp).
  destruct (destroyEvents_ok (events pool) d) as (d1 & -> & A1 & A2 & A3).
  destruct (destroyPools_ok (pools pool) d1) as (d2 & -> & B1 & B2 & B3).
  constructor; [by apply fm_erase_sorted|done| |done| |].
  - intros h Hh. destruct (eo_live _ _ Ho h) as [Hz Hl]; [rewrite Hall, handles_app, elem_of_app; by right|]. split; [done|].
    apply B1, A1; [done|]. intros Hc. by apply (Hd1 h).
  - intros p Hp. apply B2; [rewrite A2; by eapply pools_in_rest|]. intros Hc. by apply (Hd2 p).
  - intros c pl Hin. assert (Hm : (c, pl) ∈ m) by (unfold fm_erase in Hin; apply list_elem_of_filter in Hin as [_ Hin]; exact Hin).
    destruct (eo_room _ _ Ho _ _ Hm) as [Hc Hr]. split; [done|]. intros Hne i Hi. apply B3; [|by apply A3, Hr].
    intros Hx. apply (Hd2 _ Hx). apply list_elem_of_In, in_concat. exists (pools pl).
    split; [apply in_map_iff; exists (c, pl); split; [done|by apply list_elem_of_In]|].
    apply exists_last in Hne as (l' & a & ->). rewrite last_last. apply in_or_app. right. by left.
Qed.

(** ** The trackers of a client *)

Record trackers_ok (d : D) (t : Trackers) (lost : list Z) : Prop := mkTrackersOk {
  to_events : events_ok d (artificialEvents t);
  to_owned : owned (hostptrCopies t) (artificialEvents t) lost;
  to_unfinished : Forall (fun op => isFinished op = false) (ongoingOperations (hostptrCopies t));
  to_bytes : Forall copies_bytes (pending (hostptrCopies t))
}.

(** A call of the driver that is not about events or pools. *)
Definition harmless {A B : Type} (f : D -> A -> B * D) : Prop := forall d a r d', f d a = (r, d') -> preserves d d'.

Definition harmless2 {A B C : Type} (f : D -> A -> B -> C * D) : Prop :=
  forall d a b r d', f d a b = (r, d') -> preserves d d'.

Lemma addRelay_preserves d status action trigger cl ok status' d' :
  addRelay d status action trigger cl = (ok, status', d') -> preserves d d'.
Proof.
  unfold addRelay. repeat case_match; intros [= <- <- <-]; try done. by eapply barrier_law.
Qed.

Lemma pending_register c cl event dst size b :
  pending (registerCopyOperation c cl event dst size b) ≡ₚ mkCopy dst size cl event false b :: pending c.
Proof.
  unfold pending, registerCopyOperation, resubmittable. cbn. rewrite <- app_assoc. cbn. by rewrite <- Permutation_middle.
Qed.

(** A handler that writes client memory. When no event can be had, it reports that host
    memory is exhausted and nothing changes hands. When the driver takes the command and
    the relay, one new pending copy owns a fresh event. When the driver refuses either,
    the event that was taken belongs to no copy and is lost until its context is destroyed. *)
Theorem append_ok append t d cl signal ptr size target resubmit lost ok ret t' d' :
  harmless2 append -> trackers_ok d t lost -> copies_bytes (mkCopy ptr size cl 0 false resubmit) ->
  appendWithInternalEvent append t d cl signal ptr size target resubmit = (ok, ret, t', d') ->
  contextMappings t' = contextMappings t /\ clientBlocks t' = clientBlocks t /\
  if ok then
    exists event, event ∉ obtained (artificialEvents t) /\
    if ret =? ZE_RESULT_SUCCESS
    then trackers_ok d' t' lost /\ hostptrCopies t' = registerCopyOperation (hostptrCopies t) cl event ptr size resubmit
    else trackers_ok d' t' (event :: lost) /\ hostptrCopies t' = hostptrCopies t
  else ret = ZE_RESULT_ERROR_OUT_OF_HOST_MEMORY /\ trackers_ok d' t' lost /\ hostptrCopies t' = hostptrCopies t.
Proof.
  intros Ha [He Hw Hu Hb] Hsz. unfold appendWithInternalEvent, getInternalEvent.
  destruct (obtainEventReplacement (artificialEvents t) d _) as [[event m1] d1] eqn:Eo.
  destruct (obtain_ok _ _ _ _ _ _ He Eo) as [He1 Hh]. unfold hands_out, owned in *.
  destruct (Z.eqb_spec event 0) as [->|Hev].
  - intros [= <- <- <- <-]. split_and!; try done. constructor; cbn; try done. unfold owned. by rewrite Hh.
  - destruct Hh as [Hfresh Hob]. destruct (append d1 target event) as [r d2] eqn:Ea. apply Ha in Ea.
    destruct (addRelay d2 r signal event cl) as [[b r2] d3] eqn:Er. apply addRelay_preserves in Er.
    assert (He3 : events_ok d3 m1) by (apply (events_ok_preserved d1); [by transitivity d2|done]).
    intros [= <- <- <- <-]. destruct (r2 =? ZE_RESULT_SUCCESS); (split; [done|]); (split; [done|]); exists event; (split; [done|]).
    + split; [|done]. constructor; unfold owned; cbn [artificialEvents hostptrCopies set_deferred]; [done| | |].
      * rewrite pending_register. cbn. by rewrite Hob, Hw.
      * apply Forall_app. split; [done|]. by repeat constructor.
      * rewrite pending_register. by constructor.
    + split; [|done]. constructor; unfold owned; cbn; try done. rewrite Hob, Hw. by rewrite <- Permutation_middle.
Qed.


Lemma copies_bytes_ext l l' : (forall op, op ∈ l' -> exists op', op' ∈ l /\ destination op = destination op' /\ destinationSize op = destinationSize op') ->
  Forall copies_bytes l -> Forall copies_bytes l'.
Proof.
  rewrite !Forall_forall. intros Hex Hb op Hin. destruct (Hex op Hin) as (op' & Hin' & Hd & Hsz). unfold copies_bytes. rewrite Hd, Hsz. by apply Hb.
Qed.

Lemma trackers_preserved d d' t lost : preserves d d' -> trackers_ok d t lost -> trackers_ok d' t lost.
Proof. intros Hp [He Hw Hu Hb]. constructor; try done. by eapply events_ok_preserved. Qed.

Lemma resubmit_ok d t lost lists : trackers_ok d t lost ->
  trackers_ok d (set_deferred t (artificialEvents t) (foldl resubmitOperationsOfCommandList (hostptrCopies t) lists)) lost.
Proof.
  revert t. induction lists as [|cl lists IH]; intros t Ht; cbn [foldl]; [by destruct Ht; constructor|].
  apply (IH (set_deferred t (artificialEvents t) (resubmitOperationsOfCommandList (hostptrCopies t) cl))).
  destruct Ht as [He Hw Hu Hb]. constructor; cbn [artificialEvents hostptrCopies set_deferred].
  - done.
  - unfold owned. by rewrite resubmit_pending.
  - unfold resubmitOperationsOfCommandList. case_match; [|done]. cbn. apply Forall_app. split; [done|]. apply Forall_forall.
    intros op. rewrite list_elem_of_fmap. by intros (o & -> & _).
  - revert Hb. apply copies_bytes_ext. intros op. unfold resubmitOperationsOfCommandList. case_match eqn:E; [|by exists op].
    unfold pending, resubmittable. cbn [ongoingOperations operationsForResubmit]. rewrite resubmit_insert. rewrite !elem_of_app.
    setoid_rewrite elem_of_app. setoid_rewrite (resubmit_lookup _ _ _ E). setoid_rewrite elem_of_app. intros [[Hi|Hi]|[Hi|Hi]].
    + exists op. tauto.
    + apply list_elem_of_fmap in Hi as (o & -> & Hi). exists o. tauto.
    + by apply elem_of_nil in Hi.
    + exists op. tauto.
Qed.

(** The trackers after a poll. *)
Lemma polled_ok d t lost : trackers_ok d t lost ->
  exists c' m' d', acquireFinishedCopies (hostptrCopies t) (artificialEvents t) d
      ⇓ (c', m', d', map rangeOf (List.filter (finished d) (ongoingOperations (hostptrCopies t)))) /\
    (forall mp blocks, trackers_ok d' (mkTrackers mp m' c' blocks) lost) /\
    ongoingOperations c' = List.filter (fun op => negb (finished d op)) (ongoingOperations (hostptrCopies t)) /\
    resubmittable c' ≡ₚ kept d (ongoingOperations (hostptrCopies t)) ++ resubmittable (hostptrCopies t) /\
    obtained (artificialEvents t) ≡ₚ events_of (returned d (ongoingOperations (hostptrCopies t))) ++ obtained m'.
Proof.
  intros [He Hw Hu Hb]. assert (Hb1 : Forall copies_bytes (ongoingOperations (hostptrCopies t))) by (by apply Forall_app in Hb as [? _]).
  destruct (copies_acquired _ _ _ _ He Hw Hb1 Hu) as (c' & m' & d' & Hacq & Hon & Hre & Hob & He' & Hw').
  exists c', m', d'. split_and!; try done. intros mp blocks. constructor; cbn; try done.
  - rewrite Hon. apply Forall_forall. intros op Hi. rewrite Forall_forall in Hu. apply Hu. by eapply in_filter.
  - revert Hb. apply copies_bytes_ext. intros op. unfold pending. rewrite Hon, Hre, !elem_of_app. intros [Hi|[Hi|Hi]].
    + exists op. split; [|done]. apply elem_of_app. left. by eapply in_filter.
    + apply list_elem_of_fmap in Hi as (o & -> & Hi). exists o. split; [|done]. apply elem_of_app. left.
      by eapply in_filter.
    + exists op. split; [|done]. apply elem_of_app. by right.
Qed.

Lemma updateHostptrCopies_ok channel t d lost ok channel' t' d' : trackers_ok d t lost ->
  updateHostptrCopies channel t d ⇓ (ok, channel', t', d') -> trackers_ok d' t' lost.
Proof.
  intros Ht. destruct (polled_ok _ _ _ Ht) as (c' & m' & d1 & Hacq & Hok & _). unfold updateHostptrCopies. rewrite Hacq. cbn [mbind res_bind].
  destruct (collectTransfers _ _ _) as [[descs blocks]| |]; [|done|done]. cbn [mbind res_bind].
  destruct (pushTransfers channel descs) as [[ch b]| |]; [|done|done]. cbn [mbind res_bind]. intros [= <- <- <- <-]. apply Hok.
Qed.

Lemma free_trackers_ok d t lost cl c' m' d' : trackers_ok d t lost ->
  freeOperationsOfCommandList (hostptrCopies t) (artificialEvents t) d cl = (c', m', d') -> forall mp, trackers_ok d' (mkTrackers mp m' c' (clientBlocks t)) lost.
Proof.
  intros [He Hw Hu Hb] Hf mp. destruct (free_ok _ _ _ _ _ _ _ _ He Hw Hf) as (He' & Hw' & _ & Hon & Hre).
  constructor; cbn [artificialEvents hostptrCopies]; try done.
  - rewrite Hon. apply Forall_forall. intros op Hi. rewrite Forall_forall in Hu. apply Hu. by eapply in_filter.
  - revert Hb. apply copies_bytes_ext. intros op. unfold pending, resubmittable. rewrite Hon, Hre, elem_of_app. intros [Hi|Hi]; exists op; (split; [|done]); apply elem_of_app.
    + left. by eapply in_filter.
    + right. rewrite (resubmit_default _ cl). apply elem_of_app. by right.
Qed.


(** ** Runs of a client

    The driver, the trackers and the number of commands that the driver refused
    after an event was taken for them.  A context is only destroyed when no
    copy uses its events, as the specification of Level Zero demands. *)

Abbreviation config := (D * Trackers * nat)%type.

Section runs.
Context {K : Type} `{Kernel K}.

Inductive handled : config -> config -> Prop :=
| h_append append d t n cl signal ptr size target resubmit ok ret t' d' :
    harmless2 append -> copies_bytes (mkCopy ptr size cl 0 false resubmit) ->
    appendWithInternalEvent append t d cl signal ptr size target resubmit = (ok, ret, t', d') ->
    handled (d, t, n) (d', t', if ok && negb (ret =? ZE_RESULT_SUCCESS) then S n else n)
| h_remap d t n (k : K) s ptr size remapped t' s' k' :
    remapPointer k s t ptr size ⇓ (remapped, t', s', k') -> handled (d, t, n) (d, t', n)
| h_execute execute channel d t n lists ok ret channel' t' d' :
    harmless execute -> zeCommandQueueExecuteCommandListsHandler execute channel t d lists ⇓ (ok, ret, channel', t', d') ->
    handled (d, t, n) (d', t', n)
| h_synchronize wait channel d t n handle timeout ok ret channel' t' d' :
    harmless2 wait -> synchronizeHandler wait channel t d handle timeout ⇓ (ok, ret, channel', t', d') ->
    handled (d, t, n) (d', t', n)
| h_reset reset d t n cl ret t' d' :
    harmless reset -> zeCommandListResetHandler reset t d cl = (ret, t', d') -> handled (d, t, n) (d', t', n)
| h_destroy destroy d t n cl ret t' d' :
    harmless destroy -> zeCommandListDestroyHandler destroy t d cl = (ret, t', d') -> handled (d, t, n) (d', t', n)
| h_create create d t n ctx hasHandle ret cl t' d' :
    harmless create -> zeCommandListCreateHandler create t d ctx hasHandle = (ret, cl, t', d') -> handled (d, t, n) (d', t', n)
| h_context destroy d t n ctx ret t' d' :
    harmless destroy -> taken (events (poolOf (artificialEvents t) ctx)) = [] ->
    zeContextDestroyHandler destroy t d ctx = (ret, t', d') -> handled (d, t, n) (d', t', n).

Definition noTrackers : Trackers := mkTrackers (mkMappings [] []) [] noCopies (mkManager [] ∅).

Definition config_ok (s : config) : Prop := exists lost, length lost = snd s /\ trackers_ok (fst (fst s)) (snd (fst s)) lost.

Lemma noTrackers_ok d : config_ok (d, noTrackers, 0%nat).
Proof.
  exists []. split; [done|]. constructor; cbn.
  - constructor; cbn; [constructor|constructor| |constructor| |].
    + intros h Hi. by apply elem_of_nil in Hi.
    + intros p Hi. by apply elem_of_nil in Hi.
    + intros c pool Hi. by apply elem_of_nil in Hi.
  - unfold owned, pending, resubmittable. cbn. by rewrite map_to_list_empty.
  - constructor.
  - unfold pending, resubmittable. cbn. rewrite map_to_list_empty. constructor.
Qed.

Lemma trackers_handled s s' : config_ok s -> handled s s' -> config_ok s'.
Proof.
  intros (lost & Hn & Ht) Hs. destruct Hs as [append d t n cl signal ptr size target resubmit ok ret t' d' Ha Hb He
    |d t n k s0 ptr size remapped t' s' k' Hr|execute channel d t n lists ok ret channel' t' d' Ha He
    |wait channel d t n handle timeout ok ret channel' t' d' Ha He|reset d t n cl ret t' d' Ha He
    |destroy d t n cl ret t' d' Ha He|create d t n ctx hasHandle ret cl t' d' Ha He|destroy d t n ctx ret t' d' Ha Hnone He]; cbn [fst snd] in *.
  - destruct (append_ok _ _ _ _ _ _ _ _ _ _ _ _ _ _ Ha Ht Hb He) as (_ & _ & Hc).
    destruct ok; [|destruct Hc as (_ & Hc & _); by exists lost]. destruct Hc as (event & _ & Hc).
    destruct (ret =? ZE_RESULT_SUCCESS); destruct Hc as [Hc _]; [by exists lost|]. exists (event :: lost). cbn. by rewrite Hn.
  - exists lost. split; [done|]. unfold remapPointer in Hr. destruct (registerMemoryBlock _ _ _ _ _) as [[[[b blocks] s1] k1]| |]; try done.
    cbn [mbind res_bind] in Hr. injection Hr as <- <- <- <-. by destruct Ht.
  - exists lost. split; [done|]. unfold zeCommandQueueExecuteCommandListsHandler in He. destruct (execute d lists) as [r d1] eqn:Ee. apply Ha in Ee.
    pose proof (trackers_preserved _ _ _ _ Ee Ht) as Ht1. destruct (negb (r =? ZE_RESULT_SUCCESS)); [by injection He as <- <- <- <- <-|].
    destruct (updateHostptrCopies _ _ _) as [[[[b ch] t1] d2]| |] eqn:Eu; try done. cbn [mbind res_bind] in He. injection He as <- <- <- <- <-.
    eapply updateHostptrCopies_ok; [by apply resubmit_ok|exact Eu].
  - exists lost. split; [done|]. unfold synchronizeHandler in He. destruct (wait d handle timeout) as [r d1] eqn:Ee. apply Ha in Ee.
    pose proof (trackers_preserved _ _ _ _ Ee Ht) as Ht1. destruct (negb (r =? ZE_RESULT_SUCCESS)); [by injection He as <- <- <- <- <-|].
    destruct (updateHostptrCopies _ _ _) as [[[[b ch] t1] d2]| |] eqn:Eu; try done. cbn [mbind res_bind] in He. injection He as <- <- <- <- <-.
    by eapply updateHostptrCopies_ok.
  - exists lost. split; [done|]. unfold zeCommandListResetHandler in He. destruct (freeOperationsOfCommandList _ _ _ _) as [[c m] d1] eqn:Ef.
    destruct (reset d1 cl) as [r d2] eqn:Er. apply Ha in Er. injection He as <- <- <-. eapply trackers_preserved; [exact Er|]. apply (free_trackers_ok _ _ _ _ _ _ _ Ht Ef).
  - exists lost. split; [done|]. unfold zeCommandListDestroyHandler in He. destruct (freeOperationsOfCommandList _ _ _ _) as [[c m] d1] eqn:Ef.
    destruct (destroy d1 cl) as [r d2] eqn:Er. apply Ha in Er. injection He as <- <- <-. eapply trackers_preserved; [exact Er|].
    destruct (_ && _); apply (free_trackers_ok _ _ _ _ _ _ _ Ht Ef).
  - exists lost. split; [done|]. unfold zeCommandListCreateHandler in He. destruct (create d ctx) as [[r h] d1] eqn:Ec. apply Ha in Ec.
    injection He as <- <- <- <-. eapply trackers_preserved; [exact Ec|]. destruct (_ && _); by destruct Ht.
  - exists lost. split; [done|]. unfold zeContextDestroyHandler in He. destruct (clearDataForContext _ _ _) as [m d1] eqn:Ec.
    destruct (destroy d1 ctx) as [r d2] eqn:Er. apply Ha in Er. injection He as <- <- <-. eapply trackers_preserved; [exact Er|].
    destruct Ht as [He Hw Hu Hb]. destruct (clearDataForContext_ok _ _ _ _ _ He Ec) as (He' & _ & Hob). rewrite Hnone in Hob. cbn [app] in Hob.
    constructor; cbn; try done. unfold owned. by rewrite <- Hob.
Qed.

(** C21: Internal events are never shared. In every run of a client, whatever the driver
    answers: the pending copies (those that are polled and those that wait for the next run
    of their command list) have pairwise different events, all of them live; the events
    that were handed out are those of the pending copies and one more for each command
    that the driver refused; and an event that is handed out next belongs to no pending copy. *)
Theorem internal_events_exclusive d0 d t n :
  rtc handled (d0, noTrackers, 0%nat) (d, t, n) ->
  NoDup (events_of (pending (hostptrCopies t))) /\
  (forall event, event ∈ events_of (pending (hostptrCopies t)) -> event <> 0 /\ event ∈ live_events d) /\
  length (obtained (artificialEvents t)) = (length (pending (hostptrCopies t)) + n)%nat /\
  (forall cl event t' d', getInternalEvent t d cl = (event, t', d') -> event <> 0 -> event ∉ events_of (pending (hostptrCopies t))).
Proof.
  intros Hr. assert (Hok : config_ok (d, t, n)).
  { revert Hr. apply rtc_ind_r; [apply noTrackers_ok|]. intros y z _ Hstep Hy. by eapply trackers_handled. }
  destruct Hok as (lost & Hn & [He Hw Hu Hb]). cbn [fst snd] in *. pose proof (obtained_NoDup _ _ He) as Hnd. unfold owned in Hw.
  assert (Hin : forall event, event ∈ events_of (pending (hostptrCopies t)) -> event ∈ obtained (artificialEvents t)).
  { intros event Hi. rewrite Hw. apply elem_of_app. by left. }
  split_and!.
  - rewrite Hw in Hnd. by apply NoDup_app in Hnd as [? _].
  - intros event Hi. apply (eo_live _ _ He), taken_handles. by apply Hin.
  - by rewrite Hw, length_app, length_map, Hn.
  - intros cl event t' d' Hg Hne Hi. unfold getInternalEvent in Hg. destruct (obtainEventReplacement _ _ _) as [[e m] d1] eqn:Eo.
    destruct (obtain_ok _ _ _ _ _ _ He Eo) as [_ Hh]. injection Hg as <- <- <-. unfold hands_out in Hh.
    rewrite (proj2 (Z.eqb_neq _ _)) in Hh by done. destruct Hh as [Hf _]. by apply Hf, Hin.
Qed.

End runs.

(** Polling. With the statuses that the driver reports when the poll begins: the ranges
    whose transfers the client is told about are those of the pending copies that are
    finished, each once and in their order; these copies leave the list that is polled, and
    wait for the next run of their command list when it can be run again; otherwise exactly
    their events are returned. This also holds when the ring to the client is full: the
    handler fails, and the transfers that did not fit are not told again. *)
Theorem updateHostptrCopies_reports channel t d lost : trackers_ok d t lost ->
  exists c' m' d', updateHostptrCopies channel t d =
    ('(descs, blocks) ← collectTransfers (clientBlocks t) (map rangeOf (List.filter (finished d) (ongoingOperations (hostptrCopies t)))) [];
     '(channel', ok) ← pushTransfers channel descs;
     Ret (ok, channel', mkTrackers (contextMappings t) m' c' blocks, d')) /\
    ongoingOperations c' = List.filter (fun op => negb (finished d op)) (ongoingOperations (hostptrCopies t)) /\
    resubmittable c' ≡ₚ kept d (ongoingOperations (hostptrCopies t)) ++ resubmittable (hostptrCopies t) /\
    obtained (artificialEvents t) ≡ₚ events_of (returned d (ongoingOperations (hostptrCopies t))) ++ obtained m' /\
    (forall blocks, trackers_ok d' (mkTrackers (contextMappings t) m' c' blocks) lost).
Proof.
  intros Ht. destruct (polled_ok _ _ _ Ht) as (c' & m' & d' & Hacq & Hok & Hon & Hre & Hob). exists c', m', d'.
  unfold updateHostptrCopies. rewrite Hacq. by split_and!.
Qed.

Lemma pollCopies_app l1 l2 f m d : pollCopies (l1 ++ l2) f m d =
  ('(l1', f, m, d, copies1) ← pollCopies l1 f m d; '(l2', f, m, d, copies2) ← pollCopies l2 f m d; Ret (l1' ++ l2', f, m, d, copies1 ++ copies2)).
Proof.
  revert f m d. induction l1 as [|op l1 IH]; intros f m d; cbn [pollCopies app].
  - cbn [mbind res_bind]. by destruct (pollCopies l2 f m d) as [[[[[? ?] ?] ?] ?]| |].
  - destruct (isFinished op || _).
    + destruct (settle _ f m d) as [[f1 m1] d1]. destruct (rangeOfSize _ _); cbn [mbind res_bind]; [|done|done]. rewrite IH.
      destruct (pollCopies l1 f1 m1 d1) as [[[[[? ?] ?] ?] ?]| |]; cbn [mbind res_bind]; try done.
      by destruct (pollCopies l2 _ _ _) as [[[[[? ?] ?] ?] ?]| |].
    + rewrite IH. destruct (pollCopies l1 f m d) as [[[[[? ?] ?] ?] ?]| |]; cbn [mbind res_bind]; try done.
      by destruct (pollCopies l2 _ _ _) as [[[[[? ?] ?] ?] ?]| |].
Qed.

(** A copy of no bytes stops the service. When a pending copy of size 0 to an address that
    is not null is finished, the next poll, which any synchronization of the client starts,
    aborts the process of the service. *)
Theorem empty_copy_aborts_service channel t d lost op l1 l2 : owned (hostptrCopies t) (artificialEvents t) lost ->
  events_ok d (artificialEvents t) -> ongoingOperations (hostptrCopies t) = l1 ++ op :: l2 -> Forall copies_bytes l1 ->
  finished d op = true -> is_u64 (destination op) -> destination op <> 0 -> destinationSize op = 0 ->
  updateHostptrCopies channel t d = Abort.
Proof.
  intros Hw He Hon Hb Hf Hr Hd Hz. unfold updateHostptrCopies, acquireFinishedCopies. rewrite Hon, pollCopies_app.
  unfold owned, pending in Hw. rewrite Hon, <- app_assoc, map_app, <- app_assoc in Hw.
  destruct (pollCopies_ok l1 (operationsForResubmit (hostptrCopies t)) _ _ _ He Hb Hw) as (m' & d' & -> & _ & _ & _ & Hq). cbn [mbind res_bind].
  assert (Hn : associatedEvent op ∉ events_of l1).
  { pose proof (obtained_NoDup _ _ He) as Hnd. rewrite Hw in Hnd. apply NoDup_app in Hnd as (_ & Hdis & _). intros Hi. apply (Hdis _ Hi).
    cbn. by left. }
  cbn [pollCopies]. rewrite (Hq _ Hn). fold (finished d op). rewrite Hf. destruct (settle _ _ _ _) as [[f2 m2] d2].
  unfold rangeOfSize, makeRange, checkRange. cbn [destination destinationSize set_finished]. rewrite Hz, Z.add_0_r, u64_id by done.
  rewrite Z.eqb_refl, (proj2 (Z.eqb_neq _ _)) by done. done.
Qed.

End laws.

(** * A concrete driver

    Handles are numbered; an event signals when [runAll] runs the commands. *)

Module ToyDriver.

Record driver := mkDriver { ownPools : list Z; ownEvents : list Z; used : list (Z * Z); signalled : list Z }.

Definition nextOf (l : list Z) : Z := 1 + fold_right Z.max 0 l.

Lemma nextOf_above l x : x ∈ l -> x < nextOf l.
Proof. unfold nextOf. induction l as [|y l IH]; [by intros ?%elem_of_nil|]. cbn. intros [->|Hi]%elem_of_cons; [lia|]. specialize (IH Hi). lia. Qed.

Lemma nextOf_pos l : 0 < nextOf l.
Proof. unfold nextOf. induction l; cbn; lia. Qed.

Definition without (x : Z) (l : list Z) : list Z := List.filter (fun y => negb (y =? x)) l.

#[export] Instance toy_driver : EventDriver driver := {|
  zeEventPoolCreate := fun d _ _ =>
    let p := nextOf (ownPools d) in
    (0, p, mkDriver (p :: ownPools d) (ownEvents d) (List.filter (fun e => negb (fst e =? p)) (used d)) (signalled d));
  zeEventCreate := fun d p i =>
    let e := nextOf (ownEvents d) in (0, e, mkDriver (ownPools d) (e :: ownEvents d) ((p, i) :: used d) (without e (signalled d)));
  zeEventPoolDestroy := fun d p => (0, mkDriver (without p (ownPools d)) (ownEvents d) (used d) (signalled d));
  zeEventDestroy := fun d e => (0, mkDriver (ownPools d) (without e (ownEvents d)) (used d) (signalled d));
  zeEventHostReset := fun d e => (0, mkDriver (ownPools d) (ownEvents d) (used d) (without e (signalled d)));
  zeEventQueryStatus := fun d e => if existsb (Z.eqb e) (signalled d) then 0 else 1;
  zeCommandListAppendBarrier := fun d _ _ _ => (0, d) |}.

Lemma elem_of_without x y l : y ∈ without x l <-> y ∈ l /\ y <> x.
Proof. unfold without. rewrite !list_elem_of_In, filter_In, negb_true_iff, Z.eqb_neq. done. Qed.

Lemma existsb_without e x l : e <> x -> existsb (Z.eqb e) (without x l) = existsb (Z.eqb e) l.
Proof.
  intros Hne. unfold without. induction l as [|y l IH]; cbn; [done|]. destruct (Z.eqb_spec y x) as [->|]; cbn; rewrite IH; [|done].
  by rewrite (proj2 (Z.eqb_neq _ _)).
Qed.

#[export] Program Instance toy_laws : EventDriverLaws driver := {|
  live_events := fun d => list_to_set (ownEvents d);
  live_pools := fun d => list_to_set (ownPools d);
  room := fun d p i => (p, i) ∉ used d |}.
Next Obligation.
  cbn. intros d ctx n r p d' [= <- <- <-]. cbn. split; [done|]. split.
  - intros q i _ Hn Hi. apply Hn. rewrite !list_elem_of_In, filter_In in *. tauto.
  - pose proof (nextOf_pos (ownPools d)). split; [lia|]. split; [|split; [done|]].
    + rewrite elem_of_list_to_set. intros Hi. apply nextOf_above in Hi. lia.
    + intros i _ Hi. rewrite list_elem_of_In, filter_In in Hi. cbn in Hi. rewrite Z.eqb_refl in Hi. by destruct Hi.
Qed.
Next Obligation.
  cbn. intros d p i r e d' _ _ [= <- <- <-]. cbn. split; [done|]. split.
  - intros q j Hne Hn. rewrite not_elem_of_cons. done.
  - pose proof (nextOf_pos (ownEvents d)). split; [lia|]. split; [|done]. rewrite elem_of_list_to_set. intros Hi. apply nextOf_above in Hi. lia.
Qed.
Next Obligation.
  cbn. intros d e r d' [= <- <-]. cbn. split; [|done]. intros x. rewrite elem_of_difference, !elem_of_list_to_set, elem_of_singleton, elem_of_without. done.
Qed.
Next Obligation.
  cbn. intros d p r d' [= <- <-]. cbn. split; [done|]. split; [|done]. intros x. rewrite elem_of_difference, !elem_of_list_to_set, elem_of_singleton, elem_of_without. done.
Qed.
Next Obligation.
  cbn. intros d e r d' [= <- <-]. cbn. split_and!; try done. intros e' Hne. by rewrite existsb_without.
Qed.
Next Obligation. by intros d cl e ws r d' [= <- <-]. Qed.

(** The device takes a command, refuses it, or runs everything. *)
Definition accept (d : driver) (target event : Z) : Z * driver := (0, d).
Definition refuse (d : driver) (target event : Z) : Z * driver := (1, d).
Definition runAll (d : driver) (lists : list Z) : Z * driver := (0, mkDriver (ownPools d) (ownEvents d) (used d) (ownEvents d)).

End ToyDriver.

Import ToyDriver.

Definition freshDriver : driver := mkDriver [] [] [] [].

(** The command list 5 of the context 9, and a staged destination. *)
Definition oneList : Trackers :=
  mkTrackers (registerCommandListToContextMapping (mkMappings [] []) 5 9) [] noCopies (registerUSMStaging (mkManager [] ∅) 0x5000 16).

(** A command list that is created, and two appended commands: the second is refused. *)
Definition afterFirst : bool * Z * Trackers * driver := appendWithInternalEvent accept oneList freshDriver 5 0 0x5000 16 0x9000 true.
Definition afterSecond : bool * Z * Trackers * driver :=
  let '(_, _, t, d) := afterFirst in appendWithInternalEvent refuse t d 5 0 0x6000 16 0xa000 true.

Example refused_command_keeps_its_event :
  let '(ok, ret, t, d) := afterSecond in
  ok = true /\ ret = 1 /\ map associatedEvent (pending (hostptrCopies t)) = [1] /\ obtained (artificialEvents t) = [1; 2] /\ ownEvents d = [2; 1].
Proof. by vm_compute. Qed.

Lemma oneList_ok : trackers_ok freshDriver oneList [].
Proof. destruct (noTrackers_ok freshDriver) as (lost & Hn & [He Hw Hu Hb]). by destruct lost. Qed.

Lemma accept_harmless : harmless2 accept.
Proof. by intros d a b r d' [= <- <-]. Qed.

Lemma refuse_harmless : harmless2 refuse.
Proof. by intros d a b r d' [= <- <-]. Qed.

Lemma runAll_harmless : harmless runAll.
Proof. by intros d a r d' [= <- <-]. Qed.

(** The first command with [size] bytes, and all commands signalled. *)
Definition copyOf (size : Z) : bool * Z * Trackers * driver := appendWithInternalEvent accept oneList freshDriver 5 0 0x5000 size 0x9000 true.
Definition trackersOf (size : Z) : Trackers := snd (fst (copyOf size)).
Definition signalledAfter (size : Z) : driver := snd (runAll (snd (copyOf size)) []).

Lemma copyOf_ok size : copies_bytes (mkCopy 0x5000 size 5 0 false true) -> trackers_ok (signalledAfter size) (trackersOf size) [].
Proof.
  intros Hb. apply (trackers_preserved (snd (copyOf size))); [exact (runAll_harmless (snd (copyOf size)) [] 0 _ eq_refl)|].
  pose proof (append_ok accept oneList freshDriver 5 0 0x5000 size 0x9000 true [] true 0 _ _ accept_harmless oneList_ok Hb eq_refl) as (_ & _ & event & _ & Ht & _).
  exact Ht.
Qed.

Definition exampleServer : ChannelServer :=
  mkServer (cl_shmem exampleClient) exampleLayout (cl_ring exampleClient) (cl_copies exampleClient) (cl_callbacks exampleClient) activePolling false.

Definition createList (d : driver) (ctx : Z) : Z * Z * driver := (0, 5, d).

(** A run: the command list is created, one command is accepted and one refused. *)
Definition mapped : Trackers := set_mappings noTrackers (registerCommandListToContextMapping (mkMappings [] []) 5 9).
Definition firstCopy : bool * Z * Trackers * driver := appendWithInternalEvent accept mapped freshDriver 5 0 0x5000 16 0x9000 true.
Definition secondCopy : bool * Z * Trackers * driver :=
  appendWithInternalEvent refuse (snd (fst firstCopy)) (snd firstCopy) 5 0 0x6000 16 0xa000 true.

Lemma shortRun : rtc (handled (K := Toy.kernel)) (freshDriver, noTrackers, 0%nat) (snd secondCopy, snd (fst secondCopy), 1%nat).
Proof.
  eapply rtc_l; [eapply (h_create createList _ _ _ 9 true 0 5 mapped); [by intros d a r d' [= <- <-]|reflexivity]|].
  eapply rtc_l; [eapply (h_append accept _ _ _ 5 0 0x5000 16 0x9000 true true 0); [exact accept_harmless|reflexivity|reflexivity]|].
  eapply rtc_l; [eapply (h_append refuse _ _ _ 5 0 0x6000 16 0xa000 true true 1); [exact refuse_harmless|reflexivity|reflexivity]|].
  apply rtc_refl.
Qed.

Lemma internal_events_exclusive_witness :
  NoDup (map associatedEvent (pending (hostptrCopies (snd (fst secondCopy))))) /\
  length (obtained (artificialEvents (snd (fst secondCopy)))) = (length (pending (hostptrCopies (snd (fst secondCopy)))) + 1)%nat.
Proof. destruct (internal_events_exclusive _ _ _ _ shortRun) as (H1 & _ & H3 & _). by split. Defined.

Lemma updateHostptrCopies_reports_witness :
  exists channel' t' d', updateHostptrCopies exampleServer (trackersOf 16) (signalledAfter 16) ⇓ (true, channel', t', d') /\
    ongoingOperations (hostptrCopies t') = [] /\ length (resubmittable (hostptrCopies t')) = 1%nat /\
    length (queue (sv_copies channel')) = 1%nat /\ trackers_ok d' t' [].
Proof.
  destruct (updateHostptrCopies_reports exampleServer (trackersOf 16) (signalledAfter 16) [] (copyOf_ok 16 eq_refl))
    as (c' & m' & d' & Hu & Hon & Hre & Hob & Hok).
  set (r := updateHostptrCopies exampleServer (trackersOf 16) (signalledAfter 16)) in *.
  eexists _, _, _. rewrite Hu. split; [vm_compute; reflexivity|]. split; [exact Hon|]. split; [by rewrite Hre|]. split; [vm_compute; reflexivity|].
  apply Hok.
Defined.

Lemma empty_copy_aborts_service_witness : updateHostptrCopies exampleServer (trackersOf 0) (signalledAfter 0) = Abort.
Proof.
  apply (empty_copy_aborts_service exampleServer (trackersOf 0) (signalledAfter 0) [] (mkCopy 0x5000 0 5 1 false true) [] []).
  - exact (to_owned _ _ _ (copyOf_ok 16 eq_refl)).
  - exact (to_events _ _ _ (copyOf_ok 16 eq_refl)).
  - reflexivity.
  - constructor.
  - reflexivity.
  - by vm_compute.
  - by vm_compute.
  - reflexivity.
Defined.
