(* ===== verification/ClientThread.v ===== *)
(** The thread that serves one client of the service
    ([Provider::serviceSingleClient], [serviceRequestMessage] and the [service]
    overloads of service/service.h): a program over the client's connection. *)

From stdpp Require Import gmap strings.
From S2P Require Import Prelude.
From S2P Require Import Align.
From S2P Require Import Ranges.
From S2P Require Import RangeAlloc.
From S2P Require Import Messages.
From S2P Require Import Layout.
From S2P Require Import Kernel.
From S2P Require Import SubAlloc.
From S2P Require Import Shmem.
From S2P Require Import MemMap.
From S2P Require Import Usm.
From S2P Require Import ClientContext.
From S2P Require Import Spectacles.
Local Open Scope Z_scope.

(** * Programs over a connection

    What goes over the socket: bare headers (pings and stops) and messages. *)
Inductive wire : Type := Header (h : ControlMessageHeader) | Message (m : message).

(** Each operation of [Connection] continues with its result; [SStopping] looks at
    [isServiceStopping()].  [SReceive kind] reads a message of the kind with that
    subtype. *)
Inductive script (A : Type) : Type :=
| SDone (a : A)
| SCrash
| SNoFuel
| SSend (x : wire) (cont : bool -> script A)
| SPeek (cont : option ControlMessageHeader -> script A)
| SPeekEof (cont : bool -> script A)
| SReceiveHeader (cont : option ControlMessageHeader -> script A)
| SReceive (kind : Z) (cont : option message -> script A)
| SSendFds (fds : list Z) (cont : bool -> script A)
| SReceiveFds (count : Z) (cont : option (list Z) -> script A)
| SStopping (cont : bool -> script A).
Arguments SDone {A} a.
Arguments SCrash {A}.
Arguments SNoFuel {A}.
Arguments SSend {A} x cont.
Arguments SPeek {A} cont.
Arguments SPeekEof {A} cont.
Arguments SReceiveHeader {A} cont.
Arguments SReceive {A} kind cont.
Arguments SSendFds {A} fds cont.
Arguments SReceiveFds {A} count cont.
Arguments SStopping {A} cont.

#[export] Instance script_ret : MRet script := fun A => @SDone A.
#[export] Instance script_bind : MBind script := fun A B f =>
  fix go (p : script A) : script B :=
    match p with
    | SDone a => f a
    | SCrash => SCrash
    | SNoFuel => SNoFuel
    | SSend x cont => SSend x (fun ok => go (cont ok))
    | SPeek cont => SPeek (fun h => go (cont h))
    | SPeekEof cont => SPeekEof (fun b => go (cont b))
    | SReceiveHeader cont => SReceiveHeader (fun h => go (cont h))
    | SReceive kind cont => SReceive kind (fun m => go (cont m))
    | SSendFds fds cont => SSendFds fds (fun ok => go (cont ok))
    | SReceiveFds count cont => SReceiveFds count (fun r => go (cont r))
    | SStopping cont => SStopping (fun b => go (cont b))
    end.

Definition attempt {A} (m : res A) : script A := match m with Ret a => SDone a | _ => SCrash end.

Definition send (m : message) : script bool := SSend (Message m) (fun ok => SDone ok).

(** [receive(request)] and [isInvalid()]: a valid request of the kind that was asked for. *)
Definition receive {T} (kind : Z) (project : message -> option T) (isInvalid : T -> bool) : script (option T) :=
  SReceive kind (fun received =>
    match received ≫= project with
    | None => SDone None
    | Some request => if isInvalid request then SDone None else SDone (Some request)
    end).

(** The negotiation of the USM range as a part of the client's session. *)
Fixpoint onConnection {A} (p : prog NegotiateUsmAddressRange A) : script A :=
  match p with
  | Done a => SDone a
  | Crash => SCrash
  | NoFuel => SNoFuel
  | Usm.Send m cont => SSend (Message (MRespNegotiate m)) (fun ok => onConnection (cont ok))
  | Recv cont => SReceive ReqNegotiate_subtype (fun received =>
      onConnection (cont (match received with Some (MReqNegotiate m) => Some m | _ => None end)))
  end.

(** * The service

    What does not change while the service runs. *)
Record ServiceConfig := mkServiceConfig {
  sharedRunner : bool;
  persistent : bool;
  defaultRpcMessageChannelSizeMB : Z;
  defaultSharedVaSizeInGB : Z;
  sharedVaArenaSizeMB : Z;
  useSemaphoresInChannelServer : bool;
  availableOcl : bool;
  availableL0 : bool;
  handshakeConfig : RespHandshake
}.

(** What the threads of all clients share. *)
Record Provider (S : Type) := mkProvider {
  runInLoop : bool;
  listening : bool;
  activeClients : Z;
  spectacles : Spectacles S
}.
Arguments mkProvider {S} runInLoop listening activeClients spectacles.
Arguments runInLoop {S} p.
Arguments listening {S} p.
Arguments activeClients {S} p.
Arguments spectacles {S} p.

(** The guard that counts the clients: its destructor compares the count from before the
    decrement, which includes the leaving client, with zero. *)
Definition clientEnters {S} (p : Provider S) : Provider S :=
  mkProvider (runInLoop p) (listening p) (activeClients p + 1) (spectacles p).

Definition clientLeaves {S} (cfg : ServiceConfig) (p : Provider S) : Provider S :=
  let stop := (activeClients p =? 0) && sharedRunner cfg && runInLoop p in
  mkProvider (if stop then false else runInLoop p) (if stop then false else listening p) (activeClients p - 1) (spectacles p).

(** [runInLoop = false; listener->shutdown()] *)
Definition stopListening {S} (p : Provider S) : Provider S := mkProvider false false (activeClients p) (spectacles p).

Section thread.
Context {K C S M : Type} `{Kernel K} `{Choreographies C S M}.
Context (asserts : bool) (cfg : ServiceConfig) (readable : Z -> bool).
Abbreviation W := (World K).

(** The world, the provider and the client's context, with its importer and its place in a
    spectacle. *)
Record State := mkState {
  world : W;
  provider : Provider S;
  context : ClientContext;
  mallocShmemImporter : MallocShmemImporter;
  spectacleAssignment : option M;
  gpuCalls : list GpuCall
}.

Definition set_world (st : State) (w : W) : State :=
  mkState w (provider st) (context st) (mallocShmemImporter st) (spectacleAssignment st) (gpuCalls st).
Definition set_context (st : State) (w : W) (c : ClientContext) : State :=
  mkState w (provider st) c (mallocShmemImporter st) (spectacleAssignment st) (gpuCalls st).
Definition set_importer (st : State) (w : W) (m : MallocShmemImporter) : State :=
  mkState w (provider st) (context st) m (spectacleAssignment st) (gpuCalls st).
Definition set_provider (st : State) (p : Provider S) : State :=
  mkState (world st) p (context st) (mallocShmemImporter st) (spectacleAssignment st) (gpuCalls st).

Abbreviation handler := (script (bool * State)).

Definition answer (m : message) (st : State) : handler := ok ← send m; SDone (ok, st).

(** ** The requests *)

Definition serviceReverseTransferFd (request : ReqReverseTransferFd) (st : State) : handler :=
  SReceiveFds (numOfFds request) (fun received =>
    match received with
    | None => SDone (false, st)
    | Some fds =>
        answer (MRespReverseTransferFd (mkRespReverseTransferFd (requestHeader RespReverseTransferFd_subtype)
                  (fds ++ drop (length fds) [0; 0; 0; 0]))) st
    end).

(** The count is not bounded: descriptors behind the array would be read. *)
Definition serviceTransferFd (request : ReqTransferFd) (st : State) : handler :=
  if Z.of_nat (length (rtf_remoteFds request)) <? usedFdsCount request then SCrash
  else SSendFds (take (Z.to_nat (usedFdsCount request)) (rtf_remoteFds request)) (fun ok => SDone (ok, st)).

(** The address is read; a fault there ends the service. *)
Definition servicePageFault (request : ReqPageFault) (st : State) : handler :=
  if readable (rpf_ptr request) then _ ← send (MRespPageFault newRespPageFault); SDone (true, st) else SCrash.

Definition serviceCheckApi (request : ReqCheckApiAvailability) (st : State) : handler :=
  let isAvailable := match rca_api request with
                     | OpenCL => availableOcl cfg
                     | LevelZero => availableL0 cfg
                     | ApiUnknown => false
                     end in
  answer (MRespCheckApi (mkRespCheckApi (requestHeader RespCheckApi_subtype) isAvailable)) st.

(** A standalone allocation of the first heap; the source allocation, which is a null
    pointer when the heap is exhausted, is dereferenced before the next heap is tried. *)
Fixpoint allocateInHeaps (w : W) (heaps : list UsmHeap) (size : Z) : res (MmappedShmemAllocation * list UsmHeap * W) :=
  match heaps with
  | [] => Ret (noAlloc, [], w)
  | heap :: heaps =>
      '(alloc, heap, w) ← allocateAsStandalone w heap size pageSize4KB;
      match sourceAllocation alloc with
      | None => Undef
      | Some shmem =>
          if isValid shmem then Ret (shmem, heap :: heaps, w)
          else '(shmem, heaps, w) ← allocateInHeaps w heaps size; Ret (shmem, heap :: heaps, w)
      end
  end.

(** The size for the request: the service chooses for a message channel. *)
Definition requestedSize (request : ReqAllocateShmem) : option Z :=
  if negb (ras_size request =? 0) then Some (ras_size request)
  else match ras_purpose request with
       | rpcMessageChannel => Some (u64 (MB * defaultRpcMessageChannelSizeMB cfg))
       | purposeUnknown => None
       end.

Definition allocateForClient (request : ReqAllocateShmem) (size : Z) (st : State) : res (MmappedShmemAllocation * State) :=
  if ras_sharedVa request then
    '(shmem, heaps, w) ← allocateInHeaps (world st) (usmHeaps (context st)) size;
    Ret (shmem, set_context st w (set_heaps (context st) heaps))
  else
    '(shmem, _, w) ← global_allocate (world st) tt size pageSize4KB;
    Ret (shmem, set_world st w).

Definition shmemResponse (request : ReqAllocateShmem) (shmem : MmappedShmemAllocation) : RespAllocateShmem :=
  mkRespAllocateShmem (requestHeader RespAllocateShmem_subtype) (fileSize (mm_base shmem)) (shmem_id (fd_base (mm_base shmem)))
    (if ras_sharedVa request then mmappedPtr shmem else 0).

Definition serviceAllocateShmem (request : ReqAllocateShmem) (st : State) : handler :=
  match requestedSize request with
  | None => SDone (false, st)
  | Some size =>
      '(shmem, st) ← attempt (allocateForClient request size st);
      if negb (isValid shmem) then answer (MRespAllocateShmem newRespAllocateShmem) st
      else answer (MRespAllocateShmem (shmemResponse request shmem)) (set_context st (world st) (registerShmem (context st) shmem))
  end.

(** A channel is known by the id of its shared memory. *)
Definition registerRpcChannel (c : ClientContext) (id : Z) : ClientContext :=
  mkContext (automaticCleanupOfApiHandles c) (isStopping c) (rpcChannels c ++ [id]) (usmHeaps c) (globalShmemsMap c) (usmSharedHostMap c) (tracking c).

Definition synchronizationMethod : ServiceSynchronizationMethod :=
  if useSemaphoresInChannelServer cfg then semaphores else activePolling.

Definition serviceLaunchRpc (request : ReqLaunchRpcShmemRingBuffer) (st : State) : handler :=
  let shmem := getShmemById (context st) (ringbufferShmemId request) in
  if negb (isValid shmem) then SDone (false, st)
  else
    accepted ← attempt (serverPartition (mmappedSize shmem) (rlr_layout request));
    if negb accepted then SDone (false, st)
    else
      sent ← send (MRespLaunchRpc (mkRespLaunchRpc (requestHeader RespLaunchRpc_subtype) synchronizationMethod));
      if negb sent then SDone (false, st)
      else SDone (true, set_context st (world st) (registerRpcChannel (context st) (shmem_id (fd_base (mm_base shmem))))).

(** The heap over the negotiated range. *)
Definition makeUsmHeap (w : W) (range : AddressRange) : res (UsmHeap * W) :=
  makeArenaAllocator w (mkBounded tt true (newRangeAllocator range)) (u64 (sharedVaArenaSizeMB cfg * MB)).

(** Receives the request itself, like [serviceNegotiateUsmAddressRange]. *)
Definition serviceNegotiateUsm (st : State) : handler :=
  '(negotiated, w) ← onConnection (serviceNegotiateUsmAddressRange (u64 (defaultSharedVaSizeInGB cfg * GB)) (world st));
  match negotiated with
  | None => SDone (false, set_world st w)
  | Some range => '(heap, w) ← attempt (makeUsmHeap w range); SDone (true, set_context st w (addUsmHeap (context st) heap))
  end.

Definition serviceImportAddressSpace (request : ReqImportAddressSpace) (st : State) : handler :=
  let '(opened, importer, w) := malloc_open (world st) (mallocShmemImporter st) (mallocShmemResourcePath request)
                                  (clientAddressSpaceSize request) (clientAddressSpaceBaseAddress request) in
  let localBase := if opened then localBaseAddress importer else 0 in
  answer (MRespImport (mkRespImport (requestHeader RespImport_subtype) (negb (localBase =? 0)) localBase)) (set_importer st w importer).

(** Receive a request and serve it; one that cannot be received or is invalid breaks the
    connection. *)
Definition serve {T} (kind : Z) (project : message -> option T) (isInvalid : T -> bool) (service : T -> State -> handler) (st : State) : handler :=
  request ← receive kind project isInvalid;
  match request with
  | None => SDone (false, st)
  | Some request => service request st
  end.

Definition serviceRequestMessage (messageHeader : ControlMessageHeader) (st : State) : handler :=
  let s := subtype messageHeader in
  if s =? ReqAllocateShmem_subtype then
    serve s (fun m => match m with MReqAllocateShmem m => Some m | _ => None end) ReqAllocateShmem_isInvalid serviceAllocateShmem st
  else if s =? ReqLaunchRpc_subtype then
    serve s (fun m => match m with MReqLaunchRpc m => Some m | _ => None end) ReqLaunchRpc_isInvalid serviceLaunchRpc st
  else if s =? ReqNegotiate_subtype then serviceNegotiateUsm st
  else if s =? ReqImport_subtype then
    serve s (fun m => match m with MReqImport m => Some m | _ => None end) ReqImport_isInvalid serviceImportAddressSpace st
  else if s =? ReqPageFault_subtype then
    serve s (fun m => match m with MReqPageFault m => Some m | _ => None end) ReqPageFault_isInvalid servicePageFault st
  else if s =? ReqTransferFd_subtype then
    serve s (fun m => match m with MReqTransferFd m => Some m | _ => None end) ReqTransferFd_isInvalid serviceTransferFd st
  else if s =? ReqReverseTransferFd_subtype then
    serve s (fun m => match m with MReqReverseTransferFd m => Some m | _ => None end) ReqReverseTransferFd_isInvalid serviceReverseTransferFd st
  else if s =? ReqCheckApi_subtype then
    serve s (fun m => match m with MReqCheckApi m => Some m | _ => None end) ReqCheckApi_isInvalid serviceCheckApi st
  else SDone (false, st).

(** ** The session *)

(** Pings before the handshake are received and sent back. *)
Fixpoint answerPings (fuel : nat) : script unit :=
  match fuel with
  | O => SNoFuel
  | Datatypes.S fuel =>
      SPeek (fun peeked =>
        match peeked with
        | Some h =>
            if mtype h =? messageTypePing
            then SReceiveHeader (fun received => SSend (Header (default h received)) (fun _ => answerPings fuel))
            else SDone tt
        | None => SDone tt
        end)
  end.

(** Whether the client asked the service to stop. *)
Definition stopRequested (st : State) : script (bool * State) :=
  SPeek (fun peeked =>
    match peeked with
    | Some h =>
        if mtype h =? messageTypeStop
        then SReceiveHeader (fun received => SSend (Header (default h received)) (fun _ => SDone (true, set_provider st (stopListening (provider st)))))
        else SDone (false, st)
    | None => SDone (false, st)
    end).

(** The main loop: pings and stops are answered, but stay in the socket. *)
Fixpoint serveLoop (fuel : nat) (st : State) : script State :=
  match fuel with
  | O => SNoFuel
  | Datatypes.S fuel =>
      SStopping (fun stopping =>
        if (stopping : bool) then SDone st
        else
          SPeek (fun peeked =>
            match peeked with
            | None => SDone st
            | Some h =>
                if mtype h =? messageTypePing then SSend (Header h) (fun _ => serveLoop fuel st)
                else if mtype h =? messageTypeStop then
                  SSend (Header h) (fun _ => serveLoop fuel (set_provider st (stopListening (provider st))))
                else if mtype h =? messageTypeRequest then
                  '(ok, st) ← serviceRequestMessage h st; if (ok : bool) then serveLoop fuel st else SDone st
                else SDone st
            end))
  end.

(** [ctx.cleanup()], and the destruction of the context. *)
Definition leave (st : State) : res State :=
  '(c, calls, w) ← cleanup (world st) (context st);
  let w := malloc_destroy w (mallocShmemImporter st) in
  w ← destroyHeaps w (usmHeaps c);
  Ret (mkState w (provider st) c (mallocShmemImporter st) (spectacleAssignment st) (gpuCalls st ++ calls)).

Definition startSession (p : Provider S) (w : W) : State :=
  mkState w p (newClientContext (persistent cfg)) newMallocImporter None [].

Definition joinSpectacle (handshake : ReqHandshake) (st : State) : res State :=
  '(newMember, spectacles') ← assignToSpectacle asserts (spectacles (provider st)) (rh_ppid handshake) (rh_pid handshake) (clientProcessName handshake);
  Ret (mkState (world st) (mkProvider (runInLoop (provider st)) (listening (provider st)) (activeClients (provider st)) spectacles')
         (context st) (mallocShmemImporter st) newMember (gpuCalls st)).

(** After the prologue: the handshake, the loop and the cleanup. *)
Definition serveClient (fuel : nat) (clientOrdinal : Z) (st : State) : script State :=
  received ← receive ReqHandshake_subtype (fun m => match m with MReqHandshake m => Some m | _ => None end) ReqHandshake_isInvalid;
  match received with
  | None => SDone st
  | Some handshake =>
      sent ← send (MRespHandshake (mkRespHandshake (sh_header (handshakeConfig cfg)) (sh_pid (handshakeConfig cfg)) clientOrdinal));
      if negb sent then SDone st
      else
        st ← attempt (joinSpectacle handshake st);
        st ← serveLoop fuel st;
        attempt (leave st)
  end.

Definition serviceSingleClient (fuel : nat) (clientOrdinal : Z) (p : Provider S) (w : W) : script State :=
  let st := startSession (clientEnters p) w in
  _ ← answerPings fuel;
  eof ← SPeekEof (fun eof => SDone eof);
  st ← (if (eof : bool) then SDone st
        else
          '(stopped, st) ← stopRequested st;
          if (stopped : bool) then SDone st else serveClient fuel clientOrdinal st);
  SDone (set_provider st (clientLeaves cfg (provider st))).

End thread.
(** * Connections

    What the client sends from now on, in order, then the end of the connection; what was
    sent to it; and the outcomes of the operations that can fail for other reasons: the
    sends, the descriptors that arrive, and whether the service is stopping at each look. *)
Record Conn := mkConn {
  inbox : list wire; sent : list wire; sends : list bool; arriving : list (option (list Z)); stops : list bool }.

Definition set_inbox (c : Conn) (l : list wire) : Conn := mkConn l (sent c) (sends c) (arriving c) (stops c).

(** A receive of the wrong size tears a message apart; what follows is not described. *)
Inductive verdict (A : Type) : Type := Finished (a : A) | Crashed | OutOfFuel | Torn.
Arguments Finished {A} a.
Arguments Crashed {A}.
Arguments OutOfFuel {A}.
Arguments Torn {A}.

Definition headerOf (x : wire) : ControlMessageHeader := match x with Header h => h | Message m => header m end.

(** [sanitizeReceivedData] *)
Definition sanitize (m : message) : message :=
  match m with
  | MReqHandshake m => MReqHandshake (mkReqHandshake (rh_header m) (rh_pid m) (rh_ppid m) (boundedName (clientProcessName m)))
  | _ => m
  end.

Definition deliver (x : wire) (ok : bool) (c : Conn) : Conn :=
  mkConn (inbox c) (if ok then sent c ++ [x] else sent c) (tail (sends c)) (arriving c) (stops c).

Fixpoint run {A} (p : script A) (c : Conn) : verdict A * Conn :=
  match p with
  | SDone a => (Finished a, c)
  | SCrash => (Crashed, c)
  | SNoFuel => (OutOfFuel, c)
  | SSend x cont => let ok := hd true (sends c) in run (cont ok) (deliver x ok c)
  | SPeek cont => run (cont (headerOf <$> head (inbox c))) c
  | SPeekEof cont => run (cont (match inbox c with [] => true | _ => false end)) c
  | SReceiveHeader cont =>
      match inbox c with
      | [] => run (cont None) c
      | Header h :: rest => run (cont (Some h)) (set_inbox c rest)
      | Message _ :: _ => (Torn, c)
      end
  | SReceive kind cont =>
      match inbox c with
      | [] => run (cont None) c
      | Message m :: rest =>
          if messageSubtype m =? kind then run (cont (Some (sanitize m))) (set_inbox c rest) else (Torn, c)
      | Header _ :: [] => run (cont None) (set_inbox c [])
      | Header _ :: _ => (Torn, c)
      end
  | SSendFds fds cont =>
      run (cont (hd true (sends c))) (mkConn (inbox c) (sent c) (tail (sends c)) (arriving c) (stops c))
  | SReceiveFds count cont =>
      run (cont (match hd None (arriving c) with
                 | Some fds => if Z.of_nat (length fds) =? count then Some fds else None
                 | None => None
                 end)) (mkConn (inbox c) (sent c) (sends c) (tail (arriving c)) (stops c))
  | SStopping cont =>
      run (cont (hd false (stops c))) (mkConn (inbox c) (sent c) (sends c) (arriving c) (tail (stops c)))
  end.

Definition map_verdict {A B} (f : A -> Conn -> verdict B * Conn) (r : verdict A * Conn) : verdict B * Conn :=
  match fst r with
  | Finished a => f a (snd r)
  | Crashed => (Crashed, snd r)
  | OutOfFuel => (OutOfFuel, snd r)
  | Torn => (Torn, snd r)
  end.

Lemma run_bind {A B} (p : script A) (f : A -> script B) c :
  run (p ≫= f) c = map_verdict (fun a c => run (f a) c) (run p c).
Proof.
  revert c. induction p as [a| | |x cont IH|cont IH|cont IH|cont IH|kind cont IH|fds cont IH|count cont IH|cont IH]; intros c; cbn; try apply IH.
  - done.
  - done.
  - done.
  - destruct (inbox c) as [|[h|m] rest]; [apply IH|apply IH|done].
  - destruct (inbox c) as [|[h|m] rest]; [apply IH| |].
    + destruct rest; [apply IH|done].
    + destruct (messageSubtype m =? kind); [apply IH|done].
Qed.

(** ** Only the front of the inbox is consumed *)

Lemma run_suffix {A} (p : script A) c : exists l, inbox c = l ++ inbox (snd (run p c)).
Proof.
  revert c. induction p as [a| | |x cont IH|cont IH|cont IH|cont IH|kind cont IH|fds cont IH|count cont IH|cont IH]; intros c; cbn;
    try (by exists []).
  - destruct (IH (hd true (sends c)) (deliver x (hd true (sends c)) c)) as [l Hl]. by exists l.
  - apply IH.
  - apply IH.
  - destruct (inbox c) as [|[h|m] rest] eqn:Hc; [|destruct (IH (Some h) (set_inbox c rest)) as [l Hl]; exists (Header h :: l); cbn in *; by rewrite <- Hl|exists []; cbn; by rewrite Hc].
    destruct (IH None c) as [l Hl]. exists l. by rewrite <- Hl.
  - destruct (inbox c) as [|[h|m] rest] eqn:Hc.
    + destruct (IH None c) as [l Hl]. exists l. by rewrite <- Hl.
    + destruct rest as [|y rest]; [|exists []; cbn; by rewrite Hc].
      destruct (IH None (set_inbox c [])) as [l Hl]. exists (Header h :: l). cbn in *. by rewrite <- Hl.
    + destruct (messageSubtype m =? kind); [|exists []; cbn; by rewrite Hc].
      destruct (IH (Some (sanitize m)) (set_inbox c rest)) as [l Hl]. exists (Message m :: l). cbn in *. by rewrite <- Hl.
  - match goal with |- context [run (cont ?b) ?c'] => destruct (IH b c') as [l Hl] end. by exists l.
  - match goal with |- context [run (cont ?b) ?c'] => destruct (IH b c') as [l Hl] end. by exists l.
  - match goal with |- context [run (cont ?b) ?c'] => destruct (IH b c') as [l Hl] end. by exists l.
Qed.

(** The state and the connection after a program, when it finishes. *)
Definition finishes {A} (p : script A) (c : Conn) (Q : A -> Conn -> Prop) : Prop :=
  match run p c with
  | (Finished a, c') => Q a c'
  | (OutOfFuel, _) => False
  | _ => True
  end.

(** It finishes without crashing. *)
Definition returns {A} (p : script A) (c : Conn) (Q : A -> Conn -> Prop) : Prop :=
  match run p c with
  | (Finished a, c') => Q a c'
  | _ => False
  end.

Lemma finishes_bind {A B} (p : script A) (f : A -> script B) c Q :
  finishes p c (fun a c' => finishes (f a) c' Q) -> finishes (p ≫= f) c Q.
Proof. unfold finishes. rewrite run_bind. unfold map_verdict. destruct (run p c) as [[a| | |] c']; cbn; done. Qed.

Lemma finishes_mono {A} (p : script A) c (Q Q' : A -> Conn -> Prop) :
  finishes p c Q -> (forall a c', Q a c' -> Q' a c') -> finishes p c Q'.
Proof. unfold finishes. intros Hp HQ. destruct (run p c) as [[a| | |] c']; [by apply HQ|done..]. Qed.

Lemma finishes_attempt {A} (m : res A) c Q : (forall a, m ⇓ a -> Q a c) -> finishes (attempt m) c Q.
Proof. unfold finishes, attempt. destruct m; cbn; [|done..]. intros H. by apply H. Qed.

(** ** Programs that end whatever they are answered *)

Fixpoint ensures {A} (p : script A) (Q : A -> Prop) : Prop :=
  match p with
  | SDone a => Q a
  | SCrash => True
  | SNoFuel => False
  | SSend _ cont => forall ok, ensures (cont ok) Q
  | SPeek cont => forall h, ensures (cont h) Q
  | SPeekEof cont => forall b, ensures (cont b) Q
  | SReceiveHeader cont => forall h, ensures (cont h) Q
  | SReceive _ cont => forall m, ensures (cont m) Q
  | SSendFds _ cont => forall ok, ensures (cont ok) Q
  | SReceiveFds _ cont => forall r, ensures (cont r) Q
  | SStopping cont => forall b, ensures (cont b) Q
  end.

Lemma ensures_finishes {A} (p : script A) c Q : ensures p Q -> finishes p c (fun a _ => Q a).
Proof.
  unfold finishes. revert c.
  induction p as [a| | |x cont IH|cont IH|cont IH|cont IH|kind cont IH|fds cont IH|count cont IH|cont IH]; intros c Hp; cbn in *; try done;
    try (apply IH, Hp).
  - destruct (inbox c) as [|[h|m] rest]; [apply IH, Hp|apply IH, Hp|done].
  - destruct (inbox c) as [|[h|m] rest]; [apply IH, Hp| |].
    + destruct rest; [apply IH, Hp|done].
    + destruct (messageSubtype m =? kind); [apply IH, Hp|done].
Qed.

Lemma ensures_bind {A B} (p : script A) (f : A -> script B) P Q :
  ensures p P -> (forall a, P a -> ensures (f a) Q) -> ensures (p ≫= f) Q.
Proof.
  intros Hp Hf. induction p as [a| | |x cont IH|cont IH|cont IH|cont IH|kind cont IH|fds cont IH|count cont IH|cont IH]; cbn in *;
    try (intros x'; apply IH, Hp); try done. by apply Hf.
Qed.

Lemma ensures_attempt {A B} (m : res A) (f : A -> script B) Q :
  (forall a, m ⇓ a -> ensures (f a) Q) -> ensures (attempt m ≫= f) Q.
Proof. intros Hf. destruct m as [a| |]; cbn; [by apply Hf|done..]. Qed.

(** A request that is served was received. *)
Lemma finishes_receive {T} kind (project : message -> option T) invalid c :
  finishes (receive kind project invalid) c
    (fun r c' => match r with Some _ => (length (inbox c') < length (inbox c))%nat | None => True end).
Proof.
  unfold finishes, receive. cbn [run].
  assert (Hsmall : forall r c', (length (inbox c') < length (inbox c))%nat ->
    match run (match r ≫= project with None => SDone None | Some request => if invalid request then SDone None else SDone (Some request) end) c' with
    | (Finished a, c') => match a with Some _ => (length (inbox c') < length (inbox c))%nat | None => True end
    | (OutOfFuel, _) => False
    | _ => True
    end).
  { intros r c' Hc. destruct (r ≫= project) as [t|]; [destruct (invalid t)|]; cbn; done. }
  destruct (inbox c) as [|[h|m] rest]; [done| |].
  - destruct rest; [by apply Hsmall; cbn; lia|done].
  - destruct (messageSubtype m =? kind); [apply Hsmall; cbn; lia|done].
Qed.

Lemma inbox_shrinks {A} (p : script A) c : (length (inbox (snd (run p c))) <= length (inbox c))%nat.
Proof. destruct (run_suffix p c) as [l Hl]. rewrite Hl, length_app. lia. Qed.

(** * The requests end, and leave the service alone *)

Section world_laws.
Context {K : Type} `{KL : KernelLaws K}.

(** The world is a kernel like the one in it. *)
#[export] Instance world_laws : KernelLaws (World K).
Proof.
  split; cbn; unfold on_kernel.
  - intros [k s] pl addr size fd off p w'. destruct (sys_mmap k pl addr size fd off) as [r k'] eqn:E. cbn. rewrite E. intros [= -> _]. by eapply mmap_page.
  - intros [k s] addr size fd off p w'. destruct (sys_mmap k Fixed addr size fd off) as [r k'] eqn:E. cbn. rewrite E. intros [= -> _]. by eapply mmap_fixed.
  - intros [k s] addr size fd off p w'. destruct (sys_mmap k FixedNoReplace addr size fd off) as [r k'] eqn:E. cbn. rewrite E. intros [= -> _]. by eapply mmap_fixed_noreplace.
  - intros [k s] pl addr fd off. pose proof (mmap_empty k pl addr fd off) as He. cbn. by destruct (sys_mmap k pl addr 0 fd off).
  - intros [k s] path create fd w'. destruct (sys_shm_open k path create) as [r k'] eqn:E. cbn. rewrite E. intros [= -> _]. by eapply shm_open_fd.
Qed.

End world_laws.

(** The proposals in the socket hold 64-bit numbers. *)
Definition wire_ok (x : wire) : Prop := match x with Message (MReqNegotiate m) => message_ok m | _ => True end.

Lemma onConnection_returns {A} (p : prog NegotiateUsmAddressRange A) n c :
  ends n p -> Forall wire_ok (inbox c) -> fst (run (onConnection p) c) <> OutOfFuel /\ fst (run (onConnection p) c) <> Crashed.
Proof.
  revert n c. induction p as [a| | |m cont IH|cont IH]; intros n c Hp Hc; cbn in *; try done.
  - destruct n as [|n]; [done|]. eapply IH; [apply Hp|done].
  - destruct n as [|n]; [done|]. destruct Hp as [H1 H2]. destruct (inbox c) as [|[h|m] rest] eqn:Hi.
    + eapply (IH None); [apply H1|]. by rewrite Hi.
    + destruct rest; [|done]. eapply (IH None); [apply H1|done].
    + apply Forall_cons in Hc as [Hm Hrest].
      destruct m as [m|m|m|m|m|m|m|m|m|m|m|m|m|m|m|m|m]; cbn; try done. eapply (IH (Some m)); [by apply H2|done].
Qed.

Section requests.
Context {K C S M : Type} `{KL : KernelLaws K} `{Choreographies C S M}.
Context (asserts : bool) (cfg : ServiceConfig) (readable : Z -> bool).
Abbreviation St := (State (K := K) (S := S) (M := M)).

Definition keeps (st : St) (r : bool * St) : Prop := provider (snd r) = provider st.

Lemma answer_keeps m (st st' : St) : provider st' = provider st -> ensures (answer m st') (keeps st).
Proof. intros Hp ok. exact Hp. Qed.

Lemma serviceAllocateShmem_keeps request (st : St) : ensures (serviceAllocateShmem cfg request st) (keeps st).
Proof.
  unfold serviceAllocateShmem. destruct (requestedSize cfg request) as [size|]; [|done]. apply ensures_attempt. intros [shmem st'] Ha.
  assert (Hp : provider st' = provider st).
  { unfold allocateForClient in Ha. destruct (ras_sharedVa request).
    - apply res_bind_Ret in Ha as ([[? ?] ?] & _ & [= _ <-]). done.
    - apply res_bind_Ret in Ha as ([[? ?] ?] & _ & [= _ <-]). done. }
  destruct (negb (isValid shmem)); by apply answer_keeps.
Qed.

Lemma serviceLaunchRpc_keeps request (st : St) : ensures (serviceLaunchRpc cfg request st) (keeps st).
Proof.
  unfold serviceLaunchRpc. destruct (negb (isValid _)); [done|]. apply ensures_attempt. intros accepted _.
  destruct (negb accepted); [done|]. intros [|]; cbn; done.
Qed.

Lemma serviceImportAddressSpace_keeps request (st : St) : ensures (serviceImportAddressSpace request st) (keeps st).
Proof.
  unfold serviceImportAddressSpace. destruct (malloc_open _ _ _ _ _) as [[opened importer] w]. by apply answer_keeps.
Qed.

Lemma servicePageFault_keeps request (st : St) : ensures (servicePageFault readable request st) (keeps st).
Proof. unfold servicePageFault. destruct (readable _); [|done]. intros ok. done. Qed.

Lemma serviceTransferFd_keeps request (st : St) : ensures (serviceTransferFd request st) (keeps st).
Proof. unfold serviceTransferFd. destruct (_ <? _); [done|]. intros ok. done. Qed.

Lemma serviceReverseTransferFd_keeps request (st : St) : ensures (serviceReverseTransferFd request st) (keeps st).
Proof. intros [fds|]; [|done]. by apply answer_keeps. Qed.

Lemma serviceCheckApi_keeps request (st : St) : ensures (serviceCheckApi cfg request st) (keeps st).
Proof. by apply answer_keeps. Qed.

(** What a served request guarantees: the service is as it was, and when the connection goes
    on, something was received. *)
Definition served_one (st : St) (c : Conn) (r : bool * St) (c' : Conn) : Prop :=
  keeps st r /\ (fst r = true -> (length (inbox c') < length (inbox c))%nat).

Lemma serve_one {T} kind (project : message -> option T) invalid service (st : St) c :
  (forall request, ensures (service request st) (keeps st)) ->
  finishes (serve kind project invalid service st) c (served_one st c).
Proof.
  intros Hs. unfold serve. apply finishes_bind. eapply finishes_mono; [apply finishes_receive|]. intros [request|] c' Hc; [|done].
  pose proof (ensures_finishes (service request st) c' _ (Hs request)) as Hf. pose proof (inbox_shrinks (service request st) c') as Hi.
  unfold finishes in *. destruct (run (service request st) c') as [[[ok st']| | |] c2]; cbn in *; try done.
  split; [done|]. intros _. lia.
Qed.

(** 2^64 bytes are not suggested. *)
Definition config_ok : Prop := 0 <= defaultSharedVaSizeInGB cfg < 1073741824 /\ 0 <= sharedVaArenaSizeMB cfg.

Lemma negotiate_one (st : St) c : Forall wire_ok (inbox c) ->
  finishes (serviceNegotiateUsm cfg st) c (served_one st c).
Proof.
  intros Hc. unfold serviceNegotiateUsm. apply finishes_bind.
  set (size := u64 (defaultSharedVaSizeInGB cfg * GB)).
  assert (Hsize : 0 <= size < W64) by apply u64_range. clearbody size.
  assert (Hends : forall k m, message_ok m -> ends (2 * Z.to_nat 64 + 1)
    (if ReqNegotiate_isInvalid m then Done (None, k)
     else negotiateUsmRangeWithClient (K := World K) k (proposedUsmBase m) (if proposedUsmSize m =? 0 then size else proposedUsmSize m) maxTriesWhenNegotiatingUsmRange)).
  { intros k m (Hb & Hs). destruct (ReqNegotiate_isInvalid m); [exact I|].
    apply withClient_ends; [exact Hb|destruct (_ =? _); lia]. }
  set (p := serviceNegotiateUsmAddressRange size (world st)).
  assert (Hgo : forall o c', Forall wire_ok (inbox c') -> (match o with Some m => message_ok m | None => True end) ->
    match run (onConnection (match o with
                             | None => Done (None, world st)
                             | Some m => if ReqNegotiate_isInvalid m then Done (None, world st)
                                         else negotiateUsmRangeWithClient (world st) (proposedUsmBase m) (if proposedUsmSize m =? 0 then size else proposedUsmSize m) maxTriesWhenNegotiatingUsmRange
                             end)) c' with
    | (Finished a, c'') => (fst a <> None -> o <> None) /\ (length (inbox c'') <= length (inbox c'))%nat
    | (OutOfFuel, _) => False
    | _ => True
    end).
  { intros [m|] c' Hc' Hm; [|cbn; split; [done|lia]].
    match goal with |- context [run ?q c'] => pose proof (inbox_shrinks q c') as Hi end.
    destruct (onConnection_returns _ _ c' (Hends (world st) m Hm) Hc') as [Hnf _].
    destruct (run _ c') as [[a| | |] c'']; cbn in *; try done. }
  assert (Hall : finishes (onConnection p) c (fun r c' => fst r <> None -> (length (inbox c') < length (inbox c))%nat)).
  { unfold finishes. cbn. destruct (inbox c) as [|[h|m] rest] eqn:Hi.
    - by cbn.
    - destruct rest; [by cbn|done].
    - apply Forall_cons in Hc as [Hm Hrest].
      destruct m as [m|m|m|m|m|m|m|m|m|m|m|m|m|m|m|m|m]; cbn; try done.
      specialize (Hgo (Some m) (set_inbox c rest) Hrest Hm). cbn in Hgo.
      destruct (run _ (set_inbox c rest)) as [[a| | |] c'']; cbn in *; try done. intros _. lia. }
  eapply finishes_mono; [exact Hall|]. intros [[range|] w] c' Hr; cbn in Hr.
  - apply finishes_bind, finishes_attempt. intros [heap w'] _. cbn. split; [done|]. intros _. by apply Hr.
  - by split.
Qed.

Lemma request_one h (st : St) c : Forall wire_ok (inbox c) ->
  finishes (serviceRequestMessage cfg readable h st) c (served_one st c).
Proof.
  intros Hc. unfold serviceRequestMessage. cbn zeta.
  destruct (_ =? ReqAllocateShmem_subtype); [apply serve_one; intros; apply serviceAllocateShmem_keeps|].
  destruct (_ =? ReqLaunchRpc_subtype); [apply serve_one; intros; apply serviceLaunchRpc_keeps|].
  destruct (_ =? ReqNegotiate_subtype); [by apply negotiate_one|].
  destruct (_ =? ReqImport_subtype); [apply serve_one; intros; apply serviceImportAddressSpace_keeps|].
  destruct (_ =? ReqPageFault_subtype); [apply serve_one; intros; apply servicePageFault_keeps|].
  destruct (_ =? ReqTransferFd_subtype); [apply serve_one; intros; apply serviceTransferFd_keeps|].
  destruct (_ =? ReqReverseTransferFd_subtype); [apply serve_one; intros; apply serviceReverseTransferFd_keeps|].
  destruct (_ =? ReqCheckApi_subtype); [apply serve_one; intros; apply serviceCheckApi_keeps|].
  by split.
Qed.

End requests.

(** * The session *)

(** Neither a ping nor a stop. *)
Definition plain (x : wire) : Prop := mtype (headerOf x) <> messageTypePing /\ mtype (headerOf x) <> messageTypeStop.

(** The listening part of the service is the same. *)
Definition same_listener {S} (p p' : Provider S) : Prop :=
  runInLoop p' = runInLoop p /\ listening p' = listening p /\ activeClients p' = activeClients p.

Section session.
Context {K C S M : Type} `{KL : KernelLaws K} `{Choreographies C S M}.
Context (asserts : bool) (cfg : ServiceConfig) (readable : Z -> bool).
Abbreviation St := (State (K := K) (S := S) (M := M)).

Lemma Forall_suffix {A} (P : A -> Prop) (l l1 l2 : list A) : Forall P l -> l = l1 ++ l2 -> Forall P l2.
Proof. intros Hl ->. by apply Forall_app in Hl as [_ ?]. Qed.

Lemma serveLoop_ends fuel (st : St) c :
  Forall wire_ok (inbox c) -> Forall plain (inbox c) -> (length (inbox c) < fuel)%nat ->
  finishes (serveLoop cfg readable fuel st) c (fun st' _ => provider st' = provider st).
Proof.
  revert st c. induction fuel as [|fuel IH]; intros st c Hok Hplain Hf; [lia|]. unfold finishes. cbn [serveLoop run].
  destruct (hd false (stops c)); [done|]. cbn [run]. set (c1 := mkConn (inbox c) (sent c) (sends c) (arriving c) (tail (stops c))).
  assert (Hc1 : inbox c1 = inbox c) by done. destruct (inbox c) as [|x rest] eqn:Hi; [done|]. rewrite Hc1. cbn [head fmap option_fmap option_map].
  pose proof Hplain as [[Hp Hs] _]%Forall_cons.
  apply Z.eqb_neq in Hp, Hs. rewrite Hp, Hs. destruct (mtype (headerOf x) =? messageTypeRequest); [|done].
  change (finishes ('(ok, st0) ← serviceRequestMessage cfg readable (headerOf x) st; if (ok : bool) then serveLoop cfg readable fuel st0 else SDone st0) c1
    (fun st' _ => provider st' = provider st)).
  apply finishes_bind. pose proof (request_one cfg readable (headerOf x) st c1) as Hr. rewrite Hc1 in Hr. specialize (Hr Hok).
  destruct (run_suffix (serviceRequestMessage cfg readable (headerOf x) st) c1) as [l Hl].
  unfold finishes in *. destruct (run _ c1) as [[[ok st1]| | |] c2]; try done. destruct Hr as [Hk Hlen]. unfold keeps in Hk. cbn [fst snd] in *.
  destruct ok; [|done]. specialize (Hlen eq_refl). rewrite Hc1 in Hl, Hlen.
  specialize (IH st1 c2). unfold finishes in IH. rewrite <- Hk. apply IH.
  - by eapply Forall_suffix.
  - by eapply Forall_suffix.
  - cbn in *. lia.
Qed.

(** The pings of the prologue. *)
Definition ping : ControlMessageHeader := mkHeader messageTypePing messageTypeUnknown.

Lemma answerPings_ends (pings : list ControlMessageHeader) fuel c rest :
  inbox c = map Header pings ++ rest -> Forall (fun h => mtype h = messageTypePing) pings ->
  match rest with x :: _ => mtype (headerOf x) <> messageTypePing | [] => True end -> (length pings < fuel)%nat ->
  exists ok_sent, run (answerPings fuel) c =
    (Finished tt, mkConn rest (sent c ++ ok_sent) (Nat.iter (length pings) (@tail bool) (sends c)) (arriving c) (stops c)) /\
    (sends c = [] -> ok_sent = map Header pings).
Proof.
  revert fuel c. induction pings as [|h pings IH]; intros fuel c Hi Hp Hrest Hf; (destruct fuel as [|fuel]; [cbn in Hf; lia|]); cbn [answerPings run].
  - cbn in Hi. exists []. rewrite app_nil_r. split; [|done]. rewrite Hi. destruct rest as [|x rest]; cbn.
    + destruct c; cbn in *; by subst.
    + apply Z.eqb_neq in Hrest. rewrite Hrest. destruct c; cbn in *; by subst.
  - rewrite Hi. cbn [map app head fmap option_fmap option_map headerOf]. apply Forall_cons in Hp as [Hh Hp]. rewrite Hh. change (messageTypePing =? messageTypePing) with true. cbv iota.
    cbn [run]. rewrite Hi. cbn [map app]. cbn [run default]. set (ok := hd true (sends (set_inbox c (map Header pings ++ rest)))).
    destruct (IH fuel (deliver (Header h) ok (set_inbox c (map Header pings ++ rest)))) as (l & Hr & Hl); [done|done|done|cbn in Hf; lia|].
    exists ((if ok then [Header h] else []) ++ l). cbn [default]. split.
    + etransitivity; [exact Hr|]. f_equal. unfold deliver, set_inbox. cbn. rewrite <- Nat.iter_succ_r. f_equal. destruct ok; cbn; by rewrite <- ?app_assoc.
    + intros Hs. unfold ok. cbn. rewrite Hs. cbn. f_equal. apply Hl. cbn. by rewrite Hs.
Qed.

(** The client's guard never stops the service. *)
Lemma clientLeaves_same (p : Provider S) n : activeClients p = n + 1 -> 0 <= n ->
  clientLeaves cfg p = mkProvider (runInLoop p) (listening p) n (spectacles p).
Proof.
  intros Ha Hn. unfold clientLeaves. rewrite (proj2 (Z.eqb_neq _ _)) by lia. cbn. rewrite Ha. f_equal. lia.
Qed.

Lemma serveClient_ends fuel ordinal (st : St) c :
  Forall wire_ok (inbox c) -> Forall plain (inbox c) -> (length (inbox c) < fuel)%nat ->
  finishes (serveClient asserts cfg readable fuel ordinal st) c (fun st' _ => same_listener (provider st) (provider st')).
Proof.
  intros Hok Hplain Hf. unfold serveClient. apply finishes_bind.
  set (asHandshake := fun m : message => match m with MReqHandshake m => Some m | _ => None end).
  destruct (run_suffix (receive ReqHandshake_subtype asHandshake ReqHandshake_isInvalid) c) as [l Hl].
  pose proof (finishes_receive ReqHandshake_subtype asHandshake ReqHandshake_isInvalid c) as Hr.
  unfold finishes in Hr |- *. destruct (run (receive _ _ _) c) as [[[handshake|]| | |] c1]; cbn [snd] in Hl; [|done|done|done|done].
  change (finishes (sent ← send (MRespHandshake (mkRespHandshake (sh_header (handshakeConfig cfg)) (sh_pid (handshakeConfig cfg)) ordinal));
      if negb sent then SDone st
      else
        st ← attempt (joinSpectacle asserts handshake st);
        st ← serveLoop cfg readable fuel st;
        attempt (leave st)) c1 (fun st' _ => same_listener (provider st) (provider st'))).
  apply finishes_bind. unfold finishes. cbn [send run]. set (sentOk := hd true (sends c1)). set (c2 := deliver _ sentOk c1).
  destruct sentOk; cbn [negb]; [|done].
  change (finishes (st ← attempt (joinSpectacle asserts handshake st);
        st ← serveLoop cfg readable fuel st;
        attempt (leave st)) c2 (fun st' _ => same_listener (provider st) (provider st'))).
  apply finishes_bind, finishes_attempt. intros st1 Hj. apply finishes_bind.
  assert (Hst1 : same_listener (provider st) (provider st1)).
  { unfold joinSpectacle in Hj. apply res_bind_Ret in Hj as ([m sp] & _ & [= <-]). by split_and!. }
  eapply finishes_mono; [apply (serveLoop_ends fuel st1 c2); [by eapply Forall_suffix|by eapply Forall_suffix|cbn; lia]|].
  intros st2 c3 Hst2. apply finishes_attempt. intros st3 Hl3. unfold leave in Hl3.
  apply res_bind_Ret in Hl3 as ([[x calls] w] & _ & Hl3). apply res_bind_Ret in Hl3 as (w' & _ & [= <-]). cbn [provider]. by rewrite Hst2.
Qed.

(** The thread of a client always comes to an end — or crashes the service, or a message is
    torn apart — and leaves the service as it was.
    Whatever a client sends after its pings, as long as it sends no further ping or stop:
    as many turns as messages are enough for the prologue and the main loop, and
    afterwards the service still runs and listens as before with the same number of
    clients. Only a stop request right after the pings makes the service stop listening;
    in particular the guard that counts the clients never does, not even when the last
    client of a shared runner leaves. *)
Lemma serviceSingleClient_finishes fuel ordinal (p : Provider S) (w : World K) c pings rest :
  inbox c = map Header pings ++ rest -> Forall (fun h => mtype h = messageTypePing) pings ->
  Forall wire_ok rest -> (Forall plain rest \/ exists x rest', rest = x :: rest' /\ mtype (headerOf x) = messageTypeStop) ->
  (length (inbox c) < fuel)%nat -> 0 <= activeClients p ->
  finishes (serviceSingleClient (M := M) asserts cfg readable fuel ordinal p w) c (fun st _ =>
    activeClients (provider st) = activeClients p /\
    if match rest with x :: _ => mtype (headerOf x) =? messageTypeStop | [] => false end
    then listening (provider st) = false /\ runInLoop (provider st) = false
    else listening (provider st) = listening p /\ runInLoop (provider st) = runInLoop p).
Proof.
  intros Hi Hpings Hok Hrest Hf Ha. unfold serviceSingleClient. cbn zeta. apply finishes_bind.
  assert (Hnp : match rest with x :: _ => mtype (headerOf x) <> messageTypePing | [] => True end).
  { destruct rest as [|x rest]; [done|]. destruct Hrest as [[[H1 _] _]%Forall_cons|(y & r & [= <- <-] & Hs)]; [done|]. by rewrite Hs. }
  rewrite Hi, length_app, length_map in Hf.
  destruct (answerPings_ends pings fuel c rest Hi Hpings Hnp ltac:(lia)) as (l & Hrun & _). unfold finishes at 1. rewrite Hrun.
  set (c1 := mkConn rest (sent c ++ l) _ _ _). set (st := startSession cfg (clientEnters p) w).
  assert (Hst : same_listener (clientEnters p) (provider st)) by (by split_and!).
  assert (Hdone : forall st' : St, same_listener (clientEnters p) (provider st') ->
    activeClients (provider (set_provider st' (clientLeaves cfg (provider st')))) = activeClients p /\
    listening (provider (set_provider st' (clientLeaves cfg (provider st')))) = listening p /\
    runInLoop (provider (set_provider st' (clientLeaves cfg (provider st')))) = runInLoop p).
  { intros st' (Hr & Hl & Hc). rewrite (clientLeaves_same (provider st') (activeClients p)) by (done || lia). by cbn. }
  apply finishes_bind. unfold finishes at 1. cbn [run]. change (inbox c1) with rest. apply finishes_bind.
  destruct rest as [|x rest]; [by apply Hdone|]. cbn [mbind script_bind].
  apply finishes_bind. unfold finishes at 1. unfold stopRequested. cbn [run]. change (inbox c1) with (x :: rest). cbn [head fmap option_fmap option_map].
  destruct (Z.eqb_spec (mtype (headerOf x)) messageTypeStop) as [Hs|Hs].
  - cbn [run]. change (inbox c1) with (x :: rest). destruct x as [h|m]; [|done]. cbn [run]. unfold finishes. cbn.
    unfold clientLeaves. cbn. rewrite (proj2 (Z.eqb_neq _ _)) by lia. cbn. split; [lia|done].
  - cbn [run]. destruct Hrest as [Hplain|(y & r & [= <- <-] & Hy)]; [|done].
    eapply finishes_mono; [apply (serveClient_ends fuel ordinal st c1); [done|done|cbn in *; lia]|].
    intros st' c' Hst'. unfold finishes. cbn [run]. destruct (Hdone st') as (H1 & H2 & H3); [|done].
    destruct Hst as (E1 & E2 & E3), Hst' as (F1 & F2 & F3). split_and!; congruence.
Qed.

(** C16: A ping (or a stop) that reaches the main loop is never taken out of the socket: while
    the service runs, it is answered again in every turn, and no message behind it is ever
    served. *)
Theorem serveLoop_answers_forever fuel (st : St) c h rest :
  inbox c = Header h :: rest -> mtype h = messageTypePing \/ mtype h = messageTypeStop -> sends c = [] -> stops c = [] ->
  run (serveLoop cfg readable fuel st) c =
    (OutOfFuel, mkConn (Header h :: rest) (sent c ++ repeat (Header h) fuel) [] (arriving c) []).
Proof.
  intros Hi Hh. revert st c Hi. induction fuel as [|fuel IH]; intros st c Hi Hs Ht; cbn [serveLoop run].
  - destruct c; cbn in *. subst. by rewrite app_nil_r.
  - rewrite Ht. cbn [hd tail run]. rewrite Hi. cbn [inbox head fmap option_fmap option_map headerOf].
    set (c1 := mkConn _ _ _ _ _).
    assert (Hnext : forall st' : St, run (SSend (Header h) (fun _ => serveLoop cfg readable fuel st')) c1 =
      (OutOfFuel, mkConn (Header h :: rest) (sent c ++ repeat (Header h) (Datatypes.S fuel)) [] (arriving c) [])).
    { intros st'. cbn [run]. rewrite IH; [|done|by cbn; rewrite Hs|done]. unfold deliver. cbn. rewrite Hs. cbn. by rewrite <- app_assoc. }
    destruct Hh as [E|E]; rewrite E; apply Hnext.
Qed.

End session.

(** * Shared memory for the client *)

Section shmem.
Context {K C S M : Type} `{Kernel K} `{Choreographies C S M}.
Context (cfg : ServiceConfig).
Abbreviation St := (State (K := K) (S := S) (M := M)).

(** Memory that the service hands to a client can be launched as a channel. A request
    without a usable size breaks the connection; one that cannot be satisfied is answered
    with the response without memory, and nothing is registered; otherwise the response
    names the file, its size and, for shared addresses, where it is mapped, the file is
    registered under the id in the response, and a launch request with that id is served
    on exactly that memory: it is answered and the channel registered if the layout
    fits into it, and breaks the connection if not. *)
Theorem serviceAllocateShmem_outcome request (st : St) c :
  sends c = [] ->
  match requestedSize cfg request with
  | None => run (serviceAllocateShmem cfg request st) c = (Finished (false, st), c)
  | Some size =>
      forall shmem st1, allocateForClient request size st ⇓ (shmem, st1) ->
      if isValid shmem then
        exists st2 r, run (serviceAllocateShmem cfg request st) c = (Finished (true, st2), deliver (Message (MRespAllocateShmem r)) true c) /\
          RespAllocateShmem_isInvalid r = false /\ pas_size r = fileSize (mm_base shmem) /\
          (ras_sharedVa request = true -> pas_sharedVa r = mmappedPtr shmem) /\
          forall launch c', ringbufferShmemId launch = pas_id r -> sends c' = [] ->
            forall accepted, serverPartition (mmappedSize shmem) (rlr_layout launch) ⇓ accepted ->
            run (serviceLaunchRpc cfg launch st2) c' =
              if (accepted : bool) then
                (Finished (true, set_context st2 (world st2) (registerRpcChannel (context st2) (pas_id r))),
                 deliver (Message (MRespLaunchRpc (mkRespLaunchRpc (requestHeader RespLaunchRpc_subtype) (synchronizationMethod cfg)))) true c')
              else (Finished (false, st2), c')
      else
        run (serviceAllocateShmem cfg request st) c = (Finished (true, st1), deliver (Message (MRespAllocateShmem newRespAllocateShmem)) true c) /\
        globalShmemsMap (context st1) = globalShmemsMap (context st)
  end.
Proof.
  intros Hs. unfold serviceAllocateShmem. destruct (requestedSize cfg request) as [size|]; [|done].
  intros shmem st1 Ha. rewrite Ha. cbn [attempt mbind script_bind].
  assert (Hc1 : globalShmemsMap (context st1) = globalShmemsMap (context st)).
  { unfold allocateForClient in Ha. destruct (ras_sharedVa request).
    - by apply res_bind_Ret in Ha as ([[? ?] ?] & _ & [= _ <-]).
    - by apply res_bind_Ret in Ha as ([[? ?] ?] & _ & [= _ <-]). }
  destruct (isValid shmem) eqn:Hv; cbn [negb].
  2: { split; [|done]. unfold answer, send. cbn. by rewrite Hs. }
  eexists _, (shmemResponse request shmem). split; [unfold answer, send; cbn; rewrite Hs; reflexivity|].
  split; [done|]. split; [done|]. split; [intros Hva; cbn; by rewrite Hva|].
  intros launch c' Hid Hs' accepted Hp. unfold serviceLaunchRpc.
  assert (Hget : getShmemById (context (set_context st1 (world st1) (registerShmem (context st1) shmem))) (ringbufferShmemId launch) = shmem).
  { rewrite Hid. unfold getShmemById. cbn. by rewrite lookup_insert_eq. }
  cbn zeta. rewrite Hget, Hv. cbn [negb]. rewrite Hp. cbn [attempt mbind script_bind].
  destruct accepted; cbn [negb]; [|done]. unfold send. cbn. by rewrite Hs'.
Qed.

(** When the first heap of a client is exhausted, a request for memory at shared
    addresses ends the service, however much room the client's other heaps have: the null
    source allocation is dereferenced before the next heap is tried. *)
Theorem exhausted_heap_crashes request (st : St) c size heap heaps alloc heap' w' :
  requestedSize cfg request = Some size -> size <> 0 -> ras_sharedVa request = true ->
  usmHeaps (context st) = heap :: heaps ->
  allocateAsStandalone (world st) heap size pageSize4KB ⇓ (alloc, heap', w') -> isValid alloc = false ->
  run (serviceAllocateShmem cfg request st) c = (Crashed, c).
Proof.
  intros Hsize Hne Hva Hh Halloc Hinv. unfold serviceAllocateShmem. rewrite Hsize. unfold allocateForClient. rewrite Hva, Hh. cbn [allocateInHeaps].
  rewrite Halloc. cbn [mbind res_bind].
  assert (Hnone : sourceAllocation alloc = None).
  { unfold allocateAsStandalone in Halloc. apply res_bind_Ret in Halloc as ([[source u] w] & _ & Halloc).
    destruct (isValid source) eqn:Hs; cbn [negb] in Halloc; injection Halloc as <- _ _; [|done]. apply Z.eqb_neq in Hne. cbn in Hinv, Hs. by rewrite Hne, Hs in Hinv. }
  by rewrite Hnone.
Qed.

End shmem.

(** * Concrete runs *)

Definition exampleConfig : ServiceConfig :=
  mkServiceConfig true false 1 1 1 true false true (newRespHandshake 100).

Definition exampleProvider : Provider (ToyChoreography * nat) := mkProvider true true 0 exampleSpectacles.

Abbreviation exampleState := (State (K := Pages.kernel) (S := ToyChoreography * nat) (M := nat)).

(** A client called [tool] that asks for an API after a ping. *)
Definition exampleInbox : list wire :=
  [Header ping; Message (MReqHandshake (newReqHandshake true 60 50 "tool")); Message (MReqCheckApi (newReqCheckApi LevelZero))].

Definition exampleConn (l : list wire) : Conn := mkConn l [] [] [] [].

Definition exampleSession : verdict exampleState * Conn :=
  run (serviceSingleClient true exampleConfig (fun _ => true) 4 7 exampleProvider exampleWorld) (exampleConn exampleInbox).

Definition exampleAnswers : list wire :=
  [Header ping;
   Message (MRespHandshake (mkRespHandshake (requestHeader RespHandshake_subtype) 100 7));
   Message (MRespCheckApi (mkRespCheckApi (requestHeader RespCheckApi_subtype) true))].

Lemma serviceSingleClient_finishes_witness :
  sent (snd exampleSession) = exampleAnswers /\
  exists st, fst exampleSession = Finished st /\ activeClients (provider st) = 0 /\ listening (provider st) = true.
Proof.
  split; [by vm_compute|].
  pose proof (serviceSingleClient_finishes (M := nat) true exampleConfig (fun _ => true) 4 7 exampleProvider exampleWorld (exampleConn exampleInbox)
    [ping] (tail exampleInbox) eq_refl) as Hends.
  assert (Hf : exists st c, exampleSession = (Finished st, c)) by (vm_compute; by eexists _, _).
  destruct Hf as (st & c & Hf). exists st. rewrite Hf. split; [done|]. unfold exampleSession in Hf. unfold finishes in Hends. rewrite Hf in Hends.
  destruct Hends as (H1 & H2 & _).
  - by repeat constructor.
  - repeat constructor.
  - left. repeat constructor; cbn; done.
  - cbn. lia.
  - done.
  - split; [exact H1|exact H2].
Defined.

(** The check whether the service is alive, sent in the middle of a session. *)
Lemma serveLoop_answers_forever_witness :
  run (serveLoop exampleConfig (fun _ => true) 3 (startSession exampleConfig exampleProvider exampleWorld : exampleState))
    (exampleConn [Header ping; Message (MReqCheckApi (newReqCheckApi LevelZero))])
  = (OutOfFuel, mkConn [Header ping; Message (MReqCheckApi (newReqCheckApi LevelZero))] [Header ping; Header ping; Header ping] [] [] []).
Proof.
  apply (serveLoop_answers_forever exampleConfig (fun _ => true) 3 (startSession exampleConfig exampleProvider exampleWorld : exampleState)
    (exampleConn [Header ping; Message (MReqCheckApi (newReqCheckApi LevelZero))]) ping); [done|by left|done|done].
Defined.

(** A message channel of the size that the service suggests. *)
Definition channelRequest : ReqAllocateShmem := mkReqAllocateShmem (requestHeader ReqAllocateShmem_subtype) 0 rpcMessageChannel false.

Definition heapState : exampleState :=
  mkState exampleW exampleProvider exampleC newMallocImporter None [].

Definition allocated : MmappedShmemAllocation * exampleState :=
  get (allocateForClient channelRequest 1048576 heapState) (noAlloc, heapState).

Definition launchRequest (id : Z) : ReqLaunchRpcShmemRingBuffer := mkReqLaunchRpc (requestHeader ReqLaunchRpc_subtype) id exampleLayout.

Lemma serviceAllocateShmem_outcome_witness :
  exists st2 r, run (serviceAllocateShmem exampleConfig channelRequest heapState) (exampleConn []) =
      (Finished (true, st2), deliver (Message (MRespAllocateShmem r)) true (exampleConn [])) /\
    pas_size r = 1048576 /\
    fst <$> Some (run (serviceLaunchRpc exampleConfig (launchRequest (pas_id r)) st2) (exampleConn [])) =
      Some (Finished (true, set_context st2 (world st2) (registerRpcChannel (context st2) (pas_id r)))).
Proof.
  pose proof (serviceAllocateShmem_outcome exampleConfig channelRequest heapState (exampleConn []) eq_refl) as Hout.
  change (requestedSize exampleConfig channelRequest) with (Some 1048576) in Hout. cbv iota in Hout.
  assert (Hr : allocateForClient channelRequest 1048576 heapState ⇓ (fst allocated, snd allocated)).
  { unfold allocated. rewrite <- surjective_pairing. apply get_ret. by vm_compute. }
  specialize (Hout _ _ Hr). assert (Hv : isValid (fst allocated) = true) by (by vm_compute). rewrite Hv in Hout.
  destruct Hout as (st2 & r & Hrun & _ & Hsize & _ & Hlaunch). exists st2, r. split; [exact Hrun|].
  split; [rewrite Hsize; by vm_compute|]. cbn [fmap option_fmap option_map]. f_equal.
  assert (Hp : serverPartition (mmappedSize (fst allocated)) exampleLayout ⇓ true) by (by vm_compute).
  rewrite (Hlaunch (launchRequest (pas_id r)) (exampleConn []) eq_refl eq_refl true Hp). done.
Defined.

(** The first heap has room for its entry arena only, the second one for two megabytes. *)
Definition sharedRequest : ReqAllocateShmem := mkReqAllocateShmem (requestHeader ReqAllocateShmem_subtype) 65536 purposeUnknown true.

Lemma exhausted_heap_crashes_witness :
  run (serviceAllocateShmem exampleConfig sharedRequest heapState) (exampleConn []) = (Crashed, exampleConn []).
Proof.
  assert (Hh : exists h1 h2, usmHeaps (context heapState) = [h1; h2]) by (vm_compute; by eexists _, _).
  destruct Hh as (h1 & h2 & Hh).
  assert (Ha : forallb (fun h => match allocateAsStandalone (world heapState) h 65536 pageSize4KB with Ret (a, _, _) => negb (isValid a) | _ => false end)
    (take 1 (usmHeaps (context heapState))) = true) by (by vm_compute).
  rewrite Hh in Ha. cbn [take forallb] in Ha.
  destruct (allocateAsStandalone (world heapState) h1 65536 pageSize4KB) as [[[a h'] w']| |] eqn:Halloc; [|done|done].
  apply andb_true_iff in Ha as [Ha _]. apply negb_true_iff in Ha.
  by apply (exhausted_heap_crashes exampleConfig sharedRequest heapState (exampleConn []) 65536 h1 [h2] a h' w').
Defined.
