(* ===== verification/ClientSession.v ===== *)
(** Sessions of ClientThread.v that end well: neither a request nor what the service does at
    the end of a session brings it down. *)

From stdpp Require Import gmap strings.
From S2P Require Import Prelude.
From S2P Require Import Align.
From S2P Require Import Ranges.
From S2P Require Import RangeAlloc.
From S2P Require Import Messages.
From S2P Require Import Layout.
From S2P Require Import Kernel.
From S2P Require Import BitAlloc.
From S2P Require Import SubAlloc.
From S2P Require Import Shmem.
From S2P Require Import MemMap.
From S2P Require Import Usm.
From S2P Require Import ClientContext.
From S2P Require Import Spectacles.
From S2P Require Import ClientThread.
Local Open Scope Z_scope.

(** * Programs that do not crash

    What a receive of the wrong size leads to is not described ([Torn]). *)
Definition uncrashed {A} (p : script A) (c : Conn) (Q : A -> Conn -> Prop) : Prop :=
  match run p c with
  | (Finished a, c') => Q a c'
  | (Crashed, _) => False
  | _ => True
  end.

Lemma uncrashed_bind {A B} (p : script A) (f : A -> script B) c Q :
  uncrashed p c (fun a c' => uncrashed (f a) c' Q) -> uncrashed (p ≫= f) c Q.
Proof. unfold uncrashed. rewrite run_bind. unfold map_verdict. destruct (run p c) as [[a| | |] c']; cbn; done. Qed.

Lemma uncrashed_mono {A} (p : script A) c (Q Q' : A -> Conn -> Prop) :
  uncrashed p c Q -> (forall a c', Q a c' -> Q' a c') -> uncrashed p c Q'.
Proof. unfold uncrashed. intros Hp HQ. destruct (run p c) as [[a| | |] c']; [by apply HQ|done..]. Qed.

Lemma uncrashed_attempt {A B} (m : res A) (f : A -> script B) c a Q : m ⇓ a -> uncrashed (f a) c Q -> uncrashed (attempt m ≫= f) c Q.
Proof. intros -> Hf. by apply uncrashed_bind. Qed.

(** The rest of the inbox is a rest of the inbox. *)
Lemma uncrashed_inbox {A} (p : script A) c P (Q : A -> Conn -> Prop) :
  Forall P (inbox c) -> uncrashed p c (fun a c' => Forall P (inbox c') -> Q a c') -> uncrashed p c Q.
Proof.
  unfold uncrashed. intros Hc Hp. destruct (run_suffix p c) as [l Hl]. destruct (run p c) as [[a| | |] c']; try done.
  apply Hp. cbn in Hl. rewrite Hl in Hc. by apply Forall_app in Hc as [_ Hc].
Qed.

(** * The shared memory of the world *)

Section memory.
Context {K : Type} `{KL : KernelLaws K}.
Abbreviation W := (World K).

Definition world_ok (w : W) : Prop := shm_ok (snd w).

Lemma on_kernel_shm {A} (f : K -> A * K) (w : W) : snd (snd (on_kernel f w)) = snd w.
Proof. unfold on_kernel. by destruct (f (fst w)). Qed.

Lemma mmap_ok (w : W) pl addr size fd off r w' : sys_mmap w pl addr size fd off = (r, w') -> snd w' = snd w.
Proof. intros Hm. cbn in Hm. pose proof (on_kernel_shm (fun k => sys_mmap k pl addr size fd off) w) as Hs. by rewrite Hm in Hs. Qed.

(** The files that the service makes. *)
Lemma world_allocate (w : W) size alignment : world_ok w -> request_ok size alignment ->
  exists (a : OpenedShmemAllocation) (w' : W), u_allocate w tt size alignment ⇓ (a, tt, w') /\ world_ok w' /\
    (isValid a = true -> isFdOwner a = true /\ isShmemOwner (fd_base a) = true /\ 0 <= shmem_id (fd_base a)).
Proof.
  intros Hw Hr. destruct (shmem_allocate_correct (fst w) (snd w) size alignment Hw Hr) as (a & s & k & Ha & Hs & _ & Hres).
  cbn [u_allocate world_shmem]. rewrite Ha. cbn [mbind res_bind]. exists a, (k, s). split; [done|]. split; [done|].
  intros Hv. rewrite Hv in Hres. destruct Hres as ((Hid & _) & _ & _ & Ho & Hf & _). split; [done|]. split; [done|lia].
Qed.

Lemma world_free (w : W) a : world_ok w -> isFdOwner a = true -> isShmemOwner (fd_base a) = true -> 0 <= shmem_id (fd_base a) ->
  exists w', u_free w tt a ⇓ (tt, w') /\ world_ok w'.
Proof.
  intros Hw Hf Ho Hid. destruct (shmem_free_correct (fst w) (snd w) a Hw Hf Ho Hid) as (k1 & Hres).
  destruct (sys_shm_unlink k1 _) as [u2 k2]. destruct Hres as (_ & Hok & _). cbn [u_free world_shmem].
  destruct (shmem_free (fst w) (snd w) a) as [s k]. by exists (k, s).
Qed.

(** A mapping of a file of its own, for the client. *)
Lemma world_global_allocate (w : W) size : world_ok w -> 0 < size <= 2 ^ 62 ->
  exists (a : MmappedShmemAllocation) (w' : W), global_allocate w tt size pageSize4KB ⇓ (a, tt, w') /\ world_ok w' /\
    (isValid a = true -> 0 < mmappedPtr a /\ mmappedPtr a + 1 < half).
Proof.
  intros Hw Hs. assert (Hr : request_ok size pageSize4KB) by (split; [done|]; by split; [split|right]).
  destruct (adjust_page _ _ Hr) as (size' & Hadj & Hm & Hsz & Hs'). unfold global_allocate. rewrite Hadj.
  destruct (world_allocate w size' pageSize4KB Hw) as (base & w1 & Hal & Hw1 & Hlive); [split; [done|]; by split; [split|right]|].
  rewrite Hal. cbn [mbind res_bind]. destruct (isValid base) eqn:Hv; cbn [negb]; [|exists noAlloc, w1; split; [reflexivity|]; split; [exact Hw1|discriminate]].
  rewrite Z.ltb_irrefl. destruct (sys_mmap w1 Anywhere 0 size' _ _) as [[ptr|] w2] eqn:Hmm.
  - eexists _, w2. split; [reflexivity|]. split; [unfold world_ok; by rewrite (mmap_ok _ _ _ _ _ _ _ _ Hmm)|]. intros _.
    apply (mmap_page (K := W)) in Hmm as (_ & H0 & Hh). cbn. unfold half in *. lia.
  - destruct (Hlive eq_refl) as (Hf & Ho & Hid).
    destruct (world_free w2 base) as (w3 & Hfr & Hw3); [unfold world_ok; by rewrite (mmap_ok _ _ _ _ _ _ _ _ Hmm)|done..|].
    rewrite Hfr. cbn [mbind res_bind]. exists noAlloc, w3. split; [reflexivity|]. split; [exact Hw3|discriminate].
Qed.

(** ** Heaps without allocations *)

Definition bounded_range_ok (b : BoundedMmap unit) : Prop := ra_ok (bm_range b).

Definition arena_mapped (ar : SubAllocator MmappedShmemAllocation) : Prop :=
  0 <= mmappedPtr (underlyingAllocation ar) /\ mmappedPtr (underlyingAllocation ar) + 1 < W64.

Definition heap_ok (h : UsmHeap) : Prop :=
  bounded_range_ok (underlyingAllocator h) /\ Forall arena_mapped (allArenas h).

Lemma bounded_free_ret (w : W) (b : BoundedMmap unit) a : bounded_range_ok b -> 0 <= mmappedPtr a -> mmappedPtr a + 1 < W64 ->
  exists b' w', bounded_free w b a ⇓ (b', w') /\ bounded_range_ok b'.
Proof.
  intros Hb Ha Ha'. unfold bounded_free. assert (Hfree : forall (w : W) base, exists w', u_free w tt base ⇓ (tt, w')).
  { intros w0 base. cbn [u_free world_shmem]. destruct (shmem_free _ _ _) as [s k]. by exists (k, s). }
  destruct (bm_underlying b). destruct (mmappedPtr a =? 0).
  { destruct (Hfree w (mm_base a)) as (w' & ->). cbn [mbind res_bind]. by eexists _, _. }
  destruct (if useResetInsteadOfMunmap b then _ else _) as [[|] w1]; [|by eexists _, _].
  destruct (freeRange_exact (bm_range b) (mmappedPtr a) Hb Ha Ha') as (r' & Hf & Hr' & _). unfold address_free, free. rewrite Hf. cbn [mbind res_bind].
  destruct (Hfree w1 (mm_base a)) as (w2 & ->). cbn [mbind res_bind]. by eexists _, _.
Qed.

Lemma destroy_ret (w : W) (h : UsmHeap) : heap_ok h -> exists u w', destroyArenaAllocator w h ⇓ (u, w').
Proof.
  intros [Hb Hl]. unfold destroyArenaAllocator. revert w Hb. generalize (underlyingAllocator h) as b.
  induction Hl as [|ar l [Ha Ha'] _ IH]; intros b w Hb; cbn [free_arenas]; [by eexists _, _|].
  destruct (bounded_free_ret w b (underlyingAllocation ar) Hb Ha Ha') as (b' & w' & Hf & Hb').
  cbn [u_free bounded_underlying]. rewrite Hf. cbn [mbind res_bind]. by apply IH.
Qed.

Lemma destroyHeaps_ret (w : W) (l : list UsmHeap) : Forall heap_ok l -> exists w', destroyHeaps w l ⇓ w'.
Proof.
  intros Hl. revert w. induction Hl as [|h l Hh _ IH]; intros w; cbn [destroyHeaps]; [by eexists|].
  destruct (destroy_ret w h Hh) as (u & w' & ->). cbn [mbind res_bind]. apply IH.
Qed.

(** What the client shares is given back. *)
Definition shmem_mapped (a : MmappedShmemAllocation) : Prop := 0 < mmappedPtr a /\ mmappedPtr a + 1 < half.

Lemma inSomeHeap_ret (l : list UsmHeap) ptr : 0 < ptr -> ptr + 1 < half -> exists b, inSomeHeap l ptr ⇓ b.
Proof.
  intros Hp Hh. unfold half in Hh. induction l as [|h l IH]; cbn [inSomeHeap]; [by eexists|]. unfold heapContains, rangeOfPtr.
  rewrite u64_id by (word_unfold; lia). rewrite makeRange_ok by lia. cbn [mbind res_bind]. destruct (contains _ _); [by eexists|done].
Qed.

Lemma freeShmems_ret (w : W) heaps l : Forall shmem_mapped l -> exists w', freeShmems w heaps l ⇓ w'.
Proof.
  intros Hl. revert w. induction Hl as [|a l [Ha Ha'] _ IH]; intros w; cbn [freeShmems]; [by eexists|].
  destruct (inSomeHeap_ret heaps _ Ha Ha') as (b & ->). cbn [mbind res_bind].
  assert (Hstep : exists w1, (if (b : bool) then u_free w tt (mm_base a) else global_free w tt a) ⇓ (tt, w1)).
  { assert (Hfree : forall (w : W) base, exists w', u_free w tt base ⇓ (tt, w')).
    { intros w0 base. cbn [u_free world_shmem]. destruct (shmem_free _ _ _) as [s k]. by exists (k, s). }
    destruct b; [apply Hfree|]. unfold global_free. destruct (if mmappedPtr a =? 0 then _ else _) as [[|] w1]; [apply Hfree|by eexists]. }
  destruct Hstep as (w1 & ->). cbn [mbind res_bind]. apply IH.
Qed.

Lemma cleanup_ret (w : W) (c : ClientContext) : Forall heap_ok (usmHeaps c) -> usmSharedHostMap c = ∅ ->
  map_Forall (fun _ a => shmem_mapped a) (globalShmemsMap c) ->
  exists c' calls w', cleanup w c ⇓ (c', calls, w') /\ Forall heap_ok (usmHeaps c').
Proof.
  intros Hh Hm Hs. unfold cleanup. cbn [usmSharedHostMap]. rewrite Hm, map_to_list_empty. cbn [fmap list_fmap cleanupAllocs mbind res_bind].
  cbn [set_allocs usmHeaps globalShmemsMap].
  destruct (freeShmems_ret (unmapHeaps w (usmHeaps c)) (usmHeaps c) (snd <$> map_to_list (globalShmemsMap c))) as (w' & ->).
  { apply Forall_fmap. apply map_Forall_to_list in Hs. eapply Forall_impl; [exact Hs|]. by intros [i a]. }
  cbn [mbind res_bind]. match goal with |- context [l0SpecificCleanup ?x] => destruct (l0SpecificCleanup x) as [c' destroyed] eqn:Hl0 end.
  eexists _, _, _. split; [reflexivity|]. unfold l0SpecificCleanup in Hl0. cbn [set_shmems set_allocs automaticCleanupOfApiHandles] in Hl0.
  destruct (automaticCleanupOfApiHandles c); [by injection Hl0 as <- _|].
  assert (Hkeep : forall l x, usmHeaps (fst (destroyKinds x l)) = usmHeaps x).
  { induction l as [|kind l IH]; intros x; [done|]. cbn [destroyKinds]. destruct (destroyResources x kind) as [x1 calls1] eqn:E.
    injection E as <- _. destruct (destroyKinds _ l) as [x2 more] eqn:E2. cbn [fst].
    match type of E2 with destroyKinds ?y l = _ => specialize (IH y) end. rewrite E2 in IH. exact IH. }
  cbv iota in Hl0. apply (f_equal fst) in Hl0. cbn [fst] in Hl0. subst c'. rewrite Hkeep. exact Hh.
Qed.

(** ** A heap over a negotiated range *)

Definition negotiated_ok (r : AddressRange) : Prop :=
  start r mod pageSize4KB = 0 /\ 0 < start r /\ start r < end_ r /\ end_ r < half.

Lemma entry_allocate (w : W) (r : AddressRange) : world_ok w -> negotiated_ok r ->
  exists (a : MmappedShmemAllocation) (b : BoundedMmap unit) (w' : W), u_allocate w (mkBounded tt true (newRangeAllocator r)) 4096 pageSize4KB ⇓ (a, b, w') /\ world_ok w' /\ bounded_range_ok b /\
    0 <= mmappedPtr a /\ mmappedPtr a + mmappedSize a + 1 < W64 /\ 0 <= mmappedSize a /\ (mmappedPtr a = 0 \/ 0 < mmappedSize a).
Proof.
  intros Hw (Hm & H0 & Hne & Hh). assert (Hpages : pages_ok (newRangeAllocator r)).
  { split; [apply fresh_ok; lia|]. split; [exact Hm|constructor]. }
  assert (Hno : forall (b : BoundedMmap unit) (w' : W), world_ok w' -> bounded_range_ok b ->
    exists a b' w2, Ret (noAlloc : MmappedShmemAllocation, b, w') ⇓ (a, b', w2) /\ world_ok w2 /\ bounded_range_ok b' /\
      0 <= mmappedPtr a /\ mmappedPtr a + mmappedSize a + 1 < W64 /\ 0 <= mmappedSize a /\ (mmappedPtr a = 0 \/ 0 < mmappedSize a)).
  { intros b w' Hw' Hb. eexists _, _, _. split; [reflexivity|]. split; [done|]. split; [done|]. cbn. word_unfold. lia. }
  cbn [u_allocate bounded_underlying]. unfold bounded_allocate. change (adjustSizeAndAlignment pageSize4KB 4096 pageSize4KB) with (Some (4096, pageSize4KB)).
  cbn [bm_underlying bm_range useResetInsteadOfMunmap].
  destruct (world_allocate w 4096 pageSize4KB Hw) as (base & w1 & Hal & Hw1 & Hlive); [split; [lia|]; by split; [split|right]|].
  rewrite Hal. cbn [mbind res_bind bm_range]. destruct (isValid base) eqn:Hv; cbn [negb]; [|apply Hno; [done|apply Hpages]].
  destruct (Hlive eq_refl) as (Hf & Ho & Hid). unfold address_allocate.
  destruct (pages_allocate (newRangeAllocator r) 4096 Hpages ltac:(lia) ltac:(done)) as [(p & r' & Har & Ht)|[Har _]]; rewrite Har; cbn [mbind res_bind].
  2: { change (rsize createEmpty) with 0. change (4096 <=? 0) with false. rewrite Z.eqb_refl.
       destruct (world_free w1 base Hw1 Hf Ho Hid) as (w2 & Hfr & Hw2). rewrite Hfr. cbn [mbind res_bind]. apply Hno; [done|apply Hpages]. }
  assert (Hrs : rsize (mkRange p (p + 4096)) = 4096) by (unfold rsize; cbn [start end_]; replace (p + 4096 - p) with 4096 by lia; done).
  rewrite Hrs, Z.leb_refl. cbn [start]. destruct Ht as (Ht1 & Ht2 & _ & _ & [Hr' _] & _ & _).
  change (getRange (newRangeAllocator r)) with r in Ht1, Ht2. cbn [start end_] in Ht1, Ht2. rewrite (proj2 (Z.eqb_neq p 0)) by lia. unfold half in *.
  destruct (sys_mmap w1 Fixed p 4096 _ _) as [[ptr|] w2] eqn:Hmm; pose proof (mmap_ok _ _ _ _ _ _ _ _ Hmm) as Hsame.
  - apply (mmap_fixed (K := W)) in Hmm as ->. eexists _, _, _. split; [reflexivity|]. split; [unfold world_ok; by rewrite Hsame|].
    split; [exact Hr'|]. cbn. word_unfold. lia.
  - destruct (freeRange_exact r' p Hr' ltac:(lia) ltac:(word_unfold; lia)) as (r2 & Hfree & Hr2 & _). unfold address_free, free. rewrite Hfree. cbn [mbind res_bind].
    destruct (world_free w2 base) as (w3 & Hfr & Hw3); [unfold world_ok; by rewrite Hsame|done..|]. rewrite Hfr. cbn [mbind res_bind]. by apply Hno.
Qed.

Lemma makeUsmHeap_ret cfg (w : W) r : world_ok w -> negotiated_ok r ->
  exists h w', makeUsmHeap cfg w r ⇓ (h, w') /\ world_ok w' /\ heap_ok h.
Proof.
  intros Hw Hr. unfold makeUsmHeap, makeArenaAllocator. destruct (entry_allocate w r Hw Hr) as (a & b & w' & Hal & Hw' & Hb & H1 & H2 & H3).
  rewrite Hal. cbn [mbind res_bind]. unfold newArena, getArenaOffsetRange.
  assert (Hrange : exists q, allocRange a ⇓ q).
  { cbn [allocRange mmapped_allocation]. unfold rangeOfSize, makeRange, checkRange. rewrite u64_id by (word_unfold; lia).
    destruct (Z.eq_dec (mmappedPtr a) 0) as [->|Hz]; [rewrite Z.eqb_refl, andb_false_r; by eexists|].
    rewrite (proj2 (Z.eqb_neq _ _)) by lia. by eexists. }
  destruct Hrange as (q & Hq). rewrite Hq. cbn [mbind res_bind].
  assert (Hq2 : exists q', (if rempty q && isValid a then makeRange 0 (u64 (sharedVaArenaSizeMB cfg * MB)) else Ret q) ⇓ q').
  { destruct (_ && _); [|by eexists]. unfold makeRange, checkRange. rewrite andb_false_r. by eexists. }
  destruct Hq2 as (q' & Hq2). rewrite Hq2. cbn [mbind res_bind]. eexists _, _. split; [reflexivity|]. split; [done|]. split; [exact Hb|].
  constructor; [|constructor]. split; cbn; lia.
Qed.

End memory.

(** * The negotiation of a range, whatever the client proposes *)

Section negotiation.
Context {K : Type} `{KL : KernelLaws K}.
Abbreviation W := (World K).

(** Proposals of addresses in the user's half. *)
Definition fits (m : NegotiateUsmAddressRange) : Prop := message_ok m /\ proposedUsmBase m + proposedUsmSize m < half.

Definition wire_fits (x : wire) : Prop := match x with Message (MReqNegotiate m) => fits m | _ => True end.

Fixpoint yields {A} (Q : A -> Prop) (p : prog NegotiateUsmAddressRange A) : Prop :=
  match p with
  | Done a => Q a
  | Crash => False
  | NoFuel => True
  | Usm.Send m cont => forall ok, yields Q (cont ok)
  | Recv cont => yields Q (cont None) /\ forall m, fits m -> yields Q (cont (Some m))
  end.

Lemma yields_bind {A B} (P : A -> Prop) (Q : B -> Prop) (p : prog NegotiateUsmAddressRange A) (f : A -> prog NegotiateUsmAddressRange B) :
  yields P p -> (forall a, P a -> yields Q (f a)) -> yields Q (p ≫= f).
Proof.
  intros Hp Hf. induction p as [a| | |m cont IH|cont IH]; cbn in *; [by apply Hf|done|done| |].
  - intros ok. apply IH, Hp.
  - destruct Hp as [H1 H2]. split; [by apply IH|]. intros m Hm. by apply IH, H2.
Qed.

Lemma onConnection_uncrashed {A} (Q : A -> Prop) (p : prog NegotiateUsmAddressRange A) c :
  yields Q p -> Forall wire_fits (inbox c) -> uncrashed (onConnection p) c (fun a _ => Q a).
Proof.
  unfold uncrashed. revert c. induction p as [a| | |m cont IH|cont IH]; intros c Hp Hc; cbn in *; [done..| |].
  - by apply IH.
  - destruct Hp as [H1 H2]. destruct (inbox c) as [|[h|m] rest] eqn:Hi.
    + apply IH; [done|]. by rewrite Hi.
    + destruct rest; [|done]. apply IH; [done|by constructor].
    + apply Forall_cons in Hc as [Hm Hrest]. destruct (messageSubtype m =? ReqNegotiate_subtype); [|done].
      destruct m as [m|m|m|m|m|m|m|m|m|m|m|m|m|m|m|m|m]; (apply IH; [|done]); try exact H1. by apply H2.
Qed.

Lemma reserve_world (w : W) base size r w' : reserveUsmCpuRange w base size = (r, w') -> snd w' = snd w.
Proof. unfold reserveUsmCpuRange. apply mmap_ok. Qed.

Lemma unmap_world (w : W) base size : snd (unmapRange w base size) = snd w.
Proof. unfold unmapRange. cbn. apply on_kernel_shm. Qed.

Lemma cleanupReservations_world used (w : W) l b : snd (fst (cleanupReservations used w l b)) = snd w.
Proof.
  revert w b. induction l as [|r l IH]; intros w b; cbn [cleanupReservations]; [done|].
  destruct (cleanupReservation used w r) as [w1 b1] eqn:E. rewrite IH. apply (f_equal fst) in E. cbn in E. subst w1. unfold cleanupReservation.
  destruct (negb _); [apply unmap_world|]. case_bool_decide; [done|]. cbn [fst].
  destruct (end_ used <? end_ r); rewrite ?unmap_world; destruct (start r <? start used); by rewrite ?unmap_world.
Qed.

Lemma finish_world (o : option AddressRange * Negotiation (K := W)) : snd (snd (finish o)) = snd (kernel (snd o)).
Proof.
  destruct o as [used st]. unfold finish. cbn [fst snd]. generalize (kernel st) as w. intros w. unfold cleanupObsoleteAddressReservations.
  destruct used as [used|].
  - pose proof (cleanupReservations_world used w (map getBoundingRange (subRanges (mmapReservations st))) false) as Hc.
    destruct (cleanupReservations used w _ false) as [w1 [|]]; cbn in Hc; [|done]. unfold forceReserveUsmCpuRange.
    destruct (sys_mmap w1 _ _ _ _ _) as [r w2] eqn:Hm. cbn. by rewrite (mmap_ok _ _ _ _ _ _ _ _ Hm).
  - generalize (map getBoundingRange (subRanges (mmapReservations st))) as l. intros l. revert w.
    induction l as [|r l IH]; intros w; cbn [fold_left]; [done|]. rewrite IH. apply unmap_world.
Qed.

(** What a negotiation of the service ends with. *)
Definition result_ok (o : option AddressRange * Negotiation (K := W)) : Prop :=
  world_ok (kernel (snd o)) /\ forall r, fst o = Some r -> negotiated_ok r.

Lemma answer_yields {B} (Q : B -> Prop) r ptr (f : Answer -> prog NegotiateUsmAddressRange B) :
  yields Q (f Failed) -> (forall q, negotiated_ok q -> 0 <= start q < W64 -> yields Q (f (Accepted q)) /\ yields Q (f (Declined q))) ->
  yields Q (proposeToClient r ptr ≫= f).
Proof.
  intros Hfail Hf. intros [|]; cbn [negb]; [|exact Hfail]. split; [exact Hfail|]. intros m ((Hb & Hs) & Hh). cbn.
  destruct (ReqNegotiate_isInvalid m) eqn:Hv; [exact Hfail|]. destruct (Z.eqb_spec (proposedUsmBase m) 0) as [|Hb0]; [exact Hfail|].
  destruct (Z.eqb_spec (proposedUsmSize m) 0) as [|Hs0]; [exact Hfail|]. unfold half in Hh.
  rewrite rangeOfSize_ok by lia. cbn.
  assert (Hq : negotiated_ok (mkRange (proposedUsmBase m) (proposedUsmBase m + proposedUsmSize m))).
  { unfold ReqNegotiate_isInvalid in Hv. apply orb_false_iff in Hv as [Hv _]. apply negb_false_iff in Hv. change pageSize4KB with (2 ^ 12) in Hv.
    rewrite isAlignedPow2_isAligned in Hv by done. unfold isAligned in Hv. apply Z.eqb_eq in Hv. change (2 ^ 12) with pageSize4KB in Hv.
    unfold negotiated_ok, half. cbn. split; [done|]. lia. }
  destruct (Hf _ Hq) as [H1 H2]; [cbn; lia|]. destruct (_ =? ptr); [|exact H2]. intros [|]; cbn; [exact H1|exact Hfail].
Qed.

Lemma negotiate_yields maxTries fuel (st : Negotiation (K := W)) :
  world_ok (kernel st) -> 0 <= usmBase st < W64 -> 0 <= usmSize st < W64 ->
  yields result_ok (negotiate tryWithClient maxTries fuel st).
Proof.
  revert st. induction fuel as [|fuel IH]; intros st Hw Hb Hs; [exact I|]. cbn [negotiate].
  destruct (negb _); [by split|]. revert IH. generalize (negotiate (K := W) tryWithClient maxTries fuel) as again. intros again IH.
  unfold tryWithClient. cbn zeta. cbn [usmBase usmSize kernel tryNum mmapReservations].
  assert (Hanswer : forall k r ptr agreed reservations, world_ok k -> negotiated_ok r -> (forall q, negotiated_ok q -> negotiated_ok (agreed q)) ->
    yields result_ok (a ← proposeToClient r ptr; useAnswer again (mkNegotiation (tryNum st + 1) (usmBase st) (usmSize st) reservations k) agreed a)).
  { intros k r ptr agreed reservations Hk Hr Hag. apply answer_yields; [by split|]. intros q Hq Hqb. split.
    - split; [exact Hk|]. cbn. intros x [= <-]. by apply Hag.
    - cbn. apply IH; cbn; [exact Hk|done|apply u64_range]. }
  destruct (reserveUsmCpuRange (kernel st) (usmBase st) (usmSize st)) as [[ptr|] k1] eqn:Hres.
  - pose proof (reserve_world _ _ _ _ _ Hres) as Hk1. apply (reserve_ok (K := W)) in Hres as (Hsz & Hp & Hh & Hpm & Heq); [|done]. unfold half in Hh.
    assert (Hk : world_ok k1) by (unfold world_ok; by rewrite Hk1). rewrite (rangeOfSize_ok ptr (usmSize st)) by lia. cbn [lift mbind prog_bind].
    assert (Hr : negotiated_ok (mkRange ptr (ptr + usmSize st))) by (unfold negotiated_ok, half; cbn; split; [done|]; lia).
    destruct (Z.eqb_spec (usmBase st) 0) as [|Hne]; cbn [negb]; [by apply (Hanswer k1 (mkRange ptr (ptr + usmSize st)) ptr (fun _ => mkRange ptr (ptr + usmSize st)) (insertSubRange (mmapReservations st) (leaf (mkRange ptr (ptr + usmSize st)))))|]. rewrite <- Heq by done. rewrite rangeOfSize_ok by lia. cbn [lift mbind prog_bind].
    intros [|]; cbn; (split; [exact Hk|]); cbn; [|done]. by intros x [= <-].
  - pose proof (reserve_world _ _ _ _ _ Hres) as Hk1. assert (Hk : world_ok k1) by (unfold world_ok; by rewrite Hk1).
    destruct (negb _); [|by split]. destruct (reserveUsmCpuRange k1 0 (usmSize st)) as [[ptr|] k2] eqn:Hres2; pose proof (reserve_world _ _ _ _ _ Hres2) as Hk2;
      (assert (Hk' : world_ok k2) by (unfold world_ok; by rewrite Hk2)); [|by split].
    apply (reserve_ok (K := W)) in Hres2 as (Hsz & Hp & Hh & Hpm & _); [|done]. unfold half in Hh. rewrite (rangeOfSize_ok ptr (usmSize st)) by lia. cbn [lift mbind prog_bind].
    apply (Hanswer k2 (mkRange ptr (ptr + usmSize st)) ptr (fun q => q) (insertSubRange (mmapReservations st) (leaf (mkRange ptr (ptr + usmSize st))))); [done| |done]. unfold negotiated_ok, half. cbn. split; [done|]. lia.
Qed.

Lemma serviceNegotiate_yields defaultSize (w : W) : world_ok w -> 0 <= defaultSize < W64 ->
  yields (fun o => world_ok (snd o) /\ forall r, fst o = Some r -> negotiated_ok r) (serviceNegotiateUsmAddressRange defaultSize w).
Proof.
  intros Hw Hd. unfold serviceNegotiateUsmAddressRange. split; [by split|]. intros m ((Hb & Hs) & _).
  destruct (ReqNegotiate_isInvalid m); [by split|]. unfold negotiateUsmRangeWithClient. destruct (_ =? 0); [by split|].
  eapply yields_bind; [apply negotiate_yields; cbn; [done|done|destruct (_ =? _); lia]|].
  intros o [Ho Hr]. split; [|exact Hr]. unfold world_ok. by rewrite finish_world.
Qed.

End negotiation.

(** * The requests of a session *)

Section session.
Context {K C S M : Type} `{KL : KernelLaws K} `{Choreographies C S M}.
Context (asserts : bool) (cfg : ServiceConfig) (readable : Z -> bool).
Abbreviation St := (State (K := K) (S := S) (M := M)).

Record session_ok (st : St) : Prop := mkSessionOk {
  se_world : world_ok (world st);
  se_heaps : Forall heap_ok (usmHeaps (context st));
  se_allocs : usmSharedHostMap (context st) = ∅;
  se_shmems : map_Forall (fun _ a => shmem_mapped a) (globalShmemsMap (context st))
}.

(** The size that the service chooses for a channel can be allocated. *)
Definition channel_size_ok : Prop := 0 < u64 (MB * defaultRpcMessageChannelSizeMB cfg) <= 2 ^ 62.

(** Requests that the service survives: no memory at shared addresses, whose exhaustion
    crashes it; layouts without empty ranges, addresses that can be read, descriptors within
    the array. *)
Definition harmless (sp : Spectacles S) (m : message) : Prop :=
  match m with
  | MReqAllocateShmem r => ras_sharedVa r = false /\ 0 <= ras_size r <= 2 ^ 62
  | MReqLaunchRpc r => exists l, channelRanges (rlr_layout r) ⇓ l
  | MReqNegotiate r => fits r
  | MReqPageFault r => readable (rpf_ptr r) = true
  | MReqTransferFd r => usedFdsCount r <= Z.of_nat (length (rtf_remoteFds r))
  | MReqHandshake r => exists joined, assignToSpectacle asserts sp (rh_ppid r) (rh_pid r) (boundedName (clientProcessName r)) ⇓ joined
  | _ => True
  end.

Definition harmless_wire (sp : Spectacles S) (x : wire) : Prop := match x with Message m => harmless sp m | Header _ => True end.

Lemma harmless_fits sp l : Forall (harmless_wire sp) l -> Forall wire_fits l.
Proof. intros Hl. eapply Forall_impl; [exact Hl|]. intros [h|[]]; cbn; done. Qed.

Abbreviation keeps_session := (fun (r : bool * St) (_ : Conn) => session_ok (snd r)).

Lemma answer_uncrashed m (st : St) c : session_ok st -> uncrashed (answer m st) c keeps_session.
Proof. intros Hst. unfold uncrashed, answer, send. cbn. done. Qed.

Lemma set_world_ok (st : St) w : session_ok st -> world_ok w -> session_ok (set_world st w).
Proof. intros [] Hw. by constructor. Qed.

Lemma allocate_uncrashed request (st : St) c : channel_size_ok -> session_ok st -> ras_sharedVa request = false -> 0 <= ras_size request <= 2 ^ 62 ->
  uncrashed (serviceAllocateShmem cfg request st) c keeps_session.
Proof.
  intros Hcfg Hst Hva Hsz. unfold serviceAllocateShmem. destruct (requestedSize cfg request) as [size|] eqn:Hr; [|exact Hst].
  assert (Hs : 0 < size <= 2 ^ 62).
  { unfold requestedSize in Hr. destruct (Z.eqb_spec (ras_size request) 0); cbn in Hr; [|injection Hr as <-; lia]. destruct (ras_purpose request); [done|]. injection Hr as <-. exact Hcfg. }
  destruct (world_global_allocate (world st) size (se_world _ Hst) Hs) as (a & w' & Hal & Hw' & Hmap).
  assert (Hst' : session_ok (set_world st w')) by by apply set_world_ok.
  eapply (uncrashed_attempt _ _ _ (a, set_world st w')); [unfold allocateForClient; rewrite Hva, Hal; reflexivity|].
  destruct (isValid a) eqn:Hv; cbn [negb]; [|by apply answer_uncrashed]. apply answer_uncrashed.
  destruct Hst'. constructor; [done..|]. cbn. apply map_Forall_insert_2; [|done]. by apply Hmap.
Qed.

Lemma launch_uncrashed request (st : St) c l : session_ok st -> channelRanges (rlr_layout request) ⇓ l ->
  uncrashed (serviceLaunchRpc cfg request st) c keeps_session.
Proof.
  intros Hst Hl. unfold serviceLaunchRpc. cbn zeta. destruct (negb (isValid _)); [exact Hst|].
  assert (Hp : exists b, serverPartition (mmappedSize (getShmemById (context st) (ringbufferShmemId request))) (rlr_layout request) ⇓ b).
  { unfold serverPartition, isInBounds. destruct (layout_isValid _); [|by eexists]. rewrite Hl. unfold makeRange, checkRange. rewrite andb_false_r. by eexists. }
  destruct Hp as (accepted & Hp). eapply uncrashed_attempt; [exact Hp|]. destruct accepted; cbn [negb]; [|exact Hst].
  unfold uncrashed, send. cbn. destruct (hd true (sends c)); cbn; [|exact Hst]. destruct Hst. by constructor.
Qed.

Lemma malloc_open_world (w : World K) m path capacity base : snd (snd (malloc_open w m path capacity base)) = snd w.
Proof.
  unfold malloc_open. destruct (negb _); [done|].
  pose proof (on_kernel_shm (fun k => sys_shm_open k path false) w) as H1. change (on_kernel _ w) with (sys_shm_open w path false) in H1.
  destruct (sys_shm_open w path false) as [[fd|] w1]; [|exact H1]. cbn [snd] in H1.
  destruct (sys_mmap w1 Anywhere 0 capacity fd 0) as [[ptr|] w2] eqn:Hm; pose proof (mmap_ok _ _ _ _ _ _ _ _ Hm) as H2; cbn [snd]; [congruence|].
  pose proof (on_kernel_shm (fun k => sys_close k fd) w2) as H3. change (on_kernel _ w2) with (sys_close w2 fd) in H3. congruence.
Qed.

Lemma import_uncrashed request (st : St) c : session_ok st -> uncrashed (serviceImportAddressSpace request st) c keeps_session.
Proof.
  intros Hst. unfold serviceImportAddressSpace.
  pose proof (malloc_open_world (world st) (mallocShmemImporter st) (mallocShmemResourcePath request) (clientAddressSpaceSize request) (clientAddressSpaceBaseAddress request)) as Hw.
  destruct (malloc_open _ _ _ _ _) as [[opened importer] w]. cbn in Hw. apply answer_uncrashed. destruct Hst as [Hok ? ? ?]. constructor; [|done..].
  unfold world_ok in *. cbn. by rewrite Hw.
Qed.

Lemma negotiate_uncrashed (st : St) c : session_ok st -> Forall wire_fits (inbox c) -> uncrashed (serviceNegotiateUsm cfg st) c keeps_session.
Proof.
  intros Hst Hc. unfold serviceNegotiateUsm. apply uncrashed_bind.
  eapply uncrashed_mono; [apply onConnection_uncrashed; [apply serviceNegotiate_yields; [apply Hst|apply u64_range]|exact Hc]|].
  intros [[range|] w] c' [Hw Hr]; cbn in Hw, Hr; [|by apply set_world_ok].
  destruct (makeUsmHeap_ret cfg w range Hw (Hr range eq_refl)) as (h & w' & Hm & Hw' & Hh).
  eapply uncrashed_attempt; [exact Hm|]. unfold uncrashed. cbn. destruct Hst. constructor; [done|by apply Forall_app; split; [|constructor]|done..].
Qed.

(** A request that was received is one of those in the socket. *)
Lemma serve_uncrashed {T} sp kind (project : message -> option T) invalid service (st : St) c :
  Forall (harmless_wire sp) (inbox c) -> session_ok st ->
  (forall m t c', harmless sp m -> project (sanitize m) = Some t -> uncrashed (service t st) c' keeps_session) ->
  uncrashed (serve kind project invalid service st) c keeps_session.
Proof.
  intros Hc Hst Hs. unfold serve. apply uncrashed_bind. unfold uncrashed at 1, receive. cbn [run].
  assert (Hrun : forall r c', (forall t, r ≫= project = Some t -> uncrashed (service t st) c' keeps_session) ->
    match run (match r ≫= project with None => SDone None | Some request => if invalid request then SDone None else SDone (Some request) end) c' with
    | (Finished a, c') => uncrashed (match a with None => SDone (false, st) | Some request => service request st end) c' keeps_session
    | (Crashed, _) => False
    | _ => True
    end).
  { intros r c' Hr. destruct (r ≫= project) as [t|]; [|exact Hst]. destruct (invalid t); [exact Hst|]. by apply Hr. }
  destruct (inbox c) as [|[h|m] rest].
  - by apply Hrun.
  - destruct rest; [by apply Hrun|done].
  - apply Forall_cons in Hc as [Hm _]. destruct (messageSubtype m =? kind); [|done]. apply Hrun. intros t Ht. by eapply Hs.
Qed.

Lemma request_uncrashed sp h (st : St) c : channel_size_ok -> Forall (harmless_wire sp) (inbox c) -> session_ok st ->
  uncrashed (serviceRequestMessage cfg readable h st) c keeps_session.
Proof.
  intros Hcfg Hc Hst. unfold serviceRequestMessage. cbn zeta.
  destruct (_ =? ReqAllocateShmem_subtype).
  { apply (serve_uncrashed sp); [done..|]. intros [] t c' Hm; cbn; try done. intros [= <-]. destruct Hm. by apply allocate_uncrashed. }
  destruct (_ =? ReqLaunchRpc_subtype).
  { apply (serve_uncrashed sp); [done..|]. intros [] t c' Hm; cbn; try done. intros [= <-]. destruct Hm as (l & Hl). by eapply launch_uncrashed. }
  destruct (_ =? ReqNegotiate_subtype); [apply negotiate_uncrashed; [done|by eapply harmless_fits]|].
  destruct (_ =? ReqImport_subtype).
  { apply (serve_uncrashed sp); [done..|]. intros [] t c' Hm; cbn; try done. intros [= <-]. by apply import_uncrashed. }
  destruct (_ =? ReqPageFault_subtype).
  { apply (serve_uncrashed sp); [done..|]. intros [] t c' Hm; cbn; try done. intros [= <-]. unfold servicePageFault. cbn in Hm. by rewrite Hm. }
  destruct (_ =? ReqTransferFd_subtype).
  { apply (serve_uncrashed sp); [done..|]. intros [] t c' Hm; cbn; try done. intros [= <-]. unfold serviceTransferFd. cbn in Hm. rewrite (proj2 (Z.ltb_ge _ _)) by lia. exact Hst. }
  destruct (_ =? ReqReverseTransferFd_subtype).
  { apply (serve_uncrashed sp); [done..|]. intros [] t c' Hm; cbn; try done. intros [= <-]. unfold serviceReverseTransferFd, uncrashed. cbn. by destruct (match hd None (arriving c') with Some _ => _ | None => None end). }
  destruct (_ =? ReqCheckApi_subtype); [|exact Hst].
  apply (serve_uncrashed sp); [done..|]. intros [] t c' Hm; cbn; try done.
Qed.

(** ** The whole session *)

Lemma serveLoop_uncrashed sp fuel (st : St) c : channel_size_ok -> Forall (harmless_wire sp) (inbox c) -> session_ok st ->
  uncrashed (serveLoop cfg readable fuel st) c (fun st' _ => session_ok st').
Proof.
  intros Hcfg. revert st c. induction fuel as [|fuel IH]; intros st c Hc Hst; [exact I|]. unfold uncrashed. cbn [serveLoop run].
  destruct (hd false (stops c)); [exact Hst|]. cbn [run]. set (c1 := mkConn (inbox c) (sent c) (sends c) (arriving c) (tail (stops c))).
  assert (Hc1 : Forall (harmless_wire sp) (inbox c1)) by exact Hc. destruct (headerOf <$> head (inbox c1)) as [h|]; [|exact Hst].
  destruct (mtype h =? messageTypePing); [cbn [run]; by apply IH|].
  destruct (mtype h =? messageTypeStop); [cbn [run]; apply IH; [exact Hc|by destruct Hst]|].
  destruct (mtype h =? messageTypeRequest); [|exact Hst].
  change (uncrashed ('(ok, st0) ← serviceRequestMessage cfg readable h st; if (ok : bool) then serveLoop cfg readable fuel st0 else SDone st0) c1 (fun st' _ => session_ok st')).
  apply uncrashed_bind, (uncrashed_inbox _ _ (harmless_wire sp)); [done|]. eapply uncrashed_mono; [by apply (request_uncrashed sp)|].
  intros [ok st'] c' Hst' Hc'. destruct ok; [by apply IH|exact Hst'].
Qed.

Lemma leave_ret (st : St) : session_ok st -> exists st', leave st ⇓ st'.
Proof.
  intros [Hw Hh Ha Hs]. unfold leave. destruct (cleanup_ret (world st) (context st) Hh Ha Hs) as (c' & calls & w' & -> & Hh'). cbn [mbind res_bind].
  destruct (destroyHeaps_ret (malloc_destroy w' (mallocShmemImporter st)) (usmHeaps c') Hh') as (w2 & ->). cbn [mbind res_bind]. by eexists.
Qed.

Lemma serveClient_uncrashed fuel ordinal (st : St) c : channel_size_ok -> Forall (harmless_wire (spectacles (provider st))) (inbox c) -> session_ok st ->
  uncrashed (serveClient asserts cfg readable fuel ordinal st) c (fun _ _ => True).
Proof.
  intros Hcfg Hc Hst. set (sp := spectacles (provider st)) in *. unfold serveClient. apply uncrashed_bind, (uncrashed_inbox _ _ (harmless_wire sp)); [done|].
  assert (Hrecv : uncrashed (receive ReqHandshake_subtype (fun m => match m with MReqHandshake m => Some m | _ => None end) ReqHandshake_isInvalid) c
    (fun r _ => match r with Some hs => exists joined, assignToSpectacle asserts sp (rh_ppid hs) (rh_pid hs) (clientProcessName hs) ⇓ joined | None => True end)).
  { unfold uncrashed, receive. cbn [run]. destruct (inbox c) as [|[h|m] rest]; [done|by destruct rest|].
    apply Forall_cons in Hc as [Hm _]. destruct (messageSubtype m =? ReqHandshake_subtype); [|done].
    destruct m as [m|m|m|m|m|m|m|m|m|m|m|m|m|m|m|m|m]; cbn; try done. by destruct (ReqHandshake_isInvalid _). }
  eapply uncrashed_mono; [exact Hrecv|]. intros [hs|] c1 Hj Hc1; [|done]. apply uncrashed_bind. unfold uncrashed at 1, send. cbn [run].
  destruct (hd true (sends c1)); cbn [negb]; [|done]. destruct Hj as ([member sp'] & Hj).
  eapply uncrashed_attempt; [unfold joinSpectacle; fold sp; rewrite Hj; reflexivity|]. apply uncrashed_bind.
  eapply uncrashed_mono; [apply (serveLoop_uncrashed sp); [done|exact Hc1|by destruct Hst]|]. intros st2 c2 Hst2.
  destruct (leave_ret st2 Hst2) as (st3 & ->). done.
Qed.

Lemma serviceSingleClient_uncrashed fuel ordinal (p : Provider S) (w : World K) c :
  channel_size_ok -> world_ok w -> Forall (harmless_wire (spectacles p)) (inbox c) ->
  uncrashed (serviceSingleClient (M := M) asserts cfg readable fuel ordinal p w) c (fun _ _ => True).
Proof.
  intros Hcfg Hw Hc. unfold serviceSingleClient. cbn zeta. set (st := startSession cfg (clientEnters p) w).
  assert (Hst : session_ok st) by (constructor; [exact Hw|constructor|done|apply map_Forall_empty]).
  apply uncrashed_bind, (uncrashed_inbox _ _ (harmless_wire (spectacles p))); [done|].
  assert (Hpings : forall n c, uncrashed (answerPings n) c (fun _ _ => True)).
  { induction n as [|n IH]; intros c0; [exact I|]. unfold uncrashed. cbn [answerPings run]. destruct (headerOf <$> head (inbox c0)) as [h|]; [|done].
    destruct (mtype h =? messageTypePing); [|done]. cbn [run]. destruct (inbox c0) as [|[h'|m] rest]; cbn [run]; [apply IH..|done]. }
  eapply uncrashed_mono; [apply Hpings|]. intros _ c1 _ Hc1. apply uncrashed_bind. unfold uncrashed at 1. cbn [run]. apply uncrashed_bind.
  destruct (inbox c1) as [|x rest] eqn:Hi; [done|]. apply uncrashed_bind. unfold uncrashed at 1, stopRequested. cbn [run].
  destruct (headerOf <$> head (inbox c1)) as [h|]; [destruct (mtype h =? messageTypeStop)|].
  - cbn [run]. rewrite Hi. destruct x as [h'|m]; [done|done].
  - cbn [run]. eapply uncrashed_mono; [apply serveClient_uncrashed; [done|by rewrite Hi|done]|done].
  - cbn [run]. eapply uncrashed_mono; [apply serveClient_uncrashed; [done|by rewrite Hi|done]|done].
Qed.

End session.

(** * Properties *)

Section properties.
Context {K C S M : Type} `{KL : KernelLaws K} `{Choreographies C S M}.
Context (asserts : bool) (cfg : ServiceConfig) (readable : Z -> bool).


End properties.

(** A session with everything: a ping, the handshake, the negotiation with one round, a
    channel and a check of an API. *)
Definition exampleRange : NegotiateUsmAddressRange := proposal ReqNegotiate_subtype (mkRange 0x10000 0x40010000).

Definition sessionInbox : list wire :=
  [Header ping; Message (MReqHandshake (newReqHandshake true 60 50 "tool"));
   Message (MReqNegotiate (proposal ReqNegotiate_subtype (mkRange 0 0))); Message (MReqNegotiate exampleRange);
   Message (MReqAllocateShmem channelRequest); Message (MReqLaunchRpc (launchRequest 1));
   Message (MReqCheckApi (newReqCheckApi LevelZero))].

Definition sessionRun : verdict exampleState * Conn :=
  run (serviceSingleClient true exampleConfig (fun _ => true) 8 7 exampleProvider exampleWorld) (exampleConn sessionInbox).

Lemma sessionInbox_harmless : Forall (harmless_wire true (fun _ => true) exampleSpectacles) (tail sessionInbox).
Proof.
  constructor; [eexists; vm_compute; reflexivity|].
  constructor; [split; [split; split; vm_compute; congruence|vm_compute; congruence]|].
  constructor; [split; [split; split; vm_compute; congruence|vm_compute; congruence]|].
  constructor; [split; [done|]; cbn; lia|]. constructor; [eexists; vm_compute; reflexivity|]. by repeat constructor.
Qed.

