(* ===== verification/RpcThread.v ===== *)
(** The threads that serve the RPC channels ([Provider::serviceSingleRpcChannel]
    and [serviceSingleRpcCommand] of service/service.h): what happens to the
    commands of one channel, and how the threads of all channels share the lock
    that keeps batches of commands together. *)

From stdpp Require Import relations.
From S2P Require Import Prelude.
From S2P Require Import Channel.
Local Open Scope Z_scope.

(** * One channel *)

Record RpcMessageHeader := mkRpcHeader { rpc_flags : Z; rpc_type : Z; rpc_subtype : Z }.

Section channel.
(** The state of the service, with the memory of the channel; a handler takes the address of
    the command and the room behind it. *)
Context {D : Type} (headerAt : D -> Z -> RpcMessageHeader).
Context (rpcHandlers : list (list (option (D -> Z -> Z -> bool * D)))).
(** The steps of the spectacle's member, if the client has one. *)
Context (member : option ((D -> Z -> D) * (D -> Z -> D))).

Definition stepBefore (d : D) (command : Z) : D := match member with Some (before, _) => before d command | None => d end.
Definition stepAfter (d : D) (command : Z) : D := match member with Some (_, after) => after d command | None => d end.

(** The handler of a message, when there is one. *)
Definition findHandler (header : RpcMessageHeader) : option (D -> Z -> Z -> bool * D) :=
  subtypeHandlers ← rpcHandlers !! Z.to_nat (rpc_type header);
  handler ← subtypeHandlers !! Z.to_nat (rpc_subtype header);
  handler.

Definition serviceSingleRpcCommand (d : D) (command commandMaxSize : Z) : bool * D :=
  match findHandler (headerAt d command) with
  | None => (false, d)
  | Some handler =>
      let (ret, d) := handler (stepBefore d command) command commandMaxSize in
      (ret, stepAfter d command)
  end.

(** The stamp of a command and what is written to it, with the wish for a semaphore; the
    flags are read from the channel after the command was served. *)
Definition signalFor (d : D) (p : CommandPacket) : list (Z * (Z * bool)) :=
  if pk_completionStamp p =? 0 then []
  else [(pk_completionStamp p, signalCompletion (rpc_flags (headerAt d (pk_command p))))].

(** A turn of the loop with what [wait] returned. *)
Definition rpcTurn (brokenChannel : bool) (d : D) (p : CommandPacket) : bool * D * list (Z * (Z * bool)) :=
  if pk_command p =? 0 then (brokenChannel, d, [])
  else
    let (brokenChannel, d) :=
      if brokenChannel then (true, d)
      else let (ok, d) := serviceSingleRpcCommand d (pk_command p) (pk_commandMaxSize p) in (negb ok, d) in
    (brokenChannel, d, signalFor d p).

Fixpoint serviceSingleRpcChannel (brokenChannel : bool) (d : D) (l : list CommandPacket) : bool * D * list (Z * (Z * bool)) :=
  match l with
  | [] => (brokenChannel, d, [])
  | p :: l =>
      let '(brokenChannel, d, signals) := rpcTurn brokenChannel d p in
      let '(brokenChannel, d, more) := serviceSingleRpcChannel brokenChannel d l in
      (brokenChannel, d, signals ++ more)
  end.

(** The commands among the packets: [wait] returns empty ones when it is interrupted. *)
Definition commands (l : list CommandPacket) : list CommandPacket := filter (fun p => pk_command p <> 0) l.

(** Commands one after the other that all succeed. *)
Inductive succeed : D -> list CommandPacket -> D -> Prop :=
| succeed_nil d : succeed d [] d
| succeed_cons d p d' l d'' :
    serviceSingleRpcCommand d (pk_command p) (pk_commandMaxSize p) = (true, d') -> succeed d' l d'' -> succeed d (p :: l) d''.

Lemma broken_ignores d l : fst (serviceSingleRpcChannel true d l) = (true, d).
Proof.
  induction l as [|p l IH]; [done|]. cbn [serviceSingleRpcChannel]. unfold rpcTurn.
  destruct (pk_command p =? 0); destruct (serviceSingleRpcChannel true d l) as [[b d'] more]; cbn in *; done.
Qed.

Lemma signals_in_order b d l :
  map fst (snd (serviceSingleRpcChannel b d l)) = filter (fun s => s <> 0) (pk_completionStamp <$> commands l) /\
  Forall (fun s => fst (snd s) = CompletionStampReady) (snd (serviceSingleRpcChannel b d l)).
Proof.
  revert b d. induction l as [|p l IH]; intros b d; [by split|]. cbn [serviceSingleRpcChannel]. unfold rpcTurn, commands in *.
  rewrite filter_cons. destruct (Z.eqb_spec (pk_command p) 0) as [H0|H0].
  - rewrite decide_False by lia. specialize (IH b d). destruct (serviceSingleRpcChannel b d l) as [[b' d'] more]. done.
  - rewrite decide_True by done. cbn [fmap list_fmap]. rewrite filter_cons.
    destruct (if b then (true, d) else _) as [b1 d1]. specialize (IH b1 d1). destruct (serviceSingleRpcChannel b1 d1 l) as [[b' d'] more].
    cbn [snd] in *. destruct IH as [IH1 IH2]. unfold signalFor. destruct (Z.eqb_spec (pk_completionStamp p) 0) as [Hs|Hs].
    + rewrite decide_False by lia. by split.
    + rewrite decide_True by done. split; [cbn; by f_equal|]. by constructor.
Qed.

(** C19: A channel answers all its commands, whatever they do. For every sequence of
    packets: each command with a completion stamp has its stamp set to ready exactly once,
    in order; the commands are executed in order up to and including the first one that
    fails, or that has no handler, and none behind it; and the channel counts as broken
    exactly if there is one. The turns are taken as given: waiting for the lock of the batches
    and stopping the thread are the subject of the next part. *)
Theorem rpc_commands_answered d l :
  let '(broken, d', signals) := serviceSingleRpcChannel false d l in
  map fst signals = filter (fun s => s <> 0) (pk_completionStamp <$> commands l) /\
  Forall (fun s => fst (snd s) = CompletionStampReady) signals /\
  if broken
  then exists before p after d1, commands l = before ++ p :: after /\ succeed d before d1 /\
         serviceSingleRpcCommand d1 (pk_command p) (pk_commandMaxSize p) = (false, d')
  else succeed d (commands l) d'.
Proof.
  destruct (serviceSingleRpcChannel false d l) as [[broken d'] signals] eqn:Hrun.
  destruct (signals_in_order false d l) as [H1 H2]. rewrite Hrun in H1, H2. split; [exact H1|]. split; [exact H2|]. clear H1 H2.
  revert d signals Hrun. induction l as [|p l IH]; intros d signals; cbn [serviceSingleRpcChannel].
  { intros [= <- <- _]. constructor. }
  unfold rpcTurn, commands in *. rewrite filter_cons. destruct (Z.eqb_spec (pk_command p) 0) as [H0|H0].
  { rewrite decide_False by lia. destruct (serviceSingleRpcChannel false d l) as [[b1 d1] more] eqn:E. intros [= <- <- _]. by eapply IH. }
  rewrite decide_True by done.
  destruct (serviceSingleRpcCommand d (pk_command p) (pk_commandMaxSize p)) as [[|] d1] eqn:Hc; cbn [negb].
  - destruct (serviceSingleRpcChannel false d1 l) as [[b2 d2] more] eqn:E. intros [= <- <- _]. specialize (IH d1 more E). destruct b2.
    + destruct IH as (before & q & after & d3 & Hl & Hs & Hq). exists (p :: before), q, after, d3. rewrite Hl. split; [done|]. split; [by econstructor|done].
    + by econstructor.
  - pose proof (broken_ignores d1 l) as Hb. destruct (serviceSingleRpcChannel true d1 l) as [[b2 d2] more]. cbn in Hb. injection Hb as -> ->.
    intros [= <- <- _]. exists [], p, (filter (fun p => pk_command p <> 0) l), d. split; [done|]. split; [constructor|done].
Qed.

End channel.

(** * The lock of the batches

    [batchedMtx] is a shared mutex and [mtxOwner] the thread that holds it exclusively.
    A thread only compares [mtxOwner] with itself, so that setting it directly after
    locking and clearing it directly before unlocking can be taken as one step. *)
Record BatchLock := mkLock { mtxOwner : option nat; exclusive : option nat; sharedBy : list nat }.

(** Before a command: the lock afterwards and [sharedLock]; [None] while the thread waits. *)
Definition acquire (l : BatchLock) (me : nat) (batched : bool) : option (BatchLock * bool) :=
  let mine := bool_decide (mtxOwner l = Some me) in
  if batched then
    if mine then Some (l, false)
    else match exclusive l, sharedBy l with
         | None, [] => Some (mkLock (Some me) (Some me) [], false)
         | _, _ => None
         end
  else if mine then Some (mkLock None None (sharedBy l), false)
  else match exclusive l with
       | None => Some (mkLock (mtxOwner l) None (me :: sharedBy l), true)
       | Some _ => None
       end.

(** After the command. *)
Definition release (l : BatchLock) (me : nat) (sharedLock : bool) : BatchLock :=
  if sharedLock then mkLock (mtxOwner l) (exclusive l) (filter (fun t => t <> me) (sharedBy l)) else l.

(** A thread is at the head of its loop, executes a command, or has left the loop. *)
Inductive Phase : Type := Waiting | Executing (batched sharedLock : bool) | Stopped.

Record Worker := mkWorker { phase : Phase; pending : list bool }.

Abbreviation config := (BatchLock * list Worker)%type.

Inductive tstep : config -> config -> Prop :=
| step_take l ws t batched rest l' sharedLock :
    ws !! t = Some (mkWorker Waiting (batched :: rest)) -> acquire l t batched = Some (l', sharedLock) ->
    tstep (l, ws) (l', <[t := mkWorker (Executing batched sharedLock) rest]> ws)
| step_done l ws t batched sharedLock rest :
    ws !! t = Some (mkWorker (Executing batched sharedLock) rest) ->
    tstep (l, ws) (release l t sharedLock, <[t := mkWorker Waiting rest]> ws)
| step_stop l ws t rest :
    ws !! t = Some (mkWorker Waiting rest) ->
    tstep (l, ws) (l, <[t := mkWorker Stopped rest]> ws).

Definition started (queues : list (list bool)) : config := (mkLock None None [], mkWorker Waiting <$> queues).

Record lock_ok (c : config) : Prop := mkLockOk {
  lo_owner : mtxOwner (fst c) = exclusive (fst c);
  lo_exclusive : exclusive (fst c) <> None -> sharedBy (fst c) = [];
  lo_shared t batched rest : snd c !! t = Some (mkWorker (Executing batched true) rest) -> batched = false /\ t ∈ sharedBy (fst c);
  lo_batched t sharedLock rest : snd c !! t = Some (mkWorker (Executing true sharedLock) rest) -> exclusive (fst c) = Some t /\ sharedLock = false
}.

Lemma acquire_ok l me batched l' sharedLock : acquire l me batched = Some (l', sharedLock) ->
  mtxOwner l = exclusive l -> (exclusive l <> None -> sharedBy l = []) ->
  mtxOwner l' = exclusive l' /\ (exclusive l' <> None -> sharedBy l' = []) /\
  (forall t, t ∈ sharedBy l -> t ∈ sharedBy l') /\ (forall t, t <> me -> exclusive l = Some t -> exclusive l' = Some t) /\
  (batched = true -> exclusive l' = Some me /\ sharedLock = false) /\ (sharedLock = true -> batched = false /\ me ∈ sharedBy l').
Proof.
  unfold acquire. intros Ha Ho He. destruct batched; case_bool_decide as Hm.
  - injection Ha as <- <-. rewrite Ho in Hm. by split_and!.
  - destruct (exclusive l); [done|]. destruct (sharedBy l); [|done]. injection Ha as <- <-. by split_and!.
  - injection Ha as <- <-. cbn. rewrite Ho in Hm. split_and!; try done. intros t Ht. congruence.
  - destruct (exclusive l) eqn:Ex; [done|]. injection Ha as <- <-. cbn. split_and!; try done.
    + intros t Ht. by right.
    + intros _. split; [done|]. by left.
Qed.

Lemma tstep_ok c c' : lock_ok c -> tstep c c' -> lock_ok c'.
Proof.
  intros [H1 H2 H3 H4] Hs. destruct Hs as [l ws t batched rest l' sl Ht Ha|l ws t batched sl rest Ht|l ws t rest Ht]; cbn [fst snd] in *.
  - destruct (acquire_ok l t batched l' sl Ha H1 H2) as (A1 & A2 & A3 & A4 & A5 & A6).
    constructor; cbn [fst snd]; [done|done| |].
    + intros u b r. destruct (decide (u = t)) as [->|Hne].
      * rewrite list_lookup_insert_eq by (by eapply lookup_lt_Some). intros [= -> -> _]. by apply A6.
      * rewrite list_lookup_insert_ne by done. intros Hu. destruct (H3 _ _ _ Hu) as [-> Hin]. split; [done|by apply A3].
    + intros u s r. destruct (decide (u = t)) as [->|Hne].
      * rewrite list_lookup_insert_eq by (by eapply lookup_lt_Some). intros [= -> <- _]. by apply A5.
      * rewrite list_lookup_insert_ne by done. intros Hu. destruct (H4 _ _ _ Hu) as [Hex ->]. split; [by apply A4|done].
  - assert (Hl : mtxOwner (release l t sl) = mtxOwner l /\ exclusive (release l t sl) = exclusive l) by (by destruct sl).
    destruct Hl as [Ho He]. constructor; cbn [fst snd]; [by rewrite Ho, He| | |].
    + rewrite He. intros Hne. unfold release. destruct sl; cbn; by rewrite (H2 Hne).
    + intros u b r. destruct (decide (u = t)) as [->|Hne]; [by rewrite list_lookup_insert_eq by (by eapply lookup_lt_Some)|].
      rewrite list_lookup_insert_ne by done. intros Hu. destruct (H3 _ _ _ Hu) as [-> Hin]. split; [done|].
      unfold release. destruct sl; cbn; [|done]. by apply list_elem_of_filter.
    + intros u s r. destruct (decide (u = t)) as [->|Hne]; [by rewrite list_lookup_insert_eq by (by eapply lookup_lt_Some)|].
      rewrite list_lookup_insert_ne by done. rewrite He. apply H4.
  - constructor; cbn [fst snd]; [done|done| |].
    + intros u b r. destruct (decide (u = t)) as [->|Hne]; [by rewrite list_lookup_insert_eq by (by eapply lookup_lt_Some)|].
      rewrite list_lookup_insert_ne by done. apply H3.
    + intros u s r. destruct (decide (u = t)) as [->|Hne]; [by rewrite list_lookup_insert_eq by (by eapply lookup_lt_Some)|].
      rewrite list_lookup_insert_ne by done. apply H4.
Qed.

Lemma started_ok queues : lock_ok (started queues).
Proof.
  constructor; cbn; try done; intros t; rewrite list_lookup_fmap; destruct (queues !! t); done.
Qed.

Lemma batch_reachable_ok queues c : rtc tstep (started queues) c -> lock_ok c.
Proof. intros Hr. revert Hr. apply rtc_ind_r; [apply started_ok|]. intros x y _ Hstep Hx. by eapply tstep_ok. Qed.

(** C20: A batch is not disturbed by commands that take the lock. In every interleaving of
    any number of channels: while a thread executes a command of a batch, no other thread
    executes a command of a batch or a command under the shared lock. The only commands
    that can run beside it are those that end a batch: their thread gives the lock up
    before it executes them. *)
Theorem batch_isolated queues l ws t sharedLock rest u batched sharedLock' rest' :
  rtc tstep (started queues) (l, ws) ->
  ws !! t = Some (mkWorker (Executing true sharedLock) rest) -> u <> t ->
  ws !! u = Some (mkWorker (Executing batched sharedLock') rest') -> batched = false /\ sharedLock' = false.
Proof.
  intros Hr Ht Hne Hu. destruct (batch_reachable_ok _ _ Hr) as [H1 H2 H3 H4]. cbn [fst snd] in *.
  destruct (H4 _ _ _ Ht) as [He _]. destruct batched.
  - destruct (H4 _ _ _ Hu) as [He' _]. rewrite He in He'. congruence.
  - split; [done|]. destruct sharedLock'; [|done]. destruct (H3 _ _ _ Hu) as [_ Hin]. rewrite H2 in Hin by (by rewrite He). by apply elem_of_nil in Hin.
Qed.

(** A batch that its client does not end blocks the service. Once a thread has left its
    loop while it owns the lock, the lock is never given back: in every continuation no
    other thread that waits for a command ever executes one, although commands are pending. *)
Theorem stopped_owner_blocks queues l ws t rest l' ws' u pend :
  rtc tstep (started queues) (l, ws) -> mtxOwner l = Some t -> ws !! t = Some (mkWorker Stopped rest) ->
  rtc tstep (l, ws) (l', ws') -> u <> t -> ws !! u = Some (mkWorker Waiting pend) ->
  mtxOwner l' = Some t /\ (ws' !! u = Some (mkWorker Waiting pend) \/ ws' !! u = Some (mkWorker Stopped pend)).
Proof.
  intros Hr Ho Ht Hr' Hne Hu.
  assert (Hinv : forall c, rtc tstep (l, ws) c -> lock_ok c /\ mtxOwner (fst c) = Some t /\ snd c !! t = Some (mkWorker Stopped rest) /\
    (snd c !! u = Some (mkWorker Waiting pend) \/ snd c !! u = Some (mkWorker Stopped pend))).
  { intros c. revert c. apply rtc_ind_r; [split; [by eapply batch_reachable_ok|]; cbn; split; [done|]; split; [done|by left]|].
    intros x y _ Hs (Hok & Hox & Htx & Hux). split; [by eapply tstep_ok|].
    pose proof (lo_owner _ Hok) as Heq. rewrite Hox in Heq.
    destruct Hs as [m vs v batched r m' sl Hv Ha|m vs v batched sl r Hv|m vs v r Hv]; cbn [fst snd] in *.
    - exfalso. assert (Hvt : v <> t) by (intros ->; congruence). unfold acquire in Ha. rewrite <- Heq, Hox in Ha.
      rewrite bool_decide_eq_false_2 in Ha by congruence. by destruct batched.
    - assert (Hvt : v <> t) by (intros ->; congruence). assert (Hvu : v <> u) by (intros ->; destruct Hux; congruence).
      split; [by destruct sl|]. by rewrite !list_lookup_insert_ne.
    - assert (Hvt : v <> t) by (intros ->; congruence). split; [done|]. rewrite list_lookup_insert_ne by done. split; [done|].
      destruct (decide (v = u)) as [->|Hvu]; [|by rewrite list_lookup_insert_ne].
      right. rewrite list_lookup_insert_eq by (by eapply lookup_lt_Some). destruct Hux as [Hx|Hx]; rewrite Hv in Hx; [by injection Hx as ->|done]. }
  destruct (Hinv _ Hr') as (_ & H1 & _ & H2). done.
Qed.

(** * Concrete runs *)

(** A service that counts: the handler of subtype 1 succeeds, that of subtype 2 fails. *)
Definition countHandlers : list (list (option (Z -> Z -> Z -> bool * Z))) :=
  [[]; [None; Some (fun d _ _ => (true, d + 1)); Some (fun d _ _ => (false, d + 10))]].

(** The header of a command is told by its address. *)
Definition countHeader (d command : Z) : RpcMessageHeader := mkRpcHeader 1 1 (command mod 4096).

Example broken_channel_still_answers :
  serviceSingleRpcChannel countHeader countHandlers None false 0
    [mkPacket 4097 0 7; emptyPacket; mkPacket 8194 0 8; mkPacket 12289 0 9]
  = (true, 11, [(7, (1, true)); (8, (1, true)); (9, (1, true))]).
Proof. by vm_compute. Qed.

(** Two channels: the first one starts a batch and ends it, the second one starts its own
    while the last command of the first is executed without a lock. *)
Definition twoQueues : list (list bool) := [[true; false]; [true]].

Definition overlapping : config :=
  (mkLock (Some 1%nat) (Some 1%nat) [], [mkWorker (Executing false false) []; mkWorker (Executing true false) []]).

Lemma overlapping_reachable : rtc tstep (started twoQueues) overlapping.
Proof.
  eapply rtc_l; [by eapply (step_take _ _ 0%nat)|]. cbn.
  eapply rtc_l; [by eapply (step_done _ _ 0%nat)|]. cbn.
  eapply rtc_l; [by eapply (step_take _ _ 0%nat)|]. cbn.
  eapply rtc_l; [by eapply (step_take _ _ 1%nat)|]. apply rtc_refl.
Qed.

Lemma batch_isolated_witness :
  exists batched sharedLock rest, snd overlapping !! 0%nat = Some (mkWorker (Executing batched sharedLock) rest) /\
    batched = false /\ sharedLock = false.
Proof.
  exists false, false, []. split; [reflexivity|].
  exact (batch_isolated twoQueues _ _ 1%nat false [] 0%nat false false [] overlapping_reachable eq_refl ltac:(lia) eq_refl).
Defined.

(** The first client stops in the middle of its batch. *)
Definition abandoned : config :=
  (mkLock (Some 0%nat) (Some 0%nat) [], [mkWorker Stopped [false]; mkWorker Waiting [true]]).

Lemma abandoned_reachable : rtc tstep (started twoQueues) abandoned.
Proof.
  eapply rtc_l; [by eapply (step_take _ _ 0%nat)|]. cbn.
  eapply rtc_l; [by eapply (step_done _ _ 0%nat)|]. cbn.
  eapply rtc_l; [by eapply (step_stop _ _ 0%nat)|]. apply rtc_refl.
Qed.

Definition everyoneLeft : config :=
  (mkLock (Some 0%nat) (Some 0%nat) [], [mkWorker Stopped [false]; mkWorker Stopped [true]]).

Lemma left_reachable : rtc tstep abandoned everyoneLeft.
Proof. eapply rtc_l; [by eapply (step_stop _ _ 1%nat)|]. apply rtc_refl. Qed.

Lemma stopped_owner_blocks_witness :
  mtxOwner (fst everyoneLeft) = Some 0%nat /\
  (snd everyoneLeft !! 1%nat = Some (mkWorker Waiting [true]) \/ snd everyoneLeft !! 1%nat = Some (mkWorker Stopped [true])).
Proof.
  exact (stopped_owner_blocks twoQueues _ _ 0%nat [false] _ _ 1%nat [true] abandoned_reachable eq_refl eq_refl left_reachable ltac:(lia) eq_refl).
Defined.
