(* ===== verification/KernelArgs.v ===== *)
(** The cache of kernel arguments of the client (client/icd/icd_kernel_arg_cache.h)
    and the API functions that use it: an argument that equals the one that was
    set last is not sent to the service again.  The service's side of a call is
    a parameter: a result code and the new state of the kernel there. *)

From stdpp Require Import gmap.
From S2P Require Import Prelude.
From S2P Require Import ClientContext.
Local Open Scope Z_scope.

(** * Arguments

    [arg_value] is an address, 0 for a null pointer; [a_bytes] is what the
    memory behind it holds when the function is called. *)
Record Arg := mkArg { a_size : Z; a_ptr : Z; a_bytes : list Z }.

Definition maxStaticArgSize : Z := 8.

Record KernelArgEntry := mkEntry {
  arg_index : Z; arg_size : Z; arg_value : Z; argValues : list Z; argValueDynamic : option (list Z) }.

Definition newEntry : KernelArgEntry := mkEntry 0 0 0 (replicate 8 0) None.

Abbreviation KernelArgCache := (list KernelArgEntry).

Definition size_of (n : Z) : nat := Z.to_nat n.

(** The buffer that holds values of a size: the static one or the dynamic one. *)
Definition bufferFor (e : KernelArgEntry) (size : Z) : option (list Z) :=
  if maxStaticArgSize <? size then argValueDynamic e else Some (argValues e).

(** [memcmp] and [memcpy] with a null or a short buffer are undefined. *)
Definition memcmp (a : list Z) (buffer : option (list Z)) (size : Z) : res bool :=
  match buffer with
  | None => Undef
  | Some b => if Z.of_nat (length b) <? size then Undef else Ret (bool_decide (take (size_of size) a = take (size_of size) b))
  end.

Definition memcpy (buffer : option (list Z)) (a : list Z) (size : Z) : res (list Z) :=
  match buffer with
  | None => Undef
  | Some b => if Z.of_nat (length b) <? size then Undef else Ret (take (size_of size) a ++ drop (size_of size) b)
  end.

Definition matches (idx : Z) (a : Arg) (e : KernelArgEntry) : res bool :=
  if (idx =? arg_index e) && (a_size a =? arg_size e) then
    if negb (arg_size e =? 0) && negb (a_ptr a =? 0)
    then memcmp (a_bytes a) (bufferFor e (arg_size e)) (a_size a)
    else Ret (a_ptr a =? arg_value e)
  else Ret false.

(** Whether [find_if] finds an entry. *)
Fixpoint findCachedKernelArg (c : KernelArgCache) (idx : Z) (a : Arg) : res bool :=
  match c with
  | [] => Ret false
  | e :: c => found ← matches idx a e; if found : bool then Ret true else findCachedKernelArg c idx a
  end.

Definition updateEntry (e : KernelArgEntry) (idx : Z) (a : Arg) : res KernelArgEntry :=
  if a_ptr a =? 0 then Ret (mkEntry idx (a_size a) (a_ptr a) (argValues e) (argValueDynamic e))
  else if maxStaticArgSize <? a_size a then
    let dynamic := if arg_size e <? a_size a then Some (replicate (size_of (a_size a)) 0) else argValueDynamic e in
    dynamic ← memcpy dynamic (a_bytes a) (a_size a);
    Ret (mkEntry idx (a_size a) (a_ptr a) (argValues e) (Some dynamic))
  else
    static ← memcpy (Some (argValues e)) (a_bytes a) (a_size a);
    Ret (mkEntry idx (a_size a) (a_ptr a) static (argValueDynamic e)).

Fixpoint cacheKernelArg (c : KernelArgCache) (idx : Z) (a : Arg) : res KernelArgCache :=
  match c with
  | [] => e ← updateEntry newEntry idx a; Ret [e]
  | e :: c =>
      if idx =? arg_index e then e ← updateEntry e idx a; Ret (e :: c)
      else c ← cacheKernelArg c idx a; Ret (e :: c)
  end.

Definition invalidateCache (c : KernelArgCache) : KernelArgCache := [].

(** * Setting arguments *)

(** What a kernel of the client keeps: the cache and the shared allocations that
    must move before it runs. *)
Record ClientKernel := mkKernel { argCache : KernelArgCache; allocationsToMigrate : list Z }.

(** The new length is computed with 32 bits: for the last index it is 0, and the
    store is out of bounds. *)
Definition storeKernelArg (k : ClientKernel) (argValue argNum : Z) : res ClientKernel :=
  let needed := size_of (u32 (argNum + 1)) in
  let l := if (length (allocationsToMigrate k) <? needed)%nat then resize needed 0 (allocationsToMigrate k) else allocationsToMigrate k in
  if (size_of argNum <? length l)%nat then Ret (mkKernel (argCache k) (<[size_of argNum := argValue]> l)) else Undef.

(** The pointer that eight bytes hold. *)
Definition pointerIn (bytes : list Z) : Z := fold_right (fun b acc => b + 256 * acc) 0 (take 8 bytes).

Section setters.
Context {S : Type}.
(** The remote calls. *)
Context (setArgument : S -> Z -> Arg -> Z * S).
Context (setMemPointer : S -> Z -> Z -> Z * S).
Context (cacheEnabled : bool).

Definition set_cache (k : ClientKernel) (c : KernelArgCache) : ClientKernel := mkKernel c (allocationsToMigrate k).

Definition lookupCache (k : ClientKernel) (idx : Z) (a : Arg) : res bool :=
  if cacheEnabled then findCachedKernelArg (argCache k) idx a else Ret false.

(** [zeKernelSetArgumentValue]; the cache is written before the service is asked. *)
Definition zeKernelSetArgumentValue (isAllocShared : Z -> bool) (k : ClientKernel) (s : S) (argIndex : Z) (a : Arg) : res (Z * ClientKernel * S) :=
  k ← (if (a_size a =? 8) && negb (a_ptr a =? 0) && isAllocShared (pointerIn (a_bytes a))
       then storeKernelArg k (pointerIn (a_bytes a)) argIndex else Ret k);
  if negb cacheEnabled then let (ret, s) := setArgument s argIndex a in Ret (ret, k, s) else
  found ← findCachedKernelArg (argCache k) argIndex a;
  if found : bool then Ret (ZE_RESULT_SUCCESS, k, s) else
  c ← cacheKernelArg (argCache k) argIndex a;
  let (ret, s) := setArgument s argIndex a in
  Ret (ret, set_cache k c, s).

Definition CL_SUCCESS : Z := 0.
Definition CL_INVALID_ARG_VALUE : Z := -50.

(** [clSetKernelArg]: [usmBuffer] is the USM pointer of the buffer that the
    argument names, when the argument is a pointer to such a buffer. *)
Definition clSetKernelArg (usmBuffer : option Z) (k : ClientKernel) (s : S) (argIndex : Z) (a : Arg) : res (Z * ClientKernel * S) :=
  found ← lookupCache k argIndex a;
  if found : bool then Ret (CL_SUCCESS, k, s) else
  let (ret, s) := match usmBuffer with
                  | Some pointer => if negb (a_ptr a =? 0) then setMemPointer s argIndex pointer else (CL_INVALID_ARG_VALUE, s)
                  | None => (CL_INVALID_ARG_VALUE, s)
                  end in
  let (ret, s) := if negb (ret =? CL_SUCCESS) then setArgument s argIndex a else (ret, s) in
  c ← (if cacheEnabled then cacheKernelArg (argCache k) argIndex a else Ret (argCache k));
  Ret (ret, set_cache k c, s).

(** [clSetKernelArgMemPointerINTEL], [clSetKernelArgSVMPointer]: the pointer is
    the key, with size 0. *)
Definition clSetKernelArgMemPointerINTEL (k : ClientKernel) (s : S) (argIndex argValue : Z) : res (Z * ClientKernel * S) :=
  k ← storeKernelArg k argValue argIndex;
  found ← lookupCache k argIndex (mkArg 0 argValue []);
  if found : bool then Ret (CL_SUCCESS, k, s) else
  let (ret, s) := setMemPointer s argIndex argValue in
  c ← (if cacheEnabled then cacheKernelArg (argCache k) argIndex (mkArg 0 argValue []) else Ret (argCache k));
  Ret (ret, set_cache k c, s).

End setters.

(** * What the cache stands for *)

(** What the service gets to know of an argument. *)
Inductive Value : Type := Bytes (l : list Z) | Pointer (size ptr : Z).

Definition value_of (a : Arg) : Value :=
  if negb (a_size a =? 0) && negb (a_ptr a =? 0) then Bytes (take (size_of (a_size a)) (a_bytes a)) else Pointer (a_size a) (a_ptr a).

#[export] Instance Value_eq_dec : EqDecision Value.
Proof. solve_decision. Defined.

(** The memory behind a pointer can be read. *)
Definition readable (a : Arg) : Prop := 0 <= a_size a /\ (a_ptr a <> 0 -> a_size a <= Z.of_nat (length (a_bytes a))).

(** Either the arguments of an index are all sizes without a value (local
    memory), or none is. *)
Definition of_kind (isLocal : bool) (a : Arg) : Prop :=
  readable a /\ if isLocal then a_size a <> 0 /\ a_ptr a = 0 else a_size a = 0 \/ a_ptr a <> 0.

Definition entry_holds (e : KernelArgEntry) (a : Arg) : Prop :=
  arg_size e = a_size a /\ arg_value e = a_ptr a /\ length (argValues e) = 8%nat /\
  (a_ptr a <> 0 -> exists b, bufferFor e (a_size a) = Some b /\ a_size a <= Z.of_nat (length b) /\
     take (size_of (a_size a)) b = take (size_of (a_size a)) (a_bytes a)).

Definition cache_holds (c : KernelArgCache) (f : gmap Z Arg) : Prop :=
  NoDup (arg_index <$> c) /\
  forall idx, match f !! idx with
              | Some a => exists e, e ∈ c /\ arg_index e = idx /\ entry_holds e a
              | None => idx ∉ arg_index <$> c
              end.

Lemma memcpy_ok b a size : 0 <= size -> size <= Z.of_nat (length b) -> size <= Z.of_nat (length a) ->
  exists b', memcpy (Some b) a size ⇓ b' /\ length b' = length b /\ take (size_of size) b' = take (size_of size) a.
Proof.
  intros H0 Hb Ha. unfold memcpy. rewrite (proj2 (Z.ltb_ge _ _)) by lia. eexists. split; [reflexivity|].
  unfold size_of. split; [rewrite length_app, length_take, length_drop; lia|]. rewrite take_app_le by (rewrite length_take; lia). by rewrite take_take, Nat.min_id.
Qed.

(** Writing an entry; [old] is the argument that it held, if any. *)
Lemma updateEntry_ok e idx kind a old : of_kind kind a -> length (argValues e) = 8%nat ->
  (if old is Some o then of_kind kind o /\ entry_holds e o else arg_size e = 0) ->
  exists e', updateEntry e idx a ⇓ e' /\ arg_index e' = idx /\ entry_holds e' a.
Proof.
  intros [[Hsz Hrd] Hk] Hst Hold. unfold updateEntry. destruct (Z.eqb_spec (a_ptr a) 0) as [Hp|Hp].
  { eexists. split; [done|]. split; [done|]. split_and!; try done. }
  assert (kind = false) as -> by (destruct kind; [by destruct Hk|done]). specialize (Hrd Hp).
  destruct (Z.ltb_spec maxStaticArgSize (a_size a)) as [Hbig|Hsmall]; unfold maxStaticArgSize in *.
  - assert (Hdyn : exists b, (if arg_size e <? a_size a then Some (replicate (size_of (a_size a)) 0) else argValueDynamic e) = Some b /\ a_size a <= Z.of_nat (length b)).
    { destruct (Z.ltb_spec (arg_size e) (a_size a)) as [Hlt|Hge]; [eexists; split; [done|]; rewrite length_replicate; unfold size_of; lia|].
      destruct old as [o|]; [|lia]. destruct Hold as [[_ Ho] (Eo & _ & _ & Hbuf)]. destruct Hbuf as (b & Hb & Hle & _); [destruct Ho; lia|].
      unfold bufferFor, maxStaticArgSize in Hb. rewrite (proj2 (Z.ltb_lt _ _)) in Hb by lia. exists b. split; [done|lia]. }
    destruct Hdyn as (b & -> & Hlen). destruct (memcpy_ok b (a_bytes a) (a_size a) Hsz Hlen Hrd) as (b' & -> & Hl' & Ht). cbn [mbind res_bind].
    eexists. split; [done|]. split; [done|]. split_and!; try done. intros _. exists b'. unfold bufferFor, maxStaticArgSize. cbn.
    rewrite (proj2 (Z.ltb_lt _ _)) by lia. split; [done|]. split; [lia|done].
  - destruct (memcpy_ok (argValues e) (a_bytes a) (a_size a) Hsz ltac:(lia) Hrd) as (b' & -> & Hl' & Ht). cbn [mbind res_bind].
    eexists. split; [done|]. split; [done|]. split_and!; try done; [cbn; lia|]. intros _. exists b'. unfold bufferFor, maxStaticArgSize. cbn.
    rewrite (proj2 (Z.ltb_ge _ _)) by lia. split; [done|]. split; [lia|done].
Qed.

Lemma matches_ok e a o kind : of_kind kind a -> of_kind kind o -> entry_holds e o ->
  matches (arg_index e) a e ⇓ bool_decide (value_of a = value_of o).
Proof.
  intros [[Hs Hr] Hk] [[Hso Hro] Hko] (E1 & E2 & E3 & Hbuf). unfold matches, value_of. rewrite Z.eqb_refl, E1, E2. cbn [andb].
  destruct (Z.eqb_spec (a_size a) (a_size o)) as [Heq|Hne].
  - rewrite <- Heq in *. destruct (Z.eqb_spec (a_size a) 0) as [H0|H0]; cbn [negb andb].
    + f_equal. destruct (Z.eqb_spec (a_ptr a) (a_ptr o)); symmetry; [apply bool_decide_eq_true_2; congruence|apply bool_decide_eq_false_2; congruence].
    + destruct kind.
      * destruct Hk as [_ ->], Hko as [_ ->]. cbn. by rewrite bool_decide_eq_true_2.
      * destruct Hk as [|Hp]; [done|]. destruct Hko as [|Hpo]; [done|]. rewrite (proj2 (Z.eqb_neq (a_ptr a) 0)), (proj2 (Z.eqb_neq (a_ptr o) 0)) by done. cbn [negb].
        destruct (Hbuf Hpo) as (b & -> & Hle & Ht). unfold memcmp. rewrite (proj2 (Z.ltb_ge _ _)) by lia. f_equal. rewrite Ht. apply bool_decide_ext. split; congruence.
  - f_equal. symmetry. apply bool_decide_eq_false_2. intros Hv. apply Hne.
    destruct (Z.eqb_spec (a_size a) 0), (Z.eqb_spec (a_size o) 0); cbn [negb andb] in Hv; try congruence;
    destruct (Z.eqb_spec (a_ptr a) 0), (Z.eqb_spec (a_ptr o) 0); cbn [negb andb] in Hv; try congruence.
    injection Hv as Hv. apply (f_equal length) in Hv. unfold size_of in Hv. rewrite !length_take in Hv. specialize (Hr ltac:(done)). specialize (Hro ltac:(done)). lia.
Qed.

Lemma matches_other e idx a : idx <> arg_index e -> matches idx a e ⇓ false.
Proof. intros Hne. unfold matches. by rewrite (proj2 (Z.eqb_neq _ _)). Qed.

(** [kinds] tells for each index whether its arguments are sizes of local memory. *)
Definition holds (kinds : Z -> bool) (c : KernelArgCache) (f : gmap Z Arg) : Prop :=
  cache_holds c f /\ map_Forall (fun idx a => of_kind (kinds idx) a) f.

Lemma find_ok kinds c f idx a : holds kinds c f -> of_kind (kinds idx) a ->
  findCachedKernelArg c idx a ⇓ match f !! idx with Some o => bool_decide (value_of a = value_of o) | None => false end.
Proof.
  intros [[Hnd Hf] Hk] Ha. specialize (Hf idx).
  assert (Hmiss : forall c, idx ∉ arg_index <$> c -> findCachedKernelArg c idx a ⇓ false).
  { intros l. induction l as [|e l IH]; cbn [findCachedKernelArg]; [done|]. rewrite fmap_cons, not_elem_of_cons. intros [Hne Hn].
    rewrite matches_other by done. cbn [mbind res_bind]. by apply IH. }
  destruct (f !! idx) as [o|] eqn:Eo; [|by apply Hmiss].
  destruct Hf as (e & He & <- & Hh). pose proof (Hk _ _ Eo) as Hko. clear Hk Eo.
  induction c as [|e0 c IH]; [by apply elem_of_nil in He|]. cbn [findCachedKernelArg]. rewrite fmap_cons in Hnd. apply NoDup_cons in Hnd as [Hn Hnd].
  apply elem_of_cons in He as [->|He].
  - rewrite (matches_ok e0 a o _ Ha Hko Hh). cbn [mbind res_bind]. destruct (bool_decide _) eqn:E; [done|]. rewrite Hmiss by done. done.
  - rewrite matches_other; [|intros Heq; apply Hn; rewrite <- Heq; by apply list_elem_of_fmap_2]. cbn [mbind res_bind]. by apply IH.
Qed.

(** What is known of the entry of an index. *)
Definition slot_holds (c : KernelArgCache) (idx : Z) (old : option Arg) : Prop :=
  match old with
  | Some a => exists e, e ∈ c /\ arg_index e = idx /\ entry_holds e a
  | None => idx ∉ arg_index <$> c
  end.

Lemma cacheKernelArg_entries kind c old idx a : NoDup (arg_index <$> c) -> slot_holds c idx old ->
  (forall o, old = Some o -> of_kind kind o) -> of_kind kind a ->
  exists c', cacheKernelArg c idx a ⇓ c' /\
    (forall x, x ∈ arg_index <$> c' <-> x = idx \/ x ∈ arg_index <$> c) /\ NoDup (arg_index <$> c') /\
    slot_holds c' idx (Some a) /\ (forall e, e ∈ c -> arg_index e <> idx -> e ∈ c').
Proof.
  intros Hnd Hf Hk Ha. revert Hnd Hf. induction c as [|e c IH]; intros Hnd Hf; cbn [cacheKernelArg].
  - destruct (updateEntry_ok newEntry idx _ a None Ha eq_refl eq_refl) as (e & -> & He & Hh). cbn [mbind res_bind]. exists [e].
    split_and!; [done| | | |].
    + intros x. cbn. rewrite He, elem_of_cons, elem_of_nil. tauto.
    + cbn. apply NoDup_singleton.
    + exists e. split; [by left|done].
    + intros e0 H0. by apply elem_of_nil in H0.
  - rewrite fmap_cons in Hnd. apply NoDup_cons in Hnd as [Hn Hnd]. destruct (Z.eqb_spec idx (arg_index e)) as [->|Hne].
    + assert (Hupd : length (argValues e) = 8%nat /\ (if old is Some o then of_kind kind o /\ entry_holds e o else arg_size e = 0)).
      { destruct old as [o|].
        - destruct Hf as (e1 & He1 & Hi & Hh). apply elem_of_cons in He1 as [->|He1]; [|exfalso; apply Hn; rewrite <- Hi; by apply list_elem_of_fmap_2].
          split; [apply Hh|]. split; [by apply Hk|done].
        - exfalso. apply Hf. rewrite fmap_cons. by left. }
      destruct Hupd as [Hl Hold]. destruct (updateEntry_ok e (arg_index e) _ a old Ha Hl Hold) as (e' & -> & He & Hh). cbn [mbind res_bind].
      exists (e' :: c). split_and!; [done| | | |].
      * intros x. rewrite !fmap_cons, He, !elem_of_cons. tauto.
      * rewrite fmap_cons, He. by constructor.
      * exists e'. split; [by left|done].
      * intros e0 H0 Hne. apply elem_of_cons in H0 as [->|H0]; [done|by right].
    + assert (Hf' : slot_holds c idx old).
      { destruct old as [o|]; unfold slot_holds in *.
        - destruct Hf as (e1 & He1 & Hi & Hh). apply elem_of_cons in He1 as [->|He1]; [done|]. by exists e1.
        - rewrite fmap_cons, not_elem_of_cons in Hf. by destruct Hf. }
      destruct (IH Hnd Hf') as (c' & -> & Hidx & Hnd' & Hex & Hkeep). cbn [mbind res_bind]. exists (e :: c'). split_and!; [done| | | |].
      * intros x. rewrite !fmap_cons, !elem_of_cons, Hidx. tauto.
      * rewrite fmap_cons. constructor; [|done]. rewrite Hidx. intros [?|?]; [congruence|done].
      * destruct Hex as (e1 & H1 & H2). exists e1. split; [by right|done].
      * intros e0 H0 Hne0. apply elem_of_cons in H0 as [->|H0]; [by left|right; auto].
Qed.

Lemma cacheKernelArg_ok kinds c f idx a : holds kinds c f -> of_kind (kinds idx) a ->
  exists c', cacheKernelArg c idx a ⇓ c' /\ holds kinds c' (<[idx := a]> f).
Proof.
  intros [[Hnd Hf] Hk] Ha.
  destruct (cacheKernelArg_entries (kinds idx) c (f !! idx) idx a Hnd (Hf idx) (fun o Ho => Hk idx o Ho) Ha)
    as (c' & Hc & Hidx & Hnd' & Hex & Hkeep).
  exists c'. split; [done|]. split; [|by apply map_Forall_insert_2].
  split; [done|]. intros x. destruct (decide (x = idx)) as [->|Hne]; [by rewrite lookup_insert_eq|]. rewrite lookup_insert_ne by done.
  specialize (Hf x). destruct (f !! x).
  - destruct Hf as (e & He & <- & Hh). exists e. split_and!; [by apply Hkeep|done|done].
  - rewrite Hidx. intros [?|?]; [done|by apply Hf].
Qed.

Lemma empty_holds kinds : holds kinds [] ∅.
Proof. split; [|apply map_Forall_empty]. split; [apply NoDup_nil_2|]. intros idx. rewrite lookup_empty. cbn. apply not_elem_of_nil. Qed.

(** * Histories of a kernel *)

Inductive Step : Type := SetArgument (idx : Z) (a : Arg) | InvalidateCaches.

Definition newKernel : ClientKernel := mkKernel [] [].

(** The service keeps the last value of each argument. *)
Definition keepArgument (s : gmap Z Value) (idx : Z) (a : Arg) : Z * gmap Z Value := (ZE_RESULT_SUCCESS, <[idx := value_of a]> s).

Section histories.
Context (isAllocShared : Z -> bool).

Fixpoint run (k : ClientKernel) (s : gmap Z Value) (l : list Step) : res (ClientKernel * gmap Z Value) :=
  match l with
  | [] => Ret (k, s)
  | SetArgument idx a :: l =>
      '(ret, k, s) ← zeKernelSetArgumentValue keepArgument true isAllocShared k s idx a;
      if ret =? ZE_RESULT_SUCCESS then run k s l else Abort
  | InvalidateCaches :: l => run (set_cache k (invalidateCache (argCache k))) s l
  end.

(** What happens without a cache. *)
Definition sendAll (s : gmap Z Value) (l : list Step) : gmap Z Value :=
  foldl (fun s step => match step with SetArgument idx a => <[idx := value_of a]> s | InvalidateCaches => s end) s l.

Definition step_ok (kinds : Z -> bool) (step : Step) : Prop :=
  match step with SetArgument idx a => 0 <= idx < u32_max /\ of_kind (kinds idx) a | InvalidateCaches => True end.

Lemma storeKernelArg_ok k v idx : 0 <= idx < u32_max -> exists k', storeKernelArg k v idx ⇓ k' /\ argCache k' = argCache k.
Proof.
  intros Hi. unfold storeKernelArg. rewrite u32_id by (word_unfold; lia). unfold size_of.
  rewrite (proj2 (Nat.ltb_lt _ _)); [by eexists|]. case_match eqn:E; [rewrite length_resize; lia|]. apply Nat.ltb_ge in E. lia.
Qed.

(** The call, but for what is kept for migration. *)
Lemma set_value {S} (setArgument : S -> Z -> Arg -> Z * S) k s idx a : 0 <= idx < u32_max ->
  exists k1, argCache k1 = argCache k /\ zeKernelSetArgumentValue setArgument true isAllocShared k s idx a =
    (found ← findCachedKernelArg (argCache k) idx a;
     if found : bool then Ret (ZE_RESULT_SUCCESS, k1, s) else
     c ← cacheKernelArg (argCache k) idx a;
     let (ret, s) := setArgument s idx a in Ret (ret, set_cache k1 c, s)).
Proof.
  intros Hi. unfold zeKernelSetArgumentValue. cbn [negb].
  destruct (_ && _); [destruct (storeKernelArg_ok k (pointerIn (a_bytes a)) idx Hi) as (k1 & -> & E)|by exists k].
  exists k1. cbn [mbind res_bind]. by rewrite E.
Qed.

(** One step of a history. *)
Lemma run_step k s idx a l : 0 <= idx < u32_max ->
  exists k1, argCache k1 = argCache k /\ run k s (SetArgument idx a :: l) =
    (found ← findCachedKernelArg (argCache k) idx a;
     if found : bool then run k1 s l else
     c ← cacheKernelArg (argCache k) idx a; run (set_cache k1 c) (<[idx := value_of a]> s) l).
Proof.
  intros Hi. destruct (set_value keepArgument k s idx a Hi) as (k1 & E & Hz). exists k1. split; [done|]. cbn [run]. rewrite Hz.
  destruct (findCachedKernelArg _ _ _) as [[]| |]; [done| |done|done]. cbn [mbind res_bind].
  by destruct (cacheKernelArg _ _ _).
Qed.

Lemma run_ok kinds l : forall k s f, Forall (step_ok kinds) l -> holds kinds (argCache k) f ->
  (forall idx a, f !! idx = Some a -> s !! idx = Some (value_of a)) -> exists k', run k s l ⇓ (k', sendAll s l).
Proof.
  induction l as [|[idx a|] l IH]; intros k s f Hl Hc Hs; [by exists k| |].
  - apply Forall_cons in Hl as [[Hi Ha] Hl]. destruct (run_step k s idx a l Hi) as (k1 & E1 & ->).
    rewrite (find_ok kinds _ f idx a Hc Ha). cbn [mbind res_bind].
    destruct (match f !! idx with Some o => _ | None => false end) eqn:Ef.
    + destruct (f !! idx) as [o|] eqn:Eo; [|done]. apply bool_decide_eq_true in Ef.
      destruct (IH k1 s f Hl ltac:(by rewrite E1) Hs) as (k' & Hr). exists k'.
      rewrite Hr. cbn [sendAll foldl]. rewrite Ef, insert_id; [done|]. by apply Hs.
    + destruct (cacheKernelArg_ok kinds _ f idx a Hc Ha) as (c' & -> & Hc'). cbn [mbind res_bind].
      apply (IH (set_cache k1 c') (<[idx := value_of a]> s) (<[idx := a]> f) Hl Hc').
      intros x b. destruct (decide (x = idx)) as [->|Hne]; [rewrite !lookup_insert_eq; by intros [= ->]|]. rewrite !lookup_insert_ne by done. apply Hs.
  - apply Forall_cons in Hl as [_ Hl]. apply (IH _ s ∅ Hl); [apply empty_holds|]. intros idx a. by rewrite lookup_empty.
Qed.

(** C22: The cache of arguments is transparent while an index keeps to one kind and the service
    accepts every argument. In every history of such settings, each index taking either only
    values or only sizes of local memory, with invalidations in between, every setting succeeds
    without undefined behaviour and the service ends with the arguments that it would have
    without a cache, although repeated values are not sent. An index that mixes both kinds is
    not covered, see [value_after_null_is_not_sent], nor is a service that refuses an argument,
    see [refused_argument_is_cached]. *)
Theorem cached_arguments_are_current kinds l :
  Forall (step_ok kinds) l -> exists k, run newKernel ∅ l ⇓ (k, sendAll ∅ l).
Proof. intros Hl. apply (run_ok kinds _ _ _ ∅); [done|apply empty_holds|]. intros idx a. by rewrite lookup_empty. Qed.

(** A failed setting is taken for a successful one. When the service refuses an argument
    that was not cached, setting the same argument again reports success without asking
    the service, whatever its state. *)
Theorem refused_argument_is_cached {S} (setArgument : S -> Z -> Arg -> Z * S) kinds k s f idx a :
  holds kinds (argCache k) f -> 0 <= idx < u32_max -> of_kind (kinds idx) a -> f !! idx = None -> fst (setArgument s idx a) <> ZE_RESULT_SUCCESS ->
  exists k' ret s', zeKernelSetArgumentValue setArgument true isAllocShared k s idx a ⇓ (ret, k', s') /\ ret <> ZE_RESULT_SUCCESS /\
    forall s'', exists k'', zeKernelSetArgumentValue setArgument true isAllocShared k' s'' idx a ⇓ (ZE_RESULT_SUCCESS, k'', s'').
Proof.
  intros Hc Hi Ha Hf Hret. destruct (set_value setArgument k s idx a Hi) as (k1 & E1 & ->).
  rewrite (find_ok kinds _ f idx a Hc Ha), Hf. cbn [mbind res_bind].
  destruct (cacheKernelArg_ok kinds _ f idx a Hc Ha) as (c' & -> & Hc'). cbn [mbind res_bind].
  destruct (setArgument s idx a) as [ret s'] eqn:Es. exists (set_cache k1 c'), ret, s'. split; [done|]. split; [done|].
  intros s''. destruct (set_value setArgument (set_cache k1 c') s'' idx a Hi) as (k2 & E2 & ->). exists k2. cbn [argCache set_cache].
  rewrite (find_ok kinds _ _ idx a Hc' Ha), lookup_insert_eq. by rewrite bool_decide_eq_true_2.
Qed.

(** ** Values and null pointers for one argument *)

Definition nullArg (size : Z) : Arg := mkArg size 0 [].

(** The static buffer survives a null pointer. *)
Lemma null_keeps_value idx a : 0 < a_size a <= maxStaticArgSize -> a_ptr a <> 0 -> a_size a <= Z.of_nat (length (a_bytes a)) ->
  exists e e', cacheKernelArg [] idx a ⇓ [e] /\ findCachedKernelArg [e] idx (nullArg (a_size a)) ⇓ false /\
    cacheKernelArg [e] idx (nullArg (a_size a)) ⇓ [e'] /\ findCachedKernelArg [e'] idx a ⇓ true.
Proof.
  intros Hsz Hp Hrd. unfold maxStaticArgSize in *. destruct (memcpy_ok (argValues newEntry) (a_bytes a) (a_size a) ltac:(lia)) as (b & Hm & Hlb & Htb); [cbn; lia|done|].
  exists (mkEntry idx (a_size a) (a_ptr a) b None), (mkEntry idx (a_size a) 0 b None). split_and!.
  - unfold cacheKernelArg, updateEntry, maxStaticArgSize. rewrite (proj2 (Z.eqb_neq (a_ptr a) 0)), (proj2 (Z.ltb_ge 8 (a_size a))) by (done || lia). by rewrite Hm.
  - cbn [findCachedKernelArg]. unfold matches, nullArg. cbn [arg_index arg_size arg_value a_size a_ptr].
    rewrite !Z.eqb_refl. cbn [negb andb]. by rewrite andb_false_r, (proj2 (Z.eqb_neq 0 (a_ptr a))).
  - cbn [cacheKernelArg nullArg arg_index]. by rewrite Z.eqb_refl.
  - cbn [findCachedKernelArg]. unfold matches, bufferFor, memcmp, maxStaticArgSize. cbn [arg_index arg_size arg_value argValues].
    rewrite !Z.eqb_refl, (proj2 (Z.eqb_neq (a_size a) 0)), (proj2 (Z.eqb_neq (a_ptr a) 0)), (proj2 (Z.ltb_ge 8 (a_size a))) by (done || lia). cbn [negb andb].
    rewrite (proj2 (Z.ltb_ge _ _)) by (rewrite Hlb; cbn; lia). by rewrite bool_decide_eq_true_2.
Qed.

(** A null argument hides behind the value before it. When an argument of at most eight
    bytes is set to a value, then to a null pointer of the same size, and then to the first value
    again, the last setting is not sent: the service keeps the null pointer. *)
Theorem value_after_null_is_not_sent idx a :
  0 <= idx < u32_max -> 0 < a_size a <= maxStaticArgSize -> a_ptr a <> 0 -> a_size a <= Z.of_nat (length (a_bytes a)) ->
  exists k s, run newKernel ∅ [SetArgument idx a; SetArgument idx (nullArg (a_size a)); SetArgument idx a] ⇓ (k, s) /\
    s !! idx = Some (Pointer (a_size a) 0) /\ sendAll ∅ [SetArgument idx a; SetArgument idx (nullArg (a_size a)); SetArgument idx a] !! idx = Some (value_of a).
Proof.
  intros Hi Hsz Hp Hrd. destruct (null_keeps_value idx a Hsz Hp Hrd) as (e & e' & H1 & H2 & H3 & H4).
  destruct (run_step newKernel ∅ idx a [SetArgument idx (nullArg (a_size a)); SetArgument idx a] Hi) as (k1 & E1 & ->).
  cbn [argCache newKernel findCachedKernelArg mbind res_bind]. rewrite H1. cbn [mbind res_bind].
  destruct (run_step (set_cache k1 [e]) (<[idx := value_of a]> ∅) idx (nullArg (a_size a)) [SetArgument idx a] Hi) as (k2 & E2 & ->).
  cbn [argCache set_cache]. rewrite H2. cbn [mbind res_bind]. rewrite H3. cbn [mbind res_bind].
  destruct (run_step (set_cache k2 [e']) (<[idx := value_of (nullArg (a_size a))]> (<[idx := value_of a]> ∅)) idx a [] Hi) as (k3 & E3 & ->).
  cbn [argCache set_cache]. rewrite H4. cbn [mbind res_bind run sendAll foldl]. eexists _, _. split; [reflexivity|]. rewrite !lookup_insert_eq.
  unfold value_of at 1. cbn [nullArg a_size a_ptr]. by rewrite andb_false_r.
Qed.

End histories.

(** A null pointer with a large size spoils the size that tells how long the dynamic
    buffer is: the next value is written behind it. *)
Example value_after_large_null_overflows :
  (c ← cacheKernelArg [] 0 (mkArg 16 0x1000 (replicate 16 7)); c ← cacheKernelArg c 0 (nullArg 100);
   cacheKernelArg c 0 (mkArg 50 0x2000 (replicate 50 9))) = Undef.
Proof. by vm_compute. Qed.

(** The discipline of the histories is met by ordinary kernels: a buffer, a number and
    local memory. *)
Definition exampleKinds (idx : Z) : bool := idx =? 2.
Definition exampleBuffer (handle : Z) : Arg := mkArg 8 0x7000 [handle; 0; 0; 0; 0; 0; 0; 0].
Definition exampleHistory : list Step :=
  [SetArgument 0 (exampleBuffer 5); SetArgument 1 (mkArg 12 0x7100 (replicate 12 3)); SetArgument 2 (nullArg 1024);
   SetArgument 0 (exampleBuffer 5); InvalidateCaches; SetArgument 0 (exampleBuffer 6); SetArgument 2 (nullArg 512)].

Lemma cached_arguments_are_current_witness :
  exists k, run (fun _ => true) newKernel ∅ exampleHistory ⇓ (k, sendAll ∅ exampleHistory).
Proof.
  apply (cached_arguments_are_current (fun _ => true) exampleKinds).
  repeat (apply Forall_cons_2; [first [exact I|split; [by vm_compute|vm_compute; intuition congruence]]|]). constructor.
Defined.

Lemma refused_argument_is_cached_witness :
  exists k' ret s', zeKernelSetArgumentValue (fun (s : Z) _ _ => (1, s)) true (fun _ => false) newKernel 7 0 (exampleBuffer 5) ⇓ (ret, k', s') /\
    ret <> ZE_RESULT_SUCCESS /\
    forall s'', exists k'', zeKernelSetArgumentValue (fun (s : Z) _ _ => (1, s)) true (fun _ => false) k' s'' 0 (exampleBuffer 5) ⇓ (ZE_RESULT_SUCCESS, k'', s'').
Proof.
  apply (refused_argument_is_cached (fun _ => false) (fun (s : Z) _ _ => (1, s)) exampleKinds newKernel 7 ∅ 0 (exampleBuffer 5)).
  - apply empty_holds.
  - by vm_compute.
  - vm_compute. intuition congruence.
  - reflexivity.
  - by vm_compute.
Defined.

Lemma value_after_null_is_not_sent_witness :
  exists k s, run (fun _ => false) newKernel ∅ [SetArgument 0 (exampleBuffer 5); SetArgument 0 (nullArg 8); SetArgument 0 (exampleBuffer 5)] ⇓ (k, s) /\
    s !! 0 = Some (Pointer 8 0) /\
    sendAll ∅ [SetArgument 0 (exampleBuffer 5); SetArgument 0 (nullArg 8); SetArgument 0 (exampleBuffer 5)] !! 0 = Some (Bytes [5; 0; 0; 0; 0; 0; 0; 0]).
Proof. apply (value_after_null_is_not_sent (fun _ => false) 0 (exampleBuffer 5)); by vm_compute. Defined.

(** * Group sizes of a Level Zero kernel *)

Record GroupSize := mkGroup { gx : Z; gy : Z; gz : Z }.

#[export] Instance GroupSize_eq_dec : EqDecision GroupSize.
Proof. solve_decision. Defined.

(** [groupSize] and [suggestedGroupSizes] (entries of a global size and the size
    that was suggested for it). *)
Record GroupSizes := mkGroups { groupSize : GroupSize; suggestedGroupSizes : list (GroupSize * GroupSize) }.

Definition newGroups : GroupSizes := mkGroups (mkGroup 0 0 0) [].

Fixpoint obtainSuggestedGroupSizes (l : list (GroupSize * GroupSize)) (globalSize : GroupSize) : option GroupSize :=
  match l with
  | [] => None
  | (g, suggested) :: l => if bool_decide (g = globalSize) then Some suggested else obtainSuggestedGroupSizes l globalSize
  end.

Section groups.
Context {S : Type} (setGroupSize : S -> GroupSize -> Z * S) (suggest : S -> GroupSize -> Z * GroupSize).

Definition zeKernelSetGroupSize (g : GroupSizes) (s : S) (size : GroupSize) : Z * GroupSizes * S :=
  if bool_decide (size = groupSize g) then (ZE_RESULT_SUCCESS, g, s)
  else let (ret, s) := setGroupSize s size in (ret, mkGroups size (suggestedGroupSizes g), s).

Definition zeKernelSuggestGroupSize (g : GroupSizes) (s : S) (globalSize : GroupSize) : Z * GroupSize * GroupSizes :=
  match obtainSuggestedGroupSizes (suggestedGroupSizes g) globalSize with
  | Some suggested => (ZE_RESULT_SUCCESS, suggested, g)
  | None =>
      let (ret, suggested) := suggest s globalSize in
      (ret, suggested, mkGroups (groupSize g) (suggestedGroupSizes g ++ [(globalSize, suggested)]))
  end.

Lemma obtain_app l l' globalSize : obtainSuggestedGroupSizes (l ++ l') globalSize =
  match obtainSuggestedGroupSizes l globalSize with Some x => Some x | None => obtainSuggestedGroupSizes l' globalSize end.
Proof. induction l as [|[g x] l IH]; cbn; [done|]. by case_bool_decide. Qed.

(** A group size that the service refuses is reported as set when it is set again,
    and so is a suggestion that failed: both are remembered whatever the result. *)
Theorem refused_group_size_sticks g s size ret g' s' : zeKernelSetGroupSize g s size = (ret, g', s') ->
  forall s'', zeKernelSetGroupSize g' s'' size = (ZE_RESULT_SUCCESS, g', s'').
Proof.
  unfold zeKernelSetGroupSize. case_bool_decide as Hb.
  - intros [= <- <- <-] s''. by rewrite bool_decide_eq_true_2.
  - destruct (setGroupSize s size) as [r s1]. intros [= <- <- <-] s''. cbn. by rewrite bool_decide_eq_true_2.
Qed.

Theorem suggestion_is_remembered g s globalSize ret suggested g' : zeKernelSuggestGroupSize g s globalSize = (ret, suggested, g') ->
  forall s'', zeKernelSuggestGroupSize g' s'' globalSize = (ZE_RESULT_SUCCESS, suggested, g').
Proof.
  unfold zeKernelSuggestGroupSize. destruct (obtainSuggestedGroupSizes (suggestedGroupSizes g) globalSize) as [x|] eqn:E.
  - intros [= <- <- <-] s''. by rewrite E.
  - destruct (suggest s globalSize) as [r x]. intros [= <- <- <-] s''. cbn. rewrite obtain_app, E. cbn. by rewrite bool_decide_eq_true_2.
Qed.

End groups.

(** The service of a new kernel is never told about the group size 0, 0, 0. *)
Example empty_group_size_is_accepted {S} (setGroupSize : S -> GroupSize -> Z * S) s :
  fst (fst (zeKernelSetGroupSize setGroupSize newGroups s (mkGroup 0 0 0))) = ZE_RESULT_SUCCESS.
Proof. reflexivity. Qed.
