(* ===== verification/PropertiesCache.v ===== *)
(** The cache of object properties of the client
    (client/icd/level_zero/logic/properties_cache.h): the answer of the first
    query is kept for the object and copied for every later one. *)

From S2P Require Import Prelude.
From S2P Require Import ClientContext.
Local Open Scope Z_scope.

Section properties.
Context {P : Type}.

(** The vector that an object keeps for one type of properties, and the count
    for that type (1 for types with a single value). *)
Record Cached := mkCached { internalProperties : list P; propertiesCount : Z }.

(** A result code, and what the application's memory holds afterwards. *)
Abbreviation answer A := (Z * A * Cached)%type.

(** [memcpy] of [count] elements; both sides must have them. *)
Definition copyOut (count : Z) (source buffer : list P) : res (list P) :=
  if (Z.of_nat (length source) <? count) || (Z.of_nat (length buffer) <? count) then Undef
  else Ret (take (Z.to_nat count) source ++ drop (Z.to_nat count) buffer).

Definition copyIn (count : Z) (buffer : list P) : res (list P) :=
  if Z.of_nat (length buffer) <? count then Undef else Ret (take (Z.to_nat count) buffer).

(** [obtainProperties] for one pointer: [properties] is the memory behind it,
    [pNext] whether its type has extensions and one is requested. *)
Definition obtainProperties (c : Cached) (properties : option (list P)) (pNext : bool) (rpcHelper : list P -> Z * list P)
  : res (answer (option (list P))) :=
  match properties with
  | None => Ret (ZE_RESULT_ERROR_INVALID_NULL_POINTER, None, c)
  | Some buffer =>
      if pNext then let (ret, buffer) := rpcHelper buffer in Ret (ret, Some buffer, c) else
      match internalProperties c with
      | [] =>
          let (ret, buffer) := rpcHelper buffer in
          kept ← copyIn (propertiesCount c) buffer;
          Ret (ret, Some buffer, mkCached kept (propertiesCount c))
      | _ => buffer ← copyOut (propertiesCount c) (internalProperties c) buffer; Ret (ZE_RESULT_SUCCESS, Some buffer, c)
      end
  end.

(** The overload with a count: [rpcHelper] may change the count too. *)
Definition obtainPropertiesCounted (c : Cached) (pCount : Z) (properties : option (list P)) (pNext : bool)
  (rpcHelper : Z -> option (list P) -> Z * Z * option (list P)) : res (answer (Z * option (list P))) :=
  let hasNext := (if properties is Some _ then true else false) && pNext in
  if hasNext then let '(ret, pCount, properties) := rpcHelper pCount properties in Ret (ret, (pCount, properties), c) else
  if pCount =? 0 then
    if propertiesCount c =? 0 then
      let '(ret, pCount, properties) := rpcHelper pCount properties in
      Ret (ret, (pCount, properties), mkCached (internalProperties c) pCount)
    else Ret (ZE_RESULT_SUCCESS, (propertiesCount c, properties), c)
  else
    let asked buffer := let '(ret, count, buffer') := rpcHelper pCount (Some buffer) in (ret, count, default buffer buffer') in
    '(ret, properties', c') ← obtainProperties c properties false (fun buffer => let '(ret, _, buffer) := asked buffer in (ret, buffer));
    let count := match properties, internalProperties c with Some buffer, [] => snd (fst (asked buffer)) | _, _ => pCount end in
    Ret (ret, (count, properties'), c').

(** * Against a service with fixed values *)

(** What the specification of Level Zero says about a query: a count of zero asks
    for the number of values, another one for as many values as it says, and is
    lowered to the number of values. *)
Definition serve (vals : list P) (pCount : Z) (properties : option (list P)) : Z * Z * option (list P) :=
  if pCount =? 0 then (ZE_RESULT_SUCCESS, Z.of_nat (length vals), properties)
  else
    let n := Nat.min (Z.to_nat pCount) (length vals) in
    (ZE_RESULT_SUCCESS, Z.of_nat n, (fun buffer => take n vals ++ drop n buffer) <$> properties).

Definition current (vals : list P) (c : Cached) : Prop :=
  (propertiesCount c = 0 /\ internalProperties c = []) \/
  (propertiesCount c = Z.of_nat (length vals) /\ (internalProperties c = [] \/ internalProperties c = vals)).

(** Queries: for the number of values, or for all of them into memory of that size. *)
Inductive Query : Type := AskCount | AskAll (buffer : list P).

Definition asks (vals : list P) (q : Query) : Z * option (list P) :=
  match q with AskCount => (0, None) | AskAll buffer => (Z.of_nat (length vals), Some buffer) end.

Definition query_ok (vals : list P) (q : Query) : Prop :=
  match q with AskCount => True | AskAll buffer => length buffer = length vals /\ vals <> [] end.

Lemma serve_all vals buffer : vals <> [] -> length buffer = length vals ->
  serve vals (Z.of_nat (length vals)) (Some buffer) = (ZE_RESULT_SUCCESS, Z.of_nat (length vals), Some vals).
Proof.
  intros Hne Hl. unfold serve. destruct vals as [|v vals]; [done|]. rewrite (proj2 (Z.eqb_neq _ _)) by (cbn; lia).
  rewrite Nat2Z.id, Nat.min_id. cbn [fmap option_fmap option_map]. rewrite firstn_all, <- Hl, drop_all. by rewrite app_nil_r.
Qed.

Lemma query_current vals c q : current vals c -> query_ok vals q -> exists c',
  obtainPropertiesCounted c (fst (asks vals q)) (snd (asks vals q)) false (serve vals)
    ⇓ (fst (fst (serve vals (fst (asks vals q)) (snd (asks vals q)))),
       (snd (fst (serve vals (fst (asks vals q)) (snd (asks vals q)))), snd (serve vals (fst (asks vals q)) (snd (asks vals q)))), c') /\ current vals c'.
Proof.
  intros Hc Hq. destruct q as [|buffer]; cbn [asks fst snd].
  - unfold obtainPropertiesCounted. cbn. destruct (Z.eqb_spec (propertiesCount c) 0) as [H0|H0]; cbn.
    + eexists. split; [done|]. right. cbn. split; [done|]. left. destruct Hc as [[_ ?]|[Hn [?|Hv]]]; try done.
      rewrite Hv. destruct vals; [done|]. cbn in Hn. lia.
    + eexists. split; [|exact Hc]. destruct Hc as [[? _]|[-> _]]; done.
  - destruct Hq as [Hl Hne]. rewrite (serve_all vals buffer Hne Hl). cbn [fst snd]. unfold obtainPropertiesCounted. cbn [andb].
    assert (Hlen : (length vals <> 0)%nat) by (by destruct vals). rewrite (proj2 (Z.eqb_neq _ _)) by lia.
    unfold obtainProperties. destruct (internalProperties c) as [|p l] eqn:Ei.
    + rewrite (serve_all vals buffer Hne Hl). cbn [default fst snd]. unfold copyIn.
      destruct Hc as [[Hz _]|[Hn _]].
      * rewrite Hz, (proj2 (Z.ltb_ge _ _)) by lia. cbn. eexists. split; [done|]. left. done.
      * rewrite Hn, Z.ltb_irrefl. cbn [mbind res_bind]. rewrite Nat2Z.id, firstn_all. eexists. split; [done|]. right. cbn. split; [done|]. by right.
    + destruct Hc as [[_ ?]|[Hn [?|Hv]]]; [congruence|congruence|]. unfold copyOut. rewrite Hn, <- Ei, Hv, Hl, Z.ltb_irrefl. cbn [orb mbind res_bind].
      rewrite Nat2Z.id, firstn_all, <- Hl, drop_all, app_nil_r. eexists. split; [done|]. right. by rewrite Hv; auto.
Qed.

(** A history of queries: the answers and the cache. *)
Fixpoint queries (vals : list P) (c : Cached) (l : list Query) : res (list (Z * (Z * option (list P)))) :=
  match l with
  | [] => Ret []
  | q :: l =>
      '(ret, out, c) ← obtainPropertiesCounted c (fst (asks vals q)) (snd (asks vals q)) false (serve vals);
      outs ← queries vals c l; Ret ((ret, out) :: outs)
  end.

Definition direct (vals : list P) (q : Query) : Z * (Z * option (list P)) :=
  let '(ret, count, properties) := serve vals (fst (asks vals q)) (snd (asks vals q)) in (ret, (count, properties)).

Lemma queries_ok vals l : forall c, current vals c -> Forall (query_ok vals) l -> queries vals c l ⇓ map (direct vals) l.
Proof.
  induction l as [|q l IH]; intros c Hc Hl; cbn [queries map]; [done|]. apply Forall_cons in Hl as [Hq Hl].
  destruct (query_current vals c q Hc Hq) as (c' & -> & Hc'). cbn [mbind res_bind]. rewrite (IH c' Hc' Hl). cbn [mbind res_bind].
  unfold direct. by destruct (serve vals _ _) as [[? ?] ?].
Qed.

(** The cache of properties is transparent. In every order of queries for the number of
    values and for all values into memory of exactly that size, every answer is the one of
    the service, whatever was asked before. *)
Theorem cached_properties_are_current vals l :
  Forall (query_ok vals) l -> queries vals (mkCached [] 0) l ⇓ map (direct vals) l.
Proof. intros Hl. apply queries_ok; [|done]. left. done. Qed.

(** Asking for fewer values than there are. Once the number of values is known, a query
    for fewer of them, into memory that is as long as the query says, reads or writes
    behind that memory, whether the values are cached or not; the service itself would answer. *)
Theorem short_query_overflows vals c pCount buffer :
  current vals c -> propertiesCount c = Z.of_nat (length vals) -> 0 < pCount < Z.of_nat (length vals) -> length buffer = Z.to_nat pCount ->
  obtainPropertiesCounted c pCount (Some buffer) false (serve vals) = Undef /\
  serve vals pCount (Some buffer) = (ZE_RESULT_SUCCESS, pCount, Some (take (Z.to_nat pCount) vals)).
Proof.
  intros Hc Hn Hp Hl. assert (Hs : serve vals pCount (Some buffer) = (ZE_RESULT_SUCCESS, pCount, Some (take (Z.to_nat pCount) vals))).
  { unfold serve. rewrite (proj2 (Z.eqb_neq _ _)) by lia. rewrite Nat.min_l by lia. rewrite Z2Nat.id by lia. cbn [fmap option_fmap option_map].
    rewrite <- Hl, drop_all. by rewrite app_nil_r. }
  split; [|done]. unfold obtainPropertiesCounted. cbn [andb]. rewrite (proj2 (Z.eqb_neq _ _)) by lia.
  unfold obtainProperties. destruct (internalProperties c) as [|p l] eqn:Ei.
  - rewrite Hs. cbn [default]. unfold copyIn. unfold id. rewrite (proj2 (Z.ltb_lt _ _)); [done|]. rewrite length_take. lia.
  - unfold copyOut. rewrite (proj2 (Z.ltb_lt (Z.of_nat (length buffer)) _)) by lia. by rewrite orb_true_r.
Qed.

(** A failed query is taken for a successful one. Whatever the service leaves in the
    memory of a single value when it fails is kept and copied with the result of success. *)
Theorem failed_query_is_cached c value rpcHelper left_ : propertiesCount c = 1 -> internalProperties c = [] ->
  snd (rpcHelper [value]) = [left_] ->
  exists c', obtainProperties c (Some [value]) false rpcHelper ⇓ (fst (rpcHelper [value]), Some [left_], c') /\
    forall other rpcHelper', obtainProperties c' (Some [other]) false rpcHelper' ⇓ (ZE_RESULT_SUCCESS, Some [left_], c').
Proof.
  intros Hc Hi Hr. destruct (rpcHelper [value]) as [ret b] eqn:E. cbn in Hr. subst b. exists (mkCached [left_] 1).
  unfold obtainProperties. rewrite Hi, Hc, E. by split.
Qed.

End properties.

(** A device with three queue groups. *)
Lemma cached_properties_are_current_witness :
  queries [10; 20; 30] (mkCached [] 0) [AskCount; AskAll [0; 0; 0]; AskCount; AskAll [1; 2; 3]]
  ⇓ [(0, (3, None)); (0, (3, Some [10; 20; 30])); (0, (3, None)); (0, (3, Some [10; 20; 30]))].
Proof. apply (cached_properties_are_current [10; 20; 30] [AskCount; AskAll [0; 0; 0]; AskCount; AskAll [1; 2; 3]]). by repeat constructor. Defined.

Lemma short_query_overflows_witness :
  obtainPropertiesCounted (mkCached [10; 20; 30] 3) 2 (Some [0; 0]) false (serve [10; 20; 30]) = Undef /\
  serve [10; 20; 30] 2 (Some [0; 0]) = (0, 2, Some [10; 20]).
Proof.
  apply (short_query_overflows [10; 20; 30] (mkCached [10; 20; 30] 3) 2 [0; 0]); [right; split; [done|by right]|done|by cbn|done].
Defined.

Lemma failed_query_is_cached_witness :
  exists c', obtainProperties (mkCached [] 1) (Some [5]) false (fun b => (1, b)) ⇓ (1, Some [5], c') /\
    forall other rpcHelper', obtainProperties c' (Some [other]) false rpcHelper' ⇓ (ZE_RESULT_SUCCESS, Some [5], c').
Proof. by apply (failed_query_is_cached (mkCached [] 1) 5 (fun b => (1, b)) 5). Defined.

(** More memory than values: the cached answer leaves the count as it was. *)
Example cached_answer_keeps_large_count :
  obtainPropertiesCounted (mkCached [10; 20; 30] 3) 4 (Some [0; 0; 0; 0]) false (serve [10; 20; 30])
    ⇓ (0, (4, Some [10; 20; 30; 0]), mkCached [10; 20; 30] 3) /\
  serve [10; 20; 30] 4 (Some [0; 0; 0; 0]) = (0, 3, Some [10; 20; 30; 0]).
Proof. by split. Qed.
