(* ===== verification/Barriers.v ===== *)
(** Synchronization of threads: the counting semaphore of shared/utils.h with its mutex
    and condition variable, and the barrier of shared/barrier.h as a step relation whose
    steps are the accesses of the threads to the shared state. *)

From stdpp Require Import relations gmap sets.
From S2P Require Import Prelude.
Local Open Scope Z_scope.

(** * Sums over the threads *)

Section total.
Context {P : Type} (f : P -> Z).

Fixpoint total (l : list P) : Z := match l with [] => 0 | p :: l => f p + total l end.

Lemma total_insert l i p p' : l !! i = Some p -> total (<[i := p']> l) = total l - f p + f p'.
Proof.
  revert i. induction l as [|q l IH]; intros [|i] H; try done.
  - injection H as ->. cbn. lia.
  - change (<[S i := p']> (q :: l)) with (q :: <[i := p']> l). cbn [total]. rewrite (IH i H). lia.
Qed.

Lemma total_replicate p k : total (replicate k p) = Z.of_nat k * f p.
Proof. induction k as [|k IH]; cbn [replicate total]; lia. Qed.

Lemma total_nonneg l : (forall p, 0 <= f p) -> 0 <= total l.
Proof. intros Hf. induction l as [|p l IH]; cbn; [lia|]. specialize (Hf p). lia. Qed.

Lemma total_lookup l i p : (forall p, 0 <= f p) -> l !! i = Some p -> f p <= total l.
Proof.
  intros Hf H. pose proof (total_insert l i p p H) as E. rewrite list_insert_id in E by done.
  rewrite <- (take_drop_middle l i p H). clear E. induction (take i l) as [|q k IH]; cbn.
  - pose proof (total_nonneg (drop (S i) l) Hf). lia.
  - specialize (Hf q). lia.
Qed.

Lemma total_bound l m : Forall (fun p => f p <= m) l -> total l <= Z.of_nat (length l) * m.
Proof. induction 1 as [|p l Hp Hl IH]; cbn [total length]; lia. Qed.

Lemma total_zero l : Forall (fun p => f p = 0) l -> total l = 0.
Proof. induction 1 as [|p l Hp Hl IH]; cbn; [done|]. lia. Qed.

Lemma total_zero_inv l : Forall (fun p => 0 <= f p) l -> total l <= 0 -> Forall (fun p => f p = 0) l.
Proof.
  intros Hl H. assert (0 <= total l -> Forall (fun p => f p = 0) l /\ 0 <= total l) as Hx; cycle 1.
  - apply Hx. clear H Hx. induction Hl as [|p l Hp Hl IH]; cbn [total]; lia.
  - intros _. revert H. induction Hl as [|p l Hp Hl IH]; cbn [total]; intros H; [by split|].
    assert (0 <= total l) by (clear -Hl; induction Hl; cbn [total]; lia).
    destruct IH as [IH _]; [lia|]. split; [constructor; [lia|done]|lia].
Qed.
End total.

Lemma entered_total_le {P} (f g : P -> Z) c l : Forall (fun p => f p <= c * g p) l -> total f l <= c * total g l.
Proof. induction 1 as [|p l Hp Hl IH]; cbn [total]; lia. Qed.

(** * The counting semaphore

    Every part of [signal], [wait] and [waitFor] between two waits runs under the mutex,
    so that one step is one such part.  A thread inside of the wait on the condition
    variable is [asleep] until it is notified; then it still has to take the mutex. *)

Module Semaphore.

Record CountingSemaphore := mkSemaphore { counter : Z; asleep : gset nat; notified : gset nat }.

Definition empty : CountingSemaphore := mkSemaphore 0 ∅ ∅.

Inductive notify_one : CountingSemaphore -> CountingSemaphore -> Prop :=
| notify_nobody s : asleep s = ∅ -> notify_one s s
| notify_someone s t : t ∈ asleep s ->
    notify_one s (mkSemaphore (counter s) (asleep s ∖ {[t]}) ({[t]} ∪ notified s)).

Inductive signal : nat -> CountingSemaphore -> CountingSemaphore -> Prop :=
| signal_done s : signal 0 s s
| signal_more n s s' s'' :
    notify_one (mkSemaphore (u32 (counter s + 1)) (asleep s) (notified s)) s' -> signal n s' s'' -> signal (S n) s s''.

(** The thread takes the mutex, wherever it was, and looks at the counter. *)
Definition leave (t : nat) (s : CountingSemaphore) : CountingSemaphore :=
  mkSemaphore (counter s) (asleep s ∖ {[t]}) (notified s ∖ {[t]}).

Definition look (t : nat) (s : CountingSemaphore) : CountingSemaphore :=
  if counter s =? 0 then mkSemaphore (counter s) ({[t]} ∪ asleep s) (notified s ∖ {[t]})
  else mkSemaphore (u32 (counter s - 1)) (asleep s ∖ {[t]}) (notified s ∖ {[t]}).

Section steps.
(** Whether threads use [waitFor]. *)
Context (timed : bool).

Inductive sem_step : CountingSemaphore -> CountingSemaphore -> Prop :=
| step_signal n s s' : signal n s s' -> sem_step s s'
| step_wait t s : t ∉ asleep s ∪ notified s -> sem_step s (look t s)
| step_woken t s : t ∈ notified s -> sem_step s (look t s)
| step_spurious t s : t ∈ asleep s -> sem_step s (look t s)
| step_timeout t s : timed = true -> t ∈ asleep s ∪ notified s -> sem_step s (leave t s).
End steps.

(** What the sleepers rely on: nobody sleeps while units are left that no notified thread
    is about to take. *)
Definition awake (s : CountingSemaphore) : Prop :=
  0 <= counter s /\ asleep s ## notified s /\ (asleep s = ∅ \/ counter s <= Z.of_nat (size (notified s))).

Lemma notify_one_awake s s' : 0 <= counter s -> asleep s ## notified s ->
  (asleep s = ∅ \/ counter s <= Z.of_nat (size (notified s)) + 1) -> notify_one s s' -> awake s'.
Proof.
  intros H0 Hd H Hn. unfold awake. inversion Hn as [s0 He|s0 t Ht]; subst; cbn.
  - split; [done|]. by split; [|left].
  - split; [done|split; [set_solver|]]. right. destruct H as [H|H]; [set_solver|].
    rewrite size_union by set_solver. rewrite size_singleton. lia.
Qed.

Lemma signal_awake n s s' : signal n s s' -> awake s -> awake s'.
Proof.
  induction 1 as [|n s s1 s' Hn Hs IH]; [done|]. intros (H0 & Hd & H). apply IH.
  pose proof (u32_range (counter s + 1)) as Hr. apply (notify_one_awake _ _) in Hn; cbn in *; [done|apply Hr|done|].
  destruct H as [H|H]; [by left|]. right. etransitivity; [apply Z.mod_le; lia|]. lia.
Qed.

Lemma size_remove (t : nat) (X : gset nat) : Z.of_nat (size X) - 1 <= Z.of_nat (size (X ∖ {[t]})).
Proof.
  destruct (decide (t ∈ X)) as [Ht|Ht].
  - rewrite size_difference by set_solver. rewrite size_singleton. lia.
  - replace (X ∖ {[t]}) with X by set_solver. lia.
Qed.

Lemma look_awake t s : counter s < W32 -> awake s -> awake (look t s).
Proof.
  intros Hlt (H0 & Hd & H). unfold look. case_eq (counter s =? 0); intros E; bool_prop; unfold awake; cbn.
  - split; [done|split; [set_solver|]]. right. rewrite E. lia.
  - rewrite u32_id by (unfold is_u32; lia). split; [lia|split; [set_solver|]]. destruct H as [H|H]; [left; set_solver|].
    right. pose proof (size_remove t (notified s)). lia.
Qed.

Definition well (s : CountingSemaphore) : Prop := awake s /\ counter s < W32.

Lemma signal_small n s s' : signal n s s' -> counter s < W32 -> counter s' < W32.
Proof.
  induction 1 as [|n s s1 s' Hn Hs IH]; [done|]. intros _. apply IH. inversion Hn; subst; cbn; apply u32_range.
Qed.

Lemma sem_step_well s s' : sem_step false s s' -> well s -> well s'.
Proof.
  intros Hs [Ha Hl]. assert (Hsmall : forall t, counter (look t s) < W32).
  { intros t. unfold look. destruct (counter s =? 0); cbn; [done|]. apply u32_range. }
  destruct Hs as [n s s' Hn|t s Ht|t s Ht|t s Ht|]; [|by split; [apply look_awake|]..|done].
  split; [by eapply signal_awake|by eapply signal_small].
Qed.

(** C25: no wake-up is lost.  Whatever threads signal and wait, in whatever order, spurious
    wake-ups included: as long as a thread sleeps, at least as many threads have been
    notified and not yet looked again as there are units in the semaphore.  So a unit is
    never left over while everybody sleeps. *)
Theorem semaphore_no_lost_wakeup s : rtc (sem_step false) empty s ->
  asleep s <> ∅ -> 0 <= counter s <= Z.of_nat (size (notified s)).
Proof.
  intros Hr Hs. assert (Hw : well s).
  { revert Hr. apply rtc_ind_r.
    - split; [|cbn; lia]. split; [done|]. by split; [set_solver|left].
    - intros y z _ Hstep Hy. by eapply sem_step_well. }
  destruct Hw as [(H0 & _ & [He|Hc]) _]; [done|]. lia.
Qed.

(** With [waitFor] it is: the condition variable may report a timeout to a thread that has
    been notified, which then returns without a look at the counter. *)
Definition lost : CountingSemaphore := mkSemaphore 1 {[1%nat]} ∅.

Theorem timed_waiter_loses_wakeup : rtc (sem_step true) empty lost.
Proof.
  eapply rtc_l; [apply (step_wait _ 0%nat); set_solver|].
  eapply rtc_l; [apply (step_wait _ 1%nat); set_solver|].
  eapply rtc_l.
  { apply (step_signal _ 1%nat). econstructor; [|constructor].
    apply (notify_someone _ 0%nat). vm_compute. done. }
  eapply rtc_l; [apply (step_timeout _ 0%nat); [done|vm_compute; done]|].
  match goal with |- rtc _ ?s _ => replace s with lost by (by vm_compute) end. apply rtc_refl.
Qed.

Lemma semaphore_no_lost_wakeup_witness :
  0 <= counter (mkSemaphore 1 {[1%nat]} {[0%nat]}) <= Z.of_nat (size (notified (mkSemaphore 1 {[1%nat]} {[0%nat]}))).
Proof.
  apply semaphore_no_lost_wakeup; [|vm_compute; discriminate].
  eapply rtc_l; [apply (step_wait _ 0%nat); set_solver|].
  eapply rtc_l; [apply (step_wait _ 1%nat); set_solver|].
  eapply rtc_l.
  { apply (step_signal _ 1%nat). econstructor; [|constructor].
    apply (notify_someone _ 0%nat). vm_compute. done. }
  match goal with |- rtc _ ?s ?s' => replace s with s' by (by vm_compute) end. apply rtc_refl.
Defined.

End Semaphore.

(** * The barrier

    The threads of the users numbered from 0 call [hitBarrier] once each.  A thread is at
    one of the following points, each before an access to what the threads share; the
    semaphores are counters here, whose waiters are the subject of [Semaphore]. *)

Inductive pc :=
| Calling | CheckAlive | CheckBroken | Enter
(** The first user, with what it has counted. *)
| LeadLoop (waitedCount : Z) | LeadAlive (waitedCount : Z) (rest : list nat) | LeadWait (waitedCount : Z)
| LeadRecheck (waitedCount : Z) | LeadBroken (waitedCount : Z) | LeadSignal (waitedCount : Z)
(** The others; [slept] tells that the semaphore was empty at the first look. *)
| SignalEntry | WaitExit (slept : bool) | ExitBroken
(** Inside of [breakBarrier]. *)
| Breaking | Notifying (rest : list nat) | BreakSignal | BreakSet
| Returned (ret : bool).

#[export] Instance pc_eq_dec : EqDecision pc.
Proof. solve_decision. Defined.

Record Barrier := mkBarrier { entry : Z; exit : Z; usersInBarrier : Z; barrierIsBroken : bool }.

Definition fresh : Barrier := mkBarrier 0 0 0 false.

Definition set_entry (b : Barrier) (c : Z) : Barrier := mkBarrier c (exit b) (usersInBarrier b) (barrierIsBroken b).
Definition set_exit (b : Barrier) (c : Z) : Barrier := mkBarrier (entry b) c (usersInBarrier b) (barrierIsBroken b).

(** The counters as [Semaphore] changes them; a unit can be taken when there is one. *)
Definition signal_counter (c : Z) (count : Z) : Z := u32 (c + count).
Definition take_counter (c : Z) : option Z := if c =? 0 then None else Some (u32 (c - 1)).

(** The whole: the barrier, which users are alive, whom [NotifyBrokenBarrierCallbackF] was
    called for, and the threads. *)
Record Sys := mkSys { barrier : Barrier; alive : list bool; told : list nat; pcs : list pc }.

Section barrier.
Context (n : nat) (waitIndefinitely : bool).

Definition expectedBarrierUsers : list nat := seq 0 n.
Definition expectedCount : Z := Z.of_nat n.

Definition isAlive (al : list bool) (u : nat) : bool := default false (al !! u).

Definition recyclable (b : Barrier) : bool := usersInBarrier b =? expectedCount.

(** One access of the thread of [user]; with [timeout], the one that finds its time over.
    [None]: the thread waits. *)
Definition hitBarrier (user : nat) (timeout : bool) (al : list bool) (b : Barrier) (t : list nat) (p : pc)
  : option (Barrier * list nat * pc) :=
  match p with
  | Calling => Some (b, t, if expectedCount <? 2 then Returned true else CheckAlive)
  | CheckAlive => Some (b, t, if isAlive al user then CheckBroken else Breaking)
  | CheckBroken => Some (b, t, if barrierIsBroken b then Returned false else Enter)
  | Enter =>
      Some (mkBarrier (entry b) (exit b) (u32 (usersInBarrier b + 1)) (barrierIsBroken b), t,
            if usersInBarrier b =? 0 then LeadLoop 1 else SignalEntry)
  | LeadLoop waitedCount =>
      if waitedCount <? expectedCount then
        Some (b, t, if barrierIsBroken b then Returned false else LeadAlive waitedCount expectedBarrierUsers)
      else Some (b, t, LeadBroken waitedCount)
  | LeadAlive waitedCount [] => Some (b, t, LeadWait waitedCount)
  | LeadAlive waitedCount (u :: rest) => Some (b, t, if isAlive al u then LeadAlive waitedCount rest else Breaking)
  | LeadWait waitedCount =>
      if waitIndefinitely then
        c ← take_counter (entry b);
        Some (set_entry b c, t, LeadRecheck waitedCount)
      else if timeout then Some (b, t, Breaking)
      else
        c ← take_counter (entry b);
        Some (set_entry b c, t, LeadLoop (u32 (waitedCount + 1)))
  | LeadRecheck waitedCount =>
      Some (b, t, if barrierIsBroken b then LeadLoop waitedCount else LeadLoop (u32 (waitedCount + 1)))
  | LeadBroken waitedCount => Some (b, t, if barrierIsBroken b then Returned false else LeadSignal waitedCount)
  | LeadSignal waitedCount => Some (set_exit b (signal_counter (exit b) waitedCount), t, Returned true)
  | SignalEntry => Some (set_entry b (signal_counter (entry b) 1), t, WaitExit false)
  | WaitExit slept =>
      if negb waitIndefinitely && timeout && slept then Some (b, t, Breaking)
      else match take_counter (exit b) with
           | Some c => Some (set_exit b c, t, ExitBroken)
           | None => if slept then None else Some (b, t, WaitExit true)
           end
  | ExitBroken => Some (b, t, Returned (negb (barrierIsBroken b)))
  | Breaking => Some (b, t, if barrierIsBroken b then Returned false else Notifying expectedBarrierUsers)
  | Notifying [] => Some (b, t, BreakSignal)
  | Notifying (u :: rest) => Some (b, t ++ [u], Notifying rest)
  | BreakSignal => Some (set_exit b (signal_counter (exit b) (u32 expectedCount)), t, BreakSet)
  | BreakSet => Some (mkBarrier (entry b) (exit b) (usersInBarrier b) true, t, Returned false)
  | Returned _ => None
  end.

Definition advance (u : nat) (timeout : bool) (s : Sys) : option Sys :=
  p ← pcs s !! u;
  '(b, t, p) ← hitBarrier u timeout (alive s) (barrier s) (told s) p;
  Some (mkSys b (alive s) t (<[u := p]> (pcs s))).

(** A thread runs, or a user dies. *)
Inductive bstep : Sys -> Sys -> Prop :=
| bstep_run u timeout s s' : advance u timeout s = Some s' -> bstep s s'
| bstep_die u s : bstep s (mkSys (barrier s) (<[u := false]> (alive s)) (told s) (pcs s)).

(** [reset], with the users about to call. *)
Definition started : Sys := mkSys fresh (replicate n true) [] (replicate n Calling).

(** [reset] while threads are inside. *)
Definition reset (s : Sys) : Sys := mkSys fresh (alive s) (told s) (pcs s).

(** A schedule: who runs, and whether the time is over. *)
Fixpoint schedule (l : list (nat * bool)) (s : Sys) : option Sys :=
  match l with
  | [] => Some s
  | (u, timeout) :: l => s ← advance u timeout s; schedule l s
  end.
End barrier.

Lemma schedule_rtc n w l s s' : schedule n w l s = Some s' -> rtc (bstep n w) s s'.
Proof.
  revert s. induction l as [|[u timeout] l IH]; intros s H; cbn [schedule] in H.
  - injection H as ->. apply rtc_refl.
  - destruct (advance n w u timeout s) as [s1|] eqn:E; [|done].
    eapply rtc_l; [by eapply bstep_run|]. by apply IH.
Qed.

(** * What a barrier promises *)

Lemma take_counter_Some x c : 0 <= x < W32 -> take_counter x = Some c -> c = x - 1 /\ 0 <= c.
Proof.
  intros Hx H. unfold take_counter in H. case_eq (x =? 0); intros E; rewrite E in H; [done|]. bool_prop.
  injection H as <-. rewrite u32_id by (unfold is_u32; lia). lia.
Qed.

(** Case analysis on the access of a thread. *)
Ltac hit_cases H :=
  cbn [hitBarrier] in H;
  repeat lazymatch type of H with
  | context [take_counter ?x] =>
      let Hc := fresh "Hc" in destruct (take_counter x) eqn:Hc; cbn [mbind option_bind] in H
  | context [if ?x then _ else _] => let Hb := fresh "Hb" in destruct x eqn:Hb
  end;
  try discriminate H; injection H as <- <- <-.

Section safety.
Context (n : nat) (waitIndefinitely : bool).
Context (Hn : 2 <= Z.of_nat n < W32).

Notation hit := (hitBarrier n waitIndefinitely).
Notation count := (expectedCount n).

(** Units that a thread holds or still has to give: the lead's count, a user that has
    entered and not signalled. *)
Definition holds (p : pc) : Z :=
  match p with
  | LeadLoop w | LeadAlive w _ | LeadWait w | LeadBroken w | LeadSignal w => w
  | LeadRecheck w => w + 1
  | SignalEntry => 1
  | _ => 0
  end.

(** Threads that have not entered yet. *)
Definition outside (p : pc) : Z :=
  match p with Calling | CheckAlive | CheckBroken | Enter => 1 | _ => 0 end.

(** Threads on the way out of a barrier that has opened or broke. *)
Definition opened (p : pc) : bool := match p with ExitBroken | Returned true => true | _ => false end.

Definition counted (p : pc) : Prop :=
  match p with
  | LeadLoop w | LeadRecheck w => 1 <= w
  | LeadAlive w _ | LeadWait w => 1 <= w < count
  | LeadBroken w | LeadSignal w => 1 <= w /\ count <= w
  | _ => True
  end.

Lemma holds_nonneg p : counted p -> 0 <= holds p.
Proof. destruct p; cbn; lia. Qed.

Definition breaking (s : Sys) : Prop := barrierIsBroken (barrier s) = true \/ BreakSet ∈ pcs s.

(** What one access changes, for the thread that makes it. *)
Lemma hit_units u timeout al b t p b' t' p' :
  hit u timeout al b t p = Some (b', t', p') -> counted p -> 0 <= entry b -> 0 <= usersInBarrier b ->
  holds p + entry b <= usersInBarrier b -> usersInBarrier b + outside p <= count ->
  0 <= entry b' /\ counted p' /\
  holds p' + entry b' - usersInBarrier b' <= holds p + entry b - usersInBarrier b /\
  usersInBarrier b' + outside p' <= usersInBarrier b + outside p /\ usersInBarrier b <= usersInBarrier b'.
Proof.
  intros H Hp He Hu Hs Ho. assert (0 <= holds p) by by apply holds_nonneg.
  assert (Hadd : forall x y, 0 <= x -> 0 <= y -> x + y <= Z.of_nat n -> u32 (x + y) = x + y).
  { intros. apply u32_id. unfold is_u32. lia. }
  assert (Htake : forall c, take_counter (entry b) = Some c -> c = entry b - 1 /\ 0 <= c).
  { intros c. apply take_counter_Some. unfold expectedCount, outside in *. destruct p; lia. }
  destruct p as [| | | |w|w [|v l]|w|w|w|w| |slept| | |[|v l]| | |r]; hit_cases H;
    cbn [holds outside counted entry exit usersInBarrier set_entry set_exit] in *;
    unfold expectedCount, signal_counter in *; bool_prop;
    try destruct (Htake _ eq_refl);
    rewrite ?Hadd by lia; repeat split; lia.
Qed.

Lemma hit_opens u timeout al b t p b' t' p' :
  hit u timeout al b t p = Some (b', t', p') -> exit b' <> 0 \/ opened p' = true ->
  exit b <> 0 \/ opened p = true \/ (exists w, p = LeadSignal w) \/ p' = BreakSet.
Proof.
  intros H Ho. destruct p as [| | | |w|w [|v l]|w|w|w|w| |slept| | |[|v l]| | |r]; hit_cases H;
    unfold expectedCount in *; bool_prop; cbn [opened exit set_entry set_exit] in *; auto; try lia;
    try (right; right; left; by eauto); try (by destruct Ho as [|]; [left|]).
  - left. intros E. unfold take_counter in Hc. by rewrite E in Hc.
Qed.

(** A thread that sets the flag has it set. *)
Lemma hit_breaking u timeout al b t p b' t' p' :
  hit u timeout al b t p = Some (b', t', p') ->
  barrierIsBroken b = true \/ p = BreakSet -> barrierIsBroken b' = true.
Proof.
  intros H Ho. destruct p as [| | | |w|w [|v l]|w|w|w|w| |slept| | |[|v l]| | |r]; hit_cases H; cbn in *;
    by destruct Ho as [|].
Qed.

Lemma advance_inv u timeout s s' : advance n waitIndefinitely u timeout s = Some s' ->
  exists p b' t' p', pcs s !! u = Some p /\ hit u timeout (alive s) (barrier s) (told s) p = Some (b', t', p') /\
    s' = mkSys b' (alive s) t' (<[u := p']> (pcs s)).
Proof.
  unfold advance. intros H. destruct (pcs s !! u) as [p|] eqn:Hu; [|done]. cbn [mbind option_bind] in H.
  destruct (hit u timeout _ _ _ p) as [[[b' t'] p']|] eqn:Hh; [|done]. injection H as <-. by exists p, b', t', p'.
Qed.

Record safe (s : Sys) : Prop := mkSafe {
  safe_length : length (pcs s) = n;
  safe_counted : Forall counted (pcs s);
  safe_entry : 0 <= entry (barrier s) /\ 0 <= usersInBarrier (barrier s);
  safe_units : total holds (pcs s) + entry (barrier s) <= usersInBarrier (barrier s);
  safe_users : usersInBarrier (barrier s) + total outside (pcs s) <= count;
  safe_exit : exit (barrier s) <> 0 \/ Exists (fun p => opened p = true) (pcs s) ->
              usersInBarrier (barrier s) = count \/ breaking s;
}.

Lemma outside_nonneg p : 0 <= outside p.
Proof. by destruct p. Qed.

Lemma total_holds l i p : Forall counted l -> l !! i = Some p -> 0 <= holds p <= total holds l.
Proof.
  intros Hl Hi. split; [apply holds_nonneg; by eapply Forall_lookup_1|].
  revert i Hi. induction Hl as [|q l Hq Hl IH]; intros i Hi; [done|]. cbn [total].
  assert (0 <= total holds l).
  { clear -Hl. induction Hl as [|q l Hq Hl IH]; cbn [total]; [lia|]. pose proof (holds_nonneg _ Hq). lia. }
  pose proof (holds_nonneg _ Hq). destruct i as [|i]; [injection Hi as ->; lia|]. specialize (IH i Hi). lia.
Qed.

Lemma breaking_advance u timeout s s' :
  advance n waitIndefinitely u timeout s = Some s' -> breaking s -> breaking s'.
Proof.
  intros (p & b' & t' & p' & Hu & H & ->)%advance_inv [Hb|[i Hi]%list_elem_of_lookup_1]; unfold breaking; cbn.
  - left. eapply hit_breaking; eauto.
  - destruct (decide (i = u)) as [->|Hne].
    + left. simplify_eq. eapply hit_breaking; eauto.
    + right. apply list_elem_of_lookup_2 with i. by rewrite list_lookup_insert_ne.
Qed.

Lemma safe_exit_advance u timeout s s' :
  advance n waitIndefinitely u timeout s = Some s' -> safe s ->
  usersInBarrier (barrier s) <= usersInBarrier (barrier s') <= count ->
  exit (barrier s') <> 0 \/ Exists (fun p => opened p = true) (pcs s') ->
  usersInBarrier (barrier s') = count \/ breaking s'.
Proof.
  intros Ha Hs Hle Ho. pose proof (breaking_advance _ _ _ _ Ha) as Hbr.
  destruct (advance_inv _ _ _ _ Ha) as (p & b' & t' & p' & Hu & H & ->). cbn in *.
  assert (Hold : exit (barrier s) <> 0 \/ Exists (fun p => opened p = true) (pcs s) ->
    usersInBarrier b' = count \/ breaking (mkSys b' (alive s) t' (<[u:=p']> (pcs s)))).
  { intros [E|E]%(safe_exit _ Hs); [left; lia|by right; apply Hbr]. }
  assert (Ho' : exit b' <> 0 \/ opened p' = true \/ Exists (fun p => opened p = true) (pcs s)).
  { destruct Ho as [Ho|Ho]; [by left|right]. apply Exists_exists in Ho as (q & [i Hi]%list_elem_of_lookup_1 & Hq).
    destruct (decide (i = u)) as [->|Hne].
    - rewrite list_lookup_insert_eq in Hi by by eapply lookup_lt_Some. left. congruence.
    - rewrite list_lookup_insert_ne in Hi by done. right. apply Exists_exists. exists q. split; [by eapply list_elem_of_lookup_2|done]. }
  assert (Hp : opened p = true -> Exists (fun p => opened p = true) (pcs s)).
  { intros. apply Exists_exists. exists p. split; [by eapply list_elem_of_lookup_2|done]. }
  assert (Hlocal : exit b' <> 0 \/ opened p' = true -> usersInBarrier b' = count \/ breaking (mkSys b' (alive s) t' (<[u:=p']> (pcs s)))).
  { intros Hx. apply (hit_opens _ _ _ _ _ _ _ _ _ H) in Hx as [E|[E|[[w ->]| ->]]]; auto.
    - pose proof (Forall_lookup_1 _ _ _ _ (safe_counted _ Hs) Hu) as [_ Hw].
      pose proof (total_holds _ _ _ (safe_counted _ Hs) Hu) as [_ Ht]. cbn in Ht.
      pose proof (safe_units _ Hs). pose proof (safe_entry _ Hs). left. lia.
    - right. right. cbn. apply list_elem_of_lookup_2 with u. rewrite list_lookup_insert_eq by by eapply lookup_lt_Some. done. }
  destruct Ho' as [E|[E|E]]; auto.
Qed.

Lemma safe_bstep s s' : bstep n waitIndefinitely s s' -> safe s -> safe s'.
Proof.
  intros [u timeout s0 s1 Ha|u s0] Hs; [|by destruct Hs; split].
  pose proof (safe_exit_advance _ _ _ _ Ha Hs) as Hexit.
  destruct (advance_inv _ _ _ _ Ha) as (p & b' & t' & p' & Hu & H & ->). destruct Hs as [Hl Hc [He Hz] Hun Hus _].
  pose proof (total_holds _ _ _ Hc Hu) as Hh. pose proof (total_lookup _ _ _ _ outside_nonneg Hu) as Ho. cbn in *.
  apply hit_units in H as (He' & Hc' & H1 & H2 & H3); [|by eapply Forall_lookup_1|lia..].
  assert (Hus' : usersInBarrier b' + total outside (<[u:=p']> (pcs s0)) <= count).
  { rewrite (total_insert _ _ _ p) by done. lia. }
  assert (0 <= total outside (<[u:=p']> (pcs s0))) by by apply total_nonneg, outside_nonneg.
  split; cbn; auto.
  - by rewrite length_insert.
  - by apply Forall_insert.
  - lia.
  - rewrite (total_insert _ _ _ p) by done. lia.
  - apply Hexit. lia.
Qed.

Lemma safe_started : safe (started n).
Proof.
  split; cbn.
  - by rewrite length_replicate.
  - by apply Forall_replicate.
  - lia.
  - rewrite total_replicate. cbn. lia.
  - rewrite total_replicate. unfold expectedCount. cbn. lia.
  - intros [H|H]; [done|]. apply Exists_exists in H as (p & ->%elem_of_replicate_inv & Hp). done.
Qed.

Lemma reachable_safe s : rtc (bstep n waitIndefinitely) (started n) s -> safe s.
Proof.
  apply rtc_ind_r; [apply safe_started|]. intros y z _ Hstep Hy. by eapply safe_bstep.
Qed.

(** C23: what [true] means.  In every interleaving, with deaths and timeouts: when a call of
    [hitBarrier] has returned [true], then every expected user has entered the barrier, or
    the barrier is broken, or a thread has told the waiting ones to leave and is about to
    mark it as broken. *)
Theorem barrier_true_means_all_entered s u :
  rtc (bstep n waitIndefinitely) (started n) s -> pcs s !! u = Some (Returned true) ->
  usersInBarrier (barrier s) = count \/ barrierIsBroken (barrier s) = true \/ BreakSet ∈ pcs s.
Proof.
  intros Hr Hu. apply (safe_exit _ (reachable_safe _ Hr)). right. apply Exists_exists.
  exists (Returned true). split; [by eapply list_elem_of_lookup_2|done].
Qed.

(** ** Every call comes to an end or waits *)

Definition unit_rank : Z := count + 4.

Definition rank (p : pc) : Z :=
  match p with
  | Calling => 2 * count + 15
  | CheckAlive => 2 * count + 14
  | CheckBroken => 2 * count + 13
  | Enter => 2 * count + 12
  | SignalEntry => 2 * count + 11
  | LeadRecheck _ => 2 * count + 8
  | LeadLoop _ => 2 * count + 7
  | LeadAlive _ rest => count + 6 + Z.of_nat (length rest)
  | LeadWait _ => count + 5
  | WaitExit slept => if slept then count + 5 else count + 6
  | Breaking => count + 4
  | Notifying rest => 3 + Z.of_nat (length rest)
  | BreakSignal | LeadBroken _ => 2
  | BreakSet | LeadSignal _ | ExitBroken => 1
  | Returned _ => 0
  end.

Lemma hit_rank u timeout al b t p b' t' p' :
  hit u timeout al b t p = Some (b', t', p') -> 0 <= entry b -> 0 <= holds p -> holds p + entry b <= count ->
  0 <= entry b' /\ rank p' + unit_rank * entry b' < rank p + unit_rank * entry b.
Proof.
  intros H He Hp Hle. assert (Hlen : Z.of_nat (length (expectedBarrierUsers n)) = count) by by (unfold expectedBarrierUsers; rewrite length_seq).
  assert (Htake : forall c, take_counter (entry b) = Some c -> c = entry b - 1 /\ 0 <= c).
  { intros c. apply take_counter_Some. unfold expectedCount in *. lia. }
  destruct p as [| | | |w|w [|v l]|w|w|w|w| |slept| | |[|v l]| | |r]; hit_cases H;
    cbn [holds rank entry set_entry set_exit length] in *; rewrite ?Hlen; unfold unit_rank, expectedCount, signal_counter in *; bool_prop;
    try destruct (Htake _ eq_refl); rewrite ?(u32_id (entry b + 1)) by (unfold is_u32; lia); try (split; nia).
  all: destruct slept; split; nia.
Qed.

Definition left_to_do (s : Sys) : Z := total rank (pcs s) + unit_rank * entry (barrier s).

Lemma advance_decreases u timeout s s' :
  advance n waitIndefinitely u timeout s = Some s' -> safe s -> left_to_do s' < left_to_do s.
Proof.
  intros (p & b' & t' & p' & Hu & H & ->)%advance_inv Hs. unfold left_to_do. cbn.
  pose proof (safe_entry _ Hs). pose proof (safe_units _ Hs). pose proof (safe_users _ Hs).
  assert (0 <= total outside (pcs s)) by apply total_nonneg, outside_nonneg.
  pose proof (total_holds _ _ _ (safe_counted _ Hs) Hu). unfold expectedCount in *.
  apply hit_rank in H as [_ H]; [|unfold expectedCount; lia..]. rewrite (total_insert _ _ _ p) by done. lia.
Qed.

Lemma left_to_do_nonneg s : safe s -> 0 <= left_to_do s.
Proof.
  intros Hs. unfold left_to_do, unit_rank, expectedCount. pose proof (safe_entry _ Hs).
  assert (0 <= total rank (pcs s)); [|nia]. apply total_nonneg. intros p. unfold rank, expectedCount.
  destruct p as [| | | |w|w l|w|w|w|w| |slept| | |l| | |r]; try destruct slept; lia.
Qed.

Lemma schedule_bounded l s s' : schedule n waitIndefinitely l s = Some s' -> safe s ->
  safe s' /\ left_to_do s' + Z.of_nat (length l) <= left_to_do s.
Proof.
  revert s. induction l as [|[u timeout] l IH]; intros s H Hs; cbn [schedule length] in *.
  - injection H as ->. split; [done|lia].
  - destruct (advance n waitIndefinitely u timeout s) as [s1|] eqn:E; [|done]. cbn in H.
    apply IH in H as [Hs' H]; [|eapply safe_bstep; [by eapply bstep_run|done]].
    split; [done|]. pose proof (advance_decreases _ _ _ _ E Hs). lia.
Qed.

(** ** When nobody dies and nobody's time is over *)

Definition lead (p : pc) : Z :=
  match p with
  | LeadLoop _ | LeadAlive _ _ | LeadWait _ | LeadRecheck _ | LeadBroken _ | LeadSignal _ => 1
  | _ => 0
  end.

Definition through (p : pc) : Z := match p with ExitBroken | Returned _ => 1 | _ => 0 end.

Definition unbroken (p : pc) : Prop :=
  match p with Breaking | Notifying _ | BreakSignal | BreakSet | Returned false => False | _ => True end.

(** Only users are left to be looked at. *)
Definition looks_at_users (p : pc) : Prop := match p with LeadAlive _ rest => Forall (fun u => (u < n)%nat) rest | _ => True end.

Record filling (s : Sys) : Prop := mkFilling {
  fill_exit : exit (barrier s) = 0 /\ total through (pcs s) = 0;
  fill_units : total holds (pcs s) + entry (barrier s) = usersInBarrier (barrier s);
  fill_lead : total lead (pcs s) = if usersInBarrier (barrier s) =? 0 then 0 else 1;
}.

Record emptying (s : Sys) : Prop := mkEmptying {
  empty_entered : entry (barrier s) = 0 /\ usersInBarrier (barrier s) = count /\ total holds (pcs s) = 0 /\ total lead (pcs s) = 0;
  empty_exit : exit (barrier s) + total through (pcs s) = count + 1 /\ 0 <= exit (barrier s) /\ 1 <= total through (pcs s);
}.

Record calm (s : Sys) : Prop := mkCalm {
  calm_safe : safe s;
  calm_alive : forall u, (u < n)%nat -> isAlive (alive s) u = true;
  calm_flag : barrierIsBroken (barrier s) = false;
  calm_pcs : Forall (fun p => unbroken p /\ looks_at_users p) (pcs s);
  calm_outside : usersInBarrier (barrier s) + total outside (pcs s) = count;
  calm_phase : filling s \/ emptying s;
}.

Context (Hw : waitIndefinitely = true).

Lemma hit_calm u timeout al b t p b' t' p' :
  hit u timeout al b t p = Some (b', t', p') ->
  (forall u, (u < n)%nat -> isAlive al u = true) -> (u < n)%nat -> barrierIsBroken b = false ->
  unbroken p -> looks_at_users p -> counted p -> 0 <= entry b -> 0 <= usersInBarrier b ->
  holds p + entry b <= usersInBarrier b -> usersInBarrier b + outside p <= count -> 0 <= exit b < W32 ->
  barrierIsBroken b' = false /\ unbroken p' /\ looks_at_users p' /\
  ((exists w, p = LeadSignal w /\ p' = Returned true /\ b' = set_exit b (u32 (exit b + w))) \/
   holds p' + entry b' - usersInBarrier b' = holds p + entry b - usersInBarrier b /\
   usersInBarrier b' + outside p' = usersInBarrier b + outside p /\
   exit b' + through p' = exit b + through p /\ 0 <= exit b' /\ through p <= through p' /\
   (usersInBarrier b' = usersInBarrier b + 1 /\ outside p = 1 /\ lead p' = (if usersInBarrier b =? 0 then 1 else 0) /\ lead p = 0 \/
    usersInBarrier b' = usersInBarrier b /\ lead p' = lead p)).
Proof.
  intros H Hal Hu Hb Hp Hlook Hc He Hz Hs Ho Hx. pose proof (holds_nonneg _ Hc).
  assert (Hadd : forall x y, 0 <= x -> 0 <= y -> x + y <= Z.of_nat n -> u32 (x + y) = x + y).
  { intros. apply u32_id. unfold is_u32. lia. }
  assert (Hin : forall c, take_counter (entry b) = Some c -> c = entry b - 1 /\ 0 <= c).
  { intros c. apply take_counter_Some. unfold expectedCount, outside in *. destruct p; lia. }
  assert (Hout : forall c, take_counter (exit b) = Some c -> c = exit b - 1 /\ 0 <= c).
  { intros c. by apply take_counter_Some. }
  assert (Husers : Forall (fun u => (u < n)%nat) (expectedBarrierUsers n)).
  { apply Forall_forall. intros v Hv%elem_of_seq. lia. }
  destruct p as [| | | |w|w [|v l]|w|w|w|w| |slept| | |[|v l]| | |r]; hit_cases H; try done; rewrite ?Hw in *; try done;
    try (inversion Hlook as [|? ? Hv Hl]; subst); rewrite ?Hal in * by done; try done; rewrite ?Hb in *; try done;
    cbn [holds outside lead through counted unbroken looks_at_users entry exit usersInBarrier barrierIsBroken set_entry set_exit negb] in *;
    unfold expectedCount, signal_counter in *; bool_prop;
    try destruct (Hin _ eq_refl); try destruct (Hout _ eq_refl);
    rewrite ?Hadd by lia; (split; [done|]; split; [done|]; split; [done|]); try (right; lia).
  all: try (left; by exists w).
  all: right; repeat split; try lia; destruct (usersInBarrier b =? 0); lia.
Qed.

Lemma lead_nonneg p : 0 <= lead p.
Proof. by destruct p. Qed.

Lemma through_nonneg p : 0 <= through p.
Proof. by destruct p. Qed.

(** A user inside that waits for the exit is all that can remain when the lead opens it. *)
Lemma opening_empties s u w t :
  safe s -> filling s -> usersInBarrier (barrier s) + total outside (pcs s) = count ->
  pcs s !! u = Some (LeadSignal w) ->
  emptying (mkSys (set_exit (barrier s) (u32 (exit (barrier s) + w))) (alive s) t (<[u := Returned true]> (pcs s))) /\
  total outside (pcs s) = 0.
Proof.
  intros Hs [[Hx Ht] Hun Hl] Ho Hu.
  pose proof (total_holds _ _ _ (safe_counted _ Hs) Hu) as [_ Hh]. cbn in Hh.
  pose proof (Forall_lookup_1 _ _ _ _ (safe_counted _ Hs) Hu) as [Hw1 Hw2]. pose proof (safe_entry _ Hs) as [He _].
  assert (0 <= total outside (pcs s)) by apply total_nonneg, outside_nonneg.
  pose proof (total_lookup _ _ _ _ lead_nonneg Hu) as Hlead. cbn in Hlead.
  unfold expectedCount in *. rewrite Hx. change (0 + w) with w.
  assert (E : w = Z.of_nat n) by lia. rewrite (u32_id w) by (unfold is_u32; lia).
  split; [|lia]. split; cbn.
  - rewrite !(total_insert _ _ _ (LeadSignal w)) by done. cbn. case_eq (usersInBarrier (barrier s) =? 0); intros E0; rewrite E0 in *; bool_prop;
      unfold expectedCount; repeat split; lia.
  - rewrite (total_insert _ _ _ (LeadSignal w)) by done. cbn. unfold expectedCount. lia.
Qed.

Lemma through_le l : total through l <= Z.of_nat (length l).
Proof. etransitivity; [apply (total_bound _ _ 1)|lia]. apply Forall_true. intros p. destruct p; cbn; lia. Qed.

Lemma calm_exit s : calm s -> 0 <= exit (barrier s) < W32.
Proof.
  intros [Hs _ _ _ _ [[[Hx _] _ _]|[_ (Hx & Hx0 & Hx1)]]]; [lia|]. unfold expectedCount in *. lia.
Qed.

Lemma calm_advance u timeout s s' : advance n waitIndefinitely u timeout s = Some s' -> calm s -> calm s'.
Proof.
  intros Ha Hc. pose proof (calm_exit _ Hc) as Hexit.
  assert (Hs' : safe s') by (eapply safe_bstep; [by eapply bstep_run|apply Hc]).
  destruct (advance_inv _ _ _ _ Ha) as (p & b' & t' & p' & Hu & H & ->). destruct Hc as [Hs Hal Hb Hp Ho Hph].
  pose proof (total_holds _ _ _ (safe_counted _ Hs) Hu) as Hh. pose proof (total_lookup _ _ _ _ outside_nonneg Hu) as Hout.
  pose proof (Forall_lookup_1 _ _ _ _ Hp Hu) as [Hp1 Hp2]. pose proof (safe_entry _ Hs) as [He Hz]. pose proof (safe_units _ Hs) as Hun.
  assert (Hlt : (u < n)%nat) by (rewrite <- (safe_length _ Hs); by eapply lookup_lt_Some).
  apply hit_calm in H as (Hb' & Hp1' & Hp2' & Hcase); [|done|done|done|done|done|by eapply (Forall_lookup_1 _ _ _ _ (safe_counted _ Hs))|lia..].
  assert (Hfa : Forall (fun p => unbroken p /\ looks_at_users p) (<[u:=p']> (pcs s))) by by apply Forall_insert.
  destruct Hcase as [(w & -> & -> & ->)|(E1 & E2 & E3 & E4 & E5 & E6)].
  - destruct Hph as [Hf|[(_ & _ & _ & Hl) _]].
    + destruct (opening_empties _ _ _ t' Hs Hf Ho Hu) as [Hem Hz0].
      split; cbn [pcs alive barrier barrierIsBroken set_exit usersInBarrier]; [done|done|done|done| |by right].
      rewrite (total_insert _ _ _ (LeadSignal w)) by done. cbn in *. lia.
    + pose proof (total_lookup _ _ _ _ lead_nonneg Hu) as Hlead. cbn in Hlead. lia.
  - assert (Ho' : usersInBarrier b' + total outside (<[u:=p']> (pcs s)) = count) by (rewrite (total_insert _ _ _ p) by done; lia).
    split; cbn; auto. destruct Hph as [[[Hx Ht] Hfu Hl]|[(X1 & X2 & X3 & X4) (X5 & X6 & X7)]].
    + left. pose proof (total_lookup _ _ _ _ through_nonneg Hu). pose proof (through_nonneg p). pose proof (through_nonneg p').
      split; cbn; rewrite ?(total_insert _ _ _ p) by done; [lia|lia|].
      rewrite Hl. destruct E6 as [(-> & _ & -> & ->)|[-> ->]]; [|lia].
      rewrite (proj2 (Z.eqb_neq (usersInBarrier (barrier s) + 1) 0)) by lia. destruct (usersInBarrier (barrier s) =? 0); lia.
    + right. pose proof (total_nonneg _ (pcs s) outside_nonneg). pose proof (safe_counted _ Hs' ) as Hc'. cbn in Hc'.
      assert (0 <= holds p') by (apply holds_nonneg; eapply Forall_lookup_1; [exact Hc'|apply list_lookup_insert_eq; by eapply lookup_lt_Some]).
      pose proof (safe_entry _ Hs') as [He' _]. cbn in He'. unfold expectedCount in *.
      split; cbn; rewrite ?(total_insert _ _ _ p) by done; unfold expectedCount; lia.
Qed.

Lemma calm_started : calm (started n).
Proof.
  split; cbn; auto.
  - apply safe_started.
  - intros u Hu. unfold isAlive. rewrite (proj2 (lookup_replicate _ _ _ _)) by done. done.
  - by apply Forall_replicate.
  - rewrite total_replicate. unfold expectedCount. cbn. lia.
  - left. split; cbn; rewrite ?total_replicate; cbn; lia.
Qed.

Lemma schedule_calm l s s' : schedule n waitIndefinitely l s = Some s' -> calm s -> calm s'.
Proof.
  revert s. induction l as [|[u timeout] l IH]; intros s H Hs; cbn [schedule] in H; [by injection H as ->|].
  destruct (advance n waitIndefinitely u timeout s) as [s1|] eqn:E; [|done]. eapply IH; [done|]. by eapply calm_advance.
Qed.

(** Where a thread of a calm system can stand still. *)
Lemma blocked_pc u timeout s p : advance n waitIndefinitely u timeout s = None -> pcs s !! u = Some p -> unbroken p ->
  p = Returned true \/ (exists w, p = LeadWait w /\ entry (barrier s) = 0) \/ (p = WaitExit true /\ exit (barrier s) = 0).
Proof.
  unfold advance. intros H Hu Hp. rewrite Hu in H. cbn [mbind option_bind] in H.
  destruct p as [| | | |w|w [|v l]|w|w|w|w| |slept| | |[|v l]| | |[]]; cbn [hitBarrier] in H; try done; auto.
  - destruct (w <? count); done.
  - rewrite Hw in H. unfold take_counter in H. destruct (entry (barrier s) =? 0) eqn:E; [|done]. bool_prop. right; left; eauto.
  - rewrite Hw in H. cbn in H. unfold take_counter in H. destruct (exit (barrier s) =? 0) eqn:E; [|done]. bool_prop.
    destruct slept; [|done]. auto.
Qed.

Lemma blocked_returned s : calm s -> (forall u timeout, advance n waitIndefinitely u timeout s = None) ->
  pcs s = replicate n (Returned true).
Proof.
  intros [Hs Hal Hb Hp Ho Hph] Hno. pose proof (safe_length _ Hs) as Hlen.
  assert (Hblk : forall u p, pcs s !! u = Some p -> p = Returned true \/
    (exists w, p = LeadWait w /\ entry (barrier s) = 0) \/ (p = WaitExit true /\ exit (barrier s) = 0)).
  { intros u p Hu. eapply (blocked_pc u false); eauto. by apply (Forall_lookup_1 _ _ _ _ Hp Hu). }
  assert (Hall : Forall (fun p => holds p <= (count - 1) * lead p /\ outside p = 0) (pcs s)).
  { apply Forall_lookup. intros u p Hu. pose proof (Forall_lookup_1 _ _ _ _ (safe_counted _ Hs) Hu) as Hc.
    destruct (Hblk _ _ Hu) as [->|[(w & -> & _)|[-> _]]]; cbn in *; lia. }
  apply Forall_and in Hall as [Hh Hout]. apply total_zero in Hout. apply entered_total_le in Hh.
  destruct Hph as [[[Hx Ht] Hun Hl]|[(X1 & X2 & X3 & X4) (X5 & X6 & X7)]]; unfold expectedCount in *.
  - rewrite (proj2 (Z.eqb_neq (usersInBarrier (barrier s)) 0)) in Hl by lia.
    destruct (decide (entry (barrier s) = 0)) as [E|E]; [lia|].
    assert (Hnl : total lead (pcs s) = 0); [|lia]. apply total_zero, Forall_lookup. intros u p Hu.
    destruct (Hblk _ _ Hu) as [->|[(w & -> & ?)|[-> _]]]; done.
  - assert (Hret : Forall (fun p => p = Returned true) (pcs s)).
    { apply Forall_lookup. intros u p Hu. destruct (Hblk _ _ Hu) as [->|[(w & -> & ?)|[-> E]]]; [done| |].
      - pose proof (total_lookup _ _ _ _ lead_nonneg Hu). cbn in *. lia.
      - pose proof (through_le (pcs s)). lia. }
    symmetry. apply replicate_as_Forall. split; [done|]. eapply Forall_impl; [done|]. by intros p ->.
Qed.

(** C24: a barrier opens.  With unlimited waiting, when nobody dies, every schedule of the
    threads comes to an end after a bounded number of accesses, and when no thread can go
    on, every call has returned [true]. *)
Theorem barrier_opens l s : schedule n waitIndefinitely l (started n) = Some s ->
  Z.of_nat (length l) <= count * (2 * count + 15) /\
  ((forall u timeout, advance n waitIndefinitely u timeout s = None) -> pcs s = replicate n (Returned true)).
Proof.
  intros H. split.
  - apply schedule_bounded in H as [Hs H]; [|apply safe_started]. pose proof (left_to_do_nonneg _ Hs).
    change (left_to_do (started n)) with (total rank (replicate n Calling) + unit_rank * 0) in H.
    rewrite total_replicate in H. unfold expectedCount in *. cbn [rank] in H. unfold expectedCount in H. lia.
  - apply blocked_returned. eapply schedule_calm; [done|apply calm_started].
Qed.
End safety.

(** ** Where the barrier fails *)

Section stuck.
Context (n : nat) (waitIndefinitely : bool).

(** No thread can go on, whoever dies. *)
Definition stuck (s : Sys) : Prop :=
  forall u p timeout al, pcs s !! u = Some p -> hitBarrier n waitIndefinitely u timeout al (barrier s) (told s) p = None.

Lemma stuck_forever s s' : stuck s -> rtc (bstep n waitIndefinitely) s s' -> pcs s' = pcs s.
Proof.
  intros Hs Hr. cut (stuck s' /\ pcs s' = pcs s); [by intros []|]. revert s' Hr.
  apply (rtc_ind_r (fun s' => stuck s' /\ pcs s' = pcs s)); [done|].
  intros y z _ Hstep [Hy He]. destruct Hstep as [u timeout y z Ha|u y]; [|by split].
  destruct (advance_inv _ _ _ _ _ _ Ha) as (p & b' & t' & p' & Hu & H & _). by rewrite (Hy _ _ _ _ Hu) in H.
Qed.

(** Decided by a look at the semaphores. *)
Definition waits (b : Barrier) (p : pc) : bool :=
  match p with
  | Returned _ => true
  | LeadWait _ => waitIndefinitely && (entry b =? 0)
  | WaitExit slept => waitIndefinitely && slept && (exit b =? 0)
  | _ => false
  end.

Lemma stuck_dec s : forallb (waits (barrier s)) (pcs s) = true -> stuck s.
Proof.
  intros Hf u p timeout al Hu. rewrite forallb_forall in Hf. assert (Hp : waits (barrier s) p = true).
  { apply Hf. apply list_elem_of_In. by eapply list_elem_of_lookup_2. }
  destruct p as [| | | |w|w [|v l]|w|w|w|w| |slept| | |[|v l]| | |r]; try done; cbn [waits] in Hp; bool_prop; subst;
    cbn [hitBarrier]; unfold take_counter.
  - destruct waitIndefinitely; [|done]. by match goal with H : entry _ = 0 |- _ => rewrite H end.
  - destruct waitIndefinitely; [|done]. match goal with H : exit _ = 0 |- _ => rewrite H end. done.
Qed.
End stuck.

(** The accesses of a thread in a row. *)
Definition run (u k : nat) : list (nat * bool) := replicate k (u, false).

(** [true] without the others: of three users the first has waited too long and
    breaks the barrier; the second one, woken by it, looks at the flag before it is set
    and returns [true], although the third one never came. *)
Theorem broken_barrier_returns_true :
  exists l s, schedule 3 false l (started 3) = Some s /\
    pcs s = [Returned false; Returned true; Calling] /\ barrierIsBroken (barrier s) = true /\
    usersInBarrier (barrier s) = 2.
Proof.
  exists (run 0 9 ++ run 1 5 ++ [(0%nat, true)] ++ run 0 6 ++ run 1 2 ++ run 0 1). eexists.
  split; [by vm_compute|]. by vm_compute.
Qed.

(** a dead user blocks the lead.  The first of two users waits for the second one
    without limit; the second one dies and breaks the barrier, which wakes those who wait
    at the exit only: the first one never returns. *)
Theorem dead_user_blocks_lead :
  exists s, rtc (bstep 2 true) (started 2) s /\ barrierIsBroken (barrier s) = true /\
    pcs s = [LeadWait 1; Returned false] /\ forall s', rtc (bstep 2 true) s s' -> pcs s' = [LeadWait 1; Returned false].
Proof.
  destruct (schedule 2 true (run 0 8) (started 2)) as [s1|] eqn:E1; [|by vm_compute in E1].
  pose (s2 := mkSys (barrier s1) (<[1%nat := false]> (alive s1)) (told s1) (pcs s1)).
  destruct (schedule 2 true (run 1 8) s2) as [s3|] eqn:E2; [|by vm_compute in E1; injection E1 as <-].
  exists s3. split.
  - etransitivity; [by eapply schedule_rtc|]. eapply rtc_l; [apply (bstep_die _ _ 1%nat)|]. by eapply schedule_rtc.
  - vm_compute in E1. injection E1 as <-. vm_compute in E2. injection E2 as <-. split; [done|]. split; [done|].
    intros s' Hr. apply (stuck_forever 2 true _ _) in Hr; [done|]. by apply stuck_dec.
Qed.

(** A barrier counts as recyclable when all have entered; resetting it then takes the
    units from those who still wait at the exit. *)
Theorem recyclable_too_early :
  exists s, rtc (bstep 2 true) (started 2) s /\ recyclable 2 (barrier s) = true /\
    forall s', rtc (bstep 2 true) (reset s) s' -> pcs s' = [Returned true; WaitExit true].
Proof.
  destruct (schedule 2 true (run 0 8 ++ run 1 6 ++ run 0 5) (started 2)) as [s|] eqn:E; [|by vm_compute in E].
  exists s. split; [by eapply schedule_rtc|]. vm_compute in E. injection E as <-. split; [done|].
  intros s' Hr. apply (stuck_forever 2 true _ _) in Hr; [done|]. by apply stuck_dec.
Qed.

(** A unit is left in the exit when all have passed. *)
Example exit_keeps_a_unit :
  match schedule 2 true (run 0 8 ++ run 1 6 ++ run 0 5 ++ run 1 2) (started 2) with
  | Some s => pcs s = [Returned true; Returned true] /\ exit (barrier s) = 1
  | None => False
  end.
Proof. by vm_compute. Qed.

Lemma barrier_true_means_all_entered_witness :
  exists s, usersInBarrier (barrier s) = expectedCount 2 \/ barrierIsBroken (barrier s) = true \/ BreakSet ∈ pcs s.
Proof.
  destruct (schedule 2 true (run 0 8 ++ run 1 6 ++ run 0 5 ++ run 1 2) (started 2)) as [s|] eqn:E; [|by vm_compute in E].
  exists s. apply (barrier_true_means_all_entered 2 true ltac:(lia) s 0%nat); [by eapply schedule_rtc|].
  vm_compute in E. injection E as <-. done.
Defined.

Lemma barrier_opens_witness :
  exists (l : list (nat * bool)) s, Z.of_nat (length l) <= expectedCount 2 * (2 * expectedCount 2 + 15) /\
    ((forall u timeout, advance 2 true u timeout s = None) -> pcs s = replicate 2 (Returned true)).
Proof.
  destruct (schedule 2 true (run 0 8 ++ run 1 6 ++ run 0 5 ++ run 1 2) (started 2)) as [s|] eqn:E; [|by vm_compute in E].
  exists (run 0 8 ++ run 1 6 ++ run 0 5 ++ run 1 2), s. exact (barrier_opens 2 true ltac:(lia) eq_refl _ _ E).
Defined.
