(* ===== verification/RefCounts.v ===== *)
(** Reference counts of the client's objects (shared/ref_counted.h): counted objects that
    hold a reference to their parent, and the type-erased references [SingleReference]. *)

From stdpp Require Import relations gmap sorting.
From S2P Require Import Prelude.
Local Open Scope Z_scope.

(** * Objects and references *)

(** A [SingleReference]: nothing wrapped, or a reference to an object, which may be null. *)
Definition SingleReference : Type := option Z.

(** A [RefCounted] or, with a parent, a [RefCountedWithParent]. *)
Record RefCounted := mkRefCounted { refCount : Z; parent : SingleReference }.

Abbreviation heap := (gmap Z RefCounted).

(** The object that a reference counts for. *)
Definition referent (r : SingleReference) : option Z :=
  match r with Some p => if p =? 0 then None else Some p | None => None end.

Definition set_count (o : RefCounted) (c : Z) : RefCounted := mkRefCounted c (parent o).

(** A new object; the reference to the parent is moved into it. *)
Definition create (h : heap) (p : Z) (r : SingleReference) : heap := <[p := mkRefCounted 1 r]> h.

(** [inc] and [dec] return the previous count; an object that is gone is undefined.
    [dec] tells for which objects the cleanup function was called: it deletes an object
    whose count was 1, whose destructor gives up the reference to the parent.  Every
    further call has an object less, so that their number bounds the calls. *)
Definition inc (h : heap) (p : Z) : res (Z * heap) :=
  match h !! p with
  | Some o => Ret (refCount o, <[p := set_count o (u32 (refCount o + 1))]> h)
  | None => Undef
  end.

Fixpoint dec_fuel (fuel : nat) (h : heap) (p : Z) : res (Z * list Z * heap) :=
  match fuel with
  | O => Undef
  | S fuel =>
      match h !! p with
      | None => Undef
      | Some o =>
          let prev := refCount o in
          if prev =? 1 then
            match referent (parent o) with
            | None => Ret (prev, [p], delete p h)
            | Some q => '(_, cleaned, h) ← dec_fuel fuel (delete p h) q; Ret (prev, p :: cleaned, h)
            end
          else Ret (prev, [], <[p := set_count o (u32 (prev - 1))]> h)
      end
  end.

Definition dec (h : heap) (p : Z) : res (Z * list Z * heap) := dec_fuel (size h) h p.

(** The operations of [SingleReference]. *)
Definition ref_inc (h : heap) (r : SingleReference) : res heap :=
  match referent r with Some p => '(_, h) ← inc h p; Ret h | None => Ret h end.

Definition wrap (h : heap) (p : Z) : res (SingleReference * heap) := h ← ref_inc h (Some p); Ret (Some p, h).

Definition clone (h : heap) (r : SingleReference) : res (SingleReference * heap) := h ← ref_inc h r; Ret (r, h).

Definition destroy (h : heap) (r : SingleReference) : res heap :=
  match referent r with Some p => '(_, _, h) ← dec h p; Ret h | None => Ret h end.

(** The move constructor leaves the source empty; the move assignment also, and frees the
    wrapper of what the target referred to, without a [dec]. *)
Definition move (rhs : SingleReference) : SingleReference * SingleReference := (rhs, None).

Definition move_assign (lhs rhs : SingleReference) : SingleReference * SingleReference := (rhs, None).

(** * Who holds what *)

(** The references held outside of the objects (handles of the application and local
    references), those that were lost in assignments, and the objects. *)
Record config := mkConfig { held : list Z; lost : list Z; objects : heap }.

Definition start : config := mkConfig [] [] ∅.

Inductive rstep : config -> config -> Prop :=
| rstep_create hd l h p r os :
    p <> 0 -> h !! p = None -> hd ≡ₚ option_list (referent r) ++ os ->
    rstep (mkConfig hd l h) (mkConfig (p :: os) l (create h p r))
| rstep_take hd l h p n h' :
    p ∈ hd -> inc h p ⇓ (n, h') -> n < u32_max -> rstep (mkConfig hd l h) (mkConfig (p :: hd) l h')
| rstep_drop hd l h p prev cleaned h' os :
    hd ≡ₚ p :: os -> dec h p ⇓ (prev, cleaned, h') -> rstep (mkConfig hd l h) (mkConfig os l h')
| rstep_assign hd l h r os :
    hd ≡ₚ option_list (referent r) ++ os ->
    rstep (mkConfig hd l h) (mkConfig os (option_list (referent r) ++ l) h).

(** * The accounts *)

Definition parentOf (h : heap) (c : Z) : option Z := o ← h !! c; referent (parent o).

Definition parents (h : heap) (order : list Z) : list Z := omap (parentOf h) order.

Definition occurrences (l : list Z) (p : Z) : Z := Z.of_nat (count_occ Z.eq_dec l p).

(** Every live object is counted once for each reference, nothing that is referred to is
    gone, and objects were created later than their parents ([time]). *)
Record accounts (owners : list Z) (h : heap) (live : list Z) (time : Z -> Z) (now : Z) : Prop := mkAccounts {
  acc_nodup : NoDup live;
  acc_dom : forall p, p ∈ live <-> is_Some (h !! p);
  acc_owners : forall p, p ∈ owners -> p ∈ live;
  acc_parents : forall c q, parentOf h c = Some q -> q ∈ live /\ time q < time c;
  acc_now : forall p, p ∈ live -> time p < now;
  acc_count : forall p o, h !! p = Some o ->
    refCount o = occurrences owners p + occurrences (parents h live) p /\ 1 <= refCount o < W32;
}.

Lemma occurrences_app l k p : occurrences (l ++ k) p = occurrences l p + occurrences k p.
Proof. unfold occurrences. rewrite count_occ_app. lia. Qed.

Lemma occurrences_perm l k p : l ≡ₚ k -> occurrences l p = occurrences k p.
Proof. intros H. unfold occurrences. f_equal. by apply (Permutation_count_occ Z.eq_dec). Qed.

Lemma occurrences_cons a l p : occurrences (a :: l) p = (if decide (a = p) then 1 else 0) + occurrences l p.
Proof. unfold occurrences. cbn. destruct (Z.eq_dec a p), (decide (a = p)); try done; lia. Qed.

Lemma occurrences_nonneg l p : 0 <= occurrences l p.
Proof. unfold occurrences. lia. Qed.

Lemma occurrences_zero l p : occurrences l p = 0 <-> p ∉ l.
Proof.
  unfold occurrences. rewrite list_elem_of_In. rewrite (count_occ_not_In Z.eq_dec). lia.
Qed.

Lemma parents_perm h l k : l ≡ₚ k -> parents h l ≡ₚ parents h k.
Proof. intros H. unfold parents. by apply omap_Permutation. Qed.

Lemma parents_ext h h' l : (forall c, c ∈ l -> parentOf h c = parentOf h' c) -> parents h l = parents h' l.
Proof.
  induction l as [|c l IH]; intros H; [done|]. unfold parents in *. cbn. rewrite (H c) by set_solver.
  rewrite IH; [done|]. intros; apply H; set_solver.
Qed.

Lemma parents_app h l k : parents h (l ++ k) = parents h l ++ parents h k.
Proof. apply omap_app. Qed.

Lemma parents_elem h l q : q ∈ parents h l <-> exists c, c ∈ l /\ parentOf h c = Some q.
Proof. unfold parents. apply list_elem_of_omap. Qed.

Lemma parentOf_set h p o c x : h !! p = Some o -> parentOf (<[p := set_count o c]> h) x = parentOf h x.
Proof.
  intros Hp. unfold parentOf. destruct (decide (p = x)) as [->|Hne].
  - by rewrite lookup_insert_eq, Hp.
  - by rewrite lookup_insert_ne.
Qed.

Section accounts.
Context (h : heap) (live : list Z) (time : Z -> Z) (now : Z).

Lemma accounts_perm os os' : os ≡ₚ os' -> accounts os h live time now -> accounts os' h live time now.
Proof.
  intros Hp [H1 H2 H3 H4 H5 H6]. split; auto.
  - intros p Hin. apply H3. by rewrite Hp.
  - intros p o Ho. rewrite <- (occurrences_perm _ _ p Hp). auto.
Qed.

Lemma accounts_set os os' p o c : accounts os h live time now -> h !! p = Some o ->
  (forall q, q <> p -> occurrences os' q = occurrences os q) -> occurrences os' p - occurrences os p = c - refCount o -> 1 <= c < W32 ->
  accounts os' (<[p := set_count o c]> h) live time now.
Proof.
  intros [H1 H2 H3 H4 H5 H6] Hp Hq Hc Hr. assert (Hlive : p ∈ live) by by apply H2.
  assert (Hpar : parents (<[p := set_count o c]> h) live = parents h live).
  { apply parents_ext. intros x _. by apply parentOf_set. }
  split; auto.
  - intros q. rewrite H2. destruct (decide (q = p)) as [->|Hne]; [rewrite lookup_insert_eq|by rewrite lookup_insert_ne by done].
    split; eauto.
  - intros q Hin. destruct (decide (q = p)) as [->|Hne]; [done|]. apply H3.
    apply dec_stable. intros Hn%occurrences_zero. rewrite <- Hq in Hn by done. by apply occurrences_zero in Hn.
  - intros x q. rewrite parentOf_set by done. apply H4.
  - intros q o' Ho. rewrite Hpar. destruct (decide (q = p)) as [->|Hne].
    + rewrite lookup_insert_eq in Ho. injection Ho as <-. cbn. destruct (H6 _ _ Hp). lia.
    + rewrite lookup_insert_ne in Ho by done. rewrite (Hq q Hne). by apply H6.
Qed.

Lemma accounts_delete os p o : accounts (p :: os) h live time now -> h !! p = Some o -> refCount o = 1 ->
  exists live', accounts (option_list (referent (parent o)) ++ os) (delete p h) live' time now.
Proof.
  intros [H1 H2 H3 H4 H5 H6] Hp Hc. assert (Hlive : p ∈ live) by (apply H2; eauto).
  destruct (list_elem_of_split _ _ Hlive) as (l1 & l2 & ->). assert (Hmid : l1 ++ p :: l2 ≡ₚ p :: l1 ++ l2) by by rewrite Permutation_middle.
  rewrite Hmid in H1. inversion H1 as [|? ? Hnin Hnd]; subst.
  destruct (H6 _ _ Hp) as [Hcp _]. rewrite occurrences_cons, decide_True in Hcp by done.
  pose proof (occurrences_nonneg os p). pose proof (occurrences_nonneg (parents h (l1 ++ p :: l2)) p).
  assert (Hos : p ∉ os) by (apply occurrences_zero; lia). assert (Hpn : p ∉ parents h (l1 ++ p :: l2)) by (apply occurrences_zero; lia).
  assert (Hne : forall c, c ≠ p -> parentOf (delete p h) c = parentOf h c) by (intros c Hx; unfold parentOf; by rewrite lookup_delete_ne).
  assert (Hpe : parents (delete p h) (l1 ++ l2) = parents h (l1 ++ l2)) by (apply parents_ext; intros c Hx; apply Hne; by intros ->).
  assert (Hself : parentOf h p = referent (parent o)) by (unfold parentOf; by rewrite Hp).
  assert (Hpp : parents h (l1 ++ p :: l2) ≡ₚ option_list (referent (parent o)) ++ parents h (l1 ++ l2)).
  { rewrite (parents_perm h _ (p :: l1 ++ l2)) by by rewrite Permutation_middle. unfold parents. cbn. rewrite Hself. by destruct (referent (parent o)). }
  assert (Hsub : forall q, q ∈ l1 ++ p :: l2 -> q <> p -> q ∈ l1 ++ l2) by set_solver.
  exists (l1 ++ l2). split; auto.
  - intros q. destruct (decide (q = p)) as [->|Hqp]; [rewrite lookup_delete_eq|rewrite lookup_delete_ne, <- H2 by done; set_solver].
    split; [done|]. by intros [].
  - intros q Hin. apply elem_of_app in Hin as [Hin|Hin].
    + destruct (referent (parent o)) as [r|] eqn:Hr; [|by apply elem_of_nil in Hin]. apply list_elem_of_singleton in Hin as ->.
      destruct (H4 p r ltac:(congruence)) as [Hl Ht]. apply Hsub; [done|]. intros ->. lia.
    + apply Hsub; [apply H3; set_solver|]. by intros ->.
  - intros c q Hcq. destruct (decide (c = p)) as [->|Hcp']; [unfold parentOf in Hcq; by rewrite lookup_delete_eq in Hcq|].
    rewrite Hne in Hcq by done. destruct (H4 c q Hcq) as [Hl Ht]. split; [|done]. apply Hsub; [done|]. intros ->.
    apply Hpn, parents_elem. exists c. split; [|done]. apply H2. unfold parentOf in Hcq. destruct (h !! c); [eauto|done].
  - intros q Hin. apply H5. set_solver.
  - intros q o' [Hqp Ho]%lookup_delete_Some. destruct (H6 _ _ Ho) as [-> ?]. split; [|done]. rewrite Hpe, (occurrences_perm _ _ q Hpp), !occurrences_app, occurrences_cons.
    rewrite decide_False by done. lia.
Qed.
End accounts.

Lemma size_delete_lt (h : heap) p o : h !! p = Some o -> (size (delete p h) < size h)%nat.
Proof.
  intros Hp. rewrite map_size_delete_Some by by rewrite Hp.
  assert (size h <> 0)%nat; [|lia]. apply (map_size_ne_0_lookup_2 h p). by rewrite Hp.
Qed.

(** Giving up a reference that is held returns, and deletes exactly the objects that it
    cleans up. *)
Lemma dec_fuel_ok fuel os h live time now p :
  (size h <= fuel)%nat -> accounts (p :: os) h live time now ->
  exists prev cleaned h' live', dec_fuel fuel h p ⇓ (prev, cleaned, h') /\ accounts os h' live' time now /\
    NoDup cleaned /\ (forall q, q ∈ cleaned -> is_Some (h !! q)) /\
    (forall q, is_Some (h' !! q) <-> is_Some (h !! q) /\ q ∉ cleaned).
Proof.
  revert os h live p. induction fuel as [|fuel IH]; intros os h live p Hf Ha.
  all: destruct (proj1 (acc_dom _ _ _ _ _ Ha p) (acc_owners _ _ _ _ _ Ha p ltac:(set_solver))) as [o Ho].
  all: pose proof (size_delete_lt _ _ _ Ho) as Hsz.
  { lia. }
  destruct (acc_count _ _ _ _ _ Ha _ _ Ho) as [Hc Hl].
  cbn [dec_fuel]. rewrite Ho. case_eq (refCount o =? 1); intros E; bool_prop.
  - destruct (accounts_delete _ _ _ _ _ _ _ Ha Ho E) as (live' & Ha').
    destruct (referent (parent o)) as [q|]; cbn [option_list app] in Ha'.
    + destruct (IH os (delete p h) live' q ltac:(lia) Ha') as (prev & cleaned & h' & live'' & -> & Ha'' & Hnd & Hin & Hdom).
      cbn [mbind res_bind]. exists (refCount o), (p :: cleaned), h', live''. split; [done|]. split; [done|]. split.
      { constructor; [|done]. intros [x Hx]%Hin. by rewrite lookup_delete_eq in Hx. }
      split.
      * intros x [->|Hx]%elem_of_cons; [by rewrite Ho|]. destruct (Hin _ Hx) as [y Hy]. apply lookup_delete_Some in Hy as [_ Hy]. by rewrite Hy.
      * intros x. rewrite Hdom, not_elem_of_cons. destruct (decide (x = p)) as [->|Hne].
        -- rewrite lookup_delete_eq. split; [by intros [[] _]|by intros (_ & [] & _)].
        -- rewrite lookup_delete_ne by done. tauto.
    + exists (refCount o), [p], (delete p h), live'. split; [done|]. split; [done|]. split; [apply NoDup_singleton|]. split.
      * intros x ->%list_elem_of_singleton. by rewrite Ho.
      * intros x. rewrite list_elem_of_singleton. destruct (decide (x = p)) as [->|Hne].
        -- rewrite lookup_delete_eq. split; [by intros []|by intros (_ & [])].
        -- rewrite lookup_delete_ne by done. tauto.
  - exists (refCount o), [], (<[p := set_count o (u32 (refCount o - 1))]> h), live. split; [done|].
    rewrite u32_id by (unfold is_u32; lia). split; [|split; [constructor|split; [set_solver|]]].
    + eapply accounts_set; [done|done|..]; [| |lia].
      * intros q Hq. rewrite occurrences_cons, decide_False by done. lia.
      * rewrite occurrences_cons, decide_True by done. lia.
    + intros x. destruct (decide (x = p)) as [->|Hne]; [rewrite lookup_insert_eq, Ho|rewrite lookup_insert_ne by done].
      * split; [|eauto]. split; [done|set_solver].
      * set_solver.
Qed.

Lemma dec_ok os h live time now p : accounts (p :: os) h live time now ->
  exists prev cleaned h' live', dec h p ⇓ (prev, cleaned, h') /\ accounts os h' live' time now /\
    NoDup cleaned /\ (forall q, q ∈ cleaned -> is_Some (h !! q)) /\
    (forall q, is_Some (h' !! q) <-> is_Some (h !! q) /\ q ∉ cleaned).
Proof. by apply dec_fuel_ok. Qed.

Lemma inc_ok os h live time now p : p ∈ os -> accounts os h live time now ->
  exists o, h !! p = Some o /\ inc h p ⇓ (refCount o, <[p := set_count o (u32 (refCount o + 1))]> h) /\
    (refCount o < u32_max -> accounts (p :: os) (<[p := set_count o (u32 (refCount o + 1))]> h) live time now).
Proof.
  intros Hp Ha. destruct (proj1 (acc_dom _ _ _ _ _ Ha p) (acc_owners _ _ _ _ _ Ha p Hp)) as [o Ho].
  exists o. split; [done|]. unfold inc. rewrite Ho. split; [done|]. intros Hlt.
  destruct (acc_count _ _ _ _ _ Ha _ _ Ho) as [Hc Hl]. unfold u32_max in Hlt. rewrite u32_id by (unfold is_u32; lia).
  eapply accounts_set; [done|done|..]; [| |lia].
  - intros q Hq. rewrite occurrences_cons, decide_False by done. lia.
  - rewrite occurrences_cons, decide_True by done. lia.
Qed.

Lemma create_ok os l h live time now p r hd :
  h !! p = None -> hd ≡ₚ option_list (referent r) ++ os -> accounts (hd ++ l) h live time now ->
  exists time', accounts ((p :: os) ++ l) (create h p r) (p :: live) time' (now + 1).
Proof.
  intros Hp Hhd Ha. apply (accounts_perm _ _ _ _ _ (option_list (referent r) ++ os ++ l)) in Ha; [|by rewrite Hhd, <- app_assoc].
  destruct Ha as [H1 H2 H3 H4 H5 H6]. exists (fun x => if decide (x = p) then now else time x).
  assert (Hnin : p ∉ live) by (intros [x Hx]%H2; by rewrite Hx in Hp).
  assert (Hpo : forall c, c <> p -> parentOf (create h p r) c = parentOf h c) by (intros c Hc; unfold parentOf, create; by rewrite lookup_insert_ne).
  assert (Hself : parentOf (create h p r) p = referent r) by (unfold parentOf, create; by rewrite lookup_insert_eq).
  assert (Hpar : parents (create h p r) (p :: live) = option_list (referent r) ++ parents h live).
  { unfold parents. cbn. rewrite Hself. assert (E : omap (parentOf (create h p r)) live = omap (parentOf h) live).
    { apply parents_ext. intros c Hc. apply Hpo. by intros ->. }
    rewrite E. by destruct (referent r). }
  assert (Hrl : forall q, referent r = Some q -> q ∈ live).
  { intros q Hq. apply H3. rewrite Hq. set_solver. }
  split.
  - by constructor.
  - intros q. rewrite elem_of_cons, H2. unfold create. destruct (decide (q = p)) as [->|Hne]; [rewrite lookup_insert_eq|rewrite lookup_insert_ne by done].
    + split; [eauto|by left].
    + split; [by intros [?|?]|by right].
  - intros q [->|Hq]%elem_of_cons; [by left|]. right. apply H3. set_solver.
  - intros c q Hcq. destruct (decide (c = p)) as [->|Hc].
    + rewrite Hself in Hcq. pose proof (Hrl _ Hcq) as Hq. split; [by right|]. rewrite decide_False by by intros ->. by apply H5.
    + rewrite Hpo in Hcq by done. destruct (H4 _ _ Hcq) as [Hq Ht]. split; [by right|]. rewrite decide_False; [done|]. by intros ->.
  - intros q [->|Hq]%elem_of_cons; [rewrite decide_True by done; lia|]. rewrite decide_False by by intros ->. specialize (H5 _ Hq). lia.
  - intros q o Ho. rewrite Hpar, !occurrences_app, occurrences_cons. unfold create in Ho. destruct (decide (q = p)) as [->|Hne].
    + rewrite lookup_insert_eq in Ho. injection Ho as <-. cbn. rewrite decide_True by done.
      assert (Hz : forall k, k ⊆ option_list (referent r) ++ os ++ l -> occurrences k p = 0).
      { intros k Hk. apply occurrences_zero. intros Hx. apply Hnin, H3. by apply Hk. }
      rewrite (Hz os), (Hz l), (Hz (option_list (referent r))) by set_solver.
      rewrite (proj2 (occurrences_zero (parents h live) p)); [lia|]. intros (c & _ & Hc)%parents_elem. apply Hnin. by apply (H4 _ _ Hc).
    + rewrite lookup_insert_ne in Ho by done. rewrite decide_False by done. destruct (H6 _ _ Ho) as [E ?]. rewrite !occurrences_app in E. lia.
Qed.

Definition config_ok (c : config) : Prop :=
  exists live time now, accounts (held c ++ lost c) (objects c) live time now.

Lemma rstep_ok c c' : rstep c c' -> config_ok c -> config_ok c'.
Proof.
  intros [hd l h p r os Hp Hnone Hhd|hd l h p n h' Hp Hinc Hn|hd l h p prev cleaned h' os Hhd Hdec|hd l h r os Hhd];
    intros (live & time & now & Ha); cbn in *.
  - destruct (create_ok _ _ _ _ _ _ _ _ _ Hnone Hhd Ha) as (time' & Ha'). by exists (p :: live), time', (now + 1).
  - destruct (inc_ok (hd ++ l) _ _ _ _ p ltac:(set_solver) Ha) as (o & Ho & E & Ha'). rewrite Hinc in E. injection E as -> ->.
    exists live, time, now. by apply Ha'.
  - apply (accounts_perm _ _ _ _ _ (p :: os ++ l)) in Ha; [|by rewrite Hhd].
    destruct (dec_ok _ _ _ _ _ _ Ha) as (prev' & cl & h2 & live' & E & Ha' & _). rewrite Hdec in E. injection E as -> -> ->. by exists live', time, now.
  - exists live, time, now. eapply accounts_perm; [|done]. by rewrite Hhd, (Permutation_app_comm _ os), <- app_assoc.
Qed.

Lemma config_start_ok : config_ok start.
Proof.
  exists [], (fun _ => 0), 0. split; cbn.
  - constructor.
  - intros p. split; [by intros ?%elem_of_nil|by intros []].
  - by intros p ?%elem_of_nil.
  - intros c q Hq. unfold parentOf in Hq. by rewrite lookup_empty in Hq.
  - by intros p ?%elem_of_nil.
  - intros p o Ho. by rewrite lookup_empty in Ho.
Qed.

Lemma config_reachable_ok c0 c : rtc rstep c0 c -> config_ok c0 -> config_ok c.
Proof. induction 1 as [|c0 c1 c H _ IH]; [done|]. intros Hc. apply IH. by eapply rstep_ok. Qed.

Lemma oldest_last (time : Z -> Z) l : l <> [] -> exists m, m ∈ l /\ forall q, q ∈ l -> time q <= time m.
Proof.
  induction l as [|x l IH]; [done|]. intros _. destruct l as [|y l].
  - exists x. split; [set_solver|]. intros q ->%list_elem_of_singleton. lia.
  - destruct (IH ltac:(done)) as (m & Hm & Hmax). destruct (Z.le_gt_cases (time m) (time x)) as [Hle|Hgt].
    + exists x. split; [set_solver|]. intros q [->|Hq]%elem_of_cons; [lia|]. specialize (Hmax q Hq). lia.
    + exists m. split; [set_solver|]. intros q [->|Hq]%elem_of_cons; [lia|]. by apply Hmax.
Qed.

(** Without references from outside nothing lives: the youngest object has no children. *)
Lemma accounts_empty h live time now : accounts [] h live time now -> h = ∅.
Proof.
  intros Ha. destruct live as [|x live'] eqn:El.
  - apply map_eq. intros p. rewrite lookup_empty. destruct (h !! p) eqn:E; [|done].
    exfalso. assert (Hn : p ∈ []) by (apply (acc_dom _ _ _ _ _ Ha); by rewrite E). by apply elem_of_nil in Hn.
  - exfalso. destruct (oldest_last time (x :: live')) as (m & Hm & Hmax); [done|]. rewrite <- El in *.
    destruct (proj1 (acc_dom _ _ _ _ _ Ha m) Hm) as [o Ho]. destruct (acc_count _ _ _ _ _ Ha _ _ Ho) as [Hc Hl].
    assert (Hn : m ∉ parents h live); [|apply occurrences_zero in Hn; unfold occurrences in Hc at 1; cbn in Hc; lia].
    intros (c & Hc' & Hp)%parents_elem. destruct (acc_parents _ _ _ _ _ Ha _ _ Hp) as [_ Ht]. specialize (Hmax c Hc'). lia.
Qed.

(** C26: references are counted exactly.  After any history of new objects, further
    references, references given up and assignments of references: every reference that is
    held can be given up and doubled without touching an object that is gone; the count of
    an object is the number of references to it, from outside, lost ones and those of the
    objects whose parent it is; and when no reference is left, no object is. *)
Theorem references_exact c : rtc rstep start c ->
  (forall p, p ∈ held c -> (exists n h, inc (objects c) p ⇓ (n, h)) /\ exists r, dec (objects c) p ⇓ r) /\
  (exists live, (forall p, p ∈ live <-> is_Some (objects c !! p)) /\ forall p o, objects c !! p = Some o ->
     refCount o = occurrences (held c) p + occurrences (lost c) p + occurrences (parents (objects c) live) p) /\
  (held c = [] -> lost c = [] -> objects c = ∅).
Proof.
  intros (live & time & now & Ha)%config_reachable_ok; [|apply config_start_ok]. split; [|split].
  - intros p Hp. split.
    + destruct (inc_ok (held c ++ lost c) _ _ _ _ p ltac:(set_solver) Ha) as (o & _ & E & _). eauto.
    + apply list_elem_of_split in Hp as (l1 & l2 & E). apply (accounts_perm _ _ _ _ _ (p :: (l1 ++ l2) ++ lost c)) in Ha.
      * destruct (dec_ok _ _ _ _ _ _ Ha) as (prev & cleaned & h & _ & E' & _). by exists (prev, cleaned, h).
      * rewrite E. by rewrite <- Permutation_middle.
  - exists live. split; [apply Ha|]. intros p o Ho. destruct (acc_count _ _ _ _ _ Ha _ _ Ho) as [-> _]. by rewrite occurrences_app.
  - intros E1 E2. rewrite E1, E2 in Ha. by eapply accounts_empty.
Qed.

(** A reference that is overwritten by a move assignment keeps its object, and all that
    the object refers to, for ever. *)
Lemma lost_grows c c' : rtc rstep c c' -> forall p, p ∈ lost c -> p ∈ lost c'.
Proof. induction 1 as [|c c1 c' H _ IH]; [done|]. intros p Hp. apply IH. destruct H; cbn in *; set_solver. Qed.

(** An assignment leaks.  Assigning to a [SingleReference] that refers to an object
    does not count the reference down: whatever is done later, the object stays. *)
Theorem assigned_reference_leaks hd l h r p os c :
  rtc rstep start (mkConfig hd l h) -> referent r = Some p -> hd ≡ₚ p :: os ->
  rstep (mkConfig hd l h) (mkConfig os (p :: l) h) /\
  (rtc rstep (mkConfig os (p :: l) h) c -> is_Some (objects c !! p)).
Proof.
  intros Hr Hp Hhd. assert (Hs : rstep (mkConfig hd l h) (mkConfig os (p :: l) h)).
  { pose proof (rstep_assign hd l h r os) as Hs. rewrite Hp in Hs. by apply Hs. }
  split; [done|]. intros Hc. assert (Hin : p ∈ lost c) by (apply (lost_grows _ _ Hc); cbn; set_solver).
  apply config_reachable_ok in Hr; [|apply config_start_ok]. apply config_reachable_ok in Hc as (live & time & now & Ha); [|by eapply rstep_ok].
  apply (acc_dom _ _ _ _ _ Ha), (acc_owners _ _ _ _ _ Ha). set_solver.
Qed.

(** * Examples *)

(** A context, a queue with it as parent, an event with the queue as parent. *)
Definition family : heap := create (create (create ∅ 1 None) 2 (Some 1)) 3 (Some 2).

(** Giving up the event takes the queue and the context along, when nobody else holds them. *)
Example dec_cascades : dec family 3 ⇓ (1, [3; 2; 1], ∅).
Proof. by vm_compute. Qed.

Lemma family_reachable : rtc rstep start (mkConfig [3] [] family).
Proof.
  eapply rtc_l; [by apply (rstep_create [] [] ∅ 1 None [])|].
  eapply rtc_l; [by apply (rstep_create [1] [] _ 2 (Some 1) [])|].
  eapply rtc_l; [by apply (rstep_create [2] [] _ 3 (Some 2) [])|]. apply rtc_refl.
Qed.

Lemma references_exact_witness :
  let c := mkConfig [3] [] family in
  (forall p, p ∈ held c -> (exists n h, inc (objects c) p ⇓ (n, h)) /\ exists r, dec (objects c) p ⇓ r) /\
  (exists live, (forall p, p ∈ live <-> is_Some (objects c !! p)) /\ forall p o, objects c !! p = Some o ->
     refCount o = occurrences (held c) p + occurrences (lost c) p + occurrences (parents (objects c) live) p) /\
  (held c = [] -> lost c = [] -> objects c = ∅).
Proof. exact (references_exact _ family_reachable). Defined.

Lemma assigned_reference_leaks_witness : is_Some (family !! 3).
Proof.
  exact (proj2 (assigned_reference_leaks [3] [] family (Some 3) 3 [] _ family_reachable eq_refl (Permutation_refl _)) (rtc_refl _ _)).
Defined.
