(* ===== verification/PageFaults.v ===== *)
(** Shared allocations of the client, which live at the device or at the host: the page
    fault manager (client/icd/icd_page_fault_manager.h) that keeps the pages of those at the
    device inaccessible and fetches an allocation when it is touched, and the command lists
    and queues that move allocations to the device (client/icd/level_zero/icd_level_zero.cpp). *)

From stdpp Require Import relations.
From S2P Require Import Prelude.
From S2P Require Import FlatMap.
Local Open Scope Z_scope.

(** * Protection of pages

    What mprotect documents for a range of mapped pages: it changes whole pages and
    nothing else, and refuses an address that is not aligned. *)

Definition pageSize : Z := 4096.

(** The bytes of the pages of a range that begins at a page. *)
Definition paged (size : Z) : Z := (size + (pageSize - 1)) / pageSize * pageSize.

Definition inPages (ptr size a : Z) : bool := (ptr <=? a) && (a <? ptr + paged size).

Class PageProtection (K : Type) := {
  mprotect : K -> Z -> Z -> bool -> K;
  accessible : K -> Z -> bool;
}.

Class PageProtectionLaws (K : Type) `{PageProtection K} := {
  mprotect_aligned k ptr size acc a : ptr mod pageSize = 0 -> 0 < size -> 0 <= ptr -> ptr + paged size < W64 ->
    accessible (mprotect k ptr size acc) a = if inPages ptr size a then acc else accessible k a;
  mprotect_unaligned k ptr size acc : ptr mod pageSize <> 0 -> mprotect k ptr size acc = k;
}.

(** * The page fault manager *)

Inductive Placement := DEVICE | HOST.

#[export] Instance Placement_eq_dec : EqDecision Placement.
Proof. solve_decision. Defined.

Record SharedAllocDesc := mkDesc { size : Z; placement : Placement }.

Abbreviation AllocMap := (list (Z * SharedAllocDesc)).

(** The handler that was installed before. *)
Inductive PreviousHandler := SigactionHandler | DefaultHandler | IgnoreHandler | SignalHandler.

Record PageFaultManager := mkManager {
  sharedAllocationsEnabled : bool;
  sharedAllocMap : AllocMap;
  previousPageFaultHandler : PreviousHandler;
  previousHandlerRestored : bool;
}.

Definition set_map (m : PageFaultManager) (l : AllocMap) : PageFaultManager :=
  mkManager (sharedAllocationsEnabled m) l (previousPageFaultHandler m) (previousHandlerRestored m).

(** The first allocation that contains the address. *)
Fixpoint findSharedAlloc (l : AllocMap) (hostPtr : Z) : option (Z * SharedAllocDesc) :=
  match l with
  | [] => None
  | (base, d) :: l => if (base <=? hostPtr) && (hostPtr <? u64 (base + size d)) then Some (base, d) else findSharedAlloc l hostPtr
  end.

Section manager.
Context {K : Type} `{PageProtection K}.

(** The manager and the memory of the process. *)
Abbreviation state := (PageFaultManager * K)%type.

Definition registerSharedAlloc (s : state) (hostPtr allocSize : Z) (p : Placement) : state :=
  let (m, k) := s in
  if negb (sharedAllocationsEnabled m) then s
  else
    (set_map m (fm_emplace (sharedAllocMap m) hostPtr (mkDesc allocSize p)),
     if decide (p = DEVICE) then mprotect k hostPtr allocSize false else k).

Definition unregisterSharedAlloc (s : state) (hostPtr : Z) : state :=
  let (m, k) := s in
  if negb (sharedAllocationsEnabled m) || (hostPtr =? 0) then s
  else
    match findSharedAlloc (sharedAllocMap m) hostPtr with
    | None => s
    | Some (base, d) => (set_map m (fm_erase (sharedAllocMap m) base), mprotect k base (size d) true)
    end.

Definition moveAllocationToGpuImplIt (s : state) (entry : option (Z * SharedAllocDesc)) : state :=
  let (m, k) := s in
  match entry with
  | None => s
  | Some (base, d) =>
      if decide (placement d = DEVICE) then s
      else (set_map m (fm_set (sharedAllocMap m) base (mkDesc (size d) DEVICE)), mprotect k base (size d) false)
  end.

Definition moveAllocationToGpuImpl (s : state) (hostPtr : Z) : state :=
  if hostPtr =? 0 then s else moveAllocationToGpuImplIt s (findSharedAlloc (sharedAllocMap (fst s)) hostPtr).

Definition moveAllocationToGpu (s : state) (args : list Z) : state :=
  if negb (sharedAllocationsEnabled (fst s)) then s else foldl moveAllocationToGpuImpl s args.

(** The iteration over the map does not change its keys. *)
Definition moveAllAllocationsToGpu (s : state) : state :=
  if negb (sharedAllocationsEnabled (fst s)) then s
  else foldl (fun s e => moveAllocationToGpuImplIt s (Some e)) s (sharedAllocMap (fst s)).

Definition isAllocShared (s : state) (ptr : Z) : bool := bool_decide (is_Some (findSharedAlloc (sharedAllocMap (fst s)) ptr)).

(** [answered]: the service got the request and answered that it moved the memory. *)
Definition verifyPageFault (s : state) (ptr : Z) (answered : bool) : bool * state :=
  let (m, k) := s in
  match findSharedAlloc (sharedAllocMap m) ptr with
  | None => (false, s)
  | Some (base, d) =>
      if decide (placement d = HOST) then (true, s)
      else if negb answered then (false, s)
      else (true, (set_map m (fm_set (sharedAllocMap m) base (mkDesc (size d) HOST)), mprotect k base (size d) true))
  end.

(** What the handler of a fault does: it returns, so that the access is tried again, or it
    hands the fault on. *)
Inductive Handled := Retry | CallSigaction | RestoreDefault | Ignored | CallHandler.

Definition restoreHandler (s : state) : state :=
  (mkManager (sharedAllocationsEnabled (fst s)) (sharedAllocMap (fst s)) (previousPageFaultHandler (fst s)) true, snd s).

Definition pageFaultHandlerImpl (s : state) (ptr : Z) (answered : bool) : Handled * state :=
  let (neoPageFault, s) := verifyPageFault s ptr answered in
  if neoPageFault then (Retry, s)
  else match previousPageFaultHandler (fst s) with
       | SigactionHandler => (CallSigaction, s)
       | DefaultHandler => (RestoreDefault, restoreHandler s)
       | IgnoreHandler => (Ignored, s)
       | SignalHandler => (CallHandler, s)
       end.

(** An access of the application: it faults and is tried again until it succeeds or the
    fault is handed on. *)
Inductive Access := Completed (faults : nat) | HandedOn (h : Handled) | StillFaulting.

Fixpoint touch (fuel : nat) (s : state) (ptr : Z) (answered : bool) (faults : nat) : Access * state :=
  if accessible (snd s) ptr then (Completed faults, s)
  else match fuel with
       | O => (StillFaulting, s)
       | S fuel =>
           match pageFaultHandlerImpl s ptr answered with
           | (Retry, s) => touch fuel s ptr answered (S faults)
           | (h, s) => (HandedOn h, s)
           end
       end.

(** ** Command lists and queues *)

Inductive CommandListType := Regular | Immediate | ImmediateSynchronous.

#[export] Instance CommandListType_eq_dec : EqDecision CommandListType.
Proof. solve_decision. Defined.

Record IcdL0Kernel := mkKernel { kernelIndirectAccess : bool; allocationsToMigrate : list Z }.

Record IcdL0CommandList := mkCommandList {
  commandListType : CommandListType;
  sharedIndirectAccessSet : bool;
  usedAllocations : list Z;
}.

Definition isImmediate (l : IcdL0CommandList) : bool := negb (bool_decide (commandListType l = Regular)).

Definition moveSharedAllocationsToGpuImpl (ls : IcdL0CommandList * state) (ptr : Z) : IcdL0CommandList * state :=
  let (l, s) := ls in
  if isImmediate l then (l, moveAllocationToGpu s [ptr])
  else (mkCommandList (commandListType l) (sharedIndirectAccessSet l) (usedAllocations l ++ [ptr]), s).

Definition moveSharedAllocationsToGpu (l : IcdL0CommandList) (s : state) (args : list Z) : IcdL0CommandList * state :=
  foldl moveSharedAllocationsToGpuImpl (l, s) args.

Definition moveKernelArgsToGpu (l : IcdL0CommandList) (s : state) (kernel : IcdL0Kernel) : IcdL0CommandList * state :=
  if kernelIndirectAccess kernel then (l, moveAllAllocationsToGpu s)
  else moveSharedAllocationsToGpu l s (allocationsToMigrate kernel).

(** zeCommandListAppendLaunchKernel, as far as it concerns the allocations: the list
    inherits the flag of the kernel, which an immediate list loses again unless the call
    is asynchronous or fails ([early]). *)
Definition zeCommandListAppendLaunchKernel (l : IcdL0CommandList) (s : state) (kernel : IcdL0Kernel) (early : bool)
  : IcdL0CommandList * state :=
  let l := mkCommandList (commandListType l) (sharedIndirectAccessSet l || kernelIndirectAccess kernel) (usedAllocations l) in
  let (l, s) := moveKernelArgsToGpu l s kernel in
  if early then (l, s)
  else (if isImmediate l then mkCommandList (commandListType l) false (usedAllocations l) else l, s).

Definition clearUsed (l : IcdL0CommandList) : IcdL0CommandList :=
  mkCommandList (commandListType l) (sharedIndirectAccessSet l) [].

(** [IcdL0CommandQueue::moveSharedAllocationsToGpu], at the execution of lists. *)
Definition executeMoves (lists : list IcdL0CommandList) (s : state) : list IcdL0CommandList * state :=
  let indirectAccessSet := existsb sharedIndirectAccessSet lists in
  let s := if indirectAccessSet then moveAllAllocationsToGpu s else s in
  (map clearUsed lists,
   if indirectAccessSet then s else foldl (fun s l => foldl (fun s a => moveAllocationToGpu s [a]) s (usedAllocations l)) s lists).
End manager.

(** * Placement and protection agree *)

Section laws.
Context {K : Type} `{PageProtectionLaws K}.

Abbreviation state := (PageFaultManager * K)%type.

Definition entry_ok (e : Z * SharedAllocDesc) : Prop :=
  fst e mod pageSize = 0 /\ 0 < size (snd e) /\ 0 < fst e /\ fst e + paged (size (snd e)) < W64.

Definition apart (e f : Z * SharedAllocDesc) : Prop :=
  fst e + paged (size (snd e)) <= fst f \/ fst f + paged (size (snd f)) <= fst e.

Definition covers (e : Z * SharedAllocDesc) (a : Z) : Prop := fst e <= a < fst e + paged (size (snd e)).

Record in_sync (s : state) : Prop := mkSync {
  sync_enabled : sharedAllocationsEnabled (fst s) = true;
  sync_sorted : fm_sorted (sharedAllocMap (fst s));
  sync_entries : forall e, e ∈ sharedAllocMap (fst s) -> entry_ok e;
  sync_apart : forall e f, e ∈ sharedAllocMap (fst s) -> f ∈ sharedAllocMap (fst s) -> fst e <> fst f -> apart e f;
  sync_pages : forall a, accessible (snd s) a = false <->
    exists e, e ∈ sharedAllocMap (fst s) /\ placement (snd e) = DEVICE /\ covers e a;
}.

Lemma paged_le z : z <= paged z.
Proof. unfold paged, pageSize. Z.div_mod_to_equations. lia. Qed.

Lemma inPages_spec p z a : inPages p z a = true <-> p <= a < p + paged z.
Proof. unfold inPages. rewrite andb_true_iff. rewrite Z.leb_le, Z.ltb_lt. lia. Qed.

Lemma findSharedAlloc_Some l p b d : (forall e, e ∈ l -> entry_ok e) -> findSharedAlloc l p = Some (b, d) ->
  (b, d) ∈ l /\ b <= p < b + size d.
Proof.
  intros Hl. induction l as [|[b' d'] l IH]; cbn [findSharedAlloc]; [done|].
  destruct ((b' <=? p) && (p <? u64 (b' + size d'))) eqn:E.
  - intros [= -> ->]. bool_prop. destruct (Hl (b, d)) as (_ & P2 & P3 & P4); [set_solver|]. cbn in *. pose proof (paged_le (size d)).
    rewrite u64_id in * by (unfold is_u64; lia). split; [set_solver|lia].
  - intros Hf. destruct IH as [Hin Hr]; [set_solver|done|]. split; [set_solver|done].
Qed.

Lemma findSharedAlloc_cover l p b d : (forall e, e ∈ l -> entry_ok e) -> (forall e f, e ∈ l -> f ∈ l -> fst e <> fst f -> apart e f) ->
  fm_sorted l -> (b, d) ∈ l -> b <= p < b + size d -> findSharedAlloc l p = Some (b, d).
Proof.
  intros Hl Ha Hs Hin Hp. destruct (findSharedAlloc l p) as [[b' d']|] eqn:E.
  - destruct (findSharedAlloc_Some _ _ _ _ Hl E) as [Hin' Hp']. destruct (decide (b' = b)) as [->|Hne].
    + apply fm_find_elem in Hin, Hin'; [|done..]. congruence.
    + destruct (Ha (b, d) (b', d') Hin Hin' ltac:(cbn; done)); cbn in *; pose proof (paged_le (size d)); pose proof (paged_le (size d')); lia.
  - exfalso. clear Hs Ha. induction l as [|[b' d'] l IH]; [by apply elem_of_nil in Hin|]. cbn [findSharedAlloc] in E.
    destruct ((b' <=? p) && (p <? u64 (b' + size d'))) eqn:Eb; [done|]. apply elem_of_cons in Hin as [[= <- <-]|Hin].
    + destruct (Hl (b, d)) as (_ & P2 & P3 & P4); [set_solver|]. cbn in *. pose proof (paged_le (size d)).
      rewrite u64_id in Eb by (unfold is_u64; lia). apply andb_false_iff in Eb as [Eb|Eb]; bool_prop; lia.
    + apply IH; [set_solver|done|done].
Qed.

(** An allocation changes sides. *)
Lemma set_placement_sync m k b d p : in_sync (m, k) -> (b, d) ∈ sharedAllocMap m ->
  in_sync (set_map m (fm_set (sharedAllocMap m) b (mkDesc (size d) p)), mprotect k b (size d) (bool_decide (p = HOST))).
Proof.
  intros [He Hs Hl Ha Hp] Hin. cbn in *. destruct (Hl _ Hin) as (P1 & P2 & P3 & P4). cbn in *.
  assert (Hold : forall e, e ∈ fm_set (sharedAllocMap m) b (mkDesc (size d) p) ->
    exists e', e' ∈ sharedAllocMap m /\ fst e' = fst e /\ size (snd e') = size (snd e)).
  { intros e [->|[Hx _]]%elem_fm_set; [by exists (b, d)|by exists e|done]. }
  split; cbn; auto using fm_set_sorted.
  - intros e (e' & Hin' & E1 & E2)%Hold. unfold entry_ok. rewrite <- E1, <- E2. by apply Hl.
  - intros e f (e' & Hin1 & E1 & E2)%Hold (f' & Hin2 & F1 & F2)%Hold Hne. unfold apart. rewrite <- E1, <- E2, <- F1, <- F2 in *. by apply Ha.
  - intros a. rewrite mprotect_aligned by (done || lia). destruct (inPages b (size d) a) eqn:Ei.
    + apply inPages_spec in Ei. split.
      * intros Hd%bool_decide_eq_false. exists (b, mkDesc (size d) p). split; [apply elem_fm_set; auto|]. by destruct p.
      * intros (e & [->|[Hx Hne]]%elem_fm_set & Hd & Hc); [by cbn in Hd; subst| |done].
        destruct (Ha e (b, d) Hx Hin Hne) as [Hap|Hap]; unfold covers in Hc; cbn in *; lia.
    + assert (Hni : ~ (b <= a < b + paged (size d))) by (rewrite <- inPages_spec; by rewrite Ei).
      rewrite Hp. split; intros (e & Hx & Hd & Hc); exists e.
      * destruct (decide (fst e = b)) as [Eb|]; [|rewrite elem_fm_set by done; auto].
        destruct e as [b' d']. cbn in Eb; subst b'. apply fm_find_elem in Hx, Hin; [|done..]. assert (d' = d) as -> by congruence. by unfold covers in Hc.
      * apply elem_fm_set in Hx as [->|[Hx _]]; [by unfold covers in Hc|auto|done].
Qed.

Definition fits (s : state) (e : Z * SharedAllocDesc) : Prop :=
  entry_ok e /\ forall f, f ∈ sharedAllocMap (fst s) -> apart f e.

Lemma paged_pos z : 0 < z -> 0 < paged z.
Proof. intros. pose proof (paged_le z). lia. Qed.

Lemma registerSharedAlloc_sync s ptr z p : in_sync s -> fits s (ptr, mkDesc z p) -> in_sync (registerSharedAlloc s ptr z p).
Proof.
  destruct s as [m k]. intros [He Hs Hl Ha Hp] [Hok Hap]. unfold registerSharedAlloc. cbn in *. rewrite He. cbn.
  pose proof Hok as (P1 & P2 & P3 & P4). cbn in *. pose proof (paged_pos z P2) as Hz.
  assert (Hnk : forall e, e ∈ sharedAllocMap m -> fst e <> ptr).
  { intros e Hin Ee. pose proof (paged_pos _ (proj1 (proj2 (Hl e Hin)))). destruct (Hap e Hin); cbn in *; lia. }
  assert (Hf : fm_find (sharedAllocMap m) ptr = None).
  { destruct (fm_find (sharedAllocMap m) ptr) as [d|] eqn:Ef; [|done]. apply fm_find_in in Ef. by destruct (Hnk _ Ef). }
  unfold fm_emplace. rewrite Hf.
  assert (Hel : forall e, e ∈ fm_set (sharedAllocMap m) ptr (mkDesc z p) <-> e = (ptr, mkDesc z p) \/ e ∈ sharedAllocMap m).
  { intros e. rewrite elem_fm_set by done. pose proof (Hnk e). tauto. }
  split; cbn; auto using fm_set_sorted.
  - intros e [->|Hin]%Hel; auto.
  - intros e f [->|Hin]%Hel [->|Hin']%Hel Hne; [done| | |by apply Ha]; [|by apply Hap].
    destruct (Hap f Hin'); unfold apart; auto.
  - intros a. assert (Hacc : accessible (if decide (p = DEVICE) then mprotect k ptr z false else k) a =
        if bool_decide (p = DEVICE) && inPages ptr z a then false else accessible k a).
    { destruct p; [|done]. rewrite decide_True by done. by rewrite mprotect_aligned by (done || lia). }
    rewrite Hacc. destruct (bool_decide (p = DEVICE) && inPages ptr z a) eqn:Eb.
    + bool_prop. apply bool_decide_eq_true in H1 as ->. split; [intros _|done]. exists (ptr, mkDesc z DEVICE). rewrite Hel.
      split; [by left|]. split; [done|]. by apply inPages_spec.
    + rewrite Hp. split; intros (e & Hx & Hd & Hc); exists e; rewrite Hel in *; [by auto|]. destruct Hx as [->|Hx]; [|done].
      cbn in Hd. subst p. exfalso. rewrite bool_decide_eq_true_2 in Eb by done. cbn [andb] in Eb.
      unfold covers in Hc. cbn in Hc. apply inPages_spec in Hc. congruence.
Qed.

Lemma unregisterSharedAlloc_sync s ptr : in_sync s -> in_sync (unregisterSharedAlloc s ptr).
Proof.
  destruct s as [m k]. intros Hsy. pose proof Hsy as [He Hs Hl Ha Hp]. unfold unregisterSharedAlloc. cbn in *. rewrite He. cbn.
  destruct (ptr =? 0); [done|]. destruct (findSharedAlloc (sharedAllocMap m) ptr) as [[b d]|] eqn:Ef; [|done].
  apply findSharedAlloc_Some in Ef as [Hin _]; [|done]. destruct (Hl _ Hin) as (P1 & P2 & P3 & P4). cbn in *.
  split; cbn; auto using fm_erase_sorted.
  - intros e [Hx _]%elem_fm_erase. by apply Hl.
  - intros e f [Hx _]%elem_fm_erase [Hy _]%elem_fm_erase. by apply Ha.
  - intros a. rewrite mprotect_aligned by (done || lia). destruct (inPages b (size d) a) eqn:Ei.
    + apply inPages_spec in Ei. split; [done|]. intros (e & [Hx Hne]%elem_fm_erase & _ & Hc). exfalso.
      destruct (Ha e (b, d) Hx Hin Hne); unfold covers in Hc; cbn in *; lia.
    + rewrite Hp. split; intros (e & Hx & Hd & Hc); exists e; rewrite elem_fm_erase in *; [|tauto]. split; [|done]. split; [done|].
      intros Eb. destruct e as [b' d']. cbn in Eb; subst b'. apply fm_find_elem in Hx, Hin; [|done..]. assert (d' = d) as -> by congruence.
      unfold covers in Hc. cbn in Hc. apply inPages_spec in Hc. congruence.
Qed.

(** One entry moves; nothing else changes in the map. *)
Lemma moveIt_sync s b d : in_sync s -> (b, d) ∈ sharedAllocMap (fst s) ->
  in_sync (moveAllocationToGpuImplIt s (Some (b, d))) /\
  forall e, e ∈ sharedAllocMap (fst (moveAllocationToGpuImplIt s (Some (b, d)))) <->
    e = (b, mkDesc (size d) DEVICE) \/ e ∈ sharedAllocMap (fst s) /\ fst e <> b.
Proof.
  destruct s as [m k]. intros Hsy Hin. cbn [moveAllocationToGpuImplIt fst] in *. destruct (decide (placement d = DEVICE)) as [Hd|Hd].
  - split; [done|]. intros e. cbn. destruct d as [z p]. cbn in *. subst p. destruct e as [b' d'].
    pose proof (sync_sorted _ Hsy) as Hs. cbn in Hs. split; [|by intros [->|[? _]]]. intros Hx. destruct (decide (b' = b)) as [->|Hne]; [|by right].
    left. apply fm_find_elem in Hx, Hin; [|done..]. congruence.
  - split; [by apply (set_placement_sync m k b d DEVICE)|]. intros e. cbn. apply elem_fm_set. by apply (sync_sorted _ Hsy).
Qed.

Lemma moveImpl_sync s ptr : in_sync s -> in_sync (moveAllocationToGpuImpl s ptr).
Proof.
  intros Hsy. unfold moveAllocationToGpuImpl. destruct (ptr =? 0); [done|].
  destruct (findSharedAlloc (sharedAllocMap (fst s)) ptr) as [[b d]|] eqn:Ef; [|by destruct s].
  apply findSharedAlloc_Some in Ef as [Hin _]; [|apply Hsy]. by apply moveIt_sync.
Qed.

Lemma foldl_keeps {A B} (P : A -> Prop) (f : A -> B -> A) l a : (forall a b, P a -> P (f a b)) -> P a -> P (foldl f a l).
Proof. revert a. induction l as [|b l IH]; intros a Hf Ha; cbn; auto. Qed.

Lemma moveAllocationToGpu_sync s args : in_sync s -> in_sync (moveAllocationToGpu s args).
Proof.
  intros Hsy. unfold moveAllocationToGpu. destruct (negb _); [done|]. apply foldl_keeps; [|done]. intros. by apply moveImpl_sync.
Qed.

Lemma moveAll_loop l s : fm_sorted l -> in_sync s -> (forall e, e ∈ l -> e ∈ sharedAllocMap (fst s)) ->
  (forall e, e ∈ sharedAllocMap (fst s) -> e ∈ l \/ placement (snd e) = DEVICE) ->
  let s' := foldl (fun s e => moveAllocationToGpuImplIt s (Some e)) s l in
  in_sync s' /\ forall e, e ∈ sharedAllocMap (fst s') -> placement (snd e) = DEVICE.
Proof.
  intros Hl. revert s. induction Hl as [|b d l Hall Hs IH]; intros s Hsy Hin Hrest; cbn [foldl].
  - split; [done|]. intros e [Hx|]%Hrest; [by apply elem_of_nil in Hx|done].
  - destruct (moveIt_sync s b d Hsy ltac:(set_solver)) as [Hsy' Hel]. apply IH; [done| |].
    + intros e He. apply Hel. right. split; [set_solver|]. rewrite Forall_forall in Hall. specialize (Hall e He). cbn in Hall. lia.
    + intros e [->|[Hx Hne]]%Hel; [by right|]. apply Hrest in Hx as [[->|Hx]%elem_of_cons|Hx]; auto. done.
Qed.

Lemma moveAllAllocationsToGpu_sync s : in_sync s ->
  in_sync (moveAllAllocationsToGpu s) /\ forall e, e ∈ sharedAllocMap (fst (moveAllAllocationsToGpu s)) -> placement (snd e) = DEVICE.
Proof.
  intros Hsy. unfold moveAllAllocationsToGpu. rewrite (sync_enabled _ Hsy). apply moveAll_loop; [by apply sync_sorted|done|done|auto].
Qed.

Lemma verifyPageFault_sync s ptr answered : in_sync s -> in_sync (snd (verifyPageFault s ptr answered)).
Proof.
  destruct s as [m k]. intros Hsy. cbn [verifyPageFault]. destruct (findSharedAlloc (sharedAllocMap m) ptr) as [[b d]|] eqn:Ef; [|done].
  destruct (decide _); [done|]. destruct answered; cbn; [|done].
  apply findSharedAlloc_Some in Ef as [Hin _]; [|apply Hsy]. by apply (set_placement_sync m k b d HOST).
Qed.

Lemma handler_sync s ptr answered : in_sync s -> in_sync (snd (pageFaultHandlerImpl s ptr answered)).
Proof.
  intros Hsy. unfold pageFaultHandlerImpl. pose proof (verifyPageFault_sync s ptr answered Hsy) as Hv.
  destruct (verifyPageFault s ptr answered) as [[] s']; [done|]. cbn in Hv.
  destruct (previousPageFaultHandler (fst s')); cbn; try done. destruct s' as [m k], Hv as [H1 H2 H3 H4 H5]. by split.
Qed.

(** ** Histories *)

Inductive event :=
| Register (ptr z : Z) (p : Placement)
| Unregister (ptr : Z)
| Move (args : list Z)
| MoveAll
| Fault (ptr : Z) (answered : bool).

Definition happen (s : state) (e : event) : state :=
  match e with
  | Register ptr z p => registerSharedAlloc s ptr z p
  | Unregister ptr => unregisterSharedAlloc s ptr
  | Move args => moveAllocationToGpu s args
  | MoveAll => moveAllAllocationsToGpu s
  | Fault ptr answered => snd (pageFaultHandlerImpl s ptr answered)
  end.

(** The driver hands out pages that no registered allocation has. *)
Fixpoint orderly (s : state) (es : list event) : Prop :=
  match es with
  | [] => True
  | e :: es => match e with Register ptr z p => fits s (ptr, mkDesc z p) | _ => True end /\ orderly (happen s e) es
  end.

Definition unused (s : state) : Prop :=
  sharedAllocationsEnabled (fst s) = true /\ sharedAllocMap (fst s) = [] /\ forall a, accessible (snd s) a = true.

Lemma unused_sync s : unused s -> in_sync s.
Proof.
  intros (He & Hm & Ha). split; rewrite ?Hm; auto using fm_sorted_nil.
  - by intros e ?%elem_of_nil.
  - by intros e f ?%elem_of_nil.
  - intros a. rewrite Ha. split; [done|]. intros (e & Hin & _). by apply elem_of_nil in Hin.
Qed.

Lemma happen_sync s e es : in_sync s -> orderly s (e :: es) -> in_sync (happen s e) /\ orderly (happen s e) es.
Proof.
  intros Hs [He Ho]. split; [|done]. destruct e; cbn.
  - by apply registerSharedAlloc_sync.
  - by apply unregisterSharedAlloc_sync.
  - by apply moveAllocationToGpu_sync.
  - by apply moveAllAllocationsToGpu_sync.
  - by apply handler_sync.
Qed.

Lemma history_sync s es : in_sync s -> orderly s es -> in_sync (foldl happen s es).
Proof.
  revert s. induction es as [|e es IH]; intros s Hs Ho; cbn; [done|]. destruct (happen_sync _ _ _ Hs Ho) as [Hs' Ho']. by apply IH.
Qed.

(** C27: placement and protection agree.  After any history of allocations, frees, moves to
    the device and faults, answered or not, the pages of an allocation are accessible when
    it is placed at the host and not when it is placed at the device, and all memory
    outside of allocations is accessible. *)
Theorem placement_is_protection s es : unused s -> orderly s es ->
  let s' := foldl happen s es in
  (forall b d a, (b, d) ∈ sharedAllocMap (fst s') -> b <= a < b + paged (size d) ->
     accessible (snd s') a = bool_decide (placement d = HOST)) /\
  (forall a, (forall e, e ∈ sharedAllocMap (fst s') -> ~ covers e a) -> accessible (snd s') a = true).
Proof.
  intros Hu Ho s'. assert (Hs : in_sync s') by (apply history_sync; [by apply unused_sync|done]). clearbody s'. clear Hu Ho.
  destruct Hs as [He Hs Hl Ha Hp]. split.
  - intros b d a Hin Hc. destruct (accessible (snd s') a) eqn:E.
    + symmetry. apply bool_decide_eq_true. destruct (placement d) eqn:Ed; [|done]. exfalso.
      assert (Hx : accessible (snd s') a = false) by (apply Hp; exists (b, d); auto). congruence.
    + apply Hp in E as (e & Hx & Hd & Hce). destruct (decide (fst e = b)) as [Eb|Hne].
      * destruct e as [b' d']. cbn in *. subst b'. apply fm_find_elem in Hx, Hin; [|done..]. assert (d' = d) as -> by congruence. by rewrite Hd.
      * destruct (Ha e (b, d) Hx Hin Hne); unfold covers in Hce; cbn in *; lia.
  - intros a Hn. destruct (accessible (snd s') a) eqn:E; [done|]. apply Hp in E as (e & Hx & _ & Hc). by destruct (Hn e Hx).
Qed.

Lemma touch_sync s a : in_sync s -> (forall e, e ∈ sharedAllocMap (fst s) -> covers e a -> a < fst e + size (snd e)) ->
  exists n s', touch 1 s a true 0 = (Completed n, s') /\ (n <= 1)%nat /\ in_sync s' /\ accessible (snd s') a = true /\
    (forall e, e ∈ sharedAllocMap (fst s') <->
       exists e', e' ∈ sharedAllocMap (fst s) /\ fst e = fst e' /\ size (snd e) = size (snd e') /\
         (covers e' a /\ placement (snd e) = HOST \/ ~ covers e' a /\ placement (snd e) = placement (snd e'))).
Proof.
  intros Hsy Ha. destruct s as [m k]. pose proof Hsy as [He Hs Hl Hap Hp]. cbn [fst snd] in *.
  destruct (accessible k a) eqn:Eacc.
  - exists 0%nat, (m, k). cbn [touch snd]. rewrite Eacc. split; [done|]. split; [lia|]. split; [done|]. split; [done|].
    intros e. cbn [fst]. split; [|intros (e' & Hin & E1 & E2 & [[Hc Hh]|[Hc Hh]])].
    + intros Hin. exists e. split; [done|]. split; [done|]. split; [done|].
      destruct (decide (fst e <= a < fst e + paged (size (snd e)))) as [Hc|Hc]; [left|by right]. split; [done|].
      destruct (placement (snd e)) eqn:Ed; [|done]. assert (Hx : accessible k a = false) by (apply Hp; by exists e). congruence.
    + destruct e as [b [z p]], e' as [b' [z' p']]. cbn in *. subst. destruct p'; [|done].
      assert (Hx : accessible k a = false) by (apply Hp; by eexists). congruence.
    + destruct e as [b [z p]], e' as [b' [z' p']]. cbn in *. by subst.
  - destruct (proj1 (Hp a) Eacc) as ([b d] & Hin & Hd & Hc). pose proof (Ha _ Hin Hc) as Hlt. unfold covers in Hc. cbn in *.
    assert (Hf : findSharedAlloc (sharedAllocMap m) a = Some (b, d)) by (apply findSharedAlloc_cover; auto; lia).
    destruct (Hl _ Hin) as (P1 & P2 & P3 & P4). cbn in *.
    exists 1%nat, (set_map m (fm_set (sharedAllocMap m) b (mkDesc (size d) HOST)), mprotect k b (size d) true).
    assert (Hacc : accessible (mprotect k b (size d) true) a = true).
    { rewrite mprotect_aligned by (done || lia). by rewrite (proj2 (inPages_spec _ _ _)). }
    cbn [touch snd]. rewrite Eacc. unfold pageFaultHandlerImpl, verifyPageFault. rewrite Hf, Hd, decide_False by done.
    cbn [negb fst snd]. rewrite Hacc. split; [done|]. split; [lia|].
    split; [by apply (set_placement_sync m k b d HOST)|]. split; [done|]. intros e. cbn [fst set_map sharedAllocMap]. rewrite elem_fm_set by done. split.
    + intros [->|[Hx Hne]]; [exists (b, d); split; [done|]; split; [done|]; split; [done|]; left; split; [exact Hc|done]|]. exists e. split; [done|]. split; [done|]. split; [done|]. right. split; [|done].
      intros Hce. destruct (Hap e (b, d) Hx Hin Hne); unfold covers in Hce; cbn in *; lia.
    + intros (e' & Hx & E1 & E2 & Hcase). destruct (decide (fst e' = b)) as [Eb|Hne].
      * left. destruct e' as [b' d']. cbn in Eb; subst b'. apply fm_find_elem in Hx, Hin; [|done..]. assert (d' = d) as -> by congruence.
        destruct Hcase as [[_ Hh]|[Hn _]]; [|exfalso; apply Hn; unfold covers; cbn; lia]. destruct e as [b' [z p]]. cbn in *. by subst.
      * right. assert (Hn : ~ covers e' a).
        { intros Hce. destruct (Hap e' (b, d) Hx Hin Hne); unfold covers in Hce; cbn in *; lia. }
        destruct Hcase as [[Hce _]|[_ Hh]]; [done|]. destruct e as [b' [z p]], e' as [b2 [z2 p2]]. cbn in *. by subst.
Qed.

(** C28: an access succeeds after at most one fault.  After any history, when the
    application touches memory that is outside of the pages of shared allocations or in one
    of them, and the service answers, the access completes after at most one fault; the
    allocation is then placed at the host and the others are where they were. *)
Theorem access_completes s es a : unused s -> orderly s es ->
  (forall e, e ∈ sharedAllocMap (fst (foldl happen s es)) -> covers e a -> a < fst e + size (snd e)) ->
  exists n s', touch 1 (foldl happen s es) a true 0 = (Completed n, s') /\ (n <= 1)%nat /\ accessible (snd s') a = true /\
    (forall e, e ∈ sharedAllocMap (fst s') <->
       exists e', e' ∈ sharedAllocMap (fst (foldl happen s es)) /\ fst e = fst e' /\ size (snd e) = size (snd e') /\
         (covers e' a /\ placement (snd e) = HOST \/ ~ covers e' a /\ placement (snd e) = placement (snd e'))).
Proof.
  intros Hu Ho Ha. destruct (touch_sync (foldl happen s es) a) as (n & s' & H1 & H2 & _ & H3 & H4); [|done|by exists n, s'].
  apply history_sync; [by apply unused_sync|done].
Qed.

(** An unanswered fault is handed on, and nothing moves. *)
Lemma unanswered_fault s a b d fuel : in_sync s -> accessible (snd s) a = false ->
  findSharedAlloc (sharedAllocMap (fst s)) a = Some (b, d) -> placement d = DEVICE ->
  exists h s', touch (S fuel) s a false 0 = (HandedOn h, s') /\ sharedAllocMap (fst s') = sharedAllocMap (fst s) /\ snd s' = snd s.
Proof.
  destruct s as [m k]. cbn [fst snd]. intros _ Hacc Hf Hd. cbn [touch snd]. rewrite Hacc. unfold pageFaultHandlerImpl, verifyPageFault.
  rewrite Hf, Hd, decide_False by done. cbn [negb fst snd]. destruct (previousPageFaultHandler m); (eexists _, _; split; [reflexivity|done]).
Qed.

(** A stale entry: when an allocation at the host was not unregistered and the driver
    hands its address out again for one at the device, the old entry stays while the pages
    are protected: every access to both faults for ever, because the handler finds that
    the memory is at the host already. *)
Theorem stale_entry_faults_forever s b d z a fuel n : in_sync s -> (b, d) ∈ sharedAllocMap (fst s) -> placement d = HOST ->
  0 < z -> b + paged z < W64 -> b <= a < b + size d -> a < b + z ->
  fst (touch fuel (registerSharedAlloc s b z DEVICE) a true n) = StillFaulting.
Proof.
  destruct s as [m k]. intros Hsy Hin Hd Hz Hfit Ha Haz. pose proof Hsy as [He Hs Hl Hap Hp]. cbn in *.
  destruct (Hl _ Hin) as (P1 & P2 & P3 & P4). cbn in *. unfold registerSharedAlloc. rewrite He. cbn.
  assert (Hfd : fm_find (sharedAllocMap m) b = Some d) by by apply fm_find_elem. unfold fm_emplace. rewrite Hfd, decide_True by done.
  assert (Hacc : accessible (mprotect k b z false) a = false).
  { rewrite mprotect_aligned by (done || lia). rewrite (proj2 (inPages_spec _ _ _)); [done|]. pose proof (paged_le z). lia. }
  assert (Hf : findSharedAlloc (sharedAllocMap m) a = Some (b, d)) by by apply findSharedAlloc_cover.
  revert n. induction fuel as [|fuel IH]; intros n; cbn [touch snd fst]; rewrite Hacc; [done|].
  unfold pageFaultHandlerImpl, verifyPageFault. cbn [set_map sharedAllocMap]. rewrite Hf, Hd, decide_True by done. apply IH.
Qed.

(** ** Execution of command lists *)

(** Allocations stay, and go to the device at most. *)
Definition moved (s s' : state) : Prop :=
  in_sync s' /\ forall b d, (b, d) ∈ sharedAllocMap (fst s) ->
    exists p, (b, mkDesc (size d) p) ∈ sharedAllocMap (fst s') /\ (p = placement d \/ p = DEVICE).

Lemma moved_refl s : in_sync s -> moved s s.
Proof. intros Hs. split; [done|]. intros b [z p] Hin. exists p. auto. Qed.

Lemma moved_trans s1 s2 s3 : moved s1 s2 -> moved s2 s3 -> moved s1 s3.
Proof.
  intros [_ H1] [Hs H2]. split; [done|]. intros b d (p & Hp & Ep)%H1. destruct (H2 _ _ Hp) as (q & Hq & Eq). cbn in *.
  exists q. split; [done|]. naive_solver.
Qed.

Lemma moveIt_moved s b d : in_sync s -> (b, d) ∈ sharedAllocMap (fst s) -> moved s (moveAllocationToGpuImplIt s (Some (b, d))).
Proof.
  intros Hs Hin. destruct (moveIt_sync _ _ _ Hs Hin) as [Hs' Hel]. split; [done|]. intros b' d' Hin'.
  destruct (decide (b' = b)) as [->|Hne].
  - apply fm_find_elem in Hin, Hin'; [|by apply sync_sorted..]. assert (d' = d) as -> by congruence. exists DEVICE. split; [|by right]. apply Hel. by left.
  - exists (placement d'). split; [|by left]. apply Hel. right. destruct d'. by split.
Qed.

Lemma moveAllocationToGpu_moved s a : in_sync s -> moved s (moveAllocationToGpu s [a]).
Proof.
  intros Hs. unfold moveAllocationToGpu. rewrite (sync_enabled _ Hs). cbn. unfold moveAllocationToGpuImpl. destruct (a =? 0); [by apply moved_refl|].
  destruct (findSharedAlloc (sharedAllocMap (fst s)) a) as [[b d]|] eqn:Ef; [|destruct s; by apply moved_refl].
  apply findSharedAlloc_Some in Ef as [Hin _]; [|apply Hs]. by apply moveIt_moved.
Qed.

Lemma moveAllocationToGpu_device s a b d : in_sync s -> a <> 0 -> (b, d) ∈ sharedAllocMap (fst s) -> b <= a < b + size d ->
  (b, mkDesc (size d) DEVICE) ∈ sharedAllocMap (fst (moveAllocationToGpu s [a])).
Proof.
  intros Hs Ha Hin Hr. unfold moveAllocationToGpu. rewrite (sync_enabled _ Hs). cbn [negb foldl]. unfold moveAllocationToGpuImpl.
  rewrite (proj2 (Z.eqb_neq a 0)) by done. rewrite (findSharedAlloc_cover _ _ b d) by (done || apply Hs).
  apply (moveIt_sync _ _ _ Hs Hin). by left.
Qed.

Lemma moves_moved s l : in_sync s -> moved s (foldl (fun s a => moveAllocationToGpu s [a]) s l).
Proof.
  revert s. induction l as [|a l IH]; intros s Hs; cbn [foldl]; [by apply moved_refl|].
  pose proof (moveAllocationToGpu_moved s a Hs) as Hm. eapply moved_trans; [done|]. apply IH, Hm.
Qed.

Lemma device_stays s s' b z : moved s s' -> (b, mkDesc z DEVICE) ∈ sharedAllocMap (fst s) -> (b, mkDesc z DEVICE) ∈ sharedAllocMap (fst s').
Proof. intros [_ Hm] (p & Hp & [->| ->])%Hm; done. Qed.

Lemma moves_device s l a b d : in_sync s -> a ∈ l -> a <> 0 -> (b, d) ∈ sharedAllocMap (fst s) -> b <= a < b + size d ->
  (b, mkDesc (size d) DEVICE) ∈ sharedAllocMap (fst (foldl (fun s a => moveAllocationToGpu s [a]) s l)).
Proof.
  revert s d. induction l as [|x l IH]; intros s d Hs Hin Ha Hb Hr; [by apply elem_of_nil in Hin|]. cbn [foldl].
  pose proof (moveAllocationToGpu_moved s x Hs) as Hm. apply elem_of_cons in Hin as [->|Hin].
  - eapply device_stays; [apply moves_moved, Hm|]. by apply moveAllocationToGpu_device.
  - destruct (proj2 Hm _ _ Hb) as (p & Hp & _). apply (IH _ (mkDesc (size d) p)); [apply Hm|done..].
Qed.

Lemma lists_moved (lists : list IcdL0CommandList) s : in_sync s ->
  moved s (foldl (fun s l => foldl (fun s a => moveAllocationToGpu s [a]) s (usedAllocations l)) s lists).
Proof.
  revert s. induction lists as [|l lists IH]; intros s Hs; cbn [foldl]; [by apply moved_refl|].
  pose proof (moves_moved s (usedAllocations l) Hs) as Hm. eapply moved_trans; [done|]. apply IH, Hm.
Qed.

Lemma moveAll_loop_moved l s : fm_sorted l -> in_sync s -> (forall e, e ∈ l -> e ∈ sharedAllocMap (fst s)) ->
  moved s (foldl (fun s e => moveAllocationToGpuImplIt s (Some e)) s l).
Proof.
  intros Hl. revert s. induction Hl as [|b d l Hall Hs IH]; intros s Hsy Hin; cbn [foldl]; [by apply moved_refl|].
  pose proof (moveIt_moved s b d Hsy ltac:(set_solver)) as Hm. eapply moved_trans; [done|]. apply IH; [apply Hm|].
  intros e He. apply (moveIt_sync s b d Hsy ltac:(set_solver)). right. split; [set_solver|].
  rewrite Forall_forall in Hall. specialize (Hall e He). cbn in Hall. lia.
Qed.

Lemma moveAllAllocationsToGpu_moved s : in_sync s -> moved s (moveAllAllocationsToGpu s).
Proof.
  intros Hs. unfold moveAllAllocationsToGpu. rewrite (sync_enabled _ Hs). cbn [negb].
  apply moveAll_loop_moved; [by apply sync_sorted|done|done].
Qed.

Lemma executeMoves_device lists s l a b d : in_sync s -> l ∈ lists -> a ∈ usedAllocations l -> a <> 0 ->
  (b, d) ∈ sharedAllocMap (fst s) -> b <= a < b + size d ->
  in_sync (snd (executeMoves lists s)) /\ (b, mkDesc (size d) DEVICE) ∈ sharedAllocMap (fst (snd (executeMoves lists s))).
Proof.
  intros Hs Hl Hin Ha Hb Hr. unfold executeMoves. destruct (existsb sharedIndirectAccessSet lists); cbn [snd].
  - pose proof (moveAllAllocationsToGpu_moved s Hs) as Hmv.
    split; [apply Hmv|]. destruct (proj2 Hmv _ _ Hb) as (p & Hp & _).
    pose proof (proj2 (moveAllAllocationsToGpu_sync s Hs) _ Hp) as Hd. cbn in Hd. by subst p.
  - revert s d Hs Hb Hr. induction lists as [|l' lists IH]; intros s d Hs Hb Hr; [by apply elem_of_nil in Hl|]. cbn [foldl].
    pose proof (moves_moved s (usedAllocations l') Hs) as Hm. apply elem_of_cons in Hl as [->|Hl].
    + pose proof (lists_moved lists _ (proj1 Hm)) as Hm'. split; [apply Hm'|]. eapply device_stays; [done|]. by eapply moves_device.
    + destruct (proj2 Hm _ _ Hb) as (p & Hp & _). by apply (IH Hl _ (mkDesc (size d) p)); [apply Hm|..].
Qed.

(** what a list uses is at the device when it is executed.  Executing command lists
    moves every registered allocation that a list uses, or all of them for a kernel with
    indirect access, to the device and protects it. *)
Theorem executed_allocations_at_device s es lists l a b d : unused s -> orderly s es ->
  let s1 := foldl happen s es in let s2 := snd (executeMoves lists s1) in
  l ∈ lists -> a ∈ usedAllocations l -> a <> 0 -> (b, d) ∈ sharedAllocMap (fst s1) -> b <= a < b + size d ->
  (b, mkDesc (size d) DEVICE) ∈ sharedAllocMap (fst s2) /\ accessible (snd s2) a = false.
Proof.
  intros Hu Ho s1 s2 Hl Hin Ha Hb Hr. destruct (executeMoves_device lists s1 l a b d) as [Hs Hx]; [|done..|].
  { apply history_sync; [by apply unused_sync|done]. }
  split; [done|]. apply (sync_pages _ Hs). eexists. split; [done|]. split; [done|]. unfold covers. cbn. pose proof (paged_le (size d)). lia.
Qed.

(** The next execution of the same lists moves nothing.  Execution forgets which
    allocations a list uses, though a list may be executed again: what the host fetched
    in between stays at the host. *)
Theorem second_execution_moves_nothing lists (s s' : state) : existsb sharedIndirectAccessSet lists = false ->
  executeMoves (fst (executeMoves lists s)) s' = (fst (executeMoves lists s), s').
Proof.
  intros Hn. unfold executeMoves at 1. cbn [fst executeMoves].
  assert (E : existsb sharedIndirectAccessSet (map clearUsed lists) = false).
  { rewrite <- Hn. clear. induction lists as [|l lists IH]; cbn; [done|]. by rewrite IH. }
  unfold executeMoves. cbn [fst]. rewrite E. f_equal.
  - rewrite map_map. apply map_ext. done.
  - clear. revert s'. induction lists as [|l lists IH]; intros s'; cbn; [done|]. apply IH.
Qed.
End laws.

(** * Examples *)

Module ToyPages.

(** Memory as the function that tells which addresses are accessible. *)
#[export] Instance toyProtection : PageProtection (Z -> bool) := {
  mprotect k ptr size acc := if ptr mod pageSize =? 0 then (fun a => if inPages ptr size a then acc else k a) else k;
  accessible k a := k a;
}.

#[export] Instance toyLaws : PageProtectionLaws (Z -> bool).
Proof.
  split; intros; cbn.
  - by rewrite (proj2 (Z.eqb_eq _ _)).
  - by rewrite (proj2 (Z.eqb_neq _ _)).
Qed.

Definition empty : PageFaultManager * (Z -> bool) := (mkManager true [] DefaultHandler false, fun _ => true).

Definition twoAllocations : list event := [Register 4096 100 DEVICE; Register 8192 5000 HOST; Move [8200]; Fault 4100 true].

Lemma empty_unused : unused empty.
Proof. by split. Qed.

Lemma twoAllocations_orderly : orderly empty twoAllocations.
Proof.
  cbn -[happen]. split; [|split; [|done]]; (split; [by vm_compute|]).
  - by intros f ?%elem_of_nil.
  - intros f ->%list_elem_of_singleton. left. by vm_compute.
Qed.

Definition final : PageFaultManager * (Z -> bool) := foldl happen empty twoAllocations.

Example final_map : sharedAllocMap (fst final) = [(4096, mkDesc 100 HOST); (8192, mkDesc 5000 DEVICE)].
Proof. by vm_compute. Qed.

Lemma placement_is_protection_witness :
  accessible (snd final) 4100 = true /\ accessible (snd final) 9000 = false /\ accessible (snd final) 100 = true.
Proof.
  destruct (placement_is_protection empty twoAllocations empty_unused twoAllocations_orderly) as [Hp Hf].
  split; [|split].
  - by apply (Hp 4096 (mkDesc 100 HOST) 4100); [rewrite list_elem_of_In; left|vm_compute].
  - by apply (Hp 8192 (mkDesc 5000 DEVICE) 9000); [rewrite list_elem_of_In; right; left|vm_compute].
  - apply Hf. intros e [->| ->%list_elem_of_singleton]%elem_of_cons [Hx _]; by apply Hx.
Defined.

Lemma access_completes_witness :
  exists n s', touch 1 final 9000 true 0 = (Completed n, s') /\ (n <= 1)%nat /\ accessible (snd s') 9000 = true.
Proof.
  destruct (access_completes empty twoAllocations 9000 empty_unused twoAllocations_orderly) as (n & s' & H1 & H2 & H3 & _).
  - intros e [->| ->%list_elem_of_singleton]%elem_of_cons [Hx Hy]; [by vm_compute in Hy|by vm_compute].
  - by exists n, s'.
Defined.

Lemma final_sync : in_sync final.
Proof. apply history_sync; [by apply unused_sync, empty_unused|apply twoAllocations_orderly]. Qed.

Lemma stale_entry_faults_forever_witness :
  fst (touch 1000 (registerSharedAlloc final 4096 64 DEVICE) 4100 true 0) = StillFaulting.
Proof.
  exact (stale_entry_faults_forever final 4096 (mkDesc 100 HOST) 64 4100 1000 0 final_sync
    ltac:(apply list_elem_of_In; left; reflexivity) eq_refl ltac:(lia) ltac:(by vm_compute) ltac:(cbn; lia) ltac:(lia)).
Defined.

Definition usesFirst : IcdL0CommandList := mkCommandList Regular false [4100].

Lemma executed_allocations_at_device_witness :
  (4096, mkDesc 100 DEVICE) ∈ sharedAllocMap (fst (snd (executeMoves [usesFirst] final))) /\
  accessible (snd (snd (executeMoves [usesFirst] final))) 4100 = false.
Proof.
  exact (executed_allocations_at_device empty twoAllocations [usesFirst] usesFirst 4100 4096 (mkDesc 100 HOST)
    empty_unused twoAllocations_orderly ltac:(set_solver) ltac:(set_solver) ltac:(lia)
    ltac:(apply list_elem_of_In; left; reflexivity) ltac:(cbn; lia)).
Defined.

(** The allocation is fetched between two executions of the list and stays at the host. *)
Definition fetched : PageFaultManager * (Z -> bool) := happen (snd (executeMoves [usesFirst] final)) (Fault 4100 true).

Lemma second_execution_moves_nothing_witness :
  sharedAllocMap (fst (snd (executeMoves (fst (executeMoves [usesFirst] final)) fetched))) = [(4096, mkDesc 100 HOST); (8192, mkDesc 5000 DEVICE)].
Proof.
  rewrite (second_execution_moves_nothing [usesFirst] final fetched eq_refl). by vm_compute.
Defined.
End ToyPages.
