(* ===== verification/Transfers.v ===== *)
(** How data of the client that is not shared reaches the service and comes back: the
    chunks of client memory that a command list remembers, the transfers that write them to
    shared memory before execution (client/icd/level_zero/icd_level_zero.cpp,
    client/client_platform.h, service/service.cpp) and the transfers that bring finished
    copies back (client/icd/level_zero/logic/hostptr_copies_reader.cpp). *)

From stdpp Require Import gmap.
From S2P Require Import Prelude.
From S2P Require Import Align.
From S2P Require Import Ranges.
From S2P Require Import Ring.
From S2P Require Import Layout.
From S2P Require Import Messages.
From S2P Require Import Channel.
From S2P Require Import Kernel.
From S2P Require Import SubAlloc.
From S2P Require Import Shmem.
From S2P Require Import MemBlocks.
From S2P Require Import ClientContext.
From S2P Require Import EventTrackers.
Local Open Scope Z_scope.

(** * The memory that a command list has to write *)

Definition rangesOverlap (srcPtr srcSize dstPtr dstSize : Z) : bool :=
  let srcEnd := u64 (srcPtr + srcSize) in
  let dstEnd := u64 (dstPtr + dstSize) in
  ((srcPtr <=? dstPtr) && (dstPtr <? srcEnd)) || ((dstPtr <=? srcPtr) && (srcPtr <? dstEnd)).

Definition mergeChunks (first second : AddressRange) : res AddressRange :=
  let firstEnd := u64 (start first + rsize first) in
  let secondEnd := u64 (start second + rsize second) in
  let mergedBegin := Z.min (start first) (start second) in
  let mergedEnd := Z.max firstEnd secondEnd in
  rangeOfSize mergedBegin (u64 (mergedEnd - mergedBegin)).

(** The first element that satisfies [p] is replaced. *)
Fixpoint update_first {A} (p : A -> bool) (f : A -> res A) (l : list A) : res (list A) :=
  match l with
  | [] => Undef
  | x :: l => if p x then y ← f x; Ret (y :: l) else l ← update_first p f l; Ret (x :: l)
  end.

Fixpoint mergeLoop (overlaps : AddressRange -> bool) (currentChunk : AddressRange) (memory newChunks : list AddressRange)
  : res (list AddressRange) :=
  match memory with
  | [] => Ret (newChunks ++ [currentChunk])
  | chunk :: memory =>
      if negb (overlaps chunk) then mergeLoop overlaps currentChunk memory (newChunks ++ [chunk])
      else currentChunk ← mergeChunks currentChunk chunk; mergeLoop overlaps currentChunk memory newChunks
  end.

Definition registerMemoryToContainer (ptr size : Z) (memory : list AddressRange) : res (list AddressRange) :=
  let overlaps chunk := rangesOverlap (start chunk) (rsize chunk) ptr size in
  let overlappingCount := length (List.filter overlaps memory) in
  match overlappingCount with
  | O => c ← rangeOfSize ptr size; Ret (memory ++ [c])
  | 1%nat => update_first overlaps (fun chunk => c ← rangeOfSize ptr size; mergeChunks c chunk) memory
  | _ => currentChunk ← rangeOfSize ptr size; mergeLoop overlaps currentChunk memory []
  end.

(** ** The chunks stay disjoint and cover what was registered *)

Definition chunk_ok (c : AddressRange) : Prop := 0 <= start c /\ start c < end_ c /\ end_ c < W64.

Definition inside (c : AddressRange) (a : Z) : Prop := start c <= a < end_ c.

Fixpoint pairwise (l : list AddressRange) : Prop :=
  match l with [] => True | c :: l => Forall (disjoint c) l /\ pairwise l end.

Definition chunks_ok (l : list AddressRange) : Prop := Forall chunk_ok l /\ pairwise l.

Lemma rsize_ok c : chunk_ok c -> rsize c = end_ c - start c /\ u64 (start c + rsize c) = end_ c.
Proof.
  intros (H1 & H2 & H3). unfold rsize. rewrite (u64_id (end_ c - start c)) by (unfold is_u64; lia). split; [done|].
  replace (start c + (end_ c - start c)) with (end_ c) by lia. apply u64_id. unfold is_u64. lia.
Qed.

Lemma overlap_spec c d : chunk_ok c -> chunk_ok d -> rangesOverlap (start c) (rsize c) (start d) (rsize d) = negb (bool_decide (disjoint c d)).
Proof.
  intros Hc Hd. unfold rangesOverlap. rewrite (proj2 (rsize_ok c Hc)), (proj2 (rsize_ok d Hd)).
  destruct Hc as (H1 & H2 & H3), Hd as (H4 & H5 & H6). unfold disjoint.
  destruct (bool_decide _) eqn:E; cbn [negb].
  - apply bool_decide_eq_true in E.
    destruct (Z.leb_spec (start c) (start d)), (Z.ltb_spec (start d) (end_ c)), (Z.leb_spec (start d) (start c)), (Z.ltb_spec (start c) (end_ d)); cbn; try done; lia.
  - apply bool_decide_eq_false in E.
    destruct (Z.leb_spec (start c) (start d)), (Z.ltb_spec (start d) (end_ c)), (Z.leb_spec (start d) (start c)), (Z.ltb_spec (start c) (end_ d)); cbn; try done; lia.
Qed.

Lemma merge_ok c d : chunk_ok c -> chunk_ok d -> ~ disjoint c d ->
  exists e, mergeChunks c d ⇓ e /\ chunk_ok e /\ (forall a, inside e a <-> inside c a \/ inside d a) /\
    forall x, chunk_ok x -> disjoint c x -> disjoint d x -> disjoint e x.
Proof.
  intros Hc Hd Hn. unfold mergeChunks. rewrite (proj2 (rsize_ok c Hc)), (proj2 (rsize_ok d Hd)).
  destruct Hc as (H1 & H2 & H3), Hd as (H4 & H5 & H6).
  exists (mkRange (Z.min (start c) (start d)) (Z.max (end_ c) (end_ d))). split; [|split; [|split]].
  - unfold rangeOfSize. rewrite (u64_id (_ - _)) by (unfold is_u64; lia).
    replace (_ + _) with (Z.max (end_ c) (end_ d)) by lia. rewrite u64_id by (unfold is_u64; lia). apply makeRange_ok. lia.
  - unfold chunk_ok. cbn. lia.
  - intros a. unfold inside, disjoint in *. cbn. lia.
  - intros x (H7 & H8 & H9). unfold disjoint in *. cbn. lia.
Qed.

(** A merge with every chunk that overlaps. *)
Lemma mergeLoop_ok n cur l acc : chunk_ok n -> chunk_ok cur -> Forall chunk_ok l -> Forall chunk_ok acc ->
  (forall x, x ∈ l -> ~ disjoint x n -> ~ disjoint cur x) ->
  (forall a, inside n a -> inside cur a) ->
  let overlaps chunk := rangesOverlap (start chunk) (rsize chunk) (start n) (rsize n) in
  exists cur', mergeLoop overlaps cur l acc ⇓ (acc ++ List.filter (fun c => negb (overlaps c)) l ++ [cur']) /\ chunk_ok cur' /\
    (forall a, inside cur' a <-> inside cur a \/ exists c, c ∈ l /\ overlaps c = true /\ inside c a) /\
    (forall x, chunk_ok x -> disjoint cur x -> (forall c, c ∈ l -> overlaps c = true -> disjoint c x) -> disjoint cur' x).
Proof.
  intros Hn Hcur Hl. revert cur acc Hcur. induction Hl as [|c l Hc Hl IH]; intros cur acc Hcur Hacc Hov Hin overlaps; cbn [mergeLoop List.filter].
  - exists cur. split; [by rewrite app_nil_l|]. split; [done|]. split; [|auto]. intros a. split; [by left|]. intros [|(c & Hc & _)]; [done|].
    by apply elem_of_nil in Hc.
  - destruct (overlaps c) eqn:E; cbn [negb].
    + assert (Hnd : ~ disjoint c n).
      { unfold overlaps in E. rewrite overlap_spec in E by done. apply negb_true_iff, bool_decide_eq_false in E. done. }
      destruct (merge_ok cur c Hcur Hc (Hov c ltac:(set_solver) Hnd)) as (e & -> & He & Hea & Hed). cbn [mbind res_bind].
      destruct (IH e acc He Hacc) as (cur' & Hr & H1 & H2 & H3).
      * intros x Hx Hxn Hd. apply (Hov x ltac:(set_solver) Hxn). rewrite Forall_forall in Hl. destruct (Hl x Hx) as (X1 & X2 & X3).
        destruct Hcur as (C1 & C2 & C3), He as (E1 & E2 & E3). pose proof (proj2 (Hea (start cur)) ltac:(left; unfold inside; lia)) as Hs.
        pose proof (proj2 (Hea (end_ cur - 1)) ltac:(left; unfold inside; lia)) as He'. unfold inside, disjoint in *. lia.
      * intros a Ha. apply Hea. left. auto.
      * exists cur'. split; [done|]. split; [done|]. split.
        -- intros a. rewrite H2, Hea. split.
           ++ intros [[H|H]|(x & Hx & Hxo & Hxa)]; [by left| |]; right; [exists c|exists x]; (split; [set_solver|done]).
           ++ intros [H|(x & [->|Hx]%elem_of_cons & Hxo & Hxa)]; [by left; left|by left; right|]. right. by exists x.
        -- intros x Hx Hdx Hall. apply H3; [done| |intros; apply Hall; [set_solver|done]]. apply Hed; [done|done|]. apply Hall; [set_solver|done].
    + destruct (IH cur (acc ++ [c]) Hcur) as (cur' & Hr & H1 & H2 & H3); [by apply Forall_app; auto|intros; apply Hov; set_solver|done|].
      exists cur'. split; [etransitivity; [exact Hr|by rewrite <- app_assoc]|]. split; [done|]. split.
      * intros a. rewrite H2. split; (intros [H|(x & Hx & Hxo & Hxa)]; [by left|right; exists x]).
        -- by split; [set_solver|].
        -- apply elem_of_cons in Hx as [->|Hx]; [congruence|done].
      * intros x Hx Hdx Hall. apply H3; [done|done|]. intros; apply Hall; [set_solver|done].
Qed.

Lemma update_first_ok (p : AddressRange -> bool) f l c : List.filter p l = [c] ->
  exists l1 l2, l = l1 ++ c :: l2 /\ List.filter (fun x => negb (p x)) l = l1 ++ l2 /\
    update_first p f l = (y ← f c; Ret (l1 ++ y :: l2)).
Proof.
  induction l as [|x l IH]; cbn [List.filter update_first]; [done|]. destruct (p x) eqn:E; cbn [negb].
  - intros [= -> Hf]. exists [], l. split; [done|]. split; [|done].
    clear -Hf. induction l as [|y l IH]; cbn in *; [done|]. destruct (p y); [done|]. cbn. by rewrite IH.
  - intros Hf. destruct (IH Hf) as (l1 & l2 & -> & Hn & Hu). exists (x :: l1), l2. split; [done|]. split; [by rewrite Hn|].
    rewrite Hu. by destruct (f c).
Qed.

Lemma filter_empty {A} (p : A -> bool) l : List.filter p l = [] -> List.filter (fun x => negb (p x)) l = l.
Proof. induction l as [|x l IH]; cbn; [done|]. destruct (p x); [done|]. cbn. intros. by rewrite IH. Qed.

Lemma elem_filter {A} (p : A -> bool) l x : x ∈ List.filter p l <-> x ∈ l /\ p x = true.
Proof. rewrite !list_elem_of_In, List.filter_In. done. Qed.

(** Whatever branch is taken: the chunks that overlap are replaced by one that stands for
    them and the new range. *)
Lemma register_shape n l : chunk_ok n -> Forall chunk_ok l ->
  let overlaps chunk := rangesOverlap (start chunk) (rsize chunk) (start n) (rsize n) in
  exists l' cur, registerMemoryToContainer (start n) (rsize n) l ⇓ l' /\
    l' ≡ₚ cur :: List.filter (fun c => negb (overlaps c)) l /\ chunk_ok cur /\
    (forall a, inside cur a <-> inside n a \/ exists c, c ∈ l /\ overlaps c = true /\ inside c a) /\
    (forall x, chunk_ok x -> disjoint n x -> (forall c, c ∈ l -> overlaps c = true -> disjoint c x) -> disjoint cur x).
Proof.
  intros Hn Hl overlaps. unfold registerMemoryToContainer. fold overlaps.
  assert (Hr : rangeOfSize (start n) (rsize n) ⇓ n).
  { unfold rangeOfSize. rewrite (proj2 (rsize_ok n Hn)). destruct n as [b e], Hn as (N1 & N2 & N3). cbn in *. apply makeRange_ok. lia. }
  rewrite Hr. cbn [mbind res_bind]. destruct (List.filter overlaps l) as [|c [|d fl]] eqn:Ef; cbn [length].
  - exists (l ++ [n]), n. rewrite (filter_empty _ _ Ef). split; [done|]. split; [by rewrite Permutation_app_comm|]. split; [done|]. split; [|auto].
    intros a. split; [by left|]. intros [|(c & Hc & Ho & _)]; [done|]. assert (Hin : c ∈ List.filter overlaps l) by by apply elem_filter.
    rewrite Ef in Hin. by apply elem_of_nil in Hin.
  - assert (Hall : forall x, x ∈ l /\ overlaps x = true <-> x = c).
    { intros x. rewrite <- elem_filter, Ef. apply list_elem_of_singleton. }
    destruct (proj2 (Hall c) eq_refl) as [Hin Ho]. assert (Hc : chunk_ok c) by (rewrite Forall_forall in Hl; auto).
    pose proof Ho as Hd. unfold overlaps in Hd. rewrite overlap_spec in Hd by done. apply negb_true_iff, bool_decide_eq_false in Hd.
    destruct (merge_ok n c Hn Hc) as (e & He & Hok & Hea & Hed); [unfold disjoint in *; lia|].
    destruct (update_first_ok overlaps (fun chunk => mergeChunks n chunk) l c Ef) as (l1 & l2 & El & Hf & Hu).
    exists (l1 ++ e :: l2), e. rewrite Hu, He, Hf. split; [done|]. split; [by rewrite Permutation_middle|]. split; [done|]. split.
    + intros a. rewrite Hea. split; (intros [H|H]; [by left|right]); [by exists c|]. destruct H as (x & Hx & Hxo & Ha).
      by rewrite (proj1 (Hall x) (conj Hx Hxo)) in Ha.
    + intros x Hx Hdn Hcd. apply Hed; auto.
  - destruct (mergeLoop_ok n n l [] Hn Hn Hl) as (cur & Hm & H1 & H2 & H3); [constructor| |auto|].
    { intros x _ Hx. unfold disjoint in *. lia. }
    exists ([] ++ List.filter (fun c => negb (overlaps c)) l ++ [cur]), cur. split; [exact Hm|].
    split; [by rewrite app_nil_l, Permutation_app_comm|]. split; [done|]. by split.
Qed.

Lemma pairwise_perm l k : l ≡ₚ k -> pairwise l -> pairwise k.
Proof.
  induction 1 as [|x l k Hp IH|x y l|l1 l2 l3 _ IH1 _ IH2]; cbn [pairwise]; [done| | |auto].
  - intros [Hx Hl]. split; [|auto]. by rewrite <- Hp.
  - intros (Hx & Hy & Hl). apply Forall_cons in Hx as [Hxy Hx]. rewrite Forall_cons. unfold disjoint in *. repeat split; auto. lia.
Qed.

Lemma pairwise_filter p l : pairwise l -> pairwise (List.filter p l).
Proof.
  induction l as [|x l IH]; cbn [pairwise List.filter]; [done|]. intros [Hx Hl]. destruct (p x); cbn [pairwise]; [|auto]. split; [|auto].
  rewrite Forall_forall in *. intros y Hy. apply Hx. by apply elem_filter in Hy as [].
Qed.

Lemma pairwise_elem l c d : pairwise l -> c ∈ l -> d ∈ l -> c <> d -> disjoint c d.
Proof.
  induction l as [|x l IH]; cbn [pairwise]; [by intros _ ?%elem_of_nil|]. intros [Hx Hl] [->|Hc]%elem_of_cons [->|Hd]%elem_of_cons Hne; [done| | |auto].
  - rewrite Forall_forall in Hx. auto.
  - rewrite Forall_forall in Hx. specialize (Hx c Hc). unfold disjoint in *. lia.
Qed.

Lemma covered_elem l a : covered l a <-> exists c, c ∈ l /\ inside c a.
Proof. unfold covered. rewrite Exists_exists. done. Qed.

(** a command list remembers exactly the memory it has to write.  Registering a range
    keeps the chunks non-empty and pairwise disjoint, and adds exactly the addresses of the
    range, however many chunks it overlaps. *)
Theorem registerMemoryToWrite_adds ptr size l : chunks_ok l -> 0 <= ptr -> 0 < size -> ptr + size < W64 ->
  exists l', registerMemoryToContainer ptr size l ⇓ l' /\ chunks_ok l' /\
    forall a, covered l' a <-> covered l a \/ ptr <= a < ptr + size.
Proof.
  intros [Hl Hp] H0 Hs Hw. set (n := mkRange ptr (ptr + size)). assert (Hn : chunk_ok n) by (unfold chunk_ok, n; cbn; lia).
  assert (Hrs : rsize n = size) by (rewrite (proj1 (rsize_ok n Hn)); cbn; lia).
  destruct (register_shape n l Hn Hl) as (l' & cur & Hr & Hperm & Hc & Ha & Hd). rewrite Hrs in *. change (start n) with ptr in *.
  exists l'. split; [done|].
  set (overlaps := fun chunk => rangesOverlap (start chunk) (rsize chunk) ptr size) in *.
  assert (Hov : forall c, c ∈ l -> overlaps c = false -> disjoint n c).
  { intros c Hin Ho. rewrite Forall_forall in Hl. pose proof (overlap_spec c n (Hl c Hin) Hn) as Hx. rewrite Hrs in Hx. unfold overlaps in Ho.
    change (start n) with ptr in Hx. rewrite Ho in Hx. symmetry in Hx. apply negb_false_iff, bool_decide_eq_true in Hx. unfold disjoint in *. lia. }
  split; [split|].
  - rewrite Hperm. constructor; [done|]. apply Forall_forall. intros c [Hin _]%elem_filter. rewrite Forall_forall in Hl. auto.
  - apply (pairwise_perm (cur :: List.filter (fun c => negb (overlaps c)) l)); [by symmetry|]. split; [|by apply pairwise_filter].
    apply Forall_forall. intros x [Hin Hx%negb_true_iff]%elem_filter. rewrite Forall_forall in Hl. apply Hd; [auto|by apply Hov|].
    intros c Hcin Hco. apply (pairwise_elem l); auto. intros ->. unfold overlaps in Hx. congruence.
  - intros a. rewrite !covered_elem. assert (Hin : ptr <= a < ptr + size <-> inside n a) by done. rewrite Hin. split.
    + intros (c & Hcl & Hca). rewrite Hperm in Hcl. apply elem_of_cons in Hcl as [->|[Hcl _]%elem_filter]; [|by left; exists c].
      apply Ha in Hca as [|(x & Hx & _ & Hxa)]; [by right|left; by exists x].
    + intros [(c & Hcl & Hca)|Hna]; [|exists cur; split; [rewrite Hperm; by left|apply Ha; by left]].
      destruct (overlaps c) eqn:Eo.
      * exists cur. split; [rewrite Hperm; by left|]. apply Ha. right. by exists c.
      * exists c. split; [|done]. rewrite Hperm. right. apply elem_filter. split; [done|]. unfold overlaps in Eo. by rewrite Eo.
Qed.

(** A range of no bytes stops the process: the range behind a chunk must not be empty. *)
Theorem empty_copy_aborts_client ptr : 0 < ptr < W64 -> registerMemoryToContainer ptr 0 [] = Abort.
Proof.
  intros Hp. unfold registerMemoryToContainer, rangeOfSize, makeRange, checkRange. cbn. rewrite Z.add_0_r, u64_id by (unfold is_u64; lia).
  rewrite Z.eqb_refl. by rewrite (proj2 (Z.eqb_neq ptr 0)) by lia.
Qed.

(** * Memory behind the transfers

    The bytes of the client, and the bytes of every shared memory file.  A copy to or from
    a mapping of a file is one to or from the file's bytes: [open] maps the file from its
    first byte on.  A copy that leaves the mapping is undefined. *)

Abbreviation Memory := (Z -> Z).
Abbreviation Files := (Z -> Z -> Z).

(** [std::memcpy] *)
Definition copyBytes (destination : Memory) (d : Z) (source : Memory) (s n : Z) : Memory :=
  fun a => if (d <=? a) && (a <? d + n) then source (s + (a - d)) else destination a.

Definition write_file (files : Files) (id : Z) (content : Memory) : Files :=
  fun i => if i =? id then content else files i.

Section transfers.
Context {K : Type} `{Kernel K}.

(** [getGlobalShmemImporter().open(shmemId, underlyingSize, nullptr)] *)
Definition openTransfer (k : K) (im : ShmemImporter) (t : TransferDesc) : MmappedShmemSubAllocation * ShmemImporter * K :=
  import_open k im (shmemId t) 0 (underlyingSize t) 0.

Definition outOfMapping (shmem : MmappedShmemSubAllocation) (t : TransferDesc) : bool :=
  mmappedSize shmem <? offsetFromResourceStart t + bytesCountToCopy t.

(** ** Client to service *)

(** [IcdPlatform::writeRequiredMemory] *)
Fixpoint writeRequiredMemory (k : K) (im : ShmemImporter) (mem : Memory) (files : Files) (transferDescs : list TransferDesc)
  : res (bool * Files * ShmemImporter * K) :=
  match transferDescs with
  | [] => Ret (true, files, im, k)
  | transfer :: l =>
      if negb (shmemId transfer =? -1) then
        let '(shmem, im, k) := openTransfer k im transfer in
        if negb (isValid shmem) then Ret (false, files, im, k)
        else if outOfMapping shmem transfer then Undef
        else
          let content := copyBytes (files (shmemId transfer)) (offsetFromResourceStart transfer) mem (clientAddress transfer) (bytesCountToCopy transfer) in
          let (im, k) := import_release k im shmem in
          writeRequiredMemory k im mem (write_file files (shmemId transfer) content) l
      else Ret (false, files, im, k)
  end.

(** ** Service to client *)

(** [HostptrCopiesReader]: its state is [usmToHostAddressMap]. *)
Abbreviation UsmMap := (gmap Z Z).

Definition addToMap (usmToHostAddressMap : UsmMap) (usmPtr hostPtr : Z) : UsmMap := <[usmPtr := hostPtr]> usmToHostAddressMap.

(** The loop ends when the ring was seen empty, or at an empty transfer. *)
Fixpoint getHostptrCopiesToUpdate (fuel : nat) (channel : ChannelClient) : res (list TransferDesc * ChannelClient) :=
  match fuel with
  | O => Undef
  | S fuel =>
      '(chunk, channel) ← acquireHostptrCopiesUpdate channel;
      if bytesCountToCopy chunk =? 0 then Ret ([], channel)
      else '(memoryToRead, channel) ← getHostptrCopiesToUpdate fuel channel; Ret (chunk :: memoryToRead, channel)
  end.

(** [usmToHostAddressMap[source]] of an address that was not added is a null pointer. *)
Fixpoint copyMappedMemory (k : K) (im : ShmemImporter) (usm : UsmMap) (files : Files) (mem : Memory) (transferDescs : list TransferDesc)
  : res (bool * Memory * UsmMap * ShmemImporter * K) :=
  match transferDescs with
  | [] => Ret (true, mem, usm, im, k)
  | transfer :: l =>
      if negb (shmemId transfer =? -1) then
        let '(shmem, im, k) := openTransfer k im transfer in
        if negb (isValid shmem) then Ret (false, mem, usm, im, k)
        else if outOfMapping shmem transfer then Undef
        else
          let mem := copyBytes mem (clientAddress transfer) (files (shmemId transfer)) (offsetFromResourceStart transfer) (bytesCountToCopy transfer) in
          let (im, k) := import_release k im shmem in
          copyMappedMemory k im usm files mem l
      else
        let source := offsetFromResourceStart transfer in
        let destination := default 0 (usm !! source) in
        if destination =? 0 then Undef
        else copyMappedMemory k im (<[source := destination]> usm) files (copyBytes mem destination mem source (bytesCountToCopy transfer)) l
  end.

Definition readMemory (fuel : nat) (channel : ChannelClient) (k : K) (im : ShmemImporter) (usm : UsmMap) (files : Files) (mem : Memory)
  : res (Z * ChannelClient * Memory * UsmMap * ShmemImporter * K) :=
  '(transferDescs, channel) ← getHostptrCopiesToUpdate fuel channel;
  match transferDescs with
  | [] => Ret (ZE_RESULT_SUCCESS, channel, mem, usm, im, k)
  | _ =>
      '(ok, mem, usm, im, k) ← copyMappedMemory k im usm files mem transferDescs;
      Ret (if ok : bool then ZE_RESULT_SUCCESS else ZE_RESULT_ERROR_OUT_OF_HOST_MEMORY, channel, mem, usm, im, k)
  end.

End transfers.

(** * The request for the transfers

    [ZeCommandQueueExecuteCommandListsCopyMemoryRpcHelperRpcM]: which pointers of the
    caller were null, and the captures. *)
Record CopyMemoryRpcM := mkCopyMemory {
  cm_chunksCount : Z; cm_hasChunks : bool; cm_hasCount : bool; cm_hasDescs : bool;
  cm_ret : Z; cm_transferDescsCount : Z; cm_chunks : list (Z * Z); cm_transferDescs : list TransferDesc }.

Definition cm_answer (c : CopyMemoryRpcM) (ret count : Z) (descs : list TransferDesc) : CopyMemoryRpcM :=
  mkCopyMemory (cm_chunksCount c) (cm_hasChunks c) (cm_hasCount c) (cm_hasDescs c) ret count (cm_chunks c) descs.

Definition zeCommandQueueExecuteCommandListsCopyMemoryRpcHelperHandler (m : MemoryBlocksManager) (c : CopyMemoryRpcM)
  : res (CopyMemoryRpcM * MemoryBlocksManager) :=
  let result ok := if ok : bool then ZE_RESULT_SUCCESS else ZE_RESULT_ERROR_OUT_OF_HOST_MEMORY in
  if cm_chunksCount c =? 0 then Ret (cm_answer c ZE_RESULT_SUCCESS (cm_transferDescsCount c) (cm_transferDescs c), m)
  else if negb (cm_hasCount c) || negb (cm_hasChunks c)
  then Ret (cm_answer c ZE_RESULT_ERROR_INVALID_NULL_POINTER (cm_transferDescsCount c) (cm_transferDescs c), m)
  else if cm_transferDescsCount c =? 0 then
    let (wasCountRetrieved, count) := getCountOfRequiredTransferDescs m (cm_chunks c) 0 in
    Ret (cm_answer c (result wasCountRetrieved) count (cm_transferDescs c), m)
  else if negb (cm_hasDescs c)
  then Ret (cm_answer c ZE_RESULT_ERROR_INVALID_NULL_POINTER (cm_transferDescsCount c) (cm_transferDescs c), m)
  else
    '(wereTransfersRetrieved, count, descs, m) ← getRequiredTransferDescs m (cm_transferDescsCount c) (cm_chunks c) 0 (cm_transferDescs c);
    Ret (cm_answer c (result wereTransfersRetrieved) count descs, m).

(** The generated helper.  [space] is what the message's memory holds where the captured
    array of descriptors lies, which is not copied from the caller; [called] says that the
    channel could make the call. *)
Definition zeCommandQueueExecuteCommandListsCopyMemoryRpcHelper (called : bool) (space : Z -> list TransferDesc) (m : MemoryBlocksManager)
  (chunksCount : Z) (chunks : option (list (Z * Z))) (transferDescsCount : option Z) (transferDescs : option (list TransferDesc))
  : res (Z * option Z * option (list TransferDesc) * MemoryBlocksManager) :=
  let command := mkCopyMemory chunksCount (bool_decide (is_Some chunks)) (bool_decide (is_Some transferDescsCount)) (bool_decide (is_Some transferDescs))
    ZE_RESULT_ERROR_OUT_OF_HOST_MEMORY (default 0 transferDescsCount) (default [] chunks)
    (match transferDescs with Some _ => space (default 0 transferDescsCount) | None => [] end) in
  if negb called then Ret (cm_ret command, transferDescsCount, transferDescs, m)
  else
    '(command, m) ← zeCommandQueueExecuteCommandListsCopyMemoryRpcHelperHandler m command;
    Ret (cm_ret command, (fun _ => cm_transferDescsCount command) <$> transferDescsCount,
         (fun _ => cm_transferDescs command) <$> transferDescs, m).

Definition IcdL0CommandList_writeRequiredMemory {K} `{Kernel K} (called1 called2 : bool) (space : Z -> list TransferDesc)
  (memoryToWrite : list AddressRange) (m : MemoryBlocksManager) (k : K) (im : ShmemImporter) (mem : Memory) (files : Files)
  : res (Z * MemoryBlocksManager * Files * ShmemImporter * K) :=
  match memoryToWrite with
  | [] => Ret (ZE_RESULT_SUCCESS, m, files, im, k)
  | _ =>
      let chunksToWrite := map (fun mw => (start mw, rsize mw)) memoryToWrite in
      let chunksCount := u32 (Z.of_nat (length chunksToWrite)) in
      '(queryCountResult, count, _, m) ← zeCommandQueueExecuteCommandListsCopyMemoryRpcHelper called1 space m chunksCount (Some chunksToWrite) (Some 0) None;
      if negb (queryCountResult =? ZE_RESULT_SUCCESS) then Ret (ZE_RESULT_ERROR_OUT_OF_HOST_MEMORY, m, files, im, k)
      else
        let transferDescs := replicate (Z.to_nat (default 0 count)) emptyTransfer in
        '(queryTransferDescs, _, transferDescs, m) ← zeCommandQueueExecuteCommandListsCopyMemoryRpcHelper called2 space m chunksCount
            (Some chunksToWrite) count (Some transferDescs);
        if negb (queryTransferDescs =? ZE_RESULT_SUCCESS) then Ret (ZE_RESULT_ERROR_OUT_OF_HOST_MEMORY, m, files, im, k)
        else
          '(written, files, im, k) ← writeRequiredMemory k im mem files (default [] transferDescs);
          Ret (if written : bool then ZE_RESULT_SUCCESS else ZE_RESULT_ERROR_OUT_OF_HOST_MEMORY, m, files, im, k)
  end.

(** ** What the copies do *)

(** A transfer writes (reads) byte [o] of file [i]. *)
Definition touches_file (t : TransferDesc) (i o : Z) : Prop :=
  shmemId t = i /\ offsetFromResourceStart t <= o < offsetFromResourceStart t + bytesCountToCopy t.

Definition touches_client (t : TransferDesc) (a : Z) : Prop := clientAddress t <= a < clientAddress t + bytesCountToCopy t.

Definition fileId (x : Skeleton) : Z := shmem_id (fd_base (snd x)).

(** The client page that starts chunk [x] shows byte [a - fst x] of the chunk's file. *)
Definition in_chunk (x : Skeleton) (a : Z) : Prop := fst x <= a < fst x + fileSize (snd x).

Lemma copyBytes_in dst d src s n a : d <= a < d + n -> copyBytes dst d src s n a = src (s + (a - d)).
Proof. intros H. unfold copyBytes. by rewrite (proj2 (Z.leb_le _ _)), (proj2 (Z.ltb_lt _ _)) by lia. Qed.

Lemma copyBytes_out dst d src s n a : ~ d <= a < d + n -> copyBytes dst d src s n a = dst a.
Proof. intros H. unfold copyBytes. destruct (Z.leb_spec d a), (Z.ltb_spec a (d + n)); cbn; try done; lia. Qed.

Lemma write_file_eq files i c : write_file files i c i = c.
Proof. unfold write_file. by rewrite Z.eqb_refl. Qed.

Lemma write_file_ne files i c j : j <> i -> write_file files i c j = files j.
Proof. intros H. unfold write_file. by rewrite (proj2 (Z.eqb_neq _ _)). Qed.

Lemma NoDup_fmap_fileId sk x y : NoDup (fileId <$> sk) -> x ∈ sk -> y ∈ sk -> fileId x = fileId y -> x = y.
Proof.
  intros Hnd Hx Hy He. apply list_elem_of_lookup in Hx as [i Hi]. apply list_elem_of_lookup in Hy as [j Hj].
  assert (i = j) as ->; [|congruence]. apply (NoDup_lookup (fileId <$> sk) i j (fileId x)); [done|by rewrite list_lookup_fmap, Hi|].
  by rewrite list_lookup_fmap, Hj, He.
Qed.

(** What writing the transfers may do and, when all of them succeed, does. *)
Definition written (sk : list Skeleton) (mem : Memory) (files : Files) (ts : list TransferDesc) (ok : bool) (files' : Files) : Prop :=
  (forall i o, (forall t, t ∈ ts -> ~ touches_file t i o) -> files' i o = files i o) /\
  (forall x o, x ∈ sk -> files' (fileId x) o = files (fileId x) o \/ files' (fileId x) o = mem (fst x + o)) /\
  (forall x o, x ∈ sk -> files (fileId x) o = mem (fst x + o) -> files' (fileId x) o = mem (fst x + o)) /\
  (ok = true -> forall t x o, t ∈ ts -> x ∈ sk -> touches_file t (fileId x) o -> files' (fileId x) o = mem (fst x + o)).

Section transfer_lemmas.
Context {K : Type} `{KL : KernelLaws K}.

(** A mapping that was opened has the size that was asked for. *)
Lemma openTransfer_size (k : K) im t shmem im' k' : openTransfer k im t = (shmem, im', k') -> isValid shmem = true ->
  mmappedSize shmem = underlyingSize t /\ shmemId t <> -1.
Proof.
  unfold openTransfer, import_open. destruct (Z.eqb_spec (shmemId t) invalidShmemId) as [|Hid]; [by intros [= <- _ _]|].
  destruct (isAlignedPow2 _ _); cbn [negb]; [|by intros [= <- _ _]]. cbn [Z.eqb negb andb].
  destruct (getFileDescriptor k im _) as [[[fd|] im1] k1]; [|by intros [= <- _ _]].
  destruct (sys_mmap k1 _ _ _ _ _) as [[ptr|] k2]; [|by intros [= <- _ _]]. by intros [= <- _ _] _.
Qed.

(** Writing: the bytes of the client at the places of the transfers, the rest as before,
    and an error leaves the rest of the transfers out. *)
Lemma writeRequiredMemory_ok (sk : list Skeleton) mem ts : NoDup (fileId <$> sk) -> Forall (backed sk) ts ->
  forall (k : K) im files, exists ok files' im' k', writeRequiredMemory k im mem files ts ⇓ (ok, files', im', k') /\
    written sk mem files ts ok files'.
Proof.
  intros Hnd Hb. induction Hb as [|t ts (y & Hy & Hid & Hus & Hoff & H0 & Hle) Hts IH]; intros k im files; cbn [writeRequiredMemory].
  { exists true, files, im, k. split; [done|]. split; [done|]. split; [by left|]. split; [done|]. intros _ t x o Ht. by apply elem_of_nil in Ht. }
  assert (Hstop : forall (im' : ShmemImporter) (k' : K), exists ok files' im'' k'', Ret (false, files, im', k') ⇓ (ok, files', im'', k'') /\
    written sk mem files (t :: ts) ok files').
  { intros im' k'. exists false, files, im', k'. split; [done|]. split; [done|]. split; [by left|]. by split. }
  destruct (Z.eqb_spec (shmemId t) (-1)) as [He|He]; cbn [negb]; [apply Hstop|].
  destruct (openTransfer k im t) as [[shmem im1] k1] eqn:Hop. destruct (isValid shmem) eqn:Hv; cbn [negb]; [|apply Hstop].
  destruct (openTransfer_size _ _ _ _ _ _ Hop Hv) as [Hsz _]. unfold outOfMapping. rewrite Hsz, Hus, (proj2 (Z.ltb_ge _ _)) by lia.
  destruct (import_release k1 im1 shmem) as [im2 k2].
  set (files1 := write_file files (shmemId t) _).
  assert (Hone : forall x o, x ∈ sk -> touches_file t (fileId x) o -> files1 (fileId x) o = mem (fst x + o)).
  { intros x o Hx [Hi Ho]. unfold files1. rewrite <- Hi, write_file_eq, copyBytes_in by done.
    assert (x = y) as -> by (apply (NoDup_fmap_fileId sk); [done|done|done|]; etransitivity; [symmetry; exact Hi|exact Hid]). f_equal. lia. }
  assert (Hother : forall i o, ~ touches_file t i o -> files1 i o = files i o).
  { intros i o Hn. unfold files1. destruct (Z.eq_dec i (shmemId t)) as [->|Hne]; [|by rewrite write_file_ne].
    rewrite write_file_eq. apply copyBytes_out. intros Ho. by apply Hn. }
  destruct (IH k2 im2 files1) as (ok & files' & im' & k' & Hw & Hun & Hor & Hkeep & Hall).
  exists ok, files', im', k'. split; [done|].
  assert (Hdec : forall i o, touches_file t i o \/ ~ touches_file t i o) by (intros i o; unfold touches_file; lia).
  split; [|split; [|split]].
  - intros i o Hn. rewrite Hun; [apply Hother, Hn; by left|]. intros t' Ht'. apply Hn. by right.
  - intros x o Hx. destruct (Hdec (fileId x) o) as [Ht|Ht]; [right; apply Hkeep; auto|]. rewrite <- (Hother _ _ Ht). auto.
  - intros x o Hx Hm. apply Hkeep; [done|]. destruct (Hdec (fileId x) o) as [Ht|Ht]; [auto|]. by rewrite Hother.
  - intros Hok t' x o [->|Ht']%elem_of_cons Hx Htf; [|eauto]. apply Hkeep; auto.
Qed.

End transfer_lemmas.

(** ** The transfers that the service names *)

Definition in_block (m : MemoryBlocksManager) (c : AddressRange) : Prop :=
  exists key b, (key, b) ∈ memoryBlocks m /\ getBlockStartAddress b <= start c /\ end_ c <= getBlockEndAddress b.

Definition chunkOf (c : AddressRange) : Z * Z := (start c, rsize c).

(** The chunks of a block that a range overlaps. *)
Definition transfersOf (m : MemoryBlocksManager) (c : AddressRange) : nat :=
  match getMemoryBlockWhichIncludesChunk m (start c) (rsize c) with
  | Some b => overlapCount (start c) (end_ c) (chunks b)
  | None => O
  end.

Definition total (m : MemoryBlocksManager) (l : list AddressRange) : nat := sum_list (transfersOf m <$> l).

Lemma in_block_found m c : manager_ok m -> chunk_ok c -> in_block m c ->
  exists b, getMemoryBlockWhichIncludesChunk m (start c) (rsize c) = Some b /\ block_ok b /\ skels b ⊆ all_skels (memoryBlocks m) /\
    getBlockStartAddress b <= start c /\ end_ c <= getBlockEndAddress b.
Proof.
  intros Hm Hc (key & b & Hin & Hs & He). exists b. split; [|split; [|split; [by eapply skels_in_all|done]]].
  - apply (includes_found m key b); try done; rewrite (proj1 (rsize_ok c Hc)); unfold chunk_ok in Hc; lia.
  - unfold manager_ok in Hm. destruct (blocks_ok_range _ _ Hm) as [Hr _]. rewrite Forall_forall in Hr. by apply (Hr _ Hin).
Qed.

Lemma transfersOf_le m c : manager_ok m -> chunk_ok c -> in_block m c -> (transfersOf m c <= length (all_skels (memoryBlocks m)))%nat.
Proof.
  intros Hm Hc Hin. destruct (in_block_found m c Hm Hc Hin) as (b & Hf & _). unfold transfersOf. rewrite Hf.
  transitivity (length (skels b)); [unfold overlapCount, skels; rewrite length_fmap; apply List.filter_length_le|].
  destruct Hin as (key & b' & Hb & _). unfold getMemoryBlockWhichIncludesChunk in Hf.
  destruct (getOverlappingBlocksBegin _ _ _) as [i|]; [|done]. case_match; [done|].
  destruct (memoryBlocks m !! i) as [[k0 b0]|] eqn:E; [|done]. case_match; [done|]. injection Hf as ->.
  apply list_elem_of_lookup_2, list_elem_of_split in E as (l1 & l2 & ->). rewrite all_skels_app, all_skels_cons, !length_app. cbn. lia.
Qed.

Lemma transfers_le m l : manager_ok m -> Forall chunk_ok l -> Forall (in_block m) l ->
  (total m l <= length l * length (all_skels (memoryBlocks m)))%nat.
Proof.
  intros Hm Hc. induction Hc as [|c l Hc Hl IH]; intros Hin; [cbn; lia|]. apply Forall_cons in Hin as [Hin Hins].
  pose proof (transfersOf_le m c Hm Hc Hin). specialize (IH Hins). unfold total in *. cbn. lia.
Qed.

Lemma count_query m l n : manager_ok m -> Forall chunk_ok l -> Forall (in_block m) l -> Z.of_nat n + Z.of_nat (total m l) < W32 ->
  getCountOfRequiredTransferDescs m (chunkOf <$> l) (Z.of_nat n) = (true, Z.of_nat (n + total m l)).
Proof.
  intros Hm Hc. revert n. induction Hc as [|c l Hc Hl IH]; intros n Hin Hn; cbn [fmap list_fmap getCountOfRequiredTransferDescs chunkOf].
  { unfold total. cbn. do 2 f_equal. lia. }
  apply Forall_cons in Hin as [Hin Hins]. destruct (in_block_found m c Hm Hc Hin) as (b & Hf & _). rewrite Hf.
  assert (Ht : total m (c :: l) = (overlapCount (start c) (end_ c) (chunks b) + total m l)%nat) by (unfold total, transfersOf; cbn; by rewrite Hf).
  rewrite Ht in *. unfold getCountOfOverlappingChunks. rewrite (proj2 (rsize_ok c Hc)). fold (overlapCount (start c) (end_ c) (chunks b)).
  rewrite <- Nat2Z.inj_add, u32_id by (word_unfold; lia). etransitivity; [apply IH; [done|lia]|]. do 2 f_equal. lia.
Qed.

Lemma covers_elem lo ts hi : covers lo ts hi ->
  lo <= hi /\ (forall a, lo <= a < hi <-> exists t, t ∈ ts /\ touches_client t a).
Proof.
  revert lo. induction ts as [|t ts IH]; intros lo; cbn [covers].
  - intros ->. split; [lia|]. intros a. split; [lia|]. intros (t & Ht & _). by apply elem_of_nil in Ht.
  - intros (Ha & Hb & Hc). destruct (IH _ Hc) as [Hle Hin]. split; [lia|]. intros a. split.
    + intros Hr. destruct (Z.lt_ge_cases a (lo + bytesCountToCopy t)) as [Hlt|Hge].
      * exists t. split; [by left|]. unfold touches_client. lia.
      * destruct (proj1 (Hin a) ltac:(lia)) as (t' & Ht' & H). exists t'. split; [by right|done].
    + intros (t' & [->|Ht']%elem_of_cons & H); [unfold touches_client in H; lia|].
      pose proof (proj2 (Hin a) (ex_intro _ t' (conj Ht' H))). lia.
Qed.

(** The transfers for a list of chunks: they are backed by the files of the blocks and
    touch exactly the addresses of the chunks. *)
Lemma transfers_query m l : manager_ok m -> Forall chunk_ok l -> Forall (in_block m) l ->
  forall n arr cnt, Z.of_nat n + Z.of_nat (total m l) <= cnt -> cnt <= Z.of_nat (length arr) -> cnt < W32 ->
  exists ts, getRequiredTransferDescs m cnt (chunkOf <$> l) (Z.of_nat n) arr
      ⇓ (true, Z.of_nat (n + total m l), take n arr ++ ts ++ drop (n + length ts) arr, m) /\
    length ts = total m l /\ Forall (backed (all_skels (memoryBlocks m))) ts /\
    forall a, covered l a <-> exists t, t ∈ ts /\ touches_client t a.
Proof.
  intros Hm Hc. induction Hc as [|c l Hc Hl IH]; intros Hin n arr cnt Hn Hlen Hw; cbn [fmap list_fmap getRequiredTransferDescs chunkOf].
  { exists []. unfold total. cbn. rewrite !Nat.add_0_r, take_drop. split; [done|]. split; [done|]. split; [done|].
    intros a. unfold covered. rewrite Exists_nil. split; [done|]. intros (t & Ht & _). by apply elem_of_nil in Ht. }
  apply Forall_cons in Hin as [Hin Hins]. destruct (in_block_found m c Hm Hc Hin) as (b & Hf & Hb & Hsk & Hs & He). rewrite Hf.
  assert (Ht : total m (c :: l) = (overlapCount (start c) (end_ c) (chunks b) + total m l)%nat) by (unfold total, transfersOf; cbn; by rewrite Hf).
  rewrite Ht in *. unfold appendOverlappingChunks. rewrite (proj2 (rsize_ok c Hc)). pose proof Hc as (C1 & C2 & C3).
  pose proof (block_end _ Hb) as Hbe. destruct Hb as [B0 Bp Bc Bg Bt].
  destruct (append_enough (start c) (end_ c) (chunks b) (getBlockStartAddress b) n arr cnt) as (ts1 & H1 & Hl1 & Hbk1 & Hcov); try done; try lia.
  rewrite H1. cbn [mbind res_bind negb]. fold (skels b) in Hcov. rewrite <- Hbe, (proj2 (Z.leb_le _ _)) in Hcov by lia.
  rewrite Z.max_l, Z.min_l in Hcov by lia. set (k := overlapCount (start c) (end_ c) (chunks b)) in *.
  set (arr1 := take n arr ++ ts1 ++ drop (n + length ts1) arr).
  assert (Hla : length arr1 = length arr) by (unfold arr1; rewrite !length_app, length_take, length_drop; lia).
  destruct (IH Hins (n + k)%nat arr1 cnt) as (ts2 & H2 & Hl2 & Hbk2 & Hc2); [lia|lia|done|].
  exists (ts1 ++ ts2). split; [|split; [rewrite length_app; lia|split]].
  - rewrite H2, Nat.add_assoc. f_equal. f_equal. f_equal. rewrite length_app, <- app_assoc. unfold arr1.
    assert (Hn1 : (n + k)%nat = length (take n arr ++ ts1)) by (rewrite length_app, length_take; lia).
    rewrite (app_assoc (take n arr)). rewrite take_app_length', drop_app_ge by lia. rewrite <- app_assoc. do 3 f_equal.
    rewrite drop_drop. f_equal. lia.
  - apply Forall_app. split; [|done]. eapply Forall_impl; [exact Hbk1|]. intros t. by apply backed_incl.
  - intros a. rewrite covered_elem. pose proof (proj2 (covers_elem _ _ _ Hcov) a) as Ha. split.
    + intros (d & [->|Hd]%elem_of_cons & Hda).
      * destruct (proj1 Ha Hda) as (t & Htin & Hta). exists t. split; [set_solver|done].
      * destruct (proj1 (Hc2 a)) as (t & Htin & Hta); [apply covered_elem; by exists d|]. exists t. split; [set_solver|done].
    + intros (t & [Htin|Htin]%elem_of_app & Hta).
      * exists c. split; [by left|]. apply Ha. by exists t.
      * destruct (proj1 (covered_elem l a)) as (d & Hd & Hda); [apply Hc2; by exists t|]. exists d. split; [by right|done].
Qed.

(** An address of the client is in one chunk at most. *)
Lemma chain_unique lo l x y a : chain lo l -> Forall sk_good l -> x ∈ l -> y ∈ l -> in_chunk x a -> in_chunk y a -> x = y.
Proof.
  revert lo. induction l as [|z l IH]; intros lo Hch Hg Hx Hy Hxa Hya; [by apply elem_of_nil in Hx|].
  destruct Hch as [Hz Hch]. apply Forall_cons in Hg as [Hgz Hg]. unfold in_chunk in *.
  assert (Hout : forall w, w ∈ l -> lo + fileSize (snd z) <= fst w) by (intros w Hw; by apply (chain_in _ l w)).
  apply elem_of_cons in Hx as [->|Hx], Hy as [->|Hy]; [done| | |by apply (IH (lo + fileSize (snd z)))].
  - specialize (Hout y Hy). lia.
  - specialize (Hout x Hx). lia.
Qed.

Lemma in_block_bounds b x a : block_ok b -> x ∈ skels b -> in_chunk x a -> getBlockStartAddress b <= a < getBlockEndAddress b.
Proof.
  intros Hb Hx Ha. rewrite (block_end _ Hb). destruct Hb as [B0 Bp Bc Bg Bt]. pose proof (chain_in _ _ _ Bc Bg Hx). unfold in_chunk in Ha. lia.
Qed.

Lemma skels_bounds lo l x a : blocks_ok lo l -> x ∈ all_skels l -> in_chunk x a -> lo <= a.
Proof.
  intros Hl Hx Ha. unfold all_skels in Hx. rewrite list_elem_of_In, in_concat in Hx. destruct Hx as (s & Hs & Hx).
  apply in_map_iff in Hs as (e & <- & He). apply list_elem_of_In in He, Hx. destruct (blocks_ok_range _ _ Hl) as [Hr _].
  rewrite Forall_forall in Hr. destruct (Hr e He) as (_ & Hb & Hlo & _). pose proof (in_block_bounds _ _ _ Hb Hx Ha). lia.
Qed.

Lemma skels_unique lo l x y a : blocks_ok lo l -> x ∈ all_skels l -> y ∈ all_skels l -> in_chunk x a -> in_chunk y a -> x = y.
Proof.
  revert lo. induction l as [|[key b] l IH]; intros lo Hl Hx Hy Hxa Hya; [by apply elem_of_nil in Hx|].
  destruct Hl as (_ & _ & Hb & Hl). rewrite all_skels_cons in Hx, Hy. cbn [snd] in *.
  assert (Hsplit : forall w, in_chunk w a -> (w ∈ skels b -> a < getBlockEndAddress b) /\ (w ∈ all_skels l -> getBlockEndAddress b <= a)).
  { intros w Hw. split; intros Hin; [by apply (in_block_bounds b w a)|by apply (skels_bounds _ l w a)]. }
  destruct (Hsplit x Hxa) as [X1 X2], (Hsplit y Hya) as [Y1 Y2].
  apply elem_of_app in Hx as [Hx|Hx], Hy as [Hy|Hy];
    [|specialize (X1 Hx); specialize (Y2 Hy); lia|specialize (X2 Hx); specialize (Y1 Hy); lia|by apply (IH _ Hl)].
  destruct Hb as [B0 Bp Bc Bg Bt]. by apply (chain_unique _ _ x y a Bc Bg).
Qed.

(** A transfer touches a byte of the client and the byte of the file that shows it. *)
Lemma backed_places sk t a : backed sk t -> touches_client t a ->
  exists x, x ∈ sk /\ in_chunk x a /\ shmemId t = fileId x /\ offsetFromResourceStart t + (a - clientAddress t) = a - fst x /\
    touches_file t (fileId x) (a - fst x).
Proof.
  intros (x & Hx & Hid & Hus & Hoff & H0 & Hle) Ha. exists x. unfold touches_client, in_chunk, touches_file, fileId in *.
  split; [done|]. split; [lia|]. split; [done|]. split; [lia|]. split; [done|lia].
Qed.

Lemma backed_places' sk t i o : backed sk t -> touches_file t i o ->
  exists x a, x ∈ sk /\ in_chunk x a /\ touches_client t a /\ i = fileId x /\ o = a - fst x.
Proof.
  intros (x & Hx & Hid & Hus & Hoff & H0 & Hle) [Hi Ho]. exists x, (o + fst x). unfold touches_client, in_chunk, fileId in *.
  split; [done|]. split; [lia|]. split; [lia|]. split; [congruence|lia].
Qed.

(** The two requests of the client, when the channel makes the calls. *)
Section requests.
Context (m : MemoryBlocksManager) (l : list AddressRange).
Context (Hm : manager_ok m) (Hl : Forall chunk_ok l) (Hin : Forall (in_block m) l) (Hne : l <> []).
Context (Hn : Z.of_nat (length l) * Z.of_nat (length (all_skels (memoryBlocks m))) < W32).

Lemma transfers_bounds : 0 < Z.of_nat (total m l) < W32 /\ 0 < Z.of_nat (length l) < W32.
Proof.
  pose proof (transfers_le m l Hm Hl Hin) as Htot. assert (Hpos : 0 < Z.of_nat (total m l)).
  { destruct (transfers_query m l Hm Hl Hin 0%nat (replicate (total m l) emptyTransfer) (Z.of_nat (total m l))) as (ts & _ & Hlen & _ & Hc);
      [lia|by rewrite length_replicate|lia|].
    destruct l as [|c l']; [done|]. pose proof (Forall_inv Hl) as (C1 & C2 & C3).
    destruct (proj1 (Hc (start c))) as (t & Ht & _); [apply covered_elem; exists c; split; [by left|unfold inside; lia]|].
    destruct ts; [by apply elem_of_nil in Ht|]. rewrite <- Hlen. cbn. lia. }
  assert (Hpl : (0 < length l)%nat) by (destruct l; [done|cbn; lia]). destruct (length (all_skels (memoryBlocks m))) as [|x]; [lia|]. split; nia.
Qed.

Lemma count_request space descs : descs = None ->
  zeCommandQueueExecuteCommandListsCopyMemoryRpcHelper true space m (u32 (Z.of_nat (length l))) (Some (chunkOf <$> l)) (Some 0) descs
    ⇓ (ZE_RESULT_SUCCESS, Some (Z.of_nat (total m l)), None, m).
Proof.
  intros ->. destruct transfers_bounds as [Ht Hlen]. unfold zeCommandQueueExecuteCommandListsCopyMemoryRpcHelper, zeCommandQueueExecuteCommandListsCopyMemoryRpcHelperHandler.
  cbn [negb from_option id cm_chunksCount]. rewrite (u32_id (Z.of_nat _)), (proj2 (Z.eqb_neq _ 0)) by (word_unfold; lia). cbn [cm_hasCount cm_hasChunks].
  rewrite !bool_decide_true by by eexists. cbn [negb orb cm_transferDescsCount cm_chunks Z.eqb].
  pose proof (count_query m l 0 Hm Hl Hin ltac:(lia)) as Hq. change (Z.of_nat 0) with 0 in Hq. by rewrite Hq.
Qed.

Lemma transfers_request space descs : (forall n, length (space n) = Z.to_nat n) ->
  exists ts, zeCommandQueueExecuteCommandListsCopyMemoryRpcHelper true space m (u32 (Z.of_nat (length l))) (Some (chunkOf <$> l))
      (Some (Z.of_nat (total m l))) (Some descs) ⇓ (ZE_RESULT_SUCCESS, Some (Z.of_nat (total m l)), Some ts, m) /\
    Forall (backed (all_skels (memoryBlocks m))) ts /\ forall a, covered l a <-> exists t, t ∈ ts /\ touches_client t a.
Proof.
  intros Hsp. destruct transfers_bounds as [Ht Hlen]. unfold zeCommandQueueExecuteCommandListsCopyMemoryRpcHelper, zeCommandQueueExecuteCommandListsCopyMemoryRpcHelperHandler.
  cbn [negb from_option id cm_chunksCount]. rewrite (u32_id (Z.of_nat (length _))), (proj2 (Z.eqb_neq _ 0)) by (word_unfold; lia). cbn [cm_hasCount cm_hasChunks].
  rewrite !bool_decide_true by by eexists. cbn [negb orb cm_transferDescsCount cm_chunks]. rewrite (proj2 (Z.eqb_neq _ 0)) by lia.
  cbn [cm_hasDescs negb cm_transferDescs].
  destruct (transfers_query m l Hm Hl Hin 0%nat (space (Z.of_nat (total m l))) (Z.of_nat (total m l))) as (ts & Hq & Hlen' & Hb & Hc);
    [lia|rewrite Hsp; lia|lia|].
  change (Z.of_nat 0) with 0 in Hq. cbn [Nat.add take app] in Hq. rewrite Hq. cbn [mbind res_bind]. exists ts. rewrite drop_ge by (rewrite Hsp; lia).
  by rewrite app_nil_r.
Qed.

End requests.

(** C12: what the service reads is what the client has.  For chunks inside registered blocks
    (the files of which are distinct), writing the required memory always returns; the
    answer that it succeeded means that every byte of the chunks is in the shared file behind
    its address; and no byte of any file that does not stand for a chunk changes, whatever
    the answer. *)
Theorem writeRequiredMemory_correct {K} `{KL : KernelLaws K} (k : K) im mem files m l space called1 called2 :
  manager_ok m -> NoDup (fileId <$> all_skels (memoryBlocks m)) -> chunks_ok l -> Forall (in_block m) l ->
  Z.of_nat (length l) * Z.of_nat (length (all_skels (memoryBlocks m))) < W32 ->
  (forall n, length (space n) = Z.to_nat n) ->
  exists ret files' im' k', IcdL0CommandList_writeRequiredMemory called1 called2 space l m k im mem files ⇓ (ret, m, files', im', k') /\
    (ret = ZE_RESULT_SUCCESS -> forall a, covered l a -> exists x, x ∈ all_skels (memoryBlocks m) /\ in_chunk x a /\
       files' (fileId x) (a - fst x) = mem a) /\
    (forall i o, (forall x a, x ∈ all_skels (memoryBlocks m) -> in_chunk x a -> covered l a -> i = fileId x -> o <> a - fst x) ->
       files' i o = files i o).
Proof.
  intros Hm Hnd [Hl Hp] Hin Hn Hsp. unfold IcdL0CommandList_writeRequiredMemory. destruct l as [|c l'].
  { exists ZE_RESULT_SUCCESS, files, im, k. split; [done|]. split; [|done]. intros _ a Ha. by apply covered_elem in Ha as (c & Hc%elem_of_nil & _). }
  set (l := c :: l') in *. change (map (fun mw => (start mw, rsize mw)) l) with (chunkOf <$> l).
  assert (Hfail : forall (im' : ShmemImporter) (k' : K), exists ret files' im'' k'', Ret (ZE_RESULT_ERROR_OUT_OF_HOST_MEMORY, m, files, im', k') ⇓ (ret, m, files', im'', k'') /\
    (ret = ZE_RESULT_SUCCESS -> forall a, covered l a -> exists x, x ∈ all_skels (memoryBlocks m) /\ in_chunk x a /\ files' (fileId x) (a - fst x) = mem a) /\
    (forall i o, (forall x a, x ∈ all_skels (memoryBlocks m) -> in_chunk x a -> covered l a -> i = fileId x -> o <> a - fst x) -> files' i o = files i o)).
  { intros im' k'. by exists ZE_RESULT_ERROR_OUT_OF_HOST_MEMORY, files, im', k'. }
  destruct called1; [|apply Hfail]. replace (length (chunkOf <$> l)) with (length l) by by rewrite length_fmap.
  rewrite (count_request m l Hm Hl Hin ltac:(done) Hn) by done. cbn [mbind res_bind]. rewrite Z.eqb_refl. cbn [negb].
  destruct called2; [|apply Hfail].
  destruct (transfers_request m l Hm Hl Hin ltac:(done) Hn space (replicate (Z.to_nat (default 0 (Some (Z.of_nat (total m l))))) emptyTransfer) Hsp)
    as (ts & Hts & Hb & Hc). rewrite Hts. cbn [mbind res_bind from_option id]. rewrite Z.eqb_refl. cbn [negb].
  destruct (writeRequiredMemory_ok _ mem ts Hnd Hb k im files) as (ok & files' & im' & k' & Hw & Hun & _ & _ & Hall).
  rewrite Hw. cbn [mbind res_bind]. eexists _, files', im', k'. split; [reflexivity|]. split.
  - destruct ok; [|done]. intros _ a Ha. apply Hc in Ha as (t & Ht & Hta). rewrite Forall_forall in Hb.
    destruct (backed_places _ t a (Hb t Ht) Hta) as (x & Hx & Hxa & _ & _ & Htf). exists x. split; [done|]. split; [done|].
    rewrite (Hall eq_refl t x _ Ht Hx Htf). f_equal. lia.
  - intros i o Hno. apply Hun. intros t Ht Htf. rewrite Forall_forall in Hb.
    destruct (backed_places' _ t i o (Hb t Ht) Htf) as (x & a & Hx & Hxa & Hta & Hi & Ho). apply (Hno x a Hx Hxa); [|done|done].
    apply Hc. by exists t.
Qed.

(** ** The way back *)

Section reader_lemmas.
Context {K : Type} `{KL : KernelLaws K}.

Lemma valid_file x : sk_valid x -> fileId x <> -1.
Proof.
  unfold sk_valid, fileId. destruct x as [f a]. cbn. intros Hv He. apply andb_true_iff in Hv as [_ Hv]. cbn in Hv. by rewrite He in Hv.
Qed.

(** Reading: when all transfers succeed, the bytes of the files are at their addresses; the
    other addresses keep what they had. *)
Lemma copyMappedMemory_ok (sk : list Skeleton) files ts : Forall sk_valid sk -> Forall (backed sk) ts ->
  (forall x y a, x ∈ sk -> y ∈ sk -> in_chunk x a -> in_chunk y a -> x = y) ->
  forall (k : K) im usm mem, exists ok mem' im' k', copyMappedMemory k im usm files mem ts ⇓ (ok, mem', usm, im', k') /\
    (forall a, (forall t, t ∈ ts -> ~ touches_client t a) -> mem' a = mem a) /\
    (forall x a, x ∈ sk -> in_chunk x a -> mem a = files (fileId x) (a - fst x) -> mem' a = files (fileId x) (a - fst x)) /\
    (ok = true -> forall t x a, t ∈ ts -> x ∈ sk -> in_chunk x a -> touches_client t a -> mem' a = files (fileId x) (a - fst x)).
Proof.
  intros Hv Hb Hu. induction Hb as [|t ts Hbt Hts IH]; intros k im usm mem; cbn [copyMappedMemory].
  { exists true, mem, im, k. split; [done|]. split; [done|]. split; [done|]. intros _ t x a Ht. by apply elem_of_nil in Ht. }
  pose proof Hbt as (y & Hy & Hid & Hus & Hoff & H0 & Hle). fold (fileId y) in Hid.
  rewrite Hid, (proj2 (Z.eqb_neq _ _)) by (apply valid_file; rewrite Forall_forall in Hv; auto). cbn [negb].
  assert (Hstop : forall (im' : ShmemImporter) (k' : K), exists ok mem' im'' k'', Ret (false, mem, usm, im', k') ⇓ (ok, mem', usm, im'', k'') /\
    (forall a, (forall t', t' ∈ t :: ts -> ~ touches_client t' a) -> mem' a = mem a) /\
    (forall x a, x ∈ sk -> in_chunk x a -> mem a = files (fileId x) (a - fst x) -> mem' a = files (fileId x) (a - fst x)) /\
    (ok = true -> forall t' x a, t' ∈ t :: ts -> x ∈ sk -> in_chunk x a -> touches_client t' a -> mem' a = files (fileId x) (a - fst x))).
  { intros im' k'. by exists false, mem, im', k'. }
  destruct (openTransfer k im t) as [[shmem im1] k1] eqn:Hop. destruct (isValid shmem) eqn:Hvs; cbn [negb]; [|apply Hstop].
  destruct (openTransfer_size _ _ _ _ _ _ Hop Hvs) as [Hsz _]. unfold outOfMapping. rewrite Hsz, Hus, (proj2 (Z.ltb_ge _ _)) by lia.
  destruct (import_release k1 im1 shmem) as [im2 k2]. set (mem1 := copyBytes mem _ _ _ _).
  assert (Hone : forall x a, x ∈ sk -> in_chunk x a -> touches_client t a -> mem1 a = files (fileId x) (a - fst x)).
  { intros x a Hx Hxa Ha. unfold mem1. rewrite copyBytes_in by done.
    assert (x = y) as -> by (apply (Hu x y a); [done|done|done|]; unfold in_chunk, touches_client in *; lia). f_equal. lia. }
  assert (Hother : forall a, ~ touches_client t a -> mem1 a = mem a) by (intros a Ha; by apply copyBytes_out).
  assert (Hdec : forall a, touches_client t a \/ ~ touches_client t a) by (intros a; unfold touches_client; lia).
  destruct (IH k2 im2 usm mem1) as (ok & mem' & im' & k' & Hw & Hun & Hkeep & Hall). exists ok, mem', im', k'. split; [done|].
  split; [|split].
  - intros a Hn. rewrite Hun; [apply Hother, Hn; by left|]. intros t' Ht'. apply Hn. by right.
  - intros x a Hx Hxa Hm. apply Hkeep; [done|done|]. destruct (Hdec a) as [Ha|Ha]; [auto|]. by rewrite Hother.
  - intros Hok t' x a [->|Ht']%elem_of_cons Hx Hxa Ha; [|eauto]. apply Hkeep; auto.
Qed.

(** The loop takes what the ring holds. *)
Lemma getHostptrCopiesToUpdate_ok fuel c : inv (cl_copies c) -> Forall (fun t => bytesCountToCopy t <> 0) (queue (cl_copies c)) ->
  (length (queue (cl_copies c)) < fuel)%nat ->
  exists c', getHostptrCopiesToUpdate fuel c ⇓ (queue (cl_copies c), c') /\ peekEmpty (cl_copies c') = true /\ ring_ok (cl_copies c').
Proof.
  intros Hi. apply inv_ok in Hi. revert c Hi. induction fuel as [|fuel IH]; intros c Hi Hq Hf; [lia|]. cbn [getHostptrCopiesToUpdate].
  unfold acquireHostptrCopiesUpdate. destruct (peekEmpty (cl_copies c)) eqn:He; cbn [mbind res_bind].
  - exists c. split; [|done]. cbn. by rewrite (proj1 (peekEmpty_queue _ Hi) He).
  - destruct (pop_correct _ Hi He) as (x & Hx & _ & Hqx & _ & Hok & _). rewrite Hx. cbn [mbind res_bind]. rewrite Hqx in Hq, Hf |- *.
    apply Forall_cons in Hq as [Hx0 Hq]. rewrite (proj2 (Z.eqb_neq _ _)) by done. cbn [length] in Hf.
    set (c1 := set_copies c (fst (pop (cl_copies c)))).
    destruct (IH c1 Hok Hq ltac:(cbn; lia)) as (c' & Hr & He' & Hok'). exists c'. rewrite Hr. done.
Qed.

(** The service's pushes end up in the ring in their order. *)
Lemma pushTransfers_ok ts : forall s s', inv (sv_copies s) -> Ring.pending (sv_copies s) = [] -> pushTransfers s ts ⇓ (s', true) ->
  inv (sv_copies s') /\ queue (sv_copies s') = queue (sv_copies s) ++ ts.
Proof.
  induction ts as [|t ts IH]; intros s s' Hi Hp; cbn [pushTransfers].
  - intros [= <-]. by rewrite app_nil_r.
  - unfold pushHostptrCopyToUpdate. destruct (push_correct (sv_copies s) t false Hi) as (r & ok & Hr & _ & Hi' & _ & _ & Hpd).
    rewrite Hr. cbn [mbind res_bind]. destruct ok; [|done]. destruct Hpd as [Hq Hpe]. intros Hrest.
    apply IH in Hrest as [Hi2 Hq2]; [|exact Hi'|exact Hpe]. split; [done|]. rewrite Hq2. cbn [sv_copies]. rewrite Hq, Hp. by rewrite <- app_assoc.
Qed.

End reader_lemmas.

(** C13: a finished copy reaches the program's memory.  The service pushed the transfers of
    registered blocks into the ring, which was empty; the client, reading the same ring,
    terminates with as much fuel as there are transfers, takes all of them, and when it
    reports success every byte named by one of them is the byte of the shared file; the
    rest of its memory is as before, whatever the result. *)
Theorem finished_copies_reach_memory {K} `{KL : KernelLaws K} (k : K) m (sv sv' : ChannelServer) ts (c : ChannelClient) fuel im usm files mem :
  manager_ok m -> Forall sk_valid (all_skels (memoryBlocks m)) -> Forall (backed (all_skels (memoryBlocks m))) ts ->
  Forall (fun t => bytesCountToCopy t <> 0) ts ->
  inv (sv_copies sv) -> queue (sv_copies sv) = [] -> Ring.pending (sv_copies sv) = [] ->
  pushTransfers sv ts ⇓ (sv', true) -> cl_copies c = sv_copies sv' -> (length ts < fuel)%nat ->
  exists ret c' mem' im' k', readMemory fuel c k im usm files mem ⇓ (ret, c', mem', usm, im', k') /\ peekEmpty (cl_copies c') = true /\
    (ret = ZE_RESULT_SUCCESS -> forall t a, t ∈ ts -> touches_client t a ->
       mem' a = files (shmemId t) (offsetFromResourceStart t + (a - clientAddress t))) /\
    (forall a, (forall t, t ∈ ts -> ~ touches_client t a) -> mem' a = mem a).
Proof.
  intros Hm Hv Hb Hpos Hi Hq Hp Hpush Hc Hfuel. destruct (pushTransfers_ok _ _ _ Hi Hp Hpush) as [Hi' Hq']. rewrite Hq in Hq'. cbn in Hq'.
  rewrite <- Hc in Hi', Hq'. rewrite <- Hq' in Hpos, Hfuel. destruct (getHostptrCopiesToUpdate_ok fuel c Hi' Hpos Hfuel) as (c' & Hget & He & _).
  unfold readMemory. rewrite Hget, Hq'. cbn [mbind res_bind]. destruct ts as [|t0 ts0].
  { exists ZE_RESULT_SUCCESS, c', mem, im, k. split; [done|]. split; [done|]. split; [|done]. intros _ t a Ht. by apply elem_of_nil in Ht. }
  set (ts := t0 :: ts0) in *. unfold manager_ok in Hm.
  destruct (copyMappedMemory_ok _ files ts Hv Hb (fun x y a => skels_unique 0 _ x y a Hm) k im usm mem)
    as (ok & mem' & im' & k' & Hr & Hun & _ & Hall).
  rewrite Hr. cbn [mbind res_bind]. eexists _, c', mem', im', k'. split; [reflexivity|]. split; [done|]. split; [|done].
  destruct ok; [|done]. intros _ t a Ht Hta. rewrite Forall_forall in Hb.
  destruct (backed_places _ t a (Hb t Ht) Hta) as (x & Hx & Hxa & Hid & Hoff & _). rewrite Hid, Hoff. by apply (Hall eq_refl t).
Qed.

(** A transfer through USM memory that the reader was not told about writes to a null
    pointer. *)
Theorem unknown_usm_transfer_is_undefined {K} `{Kernel K} (k : K) im (usm : gmap Z Z) files mem t ts :
  shmemId t = -1 -> usm !! offsetFromResourceStart t = None -> copyMappedMemory k im usm files mem (t :: ts) = Undef.
Proof. intros Hid Hu. cbn [copyMappedMemory]. rewrite Hid. cbn. by rewrite Hu. Qed.

(** A staged USM range can be asked for like a chunk of a block, but the client then
    refuses the transfer that the service answers: execution of the list fails. *)
Theorem usm_transfer_is_refused {K} `{Kernel K} (k : K) im mem files t ts :
  shmemId t = -1 -> writeRequiredMemory k im mem files (t :: ts) ⇓ (false, files, im, k).
Proof. intros Hid. cbn [writeRequiredMemory]. by rewrite Hid. Qed.

(** * Concrete runs *)

Ltac chunks_dec :=
  split; [repeat (constructor; [unfold chunk_ok; cbn; lia|]); constructor
         |cbn [pairwise]; repeat split; repeat (constructor; [unfold disjoint; cbn; lia|]); constructor].

(** A range that overlaps the first and the last of three chunks. *)
Lemma registerMemoryToWrite_adds_witness :
  exists l', registerMemoryToContainer 0x5180 0x200 [mkRange 0x5100 0x5200; mkRange 0x7800 0x7900; mkRange 0x5300 0x5400] ⇓ l' /\
    chunks_ok l' /\ covered l' 0x5250.
Proof.
  destruct (registerMemoryToWrite_adds 0x5180 0x200 [mkRange 0x5100 0x5200; mkRange 0x7800 0x7900; mkRange 0x5300 0x5400])
    as (l' & Hr & Hok & Hc); [|lia|lia|lia|].
  - chunks_dec.
  - exists l'. split; [done|]. split; [done|]. apply Hc. lia.
Defined.

Definition exampleImporter : ShmemImporter := mkImporter (sh_basePath exampleAllocator) ∅ true.
Definition exampleChunks : list AddressRange := [mkRange 0x5100 0x5200; mkRange 0x7800 0x8800].
Definition noFiles : Files := fun _ _ => 0.
Definition addresses : Memory := fun a => a.

Lemma exampleChunks_ok : chunks_ok exampleChunks /\ Forall (in_block exampleManager) exampleChunks.
Proof.
  split; [chunks_dec|]. constructor; [|constructor; [|constructor]].
  - exists 0x5000, (snd (nth 0 (memoryBlocks exampleManager) (0, exampleBlock))). split; [vm_compute; left|by vm_compute].
  - exists 0x7000, (snd (nth 1 (memoryBlocks exampleManager) (0, exampleBlock))). split; [vm_compute; right; left|by vm_compute].
Qed.

Definition exampleWrite :=
  IcdL0CommandList_writeRequiredMemory true true (fun n => replicate (Z.to_nat n) emptyTransfer) exampleChunks exampleManager
    exampleKernel exampleImporter addresses noFiles.

Lemma writeRequiredMemory_correct_witness :
  exists files' im' k', exampleWrite ⇓ (ZE_RESULT_SUCCESS, exampleManager, files', im', k') /\
    exists x, x ∈ all_skels (memoryBlocks exampleManager) /\ in_chunk x 0x8000 /\ files' (fileId x) (0x8000 - fst x) = 0x8000.
Proof.
  destruct (writeRequiredMemory_correct exampleKernel exampleImporter addresses noFiles exampleManager exampleChunks
              (fun n => replicate (Z.to_nat n) emptyTransfer) true true (proj2 example_ok)) as (ret & files' & im' & k' & Hr & Hok & _).
  - vm_compute. repeat constructor; set_solver.
  - apply exampleChunks_ok.
  - apply exampleChunks_ok.
  - by vm_compute.
  - intros n. apply length_replicate.
  - assert (Hret : ret = ZE_RESULT_SUCCESS).
    { assert (Hs : match exampleWrite with Ret (r, _, _, _, _) => r | _ => 1 end = ZE_RESULT_SUCCESS) by by vm_compute.
      unfold exampleWrite in Hs. by rewrite Hr in Hs. }
    subst ret. exists files', im', k'. split; [exact Hr|]. apply (Hok eq_refl). apply covered_elem.
    exists (mkRange 0x7800 0x8800). split; [right; left|unfold inside; cbn; lia].
Defined.

(** The finished copy of a range that spans both blocks' files, through a ring of four. *)
Definition exampleRing : TypedRing TransferDesc := mkRing (replicate 4 emptyTransfer) 4 3 3 0 0.
Definition readServer : ChannelServer :=
  mkServer (cl_shmem exampleClient) exampleLayout (cl_ring exampleClient) exampleRing (cl_callbacks exampleClient) activePolling false.
Definition exampleDescs : list TransferDesc :=
  match getRequiredTransferDescsOfRange exampleManager (mkRange 0x7800 0x8800) [] with Ret (_, descs, _) => descs | _ => [] end.
Definition pushedServer : ChannelServer := match pushTransfers readServer exampleDescs with Ret (s, _) => s | _ => readServer end.
Definition readClient : ChannelClient := set_copies exampleClient (sv_copies pushedServer).

Lemma finished_copies_reach_memory_witness :
  exists c' mem' im' k', readMemory 9 readClient exampleKernel exampleImporter ∅ (fun i o => i * 0x10000 + o) addresses
      ⇓ (ZE_RESULT_SUCCESS, c', mem', ∅, im', k') /\ peekEmpty (cl_copies c') = true /\ mem' 0x7900 = 0x10900.
Proof.
  destruct (range_transfers exampleManager 0x7000 (snd (nth 1 (memoryBlocks exampleManager) (0, exampleBlock))) 0x7800 0x1000 [] (proj2 example_ok))
    as (ts & Hts & Hcov & Hb); [vm_compute; right; left|lia|by vm_compute|by vm_compute|by vm_compute|].
  assert (Hd : exampleDescs = ts) by (unfold exampleDescs; change (mkRange 0x7800 0x8800) with (mkRange 0x7800 (0x7800 + 0x1000)); by rewrite Hts).
  destruct (finished_copies_reach_memory exampleKernel exampleManager readServer pushedServer exampleDescs readClient 9 exampleImporter ∅
              (fun i o => i * 0x10000 + o) addresses (proj2 example_ok)) as (ret & c' & mem' & im' & k' & Hr & He & Hok & Hun).
  - by apply Forall_valid_dec; vm_compute.
  - rewrite Hd. eapply Forall_impl; [exact Hb|]. intros t. apply backed_incl. apply (skels_in_all _ _ 0x7000). vm_compute. right. left.
  - vm_compute. repeat (constructor; [discriminate|]). constructor.
  - constructor; unfold count; cbn -[Z.modulo]; rewrite ?Z.mod_small by lia; lia.
  - reflexivity.
  - reflexivity.
  - vm_compute. reflexivity.
  - reflexivity.
  - vm_compute. lia.
  - assert (Hret : ret = ZE_RESULT_SUCCESS).
    { assert (Hs : match readMemory 9 readClient exampleKernel exampleImporter ∅ (fun i o => i * 0x10000 + o) addresses with
                   | Ret (r, _, _, _, _, _) => r | _ => 1 end = ZE_RESULT_SUCCESS) by by vm_compute. by rewrite Hr in Hs. }
    subst ret. exists c', mem', im', k'. split; [exact Hr|]. split; [exact He|]. 
    rewrite (Hok eq_refl (nth 0 exampleDescs emptyTransfer) 0x7900); [vm_compute; reflexivity|vm_compute; left|vm_compute; split; [discriminate|reflexivity]].
Defined.

Definition usmTransfer : TransferDesc := mkTransfer (-1) 0 16 0x3000 0 ServiceToClient.

Lemma unknown_usm_transfer_is_undefined_witness :
  copyMappedMemory Toy.fresh exampleImporter ∅ noFiles addresses [usmTransfer] = Undef /\
  copyMappedMemory Toy.fresh exampleImporter (addToMap ∅ 0x3000 0x4000) noFiles addresses [usmTransfer] <> Undef.
Proof. split; [by apply unknown_usm_transfer_is_undefined|]. by vm_compute. Defined.

Lemma usm_transfer_is_refused_witness :
  writeRequiredMemory Toy.fresh exampleImporter addresses noFiles [usmTransfer] ⇓ (false, noFiles, exampleImporter, Toy.fresh).
Proof. by apply usm_transfer_is_refused. Defined.

Lemma empty_copy_aborts_client_witness : registerMemoryToContainer 0x5000 0 [] = Abort.
Proof. apply empty_copy_aborts_client. lia. Defined.
