(* ===== verification/StagingAreas.v ===== *)
(** Staging areas: USM host memory that stands in for memory of the application in
    commands of immediate command lists.  [StagingAreaManager] of
    shared/staging_area_manager.h, the temporary allocations of a command list
    (client/icd/level_zero/icd_level_zero.cpp) and the generated copy commands that use them
    (generated_icd_level_zero.cpp). *)

From stdpp Require Import gmap.
From S2P Require Import Prelude.
From S2P Require Import FlatMap.
From S2P Require Import Transfers.
Local Open Scope Z_scope.

(** * The source of areas

    [zeMemAllocHost] and [zeMemFree] of the client; a null pointer is the failure. *)
Class AreaSource (D : Type) := {
  area_allocate : D -> Z -> Z * D;
  area_deallocate : D -> Z -> D
}.

(** Memory ranges given by their address and size. *)
Abbreviation Area := (Z * Z)%type.

Definition apart (x y : Area) : Prop := fst x + snd x <= fst y \/ fst y + snd y <= fst x.

(** What allocations of host memory promise: those that are live have distinct addresses
    and do not overlap, and only the one that is freed goes away. *)
Class AreaSourceLaws (D : Type) `{AreaSource D} := {
  live : D -> list Area;
  live_distinct d : NoDup (fst <$> live d);
  live_apart d x y : x ∈ live d -> y ∈ live d -> x <> y -> apart x y;
  allocate_law d size p d' : area_allocate d size = (p, d') ->
    if decide (p = 0) then live d' ≡ₚ live d else live d' ≡ₚ (p, size) :: live d;
  deallocate_law d p size : (p, size) ∈ live d -> live d ≡ₚ (p, size) :: live (area_deallocate d p);
  deallocate_null d : live (area_deallocate d 0) ≡ₚ live d
}.

(** * StagingAreaManager *)

Record StagingArea := mkArea { sa_ptr : Z; sa_size : Z; isInUse : bool }.

(** [allocations], and the state behind allocator and deallocator. *)
Record Manager (D : Type) := mkAreas { allocations : list StagingArea; source : D }.
Arguments mkAreas {D} allocations source.
Arguments allocations {D} m.
Arguments source {D} m.

(** The first area of the size that is not in use. *)
Fixpoint takeArea (l : list StagingArea) (size : Z) : option (Z * list StagingArea) :=
  match l with
  | [] => None
  | it :: l =>
      if negb (isInUse it) && (sa_size it =? size)
      then Some (sa_ptr it, mkArea (sa_ptr it) (sa_size it) true :: l)
      else match takeArea l size with Some (p, l) => Some (p, it :: l) | None => None end
  end.

Fixpoint markUnused (l : list StagingArea) (ptr : Z) : list StagingArea :=
  match l with
  | [] => []
  | it :: l => if sa_ptr it =? ptr then mkArea (sa_ptr it) (sa_size it) false :: l else it :: markUnused l ptr
  end.

Fixpoint eraseArea (l : list StagingArea) (ptr : Z) : option (list StagingArea) :=
  match l with
  | [] => None
  | it :: l => if sa_ptr it =? ptr then Some l else cons it <$> eraseArea l ptr
  end.

Section manager.
Context {D : Type} `{AreaSource D}.
Implicit Types m : Manager D.

Definition clearStagingAreaAllocations m : Manager D :=
  mkAreas [] (foldl area_deallocate (source m) (sa_ptr <$> allocations m)).

Definition allocateStagingArea m (size : Z) : Z * Manager D :=
  match takeArea (allocations m) size with
  | Some (p, l) => (p, mkAreas l (source m))
  | None =>
      let (alloc, d) := area_allocate (source m) size in
      (alloc, mkAreas (allocations m ++ [mkArea alloc size true]) d)
  end.

Definition releaseStagingArea m (ptr : Z) : Manager D := mkAreas (markUnused (allocations m) ptr) (source m).

Definition deallocateStagingArea m (ptr : Z) : Manager D :=
  match eraseArea (allocations m) ptr with
  | Some l => mkAreas l (area_deallocate (source m) ptr)
  | None => m
  end.

(** The handle of an area releases it when it dies; a null handle does nothing. *)
Definition dropArea m (ptr : Z) : Manager D := if ptr =? 0 then m else releaseStagingArea m ptr.

(** ** Who holds which area

    [held] lists the areas that were handed out and not given back. *)
Inductive area_step : Manager D * list Z -> Manager D * list Z -> Prop :=
| as_allocate m held size p m' : allocateStagingArea m size = (p, m') ->
    area_step (m, held) (m', if decide (p = 0) then held else p :: held)
| as_release m held1 p held2 : area_step (m, held1 ++ p :: held2) (releaseStagingArea m p, held1 ++ held2)
| as_deallocate m held1 p held2 : area_step (m, held1 ++ p :: held2) (deallocateStagingArea m p, held1 ++ held2)
| as_clear m : area_step (m, []) (clearStagingAreaAllocations m, []).

End manager.

(** * Lemmas *)

Definition areaOf (it : StagingArea) : Area := (sa_ptr it, sa_size it).
Definition usable (it : StagingArea) : bool := negb (sa_ptr it =? 0).

(** The areas that exist, and those of them that are in use. *)
Definition existing (l : list StagingArea) : list StagingArea := List.filter usable l.
Definition used (l : list StagingArea) : list StagingArea := List.filter isInUse (existing l).

Lemma existing_app l1 l2 : existing (l1 ++ l2) = existing l1 ++ existing l2.
Proof. apply List.filter_app. Qed.

Lemma used_app l1 l2 : used (l1 ++ l2) = used l1 ++ used l2.
Proof. unfold used. by rewrite existing_app, List.filter_app. Qed.

Lemma takeArea_split l size : match takeArea l size with
  | Some (p, l') => exists l1 l2, l = l1 ++ mkArea p size false :: l2 /\ l' = l1 ++ mkArea p size true :: l2
  | None => Forall (fun it => isInUse it = true \/ sa_size it <> size) l
  end.
Proof.
  induction l as [|[q n u] l IH]; cbn [takeArea isInUse sa_size sa_ptr]; [constructor|].
  destruct u; cbn [negb andb]; [|destruct (Z.eqb_spec n size) as [->|Hn]; [by exists [], l|]].
  all: destruct (takeArea l size) as [[p l']|].
  1, 3: destruct IH as (l1 & l2 & -> & ->).
  - by exists (mkArea q n true :: l1), l2.
  - by exists (mkArea q n false :: l1), l2.
  - constructor; [by left|done].
  - constructor; [by right|done].
Qed.

Lemma markUnused_split l p : p ∈ sa_ptr <$> l ->
  exists l1 it l2, l = l1 ++ it :: l2 /\ sa_ptr it = p /\ p ∉ sa_ptr <$> l1 /\
    markUnused l p = l1 ++ mkArea p (sa_size it) false :: l2 /\ eraseArea l p = Some (l1 ++ l2).
Proof.
  induction l as [|it l IH]; cbn [fmap list_fmap]; [by intros ?%elem_of_nil|]. cbn [markUnused eraseArea].
  destruct (Z.eqb_spec (sa_ptr it) p) as [He|He].
  - intros _. exists [], it, l. split; [done|]. split; [done|]. split; [cbn; by apply not_elem_of_nil|]. cbn. by rewrite He.
  - intros [Hp|Hp]%elem_of_cons; [congruence|]. destruct (IH Hp) as (l1 & x & l2 & -> & Hx & Hn & Hm & He').
    exists (it :: l1), x, l2. split; [done|]. split; [done|]. split; [cbn; rewrite not_elem_of_cons; split; [congruence|done]|].
    split; [by rewrite Hm|by rewrite He'].
Qed.

Lemma elem_existing l it : it ∈ existing l <-> it ∈ l /\ sa_ptr it <> 0.
Proof. unfold existing. rewrite elem_filter. unfold usable. by rewrite negb_true_iff, Z.eqb_neq. Qed.

Section manager_lemmas.
Context {D : Type} `{AL : AreaSourceLaws D}.
Implicit Types m : Manager D.

(** The areas of the manager are live allocations, and those in use are the ones held. *)
Record areas_ok m (held : list Z) : Prop := mkAreasOk {
  ao_live : exists rest, live (source m) ≡ₚ (areaOf <$> existing (allocations m)) ++ rest;
  ao_held : held ≡ₚ sa_ptr <$> used (allocations m)
}.

#[export] Instance areas_ok_perm m : Proper ((≡ₚ) ==> iff) (areas_ok m).
Proof. intros h1 h2 Hp. split; intros [Hl Hh]; constructor; [done|by rewrite <- Hp|done|by rewrite Hp]. Qed.

Lemma ptrs_distinct m held : areas_ok m held -> NoDup (sa_ptr <$> existing (allocations m)).
Proof.
  intros [(rest & Hl) _]. pose proof (live_distinct (source m)) as Hnd. rewrite Hl, fmap_app in Hnd. apply NoDup_app in Hnd as (Hnd & _).
  by rewrite <- list_fmap_compose in Hnd.
Qed.

Lemma held_distinct m held : areas_ok m held -> NoDup held.
Proof.
  intros Hok. rewrite (ao_held _ _ Hok). pose proof (ptrs_distinct _ _ Hok) as Hnd. unfold used.
  induction (existing (allocations m)) as [|it l IH]; cbn in *; [constructor|]. apply NoDup_cons in Hnd as [Hn Hnd].
  destruct (isInUse it); [|auto]. cbn. apply NoDup_cons. split; [|auto]. intros Hin. apply Hn.
  apply list_elem_of_fmap in Hin as (x & Hx & Hin). apply elem_filter in Hin as [Hin _]. rewrite Hx. by apply list_elem_of_fmap_2.
Qed.

Lemma held_used m held p : areas_ok m held -> p ∈ held -> exists it, it ∈ allocations m /\ sa_ptr it = p /\ p <> 0 /\ isInUse it = true.
Proof.
  intros Hok Hp. rewrite (ao_held _ _ Hok) in Hp. apply list_elem_of_fmap in Hp as (it & -> & Hin).
  unfold used in Hin. apply elem_filter in Hin as [[Hin Hnz]%elem_existing Hu]. by exists it.
Qed.

(** Where the area that is given back is in the vector. *)
Lemma held_split m held p : areas_ok m held -> p ∈ held ->
  exists l1 n l2, allocations m = l1 ++ mkArea p n true :: l2 /\ p <> 0 /\
    markUnused (allocations m) p = l1 ++ mkArea p n false :: l2 /\ eraseArea (allocations m) p = Some (l1 ++ l2).
Proof.
  intros Hok Hp. destruct (held_used _ _ _ Hok Hp) as (x & Hx & Hxp & Hp0 & Hu).
  destruct (markUnused_split (allocations m) p) as (l1 & it & l2 & Hl & Hit & Hn & Hm & He); [rewrite <- Hxp; by apply list_elem_of_fmap_2|].
  pose proof (ptrs_distinct _ _ Hok) as Hnd. rewrite Hl, existing_app, fmap_app in Hnd.
  change (it :: l2) with ([it] ++ l2) in Hnd. rewrite existing_app, fmap_app in Hnd. unfold existing at 2 in Hnd. cbn [List.filter] in Hnd.
  unfold usable at 1 in Hnd. rewrite Hit, (proj2 (Z.eqb_neq p 0)) in Hnd by done. cbn [negb fmap list_fmap app] in Hnd. rewrite Hit in Hnd.
  assert (Heq : x = it).
  { rewrite Hl in Hx. apply elem_of_app in Hx as [Hx|[Hx|Hx]%elem_of_cons]; [|done|].
    - destruct Hn. rewrite <- Hxp. by apply list_elem_of_fmap_2.
    - apply NoDup_app in Hnd as (_ & _ & Hnd). apply NoDup_cons in Hnd as [Hnd _]. destruct Hnd. rewrite <- Hxp.
      apply list_elem_of_fmap_2, elem_existing. split; [done|congruence]. }
  subst x. destruct it as [q n u]. cbn in *. subst q u. by exists l1, n, l2.
Qed.

Lemma used_middle l1 l2 p n : p <> 0 -> used (l1 ++ mkArea p n true :: l2) = used l1 ++ mkArea p n true :: used l2 /\
  used (l1 ++ mkArea p n false :: l2) = used l1 ++ used l2.
Proof.
  intros Hp. rewrite !used_app. unfold used, existing. cbn [List.filter]. unfold usable. cbn [sa_ptr].
  by rewrite (proj2 (Z.eqb_neq p 0)) by done.
Qed.

Lemma existing_middle l1 l2 p n u : p <> 0 -> existing (l1 ++ mkArea p n u :: l2) = existing l1 ++ mkArea p n u :: existing l2.
Proof.
  intros Hp. rewrite existing_app. f_equal. unfold existing at 1. cbn [List.filter]. unfold usable. cbn [sa_ptr].
  by rewrite (proj2 (Z.eqb_neq p 0)) by done.
Qed.

Lemma areas_cons_null l p n u : p = 0 -> existing (l ++ [mkArea p n u]) = existing l /\ used (l ++ [mkArea p n u]) = used l.
Proof. intros ->. rewrite used_app, existing_app. unfold used. cbn. by rewrite !app_nil_r. Qed.

(** What an allocation returns: nothing, or an area of the size that nobody holds and that
    overlaps no area that somebody holds. *)
Definition handed_out m held (size p : Z) m' : Prop :=
  if decide (p = 0) then areas_ok m' held
  else areas_ok m' (p :: held) /\ p ∉ held /\ mkArea p size true ∈ allocations m' /\
    (forall it, it ∈ allocations m' -> sa_ptr it ∈ held -> apart (p, size) (areaOf it)) /\ (p, size) ∈ live (source m').

Lemma handed_out_fresh m held size p m' : p <> 0 -> areas_ok m' (p :: held) -> mkArea p size true ∈ allocations m' -> handed_out m held size p m'.
Proof.
  intros Hp Hok Hin. unfold handed_out. rewrite decide_False by done. pose proof (held_distinct _ _ Hok) as Hnd. apply NoDup_cons in Hnd as [Hn _].
  destruct (ao_live _ _ Hok) as (rest & Hl).
  assert (Hlive : forall it, it ∈ allocations m' -> sa_ptr it <> 0 -> areaOf it ∈ live (source m')).
  { intros it Hit H0. rewrite Hl. apply elem_of_app. left. by apply list_elem_of_fmap_2, elem_existing. }
  split; [done|]. split; [done|]. split; [done|]. split; [|by apply (Hlive _ Hin)]. intros it Hit Hh.
  destruct (held_used _ _ (sa_ptr it) Hok ltac:(by right)) as (_ & _ & _ & H0 & _).
  apply (live_apart (source m')); [by apply (Hlive _ Hin)|by apply Hlive|]. intros He. apply Hn. unfold areaOf in He. injection He as -> _. done.
Qed.

Lemma allocate_ok m held size p m' : areas_ok m held -> allocateStagingArea m size = (p, m') -> handed_out m held size p m'.
Proof.
  intros Hok. unfold allocateStagingArea. pose proof (takeArea_split (allocations m) size) as Ht.
  destruct Hok as [(rest & Hl) Hh]. destruct (takeArea (allocations m) size) as [[q l']|].
  - intros [= <- <-]. destruct Ht as (l1 & l2 & Hs & ->). rewrite Hs in Hl, Hh. destruct (decide (q = 0)) as [->|Hq].
    + unfold handed_out. rewrite decide_True by done. constructor.
      * exists rest. cbn [source allocations]. rewrite Hl. unfold existing. by rewrite !List.filter_app.
      * cbn [allocations]. rewrite Hh. unfold used, existing. by rewrite !List.filter_app.
    + apply handed_out_fresh; [done| |cbn [allocations]; apply elem_of_app; right; by left]. constructor; cbn [allocations source].
      * exists rest. rewrite existing_middle in * by done. rewrite Hl. by rewrite !fmap_app.
      * rewrite (proj1 (used_middle _ _ _ _ Hq)), fmap_app. rewrite (proj2 (used_middle _ _ _ _ Hq)), fmap_app in Hh. cbn. rewrite Hh.
        by rewrite Permutation_middle.
  - destruct (area_allocate (source m) size) as [q d'] eqn:Ha. intros [= <- <-]. apply allocate_law in Ha. destruct (decide (q = 0)) as [->|Hq].
    + unfold handed_out. rewrite decide_True by done. destruct (areas_cons_null (allocations m) 0 size true eq_refl) as [He Hu].
      constructor; cbn [allocations source]; [exists rest; by rewrite He, Ha|by rewrite Hu].
    + apply handed_out_fresh; [done| |cbn [allocations]; apply elem_of_app; right; by left]. constructor; cbn [allocations source].
      * exists rest. rewrite existing_middle, Ha, Hl by done. unfold existing at 3. cbn [List.filter]. rewrite fmap_app. cbn.
        rewrite <- app_assoc. cbn. by rewrite <- Permutation_middle.
      * rewrite (proj1 (used_middle _ _ _ _ Hq)), fmap_app. cbn. rewrite Hh. by rewrite Permutation_app_comm.
Qed.

Lemma give_back m held1 p held2 : areas_ok m (held1 ++ p :: held2) ->
  areas_ok (releaseStagingArea m p) (held1 ++ held2) /\ areas_ok (deallocateStagingArea m p) (held1 ++ held2).
Proof.
  intros Hok. destruct (held_split _ _ p Hok) as (l1 & n & l2 & Hs & Hp & Hm & He); [apply elem_of_app; right; by left|].
  destruct Hok as [(rest & Hl) Hh]. rewrite Hs in Hl, Hh. rewrite (proj1 (used_middle _ _ _ n Hp)), fmap_app in Hh. cbn in Hh.
  rewrite <- !Permutation_middle in Hh. apply Permutation_cons_inv in Hh. rewrite existing_middle in Hl by done.
  unfold releaseStagingArea, deallocateStagingArea. rewrite He, Hm. split; constructor; cbn [allocations source].
  - exists rest. rewrite existing_middle, Hl by done. by rewrite !fmap_app.
  - by rewrite (proj2 (used_middle _ _ _ n Hp)), fmap_app.
  - exists rest. rewrite existing_app. assert (Hin : (p, n) ∈ live (source m)).
    { rewrite Hl, fmap_app. cbn. set_solver. }
    pose proof (deallocate_law _ _ _ Hin) as Hd. rewrite Hl, fmap_app in Hd. cbn in Hd. rewrite <- app_assoc in Hd. cbn in Hd.
    rewrite <- Permutation_middle in Hd. apply Permutation_cons_inv in Hd. rewrite <- Hd, fmap_app. by rewrite <- app_assoc.
  - by rewrite used_app, fmap_app.
Qed.

(** Clearing deallocates everything: nothing of the manager stays live. *)
Lemma clear_ok m : areas_ok m [] -> areas_ok (clearStagingAreaAllocations m) [] /\
  live (source m) ≡ₚ (areaOf <$> existing (allocations m)) ++ live (source (clearStagingAreaAllocations m)).
Proof.
  intros [(rest & Hl) _]. unfold clearStagingAreaAllocations. cbn [source allocations].
  assert (Hf : forall l d, live d ≡ₚ (areaOf <$> existing l) ++ rest -> live (foldl area_deallocate d (sa_ptr <$> l)) ≡ₚ rest).
  { intros l. induction l as [|[q n u] l IH]; intros d Hd; cbn; [done|]. apply IH. unfold existing in Hd. cbn [List.filter] in Hd.
    unfold usable in Hd at 1. cbn [sa_ptr] in Hd. destruct (Z.eqb_spec q 0) as [->|Hq]; cbn [negb] in Hd; [by rewrite deallocate_null|].
    cbn in Hd. assert (Hin : (q, n) ∈ live d) by (rewrite Hd; by left). pose proof (deallocate_law _ _ _ Hin) as Hx. rewrite Hd in Hx.
    by apply Permutation_cons_inv in Hx as <-. }
  specialize (Hf _ _ Hl). split; [|by rewrite Hf]. constructor; cbn; [by exists (live (foldl area_deallocate (source m) (sa_ptr <$> allocations m)))|done].
Qed.

Lemma area_step_ok w w' : area_step w w' -> areas_ok (fst w) (snd w) -> areas_ok (fst w') (snd w').
Proof.
  intros [m held size p m' Ha|m h1 p h2|m h1 p h2|m] Hok; cbn in *.
  - pose proof (allocate_ok _ _ _ _ _ Hok Ha) as Hh. unfold handed_out in Hh. destruct (decide (p = 0)); [done|by apply Hh].
  - by apply give_back.
  - by apply give_back.
  - by apply clear_ok.
Qed.

Lemma area_steps_ok w w' : rtc area_step w w' -> areas_ok (fst w) (snd w) -> areas_ok (fst w') (snd w').
Proof. induction 1 as [w|w1 w2 w3 Hs _ IH]; [done|]. intros Hok. apply IH. by apply (area_step_ok w1). Qed.

Lemma reachable_areas d m held : rtc area_step (mkAreas [] d, []) (m, held) -> areas_ok m held.
Proof. intros Hr. apply (area_steps_ok _ _ Hr). constructor; [by exists (live d)|done]. Qed.

End manager_lemmas.

(** * Temporary allocations of a command list *)

(** [temporaryStagingAreas]: by address of the application, the size and the area.  With
    the manager of the context, the addresses known to the reader of finished copies, and
    the client's memory. *)
Record Staging (D : Type) := mkStaging {
  st_areas : Manager D; st_temps : list (Z * (Z * Z)); st_usm : gmap Z Z; st_mem : Z -> Z }.
Arguments mkStaging {D} st_areas st_temps st_usm st_mem.
Arguments st_areas {D} s.
Arguments st_temps {D} s.
Arguments st_usm {D} s.
Arguments st_mem {D} s.

(** Arguments of the command that is sent. *)
Record CopyMessage := mkCopyMessage { cm_dst : Z; cm_src : Z; cm_size : Z }.

Section temporaries.
Context {D : Type} `{AreaSource D}.
Implicit Types st : Staging D.

(** The assignment destroys the handle that was there. *)
Definition registerTemporaryAllocation st (ptr size alloc : Z) : Staging D :=
  let m := match fm_find (st_temps st) ptr with Some (_, old) => dropArea (st_areas st) old | None => st_areas st end in
  mkStaging m (fm_set (st_temps st) ptr (size, alloc)) (st_usm st) (st_mem st).

Definition cleanTemporaryAllocations st : Staging D :=
  mkStaging (foldl (fun m e => dropArea m (snd (snd e))) (st_areas st) (st_temps st)) [] (st_usm st) (st_mem st).

Definition getTemporaryAllocationForReuse (immediateAsynchronous : bool) st (ptr size : Z) : Z * Staging D :=
  if negb immediateAsynchronous then (0, st)
  else
    match fm_find (st_temps st) ptr with
    | None => (0, st)
    | Some (n, alloc) =>
        if negb (n =? size)
        then (0, mkStaging (dropArea (st_areas st) alloc) (fm_erase (st_temps st) ptr) (st_usm st) (st_mem st))
        else (alloc, st)
    end.

(** The blocks of the generated functions that stand in for the destination, and for the
    source with its bytes. *)
Definition stage (immediateAsynchronous isSource : bool) st (ptr size : Z) : res (Z * Staging D) :=
  let (standalone, st) := getTemporaryAllocationForReuse immediateAsynchronous st ptr size in
  if negb (standalone =? 0) then Ret (standalone, st)
  else
    let (alloc, m) := allocateStagingArea (st_areas st) size in
    let st := mkStaging m (st_temps st) (addToMap (st_usm st) alloc ptr) (st_mem st) in
    let st := registerTemporaryAllocation st ptr size alloc in
    if isSource then
      if alloc =? 0 then Undef
      else Ret (alloc, mkStaging (st_areas st) (st_temps st) (st_usm st) (copyBytes (st_mem st) alloc (st_mem st) ptr size))
    else Ret (alloc, st).

Definition zeCommandListAppendMemoryCopyImmediate_Local_Local (async : bool) st (dstptr srcptr size : Z) : res (CopyMessage * Staging D) :=
  '(standalone_dstptr, st) ← stage async false st dstptr size;
  '(standalone_srcptr, st) ← stage async true st srcptr size;
  Ret (mkCopyMessage standalone_dstptr standalone_srcptr size, st).

Definition zeCommandListAppendMemoryCopyImmediate_Local_Usm (async : bool) st (dstptr srcptr size : Z) : res (CopyMessage * Staging D) :=
  '(standalone_dstptr, st) ← stage async false st dstptr size;
  Ret (mkCopyMessage standalone_dstptr srcptr size, st).

Definition zeCommandListAppendMemoryCopyImmediate_Usm_Local (async : bool) st (dstptr srcptr size : Z) : res (CopyMessage * Staging D) :=
  '(standalone_srcptr, st) ← stage async true st srcptr size;
  Ret (mkCopyMessage dstptr standalone_srcptr size, st).

(** [zeCommandListHostSynchronize] after its call: finished copies are read, and the list
    forgets its temporary allocations. *)
Definition afterHostSynchronize (ret : Z) st : Staging D := if ret =? 0 then cleanTemporaryAllocations st else st.

End temporaries.

(** ** What the temporaries hold *)

Definition tempAreas (t : list (Z * (Z * Z))) : list Z := List.filter (fun p => negb (p =? 0)) (snd ∘ snd <$> t).

Definition one_area (p : Z) : list Z := if p =? 0 then [] else [p].

Lemma tempAreas_cons k n p t : tempAreas ((k, (n, p)) :: t) = one_area p ++ tempAreas t.
Proof. unfold tempAreas, one_area. cbn. by destruct (p =? 0). Qed.

#[export] Instance tempAreas_perm : Proper ((≡ₚ) ==> (≡ₚ)) tempAreas.
Proof.
  intros t1 t2 Hp. unfold tempAreas. induction Hp as [|x l k _ IH|x y l|l1 l2 l3 _ IH1 _ IH2]; cbn; [done| | |by etransitivity].
  - destruct (negb _); [by constructor|done].
  - destruct (negb _), (negb _); try done. constructor.
Qed.

Lemma fm_set_perm (m : list (Z * (Z * Z))) k v : fm_sorted m -> fm_set m k v ≡ₚ (k, v) :: fm_erase m k.
Proof.
  intros Hs. destruct (fm_find m k) as [w|] eqn:E; [by apply (fm_set_present m k v w)|]. by rewrite fm_set_absent, fm_erase_absent.
Qed.

(** The areas that the entries hold are recorded with their sizes, and the reader knows
    whose memory they stand for. *)
Definition temps_ok (areas : list StagingArea) (usm : gmap Z Z) (t : list (Z * (Z * Z))) : Prop :=
  forall k n p, (k, (n, p)) ∈ t -> p <> 0 -> mkArea p n true ∈ areas /\ usm !! p = Some k.

Lemma markUnused_other l p q n u : p <> q -> mkArea p n u ∈ l -> mkArea p n u ∈ markUnused l q.
Proof.
  intros Hpq. induction l as [|it l IH]; [done|]. cbn [markUnused]. intros [<-|Hin]%elem_of_cons.
  - cbn [sa_ptr]. rewrite (proj2 (Z.eqb_neq _ _)) by done. by left.
  - destruct (sa_ptr it =? q); right; auto.
Qed.

Lemma takeArea_other l size p n : mkArea p n true ∈ l -> forall q l', takeArea l size = Some (q, l') -> mkArea p n true ∈ l'.
Proof.
  intros Hin q l' Ht. pose proof (takeArea_split l size) as Hs. rewrite Ht in Hs. destruct Hs as (l1 & l2 & -> & ->).
  rewrite elem_of_app, elem_of_cons in *. destruct Hin as [Hin|[Hin|Hin]]; [by left|done|by right; right].
Qed.

Section staging_lemmas.
Context {D : Type} `{AL : AreaSourceLaws D}.
Implicit Types st : Staging D.

(** [others]: the areas held by other command lists of the context. *)
Record staging_ok st (others : list Z) : Prop := mkStagingOk {
  sk_areas : areas_ok (st_areas st) (tempAreas (st_temps st) ++ others);
  sk_sorted : fm_sorted (st_temps st);
  sk_temps : temps_ok (allocations (st_areas st)) (st_usm st) (st_temps st)
}.

Lemma temps_held (t : list (Z * (Z * Z))) k n p : (k, (n, p)) ∈ t -> p <> 0 -> p ∈ tempAreas t.
Proof.
  intros Hin Hp. unfold tempAreas. apply elem_filter. split; [|by apply negb_true_iff, Z.eqb_neq].
  apply list_elem_of_fmap. by exists (k, (n, p)).
Qed.

(** Dropping what one entry holds. *)
Lemma drop_ok (m : Manager D) p held usm t : areas_ok m (one_area p ++ held) -> temps_ok (allocations m) usm t ->
  (forall k n q, (k, (n, q)) ∈ t -> q <> 0 -> q ∈ held) ->
  areas_ok (dropArea m p) held /\ temps_ok (allocations (dropArea m p)) usm t.
Proof.
  unfold one_area, dropArea. destruct (Z.eqb_spec p 0) as [->|Hp]; [by split|]. cbn [app]. intros Hok Ht Hin.
  split; [by apply (give_back m [] p held)|]. intros k n q Hkq Hq. destruct (Ht k n q Hkq Hq) as [Ha Hu]. split; [|done].
  apply markUnused_other; [|done]. intros ->. pose proof (held_distinct _ _ Hok) as Hnd. apply NoDup_cons in Hnd as [Hnd _].
  apply Hnd. by apply (Hin k n p).
Qed.

Lemma erase_ok st others ptr n old : staging_ok st others -> fm_find (st_temps st) ptr = Some (n, old) ->
  staging_ok (mkStaging (dropArea (st_areas st) old) (fm_erase (st_temps st) ptr) (st_usm st) (st_mem st)) others.
Proof.
  intros [Ha Hs Ht] Hf. pose proof (fm_erase_present _ _ _ Hs Hf) as Hp. rewrite Hp, tempAreas_cons, <- app_assoc in Ha.
  destruct (drop_ok (st_areas st) old (tempAreas (fm_erase (st_temps st) ptr) ++ others) (st_usm st) (fm_erase (st_temps st) ptr)) as [Ha' Ht']; [done| | |].
  - intros k m q Hin Hq. apply elem_fm_erase in Hin as [Hin _]. by apply Ht.
  - intros k m q Hin Hq. apply elem_of_app. left. by apply (temps_held _ k m).
  - constructor; [done|by apply fm_erase_sorted|done].
Qed.

Lemma reuse_ok async st others ptr size p st' : staging_ok st others -> getTemporaryAllocationForReuse async st ptr size = (p, st') ->
  staging_ok st' others /\ st_mem st' = st_mem st /\
  (p <> 0 -> async = true /\ st' = st /\ (ptr, (size, p)) ∈ st_temps st) /\
  (forall k n q, k <> ptr -> (k, (n, q)) ∈ st_temps st -> (k, (n, q)) ∈ st_temps st').
Proof.
  intros Hok. unfold getTemporaryAllocationForReuse. destruct async; cbn [negb]; [|by intros [= <- <-]].
  destruct (fm_find (st_temps st) ptr) as [[n old]|] eqn:Hf; [|by intros [= <- <-]].
  destruct (Z.eqb_spec n size) as [->|Hn]; cbn [negb]; intros [= <- <-].
  - split; [done|]. split; [done|]. split; [|done]. intros _. split; [done|]. split; [done|]. by apply fm_find_in.
  - split; [by apply (erase_ok _ _ _ n)|]. split; [done|]. split; [done|]. intros k m q Hk Hin. cbn. by apply elem_fm_erase.
Qed.

Lemma allocate_keeps (m : Manager D) size p m' q n : allocateStagingArea m size = (p, m') ->
  mkArea q n true ∈ allocations m -> mkArea q n true ∈ allocations m'.
Proof.
  unfold allocateStagingArea. intros Ha Hin. destruct (takeArea (allocations m) size) as [[r l]|] eqn:Ht.
  - injection Ha as <- <-. cbn. by apply (takeArea_other _ _ _ _ Hin _ _ Ht).
  - destruct (area_allocate _ _) as [r d]. injection Ha as <- <-. cbn. apply elem_of_app. by left.
Qed.

(** A new area becomes the temporary of its address. *)
Lemma register_ok st others ptr size p m' : staging_ok st others -> allocateStagingArea (st_areas st) size = (p, m') ->
  let st' := registerTemporaryAllocation (mkStaging m' (st_temps st) (addToMap (st_usm st) p ptr) (st_mem st)) ptr size p in
  staging_ok st' others /\ (ptr, (size, p)) ∈ st_temps st' /\
  (forall k n q, k <> ptr -> (k, (n, q)) ∈ st_temps st -> (k, (n, q)) ∈ st_temps st').
Proof.
  intros [Ha Hs Ht] Hal st'. pose proof (allocate_ok _ _ _ _ _ Ha Hal) as Hh. set (t := st_temps st) in *.
  assert (Hok : areas_ok m' (one_area p ++ tempAreas t ++ others) /\ (p <> 0 -> p ∉ tempAreas t ++ others /\ mkArea p size true ∈ allocations m')).
  { unfold handed_out in Hh. unfold one_area. destruct (decide (p = 0)) as [->|Hp]; [by split|].
    rewrite (proj2 (Z.eqb_neq _ _)) by done. destruct Hh as (? & ? & ? & _). by split. }
  destruct Hok as [Hok Hnew]. set (e := fm_erase t ptr). set (old := default 0 (snd <$> fm_find t ptr)).
  assert (Hold : tempAreas t ≡ₚ one_area old ++ tempAreas e).
  { unfold old, e. destruct (fm_find t ptr) as [[n q]|] eqn:Hf; [|by rewrite fm_erase_absent].
    rewrite (tempAreas_perm _ _ (fm_erase_present t ptr (n, q) Hs Hf)). by rewrite tempAreas_cons. }
  assert (Hm : st_areas st' = dropArea m' old).
  { unfold st', registerTemporaryAllocation, old. cbn [st_areas st_temps]. fold t. destruct (fm_find t ptr) as [[n q]|]; [done|]. done. }
  assert (Htemps : st_temps st' ≡ₚ (ptr, (size, p)) :: e) by (unfold st', registerTemporaryAllocation; cbn; by apply fm_set_perm).
  assert (Hte : temps_ok (allocations m') (addToMap (st_usm st) p ptr) ((ptr, (size, p)) :: e)).
  { intros k n q [[= -> -> ->]|Hin]%elem_of_cons Hq; [split; [by apply Hnew|by apply lookup_insert_eq]|].
    apply elem_fm_erase in Hin as [Hin _]. destruct (Ht k n q Hin Hq) as [H1 H2]. split; [by apply (allocate_keeps _ _ _ _ _ _ Hal)|].
    unfold addToMap. rewrite lookup_insert_ne; [done|]. intros ->. destruct (Hnew Hq) as [Hn _]. apply Hn, elem_of_app. left.
    by apply (temps_held _ k n). }
  destruct (drop_ok m' old (one_area p ++ tempAreas e ++ others) (addToMap (st_usm st) p ptr) ((ptr, (size, p)) :: e)) as [Ha' Ht'].
  - rewrite Hold in Hok. revert Hok. apply areas_ok_perm. solve_Permutation.
  - done.
  - intros k n q Hin Hq. rewrite app_assoc. apply elem_of_app. left. rewrite <- (tempAreas_cons ptr size). by apply (temps_held _ k n).
  - split; [|split].
    + constructor; rewrite ?Hm.
      * revert Ha'. apply areas_ok_perm. rewrite Htemps, tempAreas_cons. by rewrite <- app_assoc.
      * by apply fm_set_sorted.
      * intros k n q Hin Hq. rewrite Htemps in Hin. by apply Ht'.
    + rewrite Htemps. by left.
    + intros k n q Hk Hin. rewrite Htemps. right. by apply elem_fm_erase.
Qed.

(** Entries of other addresses are not touched. *)
Lemma stage_find async isSource st ptr size p st' k : fm_sorted (st_temps st) -> stage async isSource st ptr size ⇓ (p, st') -> k <> ptr ->
  fm_find (st_temps st') k = fm_find (st_temps st) k.
Proof.
  intros Hs Hst Hk. assert (Hg : forall r st1, getTemporaryAllocationForReuse async st ptr size = (r, st1) ->
    fm_sorted (st_temps st1) /\ fm_find (st_temps st1) k = fm_find (st_temps st) k).
  { intros r st1. unfold getTemporaryAllocationForReuse. destruct async; cbn [negb]; [|by intros [= _ <-]].
    destruct (fm_find (st_temps st) ptr) as [[n q]|]; [|by intros [= _ <-]]. destruct (negb (n =? size)); [|by intros [= _ <-]].
    intros [= _ <-]. cbn. split; [by apply fm_erase_sorted|]. rewrite fm_find_erase. by rewrite (proj2 (Z.eqb_neq _ _)). }
  unfold stage in Hst. destruct (getTemporaryAllocationForReuse async st ptr size) as [r st1]. destruct (Hg r st1 eq_refl) as [Hs1 Hf].
  destruct (negb (r =? 0)); [by injection Hst as _ <-|]. destruct (allocateStagingArea (st_areas st1) size) as [a m].
  rewrite <- Hf. assert (Hr : fm_find (fm_set (st_temps st1) ptr (size, a)) k = fm_find (st_temps st1) k).
  { rewrite fm_find_set by done. by rewrite (proj2 (Z.eqb_neq _ _)). }
  destruct isSource; [destruct (a =? 0); [done|]|]; injection Hst as _ <-; exact Hr.
Qed.

(** An area for the address that is not there yet, or not for this size. *)
Definition fresh_for (async : bool) st (ptr size : Z) : Prop :=
  async = true -> forall p, fm_find (st_temps st) ptr = Some (size, p) -> p = 0.

Lemma stage_ok async isSource st others ptr size p st' : staging_ok st others -> stage async isSource st ptr size ⇓ (p, st') ->
  staging_ok st' others /\ (p <> 0 -> (ptr, (size, p)) ∈ st_temps st') /\
  (isSource = true -> p <> 0) /\ (isSource = false -> st_mem st' = st_mem st) /\
  (isSource = true -> fresh_for async st ptr size -> st_mem st' = copyBytes (st_mem st) p (st_mem st) ptr size).
Proof.
  intros Hok. unfold stage. destruct (getTemporaryAllocationForReuse async st ptr size) as [r st1] eqn:Hg.
  destruct (reuse_ok _ _ _ _ _ _ _ Hok Hg) as (Hok1 & Hmem & Hr & _). destruct (Z.eqb_spec r 0) as [->|Hr0]; cbn [negb].
  - destruct (allocateStagingArea (st_areas st1) size) as [a m] eqn:Ha. destruct (register_ok st1 others ptr size a m Hok1 Ha) as (Hok2 & Hin & _).
    destruct isSource; [destruct (Z.eqb_spec a 0) as [|Ha0]; [done|]|]; intros [= <- <-].
    + split; [destruct Hok2; by constructor|]. split; [done|]. split; [done|]. split; [done|]. intros _ _. cbn. by rewrite Hmem.
    + split; [done|]. by repeat split.
  - intros [= <- <-]. destruct (Hr Hr0) as (Has & -> & Hin). split; [done|]. split; [done|]. split; [done|]. split; [done|].
    intros _ Hf. destruct Hr0. apply (Hf Has). apply fm_find_elem; [|done]. apply Hok.
Qed.

(** Cleaning gives every area of the list back. *)
Lemma clean_ok st others : staging_ok st others -> staging_ok (cleanTemporaryAllocations st) others.
Proof.
  intros [Ha _ _]. unfold cleanTemporaryAllocations. constructor; cbn; [|constructor|by intros k n p ?%elem_of_nil].
  unfold tempAreas in Ha. revert Ha. generalize (st_areas st). induction (st_temps st) as [|[k [n p]] t IH]; intros m Ha; cbn; [done|].
  apply IH. cbn in Ha. unfold dropArea. destruct (Z.eqb_spec p 0); cbn [negb] in Ha; [done|]. by apply (give_back m [] p).
Qed.

Lemma two_temps_apart st others k1 p1 k2 p2 n1 n2 : staging_ok st others -> (k1, (n1, p1)) ∈ st_temps st -> (k2, (n2, p2)) ∈ st_temps st ->
  p1 <> 0 -> p2 <> 0 -> k1 <> k2 -> apart (p1, n1) (p2, n2) /\ st_usm st !! p1 = Some k1 /\ st_usm st !! p2 = Some k2.
Proof.
  intros [Ha Hs Ht] H1 H2 Hp1 Hp2 Hk. destruct (Ht _ _ _ H1 Hp1) as [A1 U1], (Ht _ _ _ H2 Hp2) as [A2 U2].
  split; [|done]. destruct (ao_live _ _ Ha) as (rest & Hl).
  assert (Hlive : forall p n, mkArea p n true ∈ allocations (st_areas st) -> p <> 0 -> (p, n) ∈ live (source (st_areas st))).
  { intros p n Hin Hp. rewrite Hl. apply elem_of_app. left. apply list_elem_of_fmap. exists (mkArea p n true). split; [done|].
    by apply elem_existing. }
  apply (live_apart (source (st_areas st))); [by apply Hlive|by apply Hlive|]. intros [= -> ->]. congruence.
Qed.

End staging_lemmas.

(** * Theorems *)

(** C29: no staging area has two users.  After any history of requests, releases and
    deallocations of held areas, the held areas are distinct; a request returns nothing, or
    an area of exactly the size that was asked for, which is live memory of the source, was
    held by nobody and overlaps no area that is held. *)
Theorem staging_areas_exclusive {D} `{AL : AreaSourceLaws D} (d : D) (m : Manager D) held size p m' :
  rtc area_step (mkAreas [] d, []) (m, held) -> allocateStagingArea m size = (p, m') ->
  NoDup held /\ handed_out m held size p m'.
Proof. intros Hr Ha. pose proof (reachable_areas _ _ _ Hr) as Hok. split; [by apply (held_distinct m)|by apply (allocate_ok m)]. Qed.

(** what a copy between two places of the application sends.  The command names two
    areas that do not overlap; the source area holds the bytes of the application at the
    time of the call, no other byte of memory has changed, and the reader of finished copies
    knows whose memory the areas stand for.  Except where an immediate asynchronous list
    finds an area of an earlier command for the source. *)
Theorem staged_copy_sends_current_data {D} `{AL : AreaSourceLaws D} (st st' : Staging D) others async dstptr srcptr size msg :
  staging_ok st others -> dstptr <> srcptr -> fresh_for async st srcptr size ->
  zeCommandListAppendMemoryCopyImmediate_Local_Local async st dstptr srcptr size ⇓ (msg, st') ->
  staging_ok st' others /\ cm_src msg <> 0 /\
  (forall i, 0 <= i < size -> st_mem st' (cm_src msg + i) = st_mem st (srcptr + i)) /\
  (forall a, ~ cm_src msg <= a < cm_src msg + size -> st_mem st' a = st_mem st a) /\
  (cm_dst msg <> 0 -> apart (cm_dst msg, size) (cm_src msg, size) /\
     st_usm st' !! cm_dst msg = Some dstptr /\ st_usm st' !! cm_src msg = Some srcptr).
Proof.
  intros Hok Hne Hfr. unfold zeCommandListAppendMemoryCopyImmediate_Local_Local.
  destruct (stage async false st dstptr size) as [[pd st1]| |] eqn:H1; [|done|done]. cbn [mbind res_bind].
  destruct (stage async true st1 srcptr size) as [[ps st2]| |] eqn:H2; [|done|done]. cbn [mbind res_bind]. intros [= <- <-]. cbn [cm_dst cm_src].
  destruct (stage_ok _ _ _ _ _ _ _ _ Hok H1) as (Hok1 & Hd & _ & Hm1 & _). specialize (Hm1 eq_refl).
  destruct (stage_ok _ _ _ _ _ _ _ _ Hok1 H2) as (Hok2 & Hs & Hps & _ & Hm2). specialize (Hps eq_refl).
  assert (Hfr1 : fresh_for async st1 srcptr size).
  { intros Ha p Hf. apply (Hfr Ha p). by rewrite <- (stage_find _ _ _ _ _ _ _ srcptr (sk_sorted _ _ Hok) H1) by done. }
  specialize (Hm2 eq_refl Hfr1). rewrite Hm1 in Hm2. split; [done|]. split; [done|]. split; [|split].
  - intros i Hi. rewrite Hm2, copyBytes_in by lia. f_equal. lia.
  - intros a Hna. by rewrite Hm2, copyBytes_out.
  - intros Hpd. apply (two_temps_apart st2 others); auto. apply fm_find_elem; [apply Hok2|].
    rewrite (stage_find _ _ _ _ _ _ _ dstptr (sk_sorted _ _ Hok1) H2) by done. apply fm_find_elem; [apply Hok1|auto].
Qed.

(** A second asynchronous copy from the same place sends the bytes of the first: the area
    is found, and the current bytes are not copied into it. *)
Theorem reused_area_is_stale {D} `{AreaSource D} (st : Staging D) dstptr srcptr size p : fm_find (st_temps st) srcptr = Some (size, p) -> p <> 0 ->
  zeCommandListAppendMemoryCopyImmediate_Usm_Local true st dstptr srcptr size ⇓ (mkCopyMessage dstptr p size, st).
Proof.
  intros Hf Hp. unfold zeCommandListAppendMemoryCopyImmediate_Usm_Local, stage, getTemporaryAllocationForReuse. cbn [negb].
  rewrite Hf, Z.eqb_refl. cbn [negb]. by rewrite (proj2 (Z.eqb_neq p 0)).
Qed.

(** * A small source of areas

    Areas one behind the other, with a byte between them; those that were freed stay empty. *)
Module ToyAreas.

Definition base : Z := 0x10000.

(** The sizes so far, and whether the area is live. *)
Abbreviation heap := (list (nat * bool)).

Fixpoint place (a : Z) (l : heap) : list Area :=
  match l with
  | [] => []
  | (n, alive) :: l => (if alive : bool then [(a, Z.of_nat n)] else []) ++ place (a + Z.of_nat n + 1) l
  end.

Fixpoint top (a : Z) (l : heap) : Z :=
  match l with [] => a | (n, _) :: l => top (a + Z.of_nat n + 1) l end.

Fixpoint kill (a : Z) (l : heap) (p : Z) : heap :=
  match l with
  | [] => []
  | (n, alive) :: l => if a =? p then (n, false) :: l else (n, alive) :: kill (a + Z.of_nat n + 1) l p
  end.

Definition allocate (d : heap) (size : Z) : Z * heap :=
  if size <? 0 then (0, d) else (top base d, d ++ [(Z.to_nat size, true)]).

Lemma place_ge a l x : x ∈ place a l -> a <= fst x /\ fst x + snd x < top a l /\ 0 <= snd x.
Proof.
  assert (Hge : forall k b, b <= top b k).
  { intros k. induction k as [|[n alive] k IH]; intros b; cbn; [lia|]. specialize (IH (b + Z.of_nat n + 1)). lia. }
  revert a. induction l as [|[n alive] l IH]; intros a; cbn; [by intros ?%elem_of_nil|]. intros [Hx|Hx]%elem_of_app.
  - destruct alive; [|by apply elem_of_nil in Hx]. apply list_elem_of_singleton in Hx as ->. cbn. specialize (Hge l (a + Z.of_nat n + 1)). lia.
  - specialize (IH _ Hx). lia.
Qed.

Lemma top_ge a l : a <= top a l.
Proof. revert a. induction l as [|[n alive] l IH]; intros a; cbn; [lia|]. specialize (IH (a + Z.of_nat n + 1)). lia. Qed.

Lemma place_distinct a l : NoDup (fst <$> place a l).
Proof.
  revert a. induction l as [|[n alive] l IH]; intros a; cbn; [constructor|]. destruct alive; cbn; [|apply IH].
  apply NoDup_cons. split; [|apply IH]. intros Hin. apply list_elem_of_fmap in Hin as (x & Hx & Hin). apply place_ge in Hin. cbn in *. lia.
Qed.

Lemma place_apart a l x y : x ∈ place a l -> y ∈ place a l -> x <> y -> apart x y.
Proof.
  revert a. induction l as [|[n alive] l IH]; intros a; cbn; [by intros ?%elem_of_nil|]. unfold apart in *.
  destruct alive; cbn [app]; [|apply IH]. intros [->|Hx]%elem_of_cons [->|Hy]%elem_of_cons Hne; [done| | |by apply (IH (a + Z.of_nat n + 1))].
  - apply place_ge in Hy. cbn. lia.
  - apply place_ge in Hx. cbn. lia.
Qed.

Lemma place_app a l n : place a (l ++ [(n, true)]) = place a l ++ [(top a l, Z.of_nat n)].
Proof. revert a. induction l as [|[m alive] l IH]; intros a; cbn; [done|]. rewrite IH. by rewrite app_assoc. Qed.

Lemma place_kill a l p n : (p, n) ∈ place a l -> place a l ≡ₚ (p, n) :: place a (kill a l p).
Proof.
  revert a. induction l as [|[m alive] l IH]; intros a; cbn; [by intros ?%elem_of_nil|]. destruct (Z.eqb_spec a p) as [->|Hne].
  - destruct alive; cbn; [|intros Hin; apply place_ge in Hin; cbn in *; lia]. intros [[= ->]|Hin]%elem_of_cons; [done|].
    apply place_ge in Hin. cbn in *. lia.
  - destruct alive; cbn; intros Hin; [apply elem_of_cons in Hin as [[= -> ->]|Hin]; [done|]; rewrite (IH _ Hin); constructor|by apply IH].
Qed.

Lemma kill_null a l : 0 < a -> kill a l 0 = l.
Proof.
  revert a. induction l as [|[m alive] l IH]; intros a Ha; cbn; [done|]. rewrite (proj2 (Z.eqb_neq a 0)) by lia. rewrite IH by lia. done.
Qed.

End ToyAreas.

#[export] Instance toy_areas : AreaSource ToyAreas.heap := {|
  area_allocate := ToyAreas.allocate; area_deallocate := fun d p => ToyAreas.kill ToyAreas.base d p |}.

#[export] Instance toy_areas_laws : AreaSourceLaws ToyAreas.heap.
Proof.
  refine {| live := ToyAreas.place ToyAreas.base |}; cbn [area_allocate area_deallocate toy_areas].
  - intros d. apply ToyAreas.place_distinct.
  - intros d x y. apply ToyAreas.place_apart.
  - intros d size p d'. unfold ToyAreas.allocate. destruct (Z.ltb_spec size 0); intros [= <- <-]; [by rewrite decide_True|].
    pose proof (ToyAreas.top_ge ToyAreas.base d) as Ht. rewrite decide_False by (unfold ToyAreas.base in *; lia).
    rewrite ToyAreas.place_app, Z2Nat.id by lia. by rewrite Permutation_app_comm.
  - intros d p size. apply ToyAreas.place_kill.
  - intros d. by rewrite ToyAreas.kill_null.
Defined.

(** ** Concrete runs *)

Definition emptyStaging : Staging ToyAreas.heap := mkStaging (mkAreas [] []) [] ∅ (fun a => a).

Lemma emptyStaging_ok : staging_ok emptyStaging [].
Proof. constructor; cbn; [constructor; [by exists []|done]|constructor|by intros k n p ?%elem_of_nil]. Qed.

(** Two areas are handed out and the first is given back: it is found again. *)
Definition run1 := allocateStagingArea (D := ToyAreas.heap) (mkAreas [] []) 16.
Definition run2 := allocateStagingArea (snd run1) 16.
Definition run3 := releaseStagingArea (snd run2) (fst run1).

Lemma staging_areas_exclusive_witness :
  NoDup [fst run2] /\ exists m', allocateStagingArea run3 16 = (fst run1, m') /\ handed_out run3 [fst run2] 16 (fst run1) m'.
Proof.
  assert (Hr : rtc area_step (mkAreas [] [], []) (run3, [fst run2])).
  { eapply rtc_l; [apply (as_allocate _ [] 16 (fst run1) (snd run1)); reflexivity|]. rewrite decide_False by by vm_compute.
    eapply rtc_l; [apply (as_allocate _ _ 16 (fst run2) (snd run2)); reflexivity|]. rewrite decide_False by by vm_compute.
    eapply rtc_l; [apply (as_release _ [fst run2] (fst run1) [])|]. apply rtc_refl. }
  destruct (staging_areas_exclusive [] run3 [fst run2] 16 (fst run1) (snd (allocateStagingArea run3 16)) Hr) as [H1 H2]; [by vm_compute|].
  split; [exact H1|]. exists (snd (allocateStagingArea run3 16)). split; [by vm_compute|exact H2].
Defined.

Definition localRun := zeCommandListAppendMemoryCopyImmediate_Local_Local true emptyStaging 0x5000 0x6000 16.

Lemma staged_copy_sends_current_data_witness :
  exists msg st', localRun ⇓ (msg, st') /\ st_mem st' (cm_src msg + 3) = 0x6003 /\ st_usm st' !! cm_dst msg = Some 0x5000.
Proof.
  assert (Hm : match localRun with Ret (msg, _) => cm_dst msg | _ => 0 end = 0x10000) by (vm_compute; reflexivity).
  destruct localRun as [[msg st']| |] eqn:Hr; [|discriminate|discriminate]. exists msg, st'. split; [done|].
  destruct (staged_copy_sends_current_data emptyStaging st' [] true 0x5000 0x6000 16 msg emptyStaging_ok) as (_ & _ & Hb & _ & Hd);
    [lia|by intros _ p|exact Hr|].
  split; [rewrite Hb by lia; reflexivity|]. apply Hd. rewrite Hm. lia.
Defined.

(** The application changes its buffer between the commands; the message names the old
    bytes. *)
Definition firstSend := zeCommandListAppendMemoryCopyImmediate_Usm_Local true emptyStaging 0x900000 0x6000 16.
Definition changed : Staging ToyAreas.heap :=
  match firstSend with
  | Ret (_, st) => mkStaging (st_areas st) (st_temps st) (st_usm st) (fun a => if a =? 0x6000 then 7 else st_mem st a)
  | _ => emptyStaging
  end.

Lemma reused_area_is_stale_witness :
  zeCommandListAppendMemoryCopyImmediate_Usm_Local true changed 0x900000 0x6000 16 ⇓ (mkCopyMessage 0x900000 0x10000 16, changed) /\
  st_mem changed 0x6000 = 7 /\ st_mem changed 0x10000 = 0x6000.
Proof. split; [apply reused_area_is_stale; by vm_compute|]. split; by vm_compute. Defined.

(** A copy of another size from the same place gives the area of the first command back
    while that command may be pending: the next command of its size writes other bytes into
    it. *)
Definition threeSends : res (Z * Z * Z * Z) :=
  '(m1, st) ← zeCommandListAppendMemoryCopyImmediate_Usm_Local true emptyStaging 0x900000 0x6000 16;
  '(_, st) ← zeCommandListAppendMemoryCopyImmediate_Usm_Local true st 0x900000 0x6000 8;
  '(m3, st) ← zeCommandListAppendMemoryCopyImmediate_Usm_Local true st 0x910000 0x7000 16;
  Ret (cm_src m1, cm_src m3, cm_dst m1, st_mem st (cm_src m1)).

Theorem size_change_overwrites_pending_copy : threeSends ⇓ (0x10000, 0x10000, 0x900000, 0x7000).
Proof. by vm_compute. Qed.
