(* ===== verification/PNext.v ===== *)
(** How lists of extension structures travel: the sizes and kinds of
    shared/l0_opaque_list_serialization.h, and the four functions that are generated for a
    structure with a [pNext] list, as they are for [ze_device_properties_t]
    (generated_rpc_messages_level_zero.h and .cpp): the size of the message, the copy from
    the caller, the reassembly in the service and the copy back. *)

From stdpp Require Import gmap.
From S2P Require Import Prelude.
From S2P Require Import Align.
From S2P Require Import Transfers.
Local Open Scope Z_scope.

(** * Words in byte memory *)

(** The [n]-byte little-endian word at [a]. *)
Fixpoint ld (n : nat) (m : Memory) (a : Z) : Z :=
  match n with O => 0 | S n => m a + 256 * ld n m (a + 1) end.

Fixpoint st (n : nat) (m : Memory) (a v : Z) : Memory :=
  match n with
  | O => m
  | S n => fun b => if b =? a then v mod 256 else st n m (a + 1) (v / 256) b
  end.

(** Two memories agree on the [n] bytes at [a]. *)
Definition same (m m' : Memory) (a n : Z) : Prop := forall b, a <= b < a + n -> m b = m' b.

Lemma same_sub m m' a n b k : same m m' a n -> a <= b -> b + k <= a + n -> same m m' b k.
Proof. intros H H1 H2 c Hc. apply H. lia. Qed.

Lemma ld_same n m m' a : same m m' a (Z.of_nat n) -> ld n m a = ld n m' a.
Proof.
  revert a. induction n as [|n IH]; intros a H; cbn [ld]; [done|]. rewrite (H a) by lia. f_equal. f_equal. apply IH.
  intros b Hb. apply H. lia.
Qed.

Lemma st_out n m a v : forall b, ~ a <= b < a + Z.of_nat n -> st n m a v b = m b.
Proof.
  revert a v. induction n as [|n IH]; intros a v b Hb; cbn [st]; [done|]. rewrite (proj2 (Z.eqb_neq b a)) by lia. apply IH. lia.
Qed.

Lemma st_same n m a v b k : b + k <= a \/ a + Z.of_nat n <= b -> same (st n m a v) m b k.
Proof. intros H c Hc. apply st_out. lia. Qed.

Lemma ld_st n m a v : 0 <= v < 256 ^ Z.of_nat n -> ld n (st n m a v) a = v.
Proof.
  revert m a v. induction n as [|n IH]; intros m a v Hv; cbn [ld st].
  - change (256 ^ Z.of_nat 0) with 1 in Hv. lia.
  - rewrite Z.eqb_refl. rewrite Nat2Z.inj_succ, Z.pow_succ_r in Hv by lia.
    assert (Hl : ld n (fun b => if b =? a then v mod 256 else st n m (a + 1) (v / 256) b) (a + 1) = v / 256).
    { transitivity (ld n (st n m (a + 1) (v / 256)) (a + 1)).
      - apply ld_same. intros b Hb. by rewrite (proj2 (Z.eqb_neq b a)) by lia.
      - apply IH. split; [apply Z.div_pos; lia|apply Z.div_lt_upper_bound; lia]. }
    rewrite Hl. pose proof (Z.div_mod v 256). lia.
Qed.

Lemma ld4_st m a v : 0 <= v < 2 ^ 32 -> ld 4 (st 4 m a v) a = v.
Proof. intros H. apply ld_st. exact H. Qed.

Lemma ld8_st m a v : 0 <= v < 2 ^ 64 -> ld 8 (st 8 m a v) a = v.
Proof. intros H. apply ld_st. exact H. Qed.

Lemma copyBytes_same dst d src s n b k : b + k <= d \/ d + n <= b -> same (copyBytes dst d src s n) dst b k.
Proof. intros H c Hc. apply copyBytes_out. lia. Qed.

(** A word inside a copy is the word of the source. *)
Lemma ld_copyBytes w dst d src s n o : 0 <= o -> o + Z.of_nat w <= n -> ld w (copyBytes dst d src s n) (d + o) = ld w src (s + o).
Proof.
  revert o. induction w as [|w IH]; intros o H0 Hn; cbn [ld]; [done|]. rewrite copyBytes_in by lia.
  replace (s + (d + o - d)) with (s + o) by lia. replace (d + o + 1) with (d + (o + 1)) by lia. rewrite IH by lia.
  by replace (s + (o + 1)) with (s + o + 1) by lia.
Qed.

(** * Structure types and sizes

    Values and sizes of the Level Zero headers. *)
Definition ZES_STRUCTURE_TYPE_PCI_BAR_PROPERTIES_1_2 : Z := 0x24.
Definition ZES_STRUCTURE_TYPE_POWER_EXT_PROPERTIES : Z := 0x28.

Definition sizeof_zes_power_ext_properties_t : Z := 32.
Definition sizeof_zes_pci_bar_properties_1_2_t : Z := 48.

(** The tests of [getUnderlyingSize], in their order. *)
Definition underlyingSizes : list (Z * Z) :=
  [ (0x1a, 24);                                   (* EXTERNAL_MEMORY_EXPORT_FD *)
    (0x2000a, 40);                                (* DEVICE_P2P_BANDWIDTH_EXP_PROPERTIES *)
    (0x21, 24);                                   (* KERNEL_PREFERRED_GROUP_SIZE_PROPERTIES *)
    (0x10003, 32);                                (* FLOAT_ATOMIC_EXT_PROPERTIES *)
    (0x20003, 24);                                (* SCHEDULING_HINT_EXP_PROPERTIES *)
    (0x10001, 24);                                (* DEVICE_RAYTRACING_EXT_PROPERTIES *)
    (0x10002, 24);                                (* RAYTRACING_MEM_ALLOC_EXT_DESC *)
    (0x1000e, 48);                                (* DEVICE_MEMORY_EXT_PROPERTIES *)
    (0x20008, 24);                                (* POWER_SAVING_HINT_EXP_DESC *)
    (0x10004, 24);                                (* CACHE_RESERVATION_EXT_DESC *)
    (0x1000d, 32);                                (* DEVICE_LUID_EXT_PROPERTIES *)
    (0x10005, 24);                                (* EU_COUNT_EXT *)
    (0x20001, 24);                                (* RELAXED_ALLOCATION_LIMITS_EXP_DESC *)
    (0x19, 24);                                   (* EXTERNAL_MEMORY_IMPORT_FD *)
    (0x18, 24);                                   (* EXTERNAL_MEMORY_EXPORT_DESC *)
    (0x1000b, 24);                                (* MEMORY_COMPRESSION_HINTS_EXT_DESC *)
    (0x20005, 24);                                (* IMAGE_VIEW_PLANAR_EXP_DESC *)
    (0x20002, 56);                                (* MODULE_PROGRAM_EXP_DESC *)
    (0x1000f, 24);                                (* DEVICE_IP_VERSION_EXT *)
    (0x10011, 24);                                (* EVENT_QUERY_KERNEL_TIMESTAMPS_EXT_PROPERTIES *)
    (0x10013, 24);                                (* KERNEL_MAX_GROUP_SIZE_EXT_PROPERTIES *)
    (0x20012, 32);                                (* RTAS_DEVICE_EXP_PROPERTIES *)
    (0x9, 32);                                    (* METRIC_GLOBAL_TIMESTAMPS_RESOLUTION_EXP *)
    (ZES_STRUCTURE_TYPE_POWER_EXT_PROPERTIES, sizeof_zes_power_ext_properties_t);
    (ZES_STRUCTURE_TYPE_PCI_BAR_PROPERTIES_1_2, sizeof_zes_power_ext_properties_t);
    (0x30010, 32) ].                              (* ZEX DEVICE_MODULE_REGISTER_FILE_EXP *)

Fixpoint assoc (l : list (Z * Z)) (k : Z) : option Z :=
  match l with [] => None | (x, v) :: l => if x =? k then Some v else assoc l k end.

(** [stype] and [pNext] of [ze_base_desc_t]. *)
Definition stype (m : Memory) (desc : Z) : Z := ld 4 m desc.
Definition pNext (m : Memory) (desc : Z) : Z := ld 8 m (desc + 8).

Definition getUnderlyingSize (m : Memory) (desc : Z) : res Z :=
  if desc =? 0 then Abort
  else match assoc underlyingSizes (stype m desc) with Some n => Ret n | None => Abort end.

Definition getNext (m : Memory) (desc : Z) : Z := if desc =? 0 then 0 else pNext m desc.

Definition getExtensionType (m : Memory) (desc : Z) : res Z := if desc =? 0 then Abort else Ret (stype m desc).

Definition isReadOnly (stype : Z) : bool :=
  bool_decide (stype ∈ [0x20008; 0x20001; 0x10002; 0x19; 0x18; 0x20005]).

(** The walk over a list; a list that does not end keeps the loop running. *)
Fixpoint countOpaqueList (fuel : nat) (m : Memory) (desc : Z) : res Z :=
  match fuel with
  | O => Undef
  | S fuel => if desc =? 0 then Ret 0 else count ← countOpaqueList fuel m (pNext m desc); Ret (count + 1)
  end.

(** * The message of a structure with a list

    As generated for [zeDeviceGetProperties]: [cap] is the address of the captured
    structure and [dyn] that of the dynamic memory of the message, in the process that runs
    the function. *)

Definition sizeof_ze_device_properties_t : Z := 368.
Definition sizeof_DynamicStructTraits : Z := 16.
Definition sizeof_NestedPNextTraits : Z := 8.

Definition align8 (n : Z) : Z := alignUpPow2 8 n.

(** A signed 32-bit field. *)
Definition s32 (x : Z) : Z := if x <? 2 ^ 31 then x else x - 2 ^ 32.

(** ** DynamicTraits::calculate *)

Fixpoint addSizes (count : nat) (m : Memory) (element total : Z) : res Z :=
  match count with
  | O => Ret total
  | S count => n ← getUnderlyingSize m element; addSizes count m (getNext m element) (u32 (total + align8 n))
  end.

Definition calculate (fuel : nat) (m : Memory) (pDeviceProperties : Z) : res Z :=
  if pDeviceProperties =? 0 then Ret 0
  else
    let total := u32 (align8 (1 * sizeof_DynamicStructTraits)) in
    let first := pNext m pDeviceProperties in
    if first =? 0 then Ret total
    else
      count ← countOpaqueList fuel m first;
      if u32 count =? 0 then Ret total
      else addSizes (Z.to_nat (u32 count)) m first (u32 (total + align8 (u32 count * sizeof_NestedPNextTraits))).

(** ** copyFromCaller *)

Fixpoint copyElements (count : nat) (j : Z) (m : Memory) (dyn traits element currentOffset : Z) : res (Memory * Z) :=
  match count with
  | O => Ret (m, currentOffset)
  | S count =>
      extensionType ← getExtensionType m element;
      let m := st 4 m (traits + sizeof_NestedPNextTraits * j) extensionType in
      let m := st 4 m (traits + sizeof_NestedPNextTraits * j + 4) currentOffset in
      sizeInBytes ← getUnderlyingSize m element;
      let m := copyBytes m (dyn + currentOffset) m element sizeInBytes in
      copyElements count (j + 1) m dyn traits (getNext m element) (u32 (currentOffset + align8 sizeInBytes))
  end.

Definition noList (m : Memory) (dyn : Z) : Memory := st 4 (st 4 m dyn (u32 (-1))) (dyn + 4) (u32 (-1)).

Definition copyFromCaller (fuel : nat) (m : Memory) (args cap dyn : Z) : res Memory :=
  if args =? 0 then Ret m
  else
    let m := copyBytes m cap m args sizeof_ze_device_properties_t in
    let currentOffset := u32 (align8 (1 * sizeof_DynamicStructTraits)) in
    if pNext m args =? 0 then Ret (noList m dyn)
    else
      count ← countOpaqueList fuel m (pNext m args);
      if u32 count =? 0 then Ret (noList m dyn)
      else
        let first := pNext m args in
        let m := st 8 (st 4 (st 4 m dyn currentOffset) (dyn + 4) (u32 count)) (dyn + 8) first in
        let traits := dyn + currentOffset in
        let currentOffset := u32 (currentOffset + align8 (s32 (u32 count) * sizeof_NestedPNextTraits)) in
        '(m, _) ← copyElements (Z.to_nat (s32 (u32 count))) 0 m dyn traits (pNext m args) currentOffset;
        Ret m.

(** ** reassembleNestedStructs

    The assertions of the code are kept. *)

Definition extensionOffset (m : Memory) (traits j : Z) : Z := s32 (ld 4 m (traits + sizeof_NestedPNextTraits * j + 4)).

Fixpoint linkElements (k : nat) (j pNextCount : Z) (m : Memory) (dyn traits element currentOffset : Z) : res Memory :=
  match k with
  | O => Ret m
  | S k =>
      if j <? pNextCount then
        let m := st 8 m (element + 8) (dyn + extensionOffset m traits j) in
        let pNextElement := getNext m element in
        sizeInBytes ← getUnderlyingSize m pNextElement;
        linkElements k (j + 1) pNextCount m dyn traits pNextElement (u32 (currentOffset + align8 sizeInBytes))
      else linkElements k (j + 1) pNextCount m dyn traits element currentOffset
  end.

Definition reassembleNestedStructs (m : Memory) (cap dyn count : Z) : res Memory :=
  if negb (0 <? count) then Ret m
  else
    let currentOffset := u32 (align8 (1 * sizeof_DynamicStructTraits)) in
    if s32 (ld 4 m dyn) =? -1 then Ret (st 8 m (cap + 8) 0)
    else
      let traits := dyn + currentOffset in
      let pNextCount := s32 (ld 4 m (dyn + 4)) in
      let currentOffset := u32 (currentOffset + align8 (pNextCount * sizeof_NestedPNextTraits)) in
      if negb (currentOffset =? u32 (extensionOffset m traits 0)) then Abort
      else
        let m := st 8 m (cap + 8) (dyn + extensionOffset m traits 0) in
        sizeInBytes ← getUnderlyingSize m (pNext m cap);
        linkElements (Z.to_nat pNextCount) 1 pNextCount m dyn traits (pNext m cap) (u32 (currentOffset + align8 sizeInBytes)).

(** ** copyToCaller *)

Fixpoint copyBackElements (count : nat) (j : Z) (m : Memory) (dyn traits element : Z) : res Memory :=
  match count with
  | O => Ret m
  | S count =>
      sizeInBytes ← getUnderlyingSize m element;
      extensionType ← getExtensionType m element;
      let m :=
        if negb (isReadOnly extensionType) then
          let originalNextOpaqueElement := getNext m element in
          st 8 (copyBytes m element m (dyn + extensionOffset m traits j) sizeInBytes) (element + 8) originalNextOpaqueElement
        else m in
      copyBackElements count (j + 1) m dyn traits (getNext m element)
  end.

Definition copyToCaller (fuel : nat) (m : Memory) (args cap dyn : Z) : res Memory :=
  if args =? 0 then Ret m
  else
    let m := copyBytes m args m cap sizeof_ze_device_properties_t in
    if pNext m args =? 0 then Ret m
    else
      count ← countOpaqueList fuel m (pNext m args);
      let m := st 8 m (args + 8) (ld 8 m (dyn + 8)) in
      let traits := dyn + u32 (align8 (1 * sizeof_DynamicStructTraits)) in
      copyBackElements (Z.to_nat (s32 (u32 count))) 0 m dyn traits (pNext m args).

(** * Lists in memory *)

Definition size (m : Memory) (a : Z) : Z := default 0 (assoc underlyingSizes (stype m a)).

#[local] Arguments size : simpl never.
#[local] Arguments stype : simpl never.
#[local] Arguments pNext : simpl never.
#[local] Arguments align8 : simpl never.

(** The elements of the list at [p]: known structures up to the null pointer. *)
Fixpoint list_at (m : Memory) (p : Z) (l : list Z) : Prop :=
  match l with
  | [] => p = 0
  | a :: l => p = a /\ a <> 0 /\ is_Some (assoc underlyingSizes (stype m a)) /\ list_at m (pNext m a) l
  end.

Fixpoint endOffset (m : Memory) (cur : Z) (l : list Z) : Z :=
  match l with [] => cur | a :: l => endOffset m (cur + align8 (size m a)) l end.

(** The offsets at which the elements lie in the dynamic memory. *)
Fixpoint offsets (m : Memory) (cur : Z) (l : list Z) : list Z :=
  match l with [] => [] | a :: l => cur :: offsets m (cur + align8 (size m a)) l end.

(** Where the elements start, and the size of the dynamic memory. *)
Definition firstOffset (l : list Z) : Z := 16 + 8 * Z.of_nat (length l).
Definition totalSize (m : Memory) (l : list Z) : Z := endOffset m (firstOffset l) l.

(** The bytes of the elements stay clear of [lo, hi). *)
Definition clear (m : Memory) (l : list Z) (lo hi : Z) : Prop := Forall (fun a => a + size m a <= lo \/ hi <= a) l.

(** The elements do not overlap. *)
Fixpoint separate (m : Memory) (l : list Z) : Prop :=
  match l with
  | [] => True
  | a :: l => Forall (fun b => a + size m a <= b \/ b + size m b <= a) l /\ separate m l
  end.

(** The elements of [l] as they are in [m], with their traits, in the dynamic memory of [m']. *)
Fixpoint placed (m m' : Memory) (dyn traits j cur : Z) (l : list Z) : Prop :=
  match l with
  | [] => True
  | a :: l =>
      ld 4 m' (traits + 8 * j) = stype m a /\ ld 4 m' (traits + 8 * j + 4) = cur /\
      (forall o, 0 <= o < size m a -> m' (dyn + cur + o) = m (a + o)) /\
      placed m m' dyn traits (j + 1) (cur + align8 (size m a)) l
  end.

Lemma assoc_bounds k n : assoc underlyingSizes k = Some n -> 24 <= n <= 56 /\ align8 n = n.
Proof.
  assert (Hall : Forall (fun x => 24 <= x.2 <= 56 /\ align8 x.2 = x.2) underlyingSizes).
  { unfold underlyingSizes. repeat constructor; cbn; done. }
  revert Hall. generalize underlyingSizes as l. intros l Hall. induction Hall as [|[x v] l Hx Hall IH]; cbn [assoc]; [done|].
  destruct (x =? k); [by intros [= <-]|done].
Qed.

Lemma size_known m a n : assoc underlyingSizes (stype m a) = Some n -> size m a = n.
Proof. unfold size. by intros ->. Qed.

Lemma known_size m a : is_Some (assoc underlyingSizes (stype m a)) -> 24 <= size m a <= 56 /\ align8 (size m a) = size m a.
Proof. intros [n Hn]. rewrite (size_known _ _ _ Hn). by apply (assoc_bounds (stype m a)). Qed.

Lemma getUnderlyingSize_known m a : a <> 0 -> is_Some (assoc underlyingSizes (stype m a)) -> getUnderlyingSize m a = Ret (size m a).
Proof. intros Ha [n Hn]. unfold getUnderlyingSize. rewrite (proj2 (Z.eqb_neq a 0)) by done. by rewrite Hn, (size_known _ _ _ Hn). Qed.

Lemma align8_mult k : 0 <= k < 2 ^ 60 -> align8 (8 * k) = 8 * k.
Proof.
  intros Hk. unfold align8. change 8 with (2 ^ 3) at 1. rewrite alignUpPow2_alignUp by lia. unfold alignUp.
  change (2 ^ 3) with 8. rewrite (u64_id (8 * k + 8 - 1)) by (word_unfold; lia).
  replace (8 * k + 8 - 1) with (7 + k * 8) by lia. rewrite Z.mod_add, Z.mod_small by lia. rewrite u64_id by (word_unfold; lia). lia.
Qed.

Lemma s32_small x : 0 <= x < 2 ^ 31 -> s32 x = x.
Proof. intros H. unfold s32. by rewrite (proj2 (Z.ltb_lt _ _)) by lia. Qed.

(** What the list is depends on the headers of its elements only. *)
Lemma same_stype m m' a : same m m' a 16 -> stype m a = stype m' a.
Proof. intros H. apply ld_same. eapply same_sub; [exact H|lia|lia]. Qed.

Lemma same_pNext m m' a : same m m' a 16 -> pNext m a = pNext m' a.
Proof. intros H. apply ld_same. eapply same_sub; [exact H|lia|lia]. Qed.

Lemma same_size m m' a : same m m' a 16 -> size m a = size m' a.
Proof. intros H. unfold size. by rewrite (same_stype _ _ _ H). Qed.

Definition headers (m m' : Memory) (l : list Z) : Prop := Forall (fun a => same m m' a 16) l.

Lemma list_at_headers m m' p l : headers m m' l -> list_at m p l -> list_at m' p l.
Proof.
  intros H. revert p. induction H as [|a l Ha Hl IH]; intros p; cbn [list_at]; [done|].
  rewrite (same_stype _ _ _ Ha), (same_pNext _ _ _ Ha). intros (? & ? & ? & ?). by auto.
Qed.

Lemma offsets_headers m m' l : headers m m' l -> forall cur, offsets m cur l = offsets m' cur l /\ endOffset m cur l = endOffset m' cur l.
Proof.
  induction 1 as [|a l Ha Hl IH]; intros cur; cbn [offsets endOffset]; [done|]. rewrite (same_size _ _ _ Ha).
  destruct (IH (cur + align8 (size m' a))) as [-> ->]. done.
Qed.

Lemma clear_headers m m' l lo hi : headers m m' l -> clear m l lo hi -> clear m' l lo hi.
Proof.
  intros H. unfold clear. induction H as [|a l Ha Hl IH]; inversion 1; subst; constructor; [by rewrite <- (same_size _ _ _ Ha)|by apply IH].
Qed.

(** Every element of a list is a known structure. *)
Lemma list_at_known m p l : list_at m p l -> Forall (fun a => a <> 0 /\ is_Some (assoc underlyingSizes (stype m a))) l.
Proof. revert p. induction l as [|a l IH]; intros p; cbn; [constructor|]. intros (_ & Ha & Hk & Hl). constructor; [done|by eapply IH]. Qed.

Lemma clear_sub m l lo hi lo' hi' : lo <= lo' -> hi' <= hi -> clear m l lo hi -> clear m l lo' hi'.
Proof. intros H1 H2 H. eapply Forall_impl; [exact H|]. cbn. intros a. lia. Qed.

(** Writes that the elements are clear of keep their headers. *)
Lemma clear_same m m' p l lo hi :
  list_at m p l -> clear m l lo hi -> (forall b, ~ lo <= b < hi -> m' b = m b) -> Forall (fun a => same m m' a (size m a)) l.
Proof.
  intros Hl Hc Hs. unfold clear in Hc. rewrite Forall_forall in Hc. apply Forall_forall. intros a Ha b Hb.
  specialize (Hc a Ha). symmetry. apply Hs. lia.
Qed.

Lemma known_headers m m' p l : list_at m p l -> Forall (fun a => same m m' a (size m a)) l -> headers m m' l.
Proof.
  intros Hk%list_at_known. unfold headers. rewrite !Forall_forall in *. intros H a Ha. destruct (Hk a Ha) as [_ Hka].
  pose proof (known_size _ _ Hka). eapply same_sub; [by apply H|lia|lia].
Qed.

Lemma clear_headers_same m m' p l lo hi :
  list_at m p l -> clear m l lo hi -> (forall b, ~ lo <= b < hi -> m' b = m b) -> headers m m' l.
Proof. intros Hl Hc Hs. eapply known_headers; [done|]. by eapply clear_same. Qed.

Lemma endOffset_ge m p cur l : list_at m p l -> cur + 24 * Z.of_nat (length l) <= endOffset m cur l.
Proof.
  revert p cur. induction l as [|a l IH]; intros p cur; cbn [list_at endOffset length]; [lia|]. intros (_ & _ & Hk & Hl).
  specialize (IH _ (cur + align8 (size m a)) Hl). destruct (known_size _ _ Hk) as [Hs ->] in IH. destruct (known_size _ _ Hk). lia.
Qed.

(** * The walk over a list *)

Lemma countOpaqueList_list m : forall l p fuel, list_at m p l -> (length l < fuel)%nat -> countOpaqueList fuel m p = Ret (Z.of_nat (length l)).
Proof.
  induction l as [|a l IH]; intros p [|fuel] Hl Hf; cbn [length] in Hf; try lia; cbn [countOpaqueList list_at length] in *.
  - by subst.
  - destruct Hl as (-> & Ha & _ & Hl). rewrite (proj2 (Z.eqb_neq a 0)) by done. rewrite (IH _ _ Hl) by lia. cbn [mbind res_bind]. f_equal. lia.
Qed.

Lemma addSizes_list m : forall l p total, list_at m p l -> 0 <= total -> endOffset m total l < 2 ^ 31 ->
  addSizes (length l) m p total = Ret (endOffset m total l).
Proof.
  induction l as [|a l IH]; intros p total Hl Ht He; cbn [length addSizes endOffset list_at] in *; [done|].
  destruct Hl as (-> & Ha & Hk & Hl). rewrite (getUnderlyingSize_known m a Ha Hk). cbn [mbind res_bind]. unfold getNext. rewrite (proj2 (Z.eqb_neq a 0)) by done.
  destruct (known_size _ _ Hk) as [Hs Ha8]. pose proof (endOffset_ge _ _ (total + align8 (size m a)) _ Hl) as Hg. rewrite Ha8 in *.
  rewrite u32_id by (word_unfold; lia). apply IH; [done|lia|done].
Qed.

(** * The copy from the caller *)

Lemma assoc_key k : is_Some (assoc underlyingSizes k) -> 0 <= k < 2 ^ 31.
Proof.
  assert (Hall : Forall (fun x => 0 <= x.1 < 2 ^ 31) underlyingSizes) by (unfold underlyingSizes; repeat constructor; cbn; done).
  revert Hall. generalize underlyingSizes as l. intros l Hall. induction Hall as [|[x v] l Hx Hall IH]; cbn [assoc].
  - by intros [? ?].
  - destruct (Z.eqb_spec x k) as [->|]; [done|by intros ?%IH].
Qed.

Lemma placed_source m1 m m' dyn traits l : Forall (fun a => same m1 m a (size m1 a)) l -> headers m1 m l ->
  forall j cur, placed m1 m' dyn traits j cur l -> placed m m' dyn traits j cur l.
Proof.
  intros Hs. induction Hs as [|a l Ha Hs IH]; intros Hh j cur; cbn [placed]; [done|]. inversion Hh as [|?? Hha Hhl]; subst.
  rewrite <- (same_stype _ _ _ Hha), <- (same_size _ _ _ Hha). intros (H1 & H2 & H3 & H4). split; [done|]. split; [done|].
  split; [|by apply IH]. intros o Ho. rewrite H3 by done. apply Ha. lia.
Qed.

(** Writes outside the traits and the copies keep them. *)
Lemma placed_target m m1 m2 dyn traits : forall l p j cur, list_at m p l ->
  same m1 m2 (traits + 8 * j) (8 * Z.of_nat (length l)) -> same m1 m2 (dyn + cur) (endOffset m cur l - cur) ->
  placed m m1 dyn traits j cur l -> placed m m2 dyn traits j cur l.
Proof.
  induction l as [|a l IH]; intros p j cur Hl Ht Hd; cbn [placed endOffset length list_at] in *; [done|].
  destruct Hl as (_ & _ & Hk & Hl). destruct (known_size _ _ Hk) as [Hs Ha8].
  pose proof (endOffset_ge _ _ (cur + align8 (size m a)) _ Hl) as Hg. rewrite Ha8 in *. intros (H1 & H2 & H3 & H4).
  split; [|split; [|split]].
  - rewrite <- H1. symmetry. apply ld_same. eapply same_sub; [exact Ht|lia|lia].
  - rewrite <- H2. symmetry. apply ld_same. eapply same_sub; [exact Ht|lia|lia].
  - intros o Ho. rewrite <- H3 by done. symmetry. apply Hd. lia.
  - eapply IH; [exact Hl|eapply same_sub; [exact Ht|lia|lia]|eapply same_sub; [exact Hd|lia|lia]|exact H4].
Qed.

Lemma copyElements_ok dyn traits : forall l m p j cur,
  list_at m p l -> 0 <= j -> 0 <= cur -> traits + 8 * (j + Z.of_nat (length l)) <= dyn + cur ->
  clear m l (traits + 8 * j) (dyn + endOffset m cur l) -> endOffset m cur l < 2 ^ 31 ->
  exists m', copyElements (length l) j m dyn traits p cur = Ret (m', endOffset m cur l) /\
    placed m m' dyn traits j cur l /\
    (forall b, ~ traits + 8 * j <= b < traits + 8 * (j + Z.of_nat (length l)) -> ~ dyn + cur <= b < dyn + endOffset m cur l -> m' b = m b).
Proof.
  induction l as [|a l IH]; intros m p j cur Hl Hj Hcur Ht Hc He; cbn [length copyElements endOffset list_at placed] in *.
  { exists m. done. }
  destruct Hl as (-> & Ha & Hk & Hl). destruct (known_size _ _ Hk) as [Hs Ha8]. rewrite Ha8 in *.
  inversion Hc as [|?? Hca Hcl]; subst. pose proof (endOffset_ge _ _ (cur + size m a) _ Hl) as Hg.
  unfold getExtensionType. rewrite (proj2 (Z.eqb_neq a 0)) by done. cbn [mbind res_bind]. unfold sizeof_NestedPNextTraits.
  pose proof (assoc_key _ Hk) as Hkey.
  set (m1 := st 4 (st 4 m (traits + 8 * j) (stype m a)) (traits + 8 * j + 4) cur).
  assert (Hm1 : forall b, ~ traits + 8 * j <= b < traits + 8 * j + 8 -> m1 b = m b) by (intros b Hb; unfold m1; rewrite !st_out by lia; done).
  assert (Ha1 : same m m1 a (size m a)) by (intros b Hb; symmetry; apply Hm1; lia).
  assert (Hh1 : same m m1 a 16) by (eapply same_sub; [exact Ha1|lia|lia]).
  rewrite (getUnderlyingSize_known m1 a Ha) by (by rewrite <- (same_stype _ _ _ Hh1)). rewrite <- (same_size _ _ _ Hh1). cbn [mbind res_bind].
  set (m2 := copyBytes m1 (dyn + cur) m1 a (size m a)).
  assert (Hm2 : forall b, ~ dyn + cur <= b < dyn + cur + size m a -> m2 b = m1 b) by (intros b Hb; apply copyBytes_out; lia).
  assert (Ha2 : same m m2 a (size m a)) by (intros b Hb; rewrite Hm2 by lia; by apply Ha1).
  assert (Hl2 : Forall (fun b => same m m2 b (size m b)) l).
  { eapply clear_same; [exact Hl|exact Hcl|]. intros b Hb. rewrite Hm2, Hm1 by lia. done. }
  pose proof (known_headers _ _ _ _ Hl Hl2) as Hh2. destruct (offsets_headers _ _ _ Hh2 (cur + size m a)) as [_ He2].
  unfold getNext. rewrite (proj2 (Z.eqb_neq a 0)) by done. rewrite Ha8, u32_id by (word_unfold; lia).
  assert (Hh2a : same m m2 a 16) by (eapply same_sub; [exact Ha2|lia|lia]). rewrite <- (same_pNext _ _ _ Hh2a).
  destruct (IH m2 (pNext m a) (j + 1) (cur + size m a)) as (m' & Hr & Hp & Hsm); rewrite <- ?He2; try lia.
  { by eapply list_at_headers. }
  { eapply clear_headers; [exact Hh2|]. eapply clear_sub; [| |exact Hcl]; lia. }
  rewrite <- He2 in Hsm, Hr. exists m'. split; [exact Hr|]. split; [split; [|split; [|split]]|].
  - transitivity (ld 4 m1 (traits + 8 * j)); [apply ld_same; intros b Hb; rewrite Hsm, Hm2 by lia; done|]. unfold m1.
    erewrite ld_same; [apply ld4_st; lia|apply st_same; lia].
  - transitivity (ld 4 m1 (traits + 8 * j + 4)); [apply ld_same; intros b Hb; rewrite Hsm, Hm2 by lia; done|]. apply ld4_st. lia.
  - intros o Ho. rewrite Hsm by lia. unfold m2. rewrite copyBytes_in by lia. rewrite Hm1 by lia. f_equal. lia.
  - eapply placed_source; [| |exact Hp].
    + eapply Forall_impl; [exact (List.Forall_and Hl2 Hh2)|]. intros b [Hb1 Hb2] c Hc'. rewrite <- (same_size _ _ _ Hb2) in Hc'.
      symmetry. by apply Hb1.
    + eapply Forall_impl; [exact Hh2|]. intros b Hb c Hc'. symmetry. by apply Hb.
  - intros b H1 H2. rewrite Hsm, Hm2, Hm1 by lia. done.
Qed.

Section Message.
Context (m : Memory) (args cap dyn p : Z) (l : list Z).

(** A caller's structure with the list [l], and a message with room for it. *)
Record caller : Prop := {
  caller_args : args <> 0;
  caller_pNext : pNext m args = p;
  caller_list : list_at m p l;
  caller_words : Forall is_u64 l;
  caller_room : totalSize m l < 2 ^ 31;
  caller_message : cap + sizeof_ze_device_properties_t <= dyn;
  caller_apart : args + sizeof_ze_device_properties_t <= cap \/ dyn + Z.max 16 (totalSize m l) <= args;
  caller_clear : clear m l cap (dyn + totalSize m l)
}.

(** The size of the dynamic memory in bytes: the traits of the structure, then the list. *)
Definition dynamicSize : Z := if decide (l = []) then 16 else totalSize m l.

Lemma totalSize_ge : list_at m p l -> 16 + 32 * Z.of_nat (length l) <= totalSize m l.
Proof. intros Hl. unfold totalSize, firstOffset. pose proof (endOffset_ge _ _ (16 + 8 * Z.of_nat (length l)) _ Hl). lia. Qed.

(** The lines before the loops: the structure is captured, its traits are written. *)
Definition captured : Memory := copyBytes m cap m args sizeof_ze_device_properties_t.
Definition traitsWritten : Memory := st 8 (st 4 (st 4 captured dyn 16) (dyn + 4) (Z.of_nat (length l))) (dyn + 8) p.

Context (H : caller).

Lemma traitsWritten_same b : ~ cap <= b < cap + 368 -> ~ dyn <= b < dyn + 16 -> traitsWritten b = m b.
Proof. intros H1 H2. unfold traitsWritten. rewrite !st_out by lia. apply copyBytes_out. unfold sizeof_ze_device_properties_t. lia. Qed.

Lemma args_pNext m' : (forall b, ~ cap <= b < dyn + 16 -> m' b = m b) -> pNext m' args = p.
Proof.
  destruct H as [_ Hp _ _ _ Hm Ha _]. intros Hs. rewrite <- Hp. apply ld_same. intros b Hb. apply Hs.
  unfold sizeof_ze_device_properties_t in *. lia.
Qed.

(** What the message holds after the copy from the caller. *)
Record carries (m' : Memory) : Prop := {
  carries_struct : forall o, 0 <= o < sizeof_ze_device_properties_t -> m' (cap + o) = m (args + o);
  carries_offset : ld 4 m' dyn = 16;
  carries_count : ld 4 m' (dyn + 4) = Z.of_nat (length l);
  carries_first : ld 8 m' (dyn + 8) = p;
  carries_list : placed m m' dyn (dyn + 16) 0 (firstOffset l) l
}.

Lemma traitsWritten_words :
  is_u64 p -> Z.of_nat (length l) < 2 ^ 31 ->
  ld 4 traitsWritten dyn = 16 /\ ld 4 traitsWritten (dyn + 4) = Z.of_nat (length l) /\ ld 8 traitsWritten (dyn + 8) = p.
Proof.
  intros Hp Hl. unfold traitsWritten. split; [|split].
  - erewrite ld_same; [|apply st_same; lia]. erewrite ld_same; [apply ld4_st; lia|apply st_same; lia].
  - erewrite ld_same; [apply ld4_st; lia|apply st_same; lia].
  - apply ld8_st. revert Hp. word_unfold. lia.
Qed.

Lemma copyFromCaller_list fuel : l <> [] -> (length l < fuel)%nat ->
  exists m', copyFromCaller fuel m args cap dyn = Ret m' /\ carries m' /\
    (forall b, ~ cap <= b < cap + sizeof_ze_device_properties_t -> ~ dyn <= b < dyn + totalSize m l -> m' b = m b).
Proof.
  intros Hne Hf. pose proof H as [Ha Hp Hl Hw Hroom Hmsg Hapart Hclear]. unfold sizeof_ze_device_properties_t in *.
  pose proof (totalSize_ge Hl) as Hge. assert (Hp0 : p <> 0 /\ is_u64 p).
  { destruct l as [|a k]; [done|]. destruct Hl as (-> & ? & _). inversion Hw; by subst. }
  destruct Hp0 as [Hp0 Hpw]. destruct (traitsWritten_words Hpw ltac:(lia)) as (H0 & H4 & H8).
  assert (Hhead : forall m', (forall b, ~ cap <= b < dyn + 16 -> m' b = m b) -> headers m m' l).
  { intros m' Hs. eapply (clear_headers_same m m' p l cap (dyn + totalSize m l)); [done|done|]. intros b Hb. apply Hs. lia. }
  assert (Hcs : forall b, ~ cap <= b < dyn + 16 -> captured b = m b).
  { intros b Hb. apply copyBytes_out. unfold sizeof_ze_device_properties_t. lia. }
  unfold copyFromCaller. rewrite (proj2 (Z.eqb_neq args 0)) by done. fold captured. rewrite !(args_pNext captured Hcs).
  rewrite (proj2 (Z.eqb_neq p 0)) by done. rewrite (countOpaqueList_list captured l) by (eauto using list_at_headers || done).
  cbn [mbind res_bind]. rewrite (u32_id (Z.of_nat (length l))) by (word_unfold; lia).
  assert (Hlen : 0 < Z.of_nat (length l)) by (destruct l; [done|cbn; lia]). rewrite (proj2 (Z.eqb_neq (Z.of_nat (length l)) 0)) by lia.
  rewrite (s32_small (Z.of_nat (length l))), Nat2Z.id by lia. change (u32 (align8 (1 * sizeof_DynamicStructTraits))) with 16.
  fold traitsWritten. assert (Hts : forall b, ~ cap <= b < dyn + 16 -> traitsWritten b = m b) by (intros b Hb; apply traitsWritten_same; lia).
  rewrite (args_pNext traitsWritten Hts). unfold sizeof_NestedPNextTraits. rewrite (Z.mul_comm (Z.of_nat (length l)) 8), align8_mult by lia.
  rewrite u32_id by (word_unfold; lia). change (16 + 8 * Z.of_nat (length l)) with (firstOffset l).
  pose proof (Hhead _ Hts) as Ht. destruct (offsets_headers _ _ _ Ht (firstOffset l)) as [_ He].
  destruct (copyElements_ok dyn (dyn + 16) l traitsWritten p 0 (firstOffset l)) as (m' & Hr & Hpl & Hs).
  { by eapply list_at_headers. } { lia. } { unfold firstOffset. lia. } { unfold firstOffset. lia. }
  { rewrite <- He. eapply clear_headers; [exact Ht|]. eapply clear_sub; [| |exact Hclear]; unfold totalSize; lia. } { rewrite <- He. exact Hroom. }
  rewrite <- He in *. fold (totalSize m l) in *. rewrite Hr. cbn [mbind res_bind]. exists m'. split; [done|].
  assert (Hs' : forall b, ~ dyn + 16 <= b < dyn + totalSize m l -> m' b = traitsWritten b) by (intros b Hb; apply Hs; unfold firstOffset; lia).
  split; [split|].
  - intros o Ho. unfold sizeof_ze_device_properties_t in *. rewrite Hs' by lia. unfold traitsWritten. rewrite !st_out by lia. unfold captured. rewrite copyBytes_in by (unfold sizeof_ze_device_properties_t; lia). f_equal. lia.
  - rewrite <- H0. apply ld_same. intros b Hb. apply Hs'. lia.
  - rewrite <- H4. apply ld_same. intros b Hb. apply Hs'. lia.
  - rewrite <- H8. apply ld_same. intros b Hb. apply Hs'. lia.
  - eapply placed_source; [| |exact Hpl].
    + eapply clear_same; [by eapply list_at_headers|by eapply clear_headers|]. intros b Hb. symmetry. apply Hts. lia.
    + eapply Forall_impl; [exact Ht|]. intros a Hsa c Hc. symmetry. by apply Hsa.
  - intros b H1 H2. rewrite Hs' by lia. apply traitsWritten_same; lia.
Qed.
End Message.

(** * The reassembly in the service *)

Lemma ld_shift n s x m a : (forall o, 0 <= o < Z.of_nat n -> s (x + o) = m (a + o)) -> ld n s x = ld n m a.
Proof.
  revert x a. induction n as [|n IH]; intros x a H; cbn [ld]; [done|]. pose proof (H 0 ltac:(lia)) as H0. rewrite !Z.add_0_r in H0. rewrite H0.
  do 2 f_equal. apply IH. intros o Ho. rewrite <- !Z.add_assoc. apply H. lia.
Qed.

(** A copy has the header of the original. *)
Lemma copy_header s x m a n : 24 <= n -> (forall o, 0 <= o < n -> s (x + o) = m (a + o)) -> stype s x = stype m a /\ pNext s x = pNext m a.
Proof.
  intros Hn H. split; apply ld_shift; intros o Ho; [apply H; lia|]. rewrite <- !Z.add_assoc. apply H. lia.
Qed.

(** The elements of [l] in [m] lie at [offs] in the dynamic memory, all but their links. *)
Definition copied (m s : Memory) (dyn : Z) : list Z -> list Z -> Prop :=
  Forall2 (fun a o => forall i, 0 <= i < size m a -> ~ 8 <= i < 16 -> s (dyn + o + i) = m (a + i)).

Lemma linkElements_ok m dyn traits : 0 < dyn -> forall rest q s e j cur co,
  e <> 0 -> is_Some (assoc underlyingSizes (stype s e)) -> e + 24 <= dyn + cur -> traits + 8 * (j + Z.of_nat (length rest)) <= e ->
  list_at m q rest -> placed m s dyn traits j cur rest -> (rest = [] -> pNext s e = 0) ->
  0 <= cur -> endOffset m cur rest < 2 ^ 31 -> dyn + endOffset m cur rest < 2 ^ 64 ->
  exists s', linkElements (S (length rest)) j (j + Z.of_nat (length rest)) s dyn traits e co = Ret s' /\
    list_at s' e (e :: map (Z.add dyn) (offsets m cur rest)) /\ copied m s' dyn rest (offsets m cur rest) /\
    (forall b, ~ e + 8 <= b < e + 16 -> ~ dyn + cur <= b < dyn + endOffset m cur rest -> s' b = s b).
Proof.
  intros Hdyn. induction rest as [|a rest IH]; intros q s e j cur co He Hk Hec Hte Hl Hp Hlast Hcur Hend Hw.
  { cbn [length linkElements]. rewrite (proj2 (Z.ltb_ge j (j + Z.of_nat 0))) by lia. exists s. split; [done|].
    split; [|split; [constructor|done]]. cbn [map offsets list_at]. by rewrite Hlast. }
  cbn [list_at placed endOffset offsets length] in *. destruct Hl as (-> & Ha & Hka & Hl). destruct (known_size _ _ Hka) as [Hs Ha8]. rewrite Ha8 in *.
  destruct Hp as (_ & Hoff & Hbytes & Hp). pose proof (endOffset_ge _ _ (cur + size m a) _ Hl) as Hg.
  remember (S (length rest)) as k. cbn [linkElements]. subst k. rewrite (proj2 (Z.ltb_lt j _)) by lia.
  unfold extensionOffset, sizeof_NestedPNextTraits. rewrite Hoff, s32_small by lia. set (s1 := st 8 s (e + 8) (dyn + cur)).
  assert (Hs1 : forall b, ~ e + 8 <= b < e + 16 -> s1 b = s b) by (intros b Hb; apply st_out; lia).
  assert (Hn1 : pNext s1 e = dyn + cur) by (apply ld8_st; lia). unfold getNext. rewrite (proj2 (Z.eqb_neq e 0)), Hn1 by done.
  destruct (copy_header s1 (dyn + cur) m a (size m a)) as [Hst Hnx]; [lia|intros o Ho; rewrite Hs1 by lia; by apply Hbytes|].
  rewrite getUnderlyingSize_known by (lia || by rewrite Hst). cbn [mbind res_bind].
  destruct (IH (pNext m a) s1 (dyn + cur) (j + 1) (cur + size m a) (u32 (co + align8 (size s1 (dyn + cur))))) as (s' & Hr & Hl' & Hc' & Hf'); try lia; try done.
  { by rewrite Hst. }
  { eapply placed_target; [exact Hl| | |exact Hp]; intros b Hb; symmetry; apply Hs1; lia. }
  { intros ->. cbn in Hl. by rewrite Hnx. }
  exists s'. replace (j + Z.of_nat (S (length rest))) with (j + 1 + Z.of_nat (length rest)) by lia. split; [exact Hr|]. split; [|split].
  - cbn [map list_at]. split; [done|]. split; [done|].
    assert (Hh : forall b, e <= b < e + 16 -> s' b = s1 b) by (intros b Hb; apply Hf'; lia). split.
    + replace (stype s' e) with (stype s e); [done|]. apply ld_same. intros b Hb. rewrite Hh, Hs1 by lia. done.
    + replace (pNext s' e) with (pNext s1 e); [by rewrite Hn1|]. apply ld_same. intros b Hb. symmetry. apply Hh. lia.
  - constructor; [|exact Hc']. intros i Hi Hni. rewrite Hf', Hs1 by lia. by apply Hbytes.
  - intros b H1 H2. rewrite Hf', Hs1 by lia. done.
Qed.

(** A process that sees the bytes of the message at its own addresses. *)
Definition mapped (n : Z) (m : Memory) (a : Z) (s : Memory) (b : Z) : Prop := forall o, 0 <= o < n -> s (b + o) = m (a + o).

Lemma mapped_ld w n m a s b o : mapped n m a s b -> 0 <= o -> o + Z.of_nat w <= n -> ld w s (b + o) = ld w m (a + o).
Proof. intros H H0 Hn. apply ld_shift. intros i Hi. rewrite <- !Z.add_assoc. apply H. lia. Qed.

Lemma placed_mapped n m m1 dyn s sdyn off : mapped n m1 dyn s sdyn -> 0 <= off -> forall l p j cur, list_at m p l ->
  0 <= j -> off + 8 * (j + Z.of_nat (length l)) <= n -> 0 <= cur -> endOffset m cur l <= n ->
  placed m m1 dyn (dyn + off) j cur l -> placed m s sdyn (sdyn + off) j cur l.
Proof.
  intros Hm H0. induction l as [|a l IH]; intros p j cur Hl Hj Ht Hcur He; cbn [placed list_at endOffset length] in *; [done|].
  destruct Hl as (_ & _ & Hk & Hl). destruct (known_size _ _ Hk) as [Hs Ha8]. rewrite Ha8 in *.
  pose proof (endOffset_ge _ _ (cur + size m a) _ Hl). intros (H1 & H2 & H3 & H4). split; [|split; [|split]].
  - rewrite <- H1, <- !Z.add_assoc. eapply mapped_ld; [exact Hm|lia|lia].
  - rewrite <- H2, <- !Z.add_assoc. eapply mapped_ld; [exact Hm|lia|lia].
  - intros o Ho. rewrite <- H3, <- !Z.add_assoc by done. apply Hm. lia.
  - by eapply IH; [exact Hl|lia|lia|lia|lia|].
Qed.

(** The message as another process sees it. *)
Lemma carries_mapped m args cap dyn p l m1 s scap sdyn :
  list_at m p l -> carries m args cap dyn p l m1 -> mapped sizeof_ze_device_properties_t m1 cap s scap -> mapped (totalSize m l) m1 dyn s sdyn ->
  carries m args scap sdyn p l s.
Proof.
  intros Hl [H1 H2 H3 H4 H5] Hc Hd. pose proof (totalSize_ge m p l Hl) as Hg.
  assert (Hw : forall w o, 0 <= o -> o + Z.of_nat w <= totalSize m l -> ld w s (sdyn + o) = ld w m1 (dyn + o)) by (intros; by eapply mapped_ld).
  split.
  - intros o Ho. rewrite Hc by done. by apply H1.
  - rewrite <- H2. pose proof (Hw 4%nat 0 ltac:(lia) ltac:(lia)) as H. by rewrite !Z.add_0_r in H.
  - rewrite <- H3. apply Hw; lia.
  - rewrite <- H4. apply Hw; lia.
  - eapply placed_mapped; [exact Hd|lia|exact Hl|lia| | | |exact H5]; unfold firstOffset; [lia|lia|]. unfold totalSize, firstOffset. lia.
Qed.

(** The list that a reassembled message holds. *)
Record reassembled (m : Memory) (args cap dyn : Z) (l : list Z) (s : Memory) : Prop := {
  re_struct : forall o, 0 <= o < sizeof_ze_device_properties_t -> ~ 8 <= o < 16 -> s (cap + o) = m (args + o);
  re_list : list_at s (pNext s cap) (map (Z.add dyn) (offsets m (firstOffset l) l));
  re_elements : copied m s dyn l (offsets m (firstOffset l) l)
}.

Lemma reassemble_carries m args p l s cap dyn :
  list_at m p l -> l <> [] -> totalSize m l < 2 ^ 31 -> 0 <= cap -> cap + sizeof_ze_device_properties_t <= dyn -> dyn + totalSize m l < 2 ^ 64 ->
  carries m args cap dyn p l s ->
  exists s', reassembleNestedStructs s cap dyn 1 = Ret s' /\ reassembled m args cap dyn l s' /\
    (forall b, ~ cap + 8 <= b < cap + 16 -> ~ dyn + firstOffset l <= b < dyn + totalSize m l -> s' b = s b).
Proof.
  intros Hl Hne Hroom Hcap Hcd Hw Hcar. unfold sizeof_ze_device_properties_t in *. pose proof (totalSize_ge m p l Hl) as Hge.
  destruct l as [|a rest]; [done|]. destruct Hcar as [Hst H0 H4 _ Hp]. unfold totalSize, firstOffset in *.
  cbn [length list_at placed offsets endOffset] in *. destruct Hl as (-> & Ha & Hk & Hl).
  destruct (known_size _ _ Hk) as [Hs Ha8]. rewrite Ha8 in *. set (first := 16 + 8 * Z.of_nat (S (length rest))) in *.
  pose proof (endOffset_ge _ _ (first + size m a) _ Hl) as Hg. destruct Hp as (_ & Hoff & Hbytes & Hp).
  unfold reassembleNestedStructs. change (negb (0 <? 1)) with false. cbv iota. rewrite H0, H4, s32_small by lia. change (16 =? -1) with false. cbv iota.
  change (u32 (align8 (1 * sizeof_DynamicStructTraits))) with 16. rewrite (s32_small (Z.of_nat _)) by lia. unfold sizeof_NestedPNextTraits at 1.
  rewrite (Z.mul_comm (Z.of_nat _) 8), align8_mult by lia. rewrite u32_id by (word_unfold; lia). fold first.
  unfold extensionOffset, sizeof_NestedPNextTraits. rewrite Hoff. rewrite (s32_small first) by lia. rewrite (u32_id first) by (word_unfold; lia).
  rewrite Z.eqb_refl. cbn [negb]. set (s1 := st 8 s (cap + 8) (dyn + first)).
  assert (Hs1 : forall b, ~ cap + 8 <= b < cap + 16 -> s1 b = s b) by (intros b Hb; apply st_out; lia).
  assert (Hn1 : pNext s1 cap = dyn + first) by (apply ld8_st; lia). rewrite Hn1.
  destruct (copy_header s1 (dyn + first) m a (size m a)) as [Hty Hnx]; [lia|intros o Ho; rewrite Hs1 by lia; by apply Hbytes|].
  rewrite getUnderlyingSize_known by (lia || by rewrite Hty). cbn [mbind res_bind]. rewrite Nat2Z.id.
  match goal with |- context [linkElements _ _ _ _ _ _ _ ?x] => set (co := x) end.
  destruct (linkElements_ok m dyn (dyn + 16) ltac:(lia) rest (pNext m a) s1 (dyn + first) 1 (first + size m a) co)
    as (s' & Hr & Hl' & Hc' & Hf'); try lia; try done.
  { by rewrite Hty. }
  { eapply placed_target; [exact Hl| | |exact Hp]; intros b Hb; symmetry; apply Hs1; lia. }
  { intros ->. cbn in Hl. by rewrite Hnx. }
  exists s'. replace (Z.of_nat (S (length rest))) with (1 + Z.of_nat (length rest)) by lia. split; [exact Hr|].
  assert (Hcs : forall b, cap <= b < cap + 368 -> s' b = s1 b) by (intros b Hb; apply Hf'; lia).
  split; [split|].
  - intros o Ho Hno. unfold sizeof_ze_device_properties_t in *. rewrite Hcs, Hs1 by lia. by apply Hst.
  - unfold firstOffset. cbn [length]. fold first. replace (pNext s' cap) with (pNext s1 cap).
    + rewrite Hn1. cbn [offsets]. rewrite Ha8. exact Hl'.
    + apply ld_same. intros b Hb. symmetry. apply Hcs. lia.
  - unfold firstOffset. cbn [length]. fold first. cbn [offsets]. rewrite Ha8. constructor; [|exact Hc']. intros i Hi Hni.
    rewrite Hf', Hs1 by lia. by apply Hbytes.
  - unfold firstOffset. cbn [length]. fold first. intros b H1 H2. rewrite Hf', Hs1 by lia. done.
Qed.

(** * The copy back *)

Fixpoint traitsHold (s : Memory) (traits j : Z) (offs : list Z) : Prop :=
  match offs with [] => True | o :: offs => ld 4 s (traits + 8 * j + 4) = o /\ traitsHold s traits (j + 1) offs end.

Lemma placed_traits m s dyn traits l : forall j cur, placed m s dyn traits j cur l -> traitsHold s traits j (offsets m cur l).
Proof. induction l as [|a l IH]; intros j cur; cbn [placed offsets traitsHold]; [done|]. intros (_ & H & _ & Hp). split; [done|by apply IH]. Qed.

Lemma traitsHold_same s s' traits : forall offs j, same s s' (traits + 8 * j) (8 * Z.of_nat (length offs)) ->
  traitsHold s traits j offs -> traitsHold s' traits j offs.
Proof.
  induction offs as [|o offs IH]; intros j Hs; cbn [traitsHold length] in *; [done|]. intros [H Ho]. split.
  - rewrite <- H. symmetry. apply ld_same. eapply same_sub; [exact Hs|lia|lia].
  - apply IH; [|done]. eapply same_sub; [exact Hs|lia|lia].
Qed.

(** The elements of the caller after the copy back: links as before, the rest as in the
    message, or as before for the read-only ones. *)
Definition restored (m : Memory) (s : Memory) (m' : Memory) (dyn : Z) : list Z -> list Z -> Prop :=
  Forall2 (fun a o => pNext m' a = pNext m a /\
    forall i, 0 <= i < size m a -> ~ 8 <= i < 16 -> m' (a + i) = if isReadOnly (stype m a) then m (a + i) else s (dyn + o + i)).

Lemma offsets_length m l : forall cur, length (offsets m cur l) = length l.
Proof. induction l as [|a l IH]; intros cur; cbn; [done|by rewrite IH]. Qed.

Lemma list_at_word m p l : list_at m p l -> Forall is_u64 l -> 0 <= p < 2 ^ 64.
Proof. destruct l as [|a l]; cbn [list_at]; [intros -> _; lia|]. intros (-> & _) H. inversion H as [|?? Ha]; subst. revert Ha. word_unfold. lia. Qed.

Lemma separate_headers m m' l : headers m m' l -> separate m l -> separate m' l.
Proof.
  induction 1 as [|a l Ha Hl IH]; cbn [separate]; [done|]. intros [H Hs]. split; [|by apply IH].
  eapply Forall_impl; [exact (List.Forall_and H Hl)|]. cbn. intros b [Hb Hbs].
  by rewrite <- (same_size _ _ _ Ha), <- (same_size _ _ _ Hbs).
Qed.

Lemma endOffset_known m l : forall cur, Forall (fun a => is_Some (assoc underlyingSizes (stype m a))) l -> cur <= endOffset m cur l.
Proof.
  induction l as [|a l IH]; intros cur H; cbn [endOffset]; [lia|]. inversion H as [|?? Hk Hl]; subst.
  specialize (IH (cur + align8 (size m a)) Hl). destruct (known_size _ _ Hk) as [? Ha8]. rewrite Ha8 in *. lia.
Qed.

Lemma restored_source m m1 s s1 m' dyn l : Forall (fun a => same m m1 a (size m a)) l -> headers m m1 l -> forall cur,
  (forall b, dyn + cur <= b < dyn + endOffset m cur l -> s1 b = s b) -> Forall (fun a => is_Some (assoc underlyingSizes (stype m a))) l ->
  restored m1 s1 m' dyn l (offsets m cur l) -> restored m s m' dyn l (offsets m cur l).
Proof.
  intros Hs. induction Hs as [|a l Ha Hs IH]; intros Hh cur Hd Hk; cbn [offsets endOffset] in *; [intros _; constructor|].
  inversion Hh as [|?? Hha Hhl]; inversion Hk as [|?? Hka Hkl]; subst. destruct (known_size _ _ Hka) as [Hsz Ha8]. rewrite Ha8 in *.
  inversion_clear 1 as [|???? [Hn Hb] Hr]. pose proof (endOffset_known _ _ (cur + size m a) Hkl) as Hg. constructor.
  - split; [by rewrite Hn, (same_pNext _ _ _ Hha)|]. intros i Hi Hni. rewrite Hb by (by rewrite <- ?(same_size _ _ _ Hha)).
    rewrite <- (same_stype _ _ _ Hha), <- (Ha (a + i)), (Hd (dyn + cur + i)) by lia. done.
  - apply IH; [done| |done|done]. intros b Hb'. apply Hd. lia.
Qed.

(** One element of the copy back. *)
Definition copyBack (m : Memory) (a src : Z) : Memory :=
  if negb (isReadOnly (stype m a)) then st 8 (copyBytes m a m src (size m a)) (a + 8) (pNext m a) else m.

Lemma copyBack_ok m a src : 24 <= size m a -> 0 <= pNext m a < 2 ^ 64 ->
  pNext (copyBack m a src) a = pNext m a /\
  (forall i, 0 <= i < size m a -> ~ 8 <= i < 16 -> copyBack m a src (a + i) = if isReadOnly (stype m a) then m (a + i) else m (src + i)) /\
  (forall b, ~ a <= b < a + size m a -> copyBack m a src b = m b).
Proof.
  intros Hs Hw. unfold copyBack. destruct (isReadOnly (stype m a)); cbn [negb]; [done|]. split; [apply ld8_st; lia|]. split.
  - intros i Hi Hni. rewrite st_out, copyBytes_in by lia. f_equal. lia.
  - intros b Hb. rewrite st_out, copyBytes_out by lia. done.
Qed.

Lemma copyBackElements_ok dyn traits hi : forall l m p j cur,
  list_at m p l -> separate m l -> Forall is_u64 l -> clear m l traits hi -> dyn + endOffset m cur l <= hi ->
  0 <= j -> traits + 8 * (j + Z.of_nat (length l)) <= hi -> traits <= dyn + cur -> 0 <= cur -> endOffset m cur l < 2 ^ 31 ->
  traitsHold m traits j (offsets m cur l) ->
  exists m', copyBackElements (length l) j m dyn traits p = Ret m' /\ restored m m m' dyn l (offsets m cur l) /\
    (forall b, Forall (fun a => ~ a <= b < a + size m a) l -> m' b = m b).
Proof.
  induction l as [|a l IH]; intros m p j cur Hl Hsep Hw Hc Hhi Hj Hth Hd Hcur He Ht; cbn [length copyBackElements list_at separate offsets endOffset traitsHold] in *.
  { exists m. split; [done|]. split; [constructor|done]. }
  destruct Hl as (-> & Ha & Hk & Hl). destruct (known_size _ _ Hk) as [Hs Ha8]. rewrite Ha8 in *. destruct Hsep as [Hal Hsep].
  inversion Hc as [|?? Hca Hcl]; inversion Hw as [|?? Hwa Hwl]; subst. destruct Ht as [Ho Ht].
  pose proof (endOffset_ge _ _ (cur + size m a) _ Hl) as Hg. destruct (copyBack_ok m a (dyn + cur) ltac:(lia) (list_at_word _ _ _ Hl Hwl)) as (Hn & Hb & Hout).
  rewrite getUnderlyingSize_known by done. unfold getExtensionType. rewrite (proj2 (Z.eqb_neq a 0)) by done. cbn [mbind res_bind].
  unfold extensionOffset, sizeof_NestedPNextTraits. rewrite Ho, s32_small by lia. unfold getNext. rewrite !(proj2 (Z.eqb_neq a 0)) by done.
  fold (copyBack m a (dyn + cur)). set (m1 := copyBack m a (dyn + cur)) in *.
  rewrite Hn.
  assert (Hl1 : Forall (fun b => same m m1 b (size m b)) l).
  { eapply Forall_impl; [exact Hal|]. cbn. intros b Hb' c Hc'. symmetry. apply Hout. lia. }
  pose proof (known_headers _ _ _ _ Hl Hl1) as Hh. destruct (offsets_headers _ _ _ Hh (cur + size m a)) as [Hoff Heq].
  destruct (IH m1 (pNext m a) (j + 1) (cur + size m a)) as (m' & Hr & Hres & Hf); rewrite <- ?Heq, <- ?Hoff; try lia; try done.
  { by eapply list_at_headers. }
  { by eapply separate_headers. } { by eapply clear_headers. }
  { eapply traitsHold_same; [|exact Ht]. rewrite offsets_length. intros b Hb'. symmetry. apply Hout. lia. }
  rewrite <- Hoff in Hres. exists m'. split; [exact Hr|]. split.
  - constructor.
    + assert (Hm' : forall b, a <= b < a + size m a -> m' b = m1 b).
      { intros b Hb'. apply Hf. eapply Forall_impl; [exact (List.Forall_and Hal Hh)|]. cbn. intros c [Hc' Hch]. rewrite <- (same_size _ _ _ Hch). lia. }
      split; [|intros i Hi Hni; rewrite Hm' by lia; by apply Hb]. rewrite <- Hn. apply ld_same. intros b Hb'. apply Hm'. lia.
    + eapply restored_source; [exact Hl1|exact Hh| | |exact Hres]; [intros b Hb'; apply Hout; lia|].
      eapply Forall_impl; [exact (list_at_known _ _ _ Hl)|]. by intros b [_ Hb'].
  - intros b Hb'. inversion Hb' as [|?? Hba Hbl]; subst. rewrite Hf; [by apply Hout|].
    eapply Forall_impl; [exact (List.Forall_and Hbl Hh)|]. cbn. intros c [Hc' Hch]. by rewrite <- (same_size _ _ _ Hch).
Qed.

Lemma offsets_range m l : forall p cur, list_at m p l -> Forall (fun o => cur <= o /\ o + 24 <= endOffset m cur l) (offsets m cur l).
Proof.
  induction l as [|a l IH]; intros p cur Hl; cbn [offsets endOffset list_at] in *; [constructor|]. destruct Hl as (_ & _ & Hk & Hl).
  destruct (known_size _ _ Hk) as [Hs Ha8]. rewrite Ha8. pose proof (endOffset_ge _ _ (cur + size m a) _ Hl). constructor; [lia|].
  eapply Forall_impl; [by eapply IH|]. cbn. intros o. lia.
Qed.

(** The structure itself comes back with the caller's link. *)
Definition structReturned (m : Memory) (args cap p : Z) : Memory :=
  st 8 (copyBytes m args m cap sizeof_ze_device_properties_t) (args + 8) p.

Lemma structReturned_ok m args cap p : 0 <= p < 2 ^ 64 -> args + sizeof_ze_device_properties_t <= cap \/ cap + sizeof_ze_device_properties_t <= args ->
  pNext (structReturned m args cap p) args = p /\
  (forall o, 0 <= o < sizeof_ze_device_properties_t -> ~ 8 <= o < 16 -> structReturned m args cap p (args + o) = m (cap + o)) /\
  (forall b, ~ args <= b < args + sizeof_ze_device_properties_t -> structReturned m args cap p b = m b).
Proof.
  unfold sizeof_ze_device_properties_t, structReturned. intros Hp Ha. split; [apply ld8_st; lia|]. split.
  - intros o Ho Hno. rewrite st_out, copyBytes_in by (unfold sizeof_ze_device_properties_t; lia). f_equal. lia.
  - intros b Hb. rewrite st_out, copyBytes_out by (unfold sizeof_ze_device_properties_t; lia). done.
Qed.

(** The number of elements that are copied back is counted in the list that the service's
    structure leads to. *)
Lemma copyToCaller_counts fuel m args cap dyn p l m2 :
  caller m args cap dyn p l -> l <> [] -> (length l < fuel)%nat -> ld 8 m2 (dyn + 8) = p ->
  list_at m2 (pNext m2 cap) (map (Z.add dyn) (offsets m (firstOffset l) l)) ->
  copyToCaller fuel m2 args cap dyn = copyBackElements (length l) 0 (structReturned m2 args cap p) dyn (dyn + 16) p.
Proof.
  intros [Ha Hp Hl Hw Hroom Hmsg Hapart _] Hne Hf Hfirst Hsl. unfold sizeof_ze_device_properties_t in *. pose proof (totalSize_ge m p l Hl) as Hge.
  set (m' := copyBytes m2 args m2 cap 368). assert (Hm' : forall b, ~ args <= b < args + 368 -> m' b = m2 b) by (intros b Hb; apply copyBytes_out; lia).
  assert (Hn' : pNext m' args = pNext m2 cap) by (apply ld_shift; intros o Ho; unfold m'; rewrite copyBytes_in by lia; f_equal; lia).
  assert (Hlen : length (map (Z.add dyn) (offsets m (firstOffset l) l)) = length l) by (rewrite length_map; apply offsets_length).
  assert (Hnz : pNext m2 cap <> 0).
  { destruct l as [|a l]; [done|]. cbn [offsets map list_at] in Hsl. destruct Hsl as (-> & ? & _). done. }
  unfold copyToCaller. rewrite (proj2 (Z.eqb_neq args 0)) by done. unfold sizeof_ze_device_properties_t. fold m'. rewrite Hn', (proj2 (Z.eqb_neq _ 0)) by done.
  assert (Hsl' : list_at m' (pNext m2 cap) (map (Z.add dyn) (offsets m (firstOffset l) l))).
  { eapply list_at_headers; [|exact Hsl]. apply Forall_map. eapply Forall_impl; [eapply offsets_range; exact Hl|]. cbn. intros o [Ho1 Ho2] b Hb.
    symmetry. apply Hm'. unfold totalSize, firstOffset in *. lia. }
  rewrite (countOpaqueList_list _ _ _ _ Hsl'), Hlen by lia. cbn [mbind res_bind]. rewrite u32_id, s32_small, Nat2Z.id by (word_unfold; lia).
  change (u32 (align8 (1 * sizeof_DynamicStructTraits))) with 16. pose proof (list_at_word _ _ _ Hl Hw) as Hpw.
  replace (ld 8 m' (dyn + 8)) with p by (rewrite <- Hfirst; apply ld_same; intros b Hb; symmetry; apply Hm'; lia).
  unfold structReturned, sizeof_ze_device_properties_t. fold m'. replace (pNext (st 8 m' (args + 8) p) args) with p; [done|]. symmetry. apply ld8_st. lia.
Qed.

Lemma copyToCaller_list fuel m args cap dyn p l m2 :
  caller m args cap dyn p l -> l <> [] -> separate m l -> clear m l args (args + sizeof_ze_device_properties_t) -> (length l < fuel)%nat ->
  (forall b, ~ cap <= b < dyn + totalSize m l -> m2 b = m b) ->
  ld 8 m2 (dyn + 8) = p -> traitsHold m2 (dyn + 16) 0 (offsets m (firstOffset l) l) -> list_at m2 (pNext m2 cap) (map (Z.add dyn) (offsets m (firstOffset l) l)) ->
  exists m3, copyToCaller fuel m2 args cap dyn = Ret m3 /\ pNext m3 args = p /\
    (forall o, 0 <= o < sizeof_ze_device_properties_t -> ~ 8 <= o < 16 -> m3 (args + o) = m2 (cap + o)) /\
    restored m m2 m3 dyn l (offsets m (firstOffset l) l) /\
    (forall b, ~ args <= b < args + sizeof_ze_device_properties_t -> Forall (fun a => ~ a <= b < a + size m a) l -> m3 b = m2 b).
Proof.
  intros Hcall Hne Hsep Hca Hf Hout Hfirst Htr Hsl. rewrite (copyToCaller_counts fuel m args cap dyn p l m2) by done.
  destruct Hcall as [Ha Hp Hl Hw Hroom Hmsg Hapart Hclear]. unfold sizeof_ze_device_properties_t in *. pose proof (totalSize_ge m p l Hl) as Hge.
  destruct (structReturned_ok m2 args cap p (list_at_word _ _ _ Hl Hw) ltac:(unfold sizeof_ze_device_properties_t; lia)) as (Hpa & Hso & Hma).
  set (ma := structReturned m2 args cap p) in *. unfold sizeof_ze_device_properties_t in *.
  assert (Hel : Forall (fun a => same m ma a (size m a)) l).
  { apply Forall_forall. intros a Hin. unfold clear in *. rewrite Forall_forall in Hca, Hclear. specialize (Hca a Hin). specialize (Hclear a Hin).
    intros b Hb. rewrite Hma, Hout by lia. done. }
  pose proof (known_headers _ _ _ _ Hl Hel) as Hh. destruct (offsets_headers _ _ _ Hh (firstOffset l)) as [Hoff Heq].
  destruct (copyBackElements_ok dyn (dyn + 16) (dyn + totalSize m l) l ma p 0 (firstOffset l)) as (m3 & Hr & Hres & Hfr); rewrite <- ?Heq, <- ?Hoff; try done; unfold firstOffset; try lia.
  { by eapply list_at_headers. } { by eapply separate_headers. } { eapply clear_headers; [exact Hh|]. eapply clear_sub; [| |exact Hclear]; lia. }
  { eapply traitsHold_same; [|exact Htr]. rewrite offsets_length. intros b Hb. symmetry. apply Hma. lia. }
  fold (firstOffset l) in *. rewrite <- Hoff in Hres. exists m3. split; [exact Hr|].
  assert (Hargs : forall b, args <= b < args + 368 -> m3 b = ma b).
  { intros b Hb. apply Hfr. eapply Forall_impl; [exact (List.Forall_and Hca Hh)|]. cbn. intros a [Hac Hah]. rewrite <- (same_size _ _ _ Hah). lia. }
  split; [|split; [|split]].
  - rewrite <- Hpa. apply ld_same. intros b Hb. apply Hargs. lia.
  - intros o Ho Hno. rewrite Hargs by lia. by apply Hso.
  - eapply restored_source; [exact Hel|exact Hh| | |exact Hres].
    + intros b Hb. apply Hma. unfold totalSize, firstOffset in *. lia.
    + eapply Forall_impl; [exact (list_at_known _ _ _ Hl)|]. by intros b [_ Hb].
  - intros b H1 H2. rewrite Hfr; [by apply Hma|]. eapply Forall_impl; [exact (List.Forall_and H2 Hh)|]. cbn. intros a [Hab Hah].
    by rewrite <- (same_size _ _ _ Hah).
Qed.

(** * The theorems *)

Lemma calculate_exact fuel m args cap dyn p l : caller m args cap dyn p l -> (length l < fuel)%nat -> calculate fuel m args = Ret (dynamicSize m l).
Proof.
  intros [Ha Hp Hl Hw Hroom _ _ _] Hf. unfold calculate, dynamicSize. rewrite (proj2 (Z.eqb_neq args 0)), Hp by done.
  change (u32 (align8 (1 * sizeof_DynamicStructTraits))) with 16. destruct l as [|a k].
  { cbn [list_at] in Hl. subst p. rewrite Hl. by rewrite decide_True. }
  rewrite decide_False by done. pose proof (totalSize_ge _ _ _ Hl) as Hge. assert (Hp0 : p <> 0) by (destruct Hl as (-> & ? & _); done).
  rewrite (proj2 (Z.eqb_neq p 0)) by done. rewrite (countOpaqueList_list _ _ _ _ Hl) by done. cbn [mbind res_bind].
  rewrite (u32_id (Z.of_nat _)) by (word_unfold; lia). rewrite (proj2 (Z.eqb_neq _ 0)) by (cbn [length]; lia). rewrite Nat2Z.id.
  unfold sizeof_NestedPNextTraits. rewrite (Z.mul_comm (Z.of_nat _) 8), align8_mult by lia. rewrite u32_id by (word_unfold; lia).
  fold (firstOffset (a :: k)). apply addSizes_list; [done|unfold firstOffset; lia|exact Hroom].
Qed.

(** C31: for every structure with a list of known extensions, the size that is computed for the
    message is the size of what is copied, and the copy from the caller writes nothing outside
    the captured structure and that many bytes of dynamic memory; the message then holds the
    structure, the traits and every element in full. *)
Theorem copyFromCaller_fits_message fuel m args cap dyn p l :
  caller m args cap dyn p l -> (length l < fuel)%nat ->
  calculate fuel m args = Ret (dynamicSize m l) /\
  exists m', copyFromCaller fuel m args cap dyn = Ret m' /\
    (forall b, ~ cap <= b < cap + sizeof_ze_device_properties_t -> ~ dyn <= b < dyn + dynamicSize m l -> m' b = m b) /\
    (l = [] -> ld 4 m' dyn = u32 (-1)) /\ (l <> [] -> carries m args cap dyn p l m').
Proof.
  intros Hc Hf. split; [by eapply calculate_exact|]. unfold dynamicSize. destruct (decide (l = [])) as [->|Hne].
  - assert (Hpn : pNext (captured m args cap) args = p).
    { eapply args_pNext; [exact Hc|]. intros b Hb. apply copyBytes_out. pose proof (caller_message _ _ _ _ _ _ Hc). lia. }
    destruct Hc as [Ha Hp Hl _ _ Hmsg _ _]. cbn [list_at] in Hl. unfold copyFromCaller. rewrite (proj2 (Z.eqb_neq args 0)) by done.
    fold (captured m args cap). rewrite Hpn, Hl. eexists. split; [done|]. split; [|split; [|done]].
    + intros b H1 H2. unfold noList. rewrite !st_out by lia. by apply copyBytes_out.
    + intros _. unfold noList. set (x := st 4 _ dyn _). transitivity (ld 4 x dyn); [apply ld_same, st_same; lia|apply ld4_st; done].
  - destruct (copyFromCaller_list m args cap dyn p l Hc fuel Hne Hf) as (m' & Hr & Hcar & Hs). exists m'. done.
Qed.

(** the service, which maps the message at addresses of its own, gets the caller's list back: the
    reassembly passes its assertion, the structure leads to the copies of all elements in
    their order, up to the null pointer, and all but the links is as the caller wrote it.
    Only the link of the structure and the elements are written. *)
Theorem service_sees_the_list fuel m args cap dyn p l m1 s scap sdyn :
  caller m args cap dyn p l -> l <> [] -> (length l < fuel)%nat -> copyFromCaller fuel m args cap dyn = Ret m1 ->
  mapped sizeof_ze_device_properties_t m1 cap s scap -> mapped (totalSize m l) m1 dyn s sdyn ->
  0 <= scap -> scap + sizeof_ze_device_properties_t <= sdyn -> sdyn + totalSize m l < 2 ^ 64 ->
  exists s', reassembleNestedStructs s scap sdyn 1 = Ret s' /\ reassembled m args scap sdyn l s' /\
    (forall b, ~ scap + 8 <= b < scap + 16 -> ~ sdyn + firstOffset l <= b < sdyn + totalSize m l -> s' b = s b).
Proof.
  intros Hc Hne Hf Hm1 Hcap Hdyn H0 H1 H2. destruct (copyFromCaller_list m args cap dyn p l Hc fuel Hne Hf) as (m' & Hr & Hcar & _).
  rewrite Hm1 in Hr. injection Hr as <-. destruct Hc as [_ _ Hl _ Hroom _ _ _].
  eapply reassemble_carries; try done. by eapply carries_mapped.
Qed.

(** What the driver leaves as it is in the message: the links and types of the structures, and
    the traits. *)
Record answered (cap dyn : Z) (l offs : list Z) (s s2 : Memory) : Prop := {
  answered_link : same s s2 (cap + 8) 8;
  answered_traits : same s s2 dyn (firstOffset l);
  answered_headers : Forall (fun o => same s s2 (dyn + o) 16) offs
}.

(** C32: with the message at the same address in both processes, a call brings the answers home: the
    caller's structure has its own list again, with every other byte as the service left it,
    every element of the list has its link and the service's bytes, the read-only ones their
    own, and nothing else of the caller's memory is written by the copy back. *)
Theorem list_comes_back fuel m args cap dyn p l m1 s :
  caller m args cap dyn p l -> l <> [] -> separate m l -> clear m l args (args + sizeof_ze_device_properties_t) -> (length l < fuel)%nat ->
  0 <= cap -> dyn + totalSize m l < 2 ^ 64 -> copyFromCaller fuel m args cap dyn = Ret m1 -> (forall b, cap <= b < dyn + totalSize m l -> s b = m1 b) ->
  exists s1, reassembleNestedStructs s cap dyn 1 = Ret s1 /\
    forall s2 m2, answered cap dyn l (offsets m (firstOffset l) l) s1 s2 ->
      (forall b, m2 b = if (cap <=? b) && (b <? dyn + totalSize m l) then s2 b else m1 b) ->
      exists m3, copyToCaller fuel m2 args cap dyn = Ret m3 /\ pNext m3 args = p /\
        (forall o, 0 <= o < sizeof_ze_device_properties_t -> ~ 8 <= o < 16 -> m3 (args + o) = s2 (cap + o)) /\
        restored m s2 m3 dyn l (offsets m (firstOffset l) l) /\
        (forall b, ~ args <= b < args + sizeof_ze_device_properties_t -> Forall (fun a => ~ a <= b < a + size m a) l -> m3 b = m2 b).
Proof.
  intros Hc Hne Hsep Hca Hf H0 Hw Hm1 Hs. pose proof Hc as [_ _ Hl _ Hroom Hmsg _ _]. pose proof (totalSize_ge _ _ _ Hl) as Hge.
  destruct (copyFromCaller_list m args cap dyn p l Hc fuel Hne Hf) as (m' & Hr & Hcar & Hout). rewrite Hm1 in Hr. injection Hr as <-.
  unfold sizeof_ze_device_properties_t in *. assert (Hcs : carries m args cap dyn p l s).
  { eapply carries_mapped; [exact Hl|exact Hcar| |]; intros o Ho; apply Hs; unfold sizeof_ze_device_properties_t in *; lia. }
  destruct (reassemble_carries m args p l s cap dyn Hl Hne Hroom H0 Hmsg Hw Hcs) as (s1 & Hr1 & [_ Hlist _] & Hfr).
  exists s1. split; [exact Hr1|]. intros s2 m2 [Hlink Htraits Hheads] Hm2.
  assert (Hin : forall b, cap <= b < dyn + totalSize m l -> m2 b = s2 b).
  { intros b Hb. rewrite Hm2, (proj2 (Z.leb_le _ _)), (proj2 (Z.ltb_lt _ _)) by lia. done. }
  assert (Hmout : forall b, ~ cap <= b < dyn + totalSize m l -> m2 b = m1 b).
  { intros b Hb. rewrite Hm2. destruct (Z.leb_spec cap b), (Z.ltb_spec b (dyn + totalSize m l)); cbn; try done; lia. }
  assert (Hfo : firstOffset l <= totalSize m l) by (unfold totalSize, firstOffset in *; pose proof (endOffset_ge _ _ (16 + 8 * Z.of_nat (length l)) _ Hl); lia).
  assert (Htr : forall b, dyn <= b < dyn + firstOffset l -> m2 b = s b).
  { intros b Hb. rewrite Hin, <- Htraits, Hfr by lia. done. }
  destruct (copyToCaller_list fuel m args cap dyn p l m2 Hc Hne Hsep Hca Hf) as (m3 & Hr3 & Hp3 & Hst3 & Hre3 & Hf3).
  { intros b Hb. rewrite Hmout by done. apply Hout; lia. }
  { rewrite <- (carries_first _ _ _ _ _ _ _ Hcs). apply ld_same. intros b Hb. apply Htr. unfold firstOffset. lia. }
  { eapply traitsHold_same; [|eapply placed_traits, carries_list, Hcs]. rewrite offsets_length. intros b Hb. symmetry. apply Htr. unfold firstOffset. lia. }
  { assert (Hp2 : pNext m2 cap = pNext s1 cap) by (apply ld_same; intros b Hb; rewrite Hin, Hlink by lia; done). rewrite Hp2.
    eapply list_at_headers; [|exact Hlist]. apply Forall_map.
    eapply Forall_impl; [exact (List.Forall_and Hheads (offsets_range _ _ _ (firstOffset l) Hl))|]. cbn. intros o [Ho [Ho1 Ho2]] b Hb.
    unfold totalSize in Hin. rewrite Hin by (unfold firstOffset in *; lia). by apply Ho. }
  exists m3. split; [exact Hr3|]. split; [exact Hp3|]. split; [intros o Ho Hno; rewrite Hst3, Hin by (done || unfold sizeof_ze_device_properties_t in *; lia); done|].
  split; [|exact Hf3]. eapply restored_source; [| | | |exact Hre3].
  - apply Forall_forall. done.
  - apply Forall_forall. done.
  - intros b Hb. apply Hin. unfold totalSize, firstOffset in *. lia.
  - eapply Forall_impl; [exact (list_at_known _ _ _ Hl)|]. by intros b [_ Hb].
Qed.

(** * A caller with two extensions

    A preferred group size, and a scheduling hint that is read-only for the service; the
    message lies at 0x8000. *)
Definition callerMem : Memory :=
  let m := st 4 (st 8 (fun _ => 0) 0x1008 0x2000) 0x1000 0x3 in
  let m := st 4 (st 8 m 0x2008 0x3000) 0x2000 0x21 in
  st 4 m 0x3000 0x20008.

Definition callerList : list Z := [0x2000; 0x3000].

Lemma callerMem_caller : caller callerMem 0x1000 0x8000 0x8180 0x2000 callerList.
Proof.
  split.
  - done.
  - by vm_compute.
  - cbn [list_at callerList]. replace (pNext callerMem 0x2000) with 0x3000 by reflexivity. replace (pNext callerMem 0x3000) with 0 by reflexivity.
    repeat (split; [done || (eexists; reflexivity)|]). done.
  - by repeat constructor.
  - by vm_compute.
  - by vm_compute.
  - left. by vm_compute.
  - constructor; [left; by vm_compute|constructor; [left; by vm_compute|constructor]].
Qed.

Lemma copyFromCaller_fits_message_witness :
  calculate 3 callerMem 0x1000 = Ret 80 /\ exists m', copyFromCaller 3 callerMem 0x1000 0x8000 0x8180 = Ret m' /\ ld 4 m' 0x8184 = 2.
Proof.
  destruct (copyFromCaller_fits_message 3 _ _ _ _ _ _ callerMem_caller ltac:(cbn; lia)) as (Hc & m' & Hr & _ & _ & Hcar).
  split; [exact Hc|]. exists m'. split; [exact Hr|]. exact (carries_count _ _ _ _ _ _ _ (Hcar ltac:(done))).
Defined.

(** A service that maps the message 1 MiB higher follows the links to its own copies. *)
Lemma service_sees_the_list_witness :
  exists m1 s', copyFromCaller 3 callerMem 0x1000 0x8000 0x8180 = Ret m1 /\
    reassembleNestedStructs (fun b => m1 (b - 0x100000)) 0x108000 0x108180 1 = Ret s' /\ list_at s' (pNext s' 0x108000) [0x1081a0; 0x1081b8].
Proof.
  destruct (copyFromCaller_list callerMem 0x1000 0x8000 0x8180 0x2000 callerList callerMem_caller 3 ltac:(done) ltac:(cbn; lia)) as (m1 & Hr & _).
  exists m1. destruct (service_sees_the_list 3 callerMem 0x1000 0x8000 0x8180 0x2000 callerList m1 (fun b => m1 (b - 0x100000)) 0x108000 0x108180)
    as (s' & Hs & [_ Hl _] & _); [apply callerMem_caller|done|cbn; lia|exact Hr| | |lia|by vm_compute|by vm_compute|].
  - intros o _. f_equal. lia.
  - intros o _. f_equal. lia.
  - exists s'. split; [exact Hr|]. split; [exact Hs|exact Hl].
Defined.

(** The service answers 7 in the byte at 100; the caller finds it in its own structure. *)
Lemma list_comes_back_witness :
  exists m1 s1 m3, copyFromCaller 3 callerMem 0x1000 0x8000 0x8180 = Ret m1 /\ reassembleNestedStructs m1 0x8000 0x8180 1 = Ret s1 /\
    copyToCaller 3 (fun b => if (0x8000 <=? b) && (b <? 0x8180 + totalSize callerMem callerList) then st 1 s1 0x8064 7 b else m1 b) 0x1000 0x8000 0x8180 = Ret m3 /\
    pNext m3 0x1000 = 0x2000 /\ m3 0x1064 = 7.
Proof.
  destruct (copyFromCaller_list callerMem 0x1000 0x8000 0x8180 0x2000 callerList callerMem_caller 3 ltac:(done) ltac:(cbn; lia)) as (m1 & Hr & _).
  destruct (list_comes_back 3 callerMem 0x1000 0x8000 0x8180 0x2000 callerList m1 m1) as (s1 & Hs & Hback);
    [apply callerMem_caller|discriminate| | |cbn; lia|lia|by vm_compute|exact Hr|reflexivity|].
  - split; [|split; constructor]. constructor; [left; by vm_compute|constructor].
  - constructor; [right; by vm_compute|constructor; [right; by vm_compute|constructor]].
  - assert (Hans : answered 0x8000 0x8180 callerList (offsets callerMem (firstOffset callerList) callerList) s1 (st 1 s1 0x8064 7)).
    { replace (offsets callerMem (firstOffset callerList) callerList) with [32; 56] by (by vm_compute).
      split; [| |repeat constructor]; intros b Hb; symmetry; apply st_out; lia. }
    destruct (Hback _ _ Hans (fun b => eq_refl)) as (m3 & Hm3 & Hp & Hst & _).
    exists m1, s1, m3. split; [exact Hr|]. split; [exact Hs|]. split; [exact Hm3|]. split; [exact Hp|].
    pose proof (Hst 100 ltac:(split; by vm_compute) ltac:(lia)) as H100. exact H100.
Defined.

(** * Two gaps

    The tail of the extended PCI BAR properties is beyond the size that the code has for them, so
    the service's answer never reaches it. *)
Lemma pci_bar_properties_are_cut m a src :
  stype m a = ZES_STRUCTURE_TYPE_PCI_BAR_PROPERTIES_1_2 ->
  getUnderlyingSize m a = (if a =? 0 then Abort else Ret 32) /\
  forall o, 32 <= o < sizeof_zes_pci_bar_properties_1_2_t -> copyBack m a src (a + o) = m (a + o).
Proof.
  intros Hst. assert (Hk : assoc underlyingSizes (stype m a) = Some 32) by (by rewrite Hst). split; [unfold getUnderlyingSize; by rewrite Hk|].
  intros o Ho. unfold copyBack. rewrite (size_known _ _ _ Hk). destruct (isReadOnly _); cbn [negb]; [done|].
  rewrite st_out, copyBytes_out by lia. done.
Qed.

(** With the message mapped at two addresses, the caller counts the elements along the links of
    the service: where its own memory reads as zeros, one element of two is copied back. *)
Definition twoGroups : Memory := st 4 callerMem 0x3000 0x10013.

Definition separateMappings : res Memory :=
  m1 ← copyFromCaller 3 twoGroups 0x1000 0x8000 0x8180;
  s1 ← reassembleNestedStructs (fun b => m1 (b - 0x100000)) 0x108000 0x108180 1;
  let s2 := st 1 (st 1 s1 0x1081b0 5) 0x1081c8 5 in
  copyToCaller 3 (fun b => if (0x8000 <=? b) && (b <? 0x81d0) then s2 (b + 0x100000) else m1 b) 0x1000 0x8000 0x8180.

Lemma separate_mappings_lose_an_element : (m3 ← separateMappings; Ret (m3 0x2010, m3 0x3010)) ⇓ (5, 0).
Proof. by vm_compute. Qed.
