(* ===== verification/Tracing.v ===== *)
(** The tracing layer of the client (client/icd/level_zero/tracing): tracers that are enabled
    and disabled, the arrays of their callbacks that traced calls read without a lock, and
    the arrays that are retired and freed when no thread points at them any more. *)

From stdpp Require Import relations gmap sets.
From S2P Require Import Prelude.

(** * Data *)

(** A table of callbacks: the callback of each API function, if it has one. *)
Definition Callbacks := gmap Z Z.

Record TracerArrayEntry := mkEntry { corePrologues : Callbacks; coreEpilogues : Callbacks; pUserData : Z }.

Inductive TracingState := disabledState | enabledState | disabledWaitingState.

#[export] Instance TracingState_eq_dec : EqDecision TracingState.
Proof. solve_decision. Defined.

Record APITracer := mkTracer { tracerFunctions : TracerArrayEntry; tracingState : TracingState }.

(** A pointer to an array of callbacks. *)
Inductive Ptr := null | emptyTracerArray | array (a : Z).

#[export] Instance Ptr_eq_dec : EqDecision Ptr.
Proof. solve_decision. Defined.

(** The entries of an array with the tracers that they were copied from. *)
Definition TracerArray := list (nat * TracerArrayEntry).

(** Where a thread is: outside of traced calls, in the loop that publishes its pointer, with
    an agreed pointer whose entries it copies, or with the copies, in the callbacks and
    the call itself. *)
Inductive Pc := Outside | Start | Loaded (x : Ptr) | Stored (x : Ptr) | Holding (x : Ptr) | Calling (x : Ptr) (l : TracerArray).

(** What a thread has on the list: its pointer as others see it, and its relaxed stores to
    it that are not yet visible. *)
Record ThreadPrivateTracerData := mkThread { pc : Pc; storeBuffer : list Ptr; tracerArrayPointer : Ptr }.

(** What is left to do when the retired arrays have been walked. *)
Inductive Job := UpdateJob | DisableJob (tracer : nat) | DestroyJob (tracer : nat).

(** The thread under [traceTableMutex]: between two retired arrays, inside of
    [testForTracerArrayReferences] under [threadTracerDataListMutex], or before a free. *)
Inductive Writer :=
| NoWriter
| Pass (todo : list Z) (j : Job)
| Scan (a : Z) (threads : list nat) (todo : list Z) (j : Job)
| Free (a : Z) (todo : list Z) (j : Job).

Record State := mkState {
  tracers : gmap nat APITracer;
  enabledTracerImpList : list nat;
  arrays : gmap Z TracerArray;
  activeTracerArray : Ptr;
  retiringTracerArrayList : list Z;
  threadTracerDataList : gmap nat ThreadPrivateTracerData;
  writer : Writer;
  fault : bool }.

Definition initial : State := mkState ∅ [] ∅ emptyTracerArray [] ∅ NoWriter false.

Definition set_tracers (s : State) x := mkState x (enabledTracerImpList s) (arrays s) (activeTracerArray s) (retiringTracerArrayList s) (threadTracerDataList s) (writer s) (fault s).
Definition set_threads (s : State) x := mkState (tracers s) (enabledTracerImpList s) (arrays s) (activeTracerArray s) (retiringTracerArrayList s) x (writer s) (fault s).
Definition set_writer (s : State) x := mkState (tracers s) (enabledTracerImpList s) (arrays s) (activeTracerArray s) (retiringTracerArrayList s) (threadTracerDataList s) x (fault s).
Definition set_fault (s : State) := mkState (tracers s) (enabledTracerImpList s) (arrays s) (activeTracerArray s) (retiringTracerArrayList s) (threadTracerDataList s) (writer s) true.
Definition set_enabled (s : State) x := mkState (tracers s) x (arrays s) (activeTracerArray s) (retiringTracerArrayList s) (threadTracerDataList s) (writer s) (fault s).

(** The entries of a live array. *)
Definition getArray (s : State) (x : Ptr) : option TracerArray :=
  match x with null => None | emptyTracerArray => Some [] | array a => arrays s !! a end.

(** * Traced calls *)

Definition setPc (th : ThreadPrivateTracerData) (p : Pc) : ThreadPrivateTracerData := mkThread p (storeBuffer th) (tracerArrayPointer th).

(** One access of [getActiveTracersList]. The pointer is stored with relaxed order, so that
    it may be visible to others later than the second load: [fence] says that it is not. *)
Definition loadActive (active : Ptr) (th : ThreadPrivateTracerData) : option ThreadPrivateTracerData :=
  match pc th with Start => Some (setPc th (Loaded active)) | _ => None end.

Definition storePointer (th : ThreadPrivateTracerData) : option ThreadPrivateTracerData :=
  match pc th with Loaded x => Some (mkThread (Stored x) (storeBuffer th ++ [x]) (tracerArrayPointer th)) | _ => None end.

Definition reloadActive (fence : bool) (active : Ptr) (th : ThreadPrivateTracerData) : option ThreadPrivateTracerData :=
  match pc th with
  | Stored x =>
      if fence && negb (bool_decide (storeBuffer th = [])) then None
      else Some (setPc th (if bool_decide (x = active) then Holding x else Start))
  | _ => None
  end.

(** A buffered store becomes visible. *)
Definition flushStore (th : ThreadPrivateTracerData) : option ThreadPrivateTracerData :=
  match storeBuffer th with x :: b => Some (mkThread (pc th) b x) | [] => None end.

Definition enter (th : ThreadPrivateTracerData) : option ThreadPrivateTracerData :=
  match pc th with Outside => Some (setPc th Start) | _ => None end.

(** The entries are copied; an array that is freed already is a fault. *)
Definition readEntries (s : State) (t : nat) : option State :=
  th ← threadTracerDataList s !! t;
  match pc th with
  | Holding x =>
      match getArray s x with
      | Some l => Some (set_threads s (<[t := setPc th (Calling x l)]> (threadTracerDataList s)))
      | None => Some (set_fault s)
      end
  | _ => None
  end.

Definition releaseActivetracersList (th : ThreadPrivateTracerData) : option ThreadPrivateTracerData :=
  match pc th with Calling _ _ => Some (mkThread Outside (storeBuffer th ++ [null]) (tracerArrayPointer th)) | _ => None end.

Definition onThread (s : State) (t : nat) (f : ThreadPrivateTracerData -> option ThreadPrivateTracerData) : option State :=
  th ← threadTracerDataList s !! t; th' ← f th; Some (set_threads s (<[t := th']> (threadTracerDataList s))).

(** [threadTracerDataListMutex] is held while one array is looked for. *)
Definition listLocked (w : Writer) : bool := match w with Scan _ _ _ _ => true | _ => false end.

(** The first traced call of a thread, and its end. *)
Definition addThreadTracerDataToList (s : State) (t : nat) : option State :=
  match threadTracerDataList s !! t with
  | Some _ => None
  | None => if listLocked (writer s) then None else Some (set_threads s (<[t := mkThread Start [] null]> (threadTracerDataList s)))
  end.

Definition removeThreadTracerDataFromList (s : State) (t : nat) : option State :=
  th ← threadTracerDataList s !! t;
  match pc th, storeBuffer th with
  | Outside, [] => if listLocked (writer s) then None else Some (set_threads s (delete t (threadTracerDataList s)))
  | _, _ => None
  end.

(** ** The callbacks around a call

    The copies of the entries for the API function [f]: the callback, if there is one, and
    the user data.  Each tracer has a slot for data between its two callbacks. *)
Inductive Event := Prologue (callback userData : Z) (slot : nat) | Api | Epilogue (callback userData : Z) (slot : nat).

Definition callbackStates (table : TracerArrayEntry -> Callbacks) (f : Z) (l : TracerArray) : list (option Z * Z) :=
  map (fun e => (table e.2 !! f, pUserData e.2)) l.

Fixpoint callbacks (mk : Z -> Z -> nat -> Event) (i : nat) (l : list (option Z * Z)) : list Event :=
  match l with
  | [] => []
  | (Some c, u) :: l => mk c u i :: callbacks mk (S i) l
  | (None, _) :: l => callbacks mk (S i) l
  end.

Definition apiTracerWrapperImp (f : Z) (l : TracerArray) : list Event :=
  callbacks Prologue 0 (callbackStates corePrologues f l) ++ Api :: callbacks Epilogue 0 (callbackStates coreEpilogues f l).

(** * Tracers *)

Definition ZE_RESULT_SUCCESS : Z := 0.
Definition ZE_RESULT_ERROR_INVALID_ARGUMENT : Z := 0x78000004.
Definition ZE_RESULT_ERROR_HANDLE_OBJECT_IN_USE : Z := 0x7800000f.

Definition createAPITracer (userData : Z) : APITracer := mkTracer (mkEntry ∅ ∅ userData) disabledState.

Definition setPrologues (cbs : Callbacks) (t : APITracer) : Z * APITracer :=
  match tracingState t with
  | disabledState => (ZE_RESULT_SUCCESS, mkTracer (mkEntry cbs (coreEpilogues (tracerFunctions t)) (pUserData (tracerFunctions t))) disabledState)
  | _ => (ZE_RESULT_ERROR_INVALID_ARGUMENT, t)
  end.

Definition setEpilogues (cbs : Callbacks) (t : APITracer) : Z * APITracer :=
  match tracingState t with
  | disabledState => (ZE_RESULT_SUCCESS, mkTracer (mkEntry (corePrologues (tracerFunctions t)) cbs (pUserData (tracerFunctions t))) disabledState)
  | _ => (ZE_RESULT_ERROR_INVALID_ARGUMENT, t)
  end.

Definition setState (s : State) (t : nat) (st : TracingState) : State :=
  set_tracers s (alter (fun tr => mkTracer (tracerFunctions tr) st) t (tracers s)).

(** The entries of the enabled tracers, in the order of the list. *)
Definition entries (ts : gmap nat APITracer) (l : list nat) : TracerArray :=
  omap (fun t => tr ← ts !! t; Some (t, tracerFunctions tr)) l.

#[local] Arguments entries : simpl never.

(** [updateTracerArrays] up to the store of the new array at [fresh]; the walk over the retired arrays follows. *)
Definition updateTracerArrays (fresh : Z) (j : Job) (s : State) : State :=
  let newTracerArrayCount := length (enabledTracerImpList s) in
  let newTracerArray := if bool_decide (newTracerArrayCount = 0%nat) then emptyTracerArray else array fresh in
  let arrays' :=
    if bool_decide (newTracerArrayCount = 0%nat) then arrays s else <[fresh := entries (tracers s) (enabledTracerImpList s)]> (arrays s) in
  let retiring :=
    match activeTracerArray s with array a => retiringTracerArrayList s ++ [a] | _ => retiringTracerArrayList s end in
  mkState (tracers s) (enabledTracerImpList s) arrays' newTracerArray retiring (threadTracerDataList s) (Pass retiring j) (fault s).

(** [enableTracingImp], up to the walk. *)
Definition enableTracingImp (fresh : Z) (t : nat) (tr : APITracer) (enable : bool) (s : State) : Z * State :=
  match tracingState tr with
  | disabledState =>
      (ZE_RESULT_SUCCESS,
       if enable then updateTracerArrays fresh UpdateJob (set_enabled (setState s t enabledState) (enabledTracerImpList s ++ [t])) else s)
  | enabledState =>
      (ZE_RESULT_SUCCESS,
       if enable then s
       else updateTracerArrays fresh (DisableJob t) (set_enabled (setState s t disabledWaitingState) (List.filter (fun x => negb (Nat.eqb x t)) (enabledTracerImpList s))))
  | disabledWaitingState => (ZE_RESULT_ERROR_HANDLE_OBJECT_IN_USE, s)
  end.

(** [destroyTracer]: [finalizeDisableImpTracingWait], and the deletion when it succeeds. *)
Definition destroyTracer (t : nat) (tr : APITracer) (s : State) : Z * State :=
  match tracingState tr with
  | disabledState => (ZE_RESULT_SUCCESS, set_tracers s (delete t (tracers s)))
  | enabledState => (ZE_RESULT_ERROR_HANDLE_OBJECT_IN_USE, s)
  | disabledWaitingState => (ZE_RESULT_SUCCESS, set_writer s (Pass (retiringTracerArrayList s) (DestroyJob t)))
  end.

(** ** The walk over the retired arrays *)

(** The next array is looked for in the list of threads, [order] being the list's order. *)
Definition nextRetired (order : list nat) (s : State) : option State :=
  match writer s with
  | Pass (a :: todo) j =>
      if bool_decide (order ≡ₚ elements (dom (threadTracerDataList s))) then Some (set_writer s (Scan a order todo j)) else None
  | _ => None
  end.

Definition testForTracerArrayReferences (s : State) : option State :=
  match writer s with
  | Scan a (t :: ts) todo j =>
      th ← threadTracerDataList s !! t;
      Some (set_writer s (if bool_decide (tracerArrayPointer th = array a) then Pass todo j else Scan a ts todo j))
  | Scan a [] todo j => Some (set_writer s (Free a todo j))
  | _ => None
  end.

Definition freeRetired (s : State) : option State :=
  match writer s with
  | Free a todo j =>
      Some (mkState (tracers s) (enabledTracerImpList s) (delete a (arrays s)) (activeTracerArray s)
              (List.filter (fun x => negb (x =? a)) (retiringTracerArrayList s)) (threadTracerDataList s) (Pass todo j) (fault s))
  | _ => None
  end.

(** The end of the walk: what it was for. *)
Definition walked (s : State) : option State :=
  match writer s with
  | Pass [] j =>
      let empty := bool_decide (retiringTracerArrayList s = []) in
      Some match j with
           | UpdateJob => set_writer s NoWriter
           | DisableJob t => set_writer (if empty then setState s t disabledState else s) NoWriter
           | DestroyJob t => if empty then set_writer (set_tracers s (delete t (tracers s))) NoWriter else set_writer s (Pass (retiringTracerArrayList s) j)
           end
  | _ => None
  end.

(** * Executions *)

Inductive Action :=
| AddThread (t : nat) | Enter (t : nat) | Load (t : nat) | Store (t : nat) | Reload (t : nat) | Flush (t : nat)
| ReadEntries (t : nat) | Release (t : nat) | RemoveThread (t : nat)
| Create (t : nat) (userData : Z) | SetPrologues (t : nat) (cbs : Callbacks) | SetEpilogues (t : nat) (cbs : Callbacks)
| Enable (t : nat) (enable : bool) (fresh : Z) | Destroy (t : nat)
| NextRetired (order : list nat) | Test | FreeRetired | Walked.

(** The lock of the writers. *)
Definition locked (s : State) : bool := match writer s with NoWriter => false | _ => true end.

Definition exec (fence : bool) (a : Action) (s : State) : option State :=
  match a with
  | AddThread t => addThreadTracerDataToList s t
  | Enter t => onThread s t enter
  | Load t => onThread s t (loadActive (activeTracerArray s))
  | Store t => onThread s t storePointer
  | Reload t => onThread s t (reloadActive fence (activeTracerArray s))
  | Flush t => onThread s t flushStore
  | ReadEntries t => readEntries s t
  | Release t => onThread s t releaseActivetracersList
  | RemoveThread t => removeThreadTracerDataFromList s t
  | Create t u => if bool_decide (tracers s !! t = None) then Some (set_tracers s (<[t := createAPITracer u]> (tracers s))) else None
  | SetPrologues t cbs => tr ← tracers s !! t; Some (set_tracers s (<[t := (setPrologues cbs tr).2]> (tracers s)))
  | SetEpilogues t cbs => tr ← tracers s !! t; Some (set_tracers s (<[t := (setEpilogues cbs tr).2]> (tracers s)))
  | Enable t e fresh =>
      tr ← tracers s !! t;
      if locked s || negb (bool_decide (arrays s !! fresh = None)) then None else Some (enableTracingImp fresh t tr e s).2
  | Destroy t => tr ← tracers s !! t; if locked s then None else Some (destroyTracer t tr s).2
  | NextRetired order => nextRetired order s
  | Test => testForTracerArrayReferences s
  | FreeRetired => freeRetired s
  | Walked => walked s
  end.

Definition step (fence : bool) (s s' : State) : Prop := exists a, exec fence a s = Some s'.

Definition run (fence : bool) : list Action -> State -> option State :=
  foldr (fun a k s => s' ← exec fence a s; k s') Some.

(** * The invariant *)

Definition stateOf (s : State) (t : nat) : option TracingState := tracingState <$> tracers s !! t.

(** The array that a thread relies on. *)
Definition uses (th : ThreadPrivateTracerData) (a : Z) : Prop :=
  match pc th with Holding x | Calling x _ => x = array a | _ => False end.

(** Where the fence has been, the pointer is visible. *)
Definition thread_ok (s : State) (th : ThreadPrivateTracerData) : Prop :=
  match pc th with
  | Stored x => last (tracerArrayPointer th :: storeBuffer th) = Some x
  | Holding x => storeBuffer th = [] /\ tracerArrayPointer th = x /\ is_Some (getArray s x)
  | Calling x l => storeBuffer th = [] /\ tracerArrayPointer th = x /\ getArray s x = Some l
  | _ => True
  end.

Definition todo_ok (s : State) (l : list Z) : Prop := NoDup l /\ forall a, a ∈ l -> a ∈ retiringTracerArrayList s.

Definition job_ok (s : State) (j : Job) : Prop :=
  match j with UpdateJob => True | DisableJob t | DestroyJob t => stateOf s t = Some disabledWaitingState end.

(** The threads that have been looked at do not use the array that is about to be freed. *)
Definition writer_ok (s : State) : Prop :=
  match writer s with
  | NoWriter => True
  | Pass todo j => todo_ok s todo /\ job_ok s j
  | Scan a rest todo j => todo_ok s (a :: todo) /\ job_ok s j /\ forall t th, threadTracerDataList s !! t = Some th -> t ∉ rest -> ~ uses th a
  | Free a todo j => todo_ok s (a :: todo) /\ job_ok s j /\ forall t th, threadTracerDataList s !! t = Some th -> ~ uses th a
  end.

Record Inv (s : State) : Prop := {
  inv_retiring : NoDup (retiringTracerArrayList s);
  inv_active : match activeTracerArray s with null => False | emptyTracerArray => True | array a => a ∉ retiringTracerArrayList s end;
  inv_live : forall a, is_Some (arrays s !! a) <-> a ∈ retiringTracerArrayList s \/ activeTracerArray s = array a;
  inv_snapshot : getArray s (activeTracerArray s) = Some (entries (tracers s) (enabledTracerImpList s));
  inv_enabled : forall t, t ∈ enabledTracerImpList s <-> stateOf s t = Some enabledState;
  inv_owners : forall a l t e, a ∈ retiringTracerArrayList s -> arrays s !! a = Some l -> (t, e) ∈ l ->
    exists st, stateOf s t = Some st /\ st <> disabledState;
  inv_threads : map_Forall (fun _ th => thread_ok s th) (threadTracerDataList s);
  inv_writer : writer_ok s;
  inv_fault : fault s = false }.

Lemma Inv_initial : Inv initial.
Proof.
  split; cbn; try done; try constructor.
  - intros [x Hx]. done.
  - intros [H|H]; [by apply elem_of_nil in H|done].
  - by intros H%elem_of_nil.
  - done.
Qed.

(** ** Steps of a thread *)

Lemma Inv_thread s t th th' : Inv s -> threadTracerDataList s !! t = Some th -> thread_ok s th' ->
  (forall a, uses th' a -> uses th a \/ activeTracerArray s = array a) ->
  Inv (set_threads s (<[t := th']> (threadTracerDataList s))).
Proof.
  intros [H1 H2 H3 H4 H5 H6 H7 H8 H9] Ht Hok Hu. split; try done.
  - intros u thu Hu'. cbn in Hu'. apply lookup_insert_Some in Hu' as [[<- <-]|[_ Hu']]; [exact Hok|]. exact (H7 u thu Hu').
  - unfold writer_ok in *. cbn. destruct (writer s) as [|todo j|a rest todo j|a todo j]; try done.
    + destruct H8 as (Htd & Hj & Hn). split; [done|]. split; [done|]. intros u thu Hl Hnl Huse.
      apply lookup_insert_Some in Hl as [[<- <-]|[_ Hl]]; [|by eapply Hn]. destruct (Hu a Huse) as [Ho|Ha]; [by eapply Hn|].
      rewrite Ha in H2. apply H2, Htd. by left.
    + destruct H8 as (Htd & Hj & Hn). split; [done|]. split; [done|]. intros u thu Hl Huse.
      apply lookup_insert_Some in Hl as [[<- <-]|[_ Hl]]; [|by eapply Hn]. destruct (Hu a Huse) as [Ho|Ha]; [by eapply Hn|].
      rewrite Ha in H2. apply H2, Htd. by left.
Qed.

Lemma onThread_Inv s t f s' : Inv s -> onThread s t f = Some s' ->
  (forall th th', thread_ok s th -> f th = Some th' -> thread_ok s th' /\ forall a, uses th' a -> uses th a \/ activeTracerArray s = array a) -> Inv s'.
Proof.
  intros HI H Hf. unfold onThread in H. destruct (threadTracerDataList s !! t) as [th|] eqn:Ht; [|done]. cbn in H.
  destruct (f th) as [th'|] eqn:Hth; [|done]. cbn in H. injection H as <-.
  destruct (Hf th th' (inv_threads s HI t th Ht) Hth) as [Hok Hu]. by eapply Inv_thread.
Qed.

Lemma loadActive_ok s th th' : loadActive (activeTracerArray s) th = Some th' -> thread_ok s th' /\ forall a, ~ uses th' a.
Proof. unfold loadActive. destruct (pc th); try done. intros [= <-]. by split; [|intros a Ha]. Qed.

Lemma enter_ok s th th' : enter th = Some th' -> thread_ok s th' /\ forall a, ~ uses th' a.
Proof. unfold enter. destruct (pc th); try done. intros [= <-]. by split; [|intros a Ha]. Qed.

Lemma storePointer_ok s th th' : storePointer th = Some th' -> thread_ok s th' /\ forall a, ~ uses th' a.
Proof.
  unfold storePointer. destruct (pc th) as [| |x| | |]; try done. intros [= <-]. split; [|by intros a Ha].
  unfold thread_ok. cbn [pc storeBuffer tracerArrayPointer]. by rewrite app_comm_cons, last_snoc.
Qed.

Lemma release_ok s th th' : releaseActivetracersList th = Some th' -> thread_ok s th' /\ forall a, ~ uses th' a.
Proof. unfold releaseActivetracersList. destruct (pc th); try done. intros [= <-]. by split; [|intros a Ha]. Qed.

Lemma flushStore_ok s th th' : thread_ok s th -> flushStore th = Some th' -> thread_ok s th' /\ forall a, uses th' a -> uses th a.
Proof.
  unfold flushStore, thread_ok, uses. destruct (storeBuffer th) as [|x b] eqn:Hb; [done|]. intros Hok [= <-]. cbn [pc storeBuffer tracerArrayPointer].
  destruct (pc th); try done; try (by destruct Hok).
Qed.

(** With the fence the second load agrees only when the pointer is visible. *)
Lemma reloadActive_ok s th th' : Inv s -> thread_ok s th -> reloadActive true (activeTracerArray s) th = Some th' ->
  thread_ok s th' /\ forall a, uses th' a -> activeTracerArray s = array a.
Proof.
  unfold reloadActive, thread_ok. intros HI Hok. destruct (pc th) as [| | |x| |]; try done. cbn [andb].
  case_bool_decide as Hb; cbn [negb]; [|done]. rewrite Hb in Hok. cbn in Hok. injection Hok as Hp. intros [= <-].
  case_bool_decide as Hx; [|split; [exact I|intros a Ha; destruct Ha]]. cbn. rewrite Hb, Hp. split; [|intros a Ha; by rewrite <- Hx]. split; [done|]. split; [done|].
  rewrite Hx, (inv_snapshot s HI). by eexists.
Qed.

(** What a thread relies on is only the array that it uses. *)
Lemma thread_ok_mono s s' th : (forall x, (pc th = Holding x \/ exists l, pc th = Calling x l) -> is_Some (getArray s x) -> getArray s' x = getArray s x) ->
  thread_ok s th -> thread_ok s' th.
Proof.
  intros H. unfold thread_ok. destruct (pc th) as [| | | |x|x l]; try done.
  - intros (? & ? & Hs). rewrite H; [done|by left|done].
  - intros (? & ? & Hs). rewrite H; [done|right; by eexists|by rewrite Hs].
Qed.

Lemma readEntries_Inv s t s' : Inv s -> readEntries s t = Some s' -> Inv s'.
Proof.
  intros HI H. unfold readEntries in H. destruct (threadTracerDataList s !! t) as [th|] eqn:Ht; [|done]. cbn in H.
  pose proof (inv_threads s HI t th Ht) as Hok. cbn in Hok. unfold thread_ok in Hok. destruct (pc th) as [| | | |x|] eqn:Hpc; try done.
  destruct Hok as (Hb & Hp & [l Hl]). rewrite Hl in H. injection H as <-. eapply Inv_thread; [done|exact Ht|done|].
  intros a Ha. left. unfold uses in *. rewrite Hpc. exact Ha.
Qed.

Lemma Inv_threads s ths : Inv s -> listLocked (writer s) = false -> map_Forall (fun _ th => thread_ok s th) ths ->
  (forall t th, ths !! t = Some th -> threadTracerDataList s !! t = Some th \/ forall a, ~ uses th a) -> Inv (set_threads s ths).
Proof.
  intros [H1 H2 H3 H4 H5 H6 H7 H8 H9] Hl Hok Hu. split; try done. unfold writer_ok in *. cbn. destruct (writer s) as [|todo j|a rest todo j|a todo j]; try done.
  destruct H8 as (Htd & Hj & Hn). split; [done|]. split; [done|]. intros t th Ht Huse. destruct (Hu t th Ht) as [Ho|Hno]; [by eapply Hn|by eapply Hno].
Qed.

Lemma addThread_Inv s t s' : Inv s -> addThreadTracerDataToList s t = Some s' -> Inv s'.
Proof.
  intros HI H. unfold addThreadTracerDataToList in H. destruct (threadTracerDataList s !! t); [done|]. destruct (listLocked (writer s)) eqn:Hl; [done|].
  injection H as <-. apply Inv_threads; try done.
  - apply map_Forall_insert_2; [done|apply (inv_threads s HI)].
  - intros u th Hu. apply lookup_insert_Some in Hu as [[_ <-]|[_ Hu]]; [right; by intros a Ha|by left].
Qed.

Lemma removeThread_Inv s t s' : Inv s -> removeThreadTracerDataFromList s t = Some s' -> Inv s'.
Proof.
  intros HI H. unfold removeThreadTracerDataFromList in H. destruct (threadTracerDataList s !! t) as [th|]; [|done]. cbn in H.
  destruct (pc th); try done. destruct (storeBuffer th); [|done]. destruct (listLocked (writer s)) eqn:Hl; [done|]. injection H as <-.
  apply Inv_threads; try done.
  - apply map_Forall_delete, (inv_threads s HI).
  - intros u thu Hu. apply lookup_delete_Some in Hu as [_ Hu]. by left.
Qed.

(** ** Steps of the tracers *)

Lemma entries_ext ts ts' l : (forall t, t ∈ l -> ts' !! t = ts !! t) -> entries ts' l = entries ts l.
Proof.
  unfold entries. induction l as [|t l IH]; intros H; [done|]. cbn. rewrite (H t) by left. rewrite IH; [done|]. intros u Hu. apply H. by right.
Qed.

Lemma entries_owner ts l t e : (t, e) ∈ entries ts l -> t ∈ l.
Proof.
  unfold entries. intros H. apply list_elem_of_omap in H as (u & Hu & Hx). destruct (ts !! u); [|done]. by injection Hx as -> _.
Qed.

(** Changes that concern no enabled tracer. *)
Lemma Inv_tracers s ts w : Inv s -> (forall t, t ∈ enabledTracerImpList s -> ts !! t = tracers s !! t) ->
  (forall t, tracingState <$> ts !! t = Some enabledState -> stateOf s t = Some enabledState) ->
  (retiringTracerArrayList s = [] \/ forall t st, stateOf s t = Some st -> st <> disabledState -> tracingState <$> ts !! t = Some st) ->
  writer_ok (set_writer (set_tracers s ts) w) -> Inv (set_writer (set_tracers s ts) w).
Proof.
  intros [H1 H2 H3 H4 H5 H6 H7 H8 H9] He Hen Hst Hw. split; try done.
  - cbn. rewrite (entries_ext _ _ _ He). exact H4.
  - intros t. cbn. split.
    + intros Ht. unfold stateOf. cbn. rewrite (He t Ht). by apply H5.
    + intros Ht. apply H5, Hen, Ht.
  - intros a l t e Ha Hl Hin. cbn in Ha, Hl. destruct Hst as [Hnil|Hst]; [rewrite Hnil in Ha; by apply elem_of_nil in Ha|].
    destruct (H6 a l t e Ha Hl Hin) as (st & Hs & Hne). exists st. split; [by apply Hst|done].
Qed.

Lemma Inv_writer s w : Inv s -> writer_ok (set_writer s w) -> Inv (set_writer s w).
Proof. by intros [H1 H2 H3 H4 H5 H6 H7 H8 H9] Hw; split. Qed.

Lemma set_writer_same s ts : set_tracers s ts = set_writer (set_tracers s ts) (writer s).
Proof. done. Qed.

Lemma job_ok_mono s ts j : (forall t st, stateOf s t = Some st -> st <> disabledState -> tracingState <$> ts !! t = Some st) ->
  job_ok s j -> job_ok (set_tracers s ts) j.
Proof. intros H. destruct j as [|t|t]; [done| |]; intros Hj; exact (H t _ Hj ltac:(discriminate)). Qed.

(** Changes that keep the states of all tracers but the disabled ones. *)
Lemma Inv_set_tracers s ts : Inv s -> (forall t, t ∈ enabledTracerImpList s -> ts !! t = tracers s !! t) ->
  (forall t, tracingState <$> ts !! t = Some enabledState -> stateOf s t = Some enabledState) ->
  (forall t st, stateOf s t = Some st -> st <> disabledState -> tracingState <$> ts !! t = Some st) -> Inv (set_tracers s ts).
Proof.
  intros HI He Hen Hst. rewrite set_writer_same. apply Inv_tracers; [done|done|done|by right|].
  pose proof (inv_writer s HI) as Hw. unfold writer_ok in *. cbn. destruct (writer s) as [|todo j|a rest todo j|a todo j]; try done.
  - destruct Hw as (Ht & Hj). split; [done|]. by apply (job_ok_mono s ts j).
  - destruct Hw as (Ht & Hj & Hn). split; [done|]. split; [by apply (job_ok_mono s ts j)|done].
  - destruct Hw as (Ht & Hj & Hn). split; [done|]. split; [by apply (job_ok_mono s ts j)|done].
Qed.

Lemma create_Inv s t u : Inv s -> tracers s !! t = None -> Inv (set_tracers s (<[t := createAPITracer u]> (tracers s))).
Proof.
  intros HI Ht. assert (Hn : stateOf s t = None) by (unfold stateOf; by rewrite Ht). apply Inv_set_tracers; [done| | |].
  - intros v Hv%(inv_enabled s HI). rewrite lookup_insert_ne; [done|]. intros <-. by rewrite Hn in Hv.
  - intros v. destruct (decide (t = v)) as [<-|Hv]; [by rewrite lookup_insert_eq|by rewrite lookup_insert_ne].
  - intros v st. destruct (decide (t = v)) as [<-|Hv]; [by rewrite Hn|by rewrite lookup_insert_ne].
Qed.

(** Callbacks are set only while a tracer is disabled. *)
Lemma setCallbacks_Inv s t tr tr' : Inv s -> tracers s !! t = Some tr -> tracingState tr' = tracingState tr ->
  (tracingState tr <> disabledState -> tr' = tr) -> Inv (set_tracers s (<[t := tr']> (tracers s))).
Proof.
  intros HI Ht Hst Hd. assert (Hs : stateOf s t = Some (tracingState tr)) by (unfold stateOf; by rewrite Ht). apply Inv_set_tracers; [done| | |].
  - intros v Hv%(inv_enabled s HI). destruct (decide (t = v)) as [<-|Hne]; [|by rewrite lookup_insert_ne]. rewrite lookup_insert_eq, Ht.
    rewrite Hd; [done|]. rewrite Hs in Hv. injection Hv as ->. done.
  - intros v. destruct (decide (t = v)) as [<-|Hv]; [rewrite lookup_insert_eq; cbn; by rewrite Hst, Hs|by rewrite lookup_insert_ne].
  - intros v st. destruct (decide (t = v)) as [<-|Hv]; [rewrite lookup_insert_eq; cbn; by rewrite Hst, Hs|by rewrite lookup_insert_ne].
Qed.

Lemma setPrologues_state cbs tr : tracingState (setPrologues cbs tr).2 = tracingState tr /\ (tracingState tr <> disabledState -> (setPrologues cbs tr).2 = tr).
Proof. unfold setPrologues. by destruct (tracingState tr) eqn:E. Qed.

Lemma setEpilogues_state cbs tr : tracingState (setEpilogues cbs tr).2 = tracingState tr /\ (tracingState tr <> disabledState -> (setEpilogues cbs tr).2 = tr).
Proof. unfold setEpilogues. by destruct (tracingState tr) eqn:E. Qed.

(** The swap of the active array. *)
Lemma updateTracerArrays_Inv s ts l fresh j : Inv s -> arrays s !! fresh = None ->
  (forall t, t ∈ l <-> tracingState <$> ts !! t = Some enabledState) ->
  (forall t st, stateOf s t = Some st -> st <> disabledState -> exists st', tracingState <$> ts !! t = Some st' /\ st' <> disabledState) ->
  job_ok (set_tracers s ts) j -> Inv (updateTracerArrays fresh j (set_enabled (set_tracers s ts) l)).
Proof.
  intros [H1 H2 H3 H4 H5 H6 H7 H8 H9] Hf Hl Hst Hj. set (s' := updateTracerArrays fresh j (set_enabled (set_tracers s ts) l)).
  assert (Hret : forall a, a ∈ retiringTracerArrayList s' <-> is_Some (arrays s !! a)).
  { intros a. rewrite H3. unfold s', updateTracerArrays. cbn. destruct (activeTracerArray s) as [| |b]; cbn; [naive_solver..|].
    rewrite elem_of_app, list_elem_of_singleton. naive_solver. }
  assert (Hgf : forall a, is_Some (arrays s !! a) -> a <> fresh) by (intros a [x Hx] ->; by rewrite Hf in Hx).
  assert (Hget : forall a, is_Some (arrays s !! a) -> arrays s' !! a = arrays s !! a).
  { intros a Ha%Hgf. unfold s', updateTracerArrays. cbn. case_bool_decide; [done|]. by rewrite lookup_insert_ne. }
  assert (Hnd : NoDup (retiringTracerArrayList s')).
  { unfold s', updateTracerArrays. cbn. destruct (activeTracerArray s) as [| |b]; [done|done|]. apply NoDup_app. split; [done|].
    split; [|apply NoDup_singleton]. intros x Hx ->%list_elem_of_singleton. by apply H2. }
  assert (Hact : activeTracerArray s' = array fresh /\ arrays s' = <[fresh := entries ts l]> (arrays s) \/ l = [] /\ activeTracerArray s' = emptyTracerArray /\ arrays s' = arrays s).
  { unfold s', updateTracerArrays. cbn. case_bool_decide as Hn; [right|by left]. by apply length_zero_iff_nil in Hn. }
  split; try done.
  - destruct Hact as [[-> _]|(_ & -> & _)]; [|done]. rewrite Hret, Hf. by intros [x Hx].
  - intros a. rewrite Hret. destruct Hact as [[-> ->]|(_ & -> & ->)].
    + rewrite lookup_insert_is_Some. destruct (decide (fresh = a)) as [<-|Hne]; [naive_solver|]. split; [naive_solver|]. intros [Ha|Ha]; [by right|naive_solver].
    + split; [by left|]. by intros [Ha|Ha].
  - change (tracers s') with ts. change (enabledTracerImpList s') with l. destruct Hact as [[-> Ha]|(-> & -> & Ha)]; cbn [getArray]; [|done].
    rewrite Ha. by rewrite lookup_insert_eq.
  - intros a k t e Ha%Hret Hk Hin. rewrite (Hget a Ha) in Hk. apply H3 in Ha as [Ha|Ha].
    + destruct (H6 a k t e Ha Hk Hin) as (st & Hs & Hne). by eapply Hst.
    + rewrite Ha in H4. cbn in H4. rewrite Hk in H4. injection H4 as ->. apply entries_owner, H5 in Hin. by eapply Hst.
  - intros t th Ht. eapply thread_ok_mono; [|exact (H7 t th Ht)]. intros [| |a] _ Hx; [done..|]. by apply Hget.
Qed.

Lemma enableTracingImp_Inv fresh t tr e s : Inv s -> tracers s !! t = Some tr -> arrays s !! fresh = None ->
  Inv (enableTracingImp fresh t tr e s).2.
Proof.
  intros HI Ht Hf. assert (Hs : stateOf s t = Some (tracingState tr)) by (unfold stateOf; by rewrite Ht). unfold enableTracingImp.
  pose proof (inv_enabled s HI) as Hen. destruct (tracingState tr) eqn:Etr; [| |done]; destruct e; cbn [snd]; try done.
  - apply updateTracerArrays_Inv; [done|done| | |done].
    + intros u. rewrite elem_of_app, list_elem_of_singleton, Hen. destruct (decide (u = t)) as [->|Hu].
      * rewrite lookup_alter_eq, Ht. cbn. naive_solver.
      * rewrite lookup_alter_ne by done. unfold stateOf. naive_solver.
    + intros u st Hu Hne. destruct (decide (u = t)) as [->|Hut]; [by rewrite Hs in Hu; injection Hu as <-|]. rewrite lookup_alter_ne by done. by exists st.
  - apply updateTracerArrays_Inv; [done|done| | |].
    + intros u. rewrite list_elem_of_In, filter_In, <- list_elem_of_In, Hen. destruct (decide (u = t)) as [->|Hu].
      * rewrite lookup_alter_eq, Ht, Nat.eqb_refl. cbn. naive_solver.
      * rewrite lookup_alter_ne by done. rewrite (proj2 (Nat.eqb_neq u t)) by done. unfold stateOf. naive_solver.
    + intros u st Hu Hne. destruct (decide (u = t)) as [->|Hut].
      * rewrite lookup_alter_eq, Ht. cbn. by eexists.
      * rewrite lookup_alter_ne by done. by exists st.
    + cbn. unfold stateOf. cbn. by rewrite lookup_alter_eq, Ht.
Qed.

Lemma destroyTracer_Inv t tr s : Inv s -> tracers s !! t = Some tr -> Inv (destroyTracer t tr s).2.
Proof.
  intros HI Ht. assert (Hs : stateOf s t = Some (tracingState tr)) by (unfold stateOf; by rewrite Ht). unfold destroyTracer.
  destruct (tracingState tr) eqn:Etr; cbn [snd]; [|done|].
  - apply Inv_set_tracers; [done| | |].
    + intros u Hu%(inv_enabled s HI). rewrite lookup_delete_ne; [done|]. intros <-. by rewrite Hs in Hu.
    + intros u. destruct (decide (t = u)) as [<-|Hu]; [by rewrite lookup_delete_eq|by rewrite lookup_delete_ne].
    + intros u st Hu Hne. destruct (decide (t = u)) as [<-|Hut]; [by rewrite Hs in Hu; injection Hu as <-|by rewrite lookup_delete_ne].
  - apply Inv_writer; [done|]. split; [|done]. by split; [apply (inv_retiring s HI)|].
Qed.

(** ** Steps of the walk *)

Lemma nextRetired_Inv order s s' : Inv s -> nextRetired order s = Some s' -> Inv s'.
Proof.
  intros HI H. unfold nextRetired in H. pose proof (inv_writer s HI) as Hw. unfold writer_ok in Hw.
  destruct (writer s) as [|[|a todo] j| |] eqn:E; try done. case_bool_decide as Hp; [|done]. injection H as <-.
  apply Inv_writer; [done|]. destruct Hw as [Htd Hj]. split; [done|]. split; [done|]. intros t th Ht Hn. exfalso. apply Hn.
  rewrite Hp. apply elem_of_elements, elem_of_dom. by eexists.
Qed.

Lemma todo_ok_tail s a todo : todo_ok s (a :: todo) -> todo_ok s todo.
Proof. intros [Hn Ht]. inversion Hn; subst. split; [done|]. intros b Hb. apply Ht. by right. Qed.

(** A thread that uses the array points at it. *)
Lemma uses_pointer s th a : thread_ok s th -> uses th a -> tracerArrayPointer th = array a.
Proof. unfold thread_ok, uses. destruct (pc th); try done; intros (_ & -> & _) ->; done. Qed.

Lemma test_Inv s s' : Inv s -> testForTracerArrayReferences s = Some s' -> Inv s'.
Proof.
  intros HI H. unfold testForTracerArrayReferences in H. pose proof (inv_writer s HI) as Hw. unfold writer_ok in Hw.
  destruct (writer s) as [| |a [|t ts] todo j|] eqn:E; try done; destruct Hw as (Htd & Hj & Hn).
  - injection H as <-. apply Inv_writer; [done|]. split; [done|]. split; [done|]. intros t th Ht. eapply Hn; [exact Ht|by intros Hx%elem_of_nil].
  - destruct (threadTracerDataList s !! t) as [th|] eqn:Ht; [|done]. cbn in H. injection H as <-. apply Inv_writer; [done|].
    case_bool_decide as Hp; unfold writer_ok; cbn [writer set_writer].
    + split; [by eapply todo_ok_tail|done].
    + split; [done|]. split; [done|]. intros u thu Hu Hnu Huse. cbn [threadTracerDataList] in Hu. destruct (decide (u = t)) as [->|Hne].
      * assert (thu = th) as -> by (change (threadTracerDataList s !! t = Some thu) in Hu; congruence). apply Hp. eapply uses_pointer; [|exact Huse]. exact (inv_threads s HI t th Ht).
      * eapply Hn; [exact Hu| |exact Huse]. intros [->|Hin]%elem_of_cons; done.
Qed.

Lemma freeRetired_Inv s s' : Inv s -> freeRetired s = Some s' -> Inv s'.
Proof.
  intros HI H. unfold freeRetired in H. pose proof (inv_writer s HI) as Hw. unfold writer_ok in Hw.
  destruct (writer s) as [| | |a todo j] eqn:E; try done. destruct Hw as ([Hnd Hsub] & Hj & Hno). injection H as <-.
  destruct HI as [H1 H2 H3 H4 H5 H6 H7 _ H9]. set (s' := mkState _ _ _ _ _ _ _ _).
  assert (Har : a ∈ retiringTracerArrayList s) by (apply Hsub; by left).
  assert (Hret : forall b, b ∈ retiringTracerArrayList s' <-> b ∈ retiringTracerArrayList s /\ b <> a).
  { intros b. unfold s'. cbn. rewrite list_elem_of_In, filter_In, <- list_elem_of_In. destruct (Z.eqb_spec b a); naive_solver. }
  assert (Hne : activeTracerArray s <> array a) by (intros Ha; by rewrite Ha in H2).
  split; try done.
  - apply NoDup_ListNoDup, List.NoDup_filter. by apply NoDup_ListNoDup.
  - cbn. destruct (activeTracerArray s) as [| |b]; [done|done|]. intros [Hb _]%Hret. done.
  - intros b. rewrite Hret. cbn. rewrite lookup_delete_is_Some, H3. split; [naive_solver|]. intros [[Hb Hba]|Hb]; [naive_solver|].
    split; [|by right]. intros <-. done.
  - cbn. rewrite <- H4. destruct (activeTracerArray s) as [| |b] eqn:Eb; [done|done|]. cbn. rewrite lookup_delete_ne; [done|naive_solver].
  - intros b l t e [Hb Hba]%Hret Hl Hin. cbn in Hl. rewrite lookup_delete_ne in Hl by done. by eapply H6.
  - intros t th Ht. eapply thread_ok_mono; [|exact (H7 t th Ht)]. intros [| |b] Hpc Hx; [done..|]. cbn. apply lookup_delete_ne. intros <-.
    eapply Hno; [exact Ht|]. unfold uses. destruct Hpc as [->|[l ->]]; done.
  - inversion Hnd; subst. split; [|done]. split; [done|]. intros b Hb. apply Hret. split; [apply Hsub; by right|]. by intros ->.
Qed.

Lemma walked_Inv s s' : Inv s -> walked s = Some s' -> Inv s'.
Proof.
  intros HI H. unfold walked in H. pose proof (inv_writer s HI) as Hw. unfold writer_ok in Hw.
  destruct (writer s) as [|[|? ?] j| |] eqn:E; try done. destruct Hw as [_ Hj]. injection H as <-.
  assert (Hnot : forall t, stateOf s t = Some disabledWaitingState -> t ∉ enabledTracerImpList s).
  { intros t Ht Hin%(inv_enabled s HI). by rewrite Ht in Hin. }
  destruct j as [|t|t]; [by apply Inv_writer| |]; case_bool_decide as Hr; cbn [job_ok] in Hj; try (by apply Inv_writer).
  - apply Inv_tracers; [done| | |by left|done].
    + intros u Hu. apply lookup_alter_ne. intros <-. by apply (Hnot t).
    + intros u. destruct (decide (t = u)) as [<-|Hne]; [|by rewrite lookup_alter_ne]. rewrite lookup_alter_eq. by destruct (tracers s !! t).
  - apply Inv_tracers; [done| | |by left|done].
    + intros u Hu. apply lookup_delete_ne. intros <-. by apply (Hnot t).
    + intros u. destruct (decide (t = u)) as [<-|Hne]; [by rewrite lookup_delete_eq|by rewrite lookup_delete_ne].
  - apply Inv_writer; [done|]. split; [|done]. by split; [apply (inv_retiring s HI)|].
Qed.

Lemma Inv_step s s' : Inv s -> step true s s' -> Inv s'.
Proof.
  intros HI [a Ha]. destruct a as [t|t|t|t|t|t|t|t|t|t u|t cbs|t cbs|t e fresh|t|order| | |]; cbn [exec] in Ha.
  - by eapply addThread_Inv.
  - eapply onThread_Inv; [done|exact Ha|]. intros th th' _ H. destruct (enter_ok s th th' H) as [Ho Hu]. split; [done|]. intros a Hua. by destruct (Hu a).
  - eapply onThread_Inv; [done|exact Ha|]. intros th th' _ H. destruct (loadActive_ok s th th' H) as [Ho Hu]. split; [done|]. intros a Hua. by destruct (Hu a).
  - eapply onThread_Inv; [done|exact Ha|]. intros th th' _ H. destruct (storePointer_ok s th th' H) as [Ho Hu]. split; [done|]. intros a Hua. by destruct (Hu a).
  - eapply onThread_Inv; [done|exact Ha|]. intros th th' Hok H. destruct (reloadActive_ok s th th' HI Hok H) as [Ho Hu]. split; [done|]. intros a Hua. right. by apply Hu.
  - eapply onThread_Inv; [done|exact Ha|]. intros th th' Hok H. destruct (flushStore_ok s th th' Hok H) as [Ho Hu]. split; [done|]. intros a Hua. left. by apply Hu.
  - by eapply readEntries_Inv.
  - eapply onThread_Inv; [done|exact Ha|]. intros th th' _ H. destruct (release_ok s th th' H) as [Ho Hu]. split; [done|]. intros a Hua. by destruct (Hu a).
  - by eapply removeThread_Inv.
  - case_bool_decide as Hn; [|done]. injection Ha as <-. by apply create_Inv.
  - destruct (tracers s !! t) as [tr|] eqn:Ht; [|done]. injection Ha as <-. destruct (setPrologues_state cbs tr). by eapply setCallbacks_Inv.
  - destruct (tracers s !! t) as [tr|] eqn:Ht; [|done]. injection Ha as <-. destruct (setEpilogues_state cbs tr). by eapply setCallbacks_Inv.
  - destruct (tracers s !! t) as [tr|] eqn:Ht; [|done]. cbn in Ha. destruct (locked s); [done|]. case_bool_decide as Hf; [|done]. injection Ha as <-.
    by apply enableTracingImp_Inv.
  - destruct (tracers s !! t) as [tr|] eqn:Ht; [|done]. cbn in Ha. destruct (locked s); [done|]. injection Ha as <-. by apply destroyTracer_Inv.
  - by eapply nextRetired_Inv.
  - by eapply test_Inv.
  - by eapply freeRetired_Inv.
  - by eapply walked_Inv.
Qed.

Lemma Inv_reachable s : rtc (step true) initial s -> Inv s.
Proof. intros H. apply (rtc_ind_r (fun s => Inv s)) in H; [done|apply Inv_initial|]. intros y z _ Hyz Hy. by eapply Inv_step. Qed.

Lemma run_reachable fence acts s s' : run fence acts s = Some s' -> rtc (step fence) s s'.
Proof.
  revert s. induction acts as [|a acts IH]; intros s; cbn [run foldr]; [by intros [= ->]|].
  destruct (exec fence a s) as [s1|] eqn:E; [|done]. cbn. intros H. eapply rtc_l; [by exists a|by apply IH].
Qed.

(** ** Arrays are written once *)

Lemma onThread_arrays s t f s' : onThread s t f = Some s' -> arrays s' = arrays s.
Proof. unfold onThread. destruct (threadTracerDataList s !! t); [|done]. cbn. destruct (f _); [|done]. by intros [= <-]. Qed.

Lemma update_arrays fresh j s : arrays s !! fresh = None -> forall a, arrays s !! a = None \/ arrays (updateTracerArrays fresh j s) !! a = arrays s !! a.
Proof.
  intros Hf a. unfold updateTracerArrays. cbn. case_bool_decide; [by right|]. destruct (decide (fresh = a)) as [<-|]; [by left|].
  right. by rewrite lookup_insert_ne.
Qed.

Lemma enable_arrays fresh t tr e s : arrays s !! fresh = None ->
  forall a, arrays s !! a = None \/ arrays (enableTracingImp fresh t tr e s).2 !! a = arrays s !! a.
Proof.
  intros Hf a. unfold enableTracingImp. destruct (tracingState tr), e; cbn [snd]; try (by right);
    match goal with |- context [updateTracerArrays fresh ?j ?x] => apply (update_arrays fresh j x Hf) end.
Qed.

Lemma destroy_arrays t tr s : arrays (destroyTracer t tr s).2 = arrays s.
Proof. unfold destroyTracer. by destruct (tracingState tr). Qed.

(** A step keeps the entries of an array, unless it allocates or frees it. *)
Lemma step_arrays s s' : step true s s' -> forall a, arrays s !! a = None \/ arrays s' !! a = None \/ arrays s' !! a = arrays s !! a.
Proof.
  intros [act H] a. destruct act as [t|t|t|t|t|t|t|t|t|t u|t cbs|t cbs|t e fresh|t|order| | |]; cbn [exec] in H;
    try (right; right; by erewrite onThread_arrays); try (unfold addThreadTracerDataToList, removeThreadTracerDataFromList, readEntries, nextRetired, testForTracerArrayReferences, walked, freeRetired in H).
  all: repeat (case_match || case_bool_decide || simplify_option_eq); try (by right; right).
  all: try match goal with
    | H : locked _ || true = false |- _ => by rewrite orb_true_r in H
    | Hf : arrays ?x !! ?f = None |- context [enableTracingImp ?f ?t ?tr ?e ?x] => destruct (enable_arrays f t tr e x Hf a) as [Ha|Ha]; [by left|by right; right]
    | |- context [destroyTracer] => right; right; by rewrite destroy_arrays
    end.
  right. cbn. destruct (decide (a0 = a)) as [<-|Hne]; [left; apply lookup_delete_eq|right; by apply lookup_delete_ne].
Qed.

(** * The theorems *)

(** C33: where the store of a thread's pointer is visible before its second load, no thread ever reads
    an array that is freed, in any interleaving of traced calls with tracers that are
    enabled, disabled and destroyed; and while the callbacks of a tracer can run, the tracer
    exists and does not count as disabled. *)
Theorem tracers_outlive_their_calls s : rtc (step true) initial s ->
  fault s = false /\
  forall t th, threadTracerDataList s !! t = Some th ->
    match pc th with
    | Holding x => is_Some (getArray s x)
    | Calling x l => getArray s x = Some l /\
        forall u e, (u, e) ∈ l -> exists tr, tracers s !! u = Some tr /\ tracingState tr <> disabledState
    | _ => True
    end.
Proof.
  intros HI%Inv_reachable. split; [apply (inv_fault s HI)|]. intros t th Ht. pose proof (inv_threads s HI t th Ht) as Hok. cbn in Hok. unfold thread_ok in Hok.
  destruct (pc th) as [| | | |x|x l]; try done; destruct Hok as (_ & _ & Hx); [done|]. split; [done|]. intros u e Hin.
  assert (Hst : exists st, stateOf s u = Some st /\ st <> disabledState).
  { destruct x as [| |a]; cbn in Hx; [done| |].
    - injection Hx as <-. by apply elem_of_nil in Hin.
    - destruct (proj1 (inv_live s HI a) ltac:(by rewrite Hx)) as [Ha|Ha]; [by eapply (inv_owners s HI)|].
      pose proof (inv_snapshot s HI) as Hs. rewrite Ha in Hs. cbn in Hs. rewrite Hx in Hs. injection Hs as ->.
      apply entries_owner, (inv_enabled s HI) in Hin. by exists enabledState. }
  destruct Hst as (st & Hs & Hne). unfold stateOf in Hs. destruct (tracers s !! u) as [tr|] eqn:E; [|done]. injection Hs as <-. by exists tr.
Qed.

(** a traced call works on one snapshot: when the two loads agree, the array has the entries of
    the tracers that are enabled at this moment, in their order and with their callbacks, and
    no step changes the array while the thread uses it. *)
Theorem traced_call_sees_enabled s : rtc (step true) initial s ->
  (forall th th', thread_ok s th -> reloadActive true (activeTracerArray s) th = Some th' -> forall x, pc th' = Holding x ->
     getArray s x = Some (entries (tracers s) (enabledTracerImpList s))) /\
  (forall s' t th th' x, step true s s' -> threadTracerDataList s !! t = Some th -> pc th = Holding x ->
     threadTracerDataList s' !! t = Some th' -> pc th' = Holding x \/ (exists l, pc th' = Calling x l) -> getArray s' x = getArray s x).
Proof.
  intros HI%Inv_reachable. split.
  - intros th th' _ H x Hx. unfold reloadActive in H. destruct (pc th) as [| | |y| |]; try done. destruct (true && _); [done|]. injection H as <-.
    cbn in Hx. case_bool_decide as Hy; [|done]. injection Hx as <-. rewrite Hy. apply (inv_snapshot s HI).
  - intros s' t th th' x Hst Ht Hpc Ht' Hpc'. pose proof (Inv_step _ _ HI Hst) as HI'.
    assert (Hl : is_Some (getArray s x)) by (pose proof (inv_threads s HI t th Ht) as H; cbn in H; unfold thread_ok in H; rewrite Hpc in H; apply H).
    assert (Hl' : is_Some (getArray s' x)).
    { pose proof (inv_threads s' HI' t th' Ht') as H. cbn in H. unfold thread_ok in H. destruct Hpc' as [E|[l E]]; rewrite E in H; [apply H|].
      destruct H as (_ & _ & ->). by eexists. }
    destruct x as [| |a]; [done|done|]. cbn in *. destruct (step_arrays s s' Hst a) as [H|[H|H]]; [by rewrite H in Hl; destruct Hl|by rewrite H in Hl'; destruct Hl'|done].
Qed.

(** ** The end of a walk *)

Lemma scan_clear a todo j : forall ts s, writer s = Scan a ts todo j ->
  (forall t, t ∈ ts -> exists th, threadTracerDataList s !! t = Some th /\ tracerArrayPointer th <> array a) ->
  rtc (step true) s (set_writer s (Free a todo j)).
Proof.
  induction ts as [|t ts IH]; intros s Hw Hts.
  - apply rtc_once. exists Test. cbn. unfold testForTracerArrayReferences. by rewrite Hw.
  - destruct (Hts t ltac:(by left)) as (th & Ht & Hp). eapply rtc_l.
    + exists Test. cbn. unfold testForTracerArrayReferences. rewrite Hw, Ht. cbn. by rewrite bool_decide_false.
    + apply (IH (set_writer s (Scan a ts todo j))); [done|]. intros u Hu. apply Hts. by right.
Qed.

Lemma pass_clear j : forall todo s, writer s = Pass todo j ->
  (forall t th a, threadTracerDataList s !! t = Some th -> a ∈ todo -> tracerArrayPointer th <> array a) ->
  exists s', rtc (step true) s s' /\ writer s' = Pass [] j /\ tracers s' = tracers s /\
    forall b, b ∈ retiringTracerArrayList s' <-> b ∈ retiringTracerArrayList s /\ b ∉ todo.
Proof.
  induction todo as [|a todo IH]; intros s Hw Hp.
  - exists s. split; [done|]. split; [done|]. split; [done|]. intros b. split; [by split; [|apply not_elem_of_nil]|by intros [? _]].
  - set (ts := elements (dom (threadTracerDataList s))). set (s1 := set_writer s (Scan a ts todo j)). set (s2 := set_writer s1 (Free a todo j)).
    assert (H01 : step true s s1) by (exists (NextRetired ts); cbn; unfold nextRetired; rewrite Hw; by rewrite bool_decide_true).
    assert (H12 : rtc (step true) s1 s2).
    { eapply scan_clear; [done|]. intros t Ht%elem_of_elements%elem_of_dom. destruct Ht as [th Ht]. exists th. split; [done|]. eapply Hp; [exact Ht|by left]. }
    set (s3 := mkState (tracers s) (enabledTracerImpList s) (delete a (arrays s)) (activeTracerArray s)
      (List.filter (fun x => negb (x =? a)) (retiringTracerArrayList s)) (threadTracerDataList s) (Pass todo j) (fault s)).
    assert (H23 : step true s2 s3) by (by exists FreeRetired).
    destruct (IH s3) as (s' & Hr & Hw' & Ht' & Hret); [done|intros t th b Ht Hb; eapply Hp; [exact Ht|by right]|].
    exists s'. split; [|split; [done|split; [done|]]].
    + eapply rtc_l; [exact H01|]. etrans; [exact H12|]. eapply rtc_l; [exact H23|exact Hr].
    + intros b. rewrite Hret. cbn. rewrite list_elem_of_In, filter_In, <- list_elem_of_In. rewrite not_elem_of_cons.
      destruct (Z.eqb_spec b a); naive_solver.
Qed.

(** destroying a disabled tracer succeeds as soon as no thread points at a retired array: the walk
    of the destroying thread then frees all retired arrays, and the tracer is deleted. *)
Theorem destroy_completes s t tr : rtc (step true) initial s -> locked s = false -> tracers s !! t = Some tr -> tracingState tr <> enabledState ->
  (forall u th a, threadTracerDataList s !! u = Some th -> a ∈ retiringTracerArrayList s -> tracerArrayPointer th <> array a) ->
  (destroyTracer t tr s).1 = ZE_RESULT_SUCCESS /\
  exists s', rtc (step true) (destroyTracer t tr s).2 s' /\ locked s' = false /\ tracers s' = delete t (tracers s) /\
    (tracingState tr = disabledWaitingState -> retiringTracerArrayList s' = []).
Proof.
  intros HI%Inv_reachable Hlock Ht Hst Hp. unfold destroyTracer. destruct (tracingState tr) eqn:E; cbn [fst snd]; [|done|]; (split; [done|]).
  - eexists. split; [apply rtc_refl|]. done.
  - destruct (pass_clear (DestroyJob t) (retiringTracerArrayList s) (set_writer s (Pass (retiringTracerArrayList s) (DestroyJob t)))) as (s1 & Hr & Hw & Htr & Hret).
    + done.
    + exact Hp.
    + assert (Hnil : retiringTracerArrayList s1 = []) by (apply elem_of_nil_inv; intros b [Hb Hnb]%Hret; done).
      exists (set_writer (set_tracers s1 (delete t (tracers s1))) NoWriter). split; [|split; [done|split; [cbn; by rewrite Htr|done]]].
      eapply rtc_r; [exact Hr|]. exists Walked. cbn. unfold walked. rewrite Hw. by rewrite bool_decide_true.
Qed.

(** A tracer with a callback around the API function 5, which is in the callbacks of thread 7
    when it is disabled: the walk of the disabling thread finds the array in use. *)
Definition busyTracer : list Action :=
  [Create 0 42; SetPrologues 0 {[ 5 := 100 ]}; Enable 0 true 1; Walked; AddThread 7; Load 7; Store 7; Flush 7; Reload 7; ReadEntries 7;
   Enable 0 false 2; NextRetired [7%nat]; Test; Walked].

Lemma busyTracer_events :
  (s ← run true busyTracer initial; th ← threadTracerDataList s !! 7%nat; match pc th with Calling _ l => Some (apiTracerWrapperImp 5 l) | _ => None end)
  = Some [Prologue 100 42 0; Api].
Proof. by vm_compute. Qed.
Definition stateAfter (acts : list Action) : State := default initial (run true acts initial).

Lemma stateAfter_reachable acts : is_Some (run true acts initial) -> rtc (step true) initial (stateAfter acts).
Proof. intros [s Hs]. apply run_reachable with acts. unfold stateAfter. by rewrite Hs. Qed.

Lemma tracers_outlive_their_calls_witness :
  fault (stateAfter busyTracer) = false /\ exists tr, tracers (stateAfter busyTracer) !! 0%nat = Some tr /\ tracingState tr <> disabledState.
Proof.
  destruct (tracers_outlive_their_calls (stateAfter busyTracer)) as [Hf Hth]; [apply stateAfter_reachable; by eexists; vm_compute|].
  split; [exact Hf|]. destruct (threadTracerDataList (stateAfter busyTracer) !! 7%nat) as [th|] eqn:E; [|by vm_compute in E].
  specialize (Hth 7%nat th E). vm_compute in E. injection E as <-. cbn [pc] in Hth. destruct Hth as [_ Hu]. eapply (Hu 0%nat). by left.
Defined.

Lemma traced_call_sees_enabled_witness :
  let s := stateAfter (take 8 busyTracer) in
  getArray s (array 1) = Some (entries (tracers s) (enabledTracerImpList s)) /\ length (entries (tracers s) (enabledTracerImpList s)) = 1%nat.
Proof.
  set (s := stateAfter (take 8 busyTracer)). cbv zeta. split; [|by vm_compute].
  destruct (traced_call_sees_enabled s) as [H _]; [apply stateAfter_reachable; by eexists; vm_compute|].
  eapply (H (mkThread (Stored (array 1)) [] (array 1)) (mkThread (Holding (array 1)) [] (array 1))); by vm_compute.
Defined.

(** When the thread has left its callbacks, the tracer can be destroyed. *)
Lemma destroy_completes_witness :
  let s := stateAfter (busyTracer ++ [Release 7; Flush 7]) in
  exists tr s', tracers s !! 0%nat = Some tr /\ rtc (step true) (destroyTracer 0 tr s).2 s' /\ tracers s' !! 0%nat = None.
Proof.
  set (s := stateAfter (busyTracer ++ [Release 7; Flush 7])). cbv zeta.
  assert (Ht : exists tr, tracers s !! 0%nat = Some tr /\ tracingState tr <> enabledState) by (eexists; split; [by vm_compute|done]).
  destruct Ht as (tr & Ht & Hne). destruct (destroy_completes s 0 tr) as (_ & s' & Hr & _ & Htr & _); [apply stateAfter_reachable; by eexists; vm_compute|by vm_compute|done|done| |].
  - intros u th a Hu _. assert (Hall : threadTracerDataList s = {[ 7%nat := mkThread Outside [] null ]}) by (by vm_compute).
    rewrite Hall in Hu. apply lookup_singleton_Some in Hu as [_ <-]. done.
  - exists tr, s'. split; [done|]. split; [exact Hr|]. rewrite Htr. apply lookup_delete_eq.
Defined.
(** Tracer 0 is enabled with the array 1, thread 7 reads the pointer twice before its store of
    it is visible; meanwhile the tracer is disabled. *)
Definition staleReader : list Action :=
  [Create 0 0; Enable 0 true 1; Walked; AddThread 7; Load 7; Store 7; Reload 7;
   Enable 0 false 2; NextRetired [7%nat]; Test; Test; FreeRetired; Walked; ReadEntries 7].

(** With the relaxed order of the code, the store of a thread's pointer can become visible
    after its second load of the active array: the array is freed although the thread uses it. *)
Lemma relaxed_store_allows_use_after_free : (fault <$> run false staleReader initial) = Some true.
Proof. by vm_compute. Qed.

(** A fence between the two rules this execution out. *)
Lemma fence_rules_it_out : run true staleReader initial = None.
Proof. by vm_compute. Qed.
