(* ===== verification/MallocOverride.v ===== *)
(** The client's replacement of the C library's allocator (client/client_malloc_override):
    large blocks come from a heap in a shared memory file, which grows by doubling inside of
    reserved addresses, all others from the original functions. *)

From stdpp Require Import list sorting.
From S2P Require Import Prelude.
From S2P Require Import Align.
From S2P Require Import Ranges.
From S2P Require Import RangeAlloc.
Local Open Scope Z_scope.

(** * State *)

Definition naturalAlignment : Z := 16.

(** The global state after [doInit] has succeeded; the mutex makes every operation one step. *)
Record GlobalState := mkGlobal {
  threshold : Z;
  asShmemHeapRange : AddressRange;
  rangeAllocator : RangeAllocator;
  currentHeapSize : Z;
  calLibExecAddressRange : AddressRange }.

Definition set_rangeAllocator (s : GlobalState) r := mkGlobal (threshold s) (asShmemHeapRange s) r (currentHeapSize s) (calLibExecAddressRange s).
Definition set_currentHeapSize (s : GlobalState) n := mkGlobal (threshold s) (asShmemHeapRange s) (rangeAllocator s) n (calLibExecAddressRange s).

(** What the functions do besides: calls of the original functions, copies, and system calls. *)
Inductive Effect :=
| OriginalMalloc (size : Z) | OriginalFree (ptr : Z) | OriginalCalloc (nitems size : Z) | OriginalRealloc (ptr size : Z)
| Memcpy (dst src n : Z) | Memset (ptr n : Z) | Ftruncate (size : Z) | MmapFixed (address size offset : Z).

(** The answers of the original functions and of the system: 0 for null. *)
Record System := {
  original_malloc : Z -> Z;
  original_calloc : Z -> Z -> Z;
  original_realloc : Z -> Z -> Z;
  ftruncate_ok : Z -> bool;
  mmap_ok : Z -> Z -> Z -> bool }.

(** [AddressRange::contains] of a pointer, which stands for one byte. *)
Definition containsPtr (r : AddressRange) (ptr : Z) : res bool := p ← rangeOfPtr ptr; Ret (contains r p).

(** ** Where a call comes from

    The return addresses on the stack, from the innermost: those behind the entry point of
    [malloc] or [calloc] are looked up in the library. *)
Fixpoint isAllocFromCal (mallocRetAddress callocRetAddress : Z) (libraryExecAddressRange : AddressRange) (foundEntryPoint : bool) (backtrace : list Z) : res bool :=
  match backtrace with
  | [] => Ret false
  | ptr :: l =>
      if negb foundEntryPoint then
        isAllocFromCal mallocRetAddress callocRetAddress libraryExecAddressRange ((ptr =? mallocRetAddress) || (ptr =? callocRetAddress)) l
      else
        inside ← containsPtr libraryExecAddressRange ptr;
        if inside : bool then Ret true else isAllocFromCal mallocRetAddress callocRetAddress libraryExecAddressRange true l
  end.

(** * Growing the heap *)

Section System.
Context (sys : System).

(** The doubling; 64 doublings leave nothing of a 64-bit size. *)
Fixpoint preferredSize (fuel : nat) (preferred current minSizeToGrow : Z) : res Z :=
  if u64 (preferred - current) <? minSizeToGrow then
    match fuel with O => Undef | S fuel => preferredSize fuel (u64 (preferred * 2)) current minSizeToGrow end
  else Ret preferred.

Definition tryGrow (minSizeToGrow : Z) (s : GlobalState) : res (bool * list Effect * GlobalState) :=
  preferred ← preferredSize 64 (currentHeapSize s) (currentHeapSize s) minSizeToGrow;
  if negb (ftruncate_ok sys preferred) then Ret (false, [Ftruncate preferred], s)
  else
    let address := u64 (start (asShmemHeapRange s) + currentHeapSize s) in
    let size := u64 (preferred - currentHeapSize s) in
    if negb (mmap_ok sys address size (currentHeapSize s)) then
      Ret (false, [Ftruncate preferred; MmapFixed address size (currentHeapSize s); Ftruncate (currentHeapSize s)], s)
    else Ret (true, [Ftruncate preferred; MmapFixed address size (currentHeapSize s)], set_currentHeapSize s preferred).

Definition ensureMemoryIsMapped (range : AddressRange) (s : GlobalState) : res (bool * list Effect * GlobalState) :=
  let minimumSizeRequired := u64 (end_ range - start (asShmemHeapRange s)) in
  if currentHeapSize s <? minimumSizeRequired then tryGrow (u64 (minimumSizeRequired - currentHeapSize s)) s
  else Ret (true, [], s).

(** * Allocation *)

Definition mallocNoFallback (size : Z) (s : GlobalState) : res (Z * list Effect * GlobalState) :=
  '(range, ra) ← allocate (rangeAllocator s) size naturalAlignment;
  let s := set_rangeAllocator s ra in
  if start range =? 0 then Ret (0, [], s)
  else
    '(mapped, effects, s) ← ensureMemoryIsMapped range s;
    if negb mapped then ra ← free (rangeAllocator s) (start range); Ret (0, effects, set_rangeAllocator s ra)
    else Ret (start range, effects, s).

(** [fromCal] is what [isAllocFromCal] finds on the stack. *)
Definition malloc (fromCal : bool) (size : Z) (s : GlobalState) : res (Z * list Effect * GlobalState) :=
  if size <? threshold s then Ret (original_malloc sys size, [OriginalMalloc size], s)
  else if fromCal then Ret (original_malloc sys size, [OriginalMalloc size], s)
  else
    '(ptr, effects, s) ← mallocNoFallback size s;
    if ptr =? 0 then Ret (original_malloc sys size, effects ++ [OriginalMalloc size], s) else Ret (ptr, effects, s).

Definition free_ (ptr : Z) (s : GlobalState) : res (list Effect * GlobalState) :=
  inHeap ← containsPtr (asShmemHeapRange s) ptr;
  if negb inHeap then Ret ([OriginalFree ptr], s)
  else ra ← free (rangeAllocator s) ptr; Ret ([], set_rangeAllocator s ra).

Definition calloc (fromCal : bool) (nitems size : Z) (s : GlobalState) : res (Z * list Effect * GlobalState) :=
  let totalSize := u64 (nitems * size) in
  if totalSize <? threshold s then Ret (original_calloc sys nitems size, [OriginalCalloc nitems size], s)
  else if fromCal then Ret (original_calloc sys nitems size, [OriginalCalloc nitems size], s)
  else
    '(ptr, effects, s) ← mallocNoFallback totalSize s;
    if ptr =? 0 then Ret (original_calloc sys nitems size, effects ++ [OriginalCalloc nitems size], s)
    else Ret (ptr, effects ++ [Memset ptr totalSize], s).

(** The block moves to the original allocator. *)
Definition moveOut (ptr size oldSize : Z) (s : GlobalState) : res (Z * list Effect * GlobalState) :=
  let newPtr := original_malloc sys size in
  if newPtr =? 0 then Ret (0, [OriginalMalloc size], s)
  else
    ra ← free (rangeAllocator s) ptr;
    Ret (newPtr, [OriginalMalloc size; Memcpy newPtr ptr oldSize], set_rangeAllocator s ra).

Definition realloc (ptr size : Z) (s : GlobalState) : res (Z * list Effect * GlobalState) :=
  inHeap ← containsPtr (asShmemHeapRange s) ptr;
  if negb inHeap then Ret (original_realloc sys ptr size, [OriginalRealloc ptr size], s)
  else
    '(newRange, oldSize, ra) ← resizeOrAllocate (rangeAllocator s) ptr size naturalAlignment;
    let oldSize := default 0 oldSize in
    let s := set_rangeAllocator s ra in
    if start newRange =? 0 then moveOut ptr size oldSize s
    else
      '(mapped, effects, s) ← ensureMemoryIsMapped newRange s;
      if negb mapped then '(p, more, s) ← moveOut ptr size oldSize s; Ret (p, effects ++ more, s)
      else if start newRange =? ptr then Ret (ptr, effects, s)
      else
        ra ← free (rangeAllocator s) ptr;
        Ret (start newRange, effects ++ [Memcpy (start newRange) ptr oldSize], set_rangeAllocator s ra).
End System.

(** * Initialization *)

Definition maxCapacity : Z := 4 * GB.
Definition initialCapacity : Z := 8 * MB.

(** [doInit] with the answers of the system: the reserved addresses, if there are any. *)
Definition doInit (enabled : bool) (thresholdEnv : option Z) (lib : AddressRange) (shm_open ftruncate : bool) (reserved : option Z) (mapped : bool) : res (option GlobalState) :=
  if negb enabled then Ret None
  else if negb shm_open then Ret None
  else if negb ftruncate then Ret None
  else match reserved with
       | None => Ret None
       | Some ptr =>
           if negb mapped then Ret None
           else
             range ← rangeOfSize ptr maxCapacity;
             Ret (Some (mkGlobal (default pageSize4KB thresholdEnv) range (newRangeAllocator range) initialCapacity lib))
       end.

(** ** Which functions are in force

    The replaced functions go through pointers, which initialization redirects. *)
Inductive Target := ToInit | ToOriginal | ToShmem.

Record Overriden := mkOverriden { o_malloc : Target; o_free : Target; o_calloc : Target; o_realloc : Target; initialized : option bool }.

Definition doPreInit : Overriden := mkOverriden ToInit ToOriginal ToInit ToOriginal None.

(** [succeeds] is the result of [doInit], which runs once. *)
Definition ensureInitialized (succeeds : bool) (o : Overriden) : Overriden :=
  match initialized o with
  | Some _ => o
  | None => if succeeds then mkOverriden (o_malloc o) ToShmem (o_calloc o) ToShmem (Some true) else mkOverriden (o_malloc o) (o_free o) (o_calloc o) (o_realloc o) (Some false)
  end.

Definition init_malloc (succeeds : bool) (o : Overriden) : Overriden :=
  let o := ensureInitialized succeeds (mkOverriden ToOriginal (o_free o) (o_calloc o) (o_realloc o) (initialized o)) in
  mkOverriden ToShmem (o_free o) (o_calloc o) (o_realloc o) (initialized o).

Definition init_calloc (succeeds : bool) (o : Overriden) : Overriden :=
  let o := ensureInitialized succeeds (mkOverriden (o_malloc o) (o_free o) ToOriginal (o_realloc o) (initialized o)) in
  mkOverriden (o_malloc o) (o_free o) ToShmem (o_realloc o) (initialized o).

(** The first allocations of a process. *)
Inductive in_force : Overriden -> Prop :=
| force_start : in_force doPreInit
| force_malloc b o : in_force o -> o_malloc o = ToInit -> in_force (init_malloc b o)
| force_calloc b o : in_force o -> o_calloc o = ToInit -> in_force (init_calloc b o).

(** [getMode]: whether it is [CalMallocAsShmem]. *)
Definition getMode (o : Overriden) : bool := match o_malloc o with ToShmem => true | _ => false end.

(** Blocks of the heap exist only when the heap does, and then they are freed and
    reallocated as such; without the heap, the original functions stay in force. *)
Lemma free_follows_heap o : in_force o ->
  match initialized o with
  | Some true => o_free o = ToShmem /\ o_realloc o = ToShmem
  | _ => o_free o = ToOriginal /\ o_realloc o = ToOriginal
  end /\ (initialized o = None -> o_malloc o = ToInit /\ o_calloc o = ToInit).
Proof.
  induction 1 as [|b o _ IH _|b o _ IH _]; [done| |]; destruct o as [m f c r [[|]|]]; cbn in *; destruct b; cbn; naive_solver.
Qed.

(** A heap that could not be set up is reported as in use all the same. *)
Lemma failed_init_reports_heap : getMode (init_malloc false doPreInit) = true.
Proof. done. Qed.

(** * What the client tells the service of the heap *)

Record MallocShmemExporter := mkExporter { enabled : bool; localRange : AddressRange; remoteHeapBase : Z }.

(** The exporter starts enabled, without an address in the service. *)
Definition newExporter (s : GlobalState) : MallocShmemExporter := mkExporter true (asShmemHeapRange s) u64_max.

Definition enable (e : MallocShmemExporter) : MallocShmemExporter := mkExporter true (localRange e) (remoteHeapBase e).
Definition disable (e : MallocShmemExporter) : MallocShmemExporter := mkExporter false (localRange e) (remoteHeapBase e).
Definition setRemoteHeapBaseAddress (a : Z) (e : MallocShmemExporter) : MallocShmemExporter := mkExporter (enabled e) (localRange e) a.

Definition isRegionSharable (e : MallocShmemExporter) (ptr size : Z) : res bool :=
  r ← rangeOfSize ptr size; Ret (contains (localRange e) r).

Definition getRemoteAddress (e : MallocShmemExporter) (ptr : Z) : res Z :=
  if ptr =? 0 then Ret 0
  else
    inside ← containsPtr (localRange e) ptr;
    if negb inside then Ret u64_max else Ret (u64 (remoteHeapBase e + byteDistanceAbs (start (localRange e)) ptr)).

(** The answer of the service to the offer of the heap. *)
Definition importAnswer (successfullyImported : bool) (serviceBaseAddress : Z) (e : MallocShmemExporter) : MallocShmemExporter :=
  if successfullyImported then enable (setRemoteHeapBaseAddress serviceBaseAddress e) else disable e.

(** * The heap

    The shared file is mapped up to [currentHeapSize], which doubles on its way to the
    capacity; every block starts at a multiple of the natural alignment inside of it. *)
Record heap_ok (s : GlobalState) : Prop := {
  heap_ra : ra_ok (rangeAllocator s);
  heap_range : getRange (rangeAllocator s) = asShmemHeapRange s;
  heap_lo : 0 < start (asShmemHeapRange s);
  heap_hi : end_ (asShmemHeapRange s) < 2 ^ 47;
  heap_aligned : start (asShmemHeapRange s) mod naturalAlignment = 0;
  heap_starts : Forall (fun x => start x mod naturalAlignment = 0) (flat (vma (rangeAllocator s)));
  heap_size : 0 < currentHeapSize s /\ exists k, 0 <= k /\ end_ (asShmemHeapRange s) - start (asShmemHeapRange s) = currentHeapSize s * 2 ^ k;
  heap_mapped : Forall (fun x => end_ x <= start (asShmemHeapRange s) + currentHeapSize s) (flat (vma (rangeAllocator s)));
  heap_threshold : 0 < threshold s }.

(** ** Allocation with aligned starts

    Sizes are arbitrary here, so that ends of blocks are not aligned. *)

Lemma alignUp_start v m : 0 <= v < 2 ^ 47 -> v <= m -> m mod naturalAlignment = 0 -> v <= alignUp v naturalAlignment <= m.
Proof.
  unfold naturalAlignment. intros Hv Hm Hal. pose proof (alignUp_spec v 16 ltac:(lia) ltac:(lia) ltac:(word_unfold; lia)).
  pose proof (alignUp_le v 16 m ltac:(lia) ltac:(lia) ltac:(word_unfold; lia) Hm Hal). lia.
Qed.

Lemma alignUpPtr_spec v : 0 <= v < 2 ^ 47 ->
  alignUpPtr v naturalAlignment = alignUp v naturalAlignment /\ v <= alignUp v naturalAlignment < v + 16 /\ alignUp v naturalAlignment mod naturalAlignment = 0.
Proof.
  unfold naturalAlignment. intros Hv. destruct (alignUp_spec v 16 ltac:(lia) ltac:(lia) ltac:(word_unfold; lia)).
  split; [apply alignUpPtr_alignUp; [lia|word_unfold; lia]|]. split; [lia|done].
Qed.

Lemma findGap_starts size prev l hi : 0 < size -> 0 <= end_ (desc prev) -> hi < 2 ^ 47 ->
  ordered (end_ (desc prev)) (desc <$> l) hi -> Forall (fun x => start x mod naturalAlignment = 0) (desc <$> l) ->
  match findGap size naturalAlignment prev l with
  | Some a => a mod naturalAlignment = 0 /\ end_ (desc prev) <= a /\ a + size <= hi /\ Forall (disjoint (mkRange a (a + size))) (desc <$> l)
  | None => True
  end.
Proof.
  intros Hs. revert prev. induction l as [|it l IH]; intros prev Hp Hhi Ho Ha; cbn [findGap]; [done|].
  simpl in Ho. destruct Ho as (H1 & H2 & H3). fold (desc <$> l) in *. apply Forall_cons in Ha as [Hit Ha]. pose proof (ordered_le _ _ _ H3).
  destruct (alignUpPtr_spec (end_ (desc prev)) ltac:(lia)) as (Hap & Hr & Hm). pose proof (alignUp_start (end_ (desc prev)) (start (desc it)) ltac:(lia) H1 Hit) as Hle.
  rewrite u64_id by (word_unfold; lia). destruct (Z.leb_spec size (start (desc it) - alignUp (end_ (desc prev)) naturalAlignment)) as [Hfit|Hno].
  - rewrite Hap. split_and!; [done|lia|lia|]. constructor; [right; simpl; lia|]. apply ordered_Forall in H3. eapply Forall_impl; [exact H3|].
    intros x Hx. right. simpl in *. lia.
  - specialize (IH it ltac:(lia) Hhi H3 Ha). destruct (findGap size naturalAlignment it l) as [a|]; [|done].
    destruct IH as (Ham & Hge & Hle' & Hd). split_and!; [done|lia|done|]. constructor; [left; simpl; lia|done].
Qed.

Lemma allocate_sound r size :
  ra_ok r -> 0 < size -> is_u64 size -> end_ (getRange r) < 2 ^ 47 -> start (getRange r) mod naturalAlignment = 0 ->
  Forall (fun x => start x mod naturalAlignment = 0) (flat (vma r)) ->
  (exists a, allocate r size naturalAlignment ⇓ (mkRange a (a + size), commitRange r (mkRange a (a + size))) /\
     a mod naturalAlignment = 0 /\ placement r size a) \/
  allocate r size naturalAlignment ⇓ (createEmpty, r).
Proof.
  intros Hr Hs Hsu Hhi Hab Haf. pose proof (sizeLeft_spec r Hr) as Hleft. pose proof Hr as [Hw Hlo _ Hne Hu].
  unfold allocate, placement. rewrite Hleft. pose proof (total_le _ _ _ (wf_ordered _ Hw)) as Htot. unfold getRange, getBoundingRange in *.
  destruct (Z.ltb_spec (end_ (desc (vma r)) - start (desc (vma r)) - total (flat (vma r))) size) as [Hsmall|Hroom]; [by right|].
  destruct r as [[d subs] used]. unfold flat in *. cbn [vma subRanges desc] in *. destruct subs as [|first rest].
  { left. exists (start d). cbn [last]. rewrite !alignUpPtr_aligned, !rangeOfSize_ok by (done || unfold naturalAlignment; word_unfold; lia).
    cbn [mbind res_bind]. rewrite (proj2 (contains_spec d _)) by (simpl in *; lia). cbn [negb].
    cbn [mbind res_bind]. rewrite rangeOfSize_ok by (word_unfold; lia). cbn [mbind res_bind]. split; [done|]. split; [done|]. split; [lia|]. split; [simpl in *; lia|constructor]. }
  destruct (last (first :: rest)) as [x|] eqn:Hlast; [|by apply last_None in Hlast].
  destruct (last_end_bound _ _ _ _ Hw Hlast) as (He & Hends & Hxin).
  destruct (alignUpPtr_spec (end_ (desc x)) ltac:(lia)) as (Hap & Hapr & Hapm). rewrite Hap.
  rewrite (rangeOfSize_ok (alignUp (end_ (desc x)) naturalAlignment) size) by (word_unfold; lia). cbn [mbind res_bind].
  destruct (contains d (mkRange _ _)) eqn:Hc; cbn [negb].
  { left. exists (alignUp (end_ (desc x)) naturalAlignment). cbn [mbind res_bind]. rewrite rangeOfSize_ok by (word_unfold; lia). cbn [mbind res_bind].
    apply contains_spec in Hc. cbn [start end_] in Hc. split; [done|]. split; [done|]. split; [lia|]. split; [lia|].
    eapply Forall_impl; [exact Hends|]. intros y Hy. left. simpl in *. lia. }
  pose proof (wf_ordered _ Hw) as Ho. cbn [desc] in Ho. unfold flat in Ho. cbn [subRanges] in Ho. destruct Ho as (H1 & H2 & H3). fold (desc <$> rest) in H3.
  pose proof Haf as Haf'. apply Forall_cons in Haf' as [Hfs Hrest]. pose proof (ordered_le _ _ _ H3). rewrite fmap_cons in *.
  rewrite alignUp_aligned by (done || unfold naturalAlignment; word_unfold; lia). rewrite u64_id by (word_unfold; lia).
  destruct (Z.leb_spec size (start (desc first) - start d)) as [Hfit|Hno].
  { left. exists (start d). rewrite alignUpPtr_aligned by (done || unfold naturalAlignment; word_unfold; lia). cbn [mbind res_bind].
    rewrite rangeOfSize_ok by (word_unfold; lia). cbn [mbind res_bind]. split; [done|]. split; [done|]. split; [lia|]. split; [lia|].
    constructor; [right; simpl; lia|]. apply ordered_Forall in H3. eapply Forall_impl; [exact H3|]. intros y Hy. right. simpl in *. lia. }
  pose proof (findGap_starts size first rest (end_ d) Hs ltac:(lia) ltac:(lia) H3 Hrest) as Hgap.
  destruct (findGap size naturalAlignment first rest) as [a|]; cbn [mbind res_bind]; [|by right].
  destruct Hgap as (Ham & Hge & Hle & Hd). left. exists a. rewrite rangeOfSize_ok by (word_unfold; lia). cbn [mbind res_bind].
  split; [done|]. split; [done|]. split; [lia|]. split; [lia|]. constructor; [left; simpl; lia|done].
Qed.

(** ** Growing *)

(** Mappings stay in the part of the heap that is not mapped yet, and map the file at the
    same offset. *)
Definition growsInside (s : GlobalState) (e : Effect) : Prop :=
  match e with
  | MmapFixed a n o => start (asShmemHeapRange s) + currentHeapSize s <= a /\ a + n <= end_ (asShmemHeapRange s) /\ o = a - start (asShmemHeapRange s)
  | Ftruncate n => currentHeapSize s <= n <= end_ (asShmemHeapRange s) - start (asShmemHeapRange s)
  | _ => False
  end.

Lemma preferredSize_doubles cur min k : 0 < cur -> 0 <= k -> cur * 2 ^ k < 2 ^ 47 -> min <= cur * 2 ^ k - cur -> forall fuel i,
  0 <= i <= k -> k - i <= Z.of_nat fuel ->
  exists j, i <= j <= k /\ preferredSize fuel (cur * 2 ^ i) cur min ⇓ cur * 2 ^ j /\ min <= cur * 2 ^ j - cur.
Proof.
  intros Hc Hk Hcap Hmin. assert (Hpow : forall i, 0 <= i <= k -> cur <= cur * 2 ^ i <= cur * 2 ^ k).
  { intros i Hi. pose proof (Z.pow_le_mono_r 2 i k ltac:(lia) ltac:(lia)). pose proof (Z.pow_pos_nonneg 2 i ltac:(lia) ltac:(lia)). nia. }
  induction fuel as [|fuel IH]; intros i Hi Hf; cbn [preferredSize]; pose proof (Hpow i Hi) as Hp; rewrite u64_id by (word_unfold; lia).
  - assert (i = k) as -> by lia. rewrite (proj2 (Z.ltb_ge _ _)) by lia. by exists k.
  - destruct (Z.ltb_spec (cur * 2 ^ i - cur) min) as [Hlt|Hge]; [|exists i; split; [lia|by split]].
    assert (i <> k) by (intros ->; lia). destruct (IH (i + 1)) as (j & Hj & Hr & Hm); [lia|lia|]. exists j. split; [lia|]. split; [|done].
    rewrite <- Hr. f_equal. rewrite Z.pow_add_r by lia. rewrite u64_id; [lia|]. pose proof (Hpow (i + 1) ltac:(lia)) as Hp'. rewrite Z.pow_add_r in Hp' by lia. word_unfold. lia.
Qed.

(** The powers of two up to 47 bits need fewer doublings than the fuel. *)
Lemma pow_small k c : 0 < c -> 0 <= k -> c * 2 ^ k < 2 ^ 47 -> k < 47.
Proof.
  intros Hc Hk H. destruct (Z.lt_ge_cases k 47) as [|Hge]; [done|]. pose proof (Z.pow_le_mono_r 2 47 k ltac:(lia) ltac:(lia)). nia.
Qed.

Lemma tryGrow_ok sys s min : heap_ok s -> 0 < min <= end_ (asShmemHeapRange s) - start (asShmemHeapRange s) - currentHeapSize s ->
  exists ok eff s', tryGrow sys min s ⇓ (ok, eff, s') /\ heap_ok s' /\ Forall (growsInside s) eff /\ rangeAllocator s' = rangeAllocator s /\
    asShmemHeapRange s' = asShmemHeapRange s /\ currentHeapSize s <= currentHeapSize s' /\
    (ok = true -> currentHeapSize s + min <= currentHeapSize s').
Proof.
  intros Hs Hmin. pose proof Hs as [H1 H2 H3 H4 H5 H6 [Hpos (k & Hk & Hcap)] H8 H9]. pose proof (pow_small k (currentHeapSize s) Hpos Hk ltac:(lia)) as Hk47.
  destruct (preferredSize_doubles (currentHeapSize s) min k Hpos Hk ltac:(lia) ltac:(lia) 64 0 ltac:(lia) ltac:(lia)) as (j & Hj & Hr & Hm).
  rewrite Z.pow_0_r, Z.mul_1_r in Hr. unfold tryGrow. rewrite Hr. cbn [mbind res_bind].
  assert (Hjk : currentHeapSize s * 2 ^ j <= currentHeapSize s * 2 ^ k) by (apply Z.mul_le_mono_nonneg_l; [lia|apply Z.pow_le_mono_r; lia]).
  rewrite (u64_id (start (asShmemHeapRange s) + currentHeapSize s)), (u64_id (currentHeapSize s * 2 ^ j - currentHeapSize s)) by (word_unfold; lia).
  destruct (ftruncate_ok _ _); cbn [negb].
  2: { eexists false, _, s. split; [done|]. split; [done|]. split; [repeat constructor; cbn; lia|]. repeat split; try lia; done. }
  destruct (mmap_ok _ _ _ _); cbn [negb].
  2: { eexists false, _, s. split; [done|]. split; [done|]. split; [repeat constructor; cbn; lia|]. repeat split; try lia; done. }
  eexists true, _, (set_currentHeapSize s (currentHeapSize s * 2 ^ j)). split; [done|]. split; [|split; [repeat constructor; cbn; lia|cbn; repeat split; lia]].
  split; try done; cbn.
  - split; [lia|]. exists (k - j). split; [lia|]. rewrite Hcap, <- Z.mul_assoc, <- Z.pow_add_r by lia. do 2 f_equal. lia.
  - eapply Forall_impl; [exact H8|]. cbn. intros x Hx. lia.
Qed.

Lemma ensureMemoryIsMapped_ok sys s r : heap_ok s -> start (asShmemHeapRange s) <= start r -> start r < end_ r -> end_ r <= end_ (asShmemHeapRange s) ->
  exists ok eff s', ensureMemoryIsMapped sys r s ⇓ (ok, eff, s') /\ heap_ok s' /\ Forall (growsInside s) eff /\ rangeAllocator s' = rangeAllocator s /\
    asShmemHeapRange s' = asShmemHeapRange s /\ (ok = true -> end_ r <= start (asShmemHeapRange s) + currentHeapSize s').
Proof.
  intros Hs H1 H2 H3. pose proof (heap_lo s Hs). pose proof (heap_hi s Hs). destruct (heap_size s Hs) as [Hpos _]. unfold ensureMemoryIsMapped.
  rewrite u64_id by (word_unfold; lia). destruct (Z.ltb_spec (currentHeapSize s) (end_ r - start (asShmemHeapRange s))) as [Hlt|Hge].
  - rewrite u64_id by (word_unfold; lia). destruct (tryGrow_ok sys s (end_ r - start (asShmemHeapRange s) - currentHeapSize s) Hs ltac:(lia)) as (ok & eff & s' & Hr & Hs' & He & Hra & Hrg & Hge & Hok).
    exists ok, eff, s'. split_and!; try done. intros ->. specialize (Hok eq_refl). lia.
  - exists true, [], s. split_and!; try done. intros _. lia.
Qed.

(** ** Blocks *)

Definition blocks (s : GlobalState) : list AddressRange := flat (vma (rangeAllocator s)).

(** Another allocator over the same heap. *)
Lemma heap_ok_allocator s ra : heap_ok s -> ra_ok ra -> getRange ra = getRange (rangeAllocator s) ->
  Forall (fun x => start x mod naturalAlignment = 0) (flat (vma ra)) ->
  Forall (fun x => end_ x <= start (asShmemHeapRange s) + currentHeapSize s) (flat (vma ra)) -> heap_ok (set_rangeAllocator s ra).
Proof. intros [H1 H2 H3 H4 H5 H6 H7 H8 H9] Hr Hg Hst Hm. split; try done. cbn. by rewrite Hg. Qed.

Lemma free_found s x ptr : heap_ok s -> x ∈ blocks s -> 0 <= ptr -> start x <= ptr < end_ x ->
  exists ra, free (rangeAllocator s) ptr ⇓ ra /\ heap_ok (set_rangeAllocator s ra) /\ Permutation (blocks s) (x :: flat (vma ra)).
Proof.
  intros Hs Hx H0 Hp. apply list_elem_of_split in Hx as (l1 & l2 & Hb). unfold blocks in Hb.
  destruct (freeRange_found (rangeAllocator s) ptr l1 x l2 (heap_ra s Hs) H0 Hb Hp) as (ra & Hf & Hra & Hg & Hfl & _).
  exists ra. split; [exact Hf|]. pose proof (heap_starts s Hs) as Hst. pose proof (heap_mapped s Hs) as Hm. rewrite Hb in Hst, Hm.
  apply Forall_app in Hst as [Hs1 Hs2]. apply Forall_app in Hm as [Hm1 Hm2]. inversion Hs2; inversion Hm2; subst. split.
  - apply heap_ok_allocator; [done|done|done| |]; rewrite Hfl; by apply Forall_app.
  - unfold blocks. rewrite Hb, Hfl. symmetry. apply Permutation_middle.
Qed.

(** Giving back the block that was just taken leads back to the same blocks. *)
Lemma commit_free r size a : ra_ok r -> 0 < size -> placement r size a ->
  exists ra, free (commitRange r (mkRange a (a + size))) a ⇓ ra /\ ra_ok ra /\ getRange ra = getRange r /\ flat (vma ra) = flat (vma r).
Proof.
  intros Hr Hs Hp. destruct (commit_ok r size a Hr Hs Hp) as (Hr' & Hg & l1 & l2 & H1 & H2). destruct Hp as (Hp1 & _). pose proof (ra_lo _ Hr).
  destruct (freeRange_found _ a l1 _ l2 Hr' ltac:(lia) H2 ltac:(cbn; lia)) as (ra & Hf & Hra & Hga & Hfl & _).
  exists ra. split; [exact Hf|]. split; [done|]. split; [by rewrite Hga|]. by rewrite Hfl, H1.
Qed.

(** Growing does not look at the blocks. *)
Lemma ensure_set_allocator sys r s ra :
  ensureMemoryIsMapped sys r (set_rangeAllocator s ra) = ('(ok, eff, s') ← ensureMemoryIsMapped sys r s; Ret (ok, eff, set_rangeAllocator s' ra)).
Proof.
  unfold ensureMemoryIsMapped, tryGrow. cbn [currentHeapSize asShmemHeapRange set_rangeAllocator].
  repeat match goal with
  | |- context [if ?b then _ else _] => destruct b; cbn [mbind res_bind]
  | |- context [preferredSize ?f ?a ?b ?c] => destruct (preferredSize f a b c); cbn [mbind res_bind]
  end; done.
Qed.

(** a large allocation either fails and leaves the blocks as they are, or returns an aligned
    address of a block of the requested size that overlaps no other, lies inside of the
    reserved addresses and is mapped; the heap file grows only up to its capacity, and
    mappings go only to addresses of the heap that were not mapped. *)
Theorem mallocNoFallback_correct sys size s : heap_ok s -> 0 < size -> is_u64 size ->
  exists p eff s', mallocNoFallback sys size s ⇓ (p, eff, s') /\ heap_ok s' /\ Forall (growsInside s) eff /\ asShmemHeapRange s' = asShmemHeapRange s /\
    (p = 0 /\ blocks s' = blocks s \/
     0 < p /\ p mod naturalAlignment = 0 /\ start (asShmemHeapRange s) <= p /\ p + size <= end_ (asShmemHeapRange s) /\
     p + size <= start (asShmemHeapRange s) + currentHeapSize s' /\ Forall (disjoint (mkRange p (p + size))) (blocks s) /\
     Permutation (blocks s') (mkRange p (p + size) :: blocks s)).
Proof.
  intros Hs Hz Hu. pose proof Hs as [H1 H2 H3 H4 H5 H6 H7 H8 _]. unfold mallocNoFallback, blocks in *. rewrite <- H2 in *.
  destruct (allocate_sound (rangeAllocator s) size H1 Hz Hu H4 H5 H6) as [(a & Ha & Ham & Hp)|Ha]; rewrite Ha; cbn [mbind res_bind].
  2: { cbn. exists 0, [], (set_rangeAllocator s (rangeAllocator s)). split; [done|]. split; [by destruct s|]. split; [constructor|]. split; [by rewrite H2|by left]. }
  destruct (commit_ok _ size a H1 Hz Hp) as (Hr' & Hg & l1 & l2 & Hl1 & Hl2). pose proof (commit_free _ size a H1 Hz Hp) as (raf & Hraf & Hrafok & Hrafg & Hraff).
  set (ra := commitRange (rangeAllocator s) (mkRange a (a + size))) in *. pose proof Hp as (Hp1 & Hp2 & Hp3). cbn [start].
  rewrite (proj2 (Z.eqb_neq a 0)) by lia. rewrite ensure_set_allocator.
  destruct (ensureMemoryIsMapped_ok sys s (mkRange a (a + size)) Hs ltac:(cbn; rewrite <- H2; lia) ltac:(cbn; lia) ltac:(cbn; rewrite <- H2; lia))
    as (ok & eff & s' & Hr & Hs' & He & Hra & Hrg & Hok). rewrite Hr. cbn [mbind res_bind]. pose proof (heap_starts s' Hs') as Hst'. pose proof (heap_mapped s' Hs') as Hm'. rewrite Hra in Hst', Hm'.
  destruct ok; cbn [negb].
  - exists a, eff, (set_rangeAllocator s' ra). specialize (Hok eq_refl). cbn [end_] in Hok. split; [done|]. split.
    + apply heap_ok_allocator; [done|done|by rewrite Hra| |]; rewrite Hl2; rewrite Hl1 in Hst', Hm'; apply Forall_app in Hst' as [? ?]; apply Forall_app in Hm' as [? ?];
        (apply Forall_app; split; [done|constructor; [|done]]); cbn; [done|]. rewrite Hrg. lia.
    + split; [done|]. split; [by rewrite <- H2 in Hrg|]. right. rewrite <- H2 in Hok. split_and!; try done; try lia.
      change (rangeAllocator (set_rangeAllocator s' ra)) with ra. rewrite Hl1, Hl2. symmetry. apply Permutation_middle.
  - cbn [rangeAllocator set_rangeAllocator]. change (rangeAllocator (set_rangeAllocator s' ra)) with ra. rewrite Hraf. cbn [mbind res_bind].
    exists 0, eff, (set_rangeAllocator (set_rangeAllocator s' ra) raf). split; [done|]. split.
    + change (set_rangeAllocator (set_rangeAllocator s' ra) raf) with (set_rangeAllocator s' raf). apply heap_ok_allocator; [done|done|by rewrite Hra| |]; rewrite Hraff; done.
    + split; [done|]. split; [by rewrite <- H2 in Hrg|]. left. split; [done|]. cbn. by rewrite Hraff.
Qed.

(** ** Freeing and reallocating *)

Lemma containsPtr_spec r ptr : 0 <= ptr -> ptr + 1 < W64 -> containsPtr r ptr ⇓ bool_decide (start r <= ptr < end_ r).
Proof.
  intros H0 Hw. unfold containsPtr, rangeOfPtr. rewrite u64_id by (word_unfold; lia). rewrite makeRange_ok by lia. cbn [mbind res_bind]. f_equal.
  apply eq_true_iff_eq. rewrite contains_spec, bool_decide_eq_true. cbn. lia.
Qed.

Lemma heap_block_bounds s x : heap_ok s -> x ∈ blocks s -> start (asShmemHeapRange s) <= start x /\ start x < end_ x /\ end_ x <= end_ (asShmemHeapRange s).
Proof.
  intros Hs Hx. pose proof (ordered_Forall _ _ _ (wf_ordered _ (ra_wf _ (heap_ra s Hs)))) as H. rewrite Forall_forall in H. specialize (H x Hx).
  pose proof (heap_range s Hs) as Hr. unfold getRange, getBoundingRange in Hr. rewrite Hr in H. lia.
Qed.

(** Freeing an address of the heap removes the one block that contains it and no other, and an
    address outside of the heap goes to the original allocator. *)
Theorem free_correct s ptr : heap_ok s -> 0 <= ptr -> ptr + 1 < W64 ->
  exists eff s', free_ ptr s ⇓ (eff, s') /\ heap_ok s' /\ asShmemHeapRange s' = asShmemHeapRange s /\ threshold s' = threshold s /\
    ((~ start (asShmemHeapRange s) <= ptr < end_ (asShmemHeapRange s) /\ eff = [OriginalFree ptr] /\ s' = s) \/
     (eff = [] /\ ((exists x, x ∈ blocks s /\ start x <= ptr < end_ x /\ Permutation (blocks s) (x :: blocks s')) \/
                  (~ covered (blocks s) ptr /\ s' = s)))).
Proof.
  intros Hs H0 Hw. unfold free_. rewrite containsPtr_spec by done. cbn [mbind res_bind]. case_bool_decide as Hin; cbn [negb].
  2: { exists [OriginalFree ptr], s. split_and!; try done. by left. }
  destruct (decide (Exists (fun x => start x <= ptr < end_ x) (blocks s))) as [Hc|Hc].
  - apply Exists_exists in Hc as (x & Hx & Hp). destruct (free_found s x ptr Hs Hx H0 Hp) as (ra & Hf & Hok & Hperm). rewrite Hf. cbn [mbind res_bind].
    exists [], (set_rangeAllocator s ra). split_and!; try done. right. split; [done|]. left. exists x. done.
  - unfold free. rewrite freeRange_unknown by (done || apply (heap_ra s Hs)). cbn [mbind res_bind].
    exists [], (set_rangeAllocator s (rangeAllocator s)). assert (Hsame : set_rangeAllocator s (rangeAllocator s) = s) by (by destruct s).
    rewrite Hsame. split_and!; try done. right. split; [done|]. by right.
Qed.

(** The range of a block in the tree. *)
Lemma find_block r x b : ra_ok r -> x ∈ flat (vma r) -> start x <= b < end_ x ->
  exists i sx, findSubRange (vma r) (mkRange b (b + 1)) = Some i /\ subRanges (vma r) !! i = Some sx /\ desc sx = x.
Proof.
  intros Hr Hx Hb. unfold flat in Hx. apply list_elem_of_fmap in Hx as (sx & -> & Hin). apply list_elem_of_lookup in Hin as [i Hi].
  exists i, sx. split; [|done]. apply findSubRange_iff; [apply (ra_wf _ Hr)|cbn; lia|]. exists sx. split; [done|]. apply contains_spec. cbn. lia.
Qed.

(** Removing a range from a tree, by addresses. *)
Lemma destroySubRange_removes_ p r : wf p -> start r < end_ r ->
  exists q n, destroySubRange p r ⇓ (q, n) /\ forall a, covered (flat q) a <-> covered (flat p) a /\ ~ start r <= a < end_ r.
Proof.
  intros Hwf Hr. destruct (destroy_fuel_correct (height p) p r (Nat.le_refl _) Hwf Hr) as (q & n & H & (_ & Hf & _) & _).
  exists q, n. split; [exact H|]. intros a. rewrite Hf. apply covered_cut. lia.
Qed.

(** Shrinking a block of the heap keeps its address, copies nothing and gives back exactly the
    tail. *)
Theorem realloc_shrinks sys s x size : heap_ok s -> x ∈ blocks s -> 0 < size <= end_ x - start x ->
  exists s', realloc sys (start x) size s ⇓ (start x, [], s') /\ asShmemHeapRange s' = asShmemHeapRange s /\ currentHeapSize s' = currentHeapSize s /\
    forall a, covered (blocks s') a <-> covered (blocks s) a /\ ~ start x + size <= a < end_ x.
Proof.
  intros Hs Hx Hz. destruct (heap_block_bounds s x Hs Hx) as (B1 & B2 & B3). pose proof (heap_lo s Hs). pose proof (heap_hi s Hs).
  destruct (find_block (rangeAllocator s) x (start x) (heap_ra s Hs) Hx ltac:(lia)) as (i & sx & Hfind & Hsx & Hd).
  assert (Hres : exists ra, resizeOrAllocate (rangeAllocator s) (start x) size naturalAlignment ⇓ (mkRange (start x) (start x + size), Some (end_ x - start x), ra) /\
    forall a, covered (flat (vma ra)) a <-> covered (blocks s) a /\ ~ start x + size <= a < end_ x).
  { unfold resizeOrAllocate, resizeRange, rangeOfPtr, getBoundingRange. rewrite u64_id by (word_unfold; lia). rewrite makeRange_ok by lia. cbn [mbind res_bind].
    rewrite Hfind, Hsx, Hd. unfold rsize. rewrite u64_id by (word_unfold; lia). destruct (Z.eqb_spec (end_ x - start x) size) as [E|E]; cbn [mbind res_bind].
    - rewrite (proj2 (Z.eqb_neq size 0)), Z.leb_refl, rangeOfSize_ok by (word_unfold; lia). cbn [mbind res_bind]. eexists. split; [done|].
      intros a. unfold blocks. split; [intros Ha; split; [done|lia]|by intros [Ha _]].
    - rewrite (proj2 (Z.ltb_lt size _)), u64_id by (word_unfold; lia).
      destruct (destroySubRange_removes_ (vma (rangeAllocator s)) (mkRange (start x + size) (end_ x)) (ra_wf _ (heap_ra s Hs)) ltac:(cbn; lia)) as (q & n & Hq & Hcov).
      rewrite Hq. cbn [mbind res_bind]. rewrite (proj2 (Z.eqb_neq size 0)), Z.leb_refl, rangeOfSize_ok by (word_unfold; lia). cbn [mbind res_bind].
      eexists. split; [done|]. exact Hcov. }
  destruct Hres as (ra & Hra & Hcov). unfold realloc. rewrite containsPtr_spec by (word_unfold; lia). cbn [mbind res_bind].
  rewrite bool_decide_true by lia. cbn [negb]. rewrite Hra. cbn [mbind res_bind]. rewrite (proj2 (Z.eqb_neq _ 0)) by (cbn; lia).
  pose proof (heap_mapped s Hs) as Hm. rewrite Forall_forall in Hm. specialize (Hm x Hx). cbn in Hm.
  unfold ensureMemoryIsMapped. cbn [end_ start asShmemHeapRange set_rangeAllocator currentHeapSize]. rewrite u64_id by (word_unfold; lia).
  rewrite (proj2 (Z.ltb_ge _ _)) by lia. cbn [mbind res_bind negb]. rewrite Z.eqb_refl. eexists. split; [done|]. done.
Qed.

(** * Histories *)

Inductive Op := OpMalloc (fromCal : bool) (size : Z) | OpCalloc (fromCal : bool) (nitems size : Z) | OpFree (ptr : Z).

Definition op_ok (o : Op) : Prop :=
  match o with OpMalloc _ size => is_u64 size | OpCalloc _ _ _ => True | OpFree ptr => 0 <= ptr /\ ptr + 1 < W64 end.

Definition runOp (sys : System) (o : Op) (s : GlobalState) : res GlobalState :=
  match o with
  | OpMalloc fromCal size => '(_, _, s) ← malloc sys fromCal size s; Ret s
  | OpCalloc fromCal nitems size => '(_, _, s) ← calloc sys fromCal nitems size s; Ret s
  | OpFree ptr => '(_, s) ← free_ ptr s; Ret s
  end.

Fixpoint runOps (sys : System) (ops : list Op) (s : GlobalState) : res GlobalState :=
  match ops with [] => Ret s | o :: ops => s ← runOp sys o s; runOps sys ops s end.

Lemma runOp_ok sys o s : heap_ok s -> op_ok o -> exists s', runOp sys o s ⇓ s' /\ heap_ok s' /\ asShmemHeapRange s' = asShmemHeapRange s.
Proof.
  intros Hs Ho. pose proof (heap_threshold s Hs) as Ht. destruct o as [fc size|fc nitems size|ptr]; cbn [runOp op_ok] in *.
  - unfold malloc. destruct (Z.ltb_spec size (threshold s)); [by exists s|]. destruct fc; [by exists s|].
    destruct (mallocNoFallback_correct sys size s Hs ltac:(lia) Ho) as (p & eff & s' & -> & Hs' & _ & Hr & _). cbn [mbind res_bind].
    exists s'. by destruct (p =? 0).
  - unfold calloc. destruct (Z.ltb_spec (u64 (nitems * size)) (threshold s)); [by exists s|]. destruct fc; [by exists s|].
    destruct (mallocNoFallback_correct sys (u64 (nitems * size)) s Hs ltac:(lia) ltac:(apply u64_range)) as (p & eff & s' & -> & Hs' & _ & Hr & _). cbn [mbind res_bind].
    exists s'. by destruct (p =? 0).
  - destruct Ho as [H0 Hw]. destruct (free_correct s ptr Hs H0 Hw) as (eff & s' & -> & Hs' & Hr & _). cbn [mbind res_bind]. by exists s'.
Qed.

(** C34: every history of allocations, cleared allocations and frees runs to its end, whatever the
    system answers, and leaves a heap whose blocks are aligned, inside of the reserved
    addresses, in order and without overlap, and mapped. *)
Theorem malloc_histories_keep_heap sys ops s : heap_ok s -> Forall op_ok ops ->
  exists s', runOps sys ops s ⇓ s' /\ heap_ok s' /\ asShmemHeapRange s' = asShmemHeapRange s /\
    ordered (start (asShmemHeapRange s)) (blocks s') (end_ (asShmemHeapRange s)).
Proof.
  intros Hs Hops. assert (H : exists s', runOps sys ops s ⇓ s' /\ heap_ok s' /\ asShmemHeapRange s' = asShmemHeapRange s).
  { revert s Hs. induction Hops as [|o ops Ho Hops IH]; intros s Hs; cbn [runOps]; [by exists s|].
    destruct (runOp_ok sys o s Hs Ho) as (s1 & -> & Hs1 & Hr1). cbn [mbind res_bind]. destruct (IH s1 Hs1) as (s' & Hr & Hs' & Hrg).
    exists s'. split_and!; [done|done|by rewrite Hrg]. }
  destruct H as (s' & Hr & Hs' & Hrg). exists s'. split_and!; try done. pose proof (wf_ordered _ (ra_wf _ (heap_ra s' Hs'))) as Ho.
  pose proof (heap_range s' Hs') as Hg. unfold getRange, getBoundingRange in Hg. by rewrite Hg, Hrg in Ho.
Qed.

(** The heap starts well: a reservation is page-aligned. *)
Lemma doInit_heap_ok enabled env lib so ft reserved mapped s :
  doInit enabled env lib so ft reserved mapped ⇓ Some s -> (forall p, reserved = Some p -> 0 < p /\ p mod pageSize4KB = 0 /\ p + maxCapacity < 2 ^ 47) ->
  (forall t, env = Some t -> 0 < t) -> heap_ok s.
Proof.
  intros H Hp Ht. unfold doInit in H. destruct enabled, so, ft; try done. destruct reserved as [p|]; [|done]. destruct mapped; [|done]. cbn [negb] in H.
  destruct (Hp p eq_refl) as (Hp0 & Hpa & Hp47). change maxCapacity with (2 ^ 32) in *. change pageSize4KB with 4096 in *.
  rewrite rangeOfSize_ok in H by (word_unfold; lia). cbn [mbind res_bind] in H. injection H as <-.
  assert (Hal : p mod naturalAlignment = 0).
  { apply Z.mod_divide in Hpa as [q ->]; [|done]. unfold naturalAlignment. replace (q * 4096) with (q * 256 * 16) by lia. by apply Z.mod_mul. }
  split; cbn [rangeAllocator asShmemHeapRange currentHeapSize threshold start end_]; try done.
  - apply fresh_ok; cbn; unfold half; lia.
  - split; [by vm_compute|]. exists 9. change (initialCapacity * 2 ^ 9) with (2 ^ 32). lia.
  - destruct env as [t|]; [by apply Ht|done].
Qed.

(** * The heap in the service *)

(** when the service has imported the heap, the address that a command carries for a byte of a
    sharable region is the byte at the same offset of the service's mapping. *)
Theorem remote_addresses_match s base ptr size : heap_ok s -> 0 <= base -> base + (end_ (asShmemHeapRange s) - start (asShmemHeapRange s)) < W64 ->
  0 < ptr -> 0 < size -> ptr + size < W64 ->
  let e := importAnswer true base (newExporter s) in
  isRegionSharable e ptr size ⇓ true -> forall o, 0 <= o < size ->
  getRemoteAddress e (ptr + o) ⇓ base + (ptr + o - start (asShmemHeapRange s)) /\
  base <= base + (ptr + o - start (asShmemHeapRange s)) < base + (end_ (asShmemHeapRange s) - start (asShmemHeapRange s)).
Proof.
  intros Hs Hb0 Hb Hp Hz Hw e He o Ho. pose proof (heap_lo s Hs). pose proof (heap_hi s Hs). unfold isRegionSharable in He.
  rewrite rangeOfSize_ok in He by lia. cbn [mbind res_bind] in He. injection He as He. apply contains_spec in He. cbn in He.
  unfold getRemoteAddress. rewrite (proj2 (Z.eqb_neq _ 0)) by lia. rewrite containsPtr_spec by (cbn; lia). cbn [mbind res_bind].
  rewrite bool_decide_true by (cbn; lia). cbn [negb]. split; [|lia]. f_equal. cbn.
  assert (Hd : byteDistanceAbs (start (asShmemHeapRange s)) (ptr + o) = ptr + o - start (asShmemHeapRange s)).
  { apply byteDistanceAbs_sub; word_unfold; lia. }
  rewrite Hd, u64_id; [done|]. word_unfold. lia.
Qed.

(** * An example heap *)

Definition generous : System := {|
  original_malloc := fun _ => 0x1000; original_calloc := fun _ _ => 0; original_realloc := fun _ _ => 0;
  ftruncate_ok := fun _ => true; mmap_ok := fun _ _ _ => true |}.

Definition exampleBase : Z := 0x10000000000.

Definition exampleHeap : GlobalState :=
  mkGlobal pageSize4KB (mkRange exampleBase (exampleBase + maxCapacity)) (newRangeAllocator (mkRange exampleBase (exampleBase + maxCapacity))) initialCapacity createEmpty.

Lemma exampleHeap_init : doInit true None createEmpty true true (Some exampleBase) true ⇓ Some exampleHeap.
Proof. by vm_compute. Qed.


Lemma exampleHeap_ok : heap_ok exampleHeap.
Proof.
  eapply (doInit_heap_ok true None createEmpty true true (Some exampleBase) true); [apply exampleHeap_init| |done].
  intros p [= <-]. by split_and!; vm_compute.
Qed.

(** A block of 12 MB, more than the file has at first. *)
Lemma mallocNoFallback_correct_witness :
  exists p eff s', mallocNoFallback generous (12 * MB) exampleHeap ⇓ (p, eff, s') /\ p = exampleBase /\ currentHeapSize s' = 16 * MB /\ heap_ok s'.
Proof.
  destruct (mallocNoFallback_correct generous (12 * MB) exampleHeap exampleHeap_ok ltac:(by vm_compute) ltac:(by vm_compute)) as (p & eff & s' & Hr & Hs' & _).
  exists p, eff, s'. split; [exact Hr|]. vm_compute in Hr. injection Hr as <- <- <-. by split_and!.
Defined.

Definition oneBlock : GlobalState := set_rangeAllocator exampleHeap (commitRange (rangeAllocator exampleHeap) (mkRange exampleBase (exampleBase + 1 * MB))).

Lemma oneBlock_ok : heap_ok oneBlock.
Proof.
  destruct (mallocNoFallback_correct generous (1 * MB) exampleHeap exampleHeap_ok ltac:(by vm_compute) ltac:(by vm_compute)) as (p & eff & s' & Hr & Hs' & _).
  assert (H : mallocNoFallback generous (1 * MB) exampleHeap ⇓ (exampleBase, [], oneBlock)) by (by vm_compute).
  rewrite Hr in H. injection H as _ _ ->. exact Hs'.
Qed.

Lemma free_correct_witness :
  exists eff s', free_ (exampleBase + 5) oneBlock ⇓ (eff, s') /\ heap_ok s' /\ blocks s' = [].
Proof.
  destruct (free_correct oneBlock (exampleBase + 5) oneBlock_ok ltac:(by vm_compute) ltac:(by vm_compute)) as (eff & s' & Hr & Hs' & _).
  exists eff, s'. split; [exact Hr|]. split; [exact Hs'|]. vm_compute in Hr. by injection Hr as <- <-.
Defined.

Lemma realloc_shrinks_witness :
  exists s', realloc generous exampleBase 5000 oneBlock ⇓ (exampleBase, [], s') /\ ~ covered (blocks s') (exampleBase + 5000).
Proof.
  destruct (realloc_shrinks generous oneBlock (mkRange exampleBase (exampleBase + 1 * MB)) 5000 oneBlock_ok ltac:(by left) ltac:(by vm_compute)) as (s' & Hr & _ & _ & Hc).
  exists s'. split; [exact Hr|]. intros [_ H]%Hc. apply H. by vm_compute.
Defined.

Lemma malloc_histories_keep_heap_witness :
  exists s', runOps generous [OpMalloc false 5000; OpMalloc true (1 * MB); OpCalloc false 3 (4 * MB); OpFree exampleBase; OpMalloc false 9000] exampleHeap ⇓ s' /\
    heap_ok s' /\ length (blocks s') = 2%nat.
Proof.
  destruct (malloc_histories_keep_heap generous [OpMalloc false 5000; OpMalloc true (1 * MB); OpCalloc false 3 (4 * MB); OpFree exampleBase; OpMalloc false 9000] exampleHeap)
    as (s' & Hr & Hs' & _); [apply exampleHeap_ok|repeat constructor; by vm_compute|].
  exists s'. split; [exact Hr|]. split; [exact Hs'|]. vm_compute in Hr. by injection Hr as <-.
Defined.

Lemma remote_addresses_match_witness :
  getRemoteAddress (importAnswer true 0x700000000000 (newExporter exampleHeap)) (exampleBase + 0x1000 + 0x234) ⇓ 0x700000001234.
Proof.
  destruct (remote_addresses_match exampleHeap 0x700000000000 (exampleBase + 0x1000) 0x1000 exampleHeap_ok ltac:(by vm_compute) ltac:(by vm_compute) ltac:(by vm_compute)
    ltac:(by vm_compute) ltac:(by vm_compute) ltac:(by vm_compute) 0x234 ltac:(by vm_compute)) as [H _]. exact H.
Defined.

(** * Gaps

    Arrays whose size overflows get a small block instead of a null pointer. *)
Lemma calloc_ignores_overflow :
  (r ← calloc generous false (2 ^ 40 + 1) (2 ^ 24) exampleHeap; Ret r.1)
  ⇓ (exampleBase, [Ftruncate (16 * MB); MmapFixed (exampleBase + 8 * MB) (8 * MB) (8 * MB); Memset exampleBase (2 ^ 24)]).
Proof. by vm_compute. Qed.

(** Reallocating a block to nothing takes the way of a full heap: the old content is copied
    into a block without any size. *)
Lemma realloc_to_zero_overflows :
  (r ← realloc generous exampleBase 0 oneBlock; Ret r.1) ⇓ (0x1000, [OriginalMalloc 0; Memcpy 0x1000 exampleBase (1 * MB)]).
Proof. by vm_compute. Qed.

(** A block that moves is mapped as if it had one byte: the copy reaches beyond the file. *)
Lemma moved_block_is_not_mapped :
  ('(p, _, s) ← malloc generous false (4 * MB) exampleHeap; '(_, _, s) ← malloc generous false (3 * MB) s;
   '(q, effects, s) ← realloc generous p (6 * MB) s; Ret (q, effects, start (asShmemHeapRange s) + currentHeapSize s))
  ⇓ (exampleBase + 7 * MB, [Memcpy (exampleBase + 7 * MB) exampleBase (4 * MB)], exampleBase + 8 * MB).
Proof. by vm_compute. Qed.

(** A block that grows in place is not held back by the end of the heap: the file is mapped
    over whatever lies behind the reserved addresses. *)
Lemma grown_block_maps_over_others :
  ('(p, _, s) ← malloc generous false (3 * GB) exampleHeap; '(q, effects, s) ← realloc generous p (5 * GB) s; Ret (q, effects, end_ (asShmemHeapRange s)))
  ⇓ (exampleBase, [Ftruncate (8 * GB); MmapFixed (exampleBase + 4 * GB) (4 * GB) (4 * GB)], exampleBase + 4 * GB).
Proof. by vm_compute. Qed.

(** What a shrunk block gives back is never available again for large blocks: an empty heap
    refuses a block of half its size. *)
Lemma shrunk_space_is_lost :
  ('(p, _, s) ← malloc generous false (3 * GB) exampleHeap; '(_, _, s) ← realloc generous p 4096 s; '(_, s) ← free_ p s;
   '(q, effects, s) ← malloc generous false (2 * GB) s; Ret (q, effects, blocks s)) ⇓ (0x1000, [OriginalMalloc (2 * GB)], []).
Proof. by vm_compute. Qed.

(** With a threshold of 0 from the environment an empty allocation stops the process. *)
Lemma empty_block_aborts : malloc generous false 0 (mkGlobal 0 (asShmemHeapRange exampleHeap) (rangeAllocator exampleHeap) initialCapacity createEmpty) = Abort.
Proof. by vm_compute. Qed.

(** A heap that the service has denied still counts as sharable, and its bytes get addresses
    that mean nothing in the service. *)
Lemma denied_heap_is_sharable :
  let e := importAnswer false 0 (newExporter exampleHeap) in
  isRegionSharable e (exampleBase + 0x1000) 64 ⇓ true /\ getRemoteAddress e (exampleBase + 0x1000) ⇓ 0xfff.
Proof. by vm_compute. Qed.
