(* ===== verification/ClientPlatform.v ===== *)
(** What the client knows about addresses (client/client_platform.h): the registries of
    allocations that it shares with the service, of device memory with addresses that the
    application could reach, and of global variables of modules; the tests on pointers that
    the API functions are chosen by; and the functions that allocate and free the memory
    (client/icd/level_zero/api_customization/icd_level_zero_api_memory.cpp,
    client/icd/icd_ocl.cpp).

    The protection of pages, which PageFaults.v looks after, and the mappings are kept as two
    views of the memory of the process. *)

From stdpp Require Import gmap strings.
From S2P Require Import Prelude.
From S2P Require Import Align.
From S2P Require Import FlatMap.
From S2P Require Import Ranges.
From S2P Require Import Kernel.
From S2P Require Import SubAlloc.
From S2P Require Import Shmem.
From S2P Require Import ClientContext.
From S2P Require Import PageFaults.
From S2P Require Import MallocOverride.
Local Open Scope Z_scope.

(** * Addresses *)

(** [CpuInfo::isAccessibleByApplication], for [virtual_] bits of virtual addresses; they are
    0 when /proc/cpuinfo could not be read, and the shift is undefined. *)
Definition isAccessibleByApplication (virtual_ va : Z) : res bool :=
  let bits := u32 (virtual_ - 1) in
  if 64 <=? bits then Undef
  else
    let mask := Z.lnot (2 ^ bits - 1) in
    Ret (Z.land va mask =? 0).

(** * The platform *)

Record UsmSharedHostAlloc := mkUsmAlloc { ua_ctx : Z; ua_ptr : Z; alignedSize : Z; ua_shmem : MmappedShmemSubAllocation }.

Record IcdPlatform := mkPlatform {
  initialUsmHeap : AddressRange;
  cpuVirtualBits : Z;
  userModeAccessibleUsmDeviceAddresses : list (Z * Z);
  globalPointers : gmap Z (list Z);
  usmAllocs : gmap Z UsmSharedHostAlloc;
}.

Definition set_devices (p : IcdPlatform) (l : list (Z * Z)) : IcdPlatform :=
  mkPlatform (initialUsmHeap p) (cpuVirtualBits p) l (globalPointers p) (usmAllocs p).
Definition set_globals (p : IcdPlatform) (g : gmap Z (list Z)) : IcdPlatform :=
  mkPlatform (initialUsmHeap p) (cpuVirtualBits p) (userModeAccessibleUsmDeviceAddresses p) g (usmAllocs p).
Definition set_usmAllocs (p : IcdPlatform) (m : gmap Z UsmSharedHostAlloc) : IcdPlatform :=
  mkPlatform (initialUsmHeap p) (cpuVirtualBits p) (userModeAccessibleUsmDeviceAddresses p) (globalPointers p) m.

Definition isAccessible (p : IcdPlatform) (va : Z) : res bool := isAccessibleByApplication (cpuVirtualBits p) va.

(** ** Device memory *)

(** The address that the caller gets. *)
Definition validateNewUsmDevicePointer (p : IcdPlatform) (newUsmAlloc allocationSize : Z) : res (Z * IcdPlatform) :=
  if newUsmAlloc =? 0 then Ret (newUsmAlloc, p)
  else
    accessible ← isAccessible p newUsmAlloc;
    if accessible : bool then
      match fm_find (userModeAccessibleUsmDeviceAddresses p) newUsmAlloc with
      | Some _ => Ret (0, p)
      | None => Ret (newUsmAlloc, set_devices p (fm_emplace (userModeAccessibleUsmDeviceAddresses p) newUsmAlloc (u64 (newUsmAlloc + allocationSize))))
      end
    else Ret (newUsmAlloc, p).

(** [std::map::lower_bound]: the position of the first key that is not less. *)
Fixpoint lowerBound (m : list (Z * Z)) (k : Z) : nat :=
  match m with
  | [] => O
  | (k', _) :: m => if k' <? k then S (lowerBound m k) else O
  end.

Definition getUserModeAccessibleUsmDeviceRangeFromMap (p : IcdPlatform) (usmPtr : Z) : option (Z * Z) :=
  let m := userModeAccessibleUsmDeviceAddresses p in
  let rangeIt := lowerBound m usmPtr in
  let exact := match m !! rangeIt with Some (k, _) => k =? usmPtr | None => false end in
  let candidate := if exact then m !! rangeIt else match rangeIt with O => None | S i => m !! i end in
  match candidate with
  | Some (rangeBegin, rangeEnd) => if (rangeBegin <=? usmPtr) && (usmPtr <? rangeEnd) then Some (rangeBegin, rangeEnd) else None
  | None => None
  end.

(** ** Global variables of modules and programs *)

Definition recordGlobalPointer (p : IcdPlatform) (handle ptr : Z) : bool * IcdPlatform :=
  if (handle =? 0) || (ptr =? 0) then (false, p)
  else
    let pointers := default [] (globalPointers p !! handle) in
    (true, set_globals p (<[handle := if bool_decide (ptr ∈ pointers) then pointers else pointers ++ [ptr]]> (globalPointers p))).

Definition removeGlobalPointers (p : IcdPlatform) (handle : Z) : IcdPlatform := set_globals p (delete handle (globalPointers p)).

Definition isGlobalPointer (p : IcdPlatform) (usmPtr : Z) : bool :=
  existsb (fun e : Z * list Z => bool_decide (usmPtr ∈ e.2)) (map_to_list (globalPointers p)).

(** ** Tests on pointers *)

Definition isDeviceUsm (p : IcdPlatform) (usmPtr : Z) : res bool :=
  accessible ← isAccessible p usmPtr;
  if negb accessible then Ret true
  else if isGlobalPointer p usmPtr then Ret true
  else Ret (bool_decide (is_Some (getUserModeAccessibleUsmDeviceRangeFromMap p usmPtr))).

Definition isUsmHostOrShared (p : IcdPlatform) (ptr : Z) : res bool := containsPtr (initialUsmHeap p) ptr.

(** The first loop of [areUsm]: pointers with what is known of each of them. *)
Fixpoint markDeviceUsm (p : IcdPlatform) (l : list (Z * bool)) : res (bool * list (Z * bool)) :=
  match l with
  | [] => Ret (true, [])
  | (ptr, result) :: l =>
      device ← (if ptr =? 0 then Ret false else isDeviceUsm p ptr);
      '(allDeviceUsm, l) ← markDeviceUsm p l;
      Ret ((device : bool) && allDeviceUsm, (ptr, (device : bool) || result) :: l)
  end.

(** The second loop. *)
Fixpoint markHeapUsm (p : IcdPlatform) (l : list (Z * bool)) : res (bool * list (Z * bool)) :=
  match l with
  | [] => Ret (true, [])
  | (ptr, result) :: l =>
      inHeap ← (if result : bool then Ret true else containsPtr (initialUsmHeap p) ptr);
      '(allUsm, l) ← markHeapUsm p l;
      Ret ((inHeap : bool) && allUsm, (ptr, (inHeap : bool) || result) :: l)
  end.

(** [l]: the pointers, with what the caller's [result] holds before and after. *)
Definition areUsm (p : IcdPlatform) (l : list (Z * bool)) : res (bool * list (Z * bool)) :=
  '(allDeviceUsm, l) ← markDeviceUsm p l;
  if allDeviceUsm : bool then Ret (true, l) else markHeapUsm p l.

Definition isUsm (p : IcdPlatform) (ptr : Z) : res bool :=
  '(usm, _) ← areUsm p [(ptr, false)]; Ret usm.

Inductive PointerType := local | shared | usm.

#[export] Instance PointerType_eq_dec : EqDecision PointerType.
Proof. solve_decision. Defined.

(** [isRegionSharable] of the 8 bytes at the pointer. *)
Definition getPointerType (e : MallocShmemExporter) (p : IcdPlatform) (ptr : Z) : res PointerType :=
  sharable ← isRegionSharable e ptr 8;
  if (sharable : bool) || (ptr =? 0) then Ret shared
  else
    u ← isUsm p ptr;
    Ret (if u : bool then usm else local).

(** [arePointersUsm] of icd_level_zero_api_command_list.cpp *)
Definition arePointersUsm (p : IcdPlatform) (dstptr srcptr : Z) : res (bool * bool) :=
  '(_, testResults) ← areUsm p [(dstptr, false); (srcptr, false)];
  match testResults with
  | [(_, dst); (_, src)] => Ret (dst, src)
  | _ => Undef
  end.

(** * Allocation and release

    The platform with the importer of shared memory, the page fault manager and the memory
    that it protects, and the addresses that the service was asked to free. *)

Section client.
Context {K P : Type} `{Kernel K} `{PageProtection P}.

Record Client := mkClient {
  platform : IcdPlatform; usmImporter : ShmemImporter; kern : K; faults : PageFaultManager * P; freed : list Z }.

Definition set_platform (c : Client) (p : IcdPlatform) : Client := mkClient p (usmImporter c) (kern c) (faults c) (freed c).
Definition set_faults (c : Client) (f : PageFaultManager * P) : Client := mkClient (platform c) (usmImporter c) (kern c) f (freed c).
Definition set_freed (c : Client) (l : list Z) : Client := mkClient (platform c) (usmImporter c) (kern c) (faults c) l.

Definition openNewUsmHostOrSharedPointer (c : Client) (ctx assignedUsmPtr shmemResource offsetWithinResource size : Z) : res (bool * Client) :=
  if assignedUsmPtr =? 0 then Ret (true, c)
  else
    inHeap ← containsPtr (initialUsmHeap (platform c)) assignedUsmPtr;
    if inHeap : bool then
      let '(shmem, im, k) := usm_open (kern c) (usmImporter c) shmemResource offsetWithinResource size assignedUsmPtr in
      let c := mkClient (platform c) im k (faults c) (freed c) in
      if negb (isValid shmem) then Ret (false, c)
      else Ret (true, set_platform c (set_usmAllocs (platform c) (<[assignedUsmPtr := mkUsmAlloc ctx assignedUsmPtr size shmem]> (usmAllocs (platform c)))))
    else Ret (false, c).

Definition destroyUsmDescriptor (c : Client) (usmPtr : Z) : res Client :=
  if usmPtr =? 0 then Ret c
  else
    accessible ← isAccessible (platform c) usmPtr;
    if negb accessible then Ret c
    else
      match getUserModeAccessibleUsmDeviceRangeFromMap (platform c) usmPtr with
      | Some (rangeBegin, _) =>
          Ret (set_platform c (set_devices (platform c) (fm_erase (userModeAccessibleUsmDeviceAddresses (platform c)) rangeBegin)))
      | None =>
          match usmAllocs (platform c) !! usmPtr with
          | None => Ret c
          | Some descriptor =>
              let (im, k) := usm_release (kern c) (usmImporter c) (ua_shmem descriptor) in
              Ret (mkClient (set_usmAllocs (platform c) (delete usmPtr (usmAllocs (platform c)))) im k (faults c) (freed c))
          end
      end.

(** ** Level Zero

    An RPC is represented by what the service answers.  The caches that the functions for
    freeing invalidate are those of KernelArgs.v and of the properties of allocations. *)

Definition ZE_RESULT_ERROR_INVALID_ARGUMENT : Z := 0x78000004.

Definition ZE_DEVICE_MEM_ALLOC_FLAG_BIAS_INITIAL_PLACEMENT : Z := Z.shiftl 1 2.
Definition ZE_HOST_MEM_ALLOC_FLAG_BIAS_INITIAL_PLACEMENT : Z := Z.shiftl 1 3.

Definition has_flag (flags f : Z) : bool := negb (Z.land flags f =? 0).

(** The flags of the descriptors; a null descriptor is dereferenced. *)
Definition getSharedAllocationPlacement (deviceDesc hostDesc : option Z) : res Placement :=
  match deviceDesc, hostDesc with
  | Some deviceFlags, Some hostFlags =>
      let placement := if has_flag deviceFlags ZE_DEVICE_MEM_ALLOC_FLAG_BIAS_INITIAL_PLACEMENT then DEVICE else HOST in
      Ret (if has_flag hostFlags ZE_HOST_MEM_ALLOC_FLAG_BIAS_INITIAL_PLACEMENT then HOST else placement)
  | _, _ => Undef
  end.

(** The answer to an allocation: the result, the address and the file that it is in. *)
Record AllocAnswer := mkAnswer { an_ret : Z; an_ptr : Z; shmem_resource : Z; offset_within_resource : Z; aligned_size : Z }.

Definition openAnswer (c : Client) (ctx : Z) (a : AllocAnswer) : res (bool * Client) :=
  openNewUsmHostOrSharedPointer c ctx (an_ptr a) (shmem_resource a) (offset_within_resource a) (aligned_size a).

(** [zeMemAllocDevice], from the answer on: the result and the address that is stored. *)
Definition zeMemAllocDevice (c : Client) (ret ptr size : Z) : res (Z * Z * Client) :=
  '(ptr, p) ← validateNewUsmDevicePointer (platform c) ptr size;
  Ret (ret, ptr, set_platform c p).

Definition zeMemFree (c : Client) (ptr : Z) : res Client :=
  let c := set_faults c (unregisterSharedAlloc (faults c) ptr) in
  c ← destroyUsmDescriptor c ptr;
  Ret (set_freed c (freed c ++ [ptr])).

Definition zeMemAllocHost (c : Client) (hContext : Z) (a : AllocAnswer) : res (Z * Z * Client) :=
  if negb (an_ret a =? ZE_RESULT_SUCCESS) then Ret (an_ret a, an_ptr a, c)
  else
    '(opened, c) ← openAnswer c hContext a;
    if negb opened then c ← zeMemFree c (an_ptr a); Ret (an_ret a, 0, c)
    else Ret (an_ret a, an_ptr a, c).

(** Without shared allocations the host's function is called, with its own answer. *)
Definition zeMemAllocShared (c : Client) (hContext : Z) (device_desc host_desc : option Z) (size : Z) (a : AllocAnswer) : res (Z * Z * Client) :=
  if negb (sharedAllocationsEnabled (fst (faults c))) then zeMemAllocHost c hContext a
  else if negb (an_ret a =? ZE_RESULT_SUCCESS) then Ret (an_ret a, an_ptr a, c)
  else
    '(opened, c) ← openAnswer c hContext a;
    if negb opened then c ← zeMemFree c (an_ptr a); Ret (an_ret a, 0, c)
    else
      placement ← getSharedAllocationPlacement device_desc host_desc;
      Ret (an_ret a, an_ptr a, set_faults c (registerSharedAlloc (faults c) (an_ptr a) size placement)).

(** [zeModuleGetGlobalPointer], from the answer on, with the address that is stored. *)
Definition zeModuleGetGlobalPointer (c : Client) (hModule ret : Z) (pptr : option Z) : Z * Client :=
  match pptr with
  | Some ptr =>
      let (recorded, p) := recordGlobalPointer (platform c) hModule ptr in
      (if recorded : bool then ret else ZE_RESULT_ERROR_INVALID_ARGUMENT, set_platform c p)
  | None => (ret, c)
  end.

(** The effect of [zeModuleDestroy]: [prevRefCount] is what the module's count was. *)
Definition zeModuleDestroy (c : Client) (hModule prevRefCount : Z) : Client :=
  if prevRefCount =? 1 then set_platform c (removeGlobalPointers (platform c) hModule) else c.

(** ** OpenCL *)

Definition CL_MEM_ALLOC_FLAGS_INTEL : Z := 0x4195.
Definition CL_MEM_ALLOC_INITIAL_PLACEMENT_DEVICE_INTEL : Z := 2.
Definition CL_MEM_ALLOC_INITIAL_PLACEMENT_HOST_INTEL : Z := 4.
Definition CL_OUT_OF_HOST_MEMORY : Z := -6.

(** The loop over the list of properties, which ends with 0; past its end the behaviour is
    undefined. *)
Fixpoint placementOfProperties (properties : list Z) : res Placement :=
  match properties with
  | [] => Undef
  | name :: properties =>
      if name =? 0 then Ret HOST
      else
        match properties with
        | [] => Undef
        | allocflags :: properties =>
            if name =? CL_MEM_ALLOC_FLAGS_INTEL then
              let placement := if has_flag allocflags CL_MEM_ALLOC_INITIAL_PLACEMENT_DEVICE_INTEL then DEVICE else HOST in
              Ret (if has_flag allocflags CL_MEM_ALLOC_INITIAL_PLACEMENT_HOST_INTEL then HOST else placement)
            else placementOfProperties properties
        end
  end.

Definition getClAllocationPlacement (properties : option (list Z)) : res Placement :=
  match properties with None => Ret HOST | Some l => placementOfProperties l end.

Definition clMemFreeINTEL (c : Client) (ptr : Z) : res Client :=
  let c := set_faults c (unregisterSharedAlloc (faults c) ptr) in
  c ← destroyUsmDescriptor c ptr;
  Ret (set_freed c (freed c ++ [ptr])).

Definition clMemBlockingFreeINTEL (c : Client) (ptr : Z) : res Client :=
  c ← destroyUsmDescriptor c ptr;
  Ret (set_freed c (freed c ++ [ptr])).

Definition clSVMFree (c : Client) (ptr : Z) : res Client :=
  let c := set_faults c (unregisterSharedAlloc (faults c) ptr) in
  c ← destroyUsmDescriptor c ptr;
  Ret (set_freed c (freed c ++ [ptr])).

(** The results are the address and what is stored in [errcode_ret] beside the answer
    ([None]: nothing). *)
Definition clHostMemAllocINTEL (c : Client) (context : Z) (a : AllocAnswer) : res (Z * option Z * Client) :=
  if an_ptr a =? 0 then Ret (0, None, c)
  else
    '(opened, c) ← openAnswer c context a;
    if negb opened then c ← clMemFreeINTEL c (an_ptr a); Ret (0, Some CL_OUT_OF_HOST_MEMORY, c)
    else Ret (an_ptr a, None, c).

Definition clSharedMemAllocINTEL (c : Client) (context : Z) (properties : option (list Z)) (size : Z) (a : AllocAnswer) : res (Z * option Z * Client) :=
  if negb (sharedAllocationsEnabled (fst (faults c))) then clHostMemAllocINTEL c context a
  else if an_ptr a =? 0 then Ret (0, None, c)
  else
    '(opened, c) ← openAnswer c context a;
    if negb opened then c ← clMemFreeINTEL c (an_ptr a); Ret (0, Some CL_OUT_OF_HOST_MEMORY, c)
    else
      placement ← getClAllocationPlacement properties;
      Ret (an_ptr a, None, set_faults c (registerSharedAlloc (faults c) (an_ptr a) size placement)).

(** A null pointer is registered too, when the file could not be opened. *)
Definition clSVMAlloc (c : Client) (context size : Z) (a : AllocAnswer) : res (Z * Client) :=
  if an_ptr a =? 0 then Ret (0, c)
  else
    '(opened, c) ← openAnswer c context a;
    '(ptr, c) ← (if negb opened then c ← clMemFreeINTEL c (an_ptr a); Ret (0, c) else Ret (an_ptr a, c));
    Ret (ptr, set_faults c (registerSharedAlloc (faults c) ptr size HOST)).

Definition clDeviceMemAllocINTEL (c : Client) (ret size : Z) : res (Z * Client) :=
  '(ret, p) ← validateNewUsmDevicePointer (platform c) ret size;
  Ret (ret, set_platform c p).

End client.
Arguments Client : clear implicits.

(** * Which addresses are unified shared memory *)

(** Registered device memory: ranges in order, none empty, none overlapping. *)
Record devices_ok (m : list (Z * Z)) : Prop := {
  dev_sorted : fm_sorted m;
  dev_nonempty : forall b e, (b, e) ∈ m -> b < e;
  dev_apart : forall b e b' e', (b, e) ∈ m -> (b', e') ∈ m -> b < b' -> e <= b';
}.

Record platform_ok (p : IcdPlatform) : Prop := {
  plat_bits : 1 <= cpuVirtualBits p <= 64;
  plat_heap : 0 < start (initialUsmHeap p) <= end_ (initialUsmHeap p) /\ end_ (initialUsmHeap p) < W64;
  plat_devices : devices_ok (userModeAccessibleUsmDeviceAddresses p);
}.

(** Memory of a device: out of the application's reach, a global variable, or inside a
    registered range. *)
Definition device_usm (p : IcdPlatform) (a : Z) : Prop :=
  2 ^ (cpuVirtualBits p - 1) <= a \/
  (exists handle l, globalPointers p !! handle = Some l /\ a ∈ l) \/
  (exists b e, (b, e) ∈ userModeAccessibleUsmDeviceAddresses p /\ b <= a < e).

Definition heap_usm (p : IcdPlatform) (a : Z) : Prop := start (initialUsmHeap p) <= a < end_ (initialUsmHeap p).

Definition usm_memory (p : IcdPlatform) (a : Z) : Prop := (a <> 0 /\ device_usm p a) \/ heap_usm p a.

(** ** Lemmas *)

Lemma accessible_below bits va : 1 <= bits <= 64 -> is_u64 va -> isAccessibleByApplication bits va ⇓ (va <? 2 ^ (bits - 1)).
Proof.
  intros Hb Hv. unfold isAccessibleByApplication. rewrite u32_id by (unfold is_u32; lia).
  rewrite (proj2 (Z.leb_gt 64 (bits - 1))) by lia. f_equal. rewrite land_high_mask by lia.
  assert (Hpos : 0 < 2 ^ (bits - 1)) by (apply Z.pow_pos_nonneg; lia). unfold is_u64 in Hv.
  destruct (Z.ltb_spec va (2 ^ (bits - 1))) as [Hlt|Hge]; [apply Z.eqb_eq|apply Z.eqb_neq].
  - rewrite Z.mod_small; lia.
  - pose proof (Z.mod_pos_bound va (2 ^ (bits - 1)) Hpos). lia.
Qed.

Lemma containsPtr_iff r a : 0 <= start r -> end_ r < W64 -> is_u64 a ->
  containsPtr r a ⇓ ((start r <=? a) && (a <? end_ r)).
Proof.
  intros Hs He Ha. unfold containsPtr, rangeOfPtr. rewrite makeRange_ok by (unfold is_u64 in Ha; solve_word). cbn [mbind res_bind].
  f_equal. unfold contains. cbn [start end_]. destruct (start r <=? a); [|done]. cbn [andb]. destruct (Z.ltb_spec a (end_ r)) as [Hlt|]; [|done].
  cbn [andb]. apply Z.leb_le. unfold is_u64 in Ha. solve_word.
Qed.

(** The entries before the lower bound are less; it is exact, or all others are greater. *)
Lemma lowerBound_parts m k : fm_sorted m -> exists l1 l2, m = l1 ++ l2 /\ length l1 = lowerBound m k /\
  Forall (fun e => fst e < k) l1 /\ ((exists v l, l2 = (k, v) :: l) \/ Forall (fun e => k < fst e) l2).
Proof.
  induction 1 as [|k' v m Hall Hs (l1 & l2 & -> & Hl & H1 & H2)]; cbn [lowerBound].
  { exists [], []. repeat split; [constructor|]. right. constructor. }
  destruct (Z.ltb_spec k' k) as [Hlt|Hge].
  - exists ((k', v) :: l1), l2. split; [done|]. split; [cbn; lia|]. split; [by constructor|done].
  - exists [], ((k', v) :: l1 ++ l2). split; [done|]. split; [done|]. split; [constructor|].
    destruct (decide (k' = k)) as [->|Hne]; [left; by do 2 eexists|right]. constructor; [cbn; lia|].
    eapply Forall_impl; [exact Hall|]. cbn. lia.
Qed.

(** Of the entries that begin at or before an address, only the last can contain it. *)
Lemma last_candidate m a cb ce b e : devices_ok m -> (cb, ce) ∈ m -> cb <= a ->
  (forall x, x ∈ m -> fst x <= a -> fst x <= cb) ->
  (if (cb <=? a) && (a <? ce) then Some (cb, ce) else None) = Some (b, e) <-> (b, e) ∈ m /\ b <= a < e.
Proof.
  intros [Hs Hne Hap] Hc Hle Hmax. split.
  - destruct (_ && _) eqn:E; [|done]. intros [= <- <-]. bool_prop. done.
  - intros [Hbe Ha]. pose proof (Hmax _ Hbe ltac:(cbn; lia)) as Hbc. cbn in Hbc.
    assert (cb = b) as -> by (destruct (Z_lt_dec b cb) as [Hlt|]; [pose proof (Hap _ _ _ _ Hbe Hc Hlt)|]; lia).
    assert (ce = e) as -> by (apply fm_find_elem in Hbe, Hc; [congruence|done..]).
    by rewrite (proj2 (Z.leb_le b a)), (proj2 (Z.ltb_lt a e)) by lia.
Qed.

(** The ordered search finds the range that contains the address. *)
Lemma range_from_map_iff p a b e : devices_ok (userModeAccessibleUsmDeviceAddresses p) ->
  getUserModeAccessibleUsmDeviceRangeFromMap p a = Some (b, e) <->
  (b, e) ∈ userModeAccessibleUsmDeviceAddresses p /\ b <= a < e.
Proof.
  intros Hok. unfold getUserModeAccessibleUsmDeviceRangeFromMap.
  destruct (lowerBound_parts _ a (dev_sorted _ Hok)) as (l1 & l2 & Hm & Hl & H1 & H2). rewrite <- Hl. rewrite Hm in *. clear Hm Hl.
  rewrite Forall_forall in H1. rewrite lookup_app_r, Nat.sub_diag by lia. destruct H2 as [(v & l & ->)|H2].
  { cbn [lookup list_lookup]. rewrite Z.eqb_refl. apply last_candidate; [done|set_solver|done|done]. }
  rewrite Forall_forall in H2.
  assert (E : match l2 !! 0%nat with Some (k, _) => k =? a | None => false end = false).
  { destruct l2 as [|[k v] l2]; [done|]. cbn. apply Z.eqb_neq. specialize (H2 (k, v) ltac:(set_solver)). cbn in H2. lia. }
  rewrite E. clear E. destruct l1 as [|[cb ce] l1 _] using rev_ind; cbn [length].
  - split; [done|]. intros [Hbe Ha]. specialize (H2 _ Hbe). cbn in H2. lia.
  - rewrite length_app, Nat.add_1_r. rewrite lookup_app_l by (rewrite length_app; cbn; lia).
    rewrite lookup_app_r, Nat.sub_diag by lia. cbn [lookup list_lookup].
    pose proof (H1 (cb, ce) ltac:(set_solver)) as Hcb. cbn in Hcb. apply last_candidate; [done|set_solver|lia|].
    intros [k v] [[Hx| ->%list_elem_of_singleton]%elem_of_app|Hx]%elem_of_app Hk; cbn in *.
    + destruct (Z_lt_dec cb k) as [Hlt|]; [|lia]. exfalso. revert Hlt Hx. clear -Hok. destruct Hok as [Hs _ _]. revert Hs.
      rewrite <- app_assoc. induction l1 as [|[j w] l1 IH]; cbn; intros Hs Hlt Hx; [by apply elem_of_nil in Hx|].
      inversion Hs as [|? ? ? Hall Hs']; subst. apply elem_of_cons in Hx as [[= <- <-]|Hx]; [|by apply IH].
      rewrite Forall_app, Forall_cons in Hall. cbn in Hall. lia.
    + lia.
    + specialize (H2 _ Hx). cbn in H2. lia.
Qed.

Lemma isGlobalPointer_iff p a : isGlobalPointer p a = true <-> exists handle l, globalPointers p !! handle = Some l /\ a ∈ l.
Proof.
  unfold isGlobalPointer. rewrite existsb_exists. split.
  - intros ([h l] & Hin%list_elem_of_In%elem_of_map_to_list & Ha%bool_decide_eq_true). by exists h, l.
  - intros (h & l & Hh & Ha). exists (h, l). split; [by apply list_elem_of_In, elem_of_map_to_list|by apply bool_decide_eq_true].
Qed.

Lemma isDeviceUsm_iff p a : platform_ok p -> is_u64 a -> exists r, isDeviceUsm p a ⇓ r /\ (r = true <-> device_usm p a).
Proof.
  intros [Hb _ Hd] Ha. unfold isDeviceUsm, isAccessible. rewrite accessible_below by done. cbn [mbind res_bind]. unfold device_usm.
  destruct (Z.ltb_spec a (2 ^ (cpuVirtualBits p - 1))) as [Hlt|Hge]; cbn [negb].
  2: { exists true. split; [done|]. split; [by left|done]. }
  destruct (isGlobalPointer p a) eqn:Eg.
  { exists true. split; [done|]. split; [|done]. intros _. right. left. by apply isGlobalPointer_iff. }
  eexists. split; [done|]. rewrite bool_decide_eq_true. split.
  - intros [[b e] Hr]. apply range_from_map_iff in Hr; [|done]. right. right. by exists b, e.
  - intros [Hx|[Hx|(b & e & Hx)]]; [lia| |].
    + apply isGlobalPointer_iff in Hx. congruence.
    + exists (b, e). by apply range_from_map_iff.
Qed.

Lemma inHeap_iff p a : platform_ok p -> is_u64 a -> exists r, containsPtr (initialUsmHeap p) a ⇓ r /\ (r = true <-> heap_usm p a).
Proof.
  intros [_ Hh _] Ha. eexists. split; [apply containsPtr_iff; lia || done|]. unfold heap_usm. rewrite andb_true_iff, Z.leb_le, Z.ltb_lt. done.
Qed.

(** What the loops of [areUsm] make of the pointers and their marks. *)
Lemma markDeviceUsm_iff p ptrs : platform_ok p -> Forall is_u64 ptrs ->
  exists r l, markDeviceUsm p (map (fun a => (a, false)) ptrs) ⇓ (r, l) /\
    (r = true <-> Forall (fun a => a <> 0 /\ device_usm p a) ptrs) /\
    Forall2 (fun a x => fst x = a /\ (snd x = true <-> a <> 0 /\ device_usm p a)) ptrs l.
Proof.
  intros Hp. induction 1 as [|a ptrs Ha Hptrs IH]; [by exists true, []|].
  destruct IH as (r & l & Hm & Hr & Hl). cbn [map markDeviceUsm].
  assert (Hd : exists d, (if a =? 0 then Ret false else isDeviceUsm p a) ⇓ d /\ (d = true <-> a <> 0 /\ device_usm p a)).
  { destruct (Z.eqb_spec a 0) as [->|Hne]; [exists false; split; [done|]; naive_solver|].
    destruct (isDeviceUsm_iff p a Hp Ha) as (d & Hd & Hi). exists d. split; [done|]. rewrite Hi. naive_solver. }
  destruct Hd as (d & -> & Hd). cbn [mbind res_bind]. rewrite Hm. cbn [mbind res_bind].
  exists (d && r), ((a, d || false) :: l). split; [done|]. rewrite andb_true_iff, Forall_cons, Hd, Hr, orb_false_r. split; [done|].
  by constructor.
Qed.

Lemma markHeapUsm_iff p ptrs l : platform_ok p -> Forall is_u64 ptrs ->
  Forall2 (fun a x => fst x = a /\ (snd x = true <-> a <> 0 /\ device_usm p a)) ptrs l ->
  exists r l', markHeapUsm p l ⇓ (r, l') /\ (r = true <-> Forall (usm_memory p) ptrs) /\
    Forall2 (fun a x => fst x = a /\ (snd x = true <-> usm_memory p a)) ptrs l'.
Proof.
  intros Hp Hptrs Hl. induction Hl as [|? [z mark] ptrs l [<- Hmark] Hl IH]; [by exists true, []|].
  apply Forall_cons in Hptrs as [Ha Hrest]. cbn [fst snd] in *. destruct (IH Hrest) as (r & l' & Hm & Hr & Hl').
  cbn [markHeapUsm]. assert (Hd : exists d, (if mark then Ret true else containsPtr (initialUsmHeap p) z) ⇓ d /\ (d || mark = true <-> usm_memory p z) /\ (d = true <-> usm_memory p z)).
  { unfold usm_memory. destruct mark; [exists true; split; [done|]; naive_solver|].
    destruct (inHeap_iff p z Hp Ha) as (d & Hd & Hi). exists d. split; [done|]. rewrite orb_false_r, Hi. naive_solver. }
  destruct Hd as (d & -> & Hdm & Hd). cbn [mbind res_bind]. rewrite Hm. cbn [mbind res_bind].
  exists (d && r), ((z, d || mark) :: l'). split; [done|]. rewrite andb_true_iff, Forall_cons, Hd, Hr. split; [done|]. by constructor.
Qed.

(** ** The tests are exact *)

(** C36: [areUsm] answers whether all pointers are unified shared memory and marks exactly those
    that are; [getPointerType] tells shared memory of malloc and null from unified shared
    memory and from private pages. *)
Theorem pointers_are_classified p ptrs : platform_ok p -> Forall is_u64 ptrs ->
  (exists r l, areUsm p (map (fun a => (a, false)) ptrs) ⇓ (r, l) /\
     (r = true <-> Forall (usm_memory p) ptrs) /\
     Forall2 (fun a x => fst x = a /\ (snd x = true <-> usm_memory p a)) ptrs l) /\
  (forall e a, is_u64 a -> exists t, getPointerType e p a ⇓ t /\
     (t = shared <-> a = 0 \/ isRegionSharable e a 8 ⇓ true) /\
     (t = usm <-> a <> 0 /\ ~ isRegionSharable e a 8 ⇓ true /\ usm_memory p a)).
Proof.
  intros Hp Hptrs. assert (Hare : forall ptrs, Forall is_u64 ptrs -> exists r l, areUsm p (map (fun a => (a, false)) ptrs) ⇓ (r, l) /\
     (r = true <-> Forall (usm_memory p) ptrs) /\
     Forall2 (fun a x => fst x = a /\ (snd x = true <-> usm_memory p a)) ptrs l).
  { clear ptrs Hptrs. intros ptrs Hptrs. unfold areUsm. destruct (markDeviceUsm_iff p ptrs Hp Hptrs) as (r & l & -> & Hr & Hl). cbn [mbind res_bind].
    destruct r; [|by apply markHeapUsm_iff]. assert (Hall := proj1 Hr eq_refl). exists true, l. split; [done|]. split.
    - split; [|done]. intros _. eapply Forall_impl; [exact Hall|]. by left.
    - clear -Hl Hall. induction Hl as [|a x ptrs l [H1 H2] Hl IH]; [done|]. inversion Hall; subst. constructor; [|by apply IH].
      split; [done|]. rewrite H2. unfold usm_memory. naive_solver. }
  split; [by apply Hare|]. intros e a Ha. unfold getPointerType, isUsm.
  assert (Hsh : exists s, isRegionSharable e a 8 ⇓ s).
  { unfold isRegionSharable, rangeOfSize. rewrite makeRange_ok by (unfold is_u64 in Ha; solve_word). cbn [mbind res_bind]. by eexists. }
  destruct Hsh as [s ->]. cbn [mbind res_bind]. destruct (s || (a =? 0)) eqn:Es.
  - exists shared. split; [done|]. apply orb_true_iff in Es as [->|E%Z.eqb_eq]; naive_solver.
  - apply orb_false_iff in Es as [-> Hne%Z.eqb_neq]. destruct (Hare [a]) as (r & l & Hr & Hi & _); [by apply Forall_singleton|].
    cbn [map] in Hr. rewrite Hr. cbn [mbind res_bind]. rewrite Forall_singleton in Hi.
    destruct r; eexists; (split; [done|]); naive_solver.
Qed.

Definition exampleDevices : IcdPlatform :=
  mkPlatform (mkRange 0x100000 0x200000) 48 [(0x5000, 0x6000); (0x8000, 0x8100)] {[ 7 := [0x9000] ]} ∅.

Lemma exampleDevices_ok : platform_ok exampleDevices.
Proof.
  split; cbn; [lia|word_unfold; lia|]. split.
  - repeat constructor.
  - intros b e Hx. cbn in Hx. rewrite !elem_of_cons, elem_of_nil in Hx. destruct Hx as [[= -> ->]|[[= -> ->]|[]]]; lia.
  - intros b e b' e' Hx Hy. rewrite !elem_of_cons, elem_of_nil in Hx, Hy.
    destruct Hx as [[= -> ->]|[[= -> ->]|[]]], Hy as [[= -> ->]|[[= -> ->]|[]]]; lia.
Qed.

(** A pointer into the second range and one into the heap are; one between the ranges is not. *)
Lemma pointers_are_classified_witness :
  areUsm exampleDevices [(0x80ff, false); (0x100000, false)] ⇓ (true, [(0x80ff, true); (0x100000, true)]) /\
  areUsm exampleDevices [(0x9000, false); (0x7000, false)] ⇓ (false, [(0x9000, true); (0x7000, false)]).
Proof.
  destruct (pointers_are_classified exampleDevices [0x80ff; 0x100000] exampleDevices_ok
              ltac:(repeat constructor; done)) as [(r & l & Hr & _ & _) _].
  split; [|by vm_compute]. cbn [map] in Hr. rewrite Hr. vm_compute in Hr. by injection Hr as <- <-.
Defined.

(** * The registries follow the allocations *)

Section laws.
Context {K P : Type} `{KL : KernelLaws K} `{PL : PageProtectionLaws P}.
Abbreviation C := (Client K P).
Implicit Types (c : C).

(** The mappings of the registered allocations. *)
Definition live (p : IcdPlatform) : list MmappedShmemSubAllocation := map (fun e => ua_shmem (snd e)) (map_to_list (usmAllocs p)).

(** Every registered mapping has its file open and counted. *)
Record client_ok (c : C) : Prop := {
  cl_platform : platform_ok (platform c);
  cl_files : imp_ok (usmImporter c, live (platform c));
}.

(** ** Lemmas *)

Lemma live_at_cons s q a l : length (live_at s q (a :: l)) =
  ((if bool_decide (allocPath s a = q) then 1 else 0) + length (live_at s q l))%nat.
Proof. exact (live_at_app s q [] a l). Qed.

Lemma live_at_perm s q (l l' : list MmappedShmemSubAllocation) : l ≡ₚ l' -> length (live_at s q l) = length (live_at s q l').
Proof. induction 1; rewrite ?live_at_cons in *; lia. Qed.

Lemma imp_ok_perm s l l' : l ≡ₚ l' -> imp_ok (s, l) -> imp_ok (s, l').
Proof.
  intros Hp [Hl Hc]. split.
  - intros a Ha. apply Hl. by rewrite Hp.
  - intros q e He. rewrite <- (live_at_perm s q l l' Hp). by apply Hc.
Qed.

Lemma live_insert p k v : usmAllocs p !! k = None -> ua_shmem v :: live p ≡ₚ live (set_usmAllocs p (<[k := v]> (usmAllocs p))).
Proof. intros Hk. unfold live. cbn [set_usmAllocs usmAllocs]. by rewrite map_to_list_insert. Qed.

Lemma live_delete p k v : usmAllocs p !! k = Some v -> live p ≡ₚ ua_shmem v :: live (set_usmAllocs p (delete k (usmAllocs p))).
Proof. intros Hk. unfold live. cbn [set_usmAllocs usmAllocs]. by rewrite <- (map_to_list_delete _ _ _ Hk). Qed.

(** A valid mapping is somewhere. *)
Lemma valid_mapped (a : MmappedShmemSubAllocation) : isValid a = true -> (mmappedPtr a =? 0) = false.
Proof. cbn. intros Hv. bool_prop. by apply Z.eqb_neq. Qed.

(** A mapping that nobody remembers keeps its file open. *)
Lemma imp_ok_drop s a l : imp_ok (s, a :: l) -> imp_ok (s, l).
Proof.
  intros [Hl Hc]. split; [intros b Hb; apply Hl; by right|]. intros q e He. specialize (Hc q e He). rewrite live_at_cons in Hc. lia.
Qed.

Lemma openNew_ok c ctx ptr id offset size : client_ok c -> is_u64 ptr -> usmAllocs (platform c) !! ptr = None ->
  exists r c', openNewUsmHostOrSharedPointer c ctx ptr id offset size ⇓ (r, c') /\ client_ok c' /\
    faults c' = faults c /\ freed c' = freed c /\
    (r = false -> platform c' = platform c) /\
    (r = true -> ptr <> 0 -> exists shmem, platform c' = set_usmAllocs (platform c) (<[ptr := mkUsmAlloc ctx ptr size shmem]> (usmAllocs (platform c))) /\
       heap_usm (platform c) ptr).
Proof.
  intros [Hp Hf] Hu Hfresh. unfold openNewUsmHostOrSharedPointer. destruct (Z.eqb_spec ptr 0) as [->|Hne]; [by exists true, c|].
  destruct (inHeap_iff (platform c) ptr Hp Hu) as (h & -> & Hh). cbn [mbind res_bind].
  destruct h; [|by exists false, c]. destruct (usm_open _ _ _ _ _ _) as [[a s'] k'] eqn:Ho.
  assert (Hi : imp_ok (s', if mmappedPtr a =? 0 then live (platform c) else a :: live (platform c))).
  { unfold usm_open in Ho. rewrite (proj2 (Z.eqb_neq ptr 0) Hne) in Ho. by eapply import_open_ok. }
  destruct (isValid a) eqn:Hv; cbn [negb].
  2: { exists false. eexists. split; [done|]. split; [|done]. split; [exact Hp|].
       cbn [platform usmImporter]. destruct (mmappedPtr a =? 0); [exact Hi|by eapply imp_ok_drop]. }
  rewrite (valid_mapped a Hv) in Hi.
  exists true. eexists. split; [done|]. split; [|split; [done|split; [done|split; [done|]]]].
  - split; cbn [platform usmImporter set_platform].
    + destruct Hp. by split.
    + eapply imp_ok_perm; [|exact Hi]. exact (live_insert (platform c) ptr (mkUsmAlloc ctx ptr size a) Hfresh).
  - intros _ _. exists a. split; [done|]. by apply Hh.
Qed.

Lemma devices_ok_erase m k : devices_ok m -> devices_ok (fm_erase m k).
Proof.
  intros [Hs Hne Hap]. split; [by apply fm_erase_sorted| |].
  - intros b e [Hin _]%elem_fm_erase. by apply Hne.
  - intros b e b' e' [Hin _]%elem_fm_erase [Hin' _]%elem_fm_erase. exact (Hap _ _ _ _ Hin Hin').
Qed.

Lemma destroy_ok c ptr : client_ok c -> is_u64 ptr ->
  exists c', destroyUsmDescriptor c ptr ⇓ c' /\ client_ok c' /\ faults c' = faults c /\ freed c' = freed c.
Proof.
  intros [Hp Hf] Hu. unfold destroyUsmDescriptor. destruct (ptr =? 0); [by exists c|].
  unfold isAccessible. rewrite accessible_below by (done || apply Hp). cbn [mbind res_bind]. destruct (ptr <? _); [|by exists c]. cbn [negb].
  destruct (getUserModeAccessibleUsmDeviceRangeFromMap (platform c) ptr) as [[b e]|].
  { eexists. split; [done|]. split; [|done]. split; [|done]. destruct Hp. split; [done..|]. by apply devices_ok_erase. }
  destruct (usmAllocs (platform c) !! ptr) as [d|] eqn:Hd; [|by exists c].
  destruct (usm_release (kern c) (usmImporter c) (ua_shmem d)) as [im k] eqn:Hr. eexists. split; [done|]. split; [|done].
  split; cbn [platform usmImporter]; [destruct Hp; by split|].
  pose proof (imp_step_ok (K := K) _ _ (imp_usm_released (kern c) k (usmImporter c) im [] (live (set_usmAllocs (platform c) (delete ptr (usmAllocs (platform c))))) _ Hr)) as Hst.
  apply Hst. cbn [app]. eapply imp_ok_perm; [|exact Hf]. by apply live_delete.
Qed.

Lemma zeMemFree_ok c ptr : client_ok c -> is_u64 ptr ->
  exists c', zeMemFree c ptr ⇓ c' /\ client_ok c' /\ faults c' = unregisterSharedAlloc (faults c) ptr /\ freed c' = freed c ++ [ptr].
Proof.
  intros [Hp Hf] Hu. unfold zeMemFree.
  destruct (destroy_ok (set_faults c (unregisterSharedAlloc (faults c) ptr)) ptr) as (c' & -> & [Hp' Hf'] & Hx & Hy); [by split|done|].
  cbn [mbind res_bind]. eexists. split; [done|]. split; [by split|]. cbn [faults freed set_freed]. by rewrite Hx, Hy.
Qed.

(** An answer of the service: an address that is not in use. *)
Definition answer_ok c (a : AllocAnswer) : Prop := is_u64 (an_ptr a) /\ usmAllocs (platform c) !! an_ptr a = None.

Lemma zeMemAllocHost_ok c ctx a : client_ok c -> answer_ok c a ->
  exists ret ptr c', zeMemAllocHost c ctx a ⇓ (ret, ptr, c') /\ client_ok c'.
Proof.
  intros Hc [Hu Hf]. unfold zeMemAllocHost. destruct (negb _); [by do 3 eexists|].
  destruct (openNew_ok c ctx (an_ptr a) (shmem_resource a) (offset_within_resource a) (aligned_size a) Hc Hu Hf) as (r & c1 & Ho & Hc1 & _).
  unfold openAnswer. rewrite Ho. cbn [mbind res_bind]. destruct r; cbn [negb]; [by do 3 eexists|].
  destruct (zeMemFree_ok c1 (an_ptr a) Hc1 Hu) as (c2 & -> & Hc2 & _). by do 3 eexists.
Qed.

(** ** Files of allocations stay open *)

(** Whatever the service answers with an address that is not in use, and whatever the
    application frees, the functions return and every registered mapping keeps its file
    open and counted. *)
Theorem allocations_keep_their_files c ctx a size deviceFlags hostFlags ptr : client_ok c -> answer_ok c a -> is_u64 ptr ->
  (exists ret p c', zeMemAllocHost c ctx a ⇓ (ret, p, c') /\ client_ok c') /\
  (exists ret p c', zeMemAllocShared c ctx (Some deviceFlags) (Some hostFlags) size a ⇓ (ret, p, c') /\ client_ok c') /\
  (exists p code c', clHostMemAllocINTEL c ctx a ⇓ (p, code, c') /\ client_ok c') /\
  (exists p c', clSVMAlloc c ctx size a ⇓ (p, c') /\ client_ok c') /\
  (exists c', zeMemFree c ptr ⇓ c' /\ client_ok c') /\
  (exists c', clMemBlockingFreeINTEL c ptr ⇓ c' /\ client_ok c').
Proof.
  intros Hc Ha Hp. pose proof Ha as [Hu Hf].
  destruct (openNew_ok c ctx (an_ptr a) (shmem_resource a) (offset_within_resource a) (aligned_size a) Hc Hu Hf) as (r & c1 & Ho & Hc1 & _).
  destruct (zeMemFree_ok c1 (an_ptr a) Hc1 Hu) as (c2 & Hfree & Hc2 & _).
  assert (Hcl : clMemFreeINTEL c1 (an_ptr a) ⇓ c2) by exact Hfree.
  split; [by apply zeMemAllocHost_ok|]. split; [|split; [|split; [|split]]].
  - unfold zeMemAllocShared. destruct (negb (sharedAllocationsEnabled _)); [by apply zeMemAllocHost_ok|].
    destruct (negb _); [by do 3 eexists|]. unfold openAnswer. rewrite Ho. cbn [mbind res_bind]. destruct r; cbn [negb].
    + do 3 eexists. split; [done|]. by destruct Hc1.
    + rewrite Hfree. by do 3 eexists.
  - unfold clHostMemAllocINTEL, openAnswer. destruct (an_ptr a =? 0); [by do 3 eexists|]. rewrite Ho. cbn [mbind res_bind].
    destruct r; cbn [negb]; [by do 3 eexists|]. rewrite Hcl. by do 3 eexists.
  - unfold clSVMAlloc, openAnswer. destruct (an_ptr a =? 0); [by do 2 eexists|]. rewrite Ho. cbn [mbind res_bind]. destruct r; cbn [negb].
    + do 2 eexists. split; [done|]. by destruct Hc1.
    + rewrite Hcl. do 2 eexists. split; [done|]. by destruct Hc2.
  - destruct (zeMemFree_ok c ptr Hc Hp) as (c' & Hr & Hc' & _). by exists c'.
  - destruct (destroy_ok c ptr Hc Hp) as (c' & Hd & [Hq Hg] & _). unfold clMemBlockingFreeINTEL. rewrite Hd. by eexists.
Qed.

(** ** Freeing undoes allocating *)

Lemma fm_erase_emplace {V} (m : list (Z * V)) k v : fm_sorted m -> fm_find m k = None -> fm_erase (fm_emplace m k v) k = m.
Proof.
  intros Hs Hf. unfold fm_emplace. rewrite Hf. unfold fm_erase. induction Hs as [|j w m Hall Hs IH]; cbn [fm_set fm_find] in *.
  - by rewrite filter_cons_False by (cbn; auto).
  - destruct (Z.eqb_spec j k) as [->|Hne]; [done|]. rewrite (proj2 (Z.eqb_neq k j)) by done. destruct (Z.ltb_spec k j) as [Hlt|Hge].
    + rewrite filter_cons_False by (cbn; auto). apply (fm_erase_absent ((j, w) :: m)). cbn [fm_find]. by rewrite (proj2 (Z.eqb_neq j k)).
    + rewrite filter_cons_True by (cbn; done). f_equal. by apply IH.
Qed.

(** A shared allocation of the service that is opened: its address is in the heap, out of
    the ranges of devices, and its pages are in no other shared allocation. *)
Record opens_shared c (ctx : Z) (a : AllocAnswer) (size : Z) (pl : Placement) : Prop := {
  os_client : client_ok c;
  os_answer : answer_ok c a;
  os_sync : in_sync (faults c);
  os_fits : fits (faults c) (an_ptr a, mkDesc size pl);
  os_heap : end_ (initialUsmHeap (platform c)) <= 2 ^ (cpuVirtualBits (platform c) - 1);
  os_apart : forall b e, (b, e) ∈ userModeAccessibleUsmDeviceAddresses (platform c) -> ~ b <= an_ptr a < e;
  os_opens : exists c', openAnswer c ctx a ⇓ (true, c');
}.

(** What the client knows once it is allocated. *)
Definition knows_shared c (a : AllocAnswer) (c1 : C) (size : Z) (pl : Placement) : Prop :=
  client_ok c1 /\ freed c1 = freed c /\ faults c1 = registerSharedAlloc (faults c) (an_ptr a) size pl /\
  heap_usm (platform c1) (an_ptr a) /\
  exists d, platform c1 = set_usmAllocs (platform c) (<[an_ptr a := d]> (usmAllocs (platform c))).

Lemma fits_nonzero c a size pl : fits (faults c) (an_ptr a, mkDesc size pl) -> an_ptr a <> 0 /\ 0 < size.
Proof. intros [(_ & H2 & H3 & _) _]. cbn in *. lia. Qed.

Lemma opened_shared_known c ctx a size pl : opens_shared c ctx a size pl ->
  exists c', openAnswer c ctx a ⇓ (true, c') /\ knows_shared c a (set_faults c' (registerSharedAlloc (faults c') (an_ptr a) size pl)) size pl.
Proof.
  intros [Hc [Hu Hf] Hs Hfit _ _ [c' Hopen]]. exists c'. split; [done|]. unfold openAnswer in Hopen.
  destruct (openNew_ok c ctx (an_ptr a) (shmem_resource a) (offset_within_resource a) (aligned_size a) Hc Hu Hf) as (r & c1 & Ho & [Hp1 Hi1] & Hfa & Hfr & _ & Ht).
  rewrite Hopen in Ho. injection Ho as <- <-. destruct (fits_nonzero _ _ _ _ Hfit) as [Hne _].
  destruct (Ht eq_refl Hne) as (shmem & Hpl & Hh). split; [by split|]. cbn [freed faults platform set_faults]. rewrite Hfr, Hfa.
  split; [done|]. split; [done|]. rewrite Hpl. split; [exact Hh|]. by eexists.
Qed.

Lemma destroy_set_faults c f ptr c' : destroyUsmDescriptor c ptr ⇓ c' -> destroyUsmDescriptor (set_faults c f) ptr ⇓ set_faults c' f.
Proof.
  unfold destroyUsmDescriptor. cbn [platform set_faults kern usmImporter]. destruct (ptr =? 0); [by intros [= <-]|].
  destruct (isAccessible _ _) as [b| |]; cbn [mbind res_bind]; [|done..]. destruct (negb b); [by intros [= <-]|].
  destruct (getUserModeAccessibleUsmDeviceRangeFromMap _ _) as [[? ?]|]; [by intros [= <-]|].
  destruct (usmAllocs _ !! _); [|by intros [= <-]]. destruct (usm_release _ _ _). by intros [= <-].
Qed.

(** The registered mapping is found, closed and forgotten. *)
Lemma destroy_shared c ctx a c1 size pl : opens_shared c ctx a size pl -> knows_shared c a c1 size pl ->
  exists c2, destroyUsmDescriptor c1 (an_ptr a) ⇓ c2 /\ platform c2 = platform c /\ faults c2 = faults c1 /\ freed c2 = freed c1.
Proof.
  intros [_ [Hu Hf] _ Hfit Hheap Hap _] ([Hp1 _] & _ & _ & Hh & [d Hpl]). destruct (fits_nonzero _ _ _ _ Hfit) as [Hne _].
  unfold destroyUsmDescriptor. rewrite (proj2 (Z.eqb_neq _ 0) Hne). unfold isAccessible. rewrite accessible_below by (done || apply Hp1).
  cbn [mbind res_bind]. rewrite Hpl in Hh |- *. cbn [set_usmAllocs cpuVirtualBits userModeAccessibleUsmDeviceAddresses usmAllocs] in *. unfold heap_usm in Hh.
  cbn [set_usmAllocs initialUsmHeap] in Hh. rewrite (proj2 (Z.ltb_lt (an_ptr a) _)) by lia. cbn [negb].
  assert (Hnone : getUserModeAccessibleUsmDeviceRangeFromMap (platform c1) (an_ptr a) = None).
  { destruct (getUserModeAccessibleUsmDeviceRangeFromMap (platform c1) (an_ptr a)) as [[b e]|] eqn:E; [|done].
    apply range_from_map_iff in E as [Hin Hx]; [|apply Hp1]. rewrite Hpl in Hin. by destruct (Hap b e Hin). }
  rewrite Hpl in Hnone. rewrite Hnone, lookup_insert_eq. destruct (usm_release _ _ _) as [im k]. eexists. split; [done|].
  cbn [platform faults freed]. split; [|done]. rewrite delete_insert_id by done. by destruct (platform c).
Qed.

(** The fault manager finds the registered allocation by its address. *)
Lemma registered_found s ptr size pl : in_sync s -> fits s (ptr, mkDesc size pl) ->
  findSharedAlloc (sharedAllocMap (fst (registerSharedAlloc s ptr size pl))) ptr = Some (ptr, mkDesc size pl) /\
  fm_find (sharedAllocMap (fst s)) ptr = None /\
  sharedAllocMap (fst (registerSharedAlloc s ptr size pl)) = fm_emplace (sharedAllocMap (fst s)) ptr (mkDesc size pl).
Proof.
  intros Hs Hfit. pose proof (registerSharedAlloc_sync s ptr size pl Hs Hfit) as [_ Hs' Hl' Ha' _]. destruct Hfit as [(_ & Hz & Hpos & _) Hap].
  assert (Hmap : sharedAllocMap (fst (registerSharedAlloc s ptr size pl)) = fm_emplace (sharedAllocMap (fst s)) ptr (mkDesc size pl)).
  { unfold registerSharedAlloc. pose proof (sync_enabled _ Hs) as He. destruct s as [m k]. cbn in He |- *. by rewrite He. }
  assert (Hnone : fm_find (sharedAllocMap (fst s)) ptr = None).
  { destruct (fm_find (sharedAllocMap (fst s)) ptr) as [d|] eqn:E; [|done]. apply fm_find_in in E. exfalso.
    pose proof (Hap _ E) as Hx. pose proof (sync_entries _ Hs _ E) as (_ & Hy & _). unfold apart in Hx. cbn [fst snd] in *.
    pose proof (paged_pos _ Hy). pose proof (paged_pos _ Hz). cbn in *. lia. }
  split; [|done]. apply findSharedAlloc_cover; [done|done|done| |cbn in *; lia]. rewrite Hmap. unfold fm_emplace. rewrite Hnone.
  apply elem_fm_set; [apply Hs|by left].
Qed.

(** A shared allocation is known as unified shared memory and to the fault manager; freeing
    it leaves both registries as they were before. *)
Theorem freeing_undoes_allocating c ctx deviceFlags hostFlags size a pl : opens_shared c ctx a size pl ->
  an_ret a = ZE_RESULT_SUCCESS -> getSharedAllocationPlacement (Some deviceFlags) (Some hostFlags) ⇓ pl ->
  exists c1 c2, zeMemAllocShared c ctx (Some deviceFlags) (Some hostFlags) size a ⇓ (ZE_RESULT_SUCCESS, an_ptr a, c1) /\
    usm_memory (platform c1) (an_ptr a) /\ isAllocShared (faults c1) (an_ptr a) = true /\
    zeMemFree c1 (an_ptr a) ⇓ c2 /\ platform c2 = platform c /\ sharedAllocMap (fst (faults c2)) = sharedAllocMap (fst (faults c)) /\
    freed c2 = freed c ++ [an_ptr a].
Proof.
  intros Hos Hret Hpl. destruct (opened_shared_known c ctx a size pl Hos) as (c' & Ho & Hk). set (c1 := set_faults c' _) in Hk.
  pose proof Hk as (Hc1 & Hfr & Hfa & Hh & _). pose proof (os_sync _ _ _ _ _ Hos) as Hs. pose proof (os_fits _ _ _ _ _ Hos) as Hfit.
  destruct (registered_found (faults c) (an_ptr a) size pl Hs Hfit) as (Hfind & Hnone & Hmap).
  set (c1' := set_faults c1 (unregisterSharedAlloc (faults c1) (an_ptr a))).
  destruct (destroy_shared c ctx a c1 size pl Hos Hk) as (c2 & Hd & Hp2 & _ & Hf2). exists c1.
  pose proof (destroy_set_faults c1 (unregisterSharedAlloc (faults c1) (an_ptr a)) _ _ Hd) as Hd'. fold c1' in Hd'.
  exists (set_freed (set_faults c2 (faults c1')) (freed c2 ++ [an_ptr a])). split; [|split; [by right|split]].
  - unfold zeMemAllocShared. rewrite (sync_enabled _ Hs), Hret. cbn [negb]. rewrite Z.eqb_refl. cbn [negb]. rewrite Ho. cbn [mbind res_bind negb].
    by rewrite Hpl.
  - unfold isAllocShared. rewrite Hfa, Hfind. by apply bool_decide_eq_true_2.
  - split; [unfold zeMemFree; fold c1'; by rewrite Hd'|]. cbn [platform set_freed set_faults faults freed]. split; [done|]. split; [|by rewrite Hf2, Hfr].
    subst c1'. cbn [set_faults faults]. rewrite Hfa. unfold unregisterSharedAlloc.
    destruct (registerSharedAlloc (faults c) (an_ptr a) size pl) as [m k] eqn:Er. cbn [fst] in *.
    assert (He : sharedAllocationsEnabled m = true).
    { pose proof (sync_enabled _ (registerSharedAlloc_sync _ _ _ _ Hs Hfit)) as He. by rewrite Er in He. }
    rewrite He. destruct (fits_nonzero _ _ _ _ Hfit) as [Hne _]. rewrite (proj2 (Z.eqb_neq _ 0) Hne), Hfind. cbn [negb orb fst set_map sharedAllocMap].
    rewrite Hmap. apply fm_erase_emplace; [apply Hs|done].
Qed.

(** ** Where the registries part *)

(** [clMemBlockingFreeINTEL] forgets the mapping, but not the shared allocation, which
    [clMemFreeINTEL] and [clSVMFree] forget too: faults at the addresses of memory that is
    gone, or that something else got, are still taken for those of the allocation. *)
Theorem blocking_free_stays_registered c ctx size a pl properties : opens_shared c ctx a size pl ->
  getClAllocationPlacement properties ⇓ pl ->
  exists c1 c2, clSharedMemAllocINTEL c ctx properties size a ⇓ (an_ptr a, None, c1) /\
    clMemBlockingFreeINTEL c1 (an_ptr a) ⇓ c2 /\ platform c2 = platform c /\ isAllocShared (faults c2) (an_ptr a) = true.
Proof.
  intros Hos Hpl. destruct (opened_shared_known c ctx a size pl Hos) as (c' & Ho & Hk). set (c1 := set_faults c' _) in Hk.
  pose proof (os_sync _ _ _ _ _ Hos) as Hs. pose proof (os_fits _ _ _ _ _ Hos) as Hfit. destruct (fits_nonzero _ _ _ _ Hfit) as [Hne _].
  destruct (destroy_shared c ctx a c1 size pl Hos Hk) as (c2 & Hd & Hp2 & Hf2 & _).
  exists c1, (set_freed c2 (freed c2 ++ [an_ptr a])). split; [|split; [|split]].
  - unfold clSharedMemAllocINTEL. rewrite (sync_enabled _ Hs), (proj2 (Z.eqb_neq _ 0) Hne). cbn [negb]. rewrite Ho. cbn [mbind res_bind negb].
    by rewrite Hpl.
  - unfold clMemBlockingFreeINTEL. by rewrite Hd.
  - done.
  - cbn [set_freed faults]. rewrite Hf2. destruct Hk as (_ & _ & -> & _). unfold isAllocShared.
    rewrite (proj1 (registered_found _ _ _ _ Hs Hfit)). by apply bool_decide_eq_true_2.
Qed.

(** When the file of an SVM allocation cannot be opened, the null pointer is registered as
    a shared allocation of the requested size: an access through it is then not handed on
    as a fault, but tried again and again. *)
Theorem failed_svm_alloc_catches_null c ctx size a c1 : client_ok c -> answer_ok c a -> in_sync (faults c) ->
  an_ptr a <> 0 -> openAnswer c ctx a ⇓ (false, c1) -> 0 < size < W64 ->
  exists c2, clSVMAlloc c ctx size a ⇓ (0, c2) /\ isAllocShared (faults c2) 0 = true /\
    (accessible (snd (faults c2)) 0 = false -> forall fuel answered n, fst (touch fuel (faults c2) 0 answered n) = StillFaulting).
Proof.
  intros Hc [Hu Hf] Hs Hne Hopen Hsize.
  destruct (openNew_ok c ctx (an_ptr a) (shmem_resource a) (offset_within_resource a) (aligned_size a) Hc Hu Hf) as (r & c1' & Ho & Hc1 & Hfa & _).
  unfold openAnswer in Hopen. rewrite Hopen in Ho. injection Ho as <- <-.
  destruct (zeMemFree_ok c1 (an_ptr a) Hc1 Hu) as (c2 & Hfree & _ & Hfa2 & _). assert (Hcl : clMemFreeINTEL c1 (an_ptr a) ⇓ c2) by exact Hfree.
  exists (set_faults c2 (registerSharedAlloc (faults c2) 0 size HOST)). split; [|].
  { unfold clSVMAlloc, openAnswer. rewrite (proj2 (Z.eqb_neq _ 0) Hne), Hopen. cbn [mbind res_bind negb]. by rewrite Hcl. }
  assert (Hs2 : in_sync (faults c2)) by (rewrite Hfa2, Hfa; by apply unregisterSharedAlloc_sync). cbn [set_faults faults].
  assert (Hfind : findSharedAlloc (sharedAllocMap (fst (registerSharedAlloc (faults c2) 0 size HOST))) 0 = Some (0, mkDesc size HOST)).
  { pose proof (sync_enabled _ Hs2) as He. pose proof (sync_entries _ Hs2) as Hent. destruct (faults c2) as [m k]. cbn in He, Hent |- *. rewrite He. cbn.
    unfold fm_emplace. destruct (sharedAllocMap m) as [|[b d] l]; [|destruct (Hent (b, d) ltac:(set_solver)) as (_ & _ & Hb & _); cbn in Hb].
    - cbn [fm_find fm_set findSharedAlloc PageFaults.size fst snd]. rewrite Z.add_0_l, u64_id by (unfold is_u64; lia). by rewrite (proj2 (Z.ltb_lt 0 size)) by lia.
    - assert (Hno : fm_find ((b, d) :: l) 0 = None).
      { destruct (fm_find ((b, d) :: l) 0) as [d'|] eqn:E; [|done]. apply fm_find_in in E. destruct (Hent _ E) as (_ & _ & Hx & _). cbn in Hx. lia. }
      rewrite Hno. cbn [fm_set]. rewrite (proj2 (Z.eqb_neq 0 b)), (proj2 (Z.ltb_lt 0 b)) by lia. cbn [findSharedAlloc PageFaults.size fst snd].
      rewrite Z.add_0_l, u64_id by (unfold is_u64; lia). by rewrite (proj2 (Z.ltb_lt 0 size)) by lia. }
  split; [unfold isAllocShared; rewrite Hfind; by apply bool_decide_eq_true_2|]. intros Hacc fuel answered. revert Hfind Hacc.
  generalize (registerSharedAlloc (faults c2) 0 size HOST) as s. intros s Hfind Hacc. induction fuel as [|fuel IH]; intros n; cbn [touch]; rewrite Hacc; [done|].
  unfold pageFaultHandlerImpl, verifyPageFault. destruct s as [m k]. cbn [fst] in *. rewrite Hfind. cbn [placement]. apply IH.
Qed.

End laws.

(** * Examples *)

Module Example.
Import ToyPages.

Definition kernel0 : Toy.kernel := Toy.mkKernel 0x10000000 3 [shmPath "/cal"%string 5] [] [] [].
Definition client : Client Toy.kernel (Z -> bool) :=
  mkClient exampleDevices (mkImporter "/cal"%string ∅ false) kernel0 (fst empty, fun a => negb (a =? 0)) [].

(** One page in file 5, and one in a file that is not there. *)
Definition answer : AllocAnswer := mkAnswer ZE_RESULT_SUCCESS 0x140000 5 0 0x1000.
Definition missing : AllocAnswer := mkAnswer ZE_RESULT_SUCCESS 0x140000 6 0 0x1000.

Lemma client_is_ok : client_ok client.
Proof.
  split; [apply exampleDevices_ok|]. split.
  - intros a Ha. by apply elem_of_nil in Ha.
  - intros q e He. done.
Qed.

Lemma answer_is_ok a : an_ptr a = 0x140000 -> answer_ok client a.
Proof. intros E. unfold answer_ok. rewrite E. by split. Qed.

(** Memory that is accessible but for the null page. *)
Definition pages : Client Toy.kernel (Z -> bool) := set_faults client empty.

Lemma pages_is_ok : client_ok pages.
Proof. destruct client_is_ok. by split. Qed.

Lemma pages_in_sync : in_sync (faults pages).
Proof.
  split; try done; cbn.
  - constructor.
  - intros e He. by apply elem_of_nil in He.
  - intros e f He. by apply elem_of_nil in He.
  - intros a. split; [done|]. intros (e & He & _). by apply elem_of_nil in He.
Qed.

Lemma answer_opens pl : opens_shared pages 77 answer 0x1000 pl.
Proof.
  split; [apply pages_is_ok|by apply answer_is_ok|apply pages_in_sync| |by vm_compute| |].
  - split; [by vm_compute|]. intros f Hf. by apply elem_of_nil in Hf.
  - intros b e Hx. cbn in Hx. rewrite !elem_of_cons, elem_of_nil in Hx. cbn. destruct Hx as [[= -> ->]|[[= -> ->]|[]]]; lia.
  - eexists. by vm_compute.
Qed.

Lemma allocations_keep_their_files_witness :
  exists ret p c', zeMemAllocHost client 77 answer ⇓ (ret, p, c') /\ client_ok c' /\ p = 0x140000.
Proof.
  destruct (allocations_keep_their_files client 77 answer 64 4 0 0x140000 client_is_ok (answer_is_ok answer eq_refl) ltac:(by vm_compute))
    as ((ret & p & c' & Hc & Hok) & _).
  exists ret, p, c'. split; [exact Hc|]. split; [exact Hok|]. vm_compute in Hc. by injection Hc as _ <- _.
Defined.

Lemma freeing_undoes_allocating_witness :
  exists c1 c2, zeMemAllocShared pages 77 (Some 4) (Some 0) 0x1000 answer ⇓ (ZE_RESULT_SUCCESS, 0x140000, c1) /\
    zeMemFree c1 0x140000 ⇓ c2 /\ freed c2 = [0x140000].
Proof.
  destruct (freeing_undoes_allocating pages 77 4 0 0x1000 answer DEVICE (answer_opens DEVICE) eq_refl eq_refl)
    as (c1 & c2 & H1 & _ & _ & H2 & _ & _ & H3).
  exists c1, c2. split; [exact H1|]. by split; [exact H2|].
Defined.

Lemma blocking_free_stays_registered_witness :
  exists c1 c2, clSharedMemAllocINTEL pages 77 (Some [CL_MEM_ALLOC_FLAGS_INTEL; 2; 0]) 0x1000 answer ⇓ (0x140000, None, c1) /\
    clMemBlockingFreeINTEL c1 0x140000 ⇓ c2 /\ isAllocShared (faults c2) 0x140000 = true.
Proof.
  destruct (blocking_free_stays_registered pages 77 0x1000 answer DEVICE (Some [CL_MEM_ALLOC_FLAGS_INTEL; 2; 0]) (answer_opens DEVICE) eq_refl)
    as (c1 & c2 & H1 & H2 & _ & H3).
  exists c1, c2. by split; [exact H1|split].
Defined.

Lemma failed_svm_alloc_catches_null_witness :
  exists c2, clSVMAlloc pages 77 64 missing ⇓ (0, c2) /\ isAllocShared (faults c2) 0 = true.
Proof.
  destruct (openAnswer pages 77 missing) as [[r c1]| |] eqn:Ho; [|by vm_compute in Ho..].
  assert (Hr : r = false) by (by vm_compute in Ho; injection Ho as <- _). subst r.
  destruct (failed_svm_alloc_catches_null pages 77 64 missing c1 pages_is_ok (answer_is_ok missing eq_refl) pages_in_sync ltac:(done) Ho ltac:(done))
    as (c2 & H1 & H2 & _).
  exists c2. by split.
Defined.

(** Without the number of address bits, testing a pointer is undefined. *)
Lemma unread_cpu_info_is_undefined va : isAccessibleByApplication 0 va = Undef.
Proof. done. Qed.

(** When the file cannot be opened, Level Zero reports success with a null pointer; OpenCL
    reports that the host is out of memory. *)
Lemma failed_open_is_success :
  (exists c', zeMemAllocHost client 77 missing ⇓ (ZE_RESULT_SUCCESS, 0, c')) /\
  (exists c', clHostMemAllocINTEL client 77 missing ⇓ (0, Some CL_OUT_OF_HOST_MEMORY, c')).
Proof. split; eexists; by vm_compute. Qed.

(** Device memory whose address is registered already is reported as allocated, at null. *)
Lemma known_device_pointer_is_lost :
  exists c', zeMemAllocDevice client ZE_RESULT_SUCCESS 0x5000 0x100 ⇓ (ZE_RESULT_SUCCESS, 0, c').
Proof. eexists. by vm_compute. Qed.

(** A pointer into device memory, which the service does not free, makes the client forget
    the whole allocation. *)
Lemma inner_free_forgets_allocation :
  isDeviceUsm exampleDevices 0x5000 ⇓ true /\
  exists c', zeMemFree client 0x5800 ⇓ c' /\ isDeviceUsm (platform c') 0x5000 ⇓ false.
Proof. split; [by vm_compute|]. eexists. split; [by vm_compute|by vm_compute]. Qed.

End Example.
