(* ===== verification/HostPointers.v ===== *)
(** Host pointers that the application imported: [ImportedHostPointersManager]
    (client/icd/level_zero/logic/imported_host_pointers_manager.cpp) over the partitioned
    ranges of Ranges.v, the API functions in front of it, and the map that the manager
    stands for. *)

From stdpp Require Import gmap.
From S2P Require Import Prelude.
From S2P Require Import Ranges.
From S2P Require Import ClientContext.
From S2P Require Import MallocOverride.
From S2P Require Import ClientPlatform.
Local Open Scope Z_scope.

Definition ZE_RESULT_ERROR_INVALID_NULL_HANDLE : Z := 0x78000005.

(** [importedPointers], as it is constructed. *)
Definition noImports : PartitionedAddressRange := leaf (mkRange 0 0).

Definition importExternalPointer (importedPointers : PartitionedAddressRange) (ptr size : Z) : res (Z * PartitionedAddressRange) :=
  if (ptr =? 0) || (size =? 0) then Ret (ZE_RESULT_ERROR_INVALID_NULL_HANDLE, importedPointers)
  else
    let rangeEnd := u64 (ptr + size) in
    rangeToInsert ← makeRange ptr rangeEnd;
    if intersectsSubRanges importedPointers rangeToInsert then Ret (ZE_RESULT_ERROR_INVALID_ARGUMENT, importedPointers)
    else Ret (ZE_RESULT_SUCCESS, insertSubRange importedPointers (leaf rangeToInsert)).

Definition releaseImportedPointer (importedPointers : PartitionedAddressRange) (ptr : Z) : res (Z * PartitionedAddressRange) :=
  if ptr =? 0 then Ret (ZE_RESULT_ERROR_INVALID_NULL_HANDLE, importedPointers)
  else
    rangeToSearch ← rangeOfPtr ptr;
    match getIntersectedSubRanges importedPointers rangeToSearch with
    | [] => Ret (ZE_RESULT_SUCCESS, importedPointers)
    | [r] => '(importedPointers, _) ← destroySubRange importedPointers (getBoundingRange r); Ret (ZE_RESULT_SUCCESS, importedPointers)
    | _ => Ret (ZE_RESULT_ERROR_INVALID_ARGUMENT, importedPointers)
    end.

(** The result, and what is stored through [baseAddress] (nothing: [None]). *)
Definition getHostPointerBaseAddress (importedPointers : PartitionedAddressRange) (ptr : Z) (baseAddress : bool) : res (Z * option Z) :=
  if negb baseAddress || (ptr =? 0) then Ret (ZE_RESULT_ERROR_INVALID_NULL_HANDLE, None)
  else
    rangeToSearch ← rangeOfPtr ptr;
    match getIntersectedSubRanges importedPointers rangeToSearch with
    | [] => Ret (ZE_RESULT_SUCCESS, Some 0)
    | [r] => Ret (ZE_RESULT_SUCCESS, Some (start (getBoundingRange r)))
    | _ => Ret (ZE_RESULT_ERROR_INVALID_ARGUMENT, None)
    end.

(** ** The API functions

    Private pages are registered with the manager.  For a pointer that the service can
    reach each function calls itself with the same arguments, where its siblings call the
    service: [stack] is the number of calls that the stack has room for. *)

Section api.
Context (e : MallocShmemExporter) (p : IcdPlatform).

Fixpoint zexDriverImportExternalPointer (stack : nat) (importedPointers : PartitionedAddressRange) (ptr size : Z) : res (Z * PartitionedAddressRange) :=
  match stack with
  | O => Undef
  | S stack =>
      ptrType ← getPointerType e p ptr;
      if decide (ptrType <> local) then zexDriverImportExternalPointer stack importedPointers ptr size
      else importExternalPointer importedPointers ptr size
  end.

Fixpoint zexDriverReleaseImportedPointer (stack : nat) (importedPointers : PartitionedAddressRange) (ptr : Z) : res (Z * PartitionedAddressRange) :=
  match stack with
  | O => Undef
  | S stack =>
      ptrType ← getPointerType e p ptr;
      if decide (ptrType <> local) then zexDriverReleaseImportedPointer stack importedPointers ptr
      else releaseImportedPointer importedPointers ptr
  end.

Fixpoint zexDriverGetHostPointerBaseAddress (stack : nat) (importedPointers : PartitionedAddressRange) (ptr : Z) (baseAddress : bool) : res (Z * option Z) :=
  match stack with
  | O => Undef
  | S stack =>
      ptrType ← getPointerType e p ptr;
      if decide (ptrType <> local) then zexDriverGetHostPointerBaseAddress stack importedPointers ptr baseAddress
      else getHostPointerBaseAddress importedPointers ptr baseAddress
  end.

End api.

(** * The map of imports

    From the base of every import to its size. *)
Abbreviation Imports := (gmap Z Z).

Definition represents (p : PartitionedAddressRange) (m : Imports) : Prop :=
  wf p /\ forall b n, m !! b = Some n <-> mkRange b (b + n) ∈ flat p.

(** Nothing imported overlaps the range. *)
Definition free (m : Imports) (ptr size : Z) : Prop := map_Forall (fun b n => b + n <= ptr \/ ptr + size <= b) m.

#[export] Instance free_dec m ptr size : Decision (free m ptr size).
Proof. unfold free. apply _. Defined.

(** The import that contains an address. *)
Definition holds (m : Imports) (ptr b n : Z) : Prop := m !! b = Some n /\ b <= ptr < b + n.

(** ** Lemmas *)

Lemma flat_bounds p r : wf p -> r ∈ flat p -> start r < end_ r.
Proof.
  intros Hwf Hr. pose proof (ordered_Forall _ _ _ (wf_ordered _ Hwf)) as Hf. rewrite Forall_forall in Hf. specialize (Hf r Hr). lia.
Qed.

Lemma ordered_unique lo l hi x y a : ordered lo l hi -> x ∈ l -> y ∈ l -> start x <= a < end_ x -> start y <= a < end_ y -> x = y.
Proof.
  revert lo. induction l as [|r l IH]; intros lo Ho Hx Hy Hxa Hya; [by apply elem_of_nil in Hx|]. destruct Ho as (H1 & H2 & Ho).
  pose proof (ordered_Forall _ _ _ Ho) as Hf. rewrite Forall_forall in Hf.
  apply elem_of_cons in Hx as [->|Hx], Hy as [->|Hy]; [done| | |by apply (IH _ Ho)].
  - specialize (Hf y Hy). lia.
  - specialize (Hf x Hx). lia.
Qed.

Lemma represents_holds p m ptr b n : represents p m -> holds m ptr b n <-> mkRange b (b + n) ∈ flat p /\ b <= ptr < b + n.
Proof. intros [_ Hm]. unfold holds. by rewrite Hm. Qed.

Lemma range_eta r : mkRange (start r) (start r + (end_ r - start r)) = r.
Proof. destruct r as [s e]. cbn. f_equal. lia. Qed.

(** The ranges that meet one byte: none, or the one that contains it. *)
Lemma search_spec p ptr : wf p -> 0 < ptr < W64 - 1 ->
  rangeOfPtr ptr ⇓ mkRange ptr (ptr + 1) /\
  match getIntersectedSubRanges p (mkRange ptr (ptr + 1)) with
  | [] => forall r, r ∈ flat p -> ~ start r <= ptr < end_ r
  | [x] => start (desc x) <= ptr < end_ (desc x) /\ exists l1 l2, subRanges p = l1 ++ x :: l2 /\ flat p = (desc <$> l1) ++ desc x :: (desc <$> l2)
  | _ => False
  end.
Proof.
  intros Hwf Hp. split; [unfold rangeOfPtr; rewrite u64_id by (word_unfold; lia); apply makeRange_ok; lia|].
  destruct (intersected_split p (mkRange ptr (ptr + 1)) Hwf ltac:(cbn; lia)) as (l1 & l2 & Hs & H1 & H2 & H3).
  pose proof (wf_ordered _ Hwf) as Ho. unfold flat in *. rewrite Hs in *. revert H2 Ho.
  generalize (getIntersectedSubRanges p (mkRange ptr (ptr + 1))). intros l H2 Ho. unfold disjoint in *. cbn [start end_] in *.
  destruct l as [|x [|y l]].
  - intros r Hr. rewrite app_nil_l, fmap_app in Hr. apply elem_of_app in Hr as [Hr|Hr]; apply list_elem_of_fmap in Hr as (z & -> & Hz);
      rewrite Forall_forall in H1, H3; [specialize (H1 z Hz)|specialize (H3 z Hz)]; lia.
  - apply Forall_cons in H2 as [Hx _]. split; [lia|]. exists l1, l2. split; [done|]. by rewrite fmap_app.
  - apply Forall_cons in H2 as [Hx [Hy _]%Forall_cons]. rewrite !fmap_app in Ho. apply ordered_app in Ho as (m & _ & Ho). cbn in Ho.
    destruct Ho as (O1 & O2 & O3 & O4 & _). lia.
Qed.

Lemma import_fresh p m ptr size : represents p m -> 0 < ptr -> 0 < size -> ptr + size < W64 -> free m ptr size ->
  represents (insertSubRange p (leaf (mkRange ptr (ptr + size)))) (<[ptr := size]> m).
Proof.
  intros [Hwf Hm] Hp Hs Hw Hfree. set (x := leaf (mkRange ptr (ptr + size))).
  assert (Hd : Forall (disjoint (desc x)) (flat p)).
  { apply Forall_forall. intros r Hr. pose proof (flat_bounds _ _ Hwf Hr). rewrite <- (range_eta r) in Hr. apply Hm in Hr.
    specialize (Hfree _ _ Hr). unfold disjoint. cbn in *. lia. }
  destruct (insert_correct p x Hwf) as (Hwf' & l1 & l2 & Hs1 & Hs2); [constructor; [cbn; lia|constructor]|cbn; lia|done|].
  split; [done|]. intros b n. unfold flat. rewrite Hs2, fmap_app. cbn. rewrite elem_of_app, elem_of_cons.
  assert (Hin : forall r, r ∈ flat p <-> r ∈ desc <$> l1 \/ r ∈ desc <$> l2) by (intros r; unfold flat; rewrite Hs1, fmap_app; apply elem_of_app).
  destruct (decide (b = ptr)) as [->|Hb].
  - rewrite lookup_insert_eq. split; [intros [= ->]; right; by left|]. intros Hr. f_equal.
    destruct Hr as [Hr|[[= Hr]|Hr]]; [|lia|].
    all: assert (Hr' : mkRange ptr (ptr + n) ∈ flat p) by (apply Hin; auto); pose proof (flat_bounds _ _ Hwf Hr') as Hlt;
      rewrite Forall_forall in Hd; specialize (Hd _ Hr'); unfold disjoint in Hd; cbn in *; lia.
  - rewrite lookup_insert_ne by done. rewrite Hm, Hin. split; [tauto|]. intros [Hr|[[= -> _]|Hr]]; [by left|done|by right].
Qed.

Lemma release_held p m ptr x l1 l2 : represents p m -> subRanges p = l1 ++ x :: l2 -> flat p = (desc <$> l1) ++ desc x :: (desc <$> l2) ->
  start (desc x) <= ptr < end_ (desc x) ->
  exists q n, destroySubRange p (desc x) ⇓ (q, n) /\ represents q (filter (fun e => ~ fst e <= ptr < fst e + snd e) m).
Proof.
  intros [Hwf Hm] Hs Hf Hx. pose proof (wf_ordered _ Hwf) as Ho. rewrite Hf in Ho.
  destruct (destroy_fuel_correct (height p) p (desc x) ltac:(lia) Hwf ltac:(lia)) as (q & n & Hq & (_ & Hfq & Hwq) & _).
  exists q, n. split; [exact Hq|]. split; [done|].
  assert (Hcut : flat q = (desc <$> l1) ++ (desc <$> l2)).
  { rewrite Hfq, Hf, cut_app, cut_cons. pose proof (ordered_middle _ _ _ _ _ Ho) as (H1 & H2 & H3).
    rewrite (cut_disjoint (desc x) (desc <$> l1)), (cut_disjoint (desc x) (desc <$> l2)).
    - f_equal. unfold pieces. rewrite Z.min_r, Z.max_r by lia. by rewrite !Z.ltb_irrefl.
    - lia.
    - apply ordered_Forall in H3. eapply Forall_impl; [exact H3|]. cbn. lia.
    - lia.
    - apply ordered_Forall in H1. eapply Forall_impl; [exact H1|]. cbn. lia. }
  intros b k. rewrite map_lookup_filter_Some, Hm, Hcut, Hf, !elem_of_app, elem_of_cons. cbn [fst snd].
  pose proof (ordered_middle _ _ _ _ _ Ho) as (H1 & H2 & H3). apply ordered_Forall in H1, H3. rewrite Forall_forall in H1, H3. split.
  - intros [[Hr|[Hr|Hr]] Hn]; [by left| |by right]. rewrite <- Hr in Hx. by cbn in Hx.
  - intros [Hr|Hr]; (split; [tauto|]); [specialize (H1 _ Hr)|specialize (H3 _ Hr)]; cbn in *; lia.
Qed.

(** * Properties *)

(** C30: the manager is the map of imports.  It answers an import with success and keeps it
    exactly when nothing that is imported overlaps it; a release always succeeds and drops
    exactly the import that contains the address, if there is one; and the base address of
    a pointer is that of the import that contains it, or null.  No operation aborts or runs
    out of fuel. *)
Theorem imported_pointers_refine p m ptr : represents p m -> 0 < ptr < W64 - 1 ->
  (forall size, 0 < size -> ptr + size < W64 -> exists p', importExternalPointer p ptr size
     ⇓ (if decide (free m ptr size) then ZE_RESULT_SUCCESS else ZE_RESULT_ERROR_INVALID_ARGUMENT, p') /\
     represents p' (if decide (free m ptr size) then <[ptr := size]> m else m)) /\
  (exists p', releaseImportedPointer p ptr ⇓ (ZE_RESULT_SUCCESS, p') /\ represents p' (filter (fun e => ~ fst e <= ptr < fst e + snd e) m)) /\
  (exists base, getHostPointerBaseAddress p ptr true ⇓ (ZE_RESULT_SUCCESS, Some base) /\
     (forall b n, holds m ptr b n -> base = b) /\ (base <> 0 -> exists n, holds m ptr base n)).
Proof.
  intros Hr Hp. pose proof Hr as [Hwf Hm]. destruct (search_spec p ptr Hwf Hp) as [Hone Hsearch]. split; [|split].
  - intros size Hs Hw. unfold importExternalPointer. rewrite (proj2 (Z.eqb_neq ptr 0)), (proj2 (Z.eqb_neq size 0)) by lia. cbn [orb].
    rewrite u64_id by (word_unfold; lia). rewrite makeRange_ok by lia. cbn [mbind res_bind].
    pose proof (intersects_cover p (mkRange ptr (ptr + size)) Hwf ltac:(cbn; lia)) as Hi. cbn [start end_] in Hi.
    assert (Hfree : free m ptr size <-> ~ exists a, ptr <= a < ptr + size /\ covered (flat p) a).
    { split.
      - intros Hf (a & Ha & (r & Hrin & Hra)%Exists_exists). pose proof (flat_bounds _ _ Hwf Hrin).
        rewrite <- (range_eta r) in Hrin. apply Hm in Hrin. specialize (Hf _ _ Hrin). cbn in Hf. lia.
      - intros Hn b n Hb%Hm. pose proof (flat_bounds _ _ Hwf Hb) as Hlt. cbn in Hlt.
        destruct (Z.le_gt_cases (b + n) ptr); [lia|]. destruct (Z.le_gt_cases (ptr + size) b); [lia|]. destruct Hn.
        exists (Z.max b ptr). split; [lia|]. apply Exists_exists. eexists; split; [exact Hb|]. cbn. lia. }
    destruct (intersectsSubRanges p _) eqn:E.
    + rewrite !decide_False by (rewrite Hfree; intros Hn; apply Hn, Hi; done). by exists p.
    + rewrite !decide_True by (apply Hfree; intros Hc; apply Hi in Hc; done). eexists. split; [done|].
      apply import_fresh; try done; [lia|]. apply Hfree. intros Hc. apply Hi in Hc. done.
  - unfold releaseImportedPointer. rewrite (proj2 (Z.eqb_neq ptr 0)), Hone by lia. cbn [mbind res_bind].
    destruct (getIntersectedSubRanges p _) as [|x [|y l]]; [| |done].
    + exists p. split; [done|]. split; [done|]. intros b n. rewrite map_lookup_filter_Some, Hm. cbn [fst snd].
      split; [by intros [? _]|]. intros Hb. split; [done|]. specialize (Hsearch _ Hb). by cbn in Hsearch.
    + destruct Hsearch as (Hx & l1 & l2 & Hs & Hf). destruct (release_held p m ptr x l1 l2 Hr Hs Hf Hx) as (q & n & Hd & Hq).
      unfold getBoundingRange. rewrite Hd. cbn [mbind res_bind]. by exists q.
  - unfold getHostPointerBaseAddress. rewrite (proj2 (Z.eqb_neq ptr 0)), Hone by lia. cbn [negb orb mbind res_bind].
    destruct (getIntersectedSubRanges p _) as [|x [|y l]]; [| |done].
    + exists 0. split; [done|]. split; [|done]. intros b n [Hb Hin]%(represents_holds p m ptr b n Hr). destruct (Hsearch _ Hb). by cbn.
    + destruct Hsearch as (Hx & l1 & l2 & Hs & Hf). exists (start (desc x)). split; [done|].
      assert (Hxin : desc x ∈ flat p) by (rewrite Hf; apply elem_of_app; right; by left). split.
      * intros b n [Hb Hin]%(represents_holds p m ptr b n Hr). pose proof (ordered_unique _ _ _ _ _ ptr (wf_ordered _ Hwf) Hxin Hb Hx Hin) as ->. done.
      * intros _. exists (end_ (desc x) - start (desc x)). apply (represents_holds p m ptr _ _ Hr). rewrite range_eta. split; [done|lia].
Qed.

(** The manager starts as the empty map. *)
Lemma noImports_represents : represents noImports ∅.
Proof. split; [constructor; [cbn; lia|constructor]|]. intros b n. rewrite lookup_empty. cbn. by rewrite elem_of_nil. Qed.

Definition oneImport : PartitionedAddressRange := insertSubRange noImports (leaf (mkRange 0x5000 (0x5000 + 0x100))).
Definition twoImports : PartitionedAddressRange := insertSubRange oneImport (leaf (mkRange 0x7000 (0x7000 + 0x200))).

Lemma twoImports_represents : represents twoImports (<[0x7000 := 0x200]> (<[0x5000 := 0x100]> ∅)).
Proof.
  apply import_fresh; [apply import_fresh; [apply noImports_represents|lia|lia|done|]|lia|lia|done|].
  - by apply map_Forall_empty.
  - apply map_Forall_insert_2; [lia|]. by apply map_Forall_empty.
Qed.

(** An import that overlaps the second is refused; a release inside the first drops it; an
    inner pointer is traced back to its base. *)
Lemma imported_pointers_refine_witness :
  (exists p', importExternalPointer twoImports 0x7100 0x400 ⇓ (ZE_RESULT_ERROR_INVALID_ARGUMENT, p')) /\
  (exists p', releaseImportedPointer twoImports 0x50ff ⇓ (ZE_RESULT_SUCCESS, p') /\ flat p' = [mkRange 0x7000 0x7200]) /\
  getHostPointerBaseAddress twoImports 0x71ff true ⇓ (ZE_RESULT_SUCCESS, Some 0x7000).
Proof.
  destruct (imported_pointers_refine twoImports _ 0x7100 twoImports_represents ltac:(word_unfold; lia)) as (Hi & _ & _).
  destruct (imported_pointers_refine twoImports _ 0x50ff twoImports_represents ltac:(word_unfold; lia)) as (_ & Hr & _).
  destruct (imported_pointers_refine twoImports _ 0x71ff twoImports_represents ltac:(word_unfold; lia)) as (_ & _ & Hb).
  split; [|split].
  - destruct (Hi 0x400 ltac:(lia) ltac:(word_unfold; lia)) as (p' & Hp & _). exists p'. rewrite decide_False in Hp; [exact Hp|].
    intros Hf. specialize (Hf 0x7000 0x200 ltac:(by apply lookup_insert_eq)). cbn in Hf. lia.
  - destruct Hr as (p' & Hp & _). exists p'. split; [exact Hp|]. vm_compute in Hp. by injection Hp as <-.
  - destruct Hb as (base & Hg & Hbase & _). rewrite Hg. do 2 f_equal. f_equal. apply (Hbase 0x7000 0x200). split; [by apply lookup_insert_eq|lia].
Defined.

(** ** Imports through the API *)

(** On private pages the functions are those of the manager; for any other pointer they
    exhaust the stack, however large it is. *)
Lemma shared_pointers_exhaust_the_stack e p stack i ptr size baseAddress t : getPointerType e p ptr ⇓ t ->
  (t = local ->
   zexDriverImportExternalPointer e p (S stack) i ptr size = importExternalPointer i ptr size /\
   zexDriverReleaseImportedPointer e p (S stack) i ptr = releaseImportedPointer i ptr /\
   zexDriverGetHostPointerBaseAddress e p (S stack) i ptr baseAddress = getHostPointerBaseAddress i ptr baseAddress) /\
  (t <> local ->
   zexDriverImportExternalPointer e p stack i ptr size = Undef /\
   zexDriverReleaseImportedPointer e p stack i ptr = Undef /\
   zexDriverGetHostPointerBaseAddress e p stack i ptr baseAddress = Undef).
Proof.
  intros Ht. split.
  - intros ->. cbn. rewrite Ht. cbn [mbind res_bind]. by rewrite !decide_False by auto.
  - intros Hn. induction stack as [|stack IH]; cbn; [done|]. rewrite Ht. cbn [mbind res_bind]. by rewrite !decide_True.
Qed.

(** A pointer into the shared heap cannot be imported; one into private pages can. *)
Lemma shared_pointers_exhaust_the_stack_witness :
  let e := mkExporter true (mkRange 0x300000 0x400000) 0 in
  zexDriverImportExternalPointer e exampleDevices 1000 noImports 0x312000 64 = Undef /\
  (exists i, zexDriverImportExternalPointer e exampleDevices 1 noImports 0x2000 0x100 ⇓ (ZE_RESULT_SUCCESS, i)).
Proof.
  intros e. split.
  - refine (proj1 (proj2 (shared_pointers_exhaust_the_stack e exampleDevices 1000 noImports 0x312000 64 true shared _) _)); [by vm_compute|done].
  - destruct (shared_pointers_exhaust_the_stack e exampleDevices 0 noImports 0x2000 0x100 true local ltac:(by vm_compute)) as [Hl _].
    eexists. rewrite (proj1 (Hl eq_refl)). reflexivity.
Defined.
