(* ===== verification/IpcHandles.v ===== *)
(** IPC handles of the Level Zero client: the registry of file descriptors that client and
    service both have open (client/icd/level_zero/icd_level_zero.h), the translation of
    handles between the two (api_customization/icd_level_zero_ipc_helpers.h) and the API
    functions that pass handles (icd_level_zero_api_memory.cpp,
    icd_level_zero_api_memory_experimental.cpp, icd_level_zero_api_event_pool.cpp). *)

From stdpp Require Import gmap.
From S2P Require Import Prelude.
From S2P Require Import Messages.
From S2P Require Import ClientContext.
From S2P Require Import ClientPlatform.
Local Open Scope Z_scope.

Definition ZE_RESULT_ERROR_DEVICE_LOST : Z := 0x70000001.
Definition ZE_RESULT_ERROR_OUT_OF_DEVICE_MEMORY : Z := 0x70000003.
Definition ZE_RESULT_ERROR_INVALID_NULL_POINTER : Z := 0x78000007.

(** * Handles

    The data of a handle are bytes; a descriptor is the [int] in the first four. *)

Definition i32 (x : Z) : Z := (x + 2147483648) mod W32 - 2147483648.

Definition littleEndian (l : list Z) : Z := foldr (fun b acc => b + 256 * acc) 0 l.

Definition bytesOfInt (v : Z) : list Z := [v mod 256; v / 256 mod 256; v / 65536 mod 256; v / 16777216 mod 256].

Definition loadFd (data : list Z) : Z := i32 (littleEndian (take 4 data)).
Definition storeFd (data : list Z) (v : Z) : list Z := bytesOfInt v ++ drop 4 data.

Definition validFd (v : Z) : bool := negb (v =? -1).
Definition invalidFd : Z := -1.

(** * The registry *)

Record IpcFds := mkFds {
  ipcFdMapLocalToRemote : gmap Z Z;
  ipcFdMapRemoteToLocal : gmap Z Z;
  ipcFdRefcounts : gmap Z Z;
  ipcPtrToRemoteFdMap : gmap Z Z;
}.

Definition noFds : IpcFds := mkFds ∅ ∅ ∅ ∅.

Definition set_counts (s : IpcFds) (m : gmap Z Z) : IpcFds :=
  mkFds (ipcFdMapLocalToRemote s) (ipcFdMapRemoteToLocal s) m (ipcPtrToRemoteFdMap s).
Definition set_ptrs (s : IpcFds) (m : gmap Z Z) : IpcFds :=
  mkFds (ipcFdMapLocalToRemote s) (ipcFdMapRemoteToLocal s) (ipcFdRefcounts s) m.

Definition increaseRefcountForIpcFd (s : IpcFds) (remoteFd : Z) : IpcFds :=
  match ipcFdRefcounts s !! remoteFd with
  | None => s
  | Some n => set_counts s (<[remoteFd := u64 (n + 1)]> (ipcFdRefcounts s))
  end.

Definition translateNewRemoteFDToLocalFD (s : IpcFds) (remoteFD translatedLocalFD : Z) : Z * IpcFds :=
  match ipcFdMapRemoteToLocal s !! remoteFD with
  | Some l => (l, s)
  | None =>
      (translatedLocalFD,
       mkFds (<[translatedLocalFD := remoteFD]> (ipcFdMapLocalToRemote s))
             (<[remoteFD := translatedLocalFD]> (ipcFdMapRemoteToLocal s))
             (<[remoteFD := 1]> (ipcFdRefcounts s)) (ipcPtrToRemoteFdMap s))
  end.

Definition translateRemoteFDToLocalFD (s : IpcFds) (remoteFD : Z) (increaseRefcount : bool) : Z * IpcFds :=
  match ipcFdMapRemoteToLocal s !! remoteFD with
  | Some l => (l, if increaseRefcount then increaseRefcountForIpcFd s remoteFD else s)
  | None => (invalidFd, s)
  end.

Definition translateLocalFDToRemoteFD (s : IpcFds) (localFD translatedRemoteFD : Z) : Z :=
  default translatedRemoteFD (ipcFdMapLocalToRemote s !! localFD).

Definition addPtrToIpcMap (s : IpcFds) (ptr remoteFd : Z) : IpcFds := set_ptrs s (<[ptr := remoteFd]> (ipcPtrToRemoteFdMap s)).

(** Whether the mapping was removed; its count stays behind. *)
Definition removeIpcFDMapping (s : IpcFds) (remoteFD : Z) : bool * IpcFds :=
  match ipcFdRefcounts s !! remoteFD with
  | None => (false, s)
  | Some _ =>
      match ipcFdMapRemoteToLocal s !! remoteFD with
      | None => (false, s)
      | Some localFD =>
          let s := mkFds (ipcFdMapLocalToRemote s) (delete remoteFD (ipcFdMapRemoteToLocal s)) (ipcFdRefcounts s) (ipcPtrToRemoteFdMap s) in
          match ipcFdMapLocalToRemote s !! localFD with
          | None => (false, s)
          | Some _ =>
              (true, mkFds (delete localFD (ipcFdMapLocalToRemote s)) (ipcFdMapRemoteToLocal s) (ipcFdRefcounts s) (ipcPtrToRemoteFdMap s))
          end
      end
  end.

Definition decreaseRefcountForIpcFd (s : IpcFds) (remoteFd : Z) : bool * IpcFds :=
  match ipcFdRefcounts s !! remoteFd with
  | None => (false, s)
  | Some n =>
      let n' := if 1 <=? n then n - 1 else n in
      let s := set_counts s (<[remoteFd := n']> (ipcFdRefcounts s)) in
      if 1 <=? n' then (false, s) else removeIpcFDMapping s remoteFd
  end.

Definition removePtrFromIpcMap (s : IpcFds) (ptr : Z) : Z * IpcFds :=
  match ipcPtrToRemoteFdMap s !! ptr with
  | None => (invalidFd, s)
  | Some remoteFd =>
      let s := set_ptrs s (delete ptr (ipcPtrToRemoteFdMap s)) in
      let (closed, s) := decreaseRefcountForIpcFd s remoteFd in
      (if closed : bool then remoteFd else invalidFd, s)
  end.

(** * The connection

    What the client uses of [Connection]: requests, the descriptors that travel beside
    them, and the response to a reverse transfer.  [W] is the rest of the system. *)
Class FdConnection (W : Type) := {
  send : W -> message -> bool * W;
  sendFds : W -> list Z -> bool * W;
  receiveFds : W -> nat -> option (list Z) * W;
  receiveRemoteFds : W -> option RespReverseTransferFd * W;
}.

Section translation.
Context {W : Type} `{FdConnection W}.

(** ** To descriptors of the client *)

(** The first loop: the descriptors that are known, with a mark for each. *)
Fixpoint reuseKnown (s : IpcFds) (pIpcHandles : list (list Z)) : list (list Z * bool) * IpcFds :=
  match pIpcHandles with
  | [] => ([], s)
  | h :: hs =>
      let (localFd, s) := translateRemoteFDToLocalFD s (loadFd h) true in
      let '(hs, s) := reuseKnown s hs in
      (if validFd localFd then (storeFd h localFd, true) :: hs else (h, false) :: hs, s)
  end.

(** The loop over the handles that are not known. *)
Fixpoint translateRemaining (translate : list Z -> IpcFds -> W -> res (Z * list Z * IpcFds * W)) (hs : list (list Z * bool)) (s : IpcFds) (w : W)
  : res (Z * list (list Z) * IpcFds * W) :=
  match hs with
  | [] => Ret (ZE_RESULT_SUCCESS, [], s, w)
  | (h, true) :: hs =>
      '(ret, l, s, w) ← translateRemaining translate hs s w;
      Ret (ret, h :: l, s, w)
  | (h, false) :: hs =>
      '(ret, h, s, w) ← translate h s w;
      if negb (ret =? ZE_RESULT_SUCCESS) then Ret (ret, h :: map fst hs, s, w)
      else
        '(ret, l, s, w) ← translateRemaining translate hs s w;
        Ret (ret, h :: l, s, w)
  end.

(** The last loop: the handles with the descriptors that were received. *)
Fixpoint registerReceived (s : IpcFds) (pIpcHandles : list (list Z)) (localFileDescriptors : list Z) : list (list Z) * IpcFds :=
  match pIpcHandles, localFileDescriptors with
  | h :: hs, fd :: fds =>
      let (localFD, s) := translateNewRemoteFDToLocalFD s (loadFd h) fd in
      let (hs, s) := registerReceived s hs fds in
      (storeFd h localFD :: hs, s)
  | hs, _ => (hs, s)
  end.

Definition requestFds (remoteFds : list Z) : ReqTransferFd :=
  mkReqTransferFd (requestHeader ReqTransferFd_subtype) (remoteFds ++ drop (length remoteFds) [0; 0; 0; 0]) (u16 (Z.of_nat (length remoteFds))).

(** The connection's mutex is not recursive: locking it again in the same thread is
    undefined.  [calls] bounds the nesting of calls, and [locked] tells whether an outer
    call holds the mutex. *)
Fixpoint toLocalFds (calls : nat) (locked : bool) (pIpcHandles : list (list Z)) (s : IpcFds) (w : W) : res (Z * list (list Z) * IpcFds * W) :=
  match calls with
  | O => Undef
  | S calls =>
      if locked then Undef
      else if maxFdsCount <? Z.of_nat (length pIpcHandles) then Ret (ZE_RESULT_ERROR_OUT_OF_DEVICE_MEMORY, pIpcHandles, s, w)
      else
        let (reused, s) := reuseKnown s pIpcHandles in
        if existsb snd reused then
          translateRemaining (fun h s w => '(ret, hs, s, w) ← toLocalFds calls true [h] s w; Ret (ret, hd h hs, s, w)) reused s w
        else
          let (sent, w) := send w (MReqTransferFd (requestFds (map loadFd pIpcHandles))) in
          if negb sent then Ret (ZE_RESULT_ERROR_DEVICE_LOST, pIpcHandles, s, w)
          else
            let (received, w) := receiveFds w (length pIpcHandles) in
            match received with
            | None => Ret (ZE_RESULT_ERROR_DEVICE_LOST, pIpcHandles, s, w)
            | Some localFileDescriptors =>
                let (hs, s) := registerReceived s pIpcHandles localFileDescriptors in
                Ret (ZE_RESULT_SUCCESS, hs, s, w)
            end
  end.

(** ** To descriptors of the service *)

Definition reuseKnownRemote (s : IpcFds) (h : list Z) : list Z * bool :=
  let remoteFd := translateLocalFDToRemoteFD s (loadFd h) invalidFd in
  if validFd remoteFd then (storeFd h remoteFd, true) else (h, false).

(** The descriptors of the response are not registered. *)
Fixpoint replaceByRemote (s : IpcFds) (pIpcHandles : list (list Z)) (remoteFds : list Z) : list (list Z) :=
  match pIpcHandles, remoteFds with
  | h :: hs, fd :: fds => storeFd h (translateLocalFDToRemoteFD s (loadFd h) fd) :: replaceByRemote s hs fds
  | hs, _ => hs
  end.

Fixpoint toRemoteFds (calls : nat) (locked : bool) (pIpcHandles : list (list Z)) (s : IpcFds) (w : W) : res (Z * list (list Z) * W) :=
  match calls with
  | O => Undef
  | S calls =>
      if locked then Undef
      else if maxFdsCount <? Z.of_nat (length pIpcHandles) then Ret (ZE_RESULT_ERROR_OUT_OF_DEVICE_MEMORY, pIpcHandles, w)
      else
        let localFileDescriptors := map loadFd pIpcHandles in
        let reused := map (reuseKnownRemote s) pIpcHandles in
        if existsb snd reused then
          '(ret, hs, _, w) ← translateRemaining (fun h s w => '(ret, hs, w) ← toRemoteFds calls true [h] s w; Ret (ret, hd h hs, s, w)) reused s w;
          Ret (ret, hs, w)
        else
          let (sent, w) := send w (MReqReverseTransferFd (newReqReverseTransferFd (u16 (Z.of_nat (length pIpcHandles))))) in
          if negb sent then Ret (ZE_RESULT_ERROR_DEVICE_LOST, pIpcHandles, w)
          else
            let (sent, w) := sendFds w localFileDescriptors in
            if negb sent then Ret (ZE_RESULT_ERROR_DEVICE_LOST, pIpcHandles, w)
            else
              let (received, w) := receiveRemoteFds w in
              match received with
              | None => Ret (ZE_RESULT_ERROR_DEVICE_LOST, pIpcHandles, w)
              | Some response =>
                  if RespReverseTransferFd_isInvalid response then Ret (ZE_RESULT_ERROR_DEVICE_LOST, pIpcHandles, w)
                  else Ret (ZE_RESULT_SUCCESS, replaceByRemote s pIpcHandles (prt_remoteFds response), w)
              end
  end.

End translation.

(** * API functions

    The calls of the service are arguments: what they answer; their result is what they are
    given.  Calls are nested once at most, and no lock is held around them. *)

Section api.
Context {W : Type} `{FdConnection W}.

Definition toLocal (hs : list (list Z)) (s : IpcFds) (w : W) := toLocalFds 2 false hs s w.
Definition toRemote (hs : list (list Z)) (s : IpcFds) (w : W) := toRemoteFds 2 false hs s w.

Definition toLocal1 (h : list Z) (s : IpcFds) (w : W) : res (Z * list Z * IpcFds * W) :=
  '(ret, hs, s, w) ← toLocal [h] s w; Ret (ret, hd h hs, s, w).
Definition toRemote1 (h : list Z) (s : IpcFds) (w : W) : res (Z * list Z * W) :=
  '(ret, hs, w) ← toRemote [h] s w; Ret (ret, hd h hs, w).

(** [zeMemGetIpcHandle], and [zeEventPoolGetIpcHandle], which has the same body. *)
Definition zeMemGetIpcHandle (ret : Z) (pIpcHandle : list Z) (s : IpcFds) (w : W) : res (Z * list Z * IpcFds * W) :=
  if negb (ret =? ZE_RESULT_SUCCESS) then Ret (ret, pIpcHandle, s, w) else toLocal1 pIpcHandle s w.

(** What the service is given, unless the translation failed. *)
Definition Forwarded : Type := Z + list Z.

(** [pptr] holds what the application left there: the address is stored by the call of the
    service, which comes last. *)
Definition zeMemOpenIpcHandle (handle : list Z) (pptr : Z) (s : IpcFds) (w : W) : res (Forwarded * IpcFds * W) :=
  '(ret, handle, w) ← toRemote1 handle s w;
  if negb (ret =? ZE_RESULT_SUCCESS) then Ret (inl ret, s, w)
  else Ret (inr handle, addPtrToIpcMap s pptr (loadFd handle), w).

Definition zeEventPoolOpenIpcHandle (hIpc : list Z) (s : IpcFds) (w : W) : res (Forwarded * IpcFds * W) :=
  '(ret, hIpc, w) ← toRemote1 hIpc s w;
  if negb (ret =? ZE_RESULT_SUCCESS) then Ret (inl ret, s, w) else Ret (inr hIpc, s, w).

(** [zeMemPutIpcHandle] and [zeEventPoolPutIpcHandle]; the list are the descriptors that
    the client closes. *)
Definition zeMemPutIpcHandle (handle : list Z) (s : IpcFds) (w : W) : res (Forwarded * list Z * IpcFds * W) :=
  let localFd := loadFd handle in
  '(ret, handle, w) ← toRemote1 handle s w;
  if negb (ret =? ZE_RESULT_SUCCESS) then Ret (inl ret, [], s, w)
  else
    let (last, s) := decreaseRefcountForIpcFd s (loadFd handle) in
    Ret (inr handle, if last : bool then [localFd] else [], s, w).

(** The descriptor that the service is told to close. *)
Definition zeMemCloseIpcHandle (ptr : Z) (s : IpcFds) : Z * IpcFds := removePtrFromIpcMap s ptr.

(** The service's part: what it closes. *)
Definition zeMemCloseIpcHandleHandler (handle_to_close : Z) : list Z := if negb (handle_to_close =? -1) then [handle_to_close] else [].

(** The two conversions between descriptors and handles; a descriptor is the low half of
    an [uint64_t].  [rpc] is the answer of the service to what it is given. *)
Definition zeMemGetIpcHandleFromFileDescriptorExp (handle : list Z) (rpc : list Z -> Z * list Z) (s : IpcFds) (w : W)
  : res (Z * option (list Z) * IpcFds * W) :=
  '(ret, handle, w) ← toRemote1 handle s w;
  if negb (ret =? ZE_RESULT_SUCCESS) then Ret (ret, None, s, w)
  else
    let (ret, pIpcHandle) := rpc handle in
    if negb (ret =? ZE_RESULT_SUCCESS) then Ret (ret, Some pIpcHandle, s, w)
    else '(ret, h, s, w) ← toLocal1 pIpcHandle s w; Ret (ret, Some h, s, w).

Definition zeMemGetFileDescriptorFromIpcHandleExp (ipcHandle : list Z) (rpc : list Z -> Z * list Z) (s : IpcFds) (w : W)
  : res (Z * option (list Z) * IpcFds * W) :=
  '(ret, ipcHandle, w) ← toRemote1 ipcHandle s w;
  if negb (ret =? ZE_RESULT_SUCCESS) then Ret (ret, None, s, w)
  else
    let (ret, pHandle) := rpc ipcHandle in
    if negb (ret =? ZE_RESULT_SUCCESS) then Ret (ret, Some pHandle, s, w)
    else '(ret, h, s, w) ← toLocal1 pHandle s w; Ret (ret, Some h, s, w).

(** ** Several handles at once *)

Definition zexMemGetIpcHandles (ret : Z) (pIpcHandles : option (list (list Z))) (s : IpcFds) (w : W)
  : res (Z * option (list (list Z)) * IpcFds * W) :=
  match pIpcHandles with
  | Some hs =>
      if negb (ret =? ZE_RESULT_SUCCESS) then Ret (ret, Some hs, s, w)
      else '(ret, hs, s, w) ← toLocal hs s w; Ret (ret, Some hs, s, w)
  | None => Ret (ret, None, s, w)
  end.

Definition ZE_MAX_IPC_HANDLE_SIZE : nat := 64.

(** The copy of the handles: as many bytes as there are handles. *)
Definition copyOfHandles (pIpcHandles : list (list Z)) : list (list Z) :=
  let numIpcHandles := length pIpcHandles in
  let bytes := take numIpcHandles (concat pIpcHandles) ++ replicate (ZE_MAX_IPC_HANDLE_SIZE * numIpcHandles - numIpcHandles) 0 in
  map (fun i => take ZE_MAX_IPC_HANDLE_SIZE (drop (ZE_MAX_IPC_HANDLE_SIZE * i) bytes)) (seq 0 numIpcHandles).

Definition zexMemOpenIpcHandles (pIpcHandles : option (list (list Z))) (s : IpcFds) (w : W) : res ((Z + list (list Z)) * W) :=
  match pIpcHandles with
  | None => Ret (inl ZE_RESULT_ERROR_INVALID_NULL_POINTER, w)
  | Some hs =>
      if Nat.eqb (length hs) 0 then Ret (inl ZE_RESULT_ERROR_INVALID_ARGUMENT, w)
      else
        '(ret, hs, w) ← toRemote (copyOfHandles hs) s w;
        Ret (if negb (ret =? ZE_RESULT_SUCCESS) then inl ret else inr hs, w)
  end.

(** ** Descriptors in extension structures

    The list of structures, each with its type and the bytes of its field [fd]. *)

Definition ZE_STRUCTURE_TYPE_EXTERNAL_MEMORY_IMPORT_FD : Z := 0x19.
Definition ZE_STRUCTURE_TYPE_EXTERNAL_MEMORY_EXPORT_FD : Z := 0x1a.

(** The loop of [zeMemGetAllocPropertiesWithExtensions], after the service's answer. *)
Fixpoint exportedFds (l : list (Z * list Z)) (s : IpcFds) (w : W) : res (Z * list (Z * list Z) * IpcFds * W) :=
  match l with
  | [] => Ret (ZE_RESULT_SUCCESS, [], s, w)
  | (stype, data) :: l =>
      if stype =? ZE_STRUCTURE_TYPE_EXTERNAL_MEMORY_EXPORT_FD then
        '(ret, data, s, w) ← toLocal1 data s w;
        if negb (ret =? ZE_RESULT_SUCCESS) then Ret (ret, (stype, data) :: l, s, w)
        else '(ret, l, s, w) ← exportedFds l s w; Ret (ret, (stype, data) :: l, s, w)
      else '(ret, l, s, w) ← exportedFds l s w; Ret (ret, (stype, data) :: l, s, w)
  end.

Definition zeMemGetAllocPropertiesWithExtensions (ret : Z) (pNext : list (Z * list Z)) (s : IpcFds) (w : W) : res (Z * list (Z * list Z) * IpcFds * W) :=
  if negb (ret =? ZE_RESULT_SUCCESS) then Ret (ret, pNext, s, w) else exportedFds pNext s w.

(** A failed translation is only logged. *)
Fixpoint translateRequiredPNextExtensions (l : list (Z * list Z)) (s : IpcFds) (w : W) : res (list (Z * list Z) * W) :=
  match l with
  | [] => Ret ([], w)
  | (stype, data) :: l =>
      '(data, w) ← (if stype =? ZE_STRUCTURE_TYPE_EXTERNAL_MEMORY_IMPORT_FD
                    then '(_, data, w) ← toRemote1 data s w; Ret (data, w) else Ret (data, w));
      '(l, w) ← translateRequiredPNextExtensions l s w;
      Ret ((stype, data) :: l, w)
  end.

End api.

(** * Descriptors in bytes *)

Definition is_int (v : Z) : Prop := -2147483648 <= v < 2147483648.
Definition is_byte (b : Z) : Prop := 0 <= b < 256.

(** ** Lemmas *)

Lemma i32_id v : is_int v -> i32 v = v.
Proof. unfold is_int, i32. intros. rewrite Z.mod_small; lia. Qed.

Lemma i32_mod v : i32 (v mod W32) = i32 v.
Proof. unfold i32. by rewrite Zplus_mod_idemp_l. Qed.

Lemma i32_int v : is_int (i32 v).
Proof. unfold i32, is_int. pose proof (Z.mod_pos_bound (v + 2147483648) W32). lia. Qed.

Lemma bytesOfInt_value v : littleEndian (bytesOfInt v) = v mod W32.
Proof. unfold littleEndian, bytesOfInt. cbn [foldr]. Z.div_mod_to_equations. lia. Qed.

Lemma loadFd_storeFd h v : is_int v -> loadFd (storeFd h v) = v.
Proof.
  intros Hv. unfold loadFd, storeFd. rewrite take_app_le by (cbn; lia). rewrite take_ge by (cbn; lia).
  by rewrite bytesOfInt_value, i32_mod, i32_id.
Qed.

Lemma drop_storeFd h v : drop 4 (storeFd h v) = drop 4 h.
Proof. unfold storeFd. by rewrite drop_app_length' by done. Qed.

(** Storing what was loaded restores the bytes. *)
Lemma storeFd_loadFd h : (4 <= length h)%nat -> Forall is_byte h -> storeFd h (loadFd h) = h.
Proof.
  destruct h as [|b0 [|b1 [|b2 [|b3 h]]]]; cbn [length]; try lia. intros _ Hb.
  do 4 (apply Forall_cons in Hb as [? Hb]). unfold is_byte in *.
  set (v := b0 + 256 * (b1 + 256 * (b2 + 256 * (b3 + 256 * 0)))). assert (Hv : 0 <= v < W32) by lia.
  assert (Hm : bytesOfInt (i32 v) = bytesOfInt v).
  { assert (E : exists k, i32 v = v + k * W32).
    { unfold i32. exists (- ((v + 2147483648) / W32)). pose proof (Z.div_mod (v + 2147483648) W32). lia. }
    destruct E as [k ->]. unfold bytesOfInt. do 4 (apply (f_equal2 cons); [Z.div_mod_to_equations; lia|]). done. }
  change (bytesOfInt (i32 v) ++ h = b0 :: b1 :: b2 :: b3 :: h). rewrite Hm. unfold bytesOfInt. subst v. cbn [app]. do 4 (apply (f_equal2 cons); [Z.div_mod_to_equations; lia|]). done.
Qed.

Lemma storeFd_storeFd h v v' : storeFd (storeFd h v) v' = storeFd h v'.
Proof. unfold storeFd at 1. by rewrite drop_storeFd. Qed.

(** * The registry is a counted bijection *)

Record fds_ok (s : IpcFds) : Prop := {
  ok_inverse : forall r l, ipcFdMapRemoteToLocal s !! r = Some l <-> ipcFdMapLocalToRemote s !! l = Some r;
  ok_counted : forall r l, ipcFdMapRemoteToLocal s !! r = Some l -> exists n, ipcFdRefcounts s !! r = Some n /\ 1 <= n < W64;
  ok_valid : forall r l, ipcFdMapRemoteToLocal s !! r = Some l -> (is_int r /\ r <> -1) /\ (is_int l /\ l <> -1);
}.

(** How often a descriptor of the service is in use. *)
Definition uses (s : IpcFds) (r : Z) : Z := match ipcFdMapRemoteToLocal s !! r with Some _ => default 0 (ipcFdRefcounts s !! r) | None => 0 end.

Lemma noFds_ok : fds_ok noFds.
Proof. split; intros r l; cbn; rewrite ?lookup_empty; done. Qed.

Lemma increase_ok s r l : fds_ok s -> ipcFdMapRemoteToLocal s !! r = Some l -> uses s r < u64_max ->
  let s' := increaseRefcountForIpcFd s r in
  fds_ok s' /\ uses s' r = uses s r + 1 /\ (forall r', r' <> r -> uses s' r' = uses s r') /\ ipcFdMapRemoteToLocal s' = ipcFdMapRemoteToLocal s.
Proof.
  intros [Hi Hc Hv] Hr Hlt. cbn zeta. unfold increaseRefcountForIpcFd, uses in *. destruct (Hc r l Hr) as (n & Hn & Hb). rewrite Hr, Hn in *. cbn in Hlt.
  unfold u64_max in Hlt. rewrite u64_id by (unfold is_u64; lia).
  split; [split; cbn; [done| |done]|].
  { intros r' l' Hr'. destruct (decide (r' = r)) as [->|Hne]; [rewrite lookup_insert_eq; exists (n + 1); split; [done|lia]|].
    rewrite lookup_insert_ne by done. by eapply Hc. }
  cbn. rewrite Hr, lookup_insert_eq. split; [done|]. split; [|done]. intros r' Hne. by rewrite lookup_insert_ne.
Qed.

Lemma register_fd_ok s r l : fds_ok s -> ipcFdMapRemoteToLocal s !! r = None -> ipcFdMapLocalToRemote s !! l = None ->
  is_int r -> r <> -1 -> is_int l -> l <> -1 ->
  exists s', translateNewRemoteFDToLocalFD s r l = (l, s') /\ fds_ok s' /\ uses s' r = 1 /\
    (forall r', r' <> r -> uses s' r' = uses s r') /\ ipcFdMapRemoteToLocal s' = <[r := l]> (ipcFdMapRemoteToLocal s).
Proof.
  intros [Hi Hc Hv] Hr Hl Hri Hr1 Hli Hl1. unfold translateNewRemoteFDToLocalFD. rewrite Hr. eexists. split; [done|]. split; [|split; [|split]].
  - split; cbn.
    + intros r' l'. destruct (decide (r' = r)) as [->|Hnr], (decide (l' = l)) as [->|Hnl]; rewrite ?lookup_insert_eq, ?lookup_insert_ne by done; [done| | |by apply Hi].
      * split; [congruence|]. intros Hx%Hi. congruence.
      * split; [|congruence]. intros Hx%Hi. congruence.
    + intros r' l' Hx. destruct (decide (r' = r)) as [->|Hnr]; [exists 1; rewrite lookup_insert_eq; split; [done|lia]|].
      rewrite lookup_insert_ne in * by done. by eapply Hc.
    + intros r' l' Hx. destruct (decide (r' = r)) as [->|Hnr]; [rewrite lookup_insert_eq in Hx; by injection Hx as <-|].
      rewrite lookup_insert_ne in Hx by done. by apply Hv.
  - unfold uses. cbn. by rewrite !lookup_insert_eq.
  - intros r' Hne. unfold uses. cbn. by rewrite !lookup_insert_ne.
  - done.
Qed.

Lemma decrease_ok s r l : fds_ok s -> ipcFdMapRemoteToLocal s !! r = Some l ->
  exists s', decreaseRefcountForIpcFd s r = (uses s r =? 1, s') /\ fds_ok s' /\ uses s' r = uses s r - 1 /\
    (forall r', r' <> r -> uses s' r' = uses s r') /\
    ipcFdMapRemoteToLocal s' = if uses s r =? 1 then delete r (ipcFdMapRemoteToLocal s) else ipcFdMapRemoteToLocal s.
Proof.
  intros [Hi Hc Hv] Hr. destruct (Hc r l Hr) as (n & Hn & Hb). unfold decreaseRefcountForIpcFd, uses. rewrite Hr, Hn. cbn [default from_option id].
  rewrite (proj2 (Z.leb_le 1 n)) by lia. destruct (Z.eqb_spec n 1) as [->|Hne1].
  - cbn -[removeIpcFDMapping]. unfold removeIpcFDMapping. cbn. rewrite lookup_insert_eq, Hr, (proj1 (Hi r l) Hr).
    eexists. split; [done|]. split; [split; cbn|cbn].
    + intros r' l'. destruct (decide (r' = r)) as [->|Hnr], (decide (l' = l)) as [->|Hnl]; rewrite ?lookup_delete_eq, ?lookup_delete_ne by done; [done| | |by apply Hi].
      * split; [done|]. intros Hx%Hi. congruence.
      * split; [|done]. intros Hx%Hi. pose proof (proj1 (Hi r l) Hr). congruence.
    + intros r' l' [Hnr Hx]%lookup_delete_Some. rewrite lookup_insert_ne by done. by eapply Hc.
    + intros r' l' [Hnr Hx]%lookup_delete_Some. by apply Hv.
    + rewrite lookup_delete_eq. split; [done|]. split; [|done]. intros r' Hnr. by rewrite lookup_delete_ne, lookup_insert_ne.
  - rewrite (proj2 (Z.leb_le 1 (n - 1))) by lia. eexists. split; [done|]. split; [split; cbn; [done| |done]|cbn].
    + intros r' l' Hx. destruct (decide (r' = r)) as [->|Hnr]; [rewrite lookup_insert_eq; exists (n - 1); split; [done|lia]|].
      rewrite lookup_insert_ne by done. by eapply Hc.
    + rewrite Hr, lookup_insert_eq. split; [done|]. split; [|done]. intros r' Hnr. by rewrite lookup_insert_ne.
Qed.

(** * Getting and putting handles *)

Section laws.
Context {W : Type} `{FdConnection W}.

(** What recvmsg documents of descriptors that arrive: as many as were asked for, none of
    which the process had open. *)
Definition fresh_fds (s : IpcFds) (w : W) : Prop :=
  forall m w1 n fds w2, send w m = (true, w1) -> receiveFds w1 n = (Some fds, w2) ->
  length fds = n /\ Forall (fun l => (is_int l /\ l <> -1) /\ ipcFdMapLocalToRemote s !! l = None) fds.

(** ** Lemmas *)

Lemma toLocal1_known s (w : W) h l : fds_ok s -> ipcFdMapRemoteToLocal s !! loadFd h = Some l ->
  toLocal1 h s w ⇓ (ZE_RESULT_SUCCESS, storeFd h l, increaseRefcountForIpcFd s (loadFd h), w).
Proof.
  intros Hs Hl. destruct (ok_valid s Hs _ _ Hl) as [_ [_ Hne]]. unfold toLocal1, toLocal. cbn -[storeFd loadFd increaseRefcountForIpcFd].
  unfold translateRemoteFDToLocalFD. rewrite Hl. unfold validFd. by rewrite (proj2 (Z.eqb_neq l (-1)) Hne).
Qed.

Lemma toLocal1_new s (w : W) h : fds_ok s -> fresh_fds s w -> ipcFdMapRemoteToLocal s !! loadFd h = None -> loadFd h <> -1 ->
  exists ret h' s' w', toLocal1 h s w ⇓ (ret, h', s', w') /\
    ((ret = ZE_RESULT_ERROR_DEVICE_LOST /\ h' = h /\ s' = s) \/
     (ret = ZE_RESULT_SUCCESS /\ exists l, h' = storeFd h l /\ is_int l /\ fds_ok s' /\ uses s' (loadFd h) = 1 /\
        (forall r', r' <> loadFd h -> uses s' r' = uses s r') /\ ipcFdMapRemoteToLocal s' = <[loadFd h := l]> (ipcFdMapRemoteToLocal s))).
Proof.
  intros Hs Hfresh Hl Hne. unfold toLocal1, toLocal. cbn -[storeFd loadFd send receiveFds].
  unfold translateRemoteFDToLocalFD. rewrite Hl. cbn -[storeFd loadFd send receiveFds].
  destruct (send w _) as [[|] w1] eqn:Es; cbn -[storeFd loadFd receiveFds]; [|do 4 eexists; split; [done|]; by left].
  destruct (receiveFds w1 1) as [[fds|] w2] eqn:Er; cbn -[storeFd loadFd]; [|do 4 eexists; split; [done|]; by left].
  destruct (Hfresh _ _ _ _ _ Es Er) as [Hlen Hf]. destruct fds as [|l [|? ?]]; [done| |done]. apply Forall_singleton in Hf as [[Hli Hl1] Hnew].
  destruct (register_fd_ok s (loadFd h) l Hs Hl Hnew (i32_int _) Hne Hli Hl1) as (s' & -> & Hs' & Hu & Hother & Hmap).
  do 4 eexists. split; [done|]. right. split; [done|]. by exists l.
Qed.

(** What zeMemGetIpcHandle does with a handle of the service. *)
Lemma get_handle_counts s (w : W) h : fds_ok s -> fresh_fds s w -> loadFd h <> -1 -> uses s (loadFd h) < u64_max ->
  exists ret h' s' w', zeMemGetIpcHandle ZE_RESULT_SUCCESS h s w ⇓ (ret, h', s', w') /\ fds_ok s' /\
    (ret = ZE_RESULT_SUCCESS -> ipcFdMapRemoteToLocal s' !! loadFd h = Some (loadFd h') /\ drop 4 h' = drop 4 h /\
       uses s' (loadFd h) = uses s (loadFd h) + 1 /\ forall r, r <> loadFd h -> uses s' r = uses s r) /\
    (ret <> ZE_RESULT_SUCCESS -> s' = s /\ h' = h).
Proof.
  intros Hs Hfresh Hne Hlt. unfold zeMemGetIpcHandle. cbn [negb]. rewrite Z.eqb_refl. cbn [negb].
  destruct (ipcFdMapRemoteToLocal s !! loadFd h) as [l|] eqn:Hl.
  - rewrite (toLocal1_known s w h l Hs Hl). destruct (increase_ok s (loadFd h) l Hs Hl Hlt) as (Hs' & Hu & Ho & Hm).
    do 4 eexists. split; [done|]. split; [done|]. split; [|done]. intros _. rewrite Hm, loadFd_storeFd, drop_storeFd; [done|].
    by apply (ok_valid s Hs _ _ Hl).
  - assert (Hz : uses s (loadFd h) = 0) by (unfold uses; by rewrite Hl).
    destruct (toLocal1_new s w h Hs Hfresh Hl Hne) as (ret & h' & s' & w' & Ht & Hc). exists ret, h', s', w'. split; [done|].
    destruct Hc as [(-> & -> & ->)|(-> & l & -> & Hli & Hs' & Hu & Ho & Hm)]; (split; [done|]); split; try done.
    intros _. rewrite Hm, lookup_insert_eq, loadFd_storeFd, drop_storeFd, Hz by done. done.
Qed.

Lemma toRemote1_known s (w : W) h r : fds_ok s -> ipcFdMapLocalToRemote s !! loadFd h = Some r ->
  toRemote1 h s w ⇓ (ZE_RESULT_SUCCESS, storeFd h r, w).
Proof.
  intros Hs Hr. destruct (ok_valid s Hs r (loadFd h)) as [[_ Hne] _]; [by apply (ok_inverse s Hs)|].
  unfold toRemote1, toRemote. cbn -[storeFd loadFd]. unfold reuseKnownRemote, translateLocalFDToRemoteFD. rewrite Hr. cbn [default from_option id].
  unfold validFd. by rewrite (proj2 (Z.eqb_neq r (-1)) Hne).
Qed.

(** ** Counting *)

(** C37: a handle from the service is given a descriptor of the client, and every further
    one for the same descriptor is counted; putting one back closes the client's descriptor
    exactly when it was the last, and the service is given its own descriptor. *)
Theorem ipc_handles_are_counted s (w : W) h : fds_ok s ->
  (fresh_fds s w -> loadFd h <> -1 -> uses s (loadFd h) < u64_max ->
   exists ret h' s' w', zeMemGetIpcHandle ZE_RESULT_SUCCESS h s w ⇓ (ret, h', s', w') /\ fds_ok s' /\
     (ret = ZE_RESULT_SUCCESS -> ipcFdMapRemoteToLocal s' !! loadFd h = Some (loadFd h') /\ drop 4 h' = drop 4 h /\
        uses s' (loadFd h) = uses s (loadFd h) + 1 /\ forall r, r <> loadFd h -> uses s' r = uses s r) /\
     (ret <> ZE_RESULT_SUCCESS -> s' = s /\ h' = h)) /\
  (forall r, ipcFdMapRemoteToLocal s !! r = Some (loadFd h) ->
   exists s', zeMemPutIpcHandle h s w ⇓ (inr (storeFd h r), if uses s r =? 1 then [loadFd h] else [], s', w) /\ fds_ok s' /\
     uses s' r = uses s r - 1 /\ (forall r', r' <> r -> uses s' r' = uses s r') /\
     (uses s r = 1 -> ipcFdMapRemoteToLocal s' !! r = None)).
Proof.
  intros Hs. split.
  - intros Hfresh Hne Hlt. by apply get_handle_counts.
  - intros r Hr. unfold zeMemPutIpcHandle. rewrite (toRemote1_known s w h r Hs (proj1 (ok_inverse s Hs _ _) Hr)). cbn [mbind res_bind].
    rewrite Z.eqb_refl. cbn [negb]. rewrite loadFd_storeFd by (by apply (ok_valid s Hs _ _ Hr)).
    destruct (decrease_ok s r (loadFd h) Hs Hr) as (s' & -> & Hs' & Hu & Ho & Hm). exists s'. split; [done|]. split; [done|]. split; [done|].
    split; [done|]. intros H1. rewrite Hm, H1, Z.eqb_refl. apply lookup_delete_eq.
Qed.

(** The service gets back the handle that it gave, when the application opens it or puts it
    back, without another exchange of descriptors. *)
Theorem handles_come_back s (w w2 : W) h h' s' w' : fds_ok s -> fresh_fds s w -> (4 <= length h)%nat -> Forall is_byte h ->
  loadFd h <> -1 -> uses s (loadFd h) < u64_max ->
  zeMemGetIpcHandle ZE_RESULT_SUCCESS h s w ⇓ (ZE_RESULT_SUCCESS, h', s', w') ->
  (forall pptr, exists s2, zeMemOpenIpcHandle h' pptr s' w2 ⇓ (inr h, s2, w2)) /\
  zeEventPoolOpenIpcHandle h' s' w2 ⇓ (inr h, s', w2) /\
  (exists closed s2, zeMemPutIpcHandle h' s' w2 ⇓ (inr h, closed, s2, w2)).
Proof.
  intros Hs Hfresh Hlen Hb Hne Hlt Hget. destruct (get_handle_counts s w h Hs Hfresh Hne Hlt) as (ret & h1 & s1 & w1 & Hget' & Hs1 & Hok & _). rewrite Hget in Hget'. injection Hget' as <- <- <- <-.
  destruct (Hok eq_refl) as (Hm & Hd & _). pose proof (proj1 (ok_inverse s' Hs1 _ _) Hm) as Hr.
  assert (Hback : storeFd h' (loadFd h) = h).
  { transitivity (storeFd h (loadFd h)); [unfold storeFd; by rewrite Hd|by apply storeFd_loadFd]. }
  pose proof (toRemote1_known s' w2 h' (loadFd h) Hs1 Hr) as Ht. rewrite Hback in Ht. split; [|split].
  - intros pptr. unfold zeMemOpenIpcHandle. rewrite Ht. cbn [mbind res_bind]. rewrite Z.eqb_refl. by eexists.
  - unfold zeEventPoolOpenIpcHandle. rewrite Ht. cbn [mbind res_bind]. by rewrite Z.eqb_refl.
  - unfold zeMemPutIpcHandle. rewrite Ht. cbn [mbind res_bind]. rewrite Z.eqb_refl. cbn [negb]. destruct (decreaseRefcountForIpcFd s' _) as [b s2].
    by do 2 eexists.
Qed.

(** ** Where translation fails *)

(** When some of several handles are known and others are not, the connection's mutex is
    locked twice. *)
Theorem mixed_handles_relock s (w : W) h1 h2 l : fds_ok s -> ipcFdMapRemoteToLocal s !! loadFd h1 = Some l ->
  ipcFdMapRemoteToLocal s !! loadFd h2 = None ->
  zexMemGetIpcHandles ZE_RESULT_SUCCESS (Some [h1; h2]) s w = Undef /\
  zexMemGetIpcHandles ZE_RESULT_SUCCESS (Some [h2; h1]) s w = Undef.
Proof.
  intros Hs H1 H2. destruct (ok_valid s Hs _ _ H1) as [_ [_ Hne]].
  assert (Hinc : forall r, ipcFdMapRemoteToLocal (increaseRefcountForIpcFd s r) = ipcFdMapRemoteToLocal s).
  { intros r. unfold increaseRefcountForIpcFd. by destruct (ipcFdRefcounts s !! r). }
  unfold zexMemGetIpcHandles, toLocal. cbn -[storeFd loadFd increaseRefcountForIpcFd]. unfold translateRemoteFDToLocalFD.
  rewrite H1, !Hinc, H2, ?H1. cbn -[storeFd loadFd increaseRefcountForIpcFd]. unfold validFd. rewrite (proj2 (Z.eqb_neq l (-1)) Hne).
  cbn -[storeFd loadFd increaseRefcountForIpcFd]. split; [done|]. rewrite ?H1. cbn -[storeFd loadFd increaseRefcountForIpcFd].
  unfold validFd. by rewrite ?(proj2 (Z.eqb_neq l (-1)) Hne).
Qed.

(** A handle from another process makes the service get a descriptor of its own, which is
    never reported as the one to close: opening does not count it. *)
Theorem opened_descriptor_is_never_closed s (w : W) h pptr sent s' w' ptr : 
  zeMemOpenIpcHandle h pptr s w ⇓ (inr sent, s', w') -> ipcFdRefcounts s !! loadFd sent = None ->
  (forall r, ipcPtrToRemoteFdMap s !! ptr = Some r -> ipcFdRefcounts s !! r = None) ->
  zeMemCloseIpcHandleHandler (fst (zeMemCloseIpcHandle ptr s')) = [].
Proof.
  unfold zeMemOpenIpcHandle. destruct (toRemote1 h s w) as [[[ret h'] w1]| |]; cbn [mbind res_bind]; [|done..].
  destruct (negb (ret =? _)); [done|]. intros [= -> <- <-] Hn Hold. unfold zeMemCloseIpcHandle, removePtrFromIpcMap. cbn [addPtrToIpcMap set_ptrs ipcPtrToRemoteFdMap].
  assert (Hnone : forall r, <[pptr := loadFd sent]> (ipcPtrToRemoteFdMap s) !! ptr = Some r -> ipcFdRefcounts s !! r = None).
  { intros r. destruct (decide (ptr = pptr)) as [->|Hne]; [rewrite lookup_insert_eq; by intros [= <-]|]. rewrite lookup_insert_ne by done. apply Hold. }
  destruct (<[pptr := loadFd sent]> (ipcPtrToRemoteFdMap s) !! ptr) as [r|] eqn:E; [|done].
  unfold decreaseRefcountForIpcFd. cbn [set_ptrs addPtrToIpcMap ipcFdRefcounts]. by rewrite (Hnone r eq_refl).
Qed.

End laws.

(** * Examples *)

Module Example.

(** A connection whose state is the next descriptor; the service's are above 100. *)
#[export] Instance toyConnection : FdConnection Z := {
  send w m := (true, w);
  sendFds w fds := (true, w);
  receiveFds w n := if (n <=? 4)%nat then (Some (map (fun i => w + Z.of_nat i) (seq 0 n)), w + Z.of_nat n) else (None, w);
  receiveRemoteFds w := (Some (mkRespReverseTransferFd (requestHeader RespReverseTransferFd_subtype) [101; 102; 103; 104]), w);
}.

Definition handle (fd : Z) : list Z := storeFd (repeat 9 64) fd.

Lemma toy_fresh (w : Z) : 0 <= w < 1000 -> fresh_fds noFds w.
Proof.
  intros Hw m w1 n fds w2 [= <-]. cbn. destruct (Nat.leb_spec n 4) as [Hn|]; [|done]. intros [= <- _].
  split; [by rewrite length_map, length_seq|]. apply Forall_forall. intros l Hl. apply list_elem_of_fmap in Hl as [i [-> Hi]].
  apply elem_of_seq in Hi. unfold is_int. split; [lia|apply lookup_empty].
Qed.

Lemma handle_bytes fd : Forall is_byte (bytesOfInt fd) -> Forall is_byte (handle fd).
Proof. intros Hf. unfold handle, storeFd. apply Forall_app. split; [done|]. cbn. repeat (apply Forall_cons; split; [unfold is_byte; lia|]). by apply Forall_nil. Qed.

Lemma bytesOfInt_bytes v : Forall is_byte (bytesOfInt v).
Proof. unfold bytesOfInt. repeat (apply Forall_cons; split; [apply Z.mod_pos_bound; lia|]). by apply Forall_nil. Qed.

(** The descriptor 50 of the service, gotten at 7, gotten again, and put back twice. *)
Lemma ipc_handles_are_counted_witness :
  exists ret h' s' w', zeMemGetIpcHandle ZE_RESULT_SUCCESS (handle 50) noFds 7 ⇓ (ret, h', s', w') /\
    ret = ZE_RESULT_SUCCESS /\ loadFd h' = 7 /\ uses s' 50 = 1 /\
    exists s2, zeMemPutIpcHandle h' s' w' ⇓ (inr (handle 50), [7], s2, w') /\ ipcFdMapRemoteToLocal s2 !! 50 = None.
Proof.
  destruct (proj1 (ipc_handles_are_counted noFds 7 (handle 50) noFds_ok) (toy_fresh 7 ltac:(lia)) ltac:(by vm_compute) ltac:(by vm_compute))
    as (ret & h' & s' & w' & Hg & Hs' & _ & _).
  pose proof (proj2 (ipc_handles_are_counted s' w' h' Hs') 50) as Hput. exists ret, h', s', w'. split; [exact Hg|].
  vm_compute in Hg. injection Hg as <- <- <- <-. do 3 (split; [by vm_compute|]).
  destruct (Hput ltac:(by vm_compute)) as (s2 & Hp & _ & _ & _ & Hlast). exists s2. split; [exact Hp|]. apply Hlast. by vm_compute.
Defined.

Lemma handles_come_back_witness :
  exists h' s', zeMemGetIpcHandle ZE_RESULT_SUCCESS (handle 50) noFds 7 ⇓ (ZE_RESULT_SUCCESS, h', s', 8) /\
    zeEventPoolOpenIpcHandle h' s' 8 ⇓ (inr (handle 50), s', 8).
Proof.
  eexists _, _. assert (Hg : zeMemGetIpcHandle ZE_RESULT_SUCCESS (handle 50) noFds 7 ⇓ (ZE_RESULT_SUCCESS, handle 7,
    mkFds (<[7 := 50]> ∅) (<[50 := 7]> ∅) (<[50 := 1]> ∅) ∅, 8)) by done.
  split; [exact Hg|].
  refine (proj1 (proj2 (handles_come_back noFds 7 8 (handle 50) _ _ 8 noFds_ok (toy_fresh 7 ltac:(lia)) _ _ _ _ Hg)));
    [cbn; lia|apply handle_bytes, bytesOfInt_bytes|by vm_compute..].
Defined.

(** The descriptor 50 is known, 51 is not. *)
Lemma mixed_handles_relock_witness :
  let s := mkFds (<[7 := 50]> ∅) (<[50 := 7]> ∅) (<[50 := 1]> ∅) ∅ in
  zexMemGetIpcHandles ZE_RESULT_SUCCESS (Some [handle 50; handle 51]) s 8 = Undef.
Proof.
  intros s. refine (proj1 (mixed_handles_relock s 8 (handle 50) (handle 51) 7 _ _ _)); [|by vm_compute..].
  assert (Hr : translateNewRemoteFDToLocalFD noFds 50 7 = (7, s)) by done.
  destruct (register_fd_ok noFds 50 7 noFds_ok) as (s' & Hs' & Hok & _); [done|done|by split|done|by split|done|].
  rewrite Hr in Hs'. by injection Hs' as <-.
Defined.

(** A handle whose descriptor the service got as 101: closing the pointer, at the address
    that the call stored or at the one that was recorded, closes nothing in the service. *)
Lemma opened_descriptor_is_never_closed_witness :
  exists s', zeMemOpenIpcHandle (handle 7) 0 noFds 8 ⇓ (inr (handle 101), s', 8) /\
    zeMemCloseIpcHandleHandler (fst (zeMemCloseIpcHandle 0 s')) = [].
Proof.
  eexists. assert (Ho : zeMemOpenIpcHandle (handle 7) 0 noFds 8 ⇓ (inr (handle 101), mkFds ∅ ∅ ∅ (<[0 := 101]> ∅), 8)) by done.
  split; [exact Ho|]. apply (opened_descriptor_is_never_closed noFds 8 (handle 7) 0 (handle 101) _ 8 0 Ho); [done|]. done.
Defined.

(** Of two handles that are opened together, two bytes are copied: the second descriptor
    that the service gets is 0. *)
Lemma opened_handles_are_cut :
  map loadFd (copyOfHandles [handle 5; handle 6]) = [5; 0] /\ map loadFd (copyOfHandles [handle 300]) = [44].
Proof. by vm_compute. Qed.

(** The same descriptor twice is received twice, and the second is forgotten while open. *)
Lemma repeated_handle_leaks :
  exists s', zexMemGetIpcHandles ZE_RESULT_SUCCESS (Some [handle 50; handle 50]) noFds 7 ⇓ (ZE_RESULT_SUCCESS, Some [handle 7; handle 7], s', 9) /\
    ipcFdMapLocalToRemote s' !! 8 = None /\ uses s' 50 = 1.
Proof. eexists. split; [done|]. by vm_compute. Qed.

End Example.
