(* ===== verification/EventState.v ===== *)
(** What the client remembers of an event (client/icd/level_zero/icd_level_zero.h,
    [IcdL0Event]): whether it is signaled or cleared and its timestamp, so that some of the
    API functions (generated_icd_level_zero.cpp) need not ask the service; beside the event
    itself, which the device and the host change. *)

From stdpp Require Import relations.
From S2P Require Import Prelude.
From S2P Require Import ClientContext.
Local Open Scope Z_scope.

Definition ZE_RESULT_NOT_READY : Z := 1.

(** * The client's event *)

Inductive EventState := STATE_UNKNOWN | STATE_SIGNALED | STATE_CLEARED.

#[export] Instance EventState_eq_dec : EqDecision EventState.
Proof. solve_decision. Defined.

(** Of [ze_kernel_timestamp_result_t]: [context.kernelStart], and the other fields. *)
Record Timestamp := mkTimestamp { kernelStart : Z; otherFields : list Z }.

#[export] Instance Timestamp_eq_dec : EqDecision Timestamp.
Proof. solve_decision. Defined.

Definition noTimestamp : Timestamp := mkTimestamp 0 [].

Record IcdL0Event := mkEvent { state : EventState; timestamp : Timestamp; allowIcdState : bool }.

Definition newEvent : IcdL0Event := mkEvent STATE_CLEARED noTimestamp true.

(** [immediate]: whether the command list is. *)
Definition setAllowIcdState (e : IcdL0Event) (immediate isBeingAppendedForGpuModification : bool) : IcdL0Event :=
  mkEvent (if isBeingAppendedForGpuModification then STATE_UNKNOWN else state e) (timestamp e) (allowIcdState e && immediate).

Definition signal (e : IcdL0Event) : IcdL0Event := mkEvent STATE_SIGNALED (timestamp e) (allowIcdState e).
Definition clear (e : IcdL0Event) : IcdL0Event := mkEvent STATE_CLEARED noTimestamp (allowIcdState e).
Definition isSignaled (e : IcdL0Event) : bool := allowIcdState e && bool_decide (state e = STATE_SIGNALED).
Definition isCleared (e : IcdL0Event) : bool := allowIcdState e && bool_decide (state e = STATE_CLEARED).
Definition storeTimestamp (e : IcdL0Event) (t : Timestamp) : IcdL0Event := mkEvent (state e) t (allowIcdState e).
Definition isTimestamp (e : IcdL0Event) : bool := allowIcdState e && negb (kernelStart (timestamp e) =? 0).

(** * The event of the service

    It is signaled or not and has a timestamp.  Commands of immediate lists that change it
    are pending until the device has run them, in their order; those of other lists are run
    as often and whenever their list is executed. *)

Inductive GpuCommand := GpuSignal (t : Timestamp) | GpuReset.

#[export] Instance GpuCommand_eq_dec : EqDecision GpuCommand.
Proof. solve_decision. Defined.

Record RealEvent := mkReal { signaled : bool; realTimestamp : Timestamp; pending : list GpuCommand; recorded : list GpuCommand }.

Definition runCommand (r : RealEvent) (c : GpuCommand) : RealEvent :=
  match c with
  | GpuSignal t => mkReal true t (pending r) (recorded r)
  | GpuReset => mkReal false noTimestamp (pending r) (recorded r)
  end.

Definition newReal : RealEvent := mkReal false noTimestamp [] [].

Definition hostSignal (r : RealEvent) : RealEvent := mkReal true (realTimestamp r) (pending r) (recorded r).
Definition hostReset (r : RealEvent) : RealEvent := mkReal false noTimestamp (pending r) (recorded r).

Definition enqueue (r : RealEvent) (immediate : bool) (c : GpuCommand) : RealEvent :=
  if immediate then mkReal (signaled r) (realTimestamp r) (pending r ++ [c]) (recorded r)
  else mkReal (signaled r) (realTimestamp r) (pending r) (recorded r ++ [c]).

Definition realStatus (r : RealEvent) : Z := if signaled r then ZE_RESULT_SUCCESS else ZE_RESULT_NOT_READY.

(** * API functions

    Both events; the calls of the service reach it. *)
Abbreviation Events := (IcdL0Event * RealEvent)%type.

(** Every function that appends a command with an event to signal, and
    [zeCommandListAppendSignalEvent]. *)
Definition appendSignal (s : Events) (immediate : bool) (t : Timestamp) : Events :=
  (setAllowIcdState (fst s) immediate true, enqueue (snd s) immediate (GpuSignal t)).

Definition zeCommandListAppendEventReset (s : Events) (immediate : bool) : Events :=
  (setAllowIcdState (fst s) immediate true, enqueue (snd s) immediate GpuReset).

(** Every function that appends a command with events to wait for. *)
Definition appendWait (s : Events) (immediate : bool) : Events := (setAllowIcdState (fst s) immediate false, snd s).

Definition zeEventHostSignal (s : Events) : Events := (fst s, hostSignal (snd s)).

(** [memory]: the result of reading back memory that was written for the application. *)
Definition zeEventQueryStatus (s : Events) (memory : Z) : Z * Events :=
  if isSignaled (fst s) then (ZE_RESULT_SUCCESS, s)
  else
    let ret := realStatus (snd s) in
    let ret := if ret =? ZE_RESULT_SUCCESS then memory else ret in
    (ret, if ret =? ZE_RESULT_SUCCESS then (signal (fst s), snd s) else s).

(** One round of waiting, which AdaptiveWait.v repeats; it asks the service in the same way. *)
Definition zeEventHostSynchronizeRpcHelper (s : Events) (memory : Z) : Z * Events := zeEventQueryStatus s memory.

(** [answered]: the call reached the service. *)
Definition zeEventHostReset (s : Events) (answered : bool) : Events :=
  if isCleared (fst s) then s else (clear (fst s), if answered then hostReset (snd s) else snd s).

(** The timestamp of an event that is not signaled is not ready. *)
Definition zeEventQueryKernelTimestamp (s : Events) : Z * option Timestamp * Events :=
  if isTimestamp (fst s) then (ZE_RESULT_SUCCESS, Some (timestamp (fst s)), s)
  else if signaled (snd s) then (ZE_RESULT_SUCCESS, Some (realTimestamp (snd s)), (storeTimestamp (fst s) (realTimestamp (snd s)), snd s))
  else (ZE_RESULT_NOT_READY, None, s).

(** ** Histories *)

Inductive action :=
| AppendSignal (immediate : bool) (t : Timestamp)
| AppendReset (immediate : bool)
| AppendWait (immediate : bool)
| HostSignal
| QueryStatus
| HostReset
| QueryTimestamp
| DeviceRuns
| DeviceRepeats (c : GpuCommand).

Definition runPending (r : RealEvent) : RealEvent :=
  match pending r with
  | [] => r
  | c :: l => runCommand (mkReal (signaled r) (realTimestamp r) l (recorded r)) c
  end.

Definition act (s : Events) (a : action) : Events :=
  match a with
  | AppendSignal immediate t => appendSignal s immediate t
  | AppendReset immediate => zeCommandListAppendEventReset s immediate
  | AppendWait immediate => appendWait s immediate
  | HostSignal => zeEventHostSignal s
  | QueryStatus => snd (zeEventQueryStatus s ZE_RESULT_SUCCESS)
  | HostReset => zeEventHostReset s true
  | QueryTimestamp => snd (zeEventQueryKernelTimestamp s)
  | DeviceRuns => (fst s, runPending (snd s))
  | DeviceRepeats c => if decide (c ∈ recorded (snd s)) then (fst s, runCommand (snd s) c) else s
  end.

(** * What is remembered is true

    As long as the host signals only an event that the client does not take for cleared,
    resets it only when no command on it is pending, and asks for its status only when no
    reset is pending. *)
Definition orderly (s : Events) (a : action) : Prop :=
  match a with
  | HostSignal => isCleared (fst s) = false
  | QueryStatus => GpuReset ∉ pending (snd s)
  | HostReset => pending (snd s) = []
  | _ => True
  end.

Inductive history : Events -> list action -> Events -> Prop :=
| history_nil s : history s [] s
| history_cons s a l s' : orderly s a -> history (act s a) l s' -> history s (a :: l) s'.

Record remembers (s : Events) : Prop := {
  rem_signaled : isSignaled (fst s) = true -> signaled (snd s) = true /\ GpuReset ∉ pending (snd s);
  rem_cleared : isCleared (fst s) = true -> signaled (snd s) = false /\ pending (snd s) = [];
  rem_allowed : allowIcdState (fst s) = true -> recorded (snd s) = [];
}.

(** ** Lemmas *)

Lemma newEvent_remembers : remembers (newEvent, newReal).
Proof. split; by cbn. Qed.

Lemma isSignaled_true e : isSignaled e = true <-> allowIcdState e = true /\ state e = STATE_SIGNALED.
Proof. unfold isSignaled. by rewrite andb_true_iff, bool_decide_eq_true. Qed.

Lemma isCleared_true e : isCleared e = true <-> allowIcdState e = true /\ state e = STATE_CLEARED.
Proof. unfold isCleared. by rewrite andb_true_iff, bool_decide_eq_true. Qed.

Lemma signaled_not_cleared e : isSignaled e = true -> isCleared e = false.
Proof. rewrite isSignaled_true. intros [Ha Hs]. unfold isCleared. by rewrite Ha, Hs. Qed.

(** Appending a command that changes the event makes its state unknown. *)
Lemma enqueue_remembers e r immediate c : remembers (e, r) -> remembers (setAllowIcdState e immediate true, enqueue r immediate c).
Proof.
  intros [_ _ Ha]. cbn in Ha. split; cbn.
  - rewrite isSignaled_true. cbn. by intros [_ ?].
  - rewrite isCleared_true. cbn. by intros [_ ?].
  - destruct immediate; [rewrite andb_true_r; exact Ha|by rewrite andb_false_r].
Qed.

Lemma runPending_remembers e r : remembers (e, r) -> remembers (e, runPending r).
Proof.
  intros Hr. pose proof Hr as [Hs Hc Ha]. cbn in *. unfold runPending. destruct (pending r) as [|c l] eqn:Ep; [done|]. split; cbn.
  - intros H. destruct (Hs H) as [_ Hn]. rewrite elem_of_cons in Hn. destruct c; cbn; [|naive_solver]. split; [done|]. naive_solver.
  - intros H. by destruct (Hc H) as [_ ?].
  - intros H. destruct c; cbn; by apply Ha.
Qed.

(** Every action of an orderly history keeps what is remembered true. *)
Lemma act_remembers s a : remembers s -> orderly s a -> remembers (act s a).
Proof.
  destruct s as [e r]. intros Hr Ho. pose proof Hr as [Hs Hc Ha]. destruct a; cbn [act orderly fst snd] in *.
  - by apply enqueue_remembers.
  - by apply enqueue_remembers.
  - split; cbn.
    + rewrite isSignaled_true. cbn. intros [[H _]%andb_true_iff Hst]. apply Hs, isSignaled_true. done.
    + rewrite isCleared_true. cbn. intros [[H _]%andb_true_iff Hst]. apply Hc, isCleared_true. done.
    + intros [H _]%andb_true_iff. by apply Ha.
  - split; cbn; [|by rewrite Ho|done]. intros H. split; [done|]. by apply Hs.
  - unfold zeEventQueryStatus. cbn [fst snd]. destruct (isSignaled e) eqn:Es; [done|]. unfold realStatus. destruct (signaled r) eqn:Er; cbn; [|done].
    split; cbn; [done| |done]. rewrite isCleared_true. cbn. by intros [_ ?].
  - unfold zeEventHostReset. cbn [fst snd]. destruct (isCleared e) eqn:Ec; [done|]. split; cbn; [|done|done].
    rewrite isSignaled_true. cbn. by intros [_ ?].
  - unfold zeEventQueryKernelTimestamp. cbn [fst snd]. destruct (isTimestamp e); [done|]. destruct (signaled r) eqn:Er; [|done]. split; cbn; [rewrite Er; exact Hs|rewrite Er; exact Hc|exact Ha].
  - by apply runPending_remembers.
  - destruct (decide (c ∈ recorded r)) as [Hin|]; [|done]. destruct (allowIcdState e) eqn:Eal; [rewrite (Ha eq_refl) in Hin; by apply elem_of_nil in Hin|].
    split; cbn; unfold isSignaled, isCleared; by rewrite Eal.
Qed.

Lemma history_remembers s l s' : history s l s' -> remembers s -> remembers s'.
Proof. induction 1 as [|s a l s' Ho Hh IH]; [done|]. intros Hr. by apply IH, act_remembers. Qed.

(** ** The status is the event's *)

(** C38: after any orderly history of an event, asking for its status tells whether it is
    signaled, and resetting it leaves it reset, in the service and for the client. *)
Theorem remembered_state_is_true l s memory : history (newEvent, newReal) l s ->
  fst (zeEventQueryStatus s memory) = (if signaled (snd s) then (if isSignaled (fst s) then ZE_RESULT_SUCCESS else memory) else ZE_RESULT_NOT_READY) /\
  (isSignaled (fst s) = true -> signaled (snd s) = true) /\
  signaled (snd (zeEventHostReset s true)) = false /\
  (pending (snd s) = [] -> remembers (zeEventHostReset s true) /\
     fst (zeEventQueryStatus (zeEventHostReset s true) memory) = ZE_RESULT_NOT_READY).
Proof.
  intros Hh. pose proof (history_remembers _ _ _ Hh newEvent_remembers) as Hr. destruct s as [e r]. pose proof Hr as [Hs Hc _]. cbn in *.
  assert (Hreset : signaled (snd (zeEventHostReset (e, r) true)) = false).
  { unfold zeEventHostReset. cbn [fst snd]. destruct (isCleared e) eqn:Ec; [by apply Hc|done]. }
  split; [|split; [by intros H; apply Hs|split; [done|]]].
  - unfold zeEventQueryStatus, realStatus. cbn [fst snd]. destruct (isSignaled e) eqn:Es; [by rewrite (proj1 (Hs eq_refl))|]. by destruct (signaled r).
  - intros Hp. assert (Hr' : remembers (zeEventHostReset (e, r) true)) by (apply (act_remembers (e, r) HostReset Hr Hp)). split; [done|].
    unfold zeEventQueryStatus. destruct (isSignaled (fst (zeEventHostReset (e, r) true))) eqn:Es; [by rewrite (proj1 (rem_signaled _ Hr' Es)) in Hreset|].
    cbn [fst]. unfold realStatus. by rewrite Hreset.
Qed.

Definition exampleTimes (n : Z) : Timestamp := mkTimestamp n [n + 5].

(** A kernel signals the event, the host waits, resets it, and the next kernel is pending. *)
Definition exampleUse : list action :=
  [AppendSignal true (exampleTimes 10); QueryStatus; DeviceRuns; QueryStatus; HostReset; AppendSignal true (exampleTimes 30)].

Lemma remembered_state_is_true_witness :
  exists s, history (newEvent, newReal) exampleUse s /\ fst (zeEventQueryStatus s ZE_RESULT_SUCCESS) = ZE_RESULT_NOT_READY.
Proof.
  assert (Hh : history (newEvent, newReal) exampleUse (foldl act (newEvent, newReal) exampleUse)).
  { unfold exampleUse. cbn [foldl]. repeat (apply history_cons; [first [exact I|reflexivity|by apply (bool_decide_unpack _); vm_compute]|]). apply history_nil. }
  exists (foldl act (newEvent, newReal) exampleUse). split; [exact Hh|].
  rewrite (proj1 (remembered_state_is_true exampleUse _ ZE_RESULT_SUCCESS Hh)). by vm_compute.
Defined.

(** ** Where what is remembered is wrong *)

(** [zeEventHostSignal] does not tell the client's event: a new event that the host signals
    is still taken for cleared, and resetting it does not reach the service. *)
Lemma signaled_by_host_is_not_reset :
  let s := foldl act (newEvent, newReal) [HostSignal; HostReset] in
  signaled (snd s) = true /\ fst (zeEventQueryStatus s ZE_RESULT_SUCCESS) = ZE_RESULT_SUCCESS.
Proof. by vm_compute. Qed.

(** The timestamp is only forgotten when the host resets the event: when the device resets
    it, or the next command signals it anew, the first timestamp is reported again. *)
Lemma timestamp_outlives_its_command :
  let s := foldl act (newEvent, newReal) [AppendSignal true (exampleTimes 10); DeviceRuns; QueryTimestamp;
                                          AppendReset true; AppendSignal true (exampleTimes 30); DeviceRuns; DeviceRuns] in
  realTimestamp (snd s) = exampleTimes 30 /\ fst (zeEventQueryKernelTimestamp s) = (ZE_RESULT_SUCCESS, Some (exampleTimes 10)).
Proof. by vm_compute. Qed.

(** A status that is asked for while the device has yet to reset the event is remembered. *)
Lemma status_before_reset_is_remembered :
  let s := foldl act (newEvent, newReal) [AppendSignal true (exampleTimes 10); AppendReset true; DeviceRuns; QueryStatus; DeviceRuns] in
  signaled (snd s) = false /\ fst (zeEventQueryStatus s ZE_RESULT_SUCCESS) = ZE_RESULT_SUCCESS.
Proof. by vm_compute. Qed.

(** Timestamps are the event's as long as the client remembers none when a command is
    appended that signals or resets the event, and nothing is pending when the host resets
    it or asks for its timestamp. *)
Definition timely (s : Events) (a : action) : Prop :=
  match a with
  | AppendSignal _ _ | AppendReset _ => isTimestamp (fst s) = false
  | HostReset | QueryTimestamp => pending (snd s) = []
  | _ => True
  end.

Inductive timely_history : Events -> list action -> Events -> Prop :=
| timely_nil s : timely_history s [] s
| timely_cons s a l s' : timely s a -> timely_history (act s a) l s' -> timely_history s (a :: l) s'.

Definition remembers_time (s : Events) : Prop :=
  (isTimestamp (fst s) = true -> realTimestamp (snd s) = timestamp (fst s) /\ pending (snd s) = []) /\
  (allowIcdState (fst s) = true -> recorded (snd s) = []).

Lemma act_remembers_time s a : remembers_time s -> timely s a -> remembers_time (act s a).
Proof.
  destruct s as [e r]. unfold remembers_time. intros [Ht Ha] Ho. destruct a; cbn [act timely fst snd] in *.
  - unfold isTimestamp in *. cbn in *. split; [|destruct immediate; rewrite ?andb_true_r, ?andb_false_r; done].
    intros H. bool_prop. rewrite H in Ho. cbn in Ho. bool_prop. congruence.
  - unfold isTimestamp in *. cbn in *. split; [|destruct immediate; rewrite ?andb_true_r, ?andb_false_r; done].
    intros H. bool_prop. rewrite H in Ho. cbn in Ho. bool_prop. congruence.
  - unfold isTimestamp in *. cbn in *. split; [|by intros [H _]%andb_true_iff; auto]. intros [[H _]%andb_true_iff Hk]%andb_true_iff. apply Ht. by rewrite H.
  - by cbn.
  - unfold zeEventQueryStatus. cbn [fst snd]. destruct (isSignaled e); [done|]. destruct (signaled r) eqn:Er; unfold realStatus; rewrite Er; by cbn.
  - unfold zeEventHostReset. cbn [fst snd]. destruct (isCleared e); [done|]. unfold isTimestamp. cbn. split; [|done]. by rewrite andb_false_r.
  - unfold zeEventQueryKernelTimestamp. cbn [fst snd]. destruct (isTimestamp e) eqn:Ei; [cbn; by rewrite Ei|]. destruct (signaled r); cbn; [done|].
    by rewrite Ei.
  - unfold runPending. destruct (pending r) as [|c l] eqn:Ep; [by rewrite Ep|]. split; [intros H; by destruct (Ht H)|]. intros H. destruct c; cbn; by apply Ha.
  - destruct (decide (c ∈ recorded r)) as [Hin|]; [|done]. cbn. destruct (allowIcdState e) eqn:Eal; [rewrite (Ha eq_refl) in Hin; by apply elem_of_nil in Hin|].
    split; [|done]. unfold isTimestamp. by rewrite Eal.
Qed.

(** Then a timestamp that is reported is the one of the last command that signaled the
    event. *)
Theorem timely_timestamps_are_true l s : timely_history (newEvent, newReal) l s ->
  forall t, snd (fst (zeEventQueryKernelTimestamp s)) = Some t -> t = realTimestamp (snd s).
Proof.
  intros Hh. assert (Hr : remembers_time s).
  { assert (H0 : remembers_time (newEvent, newReal)) by (split; by cbn). revert H0. clear -Hh. induction Hh as [|s a l s' Ho Hh IH]; [done|].
    intros Hr. by apply IH, act_remembers_time. }
  unfold zeEventQueryKernelTimestamp. intros t. destruct (isTimestamp (fst s)) eqn:Ei; cbn; [intros [= <-]; by destruct (proj1 Hr Ei)|].
  destruct (signaled (snd s)); cbn; [by intros [= <-]|done].
Qed.

Lemma timely_timestamps_are_true_witness :
  exists s, timely_history (newEvent, newReal) [AppendSignal true (exampleTimes 10); DeviceRuns; QueryTimestamp] s /\
    realTimestamp (snd s) = exampleTimes 10.
Proof.
  set (l := [AppendSignal true (exampleTimes 10); DeviceRuns; QueryTimestamp]).
  assert (Hh : timely_history (newEvent, newReal) l (foldl act (newEvent, newReal) l)).
  { subst l. cbn [foldl]. repeat (apply timely_cons; [by vm_compute|]). apply timely_nil. }
  exists (foldl act (newEvent, newReal) l). split; [exact Hh|].
  symmetry. apply (timely_timestamps_are_true l _ Hh); by vm_compute.
Defined.
