(* ===== verification/BufferRecycler.v ===== *)
(** The recycler of OpenCL buffers of the client (client/icd/icd_ocl.h, icd_ocl.cpp):
    released buffers are kept in buckets by size and handed out again for similar
    requests.  Other threads may run between the read of the total before the lock and
    the part under the lock; what that read saw is an argument.  Not modelled are the
    statistics for the log. *)

From Stdlib Require Import Floats.SpecFloat.
From stdpp Require Import relations gmap sorting.
From S2P Require Import Prelude.
From S2P Require Import RefCounts.
Local Open Scope Z_scope.

(** * Leading bits (shared/utils.h) *)

(** [__builtin_clzl], which is undefined for zero. *)
Definition clz (v : Z) : res Z := if v =? 0 then Undef else Ret (63 - Z.log2 v).

Definition leadingBitNum (v : Z) : res Z :=
  num0 ← clz v; if num0 =? 64 then Abort else Ret (64 - num0).

(** * Single precision, as in the specification of floats *)

Definition float_of (v : Z) : spec_float := binary_normalize 24 128 v 0 false.
Definition float_div : spec_float -> spec_float -> spec_float := SFdiv 24 128.

(** [5.0f / 100.f]. *)
Definition reuseSingleWasteTolerance : spec_float := float_div (float_of 5) (float_of 100).

(** * Buffers *)

Definition CL_MEM_USE_HOST_PTR : Z := 8.
Definition CL_MEM_COPY_HOST_PTR : Z := 32.
Definition CL_MEM_ALLOC_HOST_PTR : Z := 16.

Record IcdOclMem := mkMem { apiHostPtr : Z; memSize : Z; memFlags : Z; memRefs : Z }.

Abbreviation mem_store := (gmap Z IcdOclMem).

Definition asLocalObject (h : mem_store) (mem : Z) : res IcdOclMem :=
  match h !! mem with Some o => Ret o | None => Undef end.

Definition usesHostPtr (flags : Z) : bool := negb (Z.land flags CL_MEM_USE_HOST_PTR =? 0).

(** * A bucket *)

Record RecycleListBucket := mkBucket {
  leftBound : Z; rightBound : Z; objects : list Z; bucketSizeTotal : Z; bucketCountTotal : Z }.

Definition bucket_recycle (h : mem_store) (b : RecycleListBucket) (mem : Z) : res (bool * RecycleListBucket) :=
  o ← asLocalObject h mem;
  Ret (true, mkBucket (leftBound b) (rightBound b) (objects b ++ [mem])
               (u64 (bucketSizeTotal b + memSize o)) (u64 (bucketCountTotal b + 1))).

(** The part of a buffer that a request leaves unused. *)
Definition wasteOf (o : IcdOclMem) (size : Z) : spec_float :=
  float_div (float_of (memSize o - size)) (float_of (memSize o)).

(** [bestFit] is [None] for [end]. *)
Record Fit := mkFit { bestFit : option nat; bestFitWaste : spec_float; fitLevel : Z }.

Definition noFit : Fit := mkFit None (float_of 1) 0.

(** The loop over the objects; [i] is the position of the first one of [it]. *)
Fixpoint searchFit (h : mem_store) (flags size host_ptr : Z) (tolerance : spec_float) (i : nat) (it : list Z) (f : Fit) : res Fit :=
  match it with
  | [] => Ret f
  | p :: it =>
      o ← asLocalObject h p;
      if negb (memFlags o =? flags) then searchFit h flags size host_ptr tolerance (S i) it f else
      if memSize o <? size then searchFit h flags size host_ptr tolerance (S i) it f else
      let waste := wasteOf o size in
      let hostPtrMatch := apiHostPtr o =? host_ptr in
      if usesHostPtr flags && negb hostPtrMatch then searchFit h flags size host_ptr tolerance (S i) it f else
      if SFeqb waste (float_of 0) && hostPtrMatch then Ret (mkFit (Some i) waste (fitLevel f)) else
      let f := if (SFltb waste (bestFitWaste f) && hostPtrMatch && (fitLevel f =? 2)) ||
                  (SFleb waste tolerance && hostPtrMatch && (fitLevel f <? 2))
               then mkFit (Some i) waste 2 else f in
      let f := if (SFltb waste (bestFitWaste f) && (fitLevel f =? 1)) || (SFleb waste tolerance && (fitLevel f <? 1))
               then mkFit (Some i) waste 1 else f in
      searchFit h flags size host_ptr tolerance (S i) it f
  end.

(** The last object takes the place of the one that is removed. *)
Definition swapRemove (k : nat) (l : list Z) : list Z :=
  let l := match last l with Some p => if (k =? length l - 1)%nat then l else <[k := p]> l | None => l end in
  take (length l - 1) l.

Definition bucket_tryGet (h : mem_store) (b : RecycleListBucket) (flags size host_ptr : Z) (tolerance : spec_float)
  : res (option (Z * RecycleListBucket)) :=
  if (length (objects b) =? 0)%nat || (bucketSizeTotal b <? size) then Ret None else
  let host_ptr := if usesHostPtr flags then host_ptr else 0 in
  f ← searchFit h flags size host_ptr tolerance 0 (objects b) noFit;
  match bestFit f with
  | None => Ret None
  | Some k =>
      if SFltb tolerance (bestFitWaste f) then Ret None else
      match objects b !! k with
      | None => Undef
      | Some p =>
          o ← asLocalObject h p;
          Ret (Some (p, mkBucket (leftBound b) (rightBound b) (swapRemove k (objects b))
                          (u64 (bucketSizeTotal b - memSize o)) (u64 (bucketCountTotal b - 1))))
      end
  end.

(** * The recycler *)

Definition KB : Z := 1024.
Definition MB : Z := KB * 1024.
Definition minBucketSize : Z := 64 * KB.
Definition maxBucketSize : Z := 128 * MB.

Record ClBufferRecycler := mkRecycler {
  allowedReuseSizeTotal : Z; buckets : list RecycleListBucket;
  currentRecycleSizeTotal : Z; currentRecycleCountTotal : Z; isCleaningUp : bool }.

(** The loop of the constructor doubles the bound until it is too large. *)
Fixpoint makeBuckets (fuel : nat) (left right : Z) : list RecycleListBucket :=
  match fuel with
  | O => []
  | S fuel => if right <=? maxBucketSize then mkBucket left right [] 0 0 :: makeBuckets fuel (u64 (right + 1)) (u64 (right * 2)) else []
  end.

(** [env] is the number in the environment, or 0. *)
Definition newRecycler (env : Z) : ClBufferRecycler :=
  mkRecycler (u64 (env * MB)) (makeBuckets 64 0 minBucketSize) 0 0 false.

Definition getBucketIdForSize (size : Z) : res Z :=
  if size <=? minBucketSize then Ret 0 else
  let over := size / minBucketSize in
  bit ← leadingBitNum over;
  let shift := u64 (bit - 1) in
  let bucketId := shift in
  if negb (u64 (Z.shiftl minBucketSize shift) =? size) then Ret (u64 (bucketId + 1)) else Ret bucketId.

Definition bucket_at (r : ClBufferRecycler) (bucketId : Z) : res RecycleListBucket :=
  match buckets r !! Z.to_nat bucketId with Some b => Ret b | None => Undef end.

Definition set_bucket (r : ClBufferRecycler) (bucketId : Z) (b : RecycleListBucket) (size count : Z) : ClBufferRecycler :=
  mkRecycler (allowedReuseSizeTotal r) (<[Z.to_nat bucketId := b]> (buckets r)) size count (isCleaningUp r).

(** [seen] is the total that is read before the lock. *)
Definition tryRecycleClBuffer (h : mem_store) (r : ClBufferRecycler) (seen mem : Z) : res (bool * ClBufferRecycler) :=
  if isCleaningUp r then Ret (false, r) else
  o ← asLocalObject h mem;
  if 1 <? memRefs o then Ret (false, r) else
  if memSize o =? 0 then Ret (false, r) else
  if maxBucketSize <? memSize o then Ret (false, r) else
  if allowedReuseSizeTotal r <? u64 (seen + memSize o) then Ret (false, r) else
  bucketId ← getBucketIdForSize (memSize o);
  if allowedReuseSizeTotal r <? u64 (currentRecycleSizeTotal r + memSize o) then Ret (false, r) else
  b ← bucket_at r bucketId;
  '(kept, b) ← bucket_recycle h b mem;
  if negb kept then Ret (false, r) else
  Ret (true, set_bucket r bucketId b (u64 (currentRecycleSizeTotal r + memSize o)) (u64 (currentRecycleCountTotal r + 1))).

Definition tryGetRecycledClBuffer (h : mem_store) (r : ClBufferRecycler) (seen flags size host_ptr : Z) : res (option (Z * ClBufferRecycler)) :=
  if isCleaningUp r then Ret None else
  if maxBucketSize <? size then Ret None else
  if seen <? size then Ret None else
  bucketId ← getBucketIdForSize size;
  if currentRecycleSizeTotal r <? size then Ret None else
  b ← bucket_at r bucketId;
  got ← bucket_tryGet h b flags size host_ptr reuseSingleWasteTolerance;
  match got with
  | None => Ret None
  | Some (p, b) =>
      o ← asLocalObject h p;
      Ret (Some (p, set_bucket r bucketId b (u64 (currentRecycleSizeTotal r - memSize o)) (u64 (currentRecycleCountTotal r - 1))))
  end.

(** * The context *)

(** What the driver and the rest of the client answer: the result of a write of a buffer
    from memory of the application, the local object of a buffer that the service creates
    (0 when it refuses), staging areas, kinds of pointers, whether a call gets through. *)
Record System := mkSystem {
  enqueueWrite : Z -> Z -> Z -> Z;
  createBuffer : Z -> Z -> Z -> Z;
  stagingArea : Z -> Z;
  isRegionSharable : Z -> Z -> bool;
  isUsmPointer : Z -> bool;
  answered : bool }.

(** The context with the buffers of the client: [contextRefs] is its count, of which every
    buffer and the implicit queue hold one as children; [written] logs the writes into
    recycled buffers. *)
Record Context := mkContext {
  mems : mem_store; clBufferRecycler : ClBufferRecycler; implicitQueue : Z;
  skipTransferOnHostPtrMatch : bool; contextRefs : Z; written : list (Z * Z * Z) }.

Definition set_recycler (c : Context) (r : ClBufferRecycler) : Context :=
  mkContext (mems c) r (implicitQueue c) (skipTransferOnHostPtrMatch c) (contextRefs c) (written c).

(** [env] is the variable as a number, [flag] as a truth value. *)
Definition newContext (env : Z) (flag : bool) : Context := mkContext ∅ (newRecycler env) 0 flag 1 [].

(** [clEnqueueWriteBuffer], a blocking call; the queue is dereferenced. *)
Definition clEnqueueWriteBuffer (s : System) (c : Context) (mem size ptr : Z) : res (Z * Context) :=
  if implicitQueue c =? 0 then Undef else
  Ret (enqueueWrite s mem size ptr,
       mkContext (mems c) (clBufferRecycler c) (implicitQueue c) (skipTransferOnHostPtrMatch c) (contextRefs c)
         ((mem, size, ptr) :: written c)).

(** [IcdOclContext::tryGetRecycledClBuffer]; the second total is what a failed write
    reads when it puts the buffer back. *)
Definition context_tryGetRecycled (s : System) (c : Context) (seen seenBack flags size host_ptr : Z) : res (Z * Context) :=
  if negb (host_ptr =? 0) && (implicitQueue c =? 0) then Ret (0, c) else
  got ← tryGetRecycledClBuffer (mems c) (clBufferRecycler c) seen flags size host_ptr;
  match got with
  | None => Ret (0, c)
  | Some (p, r) =>
      let c := set_recycler c r in
      o ← asLocalObject (mems c) p;
      if skipTransferOnHostPtrMatch c && (host_ptr =? apiHostPtr o) then Ret (p, c) else
      '(err, c) ← clEnqueueWriteBuffer s c p size host_ptr;
      if negb (err =? 0) then
        '(_, r) ← tryRecycleClBuffer (mems c) (clBufferRecycler c) seenBack p;
        Ret (0, set_recycler c r)
      else Ret (p, c)
  end.

(** What [clCreateBuffer] asks of the service: flags and pointer.  Copying from the
    application to a null staging area is undefined. *)
Definition creationRequest (s : System) (flags size host_ptr : Z) : res (Z * Z) :=
  if usesHostPtr flags && isRegionSharable s host_ptr size then Ret (flags, host_ptr) else
  if isUsmPointer s host_ptr then Ret (flags, host_ptr) else
  let standalone := stagingArea s size in
  if negb (host_ptr =? 0) && negb (size =? 0) && (standalone =? 0) then Undef else
  let useHostPtrFlags := Z.land flags (Z.lnot (Z.lor CL_MEM_ALLOC_HOST_PTR CL_MEM_COPY_HOST_PTR)) in
  Ret (Z.lor useHostPtrFlags CL_MEM_USE_HOST_PTR, standalone).

(** [clCreateBuffer]: a recycled buffer or a new one, whose object is filled in. *)
Definition clCreateBuffer (s : System) (c : Context) (seen seenBack flags size host_ptr : Z) : res (Z * Context) :=
  '(p, c) ← context_tryGetRecycled s c seen seenBack flags size host_ptr;
  if negb (p =? 0) then Ret (p, c) else
  '(flags', ptr) ← creationRequest s flags size host_ptr;
  let p := createBuffer s flags' size ptr in
  if p =? 0 then Undef else
  Ret (p, mkContext (<[p := mkMem host_ptr size flags 1]> (mems c)) (clBufferRecycler c) (implicitQueue c)
            (skipTransferOnHostPtrMatch c) (u32 (contextRefs c + 1)) (written c)).

Definition set_mem (c : Context) (p : Z) (o : IcdOclMem) : Context :=
  mkContext (<[p := o]> (mems c)) (clBufferRecycler c) (implicitQueue c) (skipTransferOnHostPtrMatch c) (contextRefs c) (written c).

(** A buffer that is deleted gives up its reference to the context. *)
Definition drop_mem (c : Context) (p : Z) : Context :=
  mkContext (delete p (mems c)) (clBufferRecycler c) (implicitQueue c) (skipTransferOnHostPtrMatch c) (u32 (contextRefs c - 1)) (written c).

Definition clRetainMemObject (s : System) (c : Context) (p : Z) : res Context :=
  o ← asLocalObject (mems c) p;
  if negb (answered s) then Ret c else
  Ret (set_mem c p (mkMem (apiHostPtr o) (memSize o) (memFlags o) (u32 (memRefs o + 1)))).

Definition clReleaseMemObject (s : System) (c : Context) (seen p : Z) : res Context :=
  '(kept, r) ← tryRecycleClBuffer (mems c) (clBufferRecycler c) seen p;
  let c := set_recycler c r in
  if (kept : bool) then Ret c else
  o ← asLocalObject (mems c) p;
  if negb (answered s) then Ret c else
  if memRefs o =? 1 then Ret (drop_mem c p)
  else Ret (set_mem c p (mkMem (apiHostPtr o) (memSize o) (memFlags o) (u32 (memRefs o - 1)))).

(** [cleanup] releases what the buckets hold, and leaves the buckets as they are. *)
Fixpoint releaseAll (s : System) (c : Context) (seen : Z) (l : list Z) : res Context :=
  match l with
  | [] => Ret c
  | p :: l => c ← clReleaseMemObject s c seen p; releaseAll s c seen l
  end.

Definition set_cleaning (c : Context) (b : bool) : Context :=
  let r := clBufferRecycler c in
  set_recycler c (mkRecycler (allowedReuseSizeTotal r) (buckets r) (currentRecycleSizeTotal r) (currentRecycleCountTotal r) b).

Definition cleanup (s : System) (c : Context) (seen : Z) : res Context :=
  c ← releaseAll s (set_cleaning c true) seen (mjoin (objects <$> buckets (clBufferRecycler c)));
  Ret (set_cleaning c false).

(** [beforeReleaseCallback], but for the staging areas; [releaseQueue] is
    [clReleaseCommandQueue] on the implicit queue. *)
Definition beforeReleaseCallback (s : System) (releaseQueue : Context -> res Context) (c : Context) (seen : Z) : res Context :=
  if contextRefs c =? 1 then
    c ← cleanup s c seen;
    if implicitQueue c =? 0 then Ret c else releaseQueue c
  else Ret c.

(** [clReleaseContext]; the flag tells whether the context is deleted, whose destructor
    cleans up once more. *)
Definition clReleaseContext (s : System) (releaseQueue : Context -> res Context) (c : Context) (seen : Z) : res (bool * Context) :=
  c ← beforeReleaseCallback s releaseQueue c seen;
  if negb (answered s) then Ret (false, c) else
  if contextRefs c =? 1 then
    c ← cleanup s c seen;
    Ret (true, mkContext (mems c) (clBufferRecycler c) (implicitQueue c) (skipTransferOnHostPtrMatch c) 0 (written c))
  else Ret (false, mkContext (mems c) (clBufferRecycler c) (implicitQueue c) (skipTransferOnHostPtrMatch c) (u32 (contextRefs c - 1)) (written c)).

(** ** The implicit queue *)

(** [clCreateCommandQueueWithProperties]: [None] when the call does not get through; what
    the service answers is dereferenced. *)
Definition createQueue (ask : option (Z * Z) -> option Z) (properties : option (Z * Z)) : res Z :=
  match ask properties with
  | None => Ret 0
  | Some q => if q =? 0 then Undef else Ret q
  end.

(** The loops over the indices of a family, from [index] down to 0. *)
Fixpoint tryIndices (ask : option (Z * Z) -> option Z) (family : Z) (index : nat) : res Z :=
  q ← createQueue ask (Some (family, Z.of_nat index));
  match index with
  | S below => if q =? 0 then tryIndices ask family below else Ret q
  | O => Ret q
  end.

Definition findQueue (ask : option (Z * Z) -> option Z) : res Z :=
  q ← tryIndices ask 3 7;
  q ← if q =? 0 then createQueue ask (Some (2, 0)) else Ret q : res Z;
  q ← if q =? 0 then tryIndices ask 0 3 else Ret q : res Z;
  if q =? 0 then createQueue ask None else Ret q.

(** The part of [setDevicesList] for the context; the queue holds a reference to it. *)
Definition setDevicesList (ask : option (Z * Z) -> option Z) (numDevices : Z) (c : Context) : res Context :=
  if (numDevices =? 0) || (allowedReuseSizeTotal (clBufferRecycler c) <=? 0) then Ret c else
  q ← findQueue ask;
  Ret (mkContext (mems c) (clBufferRecycler c) q (skipTransferOnHostPtrMatch c)
         (if q =? 0 then contextRefs c else u32 (contextRefs c + 1)) (written c)).

(** ** What applications do *)

(** The handles that the application holds, one entry for each. *)
Abbreviation history_state := (Context * list Z)%type.

(** An object of a new buffer is not one of those that live.  [clCreateBuffer] may also
    be refused for want of a staging area. *)
Inductive buffer_step : history_state -> history_state -> Prop :=
| step_create s c app seen seenBack flags size host_ptr p c' :
    0 <= size < W64 -> Z.of_nat (length app) < u32_max -> (forall f n q, createBuffer s f n q = 0 \/ mems c !! createBuffer s f n q = None) ->
    clCreateBuffer s c seen seenBack flags size host_ptr ⇓ (p, c') -> buffer_step (c, app) (c', p :: app)
| step_retain s c app p c' : p ∈ app -> answered s = true -> Z.of_nat (length app) < u32_max ->
    clRetainMemObject s c p ⇓ c' -> buffer_step (c, app) (c', p :: app)
| step_release s c app rest seen p c' : app ≡ₚ p :: rest -> answered s = true ->
    clReleaseMemObject s c seen p ⇓ c' -> buffer_step (c, app) (c', rest).

(** * Order of floats *)

Lemma SFltb_trans x y z : SFltb x y = true -> SFltb y z = true -> SFltb x z = true.
Proof.
  unfold SFltb, SFcompare.
  destruct x as [sx|sx| |sx mx ex], y as [sy|sy| |sy my ey], z as [sz|sz| |sz mz ez];
    try destruct sx; try destruct sy; try destruct sz; try done;
    change (Pos.compare_cont Eq mx my) with (Pos.compare mx my) in *;
    change (Pos.compare_cont Eq my mz) with (Pos.compare my mz) in *;
    change (Pos.compare_cont Eq mx mz) with (Pos.compare mx mz) in *;
    destruct (Z.compare_spec ex ey), (Z.compare_spec ey ez), (Z.compare_spec ex ez); try done; try lia;
    destruct (Pos.compare_spec mx my), (Pos.compare_spec my mz), (Pos.compare_spec mx mz); try done; lia.
Qed.

Lemma SFltb_leb_trans x y z : SFltb x y = true -> SFleb y z = true -> SFleb x z = true.
Proof.
  unfold SFltb, SFleb, SFcompare.
  destruct x as [sx|sx| |sx mx ex], y as [sy|sy| |sy my ey], z as [sz|sz| |sz mz ez];
    try destruct sx; try destruct sy; try destruct sz; try done;
    change (Pos.compare_cont Eq mx my) with (Pos.compare mx my) in *;
    change (Pos.compare_cont Eq my mz) with (Pos.compare my mz) in *;
    change (Pos.compare_cont Eq mx mz) with (Pos.compare mx mz) in *;
    destruct (Z.compare_spec ex ey), (Z.compare_spec ey ez), (Z.compare_spec ex ez); try done; try lia;
    destruct (Pos.compare_spec mx my), (Pos.compare_spec my mz), (Pos.compare_spec mx mz); try done; lia.
Qed.

Lemma SFleb_not_ltb x y : SFleb x y = true -> SFltb y x = false.
Proof.
  unfold SFltb, SFleb, SFcompare.
  destruct x as [sx|sx| |sx mx ex], y as [sy|sy| |sy my ey]; try destruct sx; try destruct sy; try done;
    change (Pos.compare_cont Eq mx my) with (Pos.compare mx my);
    change (Pos.compare_cont Eq my mx) with (Pos.compare my mx);
    destruct (Z.compare_spec ex ey), (Z.compare_spec ey ex); try done; try lia;
    destruct (Pos.compare_spec mx my), (Pos.compare_spec my mx); try done; lia.
Qed.

(** Quotients of words are not negative. *)
Definition not_negative (x : spec_float) : bool :=
  match x with S754_zero s | S754_infinity s | S754_finite s _ _ => negb s | S754_nan => true end.

Lemma round_not_negative m e l : not_negative (binary_round_aux 24 128 false m e l) = true.
Proof.
  unfold binary_round_aux. destruct (shr_fexp _ _ m e l) as [mrs e1]. destruct (shr_fexp _ _ _ e1 loc_Exact) as [mrs' e2].
  destruct (shr_m mrs'); try done. by destruct (_ <=? _).
Qed.

Lemma float_of_not_negative v : 0 <= v -> not_negative (float_of v) = true.
Proof.
  intros Hv. unfold float_of, binary_normalize. destruct v; [done| |lia]. unfold binary_round.
  destruct (shl_align _ _ _) as [m e]. apply round_not_negative.
Qed.

Lemma float_div_not_negative x y : not_negative x = true -> not_negative y = true -> not_negative (float_div x y) = true.
Proof.
  unfold float_div, SFdiv. destruct x as [[]|[]| |[] mx ex], y as [[]|[]| |[] my ey]; try done.
  destruct (SFdiv_core_binary _ _ _ _ _ _) as [[m e] l]. intros _ _. apply round_not_negative.
Qed.

Lemma below_zero x y : not_negative x = true -> SFeqb y (float_of 0) = true -> SFltb x y = false.
Proof. unfold SFeqb, SFltb, SFcompare. by destruct x as [[]|[]| |[] mx ex], y as [[]|[]| |[] my ey]. Qed.

Lemma zero_tolerated x : SFeqb x (float_of 0) = true -> SFleb x reuseSingleWasteTolerance = true.
Proof.
  replace reuseSingleWasteTolerance with (S754_finite false 13421773 (-28)) by (vm_compute; reflexivity).
  by destruct x as [[]|[]| |[] mx ex].
Qed.

(** * The choice in a bucket *)

Section choice.
Context (h : mem_store) (flags size host_ptr : Z).

(** What a request accepts: [host_ptr] counts only for buffers on memory of the
    application. *)
Definition fits (o : IcdOclMem) : bool :=
  (memFlags o =? flags) && (size <=? memSize o) && (negb (usesHostPtr flags) || (apiHostPtr o =? host_ptr)) &&
  SFleb (wasteOf o size) reuseSingleWasteTolerance.

Definition samePtr (o : IcdOclMem) : bool := apiHostPtr o =? host_ptr.

(** The same pointer first, and then less waste. *)
Definition better (o o' : IcdOclMem) : bool :=
  (samePtr o && negb (samePtr o')) || (Bool.eqb (samePtr o) (samePtr o') && SFltb (wasteOf o size) (wasteOf o' size)).

(** What the loop has found among the objects before the current one. *)
Definition found (before : list IcdOclMem) (f : Fit) : Prop :=
  match bestFit f with
  | None => fitLevel f = 0 /\ forall o, o ∈ before -> fits o = false
  | Some k => exists o, before !! k = Some o /\ fits o = true /\ bestFitWaste f = wasteOf o size /\
      fitLevel f = (if samePtr o then 2 else 1) /\ forall o', o' ∈ before -> fits o' = true -> better o' o = false
  end.

Definition chosen (os : list IcdOclMem) (f : Fit) : Prop :=
  match bestFit f with
  | None => forall o, o ∈ os -> fits o = false
  | Some k => exists o, os !! k = Some o /\ fits o = true /\ bestFitWaste f = wasteOf o size /\
      forall o', o' ∈ os -> fits o' = true -> better o' o = false
  end.

Lemma found_skip before o f : fits o = false -> found before f -> found (before ++ [o]) f.
Proof.
  intros Ho. unfold found. destruct (bestFit f) as [k|].
  - intros (b & Hk & Hb & Hw & Hl & Hbest). exists b. rewrite lookup_app_l by (by eapply lookup_lt_Some).
    do 4 (split; [done|]). intros o' [Hin| ->%list_elem_of_singleton]%elem_of_app Hf; [by apply Hbest|congruence].
  - intros [Hl Hn]. split; [done|]. intros o' [Hin| ->%list_elem_of_singleton]%elem_of_app; [by apply Hn|done].
Qed.

Lemma found_keep before o b k f : bestFit f = Some k -> before !! k = Some b -> better o b = false ->
  found before f -> found (before ++ [o]) f.
Proof.
  intros Hk Hb Ho. unfold found. rewrite Hk. intros (b' & Hb' & Hf & Hw & Hl & Hbest). rewrite Hb in Hb'. injection Hb' as <-.
  exists b. rewrite lookup_app_l by (by eapply lookup_lt_Some). do 4 (split; [done|]).
  intros o' [Hin| ->%list_elem_of_singleton]%elem_of_app Hf'; [by apply Hbest|done].
Qed.

Lemma better_irrefl o : better o o = false.
Proof.
  unfold better. rewrite Bool.eqb_reflx. destruct (samePtr o); cbn;
  (destruct (SFltb _ _) eqn:E; [|done]); pose proof (SFleb_not_ltb (wasteOf o size) (wasteOf o size)) as H; rewrite E in H;
  unfold SFltb, SFleb in *; destruct (SFcompare _ _) as [[]|]; try done; by specialize (H eq_refl).
Qed.

Lemma better_trans o1 o2 o3 : better o1 o2 = true -> better o2 o3 = true -> better o1 o3 = true.
Proof.
  unfold better. pose proof (SFltb_trans (wasteOf o1 size) (wasteOf o2 size) (wasteOf o3 size)) as Ht.
  destruct (samePtr o1), (samePtr o2), (samePtr o3); cbn; try done; auto.
Qed.

Lemma found_take before o f l : fits o = true -> l = (if samePtr o then 2 else 1) ->
  (forall k b, bestFit f = Some k -> before !! k = Some b -> better o b = true) ->
  found before f -> found (before ++ [o]) (mkFit (Some (length before)) (wasteOf o size) l).
Proof.
  intros Ho -> Hbetter Hf. unfold found. cbn. exists o. rewrite lookup_app_r, Nat.sub_diag by done. do 4 (split; [done|]).
  intros o' [Hin| ->%list_elem_of_singleton]%elem_of_app Hf'; [|apply better_irrefl].
  unfold found in Hf. destruct (bestFit f) as [k|]; [|destruct Hf as [_ Hn]; by rewrite Hn in Hf'].
  destruct Hf as (b & Hk & Hb & Hw & Hl & Hbest). specialize (Hbetter _ _ eq_refl Hk).
  destruct (better o' o) eqn:E; [|done]. rewrite <- (Hbest o' Hin Hf'). symmetry. by eapply better_trans.
Qed.

Lemma waste_not_negative o : 0 <= size <= memSize o -> not_negative (wasteOf o size) = true.
Proof. intros H. apply float_div_not_negative; apply float_of_not_negative; lia. Qed.

(** A match without waste ends the loop: nothing is better. *)
Lemma found_exact before rest o f : 0 <= size -> fits o = true -> samePtr o = true -> SFeqb (wasteOf o size) (float_of 0) = true ->
  chosen (before ++ o :: rest) (mkFit (Some (length before)) (wasteOf o size) (fitLevel f)).
Proof.
  intros Hs Ho Hp Hz. unfold chosen. cbn [bestFit bestFitWaste]. exists o. rewrite list_lookup_middle by done. do 3 (split; [done|]).
  intros o' _ Hf. unfold better. rewrite Hp. apply orb_false_iff. split; [apply andb_false_r|]. apply andb_false_iff. right.
  apply below_zero; [|done]. apply waste_not_negative. unfold fits in Hf. bool_prop. lia.
Qed.

Lemma found_chosen os f : found os f -> chosen os f.
Proof.
  unfold found, chosen. destruct (bestFit f) as [k|]; [|tauto]. intros (o & ? & ? & ? & _ & ?). by exists o.
Qed.

(** The two conditions of the loop for an object that passed the tests before. *)
Lemma found_next before o f :
  memFlags o = flags -> size <= memSize o -> (negb (usesHostPtr flags) || samePtr o) = true -> found before f ->
  let waste := wasteOf o size in
  let f1 := if (SFltb waste (bestFitWaste f) && samePtr o && (fitLevel f =? 2)) ||
               (SFleb waste reuseSingleWasteTolerance && samePtr o && (fitLevel f <? 2))
            then mkFit (Some (length before)) waste 2 else f in
  found (before ++ [o])
    (if (SFltb waste (bestFitWaste f1) && (fitLevel f1 =? 1)) || (SFleb waste reuseSingleWasteTolerance && (fitLevel f1 <? 1))
     then mkFit (Some (length before)) waste 1 else f1).
Proof.
  intros Hfl Hs Hp Hf waste. assert (Hfits : fits o = SFleb waste reuseSingleWasteTolerance).
  { unfold fits. rewrite Hfl, Z.eqb_refl, (proj2 (Z.leb_le _ _) Hs). unfold samePtr in Hp. by rewrite Hp. }
  destruct (bestFit f) as [k|] eqn:Ek.
  - pose proof Hf as Hb. unfold found in Hb. rewrite Ek in Hb. destruct Hb as (b & Hk & Hfb & Hw & Hl & _).
    assert (Hr : better o b = (samePtr o && negb (samePtr b)) || (Bool.eqb (samePtr o) (samePtr b) && SFltb waste (bestFitWaste f)))
      by (unfold better; by rewrite Hw).
    assert (Htol : SFltb waste (bestFitWaste f) = true -> SFleb waste reuseSingleWasteTolerance = true).
    { intros H. eapply SFltb_leb_trans; [exact H|]. rewrite Hw. unfold fits in Hfb. by bool_prop. }
    assert (Htake : forall l, fits o = true -> better o b = true -> l = (if samePtr o then 2 else 1) ->
              found (before ++ [o]) (mkFit (Some (length before)) waste l)).
    { intros l H1 H2 H3. apply (found_take _ _ f); try done. intros k' b' E1 E2. rewrite Ek in E1. injection E1 as <-. congruence. }
    rewrite Hfits in Htake. destruct (samePtr o) eqn:Eo, (samePtr b) eqn:Eb, (SFltb waste (bestFitWaste f)) eqn:El, (SFleb waste _) eqn:Et;
      try (by specialize (Htol eq_refl)); cbn [andb orb negb Bool.eqb] in Hr; rewrite Hl; cbn -[found]; rewrite ?El, ?Hl; cbn -[found];
      rewrite ?andb_false_r; cbn -[found]; first [by apply Htake | by apply found_skip | by apply (found_keep before o b k f)].
  - pose proof Hf as Hb. unfold found in Hb. rewrite Ek in Hb. destruct Hb as [Hl _].
    assert (Htake : forall l, fits o = true -> l = (if samePtr o then 2 else 1) -> found (before ++ [o]) (mkFit (Some (length before)) waste l)).
    { intros l H1 H2. apply (found_take _ _ f); try done. intros k' b' E1. by rewrite Ek in E1. }
    rewrite Hfits in Htake. rewrite Hl. destruct (samePtr o), (SFltb waste (bestFitWaste f)), (SFleb waste _) eqn:Et; cbn -[found];
      rewrite ?Hl; cbn -[found]; rewrite ?andb_false_r; cbn -[found]; first [by apply Htake | by apply found_skip].
Qed.

Lemma searchFit_chosen it os : Forall2 (fun p o => h !! p = Some o) it os -> 0 <= size -> forall before f, found before f ->
  exists f', searchFit h flags size host_ptr reuseSingleWasteTolerance (length before) it f ⇓ f' /\ chosen (before ++ os) f'.
Proof.
  intros Hit Hs. induction Hit as [|p o it os Hp Hit IH]; intros before f Hf; cbn [searchFit].
  - exists f. split; [done|]. rewrite app_nil_r. by apply found_chosen.
  - unfold asLocalObject. rewrite Hp. cbn [mbind res_bind].
    assert (Hnext : forall f', found (before ++ [o]) f' -> exists f'', searchFit h flags size host_ptr reuseSingleWasteTolerance
              (S (length before)) it f' ⇓ f'' /\ chosen (before ++ o :: os) f'').
    { intros f' Hf'. specialize (IH _ _ Hf'). rewrite length_app, Nat.add_comm in IH. cbn in IH. by rewrite <- app_assoc in IH. }
    destruct (Z.eqb_spec (memFlags o) flags) as [Hfl|Hfl]; cbn [negb].
    2: { apply Hnext, found_skip; [|done]. unfold fits. by rewrite (proj2 (Z.eqb_neq _ _) Hfl). }
    destruct (Z.ltb_spec (memSize o) size) as [Hlt|Hle].
    { apply Hnext, found_skip; [|done]. unfold fits. by rewrite (proj2 (Z.leb_gt _ _) Hlt), andb_false_r. }
    fold (samePtr o). destruct (usesHostPtr flags && negb (samePtr o)) eqn:Eu.
    { apply Hnext, found_skip; [|done]. bool_prop. unfold fits. unfold samePtr in *. by rewrite H, H0, andb_false_r. }
    assert (Hp' : (negb (usesHostPtr flags) || samePtr o) = true) by (destruct (usesHostPtr flags), (samePtr o); done).
    destruct (SFeqb _ _ && samePtr o) eqn:Ez.
    + bool_prop. eexists. split; [done|]. apply found_exact; try done. unfold fits. unfold samePtr in Hp'.
      by rewrite Hfl, Z.eqb_refl, (proj2 (Z.leb_le _ _) Hle), Hp', zero_tolerated.
    + apply Hnext. exact (found_next before o f Hfl Hle Hp' Hf).
Qed.

End choice.

Lemma noFit_found flags size host_ptr : found flags size host_ptr [] noFit.
Proof. split; [done|]. by intros o ?%elem_of_nil. Qed.

(** * Buckets *)

Lemma length_snoc_pred {A} (l : list A) y : (length (l ++ [y]) - 1)%nat = length l.
Proof. rewrite length_app. cbn. lia. Qed.

Lemma swapRemove_perm k l p : l !! k = Some p -> l ≡ₚ p :: swapRemove k l.
Proof.
  intros Hk. destruct l as [|y init _] using rev_ind; [done|]. unfold swapRemove. rewrite last_snoc.
  rewrite length_snoc_pred. destruct (Nat.eqb_spec k (length init)) as [->|Hne].
  - rewrite length_snoc_pred, take_app_length. rewrite list_lookup_middle in Hk by done. injection Hk as ->. symmetry. apply Permutation_cons_append.
  - assert (Hlt : (k < length init)%nat).
    { apply lookup_lt_Some in Hk. rewrite length_app in Hk. cbn in Hk. lia. }
    rewrite lookup_app_l in Hk by done. rewrite insert_app_l by done. rewrite length_snoc_pred, take_app_length.
    apply list_elem_of_split_length in Hk as (l1 & l2 & -> & ->). rewrite insert_middle.
    rewrite <- app_assoc. cbn. rewrite <- Permutation_middle. apply Permutation_skip, Permutation_app_head. symmetry. apply Permutation_cons_append.
Qed.

(** The bounds that the constructor gives to the buckets. *)
Definition bucketBounds : list (Z * Z) := (fun b => (leftBound b, rightBound b)) <$> makeBuckets 64 0 minBucketSize.

Definition isBucketOf (i : nat) (size : Z) : Prop :=
  exists l r, bucketBounds !! i = Some (l, r) /\ l <= size <= r.

Lemma bucketBounds_eq : bucketBounds = (fun k => (if k =? 0 then 0 else minBucketSize * 2 ^ (k - 1) + 1, minBucketSize * 2 ^ k)) <$> (seqZ 0 12).
Proof. vm_compute. reflexivity. Qed.

Lemma bucketBounds_lookup i l r : bucketBounds !! i = Some (l, r) ->
  (i < 12)%nat /\ l = (if Z.of_nat i =? 0 then 0 else minBucketSize * 2 ^ (Z.of_nat i - 1) + 1) /\ r = minBucketSize * 2 ^ Z.of_nat i.
Proof.
  rewrite bucketBounds_eq, list_lookup_fmap. intros H. destruct (seqZ 0 12 !! i) as [k|] eqn:E; [|done].
  apply lookup_seqZ in E as [-> Hi]. cbn in H. injection H as <- <-. split; [lia|]. by rewrite Z.add_0_l.
Qed.

Lemma bucketBounds_at k : 0 <= k < 12 -> bucketBounds !! Z.to_nat k =
  Some (if k =? 0 then 0 else minBucketSize * 2 ^ (k - 1) + 1, minBucketSize * 2 ^ k).
Proof.
  intros Hk. rewrite bucketBounds_eq, list_lookup_fmap, (proj2 (lookup_seqZ 0 12 (Z.to_nat k) k)) by lia. done.
Qed.

(** Bounds of different buckets do not meet. *)
Lemma isBucketOf_unique i j size : isBucketOf i size -> isBucketOf j size -> i = j.
Proof.
  assert (H : forall i j, (i < j)%nat -> isBucketOf i size -> isBucketOf j size -> False).
  { intros a b Hab (l & r & Ha & Hs) (l' & r' & Hb & Hs'). apply bucketBounds_lookup in Ha as (_ & _ & ->).
    apply bucketBounds_lookup in Hb as (_ & -> & _). rewrite (proj2 (Z.eqb_neq _ _)) in Hs' by lia.
    assert (2 ^ Z.of_nat a <= 2 ^ (Z.of_nat b - 1)) by (apply Z.pow_le_mono_r; lia). unfold minBucketSize, KB in *. lia. }
  intros Hi Hj. destruct (Nat.lt_trichotomy i j) as [?|[?|?]]; [|done|]; exfalso; eauto.
Qed.

Lemma leadingBitNum_log2 v : 0 < v -> v < W64 -> leadingBitNum v ⇓ Z.log2 v + 1.
Proof.
  intros H0 H1. unfold leadingBitNum, clz. rewrite (proj2 (Z.eqb_neq _ _)) by lia. cbn [mbind res_bind].
  pose proof (Z.log2_nonneg v). rewrite (proj2 (Z.eqb_neq _ _)) by lia. f_equal. lia.
Qed.

(** Every size up to the maximum has a bucket, whose bounds contain it. *)
Lemma getBucketIdForSize_ok size : 0 <= size <= maxBucketSize ->
  exists id, getBucketIdForSize size ⇓ id /\ 0 <= id < 12 /\ isBucketOf (Z.to_nat id) size.
Proof.
  intros Hs. unfold getBucketIdForSize. destruct (Z.leb_spec size minBucketSize) as [Hle|Hgt].
  - exists 0. split; [done|]. split; [lia|]. exists 0, minBucketSize. split; [by vm_compute|lia].
  - unfold maxBucketSize, minBucketSize, MB, KB in *. change (64 * 1024) with 65536 in *. change (128 * (1024 * 1024)) with 134217728 in Hs.
    set (over := size / 65536). assert (Ho : 1 <= over <= 2048) by (unfold over; Z.div_mod_to_equations; lia).
    rewrite leadingBitNum_log2 by lia. cbn [mbind res_bind]. set (k := Z.log2 over).
    assert (Hk : 2 ^ k <= over < 2 ^ Z.succ k) by (apply Z.log2_spec; lia).
    assert (Hk2 : 0 <= k <= 11) by (split; [apply Z.log2_nonneg|change 11 with (Z.log2 2048); apply Z.log2_le_mono; lia]).
    assert (Hov : 65536 * over <= size < 65536 * (over + 1)) by (unfold over; Z.div_mod_to_equations; lia).
    rewrite Z.pow_succ_r in Hk by lia. assert (Hp : 2 ^ k <= 2 ^ 11) by (apply Z.pow_le_mono_r; lia). change (2 ^ 11) with 2048 in Hp.
    replace (u64 (k + 1 - 1)) with k by (rewrite u64_id; unfold is_u64; lia). rewrite Z.shiftl_mul_pow2 by lia.
    rewrite (u64_id (65536 * _)) by (unfold is_u64; lia).
    destruct (Z.eqb_spec (65536 * 2 ^ k) size) as [E|E]; cbn [negb].
    + exists k. split; [done|]. split; [lia|]. eexists _, _. split; [apply bucketBounds_at; lia|]. unfold minBucketSize, KB.
      destruct (Z.eqb_spec k 0); [lia|]. assert (2 ^ k = 2 * 2 ^ (k - 1)) by (rewrite <- Z.pow_succ_r; [f_equal|]; lia). lia.
    + rewrite u64_id by (unfold is_u64; lia). assert (k <> 11) by (intros ->; change (2 ^ 11) with 2048 in *; lia).
      exists (k + 1). split; [done|]. split; [lia|]. eexists _, _. split; [apply bucketBounds_at; lia|]. unfold minBucketSize, KB.
      rewrite (proj2 (Z.eqb_neq _ _)), Z.add_simpl_r, Z.pow_add_r by lia. lia.
Qed.

(** * What holds of the recycler *)

Definition sizeOf (h : mem_store) (p : Z) : Z := match h !! p with Some o => memSize o | None => 0 end.

Definition sumSizes (h : mem_store) (l : list Z) : Z := foldr (fun p sum => sizeOf h p + sum) 0 l.

Definition recycled (r : ClBufferRecycler) : list Z := mjoin (objects <$> buckets r).

(** What a bucket keeps: live buffers with one reference, of sizes in its bounds. *)
Definition kept_in (h : mem_store) (i : nat) (p : Z) : Prop :=
  exists o, h !! p = Some o /\ memRefs o = 1 /\ 0 < memSize o <= maxBucketSize /\ isBucketOf i (memSize o).

Definition bucket_ok (h : mem_store) (i : nat) (b : RecycleListBucket) : Prop :=
  Forall (kept_in h i) (objects b) /\ bucketSizeTotal b = sumSizes h (objects b) /\ bucketCountTotal b = Z.of_nat (length (objects b)).

(** The limit is less than half of the addresses, so that no sum wraps. *)
Record recycler_ok (h : mem_store) (r : ClBufferRecycler) : Prop := mkRecyclerOk {
  ok_number : length (buckets r) = 12%nat;
  ok_buckets : forall i b, buckets r !! i = Some b -> bucket_ok h i b;
  ok_size : currentRecycleSizeTotal r = sumSizes h (recycled r);
  ok_count : currentRecycleCountTotal r = Z.of_nat (length (recycled r));
  ok_limit : currentRecycleSizeTotal r <= allowedReuseSizeTotal r < 9223372036854775808;
  ok_distinct : NoDup (recycled r) }.

Lemma sumSizes_app h l1 l2 : sumSizes h (l1 ++ l2) = sumSizes h l1 + sumSizes h l2.
Proof. unfold sumSizes. induction l1 as [|p l1 IH]; cbn; lia. Qed.

#[export] Instance sumSizes_perm h : Proper ((≡ₚ) ==> (=)) (sumSizes h).
Proof. intros l1 l2 H. unfold sumSizes. induction H; cbn; lia. Qed.

Lemma sumSizes_kept h i l : Forall (kept_in h i) l -> Z.of_nat (length l) <= sumSizes h l.
Proof.
  induction 1 as [|p l (o & Ho & _ & Hs & _) _ IH]; cbn; [lia|]. fold (sumSizes h l). unfold sizeOf. rewrite Ho. lia.
Qed.

Lemma sumSizes_ext h h' l : (forall p, p ∈ l -> h' !! p = h !! p) -> sumSizes h' l = sumSizes h l.
Proof.
  induction l as [|p l IH]; intros H; cbn; [done|]. fold (sumSizes h l). fold (sumSizes h' l).
  rewrite IH by (intros q Hq; apply H; set_solver). unfold sizeOf. by rewrite H by set_solver.
Qed.

Lemma recycled_split (bs : list RecycleListBucket) i b : bs !! i = Some b ->
  exists rest, mjoin (objects <$> bs) ≡ₚ objects b ++ rest /\
    forall b', mjoin (objects <$> <[i := b']> bs) ≡ₚ objects b' ++ rest.
Proof.
  intros (l1 & l2 & -> & ->)%list_elem_of_split_length. exists (mjoin (objects <$> l1) ++ mjoin (objects <$> l2)). split.
  - rewrite fmap_app, join_app. cbn. apply Permutation_app_swap_app.
  - intros b'. rewrite insert_middle. rewrite fmap_app, join_app. cbn. apply Permutation_app_swap_app.
Qed.

Lemma kept_in_recycled h r p : recycler_ok h r -> p ∈ recycled r -> exists i b, buckets r !! i = Some b /\ p ∈ objects b /\ kept_in h i p.
Proof.
  intros Hr Hp. unfold recycled in Hp. apply list_elem_of_join in Hp as (l & Hp & (b & -> & Hb)%list_elem_of_fmap).
  apply list_elem_of_lookup in Hb as [i Hi]. exists i, b. split; [done|]. split; [done|].
  destruct (ok_buckets _ _ Hr _ _ Hi) as [Hk _]. by apply (proj1 (Forall_forall _ _) Hk).
Qed.

(** The recycler looks only at what it keeps. *)
Lemma recycler_ok_ext h h' r : (forall p, p ∈ recycled r -> h' !! p = h !! p) -> recycler_ok h r -> recycler_ok h' r.
Proof.
  intros He Hr. destruct Hr as [Hn Hb Hs Hc Hl Hd]. split; try done; [|by rewrite (sumSizes_ext h h')].
  intros i b Hi. destruct (Hb i b Hi) as (Hk & Ht & Hlen).
  assert (Hin : forall p, p ∈ objects b -> p ∈ recycled r).
  { intros p Hp. apply list_elem_of_join. exists (objects b). split; [done|]. apply list_elem_of_fmap. exists b. split; [done|]. by eapply list_elem_of_lookup_2. }
  split; [|split; [|done]].
  - apply Forall_forall. intros p Hp. pose proof (proj1 (Forall_forall _ _) Hk p Hp) as (o & Ho & Hrest).
    exists o. split; [|done]. by rewrite He by auto.
  - rewrite (sumSizes_ext h h'); [done|]. auto.
Qed.

Lemma newRecycler_ok env : 0 <= env < 8796093022208 -> recycler_ok ∅ (newRecycler env).
Proof.
  intros Henv. split.
  - reflexivity.
  - intros i b Hi. change (buckets (newRecycler env)) with (makeBuckets 64 0 minBucketSize) in Hi.
    assert (Hf : Forall (fun b => objects b = [] /\ bucketSizeTotal b = 0 /\ bucketCountTotal b = 0) (makeBuckets 64 0 minBucketSize))
      by (vm_compute; repeat constructor).
    destruct (proj1 (Forall_lookup _ _) Hf _ _ Hi) as (E1 & E2 & E3). unfold bucket_ok. by rewrite E1, E2, E3.
  - reflexivity.
  - reflexivity.
  - change (0 <= u64 (env * MB) < 9223372036854775808). unfold MB, KB. rewrite u64_id; unfold is_u64; lia.
  - replace (recycled (newRecycler env)) with (@nil Z) by (vm_compute; reflexivity). constructor.
Qed.

Lemma bucket_at_ok h r id : recycler_ok h r -> 0 <= id < 12 -> exists b, bucket_at r id ⇓ b /\ buckets r !! Z.to_nat id = Some b.
Proof.
  intros Hr Hid. unfold bucket_at. destruct (buckets r !! Z.to_nat id) as [b|] eqn:E; [by exists b|].
  apply lookup_ge_None in E. rewrite (ok_number _ _ Hr) in E. lia.
Qed.

(** Replacing one bucket by another one. *)
Lemma set_bucket_ok h r id b b' size count rest : recycler_ok h r -> 0 <= id < 12 -> buckets r !! Z.to_nat id = Some b ->
  bucket_ok h (Z.to_nat id) b' -> recycled r ≡ₚ objects b ++ rest -> NoDup (objects b' ++ rest) ->
  (forall b', mjoin (objects <$> <[Z.to_nat id := b']> (buckets r)) ≡ₚ objects b' ++ rest) ->
  size = sumSizes h (objects b' ++ rest) -> size <= allowedReuseSizeTotal r -> count = Z.of_nat (length (objects b' ++ rest)) ->
  recycler_ok h (set_bucket r id b' size count) /\ recycled (set_bucket r id b' size count) ≡ₚ objects b' ++ rest.
Proof.
  intros Hr Hid Hb Hb' Hrec Hnd Hins Hs Hl Hc. assert (Hrec' : recycled (set_bucket r id b' size count) ≡ₚ objects b' ++ rest) by apply Hins.
  split; [|done]. split; cbn [set_bucket buckets currentRecycleSizeTotal currentRecycleCountTotal allowedReuseSizeTotal].
  - rewrite length_insert. apply Hr.
  - intros i b'' Hi. destruct (decide (i = Z.to_nat id)) as [->|Hne].
    + rewrite list_lookup_insert_eq in Hi by (by eapply lookup_lt_Some). by injection Hi as <-.
    + rewrite list_lookup_insert_ne in Hi by done. by apply Hr.
  - by rewrite Hrec'.
  - by rewrite Hrec'.
  - split; [done|]. apply Hr.
  - by rewrite Hrec'.
Qed.

Lemma sumSizes_cons h p l : sumSizes h (p :: l) = sizeOf h p + sumSizes h l.
Proof. done. Qed.

Lemma recycled_kept h r : recycler_ok h r -> Forall (fun p => exists i, kept_in h i p) (recycled r).
Proof. intros Hr. apply Forall_forall. intros p Hp. destruct (kept_in_recycled _ _ _ Hr Hp) as (i & _ & _ & _ & Hk). eauto. Qed.

Lemma sumSizes_bound h l : Forall (fun p => exists i, kept_in h i p) l -> Z.of_nat (length l) <= sumSizes h l.
Proof.
  induction 1 as [|p l [i (o & Ho & _ & Hs & _)] _ IH]; [done|]. rewrite sumSizes_cons. unfold sizeOf. rewrite Ho. cbn [length]. lia.
Qed.

(** Releasing: what is kept has no other user, and fits into the limit. *)
Lemma tryRecycleClBuffer_ok h r seen p o :
  recycler_ok h r -> h !! p = Some o -> p ∉ recycled r -> 1 <= memRefs o -> 0 <= memSize o ->
  exists kept r', tryRecycleClBuffer h r seen p ⇓ (kept, r') /\ recycler_ok h r' /\
    allowedReuseSizeTotal r' = allowedReuseSizeTotal r /\ isCleaningUp r' = isCleaningUp r /\
    if (kept : bool) then memRefs o = 1 /\ recycled r' ≡ₚ p :: recycled r else r' = r.
Proof.
  intros Hr Ho Hp Hrefs Hsize. unfold tryRecycleClBuffer, asLocalObject. rewrite Ho. cbn [mbind res_bind].
  assert (Hno : exists kept r', Ret (false, r) ⇓ (kept, r') /\ recycler_ok h r' /\
    allowedReuseSizeTotal r' = allowedReuseSizeTotal r /\ isCleaningUp r' = isCleaningUp r /\
    if (kept : bool) then memRefs o = 1 /\ recycled r' ≡ₚ p :: recycled r else r' = r) by (exists false, r; done).
  destruct (isCleaningUp r) eqn:Ec; [by apply Hno|]. destruct (Z.ltb_spec 1 (memRefs o)); [by apply Hno|].
  destruct (Z.eqb_spec (memSize o) 0); [by apply Hno|]. destruct (Z.ltb_spec maxBucketSize (memSize o)) as [|Hmax]; [by apply Hno|].
  destruct (_ <? u64 (seen + memSize o)); [by apply Hno|].
  destruct (getBucketIdForSize_ok (memSize o)) as (id & -> & Hid & Hb); [lia|]. cbn [mbind res_bind].
  pose proof (ok_limit _ _ Hr) as Hl. pose proof (sumSizes_bound h (recycled r) (recycled_kept _ _ Hr)) as Hn.
  pose proof (ok_size _ _ Hr) as Hsum. pose proof (ok_count _ _ Hr) as Hcount. change maxBucketSize with 134217728 in *.
  rewrite (u64_id (currentRecycleSizeTotal r + memSize o)) by (unfold is_u64; lia).
  destruct (Z.ltb_spec (allowedReuseSizeTotal r) (currentRecycleSizeTotal r + memSize o)) as [|Hfits]; [by apply Hno|].
  destruct (bucket_at_ok _ _ _ Hr Hid) as (b & -> & Hi). cbn [mbind res_bind]. unfold bucket_recycle, asLocalObject. rewrite Ho.
  cbn [mbind res_bind negb]. clear Hno. destruct (ok_buckets _ _ Hr _ _ Hi) as (Hk & Hbs & Hbc).
  destruct (recycled_split _ _ _ Hi) as (rest & Hrec & Hins). fold (recycled r) in Hrec.
  assert (Hso : sizeOf h p = memSize o) by (unfold sizeOf; by rewrite Ho).
  rewrite Hrec in Hsum, Hcount, Hn. rewrite sumSizes_app in Hsum, Hn. rewrite length_app in Hcount, Hn.
  assert (Hrest : Z.of_nat (length rest) <= sumSizes h rest).
  { apply sumSizes_bound. pose proof (recycled_kept _ _ Hr) as H'. rewrite Hrec in H'. by apply Forall_app in H' as [_ ?]. }
  pose proof (sumSizes_kept _ _ _ Hk) as Hbn.
  eexists true, _. split; [done|]. edestruct set_bucket_ok as [Hok Hrec']; [..|split; [exact Hok|]]; try done.
  - split; [|split]; cbn [objects bucketSizeTotal bucketCountTotal].
    + apply Forall_app. split; [done|]. constructor; [|done]. exists o. split; [done|]. split; [lia|]. split; [|done].
      change maxBucketSize with 134217728. lia.
    + rewrite sumSizes_app, sumSizes_cons, Hso, Hbs, u64_id; cbn; unfold is_u64; lia.
    + rewrite Hbc, length_app, u64_id; cbn; unfold is_u64; lia.
  - cbn [objects]. rewrite <- Permutation_cons_append. cbn [app]. rewrite <- Hrec. constructor; [done|apply Hr].
  - cbn [objects]. rewrite !sumSizes_app, sumSizes_cons, Hso. cbn. lia.
  - cbn [objects]. rewrite !length_app, u64_id; cbn; unfold is_u64; lia.
  - split; [done|]. split; [done|]. split; [lia|]. rewrite Hrec'. cbn [objects]. by rewrite <- Permutation_cons_append, Hrec.
Qed.

Lemma sumSizes_elem h l p : Forall (fun p => exists i, kept_in h i p) l -> p ∈ l -> sizeOf h p <= sumSizes h l.
Proof.
  intros Hl (l1 & l2 & ->)%list_elem_of_split. rewrite <- Permutation_middle in Hl. rewrite <- Permutation_middle. rewrite sumSizes_cons.
  apply Forall_cons in Hl as [_ Hl]. pose proof (sumSizes_bound h _ Hl). lia.
Qed.

Lemma live_objects h i l : Forall (kept_in h i) l -> exists os, Forall2 (fun p o => h !! p = Some o) l os.
Proof.
  induction 1 as [|p l (o & Ho & _) _ [os IH]]; [by exists []|]. exists (o :: os). by constructor.
Qed.

(** The pointer that a request is compared by. *)
Definition comparedPtr (flags host_ptr : Z) : Z := if usesHostPtr flags then host_ptr else 0.

Lemma bucket_tryGet_ok h i b flags size host_ptr : bucket_ok h i b -> bucketSizeTotal b < W64 -> 0 <= size ->
  exists got, bucket_tryGet h b flags size host_ptr reuseSingleWasteTolerance ⇓ got /\
  match got with
  | None => forall p o, p ∈ objects b -> h !! p = Some o -> fits flags size (comparedPtr flags host_ptr) o = false
  | Some (p, b') => exists o, h !! p = Some o /\ p ∈ objects b /\ fits flags size (comparedPtr flags host_ptr) o = true /\
      (forall q o', q ∈ objects b -> h !! q = Some o' -> fits flags size (comparedPtr flags host_ptr) o' = true ->
         better size (comparedPtr flags host_ptr) o' o = false) /\
      objects b ≡ₚ p :: objects b' /\ bucket_ok h i b'
  end.
Proof.
  intros (Hk & Hs & Hc) Hlim Hsize. unfold bucket_tryGet. fold (comparedPtr flags host_ptr). set (hp := comparedPtr flags host_ptr).
  assert (Hk' : Forall (fun p => exists i, kept_in h i p) (objects b)) by (eapply Forall_impl; [exact Hk|]; cbn; eauto).
  destruct (Nat.eqb_spec (length (objects b)) 0) as [El|El]; cbn [orb].
  { exists None. split; [done|]. intros p o Hp. apply nil_length_inv in El. rewrite El in Hp. by apply elem_of_nil in Hp. }
  destruct (Z.ltb_spec (bucketSizeTotal b) size) as [Hlt|Hge].
  { exists None. split; [done|]. intros p o Hp Ho. pose proof (sumSizes_elem _ _ _ Hk' Hp) as He. unfold sizeOf in He. rewrite Ho in He.
    unfold fits. by rewrite (proj2 (Z.leb_gt size (memSize o))), andb_false_r by lia. }
  destruct (live_objects _ _ _ Hk) as [os Hos].
  destruct (searchFit_chosen h flags size hp _ _ Hos Hsize [] noFit (noFit_found _ _ _)) as (f & Hf & Hch). cbn [length app] in Hf, Hch.
  rewrite Hf. cbn [mbind res_bind]. unfold chosen in Hch. destruct (bestFit f) as [k|] eqn:Ek.
  - destruct Hch as (o & Hko & Hfit & Hw & Hbest). destruct (Forall2_lookup_r _ _ _ _ _ Hos Hko) as (p & Hkp & Hpo).
    assert (Hle : SFleb (bestFitWaste f) reuseSingleWasteTolerance = true) by (rewrite Hw; unfold fits in Hfit; by bool_prop).
    rewrite (SFleb_not_ltb _ _ Hle), Hkp. unfold asLocalObject. rewrite Hpo. cbn [mbind res_bind].
    pose proof (swapRemove_perm _ _ _ Hkp) as Hperm. eexists. split; [done|]. cbn [objects]. exists o. split; [done|].
    split; [by eapply list_elem_of_lookup_2|]. split; [done|]. split.
    { intros q o' Hq Ho' Hfit'. apply Hbest; [|done]. apply list_elem_of_lookup in Hq as [j Hj].
      destruct (Forall2_lookup_l _ _ _ _ _ Hos Hj) as (o'' & Hjo & Hqo). rewrite Ho' in Hqo. injection Hqo as <-. by eapply list_elem_of_lookup_2. }
    split; [done|]. rewrite Hperm in Hk, Hs, Hc. apply Forall_cons in Hk as [(o' & Ho' & _ & Hso & _) Hk]. rewrite sumSizes_cons in Hs.
    unfold sizeOf in Hs. rewrite Hpo in Ho', Hs. injection Ho' as <-. cbn [length] in Hc. pose proof (sumSizes_kept _ _ _ Hk).
    split; [|split]; cbn [objects bucketSizeTotal bucketCountTotal]; [done| |]; rewrite u64_id; unfold is_u64; lia.
  - exists None. split; [done|]. intros p o Hp Ho. apply Hch. apply list_elem_of_lookup in Hp as [j Hj].
    destruct (Forall2_lookup_l _ _ _ _ _ Hos Hj) as (o'' & Hjo & Hqo). rewrite Ho in Hqo. injection Hqo as <-. by eapply list_elem_of_lookup_2.
Qed.

(** The buffers that a request looks at: those of the bucket for its size. *)
Definition inSameBucket (h : mem_store) (r : ClBufferRecycler) (size p : Z) (o : IcdOclMem) : Prop :=
  p ∈ recycled r /\ h !! p = Some o /\ getBucketIdForSize (memSize o) = getBucketIdForSize size.

Lemma inSameBucket_objects h r id size p o b : recycler_ok h r -> getBucketIdForSize size ⇓ id -> 0 <= id -> buckets r !! Z.to_nat id = Some b ->
  inSameBucket h r size p o -> p ∈ objects b.
Proof.
  intros Hr Hid H0 Hb (Hp & Ho & Hs). destruct (kept_in_recycled _ _ _ Hr Hp) as (i & b' & Hi & Hpb & (o' & Ho' & _ & Hsz & Hbk)).
  rewrite Ho in Ho'. injection Ho' as <-. destruct (getBucketIdForSize_ok (memSize o)) as (id' & Hid' & Hr' & Hbk'); [lia|].
  rewrite Hs, Hid in Hid'. injection Hid' as <-. rewrite <- (isBucketOf_unique _ _ _ Hbk Hbk') in Hb. rewrite Hi in Hb. by injection Hb as ->.
Qed.

(** Requests: the best buffer of the bucket, if one is good enough. *)
Lemma tryGetRecycledClBuffer_ok h r seen flags size host_ptr : recycler_ok h r -> 0 <= size ->
  let hp := comparedPtr flags host_ptr in
  exists got, tryGetRecycledClBuffer h r seen flags size host_ptr ⇓ got /\
  match got with
  | None => isCleaningUp r = false -> size <= seen -> size <= maxBucketSize -> forall p o, inSameBucket h r size p o -> fits flags size hp o = false
  | Some (p, r') => exists o, inSameBucket h r size p o /\ fits flags size hp o = true /\ memRefs o = 1 /\
      (forall q o', inSameBucket h r size q o' -> fits flags size hp o' = true -> better size hp o' o = false) /\
      recycled r ≡ₚ p :: recycled r' /\ recycler_ok h r' /\
      allowedReuseSizeTotal r' = allowedReuseSizeTotal r /\ isCleaningUp r' = isCleaningUp r
  end.
Proof.
  intros Hr Hsize hp. unfold tryGetRecycledClBuffer. destruct (isCleaningUp r) eqn:Ec; [by exists None|].
  destruct (Z.ltb_spec maxBucketSize size) as [|Hmax]; [exists None; split; [done|]; intros; lia|].
  destruct (Z.ltb_spec seen size); [exists None; split; [done|]; intros; lia|].
  destruct (getBucketIdForSize_ok size) as (id & Hid & Hrange & Hbk); [lia|]. rewrite Hid. cbn [mbind res_bind].
  pose proof (ok_limit _ _ Hr) as Hl. pose proof (recycled_kept _ _ Hr) as Hkept. pose proof (sumSizes_bound h (recycled r) Hkept) as Hn.
  pose proof (ok_size _ _ Hr) as Hsum. pose proof (ok_count _ _ Hr) as Hcount.
  destruct (Z.ltb_spec (currentRecycleSizeTotal r) size) as [Hlt|Hge].
  { exists None. split; [done|]. intros _ _ _ p o (Hp & Ho & _). pose proof (sumSizes_elem _ _ _ Hkept Hp) as He. unfold sizeOf in He. rewrite Ho in He.
    unfold fits. by rewrite (proj2 (Z.leb_gt size (memSize o))), andb_false_r by lia. }
  destruct (bucket_at_ok _ _ _ Hr Hrange) as (b & -> & Hi). cbn [mbind res_bind].
  assert (Hobj : forall q o', inSameBucket h r size q o' -> q ∈ objects b)
    by (intros q o'; apply (inSameBucket_objects h r id size q o' b Hr Hid (proj1 Hrange) Hi)).
  pose proof (ok_buckets _ _ Hr _ _ Hi) as Hb. destruct (recycled_split _ _ _ Hi) as (rest & Hrec & Hins). fold (recycled r) in Hrec.
  assert (Hrest : Forall (fun p => exists i, kept_in h i p) rest) by (rewrite Hrec in Hkept; apply Forall_app in Hkept; apply Hkept).
  apply sumSizes_bound in Hrest. rewrite Hrec in Hsum, Hcount, Hn. rewrite sumSizes_app in Hsum, Hn. rewrite length_app in Hcount, Hn.
  destruct (bucket_tryGet_ok h (Z.to_nat id) b flags size host_ptr Hb) as (got & -> & Hgot); [destruct Hb as (_ & -> & _); lia|done|].
  fold hp in Hgot. cbn [mbind res_bind]. destruct got as [[p b']|]; cycle 1.
  { exists None. split; [done|]. intros _ _ _ p o Hpo. apply (Hgot p o); [by eapply Hobj|apply Hpo]. }
  destruct Hgot as (o & Ho & Hpb & Hfit & Hbest & Hperm & Hb'). unfold asLocalObject. rewrite Ho. cbn [mbind res_bind].
  assert (Hso : sizeOf h p = memSize o) by (unfold sizeOf; by rewrite Ho).
  destruct Hb as (Hk & _ & _). destruct (proj1 (Forall_forall _ _) Hk p Hpb) as (o' & Ho' & Hrefs & Hsz & Hbko).
  rewrite Ho in Ho'. injection Ho' as <-. rewrite Hperm in Hsum, Hcount. rewrite sumSizes_cons, Hso in Hsum. cbn [length] in Hcount.
  pose proof Hb' as (Hk' & _ & _). apply sumSizes_kept in Hk'.
  edestruct set_bucket_ok as [Hok Hrec']; [exact Hr|exact Hrange|exact Hi|exact Hb'|exact Hrec| |exact Hins|exact (eq_refl _)| |exact (eq_refl _)|].
  { assert (Hnd : NoDup (recycled r)) by apply Hr. rewrite Hrec, Hperm in Hnd. cbn in Hnd. by apply NoDup_cons in Hnd as [_ ?]. }
  { rewrite sumSizes_app. lia. }
  eexists. split; [done|]. exists o. split.
  { split; [rewrite Hrec; set_solver|]. split; [done|]. destruct (getBucketIdForSize_ok (memSize o)) as (id' & -> & Hid' & Hbk'); [lia|].
    rewrite Hid. f_equal. apply Z2Nat.inj; [lia..|]. by eapply isBucketOf_unique. }
  split; [done|]. split; [done|]. split.
  { intros q o'' Hq. apply (Hbest q o''); [by eapply Hobj|apply Hq]. }
  replace (u64 (currentRecycleSizeTotal r - memSize o)) with (sumSizes h (objects b' ++ rest)) by (rewrite sumSizes_app, u64_id; unfold is_u64; lia).
  replace (u64 (currentRecycleCountTotal r - 1)) with (Z.of_nat (length (objects b' ++ rest))) by (rewrite length_app, u64_id; unfold is_u64; lia).
  split; [by rewrite Hrec, Hrec', Hperm|]. done.
Qed.

(** * Histories of one context *)

(** Buffers, recycler and handles fit together: a handle refers to a live buffer whose
    count is the number of its handles, and never to a recycled one. *)
Record owned (h : mem_store) (r : ClBufferRecycler) (app : list Z) : Prop := mkOwned {
  own_recycler : recycler_ok h r;
  own_open : isCleaningUp r = false;
  own_sizes : forall p o, h !! p = Some o -> p <> 0 /\ 0 <= memSize o < W64;
  own_handles : forall p, p ∈ app -> p ∉ recycled r /\ exists o, h !! p = Some o /\ memRefs o = occurrences app p;
  own_few : Z.of_nat (length app) <= u32_max }.

Lemma occurrences_elem l p : p ∈ l <-> 1 <= occurrences l p.
Proof.
  unfold occurrences. rewrite list_elem_of_In, (count_occ_In Z.eq_dec). lia.
Qed.

Lemma occurrences_length l p : occurrences l p <= Z.of_nat (length l).
Proof. unfold occurrences. pose proof (count_occ_bound Z.eq_dec p l). lia. Qed.

#[export] Instance occurrences_proper : Proper ((≡ₚ) ==> (=) ==> (=)) occurrences.
Proof. intros l1 l2 H p ? <-. by apply occurrences_perm. Qed.

Lemma owned_perm h r app app' : app ≡ₚ app' -> owned h r app -> owned h r app'.
Proof.
  intros Hp [? ? ? Hh Hf]. split; try done; [|by rewrite <- Hp].
  intros p Hin. rewrite <- Hp in Hin. destruct (Hh p Hin) as (? & o & ? & E). split; [done|]. exists o. by rewrite E, Hp.
Qed.

(** A recycled buffer that is handed out has one handle. *)
Lemma owned_take h r r' app p : owned h r app -> recycled r ≡ₚ p :: recycled r' -> recycler_ok h r' -> isCleaningUp r' = false ->
  Z.of_nat (length app) < u32_max -> owned h r' (p :: app) /\ p ∉ app.
Proof.
  intros Ho Hperm Hr Hc Hlen. assert (Hp : p ∈ recycled r) by (rewrite Hperm; set_solver).
  assert (Happ : p ∉ app) by (intros Hin; by destruct (own_handles _ _ _ Ho p Hin) as [? _]).
  destruct (kept_in_recycled _ _ _ (own_recycler _ _ _ Ho) Hp) as (i & b & _ & _ & (o & Hpo & Href & _)).
  split; [|done]. split; [done|done|apply Ho| |cbn [length]; lia].
  assert (Hnd : NoDup (p :: recycled r')) by (rewrite <- Hperm; apply (own_recycler _ _ _ Ho)). apply NoDup_cons in Hnd as [Hnp _].
  intros q [->|Hq]%elem_of_cons.
  - split; [done|]. exists o. split; [done|]. rewrite occurrences_cons, decide_True by done. apply occurrences_zero in Happ. lia.
  - destruct (own_handles _ _ _ Ho q Hq) as (Hnq & o' & Hqo & E). rewrite Hperm in Hnq. split; [set_solver|]. exists o'. split; [done|].
    rewrite occurrences_cons, decide_False by congruence. lia.
Qed.

(** A buffer without handles is one that may be recycled, or deleted. *)
Lemma owned_keep h r r' app p o : owned h r (p :: app) -> h !! p = Some o -> memRefs o = 1 ->
  recycled r' ≡ₚ p :: recycled r -> recycler_ok h r' -> isCleaningUp r' = false -> owned h r' app.
Proof.
  intros Ho Hpo Href Hperm Hr Hc. split; [done|done|apply Ho| |pose proof (own_few _ _ _ Ho); cbn [length] in *; lia].
  destruct (own_handles _ _ _ Ho p) as (_ & o' & Hpo' & E); [set_solver|]. rewrite Hpo in Hpo'. injection Hpo' as <-.
  rewrite occurrences_cons, decide_True in E by done.
  intros q Hq. assert (q <> p) by (intros ->; apply occurrences_elem in Hq; lia).
  destruct (own_handles _ _ _ Ho q) as (Hnq & oq & Hqo & Eq); [set_solver|]. split; [rewrite Hperm; set_solver|].
  exists oq. split; [done|]. rewrite occurrences_cons, decide_False in Eq by done. lia.
Qed.

Lemma owned_delete h r app p o : owned h r (p :: app) -> h !! p = Some o -> memRefs o = 1 -> owned (delete p h) r app.
Proof.
  intros Ho Hpo Href. destruct (own_handles _ _ _ Ho p) as (Hnp & o' & Hpo' & E); [set_solver|]. rewrite Hpo in Hpo'. injection Hpo' as <-.
  rewrite occurrences_cons, decide_True in E by done. split.
  - eapply recycler_ok_ext; [|apply Ho]. intros q Hq. rewrite lookup_delete_ne by (intros ->; done). done.
  - apply Ho.
  - intros q oq Hq. apply lookup_delete_Some in Hq as [_ Hq]. by eapply own_sizes.
  - intros q Hq. assert (q <> p) by (intros ->; apply occurrences_elem in Hq; lia).
    destruct (own_handles _ _ _ Ho q) as (Hnq & oq & Hqo & Eq); [set_solver|]. split; [done|]. exists oq.
    rewrite lookup_delete_ne by done. split; [done|]. rewrite occurrences_cons, decide_False in Eq by done. lia.
  - pose proof (own_few _ _ _ Ho). cbn [length] in *. lia.
Qed.

(** Another count for a buffer with handles, when the handles change alike. *)
Lemma owned_count h r app app' p o n : owned h r app -> h !! p = Some o -> p ∈ app -> n = occurrences app' p ->
  (forall q, q ∈ app' -> q ∈ app) -> (forall q, q <> p -> occurrences app' q = occurrences app q) -> Z.of_nat (length app') <= u32_max ->
  owned (<[p := mkMem (apiHostPtr o) (memSize o) (memFlags o) n]> h) r app'.
Proof.
  intros Ho Hpo Hp -> Hin Hocc Hlen. destruct (own_handles _ _ _ Ho p Hp) as (Hnp & _). split; [|apply Ho| | |done].
  - eapply recycler_ok_ext; [|apply Ho]. intros q Hq. rewrite lookup_insert_ne by (intros ->; done). done.
  - intros q oq [[<- <-]|[_ Hq]]%lookup_insert_Some; [|by eapply own_sizes]. cbn. by eapply own_sizes.
  - intros q Hq. destruct (own_handles _ _ _ Ho q (Hin q Hq)) as (Hnq & oq & Hqo & Eq). split; [done|].
    destruct (decide (q = p)) as [->|Hne]; [rewrite lookup_insert_eq; eauto|]. rewrite lookup_insert_ne by done. exists oq. by rewrite Hocc.
Qed.

Lemma owned_new h r app p ptr size flags : owned h r app -> h !! p = None -> p <> 0 -> 0 <= size < W64 -> Z.of_nat (length app) < u32_max ->
  owned (<[p := mkMem ptr size flags 1]> h) r (p :: app) /\ p ∉ app.
Proof.
  intros Ho Hnone H0 Hs Hlen. assert (Happ : p ∉ app).
  { intros Hp. destruct (own_handles _ _ _ Ho p Hp) as (_ & o & Hpo & _). congruence. }
  assert (Hrec : p ∉ recycled r).
  { intros Hp. destruct (kept_in_recycled _ _ _ (own_recycler _ _ _ Ho) Hp) as (? & ? & _ & _ & (? & ? & _)). congruence. }
  split; [|done]. split; [|apply Ho| | |cbn [length]; lia].
  - eapply recycler_ok_ext; [|apply Ho]. intros q Hq. rewrite lookup_insert_ne by (intros ->; done). done.
  - intros q oq [[<- <-]|[_ Hq]]%lookup_insert_Some; [done|by eapply own_sizes].
  - intros q [->|Hq]%elem_of_cons.
    + split; [done|]. rewrite lookup_insert_eq. eexists. split; [done|]. cbn. rewrite occurrences_cons, decide_True by done.
      apply occurrences_zero in Happ. lia.
    + destruct (own_handles _ _ _ Ho q Hq) as (Hnq & oq & Hqo & Eq). split; [done|]. rewrite lookup_insert_ne by congruence.
      exists oq. split; [done|]. rewrite occurrences_cons, decide_False by congruence. lia.
Qed.

Lemma owned_forget h r app p : owned h r (p :: app) -> p ∉ app -> owned h r app.
Proof.
  intros [? ? ? Hh Hf] Hp. split; try done; [|cbn [length] in *; lia]. intros q Hq. destruct (Hh q) as (? & o & ? & E); [set_solver|].
  split; [done|]. exists o. split; [done|]. rewrite occurrences_cons, decide_False in E by congruence. lia.
Qed.

(** What the operations leave as it is. *)
Definition same_context (c c' : Context) : Prop :=
  implicitQueue c' = implicitQueue c /\ skipTransferOnHostPtrMatch c' = skipTransferOnHostPtrMatch c /\
  allowedReuseSizeTotal (clBufferRecycler c') = allowedReuseSizeTotal (clBufferRecycler c).

Lemma context_tryGetRecycled_ok s c app seen seenBack flags size host_ptr p c' :
  owned (mems c) (clBufferRecycler c) app -> 0 <= size -> Z.of_nat (length app) < u32_max ->
  context_tryGetRecycled s c seen seenBack flags size host_ptr ⇓ (p, c') ->
  mems c' = mems c /\ contextRefs c' = contextRefs c /\ same_context c c' /\
  if decide (p = 0) then owned (mems c) (clBufferRecycler c') app
  else owned (mems c) (clBufferRecycler c') (p :: app) /\ p ∉ app /\
    exists o, mems c !! p = Some o /\ memRefs o = 1 /\ fits flags size (comparedPtr flags host_ptr) o = true.
Proof.
  intros Ho Hs Hlen. unfold context_tryGetRecycled. destruct (_ && _); [by intros [= <- <-]|].
  destruct (tryGetRecycledClBuffer_ok _ _ seen flags size host_ptr (own_recycler _ _ _ Ho) Hs) as (got & -> & Hgot).
  cbn [mbind res_bind]. destruct got as [[q r]|]; [|by intros [= <- <-]].
  destruct Hgot as (o & (_ & Hqo & _) & Hfit & Href & _ & Hperm & Hr & Hal & Hcl). rewrite (own_open _ _ _ Ho) in Hcl.
  destruct (owned_take _ _ _ _ _ Ho Hperm Hr Hcl Hlen) as [Ho' Hq]. pose proof (own_sizes _ _ _ Ho _ _ Hqo) as [Hq0 Hso].
  cbn [set_recycler mems skipTransferOnHostPtrMatch clBufferRecycler]. unfold asLocalObject. rewrite Hqo. cbn [mbind res_bind].
  destruct (skipTransferOnHostPtrMatch c && _).
  { intros [= <- <-]. rewrite decide_False by done. do 5 (split; [done|]). by exists o. }
  unfold clEnqueueWriteBuffer. cbn. destruct (implicitQueue c =? 0); [done|]. cbn [mbind res_bind].
  destruct (Z.eqb_spec (enqueueWrite s q size host_ptr) 0) as [_|_]; cbn [negb mems clBufferRecycler].
  { intros [= <- <-]. rewrite decide_False by done. do 5 (split; [done|]). by exists o. }
  destruct (own_handles _ _ _ Ho' q) as (Hnq & _); [set_solver|].
  destruct (tryRecycleClBuffer_ok _ _ seenBack q o Hr Hqo Hnq) as (kept & r' & -> & Hr' & Hal' & Hcl' & Hkept); [lia..|].
  cbn [mbind res_bind]. intros [= <- <-]. cbn. do 2 (split; [done|]). split; [split; [done|]; split; [done|]; cbn; congruence|].
  destruct kept.
  - destruct Hkept as [_ Hperm']. eapply owned_keep; [exact Ho'|exact Hqo|done|done|done|congruence].
  - subst r'. by eapply owned_forget.
Qed.

Lemma clCreateBuffer_ok s c app seen seenBack flags size host_ptr p c' :
  owned (mems c) (clBufferRecycler c) app -> 0 <= size < W64 -> Z.of_nat (length app) < u32_max ->
  (forall f n q, createBuffer s f n q = 0 \/ mems c !! createBuffer s f n q = None) ->
  clCreateBuffer s c seen seenBack flags size host_ptr ⇓ (p, c') ->
  owned (mems c') (clBufferRecycler c') (p :: app) /\ p ∉ app /\ same_context c c' /\
  (exists o, mems c' !! p = Some o /\ memRefs o = 1 /\ size <= memSize o /\ memFlags o = flags /\ (usesHostPtr flags = true -> apiHostPtr o = host_ptr)) /\
  (mems c' = mems c /\ contextRefs c' = contextRefs c \/
   mems c !! p = None /\ (exists o, mems c' = <[p := o]> (mems c)) /\ contextRefs c' = u32 (contextRefs c + 1)).
Proof.
  intros Ho Hs Hlen Hfresh. unfold clCreateBuffer.
  destruct (context_tryGetRecycled _ _ _ _ _ _ _) as [[q c1]| |] eqn:E; [|done|done]. cbn [mbind res_bind].
  apply (context_tryGetRecycled_ok _ _ app) in E as (Hm & Hrefs & Hsame & Hres); [|done|lia|done].
  destruct (Z.eqb_spec q 0) as [->|Hq]; cbn [negb].
  - rewrite decide_True in Hres by done. destruct (creationRequest s flags size host_ptr) as [[f n]| |]; [|done|done]. cbn [mbind res_bind].
    destruct (Z.eqb_spec (createBuffer s f size n) 0) as [|H0]; [done|]. intros [= <- <-]. cbn.
    destruct (Hfresh f size n) as [|Hnone]; [done|].
    destruct (owned_new _ _ _ _ host_ptr size flags Hres Hnone H0 Hs Hlen) as [Ho' Hp]. rewrite Hm. split; [done|]. split; [done|]. split; [done|].
    split; [rewrite lookup_insert_eq; eexists; split; [done|]; cbn; repeat split; lia|]. right. split; [done|]. split; [eauto|]. by rewrite Hrefs.
  - rewrite decide_False in Hres by done. intros [= <- <-]. destruct Hres as (Ho' & Hp & o & Hpo & Href & Hfit). rewrite Hm.
    split; [done|]. split; [done|]. split; [done|]. split; [|by left]. exists o. split; [done|]. split; [done|].
    unfold fits in Hfit. bool_prop. split; [done|]. split; [done|]. intros Hu. unfold comparedPtr in *. rewrite Hu in *. cbn in *. by bool_prop.
Qed.

Lemma clReleaseMemObject_ok s c rest seen p : owned (mems c) (clBufferRecycler c) (p :: rest) ->
  exists c', clReleaseMemObject s c seen p ⇓ c' /\ same_context c c' /\ (answered s = true ->
    owned (mems c') (clBufferRecycler c') rest /\
    (dom (mems c') = dom (mems c) /\ contextRefs c' = contextRefs c \/
     is_Some (mems c !! p) /\ mems c' = delete p (mems c) /\ contextRefs c' = u32 (contextRefs c - 1))).
Proof.
  intros Ho. destruct (own_handles _ _ _ Ho p) as (Hnp & o & Hpo & Href); [set_solver|].
  pose proof (own_sizes _ _ _ Ho _ _ Hpo) as [_ Hso]. pose proof (occurrences_length (p :: rest) p) as Hlen.
  pose proof (own_few _ _ _ Ho) as Hfew. pose proof (occurrences_nonneg rest p) as Hnn.
  assert (Hone : memRefs o = 1 + occurrences rest p) by (rewrite Href, occurrences_cons, decide_True by done; lia).
  unfold clReleaseMemObject.
  destruct (tryRecycleClBuffer_ok _ _ seen p o (own_recycler _ _ _ Ho) Hpo Hnp) as (kept & r' & -> & Hr' & Hal & Hcl & Hkept); [lia..|].
  cbn [mbind res_bind]. rewrite (own_open _ _ _ Ho) in Hcl. destruct kept.
  - destruct Hkept as [Href1 Hperm]. eexists. split; [done|]. split; [done|]. intros _. cbn. split; [by eapply owned_keep|by left].
  - subst r'. cbn [set_recycler mems]. unfold asLocalObject. rewrite Hpo. cbn [mbind res_bind].
    destruct (answered s); cbn [negb]; [|eexists; split; [done|]; split; [done|]; done].
    destruct (Z.eqb_spec (memRefs o) 1) as [E|E].
    + eexists. split; [done|]. split; [done|]. intros _. cbn. split; [by eapply owned_delete|]. right. split; [by eexists|]. done.
    + eexists. split; [done|]. split; [done|]. intros _. cbn. split.
      * eapply (owned_count _ _ (p :: rest)); [done|done|set_solver| |set_solver| |cbn [length] in *; lia].
        { rewrite u32_id; [lia|]. unfold is_u32, u32_max in *. cbn [length] in *. lia. }
        { intros q Hq. by rewrite occurrences_cons, decide_False by congruence. }
      * left. split; [|done]. rewrite dom_insert_L. apply elem_of_dom_2 in Hpo. set_solver.
Qed.

Lemma clRetainMemObject_ok s c app p c' : owned (mems c) (clBufferRecycler c) app -> p ∈ app -> answered s = true ->
  Z.of_nat (length app) < u32_max -> clRetainMemObject s c p ⇓ c' ->
  owned (mems c') (clBufferRecycler c') (p :: app) /\ same_context c c' /\ dom (mems c') = dom (mems c) /\ contextRefs c' = contextRefs c.
Proof.
  intros Ho Hp Ha Hlen. unfold clRetainMemObject, asLocalObject. destruct (own_handles _ _ _ Ho p Hp) as (_ & o & Hpo & Href). rewrite Hpo.
  cbn [mbind res_bind]. rewrite Ha. cbn [negb]. intros [= <-]. cbn. split; [|split; [done|]; split; [|done]].
  - pose proof (occurrences_length app p). pose proof (occurrences_nonneg app p).
    eapply (owned_count _ _ app); [done|done|done| |set_solver| |cbn [length]; lia].
    + rewrite occurrences_cons, decide_True by done. rewrite u32_id; [lia|]. unfold is_u32, u32_max in *. lia.
    + intros q Hq. by rewrite occurrences_cons, decide_False by congruence.
  - rewrite dom_insert_L. apply elem_of_dom_2 in Hpo. set_solver.
Qed.

(** A context after the choice of its implicit queue. *)
Definition startedContext (env : Z) (flag : bool) (q : Z) : Context :=
  mkContext ∅ (newRecycler env) q flag (if q =? 0 then 1 else 2) [].

Lemma setDevicesList_starts ask n env flag c : setDevicesList ask n (newContext env flag) ⇓ c -> exists q, c = startedContext env flag q.
Proof.
  unfold setDevicesList. destruct (_ || _); [intros [= <-]; by exists 0|].
  destruct (findQueue ask) as [q| |]; [|done|done]. cbn [mbind res_bind]. intros [= <-]. exists q. unfold startedContext.
  destruct (Z.eqb_spec q 0) as [->|Hq]; [done|]. reflexivity.
Qed.

(** References to the context: the application's, the queue's and one of every buffer. *)
Definition counted (q : Z) (c : Context) : Prop :=
  contextRefs c = u32 ((if q =? 0 then 1 else 2) + Z.of_nat (size (mems c))).

Definition history_ok (env : Z) (q : Z) (s : history_state) : Prop :=
  owned (mems (fst s)) (clBufferRecycler (fst s)) (snd s) /\ implicitQueue (fst s) = q /\
  allowedReuseSizeTotal (clBufferRecycler (fst s)) = env * MB /\ counted q (fst s).

Lemma context_started_ok env flag q : 0 <= env < 8796093022208 -> history_ok env q (startedContext env flag q, []).
Proof.
  intros Henv. split; [|split; [done|split]].
  - cbn. split; [by apply newRecycler_ok|done| | |done].
    + intros p o Hp. by rewrite lookup_empty in Hp.
    + by intros p ?%elem_of_nil.
  - cbn. rewrite u64_id; [done|]. unfold is_u64, MB, KB. lia.
  - unfold counted. replace (size (mems (startedContext env flag q))) with 0%nat by reflexivity. cbn. by destruct (q =? 0).
Qed.

Lemma counted_dom q c c' : dom (mems c') = dom (mems c) -> contextRefs c' = contextRefs c -> counted q c -> counted q c'.
Proof. intros Hd Hr. unfold counted. rewrite Hr, <- !size_dom, Hd. done. Qed.

Lemma buffer_step_ok env q s s' : buffer_step s s' -> history_ok env q s -> history_ok env q s'.
Proof.
  intros Hstep (Ho & Hq & Hal & Hc). destruct Hstep as
    [s c app seen seenBack flags size host_ptr p c' Hs Hlen Hfresh E|s c app p c' Hp Ha Hlen E|s c app rest seen p c' Hperm Ha E]; cbn [fst snd] in *.
  - apply (clCreateBuffer_ok _ _ app) in E as (Ho' & _ & (Hq' & _ & Hal') & _ & Hmems); try done.
    split; [done|]. cbn [fst snd]. split; [congruence|]. split; [congruence|].
    destruct Hmems as [[Hm Hr]|(Hnone & [o Hm] & Hr)]; [by eapply counted_dom; [rewrite Hm| |]|].
    unfold counted in *. rewrite Hr, Hm, map_size_insert_None by done. rewrite Hc. destruct (q =? 0); solve_word.
  - apply (clRetainMemObject_ok _ _ app) in E as (Ho' & (Hq' & _ & Hal') & Hd & Hr); try done.
    split; [done|]. cbn [fst snd]. split; [congruence|]. split; [congruence|]. by eapply counted_dom.
  - apply (owned_perm _ _ _ _ Hperm) in Ho. destruct (clReleaseMemObject_ok s c rest seen p Ho) as (c2 & E2 & (Hq' & _ & Hal') & Hres).
    rewrite E in E2. injection E2 as <-. destruct (Hres Ha) as [Ho' Hmems]. split; [done|]. cbn [fst snd]. split; [congruence|]. split; [congruence|].
    destruct Hmems as [[Hd Hr]|([o Hpo] & Hm & Hr)]; [by eapply counted_dom|].
    unfold counted in *. rewrite Hr, Hm, map_size_delete_Some, Hc by done. assert (0 < Z.of_nat (size (mems c))).
    { assert (size (mems c) <> 0%nat) by (apply (map_size_ne_0_lookup_2 _ p); by eexists). lia. }
    rewrite Nat2Z.inj_pred by lia. destruct (q =? 0); solve_word.
Qed.

Lemma history_reachable env q s0 s : rtc buffer_step s0 s -> history_ok env q s0 -> history_ok env q s.
Proof. induction 1 as [|s0 s1 s Hstep _ IH]; [done|]. intros H. apply IH. by eapply buffer_step_ok. Qed.

(** C35: buffers have one user.  After any history of buffers that are created, retained
    and released, with recycling up to [env] megabytes: a handle refers to a live buffer
    that is not recycled, whose count is the number of its handles; recycled buffers are
    distinct, alive and within the limit; a release always returns; and a request that
    returns gives a buffer that nobody has, at least as large as was asked for, with the
    same flags, and on the same memory where the buffer lies in the application's. *)
Theorem recycled_buffers_exclusive env flag q c app : 0 <= env < 8796093022208 ->
  rtc buffer_step (startedContext env flag q, []) (c, app) ->
  (forall p, p ∈ app -> p ∉ recycled (clBufferRecycler c) /\ exists o, mems c !! p = Some o /\ memRefs o = occurrences app p) /\
  (NoDup (recycled (clBufferRecycler c)) /\ sumSizes (mems c) (recycled (clBufferRecycler c)) <= env * MB /\
   forall p, p ∈ recycled (clBufferRecycler c) -> exists o, mems c !! p = Some o /\ memRefs o = 1) /\
  (forall s seen p, p ∈ app -> exists c', clReleaseMemObject s c seen p ⇓ c') /\
  (forall s seen seenBack flags size host_ptr p c', 0 <= size < W64 -> Z.of_nat (length app) < u32_max ->
     (forall f n q, createBuffer s f n q = 0 \/ mems c !! createBuffer s f n q = None) ->
     clCreateBuffer s c seen seenBack flags size host_ptr ⇓ (p, c') ->
     p ∉ app /\ exists o, mems c' !! p = Some o /\ size <= memSize o /\ memFlags o = flags /\ (usesHostPtr flags = true -> apiHostPtr o = host_ptr)).
Proof.
  intros Henv Hr. apply (history_reachable env q) in Hr as (Ho & _ & Hal & _); [|by apply context_started_ok]. cbn [fst snd] in *.
  split; [apply Ho|]. pose proof (own_recycler _ _ _ Ho) as Hrec. split; [split; [apply Hrec|split]|split].
  - rewrite <- (ok_size _ _ Hrec), <- Hal. apply (ok_limit _ _ Hrec).
  - intros p Hp. destruct (kept_in_recycled _ _ _ Hrec Hp) as (i & b & _ & _ & (o & ? & ? & _)). by exists o.
  - intros s seen p (l1 & l2 & ->)%list_elem_of_split. apply (owned_perm _ _ _ (p :: l1 ++ l2)) in Ho; [|by rewrite Permutation_middle].
    destruct (clReleaseMemObject_ok s c _ seen p Ho) as (c' & E & _). by exists c'.
  - intros s seen seenBack flags size host_ptr p c' Hs Hlen Hf E. destruct (clCreateBuffer_ok _ _ _ _ _ _ _ _ _ _ Ho Hs Hlen Hf E) as (_ & Hp & _ & (o & ? & _ & ?) & _).
    split; [done|]. by exists o.
Qed.

(** requests get the best buffer.  After any history a request for a recycled buffer
    returns.  What it gets is a buffer of the bucket for its size with the requested flags
    that is large enough and wastes at most the tolerance, and no other such buffer of the
    bucket is better: one on the requested memory is preferred, then the one with less
    waste.  Without concurrent requests it gets nothing only if the bucket has no such
    buffer. *)
Theorem recycled_buffer_is_best env flag q c app seen flags size host_ptr : 0 <= env < 8796093022208 ->
  rtc buffer_step (startedContext env flag q, []) (c, app) -> 0 <= size <= maxBucketSize ->
  let r := clBufferRecycler c in
  let hp := comparedPtr flags host_ptr in
  exists got, tryGetRecycledClBuffer (mems c) r seen flags size host_ptr ⇓ got /\
  match got with
  | Some (p, r') => exists o, inSameBucket (mems c) r size p o /\ fits flags size hp o = true /\
      (forall p' o', inSameBucket (mems c) r size p' o' -> fits flags size hp o' = true -> better size hp o' o = false) /\
      recycled r ≡ₚ p :: recycled r'
  | None => seen = currentRecycleSizeTotal r -> forall p o, inSameBucket (mems c) r size p o -> fits flags size hp o = false
  end.
Proof.
  intros Henv Hr Hs r hp. apply (history_reachable env q) in Hr as (Ho & _ & _ & _); [|by apply context_started_ok]. cbn [fst snd] in *.
  destruct (tryGetRecycledClBuffer_ok _ _ seen flags size host_ptr (own_recycler _ _ _ Ho) (proj1 Hs)) as (got & E & Hgot).
  exists got. split; [done|]. destruct got as [[p r']|].
  - destruct Hgot as (o & H1 & H2 & _ & H3 & H4 & _). by exists o.
  - intros Hseen p o Hpo. destruct (Z.le_gt_cases size seen) as [Hle|Hgt]; [apply (Hgot (own_open _ _ _ Ho) Hle (proj2 Hs) p o Hpo)|].
    pose proof (own_recycler _ _ _ Ho) as Hrec. destruct Hpo as (Hp & Hpo & _).
    pose proof (sumSizes_elem _ _ _ (recycled_kept _ _ Hrec) Hp) as He. rewrite <- (ok_size _ _ Hrec) in He. unfold sizeOf in He. rewrite Hpo in He.
    unfold fits. rewrite (proj2 (Z.leb_gt size (memSize o))) by (unfold r in *; lia). by rewrite andb_false_r.
Qed.

(** Recycling keeps the context.  Every buffer, recycled ones too, and the implicit queue
    refer to the context, so that releasing it neither cleans the recycler up nor deletes
    the context, however many handles were released. *)
Theorem recycling_keeps_context env flag q c app s releaseQueue seen : 0 <= env < 8796093022208 ->
  rtc buffer_step (startedContext env flag q, []) (c, app) ->
  q <> 0 \/ recycled (clBufferRecycler c) <> [] -> Z.of_nat (size (mems c)) < u32_max - 2 ->
  exists c', clReleaseContext s releaseQueue c seen ⇓ (false, c') /\ mems c' = mems c /\ clBufferRecycler c' = clBufferRecycler c.
Proof.
  intros Henv Hr Hq Hlt. apply (history_reachable env q) in Hr as (Ho & _ & _ & Hc); [|by apply context_started_ok]. cbn [fst snd] in *.
  assert (Hne : contextRefs c <> 1).
  { unfold counted in Hc. rewrite Hc, u32_id by (unfold is_u32, u32_max in *; destruct (q =? 0); lia).
    destruct (Z.eqb_spec q 0) as [->|]; [|lia]. destruct Hq as [|Hrec]; [done|]. destruct (recycled (clBufferRecycler c)) as [|p l] eqn:E; [done|].
    assert (Hp : p ∈ recycled (clBufferRecycler c)) by (rewrite E; set_solver).
    destruct (kept_in_recycled _ _ _ (own_recycler _ _ _ Ho) Hp) as (i & b & _ & _ & (o & Hpo & _)).
    assert (size (mems c) <> 0%nat) by (apply (map_size_ne_0_lookup_2 _ p); by eexists). lia. }
  unfold clReleaseContext, beforeReleaseCallback. rewrite (proj2 (Z.eqb_neq _ _) Hne). cbn [mbind res_bind].
  destruct (answered s); cbn [negb]; [|by exists c]. rewrite (proj2 (Z.eqb_neq _ _) Hne). by eexists.
Qed.

(** Recycling without the flag.  The variable is read as a number and as a truth value;
    with [64], say, the limit is 64 MB and the flag is not set.  A request without host
    memory then writes from a null pointer, which drivers refuse, and gets nothing. *)
Theorem unflagged_request_is_refused s c seen seenBack flags size p c' :
  skipTransferOnHostPtrMatch c = false -> (forall p n, enqueueWrite s p n 0 <> 0) ->
  context_tryGetRecycled s c seen seenBack flags size 0 ⇓ (p, c') -> p = 0.
Proof.
  intros Hflag Hnull. unfold context_tryGetRecycled. cbn [Z.eqb negb andb].
  destruct (tryGetRecycledClBuffer _ _ _ _ _ _) as [[[q r]|]| |]; cbn; [|by intros [= <- _]|done|done]. rewrite Hflag. unfold asLocalObject.
  destruct (mems c !! q); cbn; [|done]. unfold clEnqueueWriteBuffer. cbn. destruct (implicitQueue c =? 0); cbn; [done|].
  rewrite (proj2 (Z.eqb_neq _ _) (Hnull q size)). cbn. destruct (tryRecycleClBuffer _ _ _ _) as [[b r']| |]; cbn; [|done|done]. by intros [= <- _].
Qed.

(** The search for the implicit queue ends with the first queue that is refused: what the
    service answers is dereferenced before it is compared with null. *)
Theorem refused_queue_crashes ask n c : ask (Some (3, 7)) = Some 0 -> n <> 0 -> 0 < allowedReuseSizeTotal (clBufferRecycler c) ->
  setDevicesList ask n c = Undef.
Proof.
  intros Hask Hn Hal. unfold setDevicesList. rewrite (proj2 (Z.eqb_neq _ _) Hn), (proj2 (Z.leb_gt _ _) Hal). cbn [orb].
  assert (E : createQueue ask (Some (3, 7)) = Undef) by (unfold createQueue; by rewrite Hask).
  unfold findQueue. cbn [tryIndices]. change (Z.of_nat 7) with 7. by rewrite E.
Qed.

(** * Examples *)

Definition result {A} (d : A) (m : res A) : A := match m with Ret a => a | _ => d end.

(** A service that gives every buffer the object at [p]. *)
Definition giving (p : Z) : System := mkSystem (fun _ _ ptr => if ptr =? 0 then -30 else 0) (fun _ _ _ => p) (fun _ => 4096) (fun _ _ => false) (fun _ => false) true.

(** Recycling of 1 MB; a buffer copied from the application at 8192 is released and asked for again. *)
Definition demo0 : Context := startedContext 1 true 5.
Definition demo1 : Context := snd (result (0, demo0) (clCreateBuffer (giving 7) demo0 0 0 33 100000 8192)).
Definition demo2 : Context := result demo1 (clReleaseMemObject (giving 7) demo1 0 7).

Example demo_history : rtc buffer_step (demo0, []) (demo2, []).
Proof.
  eapply rtc_l; [|eapply rtc_l; [|apply rtc_refl]].
  - apply (step_create (giving 7) demo0 [] 0 0 33 100000 8192 7 demo1); [lia|done| |vm_compute; reflexivity].
    intros f n q. right. reflexivity.
  - apply (step_release (giving 7) demo1 [7] [] 0 7 demo2); [done|done|vm_compute; reflexivity].
Defined.

Example demo_recycled : recycled (clBufferRecycler demo2) = [7].
Proof. vm_compute. reflexivity. Qed.

(** A buffer that the service refuses: its object is null, and filled in. *)
Theorem refused_buffer_crashes s flags size : createBuffer s (Z.lor (Z.land flags (Z.lnot 48)) 8) size (stagingArea s size) = 0 ->
  usesHostPtr flags = false -> isUsmPointer s 0 = false -> 0 < size ->
  clCreateBuffer s demo0 0 0 flags size 0 = Undef.
Proof.
  intros Hc Hf Hu Hs. unfold clCreateBuffer, context_tryGetRecycled, tryGetRecycledClBuffer. cbn [negb Z.eqb andb demo0 startedContext clBufferRecycler newRecycler isCleaningUp].
  rewrite (proj2 (Z.ltb_lt 0 size) Hs). destruct (maxBucketSize <? size); cbn [mbind res_bind Z.eqb negb]; unfold creationRequest; rewrite Hf, Hu;
    cbn [andb negb Z.eqb mbind res_bind]; change (Z.lor CL_MEM_ALLOC_HOST_PTR CL_MEM_COPY_HOST_PTR) with 48; change CL_MEM_USE_HOST_PTR with 8; by rewrite Hc.
Qed.

(** The same pointer, other contents.  A buffer that is copied from memory of the
    application is recycled for the next copy from the same address, and nothing is
    written into it: it has the old contents. *)
Theorem matching_pointer_is_not_written : exists c,
  clCreateBuffer (giving 9) demo2 100000 0 33 100000 8192 ⇓ (7, c) /\ written c = [] /\ usesHostPtr 33 = false.
Proof. eexists. split; [vm_compute; reflexivity|]. split; vm_compute; reflexivity. Qed.

Lemma recycled_buffers_exclusive_witness : 0 <= 1 < 8796093022208 /\ rtc buffer_step (startedContext 1 true 5, []) (demo2, []) /\
  NoDup (recycled (clBufferRecycler demo2)).
Proof.
  split; [lia|]. split; [exact demo_history|]. apply (recycled_buffers_exclusive 1 true 5 demo2 []); [lia|exact demo_history].
Defined.

Lemma recycled_buffer_is_best_witness : 0 <= 1 < 8796093022208 /\ rtc buffer_step (startedContext 1 true 5, []) (demo2, []) /\ 0 <= 98000 <= maxBucketSize /\
  exists got, tryGetRecycledClBuffer (mems demo2) (clBufferRecycler demo2) 100000 33 98000 8192 ⇓ got.
Proof.
  split; [lia|]. split; [exact demo_history|]. split; [vm_compute; by split|].
  destruct (recycled_buffer_is_best 1 true 5 demo2 [] 100000 33 98000 8192) as (got & E & _);
    [lia|exact demo_history|vm_compute; by split|]. by exists got.
Defined.
