(* ===== verification/InfoCache.v ===== *)
(** The cache of object information of the OpenCL client (client/icd/icd_ocl.h) and the
    code generated for clGetDeviceInfo, which asks it first (generated/cached); the code
    for contexts, queues and kernels is the same. *)

From S2P Require Import Prelude.
From S2P Require Import ClientContext.
Local Open Scope Z_scope.

(** * InfoCache *)

Record Entry := mkEntry { paramName : Z; paramValueSize : Z; paramValue : option (list Z) }.

(** The entries, and the number of arrays that nothing refers to any more. *)
Record InfoCache := mkInfoCache { cache : list Entry; leaked : Z }.

Fixpoint findImpl (l : list Entry) (name : Z) : option nat :=
  match l with
  | [] => None
  | it :: l => if paramName it =? name then Some O else S <$> findImpl l name
  end.

(** [memcpy]: both sides must have [n] bytes. *)
Definition copyBytes (dst src : list Z) (n : Z) : res (list Z) :=
  if (Z.of_nat (length src) <? n) || (Z.of_nat (length dst) <? n) then Undef
  else Ret (take (Z.to_nat n) src ++ drop (Z.to_nat n) dst).

(** [find]: whether it succeeds, the application's memory and the size, if it is wanted. *)
Definition find (c : InfoCache) (name : Z) (value : option (list Z)) (wantsSize : bool) : res (bool * option (list Z) * option Z) :=
  match it ← findImpl (cache c) name; cache c !! it with
  | None => Ret (false, value, None)
  | Some it =>
      let size := if wantsSize then Some (paramValueSize it) else None in
      match value, paramValue it with
      | None, _ => Ret (true, value, size)
      | Some _, None => Ret (false, value, None)
      | Some buffer, Some kept => buffer ← copyBytes buffer kept (paramValueSize it); Ret (true, Some buffer, size)
      end
  end.

(** [store]: an array that an entry had is not deleted. *)
Definition store (c : InfoCache) (name : Z) (value : option (list Z)) (size : Z) : res InfoCache :=
  let it := findImpl (cache c) name in
  let old := it ← it; cache c !! it in
  let before := it ← old; paramValue it in
  kept ← match value with
         | None => Ret before
         | Some buffer => bytes ← copyBytes (replicate (Z.to_nat size) 0) buffer size; Ret (Some bytes)
         end;
  let entry := mkEntry name size kept in
  let lost := match value, before with Some _, Some _ => 1 | _, _ => 0 end in
  Ret (mkInfoCache (match it with Some i => <[i := entry]> (cache c) | None => cache c ++ [entry] end) (leaked c + lost)).

(** The destructor deletes the arrays of the entries. *)
Definition deleted (c : InfoCache) : list (list Z) := omap paramValue (cache c).

Definition isCacheable (name : Z) : bool :=
  negb (existsb (Z.eqb name) [0x1047; 0x1080; 0x1092; 0x1105; 0x1150; 0x1160; 0x1192; 0x11D2]).

(** * clGetDeviceInfo *)

Definition CL_SUCCESS : Z := 0.
Definition CL_INVALID_VALUE : Z := -30.

(** The message of a query: the result, the captured size and as many captured bytes as
    the application's memory has. *)
Record Answer := mkAnswer { ret : Z; captured_size : Z; captured : list Z }.

Section query.
(** The service with the driver and the memory of the message, by the name, the size and
    whether a value is wanted; the translation of handles in values. *)
Context (ask : Z -> Z -> bool -> Answer) (translate : Z -> list Z -> list Z).

(** The part that calls the service: what it answers is copied, translated and stored. *)
Definition callService (c : InfoCache) (name : Z) (size : Z) (value : option (list Z)) (wantsSize : bool)
  : res (Z * option (list Z) * option Z * InfoCache) :=
  let a := ask name size (if value is Some _ then true else false) in
  value ← match value with
          | None => Ret None
          | Some buffer => buffer ← copyBytes buffer (captured a) size; Ret (Some (translate name buffer))
          end : res (option (list Z));
  let sizeRet := if wantsSize then Some (captured_size a) else None in
  c ← if isCacheable name then store c name value (captured_size a) else Ret c : res InfoCache;
  Ret (ret a, value, sizeRet, c).

(** The size of the application's memory comes with it. *)
Definition clGetDeviceInfoRpcHelper (c : InfoCache) (name : Z) (size : Z) (value : option (list Z)) (wantsSize : bool)
  : res (Z * option (list Z) * option Z * InfoCache) :=
  if isCacheable name then
    '(hit, value, kept) ← find c name value wantsSize;
    if (hit : bool) then Ret (CL_SUCCESS, value, kept, c) else callService c name size value wantsSize
  else callService c name size value wantsSize.
End query.

Definition clGetDeviceInfo (ask : Z -> Z -> bool -> Answer) (translate : Z -> list Z -> list Z)
  (c : InfoCache) (name : Z) (size : Z) (value : option (list Z)) (wantsSize : bool) : res (Z * option (list Z) * option Z * InfoCache) :=
  match value with
  | Some buffer =>
      if (name =? 0x1016) && (size =? 4)
      then buffer ← copyBytes buffer [0; 0; 0; 0] 4; Ret (CL_SUCCESS, Some buffer, if wantsSize then Some 4 else None, c)
      else clGetDeviceInfoRpcHelper ask translate c name size value wantsSize
  | None => clGetDeviceInfoRpcHelper ask translate c name size value wantsSize
  end.

(** * Against a device with fixed values *)

Section device.
(** Of every name: the value of the driver, the value with local handles, and what is left
    in the message behind it. *)
Context (value local : Z -> list Z) (translate : Z -> list Z -> list Z) (rest : Z -> list Z).
Context (value_local : forall name, length (local name) = length (value name)).
Context (translate_value : forall name tail, translate name (value name ++ tail) = local name ++ tail).

(** OpenCL: memory that is too small for the value is refused, and without memory the
    size is the answer. *)
Definition device_asks (name size : Z) (wantsValue : bool) : Answer :=
  if wantsValue && (size <? Z.of_nat (length (value name))) then mkAnswer CL_INVALID_VALUE 0 (rest size)
  else mkAnswer CL_SUCCESS (Z.of_nat (length (value name)))
         (value name ++ take (Z.to_nat size - length (value name)) (rest size)).

Definition current (c : InfoCache) : Prop :=
  Forall (fun it => paramValueSize it = Z.of_nat (length (value (paramName it))) /\
                    (paramValue it = None \/ paramValue it = Some (local (paramName it)))) (cache c).

(** A query: the name, the memory for the value and whether the size is wanted. *)
Record Query := mkQuery { asked : Z; memory : option (list Z); sizeWanted : bool }.

Definition query_ok (q : Query) : Prop :=
  match memory q with
  | Some buffer => (length (value (asked q)) <= length buffer)%nat /\ (length buffer <= length (rest (Z.of_nat (length buffer))))%nat
  | None => True
  end.

(** What the application may rely on: success, the value at the start of the memory,
    nothing outside of it, and the size. *)
Definition answered_ok (q : Query) (a : Z * option (list Z) * option Z) : Prop :=
  let '(r, buffer', size) := a in
  r = CL_SUCCESS /\ size = (if sizeWanted q then Some (Z.of_nat (length (value (asked q)))) else None) /\
  match memory q, buffer' with
  | None, None => True
  | Some buffer, Some buffer' => length buffer' = length buffer /\ take (length (value (asked q))) buffer' = local (asked q)
  | _, _ => False
  end.

Definition memory_size (q : Query) : Z := match memory q with Some buffer => Z.of_nat (length buffer) | None => 0 end.

Fixpoint queries (c : InfoCache) (l : list Query) : res (list (Z * option (list Z) * option Z)) :=
  match l with
  | [] => Ret []
  | q :: l =>
      '(r, buffer, size, c) ← clGetDeviceInfoRpcHelper device_asks translate c (asked q) (memory_size q) (memory q) (sizeWanted q);
      answers ← queries c l; Ret ((r, buffer, size) :: answers)
  end.

Lemma findImpl_Some l name i : findImpl l name = Some i -> exists it, l !! i = Some it /\ paramName it = name.
Proof.
  revert i. induction l as [|it l IH]; intros i; cbn; [done|]. destruct (Z.eqb_spec (paramName it) name) as [E|_].
  - intros [= <-]. by exists it.
  - destruct (findImpl l name) as [j|]; [|done]. intros [= <-]. by apply IH.
Qed.

Lemma copyBytes_ok dst src n : n = Z.of_nat (length src) -> (length src <= length dst)%nat -> copyBytes dst src n ⇓ src ++ drop (length src) dst.
Proof.
  intros -> Hl. unfold copyBytes. rewrite Z.ltb_irrefl, (proj2 (Z.ltb_ge _ _)) by lia. cbn [orb]. by rewrite Nat2Z.id, firstn_all.
Qed.

Lemma copyBytes_prefix dst src n : 0 <= n -> n <= Z.of_nat (length src) -> n = Z.of_nat (length dst) -> copyBytes dst src n ⇓ take (length dst) src.
Proof.
  intros H0 Hs ->. unfold copyBytes. rewrite Z.ltb_irrefl, (proj2 (Z.ltb_ge _ _)) by lia. cbn [orb].
  by rewrite Nat2Z.id, drop_all, app_nil_r.
Qed.

(** The entry of a name is current. *)
Lemma current_entry c name i : current c -> findImpl (cache c) name = Some i -> exists it, cache c !! i = Some it /\
  paramValueSize it = Z.of_nat (length (value name)) /\ (paramValue it = None \/ paramValue it = Some (local name)).
Proof.
  intros Hc Hi. destruct (findImpl_Some _ _ _ Hi) as (it & Hit & <-). exists it. split; [done|].
  by apply (proj1 (Forall_lookup _ _) Hc i).
Qed.

Definition filled (name : Z) (b : list Z) : list Z := local name ++ drop (length (local name)) b.

Lemma filled_ok name b : (length (value name) <= length b)%nat -> length (filled name b) = length b /\ take (length (value name)) (filled name b) = local name.
Proof.
  intros Hl. unfold filled. rewrite length_app, length_drop, <- value_local, take_app_length. rewrite <- value_local in Hl. split; [lia|done].
Qed.

Lemma info_find_ok c name buffer wants : current c -> (forall b, buffer = Some b -> (length (value name) <= length b)%nat) ->
  find c name buffer wants ⇓ (false, buffer, None) \/
  find c name buffer wants ⇓ (true, filled name <$> buffer, if wants then Some (Z.of_nat (length (value name))) else None).
Proof.
  intros Hc Hb. unfold find. destruct (findImpl (cache c) name) as [i|] eqn:Ei; cbn; [|by left].
  destruct (current_entry _ _ _ Hc Ei) as (it & -> & -> & Hv). destruct buffer as [b|]; [|by right].
  destruct Hv as [->| ->]; [by left|]. right. specialize (Hb b eq_refl).
  rewrite copyBytes_ok by (rewrite value_local; done). done.
Qed.

(** Storing what a good query got. *)
Lemma store_ok c name buffer : current c -> (forall b, buffer = Some b -> (length (local name) <= length b)%nat /\ take (length (local name)) b = local name) ->
  exists c', store c name buffer (Z.of_nat (length (value name))) ⇓ c' /\ current c'.
Proof.
  intros Hc Hb. unfold store.
  set (old := _ ≫= _ : option Entry).
  assert (Hold : forall it, old = Some it -> paramValue it = None \/ paramValue it = Some (local name)).
  { intros it Hit. unfold old in Hit. destruct (findImpl (cache c) name) as [i|] eqn:Ei; [|done]. cbn in Hit.
    destruct (current_entry _ _ _ Hc Ei) as (it' & Hit' & _ & Hv). rewrite Hit in Hit'. by injection Hit' as <-. }
  assert (Hput : forall kept lost, kept = None \/ kept = Some (local name) ->
            current (mkInfoCache (match findImpl (cache c) name with
              Some i => <[i := mkEntry name (Z.of_nat (length (value name))) kept]> (cache c)
              | None => cache c ++ [mkEntry name (Z.of_nat (length (value name))) kept] end) lost)).
  { intros kept lost Hk. unfold current. cbn. destruct (findImpl (cache c) name) as [i|].
    - apply Forall_insert; [done|]. by cbn.
    - apply Forall_app. split; [done|]. constructor; [by cbn|done]. }
  destruct buffer as [b|].
  - destruct (Hb b eq_refl) as [Hl Ht]. rewrite copyBytes_prefix by (rewrite ?length_replicate, <- ?value_local; lia).
    rewrite length_replicate, Nat2Z.id, <- value_local, Ht. cbn [mbind res_bind]. eexists. split; [done|]. rewrite value_local. apply Hput. by right.
  - cbn [mbind res_bind]. eexists. split; [done|]. apply Hput. destruct old as [it|]; [by apply Hold|by left].
Qed.

Lemma callService_ok c name buffer wants : current c -> query_ok (mkQuery name buffer wants) -> exists r buffer' size c',
  callService device_asks translate c name (memory_size (mkQuery name buffer wants)) buffer wants ⇓ (r, buffer', size, c') /\
  answered_ok (mkQuery name buffer wants) (r, buffer', size) /\ current c'.
Proof.
  intros Hc Hq. unfold callService, query_ok, memory_size, answered_ok in *. cbn [asked memory sizeWanted] in *. destruct buffer as [b|].
  - destruct Hq as [Hl Hrest]. unfold device_asks. rewrite (proj2 (Z.ltb_ge _ _)) by lia. cbn [andb captured ret captured_size]. rewrite Nat2Z.id.
    rewrite copyBytes_prefix by (rewrite ?length_app, ?length_take; lia). cbn [mbind res_bind].
    rewrite take_app_ge, take_take by done. rewrite Nat.min_id, translate_value.
    set (b' := local name ++ _). assert (Hb' : length b' = length b /\ take (length (local name)) b' = local name).
    { unfold b'. rewrite length_app, length_take, take_app_length, value_local. split; [lia|done]. }
    destruct Hb' as [Hlb' Hb']. destruct (isCacheable name).
    + destruct (store_ok c name (Some b') Hc) as (c' & -> & Hc'); [intros ? [= <-]; split; [rewrite Hlb', value_local; lia|exact Hb']|].
      cbn. eexists _, _, _, _. split; [done|]. split; [|done]. rewrite <- value_local. done.
    + cbn. eexists _, _, _, _. split; [done|]. split; [|done]. rewrite <- value_local. done.
  - cbn [mbind res_bind device_asks andb captured_size ret]. destruct (isCacheable name).
    + destruct (store_ok c name None Hc) as (c' & -> & Hc'); [done|]. cbn. eexists _, _, _, _. done.
    + cbn. eexists _, _, _, _. done.
Qed.

Lemma info_query_current c q : current c -> query_ok q -> exists r buffer size c',
  clGetDeviceInfoRpcHelper device_asks translate c (asked q) (memory_size q) (memory q) (sizeWanted q) ⇓ (r, buffer, size, c') /\
  answered_ok q (r, buffer, size) /\ current c'.
Proof.
  intros Hc Hq. destruct q as [name buffer wants]. unfold clGetDeviceInfoRpcHelper. cbn [asked memory sizeWanted].
  destruct (isCacheable name); [|by apply callService_ok].
  assert (Hb : forall b, buffer = Some b -> (length (value name) <= length b)%nat) by (intros b ->; apply Hq).
  destruct (info_find_ok c name buffer wants Hc Hb) as [->| ->]; cbn [mbind res_bind]; [by apply callService_ok|].
  eexists _, _, _, _. split; [done|]. split; [|done]. split; [done|]. split; [done|]. destruct buffer as [b|]; [|done]. cbn.
  by apply filled_ok, Hb.
Qed.

Lemma info_queries_ok l : forall c, current c -> Forall query_ok l -> exists answers, queries c l ⇓ answers /\ Forall2 answered_ok l answers.
Proof.
  induction l as [|q l IH]; intros c Hc Hl; cbn [queries]; [by exists []|]. apply Forall_cons in Hl as [Hq Hl].
  destruct (info_query_current c q Hc Hq) as (r & buffer & size & c' & -> & Ha & Hc'). cbn [mbind res_bind].
  destruct (IH c' Hc' Hl) as (answers & -> & Hanswers). cbn [mbind res_bind]. eexists. split; [done|]. by constructor.
Qed.

(** The cache of information is transparent.  Every order of queries, for sizes and for
    values with enough memory, returns, and every answer is the one of the device. *)
Theorem cached_info_is_current l : Forall query_ok l -> exists answers, queries (mkInfoCache [] 0) l ⇓ answers /\ Forall2 answered_ok l answers.
Proof. intros Hl. apply info_queries_ok; [by constructor|done]. Qed.

(** A query with too little memory overflows it once the value is cached, where the device
    would refuse it. *)
Theorem short_info_query_overflows c name b wants : current c -> isCacheable name = true ->
  (exists i it, findImpl (cache c) name = Some i /\ cache c !! i = Some it /\ paramValue it = Some (local name)) ->
  (length b < length (value name))%nat ->
  clGetDeviceInfoRpcHelper device_asks translate c name (Z.of_nat (length b)) (Some b) wants = Undef /\
  ret (device_asks name (Z.of_nat (length b)) true) = CL_INVALID_VALUE.
Proof.
  intros Hc Hn (i & it & Hi & Hit & Hv) Hl. split.
  - unfold clGetDeviceInfoRpcHelper, find. rewrite Hn, Hi. cbn. rewrite Hit. cbn. rewrite Hv.
    destruct (current_entry _ _ _ Hc Hi) as (it' & Hit' & Hs & _). rewrite Hit in Hit'. injection Hit' as <-. rewrite Hs.
    unfold copyBytes. rewrite (proj2 (Z.ltb_lt (Z.of_nat (length b)) _)) by lia. by rewrite orb_true_r.
  - unfold device_asks. by rewrite (proj2 (Z.ltb_lt _ _)) by lia.
Qed.
End device.

(** A failure is kept as an answer.  A query that the service refuses leaves an entry with
    whatever size the message held, and the same query succeeds from then on. *)
Theorem failed_info_is_cached translate name wants size a : isCacheable name = true -> ret a <> CL_SUCCESS ->
  exists c, clGetDeviceInfoRpcHelper (fun _ _ _ => a) translate (mkInfoCache [] 0) name size None wants
              ⇓ (ret a, None, if wants then Some (captured_size a) else None, c) /\
    clGetDeviceInfoRpcHelper (fun _ _ _ => a) translate c name size None wants
      ⇓ (CL_SUCCESS, None, if wants then Some (captured_size a) else None, c).
Proof.
  intros Hn _. unfold clGetDeviceInfoRpcHelper, find, callService, store. rewrite Hn. cbn. eexists. split; [done|]. cbn. rewrite Z.eqb_refl. done.
Qed.

(** * Examples *)

(** A device whose values are four bytes of their name, in messages of zeros. *)
Definition four (name : Z) : list Z := [name; name; name; name].
Definition zeros (size : Z) : list Z := replicate (Z.to_nat size) 0.

Lemma cached_info_is_current_witness : exists answers,
  queries four (fun _ l => l) zeros (mkInfoCache [] 0) [mkQuery 5 None true; mkQuery 5 (Some [1; 1; 1; 1; 1]) false; mkQuery 5 (Some [1; 1; 1; 1; 1]) true]
    ⇓ answers.
Proof.
  destruct (cached_info_is_current four four (fun _ l => l) zeros (fun _ => eq_refl) (fun _ _ => eq_refl)
    [mkQuery 5 None true; mkQuery 5 (Some [1; 1; 1; 1; 1]) false; mkQuery 5 (Some [1; 1; 1; 1; 1]) true]) as (answers & E & _);
    [repeat constructor; cbn; lia|by exists answers].
Defined.

(** The size is cached first, then the value, and the second value is cached memory. *)
Example demo_info :
  queries four (fun _ l => l) zeros (mkInfoCache [] 0) [mkQuery 5 None true; mkQuery 5 (Some [1; 1; 1; 1; 1]) false; mkQuery 5 (Some [1; 1; 1; 1; 1]) true]
    ⇓ [(0, None, Some 4); (0, Some [5; 5; 5; 5; 0], None); (0, Some [5; 5; 5; 5; 1], Some 4)].
Proof. vm_compute. reflexivity. Qed.
