(* ===== verification/AdaptiveWait.v ===== *)
(** Waiting with a timeout (shared/synchronization.h): one direct wait of limited length,
    then polling; how long the direct wait of the next call may be is adapted. *)

From stdpp Require Import relations.
From S2P Require Import Prelude.
Local Open Scope Z_scope.

(** Times in nanoseconds. *)
Definition ms : Z := 1000000.
Definition pollingThreshold : Z := 100 * ms.
Definition pollWaitTime : Z := 1 * ms.
Definition maxFirstWaitTime : Z := 500 * ms.
Definition minFirstWaitTime : Z := 100000.
Definition nanoseconds_max : Z := 9223372036854775807.

(** * The adapted time *)

(** The weak comparison of the atomic: it may fail although the values agree. *)
Definition compare_exchange_weak (current from to : Z) (spurious : bool) : Z :=
  if (current =? from) && negb spurious then to else current.

Definition increaseFirstWaitAdaptiveTimout (current from to : Z) (spurious : bool) : Z :=
  let to := if maxFirstWaitTime <? to then maxFirstWaitTime else to in
  if to <? from then current else compare_exchange_weak current from to spurious.

Definition decreaseFirstWaitAdaptiveTimout (current from to : Z) (spurious : bool) : Z :=
  let to := if to <? minFirstWaitTime then minFirstWaitTime else to in
  if from <? to then current else compare_exchange_weak current from to spurious.

(** * Waiting *)

Section wait.
(** The nanoseconds of the unit of the wait function, its two results with a meaning; the
    result of its i-th call for a number of units, and how long the first call takes. *)
Context (unit success notReady : Z) (waitFunc : nat -> Z -> Z) (waitFuncTime : Z).

(** What other threads do: the value that is loaded, the values that are found at the
    exchange, and whether that fails. *)
Record Others := mkOthers { loaded : Z; found : Z; spurious : bool }.
Context (o : Others).

Definition duration_cast (ns : Z) : Z := Z.quot ns unit.

(** The polling: the result, the number of calls so far and the time that was counted. *)
Fixpoint poll (fuel : nat) (endless : bool) (timeout : Z) (calls : nat) (totalWaited : Z) : option (Z * nat * Z) :=
  match fuel with
  | O => None
  | S fuel =>
      let result := waitFunc calls 0 in
      if result =? success then Some (success, S calls, totalWaited) else
      if negb (result =? notReady) then Some (result, S calls, totalWaited) else
      if negb endless && (timeout <=? totalWaited) then Some (notReady, S calls, totalWaited) else
      poll fuel endless timeout (S calls) (totalWaited + pollWaitTime)
  end.

(** [waitForCompletionWithTimeout]: the result, the number of calls, the time that was
    counted and the adapted time afterwards. *)
Definition waitForCompletionWithTimeout (fuel : nat) (timeout : Z) : option (Z * nat * Z * Z) :=
  let endlessTimeoutMode := timeout <? 0 in
  let timeout := if endlessTimeoutMode then nanoseconds_max else timeout in
  if timeout <? pollingThreshold then
    let ret := waitFunc O (duration_cast timeout) in
    Some (ret, 1%nat, 0, if success =? ret then increaseFirstWaitAdaptiveTimout (found o) (loaded o) timeout (spurious o) else found o)
  else
    let firstWaitTime := if endlessTimeoutMode then loaded o else pollingThreshold in
    let result := waitFunc O (duration_cast firstWaitTime) in
    let totalWaited := waitFuncTime in
    if result =? success
    then Some (success, 1%nat, totalWaited, increaseFirstWaitAdaptiveTimout (found o) firstWaitTime (waitFuncTime * 2) (spurious o))
    else
      let adapted := decreaseFirstWaitAdaptiveTimout (found o) firstWaitTime (Z.quot firstWaitTime 4) (spurious o) in
      match poll fuel endlessTimeoutMode timeout 1 totalWaited with
      | None => None
      | Some (result, calls, totalWaited) => Some (result, calls, totalWaited, adapted)
      end.

(** * Its theorems *)

(** Before the last call nothing but "not ready" was seen. *)
Definition pending (from calls : nat) : Prop := forall i, (from <= i)%nat -> (S i < calls)%nat -> waitFunc i 0 = notReady.

Lemma poll_result fuel endless timeout : forall calls total r n t, success <> notReady ->
  poll fuel endless timeout calls total = Some (r, n, t) ->
  (calls < n)%nat /\ pending calls n /\ waitFunc (n - 1) 0 = r /\ t = total + (Z.of_nat n - 1 - Z.of_nat calls) * pollWaitTime /\
  (r = notReady -> endless = false /\ timeout <= t) /\
  (endless = false -> t < Z.max total timeout + pollWaitTime).
Proof.
  induction fuel as [|fuel IH]; intros calls total r n t Hne; cbn [poll]; [done|].
  assert (Hstop : forall r', waitFunc calls 0 = r' -> (r' = notReady -> endless = false /\ timeout <= total) ->
    Some (r', S calls, total) = Some (r, n, t) -> (calls < n)%nat /\ pending calls n /\ waitFunc (n - 1) 0 = r /\
    t = total + (Z.of_nat n - 1 - Z.of_nat calls) * pollWaitTime /\ (r = notReady -> endless = false /\ timeout <= t) /\
    (endless = false -> t < Z.max total timeout + pollWaitTime)).
  { intros r' Hw Hr [= <- <- <-]. split; [lia|]. split; [intros i ? ?; lia|]. replace (S calls - 1)%nat with calls by lia.
    unfold pollWaitTime, ms. repeat split; [done|lia|by apply Hr|by apply Hr|lia]. }
  destruct (Z.eqb_spec (waitFunc calls 0) success) as [E|E]; [by apply Hstop|].
  destruct (Z.eqb_spec (waitFunc calls 0) notReady) as [E'|E']; cbn [negb]; [|by apply Hstop].
  destruct (negb endless && (timeout <=? total)) eqn:Et; [bool_prop; by apply Hstop|]. clear Hstop.
  intros H. apply IH in H as (Hn & Hp & Hw & Ht & Hnr & Hb); [|done]. split; [lia|]. split.
  - intros i Hi Hin. destruct (decide (i = calls)) as [->|]; [done|]. apply Hp; lia.
  - split; [done|]. split; [rewrite Ht; lia|]. split; [done|]. intros He. specialize (Hb He). rewrite He in Et. cbn in Et. bool_prop.
    unfold pollWaitTime, ms in *. lia.
Qed.

(** With a timeout the polling ends: every round counts a millisecond. *)
Lemma poll_ends timeout fuel : forall calls total, 0 <= total -> timeout - total <= (Z.of_nat fuel - 1) * pollWaitTime ->
  (0 < fuel)%nat -> is_Some (poll fuel false timeout calls total).
Proof.
  induction fuel as [|fuel IH]; intros calls total H0 Hf Hpos; [lia|]. cbn [poll].
  destruct (_ =? success); [by eexists|]. destruct (negb _); [by eexists|]. cbn [negb andb].
  destruct (Z.leb_spec timeout total); [by eexists|]. unfold pollWaitTime, ms in *. apply IH; lia.
Qed.

(** Without one it ends with the first answer that is not "not ready". *)
Lemma poll_ends_endless timeout k : forall calls total, waitFunc (calls + k) 0 <> notReady -> is_Some (poll (S k) true timeout calls total).
Proof.
  induction k as [|k IH]; intros calls total Hk.
  - cbn [poll]. rewrite Nat.add_0_r in Hk. destruct (_ =? success); [by eexists|]. rewrite (proj2 (Z.eqb_neq _ _) Hk). by eexists.
  - remember (S k) as k'. cbn [poll]. destruct (_ =? success); [by eexists|]. destruct (negb _); [by eexists|]. cbn [negb andb].
    subst k'. apply IH. by rewrite Nat.add_succ_comm.
Qed.

(** Waiting ends and tells the truth.  With a timeout it ends after one round for each
    millisecond of it, and counts less than a millisecond more than the timeout or the
    direct wait; without one it ends when the wait function says anything but "not
    ready".  What it returns is what the last call returned; "not ready" is returned only
    when the timeout has passed, and a result of the polling is the first one that is not
    "not ready". *)
Theorem wait_returns timeout : success <> notReady -> 0 <= waitFuncTime -> timeout < nanoseconds_max ->
  (0 <= timeout \/ exists k, waitFunc (S k) 0 <> notReady) ->
  exists fuel r calls total adapted, waitForCompletionWithTimeout fuel timeout = Some (r, calls, total, adapted) /\
    (calls = 1%nat /\ (r = success \/ 0 <= timeout < pollingThreshold) /\
       r = waitFunc O (duration_cast (if timeout <? 0 then loaded o else Z.min timeout pollingThreshold)) \/
     (1 < calls)%nat /\ r = waitFunc (calls - 1) 0 /\ pending 1 calls /\
     (r = notReady -> 0 <= timeout <= total) /\ (0 <= timeout -> total < Z.max waitFuncTime timeout + pollWaitTime)).
Proof.
  intros Hne Ht Hmax Hend. set (endless := timeout <? 0). set (limit := if endless then nanoseconds_max else timeout).
  assert (Hfuel : exists fuel, is_Some (poll fuel endless limit 1 waitFuncTime)).
  { unfold limit, endless. destruct (Z.ltb_spec timeout 0) as [Hneg|Hpos].
    - destruct Hend as [|[k Hk]]; [lia|]. exists (S k). by apply poll_ends_endless.
    - exists (S (S (Z.to_nat (timeout / pollWaitTime)))). apply poll_ends; [done| |lia].
      rewrite !Nat2Z.inj_succ, Z2Nat.id by (apply Z.div_pos; unfold pollWaitTime, ms; lia). unfold pollWaitTime, ms. Z.div_mod_to_equations. lia. }
  destruct Hfuel as (fuel & [[r n] t] & Hpoll). exists fuel. unfold waitForCompletionWithTimeout. fold endless. fold limit.
  destruct (Z.ltb_spec limit pollingThreshold) as [Hshort|Hlong].
  - assert (Hl : 0 <= timeout /\ endless = false /\ limit = timeout).
    { unfold limit, endless in *. destruct (Z.ltb_spec timeout 0); [unfold nanoseconds_max, pollingThreshold, ms in *; lia|done]. }
    destruct Hl as (Hpos & He & Hl). eexists _, _, _, _. split; [done|]. left. rewrite He, Hl. rewrite Hl in Hshort.
    split; [done|]. split; [by right|]. by rewrite Z.min_l by lia.
  - assert (Hf : (if endless then loaded o else pollingThreshold) = if endless then loaded o else Z.min timeout pollingThreshold).
    { unfold limit in Hlong. destruct endless; [done|]. by rewrite Z.min_r. }
    destruct (Z.eqb_spec (waitFunc 0 (duration_cast (if endless then loaded o else pollingThreshold))) success) as [E|E].
    + eexists _, _, _, _. split; [done|]. left. rewrite <- Hf. split; [done|]. split; [by left|done].
    + rewrite Hpoll. eexists _, _, _, _. split; [done|]. right. apply poll_result in Hpoll as (Hn & Hp & Hw & _ & Hnr & Hb); [|done].
      split; [lia|]. split; [done|]. split; [done|]. unfold limit, endless in *. destruct (Z.ltb_spec timeout 0) as [Hneg|Hpos].
      * split; [intros Hr; by destruct (Hnr Hr)|lia].
      * split; [intros Hr; by destruct (Hnr Hr)|by auto].
Qed.

End wait.

(** * The adapted time stays in its bounds *)

(** One call: it loads a value, and exchanges another time, when other threads may have
    stored; the direct wait took some time. *)
Inductive adapt_step : Z -> Z -> Prop :=
| step_call unit success notReady waitFunc waitFuncTime current from fail fuel timeout r calls total adapted :
    minFirstWaitTime <= from <= maxFirstWaitTime ->
    waitForCompletionWithTimeout unit success notReady waitFunc waitFuncTime (mkOthers from current fail) fuel timeout = Some (r, calls, total, adapted) ->
    adapt_step current adapted.

(** The time of the direct wait always stays between its two limits. *)
Theorem adapted_time_bounded current : rtc adapt_step maxFirstWaitTime current -> minFirstWaitTime <= current <= maxFirstWaitTime.
Proof.
  assert (H : forall a b, rtc adapt_step a b -> minFirstWaitTime <= a <= maxFirstWaitTime -> minFirstWaitTime <= b <= maxFirstWaitTime).
  { induction 1 as [|a b c Hs _ IH]; [done|]. intros Ha. apply IH. clear IH.
    destruct Hs as [unit success notReady waitFunc waitFuncTime cur from fail fuel timeout r calls total adapted Hfrom Hw].
    unfold waitForCompletionWithTimeout, increaseFirstWaitAdaptiveTimout, decreaseFirstWaitAdaptiveTimout, compare_exchange_weak in Hw.
    cbn [loaded found spurious] in Hw. repeat (split_if_in Hw); try (destruct (poll _ _ _ _ _ _ _ _) as [[[? ?] ?]|]; [|done]);
      injection Hw as <- <- <- <-; bool_prop; unfold minFirstWaitTime, maxFirstWaitTime, pollingThreshold, ms in *; lia. }
  intros Hr. apply (H _ _ Hr). unfold minFirstWaitTime, maxFirstWaitTime, ms. lia.
Qed.

(** An error of the direct wait is not returned: it is taken for "not ready", and the
    polling asks again. *)
Theorem first_error_is_ignored unit success notReady waitFunc waitFuncTime o timeout : pollingThreshold <= timeout ->
  success <> notReady -> waitFunc O (Z.quot pollingThreshold unit) <> success -> waitFunc 1%nat 0 = success ->
  exists adapted, waitForCompletionWithTimeout unit success notReady waitFunc waitFuncTime o 1 timeout = Some (success, 2%nat, waitFuncTime, adapted).
Proof.
  intros Ht Hne H0 H1. unfold waitForCompletionWithTimeout. rewrite (proj2 (Z.ltb_ge timeout 0)) by (unfold pollingThreshold, ms in *; lia).
  rewrite (proj2 (Z.ltb_ge _ _) Ht). unfold duration_cast. rewrite (proj2 (Z.eqb_neq _ _) H0). cbn [poll]. rewrite H1, Z.eqb_refl. by eexists.
Qed.

Lemma wait_returns_witness : exists fuel r calls total adapted,
  waitForCompletionWithTimeout 1000 0 1 (fun i _ => if (i <? 4)%nat then 1 else 0) pollingThreshold (mkOthers maxFirstWaitTime maxFirstWaitTime false) fuel 200000000
    = Some (r, calls, total, adapted).
Proof.
  destruct (wait_returns 1000 0 1 (fun i _ => if (i <? 4)%nat then 1 else 0) pollingThreshold (mkOthers maxFirstWaitTime maxFirstWaitTime false) 200000000)
    as (fuel & r & calls & total & adapted & E & _); [done|vm_compute; done|vm_compute; done|left; lia|].
  by exists fuel, r, calls, total, adapted.
Defined.
