(* ===== verification/Text.v ===== *)
(** Text (shared/utils.h, shared/utils.cpp): numbers in paths, joined strings, variables of
    the environment; and the extent of a rectangle in a buffer. *)

From Stdlib Require Import Ascii String.
From S2P Require Import Prelude.
From S2P Require Import BufferRecycler.
Local Open Scope Z_scope.

Abbreviation text := (list ascii).

Definition code (c : ascii) : Z := Z.of_N (N_of_ascii c).
Definition char_of (v : Z) : ascii := ascii_of_N (Z.to_N (u8 v)).

(** * Numbers in paths *)

(** [std::numeric_limits<uint64_t>::digits10]: the length of the array of digits. *)
Definition digits10 : nat := 19.

(** The first loop: the digits to the base 32 from the lowest one.  A digit behind the end
    of the array is undefined; 64 rounds shift every bit out. *)
Fixpoint fillDigits (fuel : nat) (v : Z) (i : nat) (digits : list Z) : res (list Z * nat) :=
  if v =? 0 then Ret (digits, i) else
  match fuel with
  | O => Undef
  | S fuel =>
      if (i <? List.length digits)%nat
      then fillDigits fuel (Z.shiftr v 5) (S i) (<[i := Z.land v (Z.shiftl 1 5 - 1)]> digits)
      else Undef
  end.

Definition digitChar (d : Z) : ascii := if d <? 10 then char_of (48 + d) else char_of (65 + d - 10).

(** The second loop, for the digits below [i] from the highest one. *)
Fixpoint appendDigits (digits : list Z) (i : nat) : text :=
  match i with
  | O => []
  | S i => digitChar (nth i digits 0) :: appendDigits digits i
  end.

Definition encodeIntAsPath (v : Z) : res text :=
  if v =? 0 then Ret [char_of 48] else
  '(digits, i) ← fillDigits 64 v 0 (replicate digits10 0);
  Ret (appendDigits digits i).

Definition decodeDigit (c : ascii) : Z := let digit := code c in if 65 <=? digit then digit - 65 + 10 else digit - 48.

Definition decodeIntFromPath (str : text) : Z := fold_left (fun ret c => u64 (u64 (ret * 32) + decodeDigit c)) str 0.

(** * Joined strings *)

Fixpoint concatenateBase (ret : text) (l : list text) (separator : text) : text :=
  match l with
  | [] => ret
  | s :: l =>
      let ret := ret ++ s in
      let ret := match l with [] => ret | _ => ret ++ separator end in
      concatenateBase ret l separator
  end.

(** The length that is reserved. *)
Definition reserved (l : list text) (separator : text) : nat :=
  (foldr (fun s sum => List.length s + sum) 0 l + List.length l * List.length separator)%nat.

(** * The environment *)

(** What [getenv] gives. *)
Abbreviation Environment := (list (text * text)).

Fixpoint getEnv (env : Environment) (name : text) : option text :=
  match env with
  | [] => None
  | (n, v) :: env => if decide (n = name) then Some v else getEnv env name
  end.

Definition flagOf (c : ascii) : option bool :=
  if existsb (Ascii.eqb c) ["1"; "T"; "t"; "Y"; "y"]%char then Some true else
  if existsb (Ascii.eqb c) ["0"; "F"; "f"; "N"; "n"]%char then Some false else None.

(** Anything but a single known character leaves the default. *)
Definition getEnvFlag (env : Environment) (name : text) (defaultValue : bool) : bool :=
  match getEnv env name with
  | None => defaultValue
  | Some [c] => default defaultValue (flagOf c)
  | Some _ => defaultValue
  end.

(** [atoll]: white space, a sign, digits; undefined out of range. *)
Definition isspace (c : ascii) : bool := (code c =? 32) || ((9 <=? code c) && (code c <=? 13)).
Definition isdigit (c : ascii) : bool := (48 <=? code c) && (code c <=? 57).

Fixpoint digitsOf (s : text) (value : Z) : Z :=
  match s with
  | c :: s => if isdigit c then digitsOf s (value * 10 + (code c - 48)) else value
  | [] => value
  end.

Fixpoint skipSpace (s : text) : text :=
  match s with c :: s' => if isspace c then skipSpace s' else s | [] => [] end.

Definition atoll (s : text) : res Z :=
  let v := match skipSpace s with
           | c :: s' => if code c =? 45 then - digitsOf s' 0 else if code c =? 43 then digitsOf s' 0 else digitsOf (c :: s') 0
           | [] => 0
           end in
  if (v <? - 9223372036854775808) || (9223372036854775807 <? v) then Undef else Ret v.

Definition getEnvI64 (env : Environment) (name : text) (defaultValue : Z) : res Z :=
  match getEnv env name with None => Ret defaultValue | Some s => atoll s end.

(** The options of the build: [NDEBUG] and [CAL_ENABLE_DEBUG_KEYS_IN_RELEASE]. *)
Record Build := mkBuild { ndebug : bool; debugKeysInRelease : bool }.

Definition calReadDebugKeysEnvName : text := list_ascii_of_string "CAL_READ_DEBUG_KEYS".
Definition calIcdBufferRecycleEnvName : text := list_ascii_of_string "CAL_ICD_BUFFER_RECYCLE".

Definition calReleaseModeEnvs : list text := map list_ascii_of_string
  ["CAL_MAX_VERBOSITY"; "CAL_USE_LOGGER_NAME"; "CAL_APPEND_PID"; "CAL_ENABLE_L0_IN_CALRUN"; "CAL_ENABLE_OCL_IN_CALRUN";
   "CAL_ASYNC_CALLS"; "CAL_USE_CUSTOM_OCL_PLATFORM_NAME"; "CAL_REDIRECT_L0"; "CAL_LISTENER_SOCKET_PATH"]%string.

Definition isAllowedCalEnv (build : Build) (env : Environment) (name : text) : bool :=
  if negb (ndebug build) then true else
  if debugKeysInRelease build && getEnvFlag env calReadDebugKeysEnvName false then true else
  if decide (name ∈ calReleaseModeEnvs) then true else false.

Definition getCalEnv (build : Build) (env : Environment) (name : text) : option text :=
  if (if getEnv env name is Some _ then true else false) && isAllowedCalEnv build env name then getEnv env name else None.

Definition getCalEnvFlag (build : Build) (env : Environment) (name : text) (defaultValue : bool) : bool :=
  if (if getEnv env name is Some _ then true else false) && isAllowedCalEnv build env name then getEnvFlag env name defaultValue else defaultValue.

Definition getCalEnvI64 (build : Build) (env : Environment) (name : text) (defaultValue : Z) : res Z :=
  if (if getEnv env name is Some _ then true else false) && isAllowedCalEnv build env name then getEnvI64 env name defaultValue else Ret defaultValue.

(** * Rectangles in buffers *)

Definition triple : Type := (Z * Z * Z).

Definition getBufferRectSizeInBytes (origin region : option triple) (rowPitch slicePitch : Z) : Z :=
  match origin, region with
  | Some (o0, o1, o2), Some (r0, r1, r2) =>
      if (r0 =? 0) || (r1 =? 0) || (r2 =? 0) then 0 else
      let rowPitch := if rowPitch =? 0 then r0 else rowPitch in
      let slicePitch := if slicePitch =? 0 then u64 (rowPitch * r1) else slicePitch in
      let offsetInBytes := u64 (u64 (u64 (o2 * slicePitch) + u64 (o1 * rowPitch)) + o0) in
      let regionSizeInbytes := u64 (u64 (r0 + u64 (rowPitch * u64 (r1 - 1))) + u64 (slicePitch * u64 (r2 - 1))) in
      u64 (offsetInBytes + regionSizeInbytes)
  | _, _ => 0
  end.

(** * Numbers in paths come back *)

Fixpoint val (digits : list Z) (i : nat) : Z :=
  match i with O => 0 | S i => val digits i + nth i digits 0 * 32 ^ Z.of_nat i end.

Definition small (digits : list Z) (i : nat) : Prop := forall t, (t < i)%nat -> 0 <= nth t digits 0 < 32.

Lemma nth_insert_eq (l : list Z) i d : (i < List.length l)%nat -> nth i (<[i := d]> l) 0 = d.
Proof. intros Hi. rewrite nth_lookup. by rewrite list_lookup_insert_eq. Qed.

Lemma nth_insert_ne (l : list Z) i j d : i <> j -> nth j (<[i := d]> l) 0 = nth j l 0.
Proof. intros Hne. by rewrite !nth_lookup, list_lookup_insert_ne. Qed.

Lemma val_insert digits i d n : (n <= i)%nat -> val (<[i := d]> digits) n = val digits n.
Proof. induction n as [|n IH]; intros Hn; cbn; [done|]. by rewrite IH, nth_insert_ne by lia. Qed.

Lemma fillDigits_ok fuel : forall v i digits, 0 <= v < 32 ^ (13 - Z.of_nat i) -> (i <= 13)%nat -> (13 - i <= fuel)%nat ->
  List.length digits = digits10 -> small digits i ->
  exists digits' j, fillDigits fuel v i digits ⇓ (digits', j) /\ (j <= 13)%nat /\ small digits' j /\
    val digits' j = val digits i + v * 32 ^ Z.of_nat i.
Proof.
  induction fuel as [|fuel IH]; intros v i digits Hv Hi Hf Hl Hs; cbn [fillDigits]; destruct (Z.eqb_spec v 0) as [->|Hne];
    try (exists digits, i; split; [done|]; split; [done|]; split; [done|lia]).
  - replace i with 13%nat in Hv by lia. cbn in Hv. lia.
  - assert (Hi13 : (i < 13)%nat) by (destruct (decide (i = 13%nat)) as [->|]; [cbn in Hv|]; lia).
    rewrite Hl. change (Nat.ltb i digits10) with (i <? 19)%nat. rewrite (proj2 (Nat.ltb_lt i 19)) by lia.
    change (Z.shiftl 1 5 - 1) with (Z.ones 5). rewrite Z.land_ones, Z.shiftr_div_pow2 by lia. change (2 ^ 5) with 32.
    pose proof (Z.div_mod v 32) as Hdm. pose proof (Z.mod_pos_bound v 32) as Hm.
    destruct (IH (v / 32) (S i) (<[i := v mod 32]> digits)) as (digits' & j & E & Hj & Hs' & Hval); [| |lia|by rewrite length_insert| |].
    + rewrite Nat2Z.inj_succ. replace (13 - Z.of_nat i) with (Z.succ (13 - Z.succ (Z.of_nat i))) in Hv by lia. rewrite Z.pow_succ_r in Hv by lia.
      split; [apply Z.div_pos; lia|]. apply Z.div_lt_upper_bound; lia.
    + lia.
    + intros t Ht. destruct (decide (t = i)) as [->|]; [rewrite nth_insert_eq by (rewrite Hl; unfold digits10; lia); lia|].
      rewrite nth_insert_ne by done. apply Hs. lia.
    + exists digits', j. split; [done|]. split; [done|]. split; [done|]. rewrite Hval. cbn [val].
      rewrite val_insert by lia. rewrite nth_insert_eq by (rewrite Hl; unfold digits10; lia). rewrite Nat2Z.inj_succ, Z.pow_succ_r by lia.
      rewrite Hdm at 3 by lia. lia.
Qed.

Lemma digit_back d : 0 <= d < 32 -> decodeDigit (digitChar d) = d /\ digitChar d <> "/"%char.
Proof.
  intros Hd. assert (H : forallb (fun d => (decodeDigit (digitChar d) =? d) && negb (Ascii.eqb (digitChar d) "/"%char)) (seqZ 0 32) = true)
    by (vm_compute; reflexivity).
  rewrite forallb_forall in H. specialize (H d). rewrite <- list_elem_of_In, elem_of_seqZ in H. specialize (H ltac:(lia)). bool_prop.
  split; [lia|]. by apply Ascii.eqb_neq.
Qed.

Lemma val_small digits i : small digits i -> 0 <= val digits i < 32 ^ Z.of_nat i.
Proof.
  induction i as [|i IH]; intros Hs; [cbn; lia|]. cbn [val]. rewrite Nat2Z.inj_succ, Z.pow_succ_r by lia.
  pose proof (IH (fun t Ht => Hs t (Nat.lt_lt_succ_r _ _ Ht))). pose proof (Hs i ltac:(lia)). nia.
Qed.

Lemma decode_append digits i : forall acc, small digits i -> 0 <= acc -> acc * 32 ^ Z.of_nat i + val digits i < W64 ->
  fold_left (fun ret c => u64 (u64 (ret * 32) + decodeDigit c)) (appendDigits digits i) acc = acc * 32 ^ Z.of_nat i + val digits i.
Proof.
  induction i as [|i IH]; intros acc Hs Ha Hb; cbn [appendDigits fold_left]; [cbn; lia|].
  cbn [val] in *. rewrite Nat2Z.inj_succ, Z.pow_succ_r in * by lia. pose proof (Hs i ltac:(lia)) as Hd.
  assert (Hs' : small digits i) by (intros t Ht; apply Hs; lia). pose proof (val_small _ _ Hs') as Hv.
  rewrite (proj1 (digit_back _ Hd)). assert (1 <= 32 ^ Z.of_nat i) by (pose proof (Z.pow_pos_nonneg 32 (Z.of_nat i)); lia).
  assert (Hlt : acc * 32 + nth i digits 0 < W64) by nia.
  rewrite (u64_id (acc * 32)), u64_id by (unfold is_u64; lia). rewrite IH; [nia|done|lia|nia].
Qed.

(** Numbers in paths come back.  Every 64-bit number is encoded, within its array of
    digits, as a text of at most 13 characters without a slash, and decoded to itself. *)
Theorem path_numbers_roundtrip v : is_u64 v -> exists s, encodeIntAsPath v ⇓ s /\ (0 < List.length s <= 13)%nat /\
  Forall (fun c => c <> "/"%char) s /\ decodeIntFromPath s = v.
Proof.
  intros Hv. unfold encodeIntAsPath. destruct (Z.eqb_spec v 0) as [->|Hne].
  { eexists. split; [done|]. split; [cbn; lia|]. split; [by repeat constructor|done]. }
  destruct (fillDigits_ok 64 v 0 (replicate digits10 0)) as (digits & j & -> & Hj & Hs & Hval);
    [unfold is_u64 in Hv; change (32 ^ (13 - Z.of_nat 0)) with 36893488147419103232; lia|lia|lia|done|intros t ?; lia|].
  cbn [val] in Hval. rewrite Z.mul_1_r, Z.add_0_l in Hval. cbn [mbind res_bind]. eexists. split; [done|].
  assert (Hlen : forall i, List.length (appendDigits digits i) = i) by (intros i; induction i; cbn; congruence).
  split; [rewrite Hlen; destruct j; [cbn in Hval|]; lia|]. split.
  - clear -Hs. induction j as [|j IH]; cbn; constructor; [by apply digit_back, Hs; lia|]. apply IH. intros t Ht. apply Hs. lia.
  - unfold decodeIntFromPath. rewrite (decode_append digits j 0 Hs) by (unfold is_u64 in Hv; lia). lia.
Qed.

(** * Joined strings *)

Definition joined (l : list text) (separator : text) : text :=
  list_ascii_of_string (String.concat (string_of_list_ascii separator) (map string_of_list_ascii l)).

Lemma list_of_append a b : list_ascii_of_string (a ++ b)%string = list_ascii_of_string a ++ list_ascii_of_string b.
Proof. induction a as [|c a IH]; [done|]. change (String c a ++ b)%string with (String c (a ++ b)). cbn [list_ascii_of_string]. by rewrite IH. Qed.

Lemma joined_cons s s' l separator : joined (s :: s' :: l) separator = s ++ separator ++ joined (s' :: l) separator.
Proof.
  transitivity (list_ascii_of_string (string_of_list_ascii s ++ string_of_list_ascii separator ++
    String.concat (string_of_list_ascii separator) (map string_of_list_ascii (s' :: l)))%string); [reflexivity|].
  by rewrite !list_of_append, !list_ascii_of_string_of_list_ascii.
Qed.

Lemma joined_one s separator : joined [s] separator = s.
Proof. apply list_ascii_of_string_of_list_ascii. Qed.

(** Joining is the library's function, and what was reserved is enough. *)
Theorem concatenate_joins l separator :
  concatenateBase [] l separator = joined l separator /\ (List.length (concatenateBase [] l separator) <= reserved l separator)%nat.
Proof.
  assert (H : forall ret, concatenateBase ret l separator = ret ++ joined l separator).
  { induction l as [|s l IH]; intros ret; cbn [concatenateBase]; [by rewrite app_nil_r|]. rewrite IH.
    destruct l as [|s' l]; [by rewrite joined_one, app_nil_r|]. by rewrite joined_cons, <- !app_assoc. }
  rewrite H. split; [done|]. cbn [app]. clear H. unfold reserved.
  induction l as [|s [|s' l] IH]; [cbn; lia|rewrite joined_one; cbn; lia|]. rewrite joined_cons, !length_app. cbn [foldr List.length] in *. lia.
Qed.

(** * Rectangles *)

(** The words of the computation, when their sum is one. *)
Lemma rect_words a b o0 r0 row r1 slice r2 : 0 <= a -> 0 <= b -> 0 <= o0 -> 0 < r0 -> 0 <= r1 - 1 <= row * (r1 - 1) -> 0 <= r2 - 1 <= slice * (r2 - 1) ->
  a + b + o0 + (r0 + row * (r1 - 1) + slice * (r2 - 1)) < W64 ->
  u64 (u64 (u64 (u64 a + u64 b) + o0) + u64 (u64 (r0 + u64 (row * u64 (r1 - 1))) + u64 (slice * u64 (r2 - 1)))) =
  a + b + o0 + (r0 + row * (r1 - 1) + slice * (r2 - 1)).
Proof.
  intros Ha Hb H0 H1 Hc Hd Hall. rewrite (u64_id (r1 - 1)), (u64_id (r2 - 1)) by (unfold is_u64; lia).
  rewrite (u64_id a), (u64_id b), (u64_id (row * _)), (u64_id (slice * _)) by (unfold is_u64; lia).
  rewrite (u64_id (a + b)), (u64_id (r0 + _)) by (unfold is_u64; lia). rewrite (u64_id (a + b + o0)), (u64_id (r0 + _ + _)) by (unfold is_u64; lia).
  apply u64_id. unfold is_u64. lia.
Qed.

(** The size of a rectangle is the extent of its bytes.  When nothing wraps, every byte of
    the rectangle lies below the size, and the last one at its end. *)
Theorem rect_size_exact o0 o1 o2 r0 r1 r2 rowPitch slicePitch :
  let row := if rowPitch =? 0 then r0 else rowPitch in
  let slice := if slicePitch =? 0 then row * r1 else slicePitch in
  let at_ x y z := (o2 + z) * slice + (o1 + y) * row + (o0 + x) in
  0 <= o0 -> 0 <= o1 -> 0 <= o2 -> 0 < r0 -> 0 < r1 -> 0 < r2 -> 0 <= rowPitch -> 0 <= slicePitch ->
  row * r1 < W64 -> at_ (r0 - 1) (r1 - 1) (r2 - 1) + 1 < W64 ->
  let size := getBufferRectSizeInBytes (Some (o0, o1, o2)) (Some (r0, r1, r2)) rowPitch slicePitch in
  (forall x y z, 0 <= x < r0 -> 0 <= y < r1 -> 0 <= z < r2 -> 0 <= at_ x y z < size) /\ size = at_ (r0 - 1) (r1 - 1) (r2 - 1) + 1.
Proof.
  intros row slice at_ H0 H1 H2 H3 H4 H5 H6 H7 Hrow Hall size.
  assert (Hr : 1 <= row) by (unfold row; destruct (Z.eqb_spec rowPitch 0); lia).
  assert (Hs : 1 <= slice) by (unfold slice; destruct (Z.eqb_spec slicePitch 0); nia).
  assert (Hw : is_u64 (row * r1)) by (split; [apply Z.mul_nonneg_nonneg; lia|exact Hrow]).
  assert (Hsize : size = at_ (r0 - 1) (r1 - 1) (r2 - 1) + 1).
  { unfold size, getBufferRectSizeInBytes. rewrite !(proj2 (Z.eqb_neq _ 0)) by lia. cbn [orb]. fold row.
    replace (if slicePitch =? 0 then u64 (row * r1) else slicePitch) with slice
      by (unfold slice; destruct (slicePitch =? 0); [rewrite u64_id by done|]; done).
    unfold at_ in *. assert (r1 - 1 <= row * (r1 - 1) /\ r2 - 1 <= slice * (r2 - 1)) by nia.
    replace ((o2 + (r2 - 1)) * slice + (o1 + (r1 - 1)) * row + (o0 + (r0 - 1)) + 1)
      with (o2 * slice + o1 * row + o0 + (r0 + row * (r1 - 1) + slice * (r2 - 1))) in * by lia.
    assert (0 <= o2 * slice /\ 0 <= o1 * row) by nia. apply rect_words; lia. }
  split; [|exact Hsize]. intros x y z Hx Hy Hz. rewrite Hsize. unfold at_.
  assert (z * slice <= (r2 - 1) * slice /\ y * row <= (r1 - 1) * row /\ 0 <= (o2 + z) * slice /\ 0 <= (o1 + y) * row) by nia. lia.
Qed.

(** A pitch that does not fit wraps the size around: two slices that are 2^64 - 1 bytes
    apart take no byte. *)
Theorem rect_size_wraps : getBufferRectSizeInBytes (Some (0, 0, 0)) (Some (1, 1, 2)) 0 u64_max = 0.
Proof. reflexivity. Qed.

(** * Variables *)

(** A value of more than one character is no flag: the default stays. *)
Theorem long_flag_is_default env name s d : getEnv env name = Some s -> (1 < List.length s)%nat -> getEnvFlag env name d = d.
Proof. intros Hn Hs. unfold getEnvFlag. rewrite Hn. destruct s as [|c [|c' s]]; cbn in Hs; [lia|lia|done]. Qed.

(** Builds for release ignore what is not on their list. *)
Theorem release_ignores_variables build env name d v : ndebug build = true -> debugKeysInRelease build = false -> name ∉ calReleaseModeEnvs ->
  getCalEnv build env name = None /\ getCalEnvFlag build env name d = d /\ getCalEnvI64 build env name v ⇓ v.
Proof.
  intros Hn Hd Hname. unfold getCalEnv, getCalEnvFlag, getCalEnvI64, isAllowedCalEnv. rewrite Hn, Hd. cbn [negb andb].
  rewrite decide_False by done. by rewrite andb_false_r.
Qed.

(** One variable, two readings.  With a limit of 64 MB the recycler of buffers works, and
    the flag that its requests without host memory need ([unflagged_request_is_refused]) is
    not set. *)
Theorem recycle_limit_is_no_flag : exists limit,
  let env := [(calIcdBufferRecycleEnvName, list_ascii_of_string "64")] in
  getCalEnvI64 (mkBuild false false) env calIcdBufferRecycleEnvName 0 ⇓ limit /\
  let c := newContext limit (getCalEnvFlag (mkBuild false false) env calIcdBufferRecycleEnvName false) in
  allowedReuseSizeTotal (clBufferRecycler c) = 64 * MB /\ skipTransferOnHostPtrMatch c = false.
Proof. exists 64. split; [vm_compute; reflexivity|]. split; vm_compute; reflexivity. Qed.

(** * Examples *)

Example demo_path : (s ← encodeIntAsPath 1000000; Ret (string_of_list_ascii s)) ⇓ "UGI0"%string.
Proof. vm_compute. reflexivity. Qed.

Example demo_join : concatenateBase [] [list_ascii_of_string "a"; list_ascii_of_string "b"] (list_ascii_of_string ", ") = list_ascii_of_string "a, b".
Proof. reflexivity. Qed.

Lemma path_numbers_roundtrip_witness : is_u64 u64_max /\ exists s, encodeIntAsPath u64_max ⇓ s /\ decodeIntFromPath s = u64_max.
Proof.
  assert (H : is_u64 u64_max) by (unfold is_u64, u64_max; lia). split; [exact H|].
  destruct (path_numbers_roundtrip u64_max H) as (s & E & _ & _ & D). by exists s.
Defined.
