(* ===== verification/MappedBuffers.v ===== *)
(** Host pointers of OpenCL buffers (client/icd/icd_ocl.cpp): a buffer on memory of the
    application is backed by another area, and mapping it copies from that area and gives
    the application's address, unmapping copies back. *)

From stdpp Require Import gmap.
From S2P Require Import Prelude.
From S2P Require Import Align.
From S2P Require Import Transfers.
From S2P Require Import PNext.
From S2P Require Import BufferRecycler.
Local Open Scope Z_scope.

(** * Buffers *)

(** The fields that host pointers depend on; a parent is a buffer, or none. *)
Record Buffer := mkBuffer { hostPtr : Z; bufferSize : Z; bufferFlags : Z; parentMemObj : option Z; standaloneHostPtr : Z }.

Abbreviation buffers_of := (gmap Z Buffer).

Definition buffer_at (h : buffers_of) (p : Z) : res Buffer := match h !! p with Some b => Ret b | None => Undef end.

(** The buffer whose area backs [b]: its parent, or itself. *)
Definition backing (h : buffers_of) (b : Buffer) : res Buffer :=
  match parentMemObj b with Some p => buffer_at h p | None => Ret b end.

(** [memcpy], undefined for areas that overlap. *)
Definition memcpy (m : Memory) (dst src n : Z) : res Memory :=
  if (0 <? n) && (dst <? src + n) && (src <? dst + n) then Undef else Ret (copyBytes m dst m src n).

(** [translateMappedPointer]: [usm] tells whether the address that the service gave is in
    the heap of host memory, [sharable] whether it is in the shared heap of malloc. *)
Definition translateMappedPointer (h : buffers_of) (m : Memory) (usm sharable : Z -> bool) (buffer ptr offset : Z) : res (Z * Memory) :=
  b ← buffer_at h buffer;
  if usm ptr then
    let apiHostPtr := hostPtr b in
    if negb (apiHostPtr =? 0) && usesHostPtr (bufferFlags b) then
      k ← backing h b;
      if negb (standaloneHostPtr k =? 0) then
        m ← memcpy m (hostPtr k) (standaloneHostPtr k) (bufferSize k);
        Ret (moveByBytes apiHostPtr offset, m)
      else Ret (ptr, m)
    else Ret (ptr, m)
  else if sharable ptr then Ret (moveByBytes (hostPtr b) offset, m)
  else Ret (0, m).

Definition translateUnMappedPointer (h : buffers_of) (m : Memory) (buffer ptr : Z) : res (Z * Memory) :=
  b ← buffer_at h buffer;
  if negb (hostPtr b =? 0) && usesHostPtr (bufferFlags b) then
    k ← backing h b;
    if negb (standaloneHostPtr k =? 0) then
      m ← memcpy m (standaloneHostPtr k) (hostPtr k) (bufferSize k);
      Ret (moveByBytes (standaloneHostPtr k) (byteDistanceAbs ptr (hostPtr k)), m)
    else Ret (ptr, m)
  else Ret (ptr, m).

(** What [clCreateSubBuffer] fills in, of the flags that are asked for and the region. *)
Definition accessFlags : Z := Z.lor 2 (Z.lor 4 1).
Definition hostAccessFlags : Z := Z.lor 128 (Z.lor 256 512).
Definition hostPtrFlags : Z := Z.lor CL_MEM_USE_HOST_PTR (Z.lor CL_MEM_ALLOC_HOST_PTR CL_MEM_COPY_HOST_PTR).

Definition clCreateSubBuffer (h : buffers_of) (buffer flags origin size ret : Z) : res buffers_of :=
  parent ← buffer_at h buffer;
  if ret =? 0 then Undef else
  let parentFlags := bufferFlags parent in
  let flags := if Z.land flags accessFlags =? 0 then Z.lor flags (Z.land parentFlags accessFlags) else flags in
  let flags := if Z.land flags hostAccessFlags =? 0 then Z.lor flags (Z.land parentFlags hostAccessFlags) else flags in
  let flags := Z.lor flags (Z.land parentFlags hostPtrFlags) in
  Ret (<[ret := mkBuffer (moveByBytes (hostPtr parent) origin) size flags (Some buffer) 0]> h).

(** [clGetMemObjectInfo], for the values that the client knows. *)
Definition clGetMemObjectInfo (h : buffers_of) (memobj param_name : Z) : res (option Z) :=
  b ← buffer_at h memobj;
  Ret (if param_name =? 0x1101 then Some (bufferFlags b)
       else if param_name =? 0x1102 then Some (bufferSize b)
       else if param_name =? 0x1103 then Some (hostPtr b)
       else None).

(** * Mapping and unmapping *)

(** A buffer, or a part of one, on memory of the application with an area that does not
    overlap it. *)
Record mappable (h : buffers_of) (p : Z) (b k : Buffer) : Prop := mkMappable {
  map_buffer : h !! p = Some b;
  map_backing : backing h b ⇓ k;
  map_flags : usesHostPtr (bufferFlags b) = true;
  map_pointers : hostPtr b <> 0 /\ standaloneHostPtr k <> 0;
  map_size : 0 < bufferSize k < 9223372036854775808;
  map_part : hostPtr k <= hostPtr b <= hostPtr k + bufferSize k;
  map_host : 0 <= hostPtr k /\ hostPtr k + bufferSize k < W64;
  map_area : 0 <= standaloneHostPtr k /\ standaloneHostPtr k + bufferSize k < W64;
  map_apart : hostPtr k + bufferSize k <= standaloneHostPtr k \/ standaloneHostPtr k + bufferSize k <= hostPtr k }.

(** Outside of [n] bytes at [a] the memories agree. *)
Definition unchanged (m m' : Memory) (a n : Z) : Prop := forall x, ~ a <= x < a + n -> m' x = m x.

(** The [n] bytes at [a] of one memory are those at [b] of the other. *)
Definition holds (m : Memory) (a : Z) (m' : Memory) (b n : Z) : Prop := forall i, 0 <= i < n -> m (a + i) = m' (b + i).

Lemma area_copy_ok m dst src n : 0 < n -> dst + n <= src \/ src + n <= dst ->
  exists m', memcpy m dst src n ⇓ m' /\ holds m' dst m src n /\ unchanged m m' dst n.
Proof.
  intros Hn Hd. unfold memcpy.
  replace ((0 <? n) && (dst <? src + n) && (src <? dst + n)) with false
    by (destruct (Z.ltb_spec dst (src + n)), (Z.ltb_spec src (dst + n)); rewrite ?andb_false_r; done || lia).
  eexists. split; [done|]. split.
  - intros i Hi. rewrite copyBytes_in by lia. f_equal. lia.
  - intros x Hx. by apply copyBytes_out.
Qed.

Lemma map_ok h m usm sharable p b k ptr offset : mappable h p b k -> usm ptr = true -> 0 <= offset -> hostPtr b + offset < W64 ->
  exists m', translateMappedPointer h m usm sharable p ptr offset ⇓ (hostPtr b + offset, m') /\
    holds m' (hostPtr k) m (standaloneHostPtr k) (bufferSize k) /\ unchanged m m' (hostPtr k) (bufferSize k).
Proof.
  intros Hm Hu Ho Hw. destruct Hm as [Hb Hk Hf [Hp Hs] Hsz Hpart Hhost Harea Hap]. unfold translateMappedPointer, buffer_at. rewrite Hb.
  cbn [mbind res_bind]. rewrite Hu, (proj2 (Z.eqb_neq _ _) Hp), Hf. cbn [negb andb]. rewrite Hk. cbn [mbind res_bind].
  rewrite (proj2 (Z.eqb_neq _ _) Hs). cbn [negb].
  destruct (area_copy_ok m (hostPtr k) (standaloneHostPtr k) (bufferSize k)) as (m' & -> & H1 & H2); [lia|lia|]. cbn [mbind res_bind].
  exists m'. split; [|done]. unfold moveByBytes. rewrite u64_id by (unfold is_u64; lia). done.
Qed.

Lemma distance_back a b : 0 <= b <= a -> a < W64 -> a - b < 9223372036854775808 -> byteDistanceAbs a b = a - b.
Proof.
  intros H1 H2 H3. unfold byteDistanceAbs, byteDistance. rewrite i64_id by lia. destruct (Z.ltb_spec 0 (b - a)); rewrite u64_id; unfold is_u64; lia.
Qed.

Lemma unmap_ok h m p b k ptr : mappable h p b k -> hostPtr k <= ptr < hostPtr k + bufferSize k ->
  exists m', translateUnMappedPointer h m p ptr ⇓ (standaloneHostPtr k + (ptr - hostPtr k), m') /\
    holds m' (standaloneHostPtr k) m (hostPtr k) (bufferSize k) /\ unchanged m m' (standaloneHostPtr k) (bufferSize k).
Proof.
  intros Hm Hptr. destruct Hm as [Hb Hk Hf [Hp Hs] Hsz Hpart Hhost Harea Hap]. unfold translateUnMappedPointer, buffer_at. rewrite Hb.
  cbn [mbind res_bind]. rewrite (proj2 (Z.eqb_neq _ _) Hp), Hf. cbn [negb andb]. rewrite Hk. cbn [mbind res_bind].
  rewrite (proj2 (Z.eqb_neq _ _) Hs). cbn [negb].
  destruct (area_copy_ok m (standaloneHostPtr k) (hostPtr k) (bufferSize k)) as (m' & -> & H1 & H2); [lia|lia|]. cbn [mbind res_bind].
  exists m'. split; [|done]. rewrite distance_back by lia. unfold moveByBytes. by rewrite u64_id by (unfold is_u64; lia).
Qed.

(** What the device wrote is mapped, and what the application wrote comes back.  Mapping a
    buffer, or a part of one, on memory of the application gives the application's own
    address and the bytes of the area behind it; unmapping that address, whatever was
    written meanwhile, gives the address of the same byte of the area, which then has the
    application's bytes.  Nothing else changes. *)
Theorem mapped_memory_roundtrip h m usm sharable p b k ptr offset : mappable h p b k -> usm ptr = true -> 0 <= offset ->
  hostPtr b + offset < hostPtr k + bufferSize k ->
  (exists m', translateMappedPointer h m usm sharable p ptr offset ⇓ (hostPtr b + offset, m') /\
     holds m' (hostPtr k) m (standaloneHostPtr k) (bufferSize k) /\ unchanged m m' (hostPtr k) (bufferSize k)) /\
  (forall written, exists m', translateUnMappedPointer h written p (hostPtr b + offset)
       ⇓ (standaloneHostPtr k + (hostPtr b - hostPtr k) + offset, m') /\
     holds m' (standaloneHostPtr k) written (hostPtr k) (bufferSize k) /\ unchanged written m' (standaloneHostPtr k) (bufferSize k)).
Proof.
  intros Hm Hu Ho Hlt. pose proof (map_host _ _ _ _ Hm) as Hhost. pose proof (map_part _ _ _ _ Hm) as Hpart. split.
  - apply map_ok; [done|done|done|lia].
  - intros written. destruct (unmap_ok h written p b k (hostPtr b + offset) Hm) as (m' & E & H); [lia|]. exists m'. split; [|done].
    rewrite E. f_equal. f_equal. lia.
Qed.

(** A second mapping loses what was written.  Mapping copies the whole buffer, not the
    region that is mapped: bytes that the application wrote through an earlier mapping,
    which is not yet unmapped, are overwritten by those of the area. *)
Theorem second_map_loses_writes h m usm sharable p b k ptr offset i : mappable h p b k -> usm ptr = true -> 0 <= offset ->
  hostPtr b + offset < W64 -> 0 <= i < bufferSize k -> m (hostPtr k + i) <> m (standaloneHostPtr k + i) ->
  exists r m', translateMappedPointer h m usm sharable p ptr offset ⇓ (r, m') /\ m' (hostPtr k + i) <> m (hostPtr k + i).
Proof.
  intros Hm Hu Ho Hw Hi Hne. destruct (map_ok h m usm sharable p b k ptr offset Hm Hu Ho Hw) as (m' & E & H & _).
  eexists _, m'. split; [exact E|]. rewrite (H i Hi). congruence.
Qed.

(** A part of a buffer without host memory claims to have some: its pointer is its origin. *)
Theorem sub_buffer_of_null h buffer parent flags origin size ret h' : h !! buffer = Some parent -> hostPtr parent = 0 -> 0 < origin < W64 ->
  clCreateSubBuffer h buffer flags origin size ret ⇓ h' -> clGetMemObjectInfo h' ret 0x1103 ⇓ Some origin.
Proof.
  intros Hp H0 Ho. unfold clCreateSubBuffer, clGetMemObjectInfo, buffer_at. rewrite Hp. cbn [mbind res_bind]. destruct (ret =? 0); [done|].
  intros [= <-]. rewrite lookup_insert_eq. cbn. rewrite H0. unfold moveByBytes. by rewrite u64_id by (unfold is_u64; lia).
Qed.

(** * Examples *)

(** A buffer of 64 bytes at 4096 with its area at 8192, and the part of it from byte 16. *)
Definition twoBuffers : buffers_of := <[2 := mkBuffer 4112 32 9 (Some 1) 0]> {[1 := mkBuffer 4096 64 9 None 8192]}.

Lemma twoBuffers_mappable : mappable twoBuffers 2 (mkBuffer 4112 32 9 (Some 1) 0) (mkBuffer 4096 64 9 None 8192).
Proof. split; cbn; try reflexivity; lia. Qed.

Lemma mapped_memory_roundtrip_witness : mappable twoBuffers 2 (mkBuffer 4112 32 9 (Some 1) 0) (mkBuffer 4096 64 9 None 8192) /\
  exists m', translateMappedPointer twoBuffers (fun a => a mod 251) (fun _ => true) (fun _ => false) 2 9000 4 ⇓ (4116, m').
Proof.
  split; [exact twoBuffers_mappable|].
  destruct (mapped_memory_roundtrip twoBuffers (fun a => a mod 251) (fun _ => true) (fun _ => false) 2 _ _ 9000 4 twoBuffers_mappable eq_refl)
    as [(m' & E & _) _]; [lia|cbn; lia|]. by exists m'.
Defined.
