(* ===== verification/DeviceFilter.v ===== *)
(** Which devices the Level Zero client shows: the mask in ZE_AFFINITY_MASK
    (client/icd/level_zero/icd_level_zero.cpp), the sub-devices that it selects
    (api_type_wrapper/device_wrapper.cpp), and the functions that enumerate
    (api_customization/icd_level_zero_api_device.cpp).

    Texts are lists of characters, as in Text.v. *)

From Stdlib Require Import Ascii.
From stdpp Require Import gmap strings.
From S2P Require Import Prelude.
From S2P Require Import ClientContext Text.
Local Open Scope Z_scope.

(** * Texts *)

(** [split] of shared/utils.h for a delimiter of one character; [part] is the part that is
    being read, in reverse.  Nothing follows a delimiter at the end. *)
Fixpoint splitFrom (delimiter : ascii) (part : text) (input : text) : list text :=
  match input with
  | [] => [rev part]
  | c :: input =>
      if Ascii.eqb c delimiter then rev part :: (match input with [] => [] | _ => splitFrom delimiter [] input end)
      else splitFrom delimiter (c :: part) input
  end.

Definition split (input : text) (delimiter : ascii) : list text :=
  match input with [] => [] | _ => splitFrom delimiter [] input end.

(** The value of a digit, in any base up to 16. *)
Definition digitValue (c : ascii) : option Z :=
  let n := Z.of_nat (nat_of_ascii c) in
  if (48 <=? n) && (n <=? 57) then Some (n - 48)
  else if (97 <=? n) && (n <=? 102) then Some (n - 87)
  else if (65 <=? n) && (n <=? 70) then Some (n - 55)
  else None.

Definition digitIn (base : Z) (c : ascii) : option Z :=
  match digitValue c with Some d => if d <? base then Some d else None | None => None end.

(** The digits at the beginning; [any]: whether there was one before. *)
Fixpoint readDigits (base : Z) (acc : Z) (any : bool) (s : text) : option Z :=
  match s with
  | c :: s =>
      match digitIn base c with
      | Some d => readDigits base (acc * base + d) true s
      | None => if any then Some acc else None
      end
  | [] => if any then Some acc else None
  end.

(** A hexadecimal prefix counts when a digit follows it. *)
Definition readNumber (s : text) : option Z :=
  match s with
  | ("0" :: x :: d :: s)%char =>
      if (Ascii.eqb x "x" || Ascii.eqb x "X") && bool_decide (is_Some (digitIn 16 d)) then readDigits 16 0 false (d :: s)
      else readDigits 8 0 false ("0" :: x :: d :: s)%char
  | ("0" :: s)%char => readDigits 8 0 false ("0" :: s)%char
  | _ => readDigits 10 0 false s
  end.

(** [std::stoul(s, nullptr, 0)]; the exceptions for no number and for one that is too
    large are not caught by the code: [Abort]. *)
Definition stoul (s : text) : res Z :=
  let s := skipSpace s in
  let '(negative, s) := match s with
                        | ("-" :: s)%char => (true, s)
                        | ("+" :: s)%char => (false, s)
                        | _ => (false, s)
                        end in
  match readNumber s with
  | None => Abort
  | Some n => if u64_max <? n then Abort else Ret (if negative : bool then u64 (- n) else n)
  end.

(** * Devices and the platform *)

Record IcdL0Device := mkDevice { parsed : bool; present : bool; selectedDevices : list bool; filteredDevices : list Z }.

Definition newDevice : IcdL0Device := mkDevice false false [] [].

(** A list of flags, longer with [false] at the end or cut. *)
Definition resizeFlags (l : list bool) (n : nat) : list bool := take n l ++ replicate (n - length l) false.

(** The sum is of 32 bits; an index out of the vector is undefined. *)
Definition addSubDeviceToFilter (d : IcdL0Device) (subDeviceIndex : Z) : res IcdL0Device :=
  let needed := u32 (subDeviceIndex + 1) in
  let selected := if Z.of_nat (length (selectedDevices d)) <? needed then resizeFlags (selectedDevices d) (Z.to_nat needed) else selectedDevices d in
  if subDeviceIndex <? Z.of_nat (length selected)
  then Ret (mkDevice (parsed d) (present d) (<[Z.to_nat subDeviceIndex := true]> selected) (filteredDevices d))
  else Undef.

(** What the service answers to a question for devices: for their number, and for them. *)
Record DevicesAnswer := mkDevices { countRet : Z; allCount : nat; devicesRet : Z; allDevices : list Z }.

(** The devices whose flag is set. *)
Fixpoint pick (selected : list bool) (all : list Z) : list Z :=
  match selected, all with
  | b :: selected, d :: all => if b : bool then d :: pick selected all else pick selected all
  | _, _ => []
  end.

(** [IcdL0Device::isZeAffinityMaskPresent]; the body runs once, even when it fails. *)
Definition deviceMaskPresent (d : IcdL0Device) (a : DevicesAnswer) : bool * IcdL0Device :=
  let d :=
    if parsed d then d
    else
      match selectedDevices d with
      | [] => mkDevice true (present d) [] (filteredDevices d)
      | _ =>
          if negb (countRet a =? ZE_RESULT_SUCCESS) || negb (devicesRet a =? ZE_RESULT_SUCCESS)
          then mkDevice true (present d) (selectedDevices d) (filteredDevices d)
          else
            let selected := resizeFlags (selectedDevices d) (allCount a) in
            mkDevice true true selected (filteredDevices d ++ pick selected (allDevices a))
      end in
  (present d, d).

(** The platform with its devices, by their handles. *)
Record Platform := mkPlatform { maskParsed : bool; maskPresent : bool; shownDevices : list Z; devices : gmap Z IcdL0Device }.

Definition newPlatform (devices : gmap Z IcdL0Device) : Platform := mkPlatform false false [] devices.

Definition set_device (p : Platform) (h : Z) (d : IcdL0Device) : Platform :=
  mkPlatform (maskParsed p) (maskPresent p) (shownDevices p) (<[h := d]> (devices p)).

Definition device_at (p : Platform) (h : Z) : res IcdL0Device := match devices p !! h with Some d => Ret d | None => Undef end.

(** One entry of the mask. *)
Definition selectEntry (a : DevicesAnswer) (s : list bool * Platform) (entry : text) : res (list bool * Platform) :=
  let (selected, p) := s in
  match split entry "." with
  | [] => Undef
  | sub0 :: subEntries =>
      index ← stoul sub0;
      let deviceIndex := u32 index in
      if deviceIndex <? Z.of_nat (allCount a) then
        let selected := <[Z.to_nat deviceIndex := true]> selected in
        match subEntries with
        | [] => Ret (selected, p)
        | sub1 :: _ =>
            subIndex ← stoul sub1;
            match allDevices a !! Z.to_nat deviceIndex with
            | None => Undef
            | Some h =>
                d ← device_at p h;
                d ← addSubDeviceToFilter d (u32 subIndex);
                Ret (selected, set_device p h d)
            end
        end
      else Ret (selected, p)
  end.

Fixpoint selectEntries (a : DevicesAnswer) (s : list bool * Platform) (entries : list text) : res (list bool * Platform) :=
  match entries with
  | [] => Ret s
  | e :: entries => s ← selectEntry a s e; selectEntries a s entries
  end.

(** [IcdL0Platform::isZeAffinityMaskPresent]; an empty variable is as none. *)
Definition platformMaskPresent (p : Platform) (zeAffinityMask : text) (a : DevicesAnswer) : res (bool * Platform) :=
  if maskParsed p then Ret (maskPresent p, p)
  else
    let done (p : Platform) := mkPlatform true (maskPresent p) (shownDevices p) (devices p) in
    match zeAffinityMask with
    | [] => Ret (maskPresent p, done p)
    | _ =>
        if negb (countRet a =? ZE_RESULT_SUCCESS) || negb (devicesRet a =? ZE_RESULT_SUCCESS) then Ret (maskPresent p, done p)
        else
          '(selected, p) ← selectEntries a (replicate (allCount a) false, p) (split zeAffinityMask ",");
          Ret (true, mkPlatform true true (shownDevices p ++ pick selected (allDevices a)) (devices p))
    end.

(** * Enumeration *)

(** The loop over the devices that are reported: one that has exactly one selected
    sub-device is replaced by it. *)
Fixpoint reportDevices (subAnswers : Z -> DevicesAnswer) (p : Platform) (l : list Z) : res (list Z * Platform) :=
  match l with
  | [] => Ret ([], p)
  | h :: l =>
      d ← device_at p h;
      let (deviceAffinityPresent, d) := deviceMaskPresent d (subAnswers h) in
      let p := set_device p h d in
      '(reported, p) ← reportDevices subAnswers p l;
      Ret (match filteredDevices d with
           | [sub] => if deviceAffinityPresent then sub else h
           | _ => h
           end :: reported, p)
  end.

(** [zeDeviceGet] of the platform, while the mask is present: the count and the devices that are
    stored ([None]: nothing is). *)
Definition zeDeviceGetFiltered (subAnswers : Z -> DevicesAnswer) (p : Platform) (pCount : Z) (phDevices : bool) : res (option Z * list Z * Platform) :=
  let numAvailableDevices := u32 (Z.of_nat (length (shownDevices p))) in
  if negb phDevices then Ret (Some numAvailableDevices, [], p)
  else
    '(reported, p) ← reportDevices subAnswers p (take (Z.to_nat (Z.min pCount numAvailableDevices)) (shownDevices p));
    Ret (None, reported, p).

(** [forwarded] is what the service answers when there is no mask. *)
Definition zeDeviceGet (zeAffinityMask : text) (a : DevicesAnswer) (subAnswers : Z -> DevicesAnswer) (forwarded : Z * option Z * list Z)
  (p : Platform) (pCount : Z) (phDevices : bool) : res (Z * option Z * list Z * Platform) :=
  '(isPresent, p) ← platformMaskPresent p zeAffinityMask a;
  if isPresent : bool then
    '(count, reported, p) ← zeDeviceGetFiltered subAnswers p pCount phDevices;
    Ret (ZE_RESULT_SUCCESS, count, reported, p)
  else Ret (forwarded, p).

Definition zeDeviceGetSubDevices (subAnswers : Z -> DevicesAnswer) (forwarded : Z * option Z * list Z) (p : Platform) (hDevice pCount : Z) (phDevices : bool)
  : res (Z * option Z * list Z * Platform) :=
  if hDevice =? 0 then Ret (forwarded, p)
  else
    d ← device_at p hDevice;
    let (isPresent, d) := deviceMaskPresent d (subAnswers hDevice) in
    let p := set_device p hDevice d in
    if isPresent then
      let n := u32 (Z.of_nat (length (filteredDevices d))) in
      let numAvailableDevices := if n =? 1 then 0 else n in
      if negb phDevices then Ret (ZE_RESULT_SUCCESS, Some numAvailableDevices, [], p)
      else Ret (ZE_RESULT_SUCCESS, None, take (Z.to_nat (Z.min pCount numAvailableDevices)) (filteredDevices d), p)
    else Ret (forwarded, p).

(** * Splitting undoes joining *)

Lemma splitFrom_plain d part s : Forall (fun c => c <> d) s -> splitFrom d part s = [rev part ++ s].
Proof.
  revert part. induction s as [|c s IH]; intros part Hs; cbn [splitFrom]; [by rewrite app_nil_r|].
  inversion Hs as [|? ? Hc Hs']; subst. rewrite (proj2 (Ascii.eqb_neq c d) Hc), IH by done. cbn [rev]. by rewrite <- app_assoc.
Qed.

Lemma splitFrom_first d part s rest : Forall (fun c => c <> d) s -> splitFrom d part (s ++ d :: rest) = (rev part ++ s) :: split rest d.
Proof.
  revert part. induction s as [|c s IH]; intros part Hs; cbn [splitFrom app].
  - rewrite Ascii.eqb_refl, app_nil_r. unfold split. by destruct rest.
  - inversion Hs as [|? ? Hc Hs']; subst. rewrite (proj2 (Ascii.eqb_neq c d) Hc), IH by done. cbn [rev]. by rewrite <- app_assoc.
Qed.

Lemma split_one d s : s <> [] -> Forall (fun c => c <> d) s -> split s d = [s].
Proof. intros Hne Hs. unfold split. destruct s as [|c s]; [done|]. by rewrite splitFrom_plain. Qed.

Lemma split_first d s rest : Forall (fun c => c <> d) s -> split (s ++ d :: rest) d = s :: split rest d.
Proof.
  intros Hs. transitivity (splitFrom d [] (s ++ d :: rest)); [unfold split; by destruct s|]. by rewrite splitFrom_first.
Qed.

(** Parts that do not contain the delimiter, and are not empty, come back. *)
Lemma split_joined d l : Forall (fun s => s <> [] /\ Forall (fun c => c <> d) s) l -> split (joined l [d]) d = l.
Proof.
  induction l as [|s [|s' l] IH]; intros Hl; [done| |]; inversion Hl as [|? ? [Hne Hs] Hl']; subst.
  - rewrite joined_one. by apply split_one.
  - rewrite joined_cons. cbn [app]. rewrite split_first by done. by rewrite IH.
Qed.

(** * Numerals *)

(** A decimal numeral without needless zeros, and its value. *)
Definition numeral (s : text) : bool :=
  forallb isdigit s && match s with [] => false | [_] => true | c :: _ => negb (Ascii.eqb c "0") end.

Definition number (s : text) : Z := digitsOf s 0.

Lemma isdigit_cases c : isdigit c = true -> c ∈ ["0"; "1"; "2"; "3"; "4"; "5"; "6"; "7"; "8"; "9"]%char.
Proof. intros H. destruct c as [[] [] [] [] [] [] [] []]; try (discriminate H); clear; apply (bool_decide_unpack _); vm_compute; exact I. Qed.

Lemma digit_value c : isdigit c = true -> digitIn 10 c = Some (code c - 48) /\ 0 <= code c - 48.
Proof.
  intros H. apply isdigit_cases in H. repeat (apply elem_of_cons in H as [->|H]; [vm_compute; split; [reflexivity|discriminate]|]).
  by apply elem_of_nil in H.
Qed.

Lemma readDigits_ok s : forall acc, forallb isdigit s = true -> readDigits 10 acc true s = Some (digitsOf s acc).
Proof.
  induction s as [|c s IH]; intros acc Hs; cbn [readDigits digitsOf forallb] in *; [done|]. bool_prop.
  rewrite (proj1 (digit_value c ltac:(done))), IH by done. by rewrite H.
Qed.

Lemma digitsOf_nonneg s : forall acc, 0 <= acc -> 0 <= digitsOf s acc.
Proof.
  induction s as [|c s IH]; intros acc Ha; cbn [digitsOf]; [done|]. destruct (isdigit c) eqn:Hc; [|done].
  apply IH. pose proof (proj2 (digit_value c Hc)). lia.
Qed.

Lemma number_nonneg s : 0 <= number s.
Proof. by apply digitsOf_nonneg. Qed.

Lemma stoul_numeral s : numeral s = true -> number s <= u64_max -> stoul s ⇓ number s.
Proof.
  intros Hs Hn. unfold numeral in Hs. apply andb_true_iff in Hs as [Hd Hz]. destruct s as [|c s]; [done|].
  assert (Hread : readDigits 10 0 false (c :: s) = Some (number (c :: s))).
  { unfold number. cbn [readDigits digitsOf forallb] in *. apply andb_true_iff in Hd as [Hc Hd].
    rewrite (proj1 (digit_value c Hc)), Hc. by apply readDigits_ok. }
  assert (Hok : readNumber (c :: s) = Some (number (c :: s)) -> stoul (c :: s) ⇓ number (c :: s)).
  { intros Hr. cbn [forallb] in Hd. apply andb_true_iff in Hd as [Hc _]. apply isdigit_cases in Hc.
    assert (Hs : stoul (c :: s) = match readNumber (c :: s) with None => Abort | Some n => if u64_max <? n then Abort else Ret n end).
    { clear -Hc. repeat (apply elem_of_cons in Hc as [->|Hc]; [reflexivity|]). by apply elem_of_nil in Hc. }
    rewrite Hs, Hr. by rewrite (proj2 (Z.ltb_ge _ _) Hn). }
  apply Hok. clear Hok Hn. cbn [forallb] in Hd. apply andb_true_iff in Hd as [Hc Hd]. apply isdigit_cases in Hc.
  destruct s as [|c' s].
  - repeat (apply elem_of_cons in Hc as [->|Hc]; [reflexivity|]). by apply elem_of_nil in Hc.
  - rewrite <- Hread. apply elem_of_cons in Hc as [->|Hc]; [discriminate Hz|].
    repeat (apply elem_of_cons in Hc as [->|Hc]; [reflexivity|]). by apply elem_of_nil in Hc.
Qed.

(** * Selecting *)

(** The elements at the positions that [f] selects. *)
Definition select (f : nat -> bool) (l : list Z) : list Z := concat (imap (fun i h => if f i then [h] else []) l).

Lemma select_cons f h l : select f (h :: l) = (if f O then [h] else []) ++ select (fun i => f (S i)) l.
Proof. reflexivity. Qed.

Lemma select_ext f g l : (forall i, (i < length l)%nat -> f i = g i) -> select f l = select g l.
Proof.
  revert f g. induction l as [|h l IH]; intros f g H; [done|]. rewrite !select_cons, (H O) by (cbn; lia). f_equal.
  apply IH. intros i Hi. apply H. cbn. lia.
Qed.

Lemma select_none l : select (fun _ => false) l = [].
Proof. induction l as [|h l IH]; [done|]. by rewrite select_cons, IH. Qed.

Lemma elem_of_select f l h : h ∈ select f l <-> exists i, l !! i = Some h /\ f i = true.
Proof.
  revert f. induction l as [|x l IH]; intros f.
  - cbn. split; [by intros ?%elem_of_nil|by intros (i & ? & _)].
  - rewrite select_cons, elem_of_app, IH. split.
    + intros [H|(i & Hi & Hf)]; [|by exists (S i)]. destruct (f O) eqn:Ef; [|by apply elem_of_nil in H].
      apply list_elem_of_singleton in H as ->. by exists O.
    + intros ([|i] & Hi & Hf); [|right; by exists i]. left. injection Hi as ->. rewrite Hf. by apply list_elem_of_singleton.
Qed.

Lemma select_NoDup f l : NoDup l -> NoDup (select f l).
Proof.
  revert f. induction l as [|h l IH]; intros f Hl; [constructor|]. apply NoDup_cons in Hl as [Hh Hl]. rewrite select_cons.
  destruct (f O); cbn [app]; [|by apply IH]. apply NoDup_cons. split; [|by apply IH]. intros (i & Hi & _)%elem_of_select.
  by apply Hh, list_elem_of_lookup_2 with i.
Qed.

Lemma pick_select flags l f : length flags = length l -> (forall i, (i < length l)%nat -> flags !! i = Some (f i)) -> pick flags l = select f l.
Proof.
  revert flags f. induction l as [|h l IH]; intros [|b flags] f Hl Hf; cbn in Hl; try done; [].
  rewrite select_cons. cbn [pick]. specialize (Hf O ltac:(cbn; lia)) as H0. injection H0 as ->.
  rewrite (IH flags (fun i => f (S i))); [by destruct (f O)|lia|]. intros i Hi. apply (Hf (S i)). cbn. lia.
Qed.

Lemma length_resizeFlags l n : length (resizeFlags l n) = n.
Proof. unfold resizeFlags. rewrite length_app, length_take, length_replicate. lia. Qed.

Definition flag (l : list bool) (i : nat) : bool := default false (l !! i).

Lemma lookup_resizeFlags l n i : (i < n)%nat -> resizeFlags l n !! i = Some (flag l i).
Proof.
  intros Hi. unfold resizeFlags, flag. destruct (decide (i < length l)%nat) as [Hl|Hl].
  - rewrite lookup_app_l by (rewrite length_take; lia). rewrite lookup_take_lt by done.
    destruct (lookup_lt_is_Some_2 l i Hl) as [b Hb]. by rewrite Hb.
  - rewrite lookup_app_r, lookup_ge_None_2 with (l := l) by (rewrite ?length_take; lia). apply lookup_replicate_2. rewrite length_take. lia.
Qed.

Lemma flag_resize l n i : (length l <= n)%nat -> flag (resizeFlags l n) i = flag l i.
Proof.
  intros Hn. unfold flag at 1. destruct (decide (i < n)%nat) as [Hi|Hi]; [by rewrite lookup_resizeFlags|].
  rewrite lookup_ge_None_2 by (rewrite length_resizeFlags; lia). unfold flag. by rewrite lookup_ge_None_2 by lia.
Qed.

Lemma flag_insert l i j : (i < length l)%nat -> flag (<[i := true]> l) j = bool_decide (i = j) || flag l j.
Proof.
  intros Hi. unfold flag. destruct (decide (i = j)) as [<-|Hne].
  - rewrite list_lookup_insert_eq by done. by rewrite bool_decide_eq_true_2.
  - rewrite list_lookup_insert_ne by done. by rewrite bool_decide_eq_false_2.
Qed.

(** A sub-device below the last index is added, and no other. *)
Lemma addSubDevice_ok d j : 0 <= j < u32_max -> exists s, addSubDeviceToFilter d j ⇓ mkDevice (parsed d) (present d) s (filteredDevices d) /\
  forall i, flag s i = bool_decide (Z.to_nat j = i) || flag (selectedDevices d) i.
Proof.
  intros Hj. unfold addSubDeviceToFilter. rewrite (u32_id (j + 1)) by (word_unfold; lia).
  set (s := if Z.of_nat (length (selectedDevices d)) <? j + 1 then resizeFlags (selectedDevices d) (Z.to_nat (j + 1)) else selectedDevices d).
  assert (Hs : (Z.to_nat j < length s)%nat /\ forall i, flag s i = flag (selectedDevices d) i).
  { unfold s. destruct (Z.ltb_spec (Z.of_nat (length (selectedDevices d))) (j + 1)).
    - rewrite length_resizeFlags. split; [lia|]. intros i. apply flag_resize. lia.
    - split; [lia|done]. }
  destruct Hs as [Hlen Hflag]. rewrite (proj2 (Z.ltb_lt j _)) by lia. eexists. split; [done|].
  intros i. by rewrite flag_insert, Hflag.
Qed.

(** * What a mask means *)

(** An entry of a mask: the number of a device, and perhaps of one of its sub-devices. *)
Record Entry := mkEntry { dev : text; sub : option text }.

Definition entryText (e : Entry) : text := joined (dev e :: match sub e with Some s => [s] | None => [] end) ["."%char].

Definition maskText (es : list Entry) : text := joined (map entryText es) [","%char].

Definition entry_ok (e : Entry) : Prop :=
  numeral (dev e) = true /\ number (dev e) <= u32_max /\ forall s, sub e = Some s -> numeral s = true /\ number s < u32_max.

Definition names (e : Entry) (i : nat) : bool := number (dev e) =? Z.of_nat i.
Definition namesSub (e : Entry) (i j : nat) : bool := names e i && match sub e with Some s => number s =? Z.of_nat j | None => false end.

Definition chosen (es : list Entry) (i : nat) : bool := existsb (fun e => names e i) es.
Definition chosenSub (es : list Entry) (i j : nat) : bool := existsb (fun e => namesSub e i j) es.

(** The answers of the service to both questions. *)
Definition answered (a : DevicesAnswer) : Prop :=
  countRet a = ZE_RESULT_SUCCESS /\ devicesRet a = ZE_RESULT_SUCCESS /\ length (allDevices a) = allCount a /\ NoDup (allDevices a) /\
  Z.of_nat (allCount a) < W32.

(** For sub-devices their number is enough. *)
Definition answered_subs (a : DevicesAnswer) : Prop :=
  countRet a = ZE_RESULT_SUCCESS /\ devicesRet a = ZE_RESULT_SUCCESS /\ length (allDevices a) = allCount a /\ Z.of_nat (allCount a) < W32.

(** What stands for device [h] at position [i]: its only chosen sub-device, or itself. *)
Definition standsFor (es : list Entry) (subs : list Z) (i : nat) (h : Z) : Z :=
  match select (chosenSub es i) subs with [s] => s | _ => h end.

(** The devices that a mask shows. *)
Definition visible (es : list Entry) (a : DevicesAnswer) (subAnswers : Z -> DevicesAnswer) : list Z :=
  concat (imap (fun i h => if chosen es i then [standsFor es (allDevices (subAnswers h)) i h] else []) (allDevices a)).

Lemma numeral_plain s c : numeral s = true -> isdigit c = false -> s <> [] /\ Forall (fun x => x <> c) s.
Proof.
  unfold numeral. intros [Hd Hn]%andb_true_iff Hc. split; [by destruct s|]. apply Forall_forall. intros x Hx ->.
  rewrite forallb_forall in Hd. rewrite (Hd c) in Hc; [done|]. by apply list_elem_of_In.
Qed.

Lemma entryText_split e : entry_ok e -> split (entryText e) "." = dev e :: match sub e with Some s => [s] | None => [] end.
Proof.
  intros (Hd & _ & Hs). apply split_joined. constructor; [by apply numeral_plain|]. destruct (sub e) as [s|]; [|constructor].
  constructor; [|constructor]. by apply numeral_plain; [apply Hs|].
Qed.

Lemma entryText_plain e : entry_ok e -> entryText e <> [] /\ Forall (fun c => c <> ","%char) (entryText e).
Proof.
  intros (Hd & _ & Hs). destruct (numeral_plain _ "," Hd eq_refl) as [Hne Hf]. unfold entryText. destruct (sub e) as [s|].
  - rewrite joined_cons, joined_one. split; [by destruct (dev e)|]. apply Forall_app. split; [done|]. constructor; [done|].
    by apply numeral_plain; [apply Hs|].
  - by rewrite joined_one.
Qed.

Lemma maskText_split es : Forall entry_ok es -> split (maskText es) "," = map entryText es.
Proof.
  intros Hes. apply split_joined. induction Hes as [|e es He _ IH]; constructor; [by apply entryText_plain|done].
Qed.

(** * The mask is what is read *)

Section Mask.
Context (a : DevicesAnswer) (Ha : answered a).

(** What is known after the entries [es]. *)
Record knows (es : list Entry) (s : list bool * Platform) : Prop := {
  kn_length : length s.1 = allCount a;
  kn_flags : forall i, (i < allCount a)%nat -> s.1 !! i = Some (chosen es i);
  kn_platform : maskParsed s.2 = false /\ maskPresent s.2 = false /\ shownDevices s.2 = [];
  kn_devices : forall i h, allDevices a !! i = Some h -> exists flags, devices s.2 !! h = Some (mkDevice false false flags []) /\
    (flags = [] \/ exists j, flag flags j = true) /\ forall j, flag flags j = chosenSub es i j
}.

Lemma chosen_snoc es e i : chosen (es ++ [e]) i = names e i || chosen es i.
Proof. unfold chosen. rewrite existsb_app. cbn. by rewrite orb_false_r, orb_comm. Qed.

Lemma chosenSub_snoc es e i j : chosenSub (es ++ [e]) i j = namesSub e i j || chosenSub es i j.
Proof. unfold chosenSub. rewrite existsb_app. cbn. by rewrite orb_false_r, orb_comm. Qed.

Lemma names_at e i : 0 <= number (dev e) -> names e i = bool_decide (Z.to_nat (number (dev e)) = i).
Proof.
  intros H. unfold names. destruct (Z.eqb_spec (number (dev e)) (Z.of_nat i)) as [E|E].
  - rewrite bool_decide_eq_true_2; [done|]. lia.
  - rewrite bool_decide_eq_false_2; [done|]. lia.
Qed.

Lemma flags_after es e selected : length selected = allCount a -> (forall i, (i < allCount a)%nat -> selected !! i = Some (chosen es i)) ->
  let n := Z.to_nat (number (dev e)) in
  forall i, (i < allCount a)%nat -> (if number (dev e) <? Z.of_nat (allCount a) then <[n := true]> selected else selected) !! i = Some (chosen (es ++ [e]) i).
Proof.
  intros Hl Hf n i Hi. pose proof (number_nonneg (dev e)) as Hp. rewrite chosen_snoc, names_at by done. fold n.
  destruct (Z.ltb_spec (number (dev e)) (Z.of_nat (allCount a))) as [Hn|Hn].
  - destruct (decide (n = i)) as [<-|Hne].
    + rewrite list_lookup_insert_eq by (unfold n; lia). by rewrite bool_decide_eq_true_2.
    + rewrite list_lookup_insert_ne, bool_decide_eq_false_2 by done. by apply Hf.
  - rewrite bool_decide_eq_false_2 by (unfold n; lia). by apply Hf.
Qed.

Lemma selectEntry_ok es e s : knows es s -> entry_ok e -> exists s', selectEntry a s (entryText e) ⇓ s' /\ knows (es ++ [e]) s'.
Proof.
  intros [Hl Hf Hp Hd] He. pose proof He as (Hnum & Hmax & Hsub). destruct s as [selected p]. cbn [fst snd] in *.
  unfold selectEntry. rewrite entryText_split by done. pose proof (number_nonneg (dev e)) as Hn0.
  rewrite stoul_numeral by (try done; word_unfold; lia). cbn [mbind res_bind]. rewrite u32_id by (word_unfold; lia).
  pose proof (flags_after es e selected Hl Hf) as Hflags. cbn zeta in Hflags.
  destruct (Z.ltb_spec (number (dev e)) (Z.of_nat (allCount a))) as [Hlt|Hge].
  - destruct (sub e) as [s|] eqn:Es.
    + destruct (Hsub s eq_refl) as [Hns Hms]. pose proof (number_nonneg s) as Hs0.
      rewrite stoul_numeral by (try done; word_unfold; lia). cbn [mbind res_bind].
      destruct Ha as (_ & _ & Hlen & Hnd & _). destruct (lookup_lt_is_Some_2 (allDevices a) (Z.to_nat (number (dev e)))) as [h Hh]; [lia|].
      rewrite Hh. destruct (Hd _ _ Hh) as (flags & Hdev & _ & Hfl). unfold device_at. rewrite Hdev. cbn [mbind res_bind].
      rewrite (u32_id (number s)) by (word_unfold; lia).
      destruct (addSubDevice_ok (mkDevice false false flags []) (number s)) as (flags' & -> & Hfl'); [lia|]. cbn [mbind res_bind].
      eexists. split; [done|]. split; cbn [fst snd set_device maskParsed maskPresent shownDevices devices]; [by rewrite length_insert|done|done|].
      intros i h' Hh'. destruct (decide (h' = h)) as [->|Hne].
      * rewrite lookup_insert_eq. eexists. split; [done|]. split.
        { right. exists (Z.to_nat (number s)). by rewrite Hfl', bool_decide_eq_true_2. }
        intros j. rewrite Hfl'. cbn [selectedDevices].
        assert (i = Z.to_nat (number (dev e))) as -> by (by eapply NoDup_lookup). rewrite Hfl, chosenSub_snoc. unfold namesSub.
        rewrite names_at, (bool_decide_eq_true_2 (Z.to_nat (number (dev e)) = _)), Es by done. cbn [andb]. f_equal.
        destruct (Z.eqb_spec (number s) (Z.of_nat j)); [rewrite bool_decide_eq_true_2|rewrite bool_decide_eq_false_2]; (done || lia).
      * rewrite lookup_insert_ne by done. destruct (Hd _ _ Hh') as (fl & Hdv & He' & Hj). exists fl. split; [done|]. split; [done|]. intros j.
        rewrite Hj, chosenSub_snoc. unfold namesSub. rewrite names_at by done. rewrite bool_decide_eq_false_2; [done|]. intros <-. congruence.
    + eexists. split; [done|]. split; cbn [fst snd]; [by rewrite length_insert|done|done|]. intros i h Hh.
      destruct (Hd _ _ Hh) as (fl & Hdv & He' & Hj). exists fl. split; [done|]. split; [done|]. intros j. rewrite chosenSub_snoc. unfold namesSub. by rewrite Es, andb_false_r.
  - eexists. split; [done|]. split; cbn [fst snd]; [done|done|done|]. intros i h Hh. destruct (Hd _ _ Hh) as (fl & Hdv & He' & Hj). exists fl.
    split; [done|]. split; [done|]. intros j. rewrite chosenSub_snoc. unfold namesSub. rewrite names_at by done.
    destruct Ha as (_ & _ & Hlen & _). pose proof (lookup_lt_Some _ _ _ Hh). rewrite bool_decide_eq_false_2 by lia. done.
Qed.

Lemma selectEntries_ok es : forall seen s, knows seen s -> Forall entry_ok es ->
  exists s', selectEntries a s (map entryText es) ⇓ s' /\ knows (seen ++ es) s'.
Proof.
  induction es as [|e es IH]; intros seen s Hs Hes; cbn [map selectEntries].
  - exists s. by rewrite app_nil_r.
  - inversion Hes as [|? ? He Hes']; subst. destruct (selectEntry_ok seen e s Hs He) as (s1 & -> & H1). cbn [mbind res_bind].
    destruct (IH (seen ++ [e]) s1 H1 Hes') as (s' & Hr & Hk). exists s'. split; [done|]. by rewrite <- app_assoc in Hk.
Qed.

(** Devices that were never asked for a mask. *)
Definition untouched (p : Platform) : Prop :=
  maskParsed p = false /\ maskPresent p = false /\ shownDevices p = [] /\ forall h, h ∈ allDevices a -> devices p !! h = Some newDevice.

(** Afterwards: a device has its flags, or its chosen sub-devices once it was asked. *)
Context (subAnswers : Z -> DevicesAnswer) (Hsubs : forall h, h ∈ allDevices a -> answered_subs (subAnswers h)) (es : list Entry).

Definition device_ok (i : nat) (h : Z) (d : IcdL0Device) : Prop :=
  if parsed d then
    (present d = true <-> exists j, chosenSub es i j = true) /\ filteredDevices d = select (chosenSub es i) (allDevices (subAnswers h))
  else
    present d = false /\ filteredDevices d = [] /\ (selectedDevices d = [] \/ exists j, flag (selectedDevices d) j = true) /\
    forall j, flag (selectedDevices d) j = chosenSub es i j.

Record settled (p : Platform) : Prop := {
  se_platform : maskParsed p = true /\ maskPresent p = true /\ shownDevices p = select (chosen es) (allDevices a);
  se_devices : forall i h, allDevices a !! i = Some h -> exists d, devices p !! h = Some d /\ device_ok i h d
}.

Lemma platformMask_ok p : Forall entry_ok es -> es <> [] -> untouched p \/ settled p ->
  exists p', platformMaskPresent p (maskText es) a ⇓ (true, p') /\ settled p'.
Proof.
  intros Hes Hne [(Hp1 & Hp2 & Hp3 & Hdev)|Hs].
  2: { exists p. unfold platformMaskPresent. destruct (se_platform _ Hs) as (-> & -> & _). done. }
  unfold platformMaskPresent. rewrite Hp1. destruct (maskText es) as [|c m] eqn:Em.
  { exfalso. pose proof (maskText_split es Hes) as Hs. rewrite Em in Hs. by destruct es. }
  rewrite <- Em. destruct Ha as (-> & -> & Hlen & _). cbn [negb orb]. rewrite maskText_split by done.
  destruct (selectEntries_ok es [] (replicate (allCount a) false, p)) as (s' & -> & [Hl Hf Hp Hd]); [|done|].
  - split; cbn [fst snd]; [by rewrite length_replicate|intros i Hi; by apply lookup_replicate_2|done|].
    intros i h Hh. exists []. split; [by apply Hdev, list_elem_of_lookup_2 with i|]. split; [by left|done].
  - destruct s' as [selected p']. cbn [mbind res_bind fst snd app] in *. eexists. split; [done|].
    split; cbn [maskParsed maskPresent shownDevices devices].
    + split; [done|]. split; [done|]. destruct Hp as (_ & _ & ->). cbn [app]. apply pick_select; [congruence|]. rewrite Hlen. apply Hf.
    + intros i h Hh. destruct (Hd i h Hh) as (flags & Hdv & Hfl). eexists. split; [exact Hdv|]. by cbn.
Qed.

(** ** Asking a device *)

Lemma deviceMask_ok i h d : h ∈ allDevices a -> device_ok i h d ->
  exists d', deviceMaskPresent d (subAnswers h) = (present d', d') /\ parsed d' = true /\ device_ok i h d'.
Proof.
  intros Hh Hd. unfold deviceMaskPresent. destruct (parsed d) eqn:Ep; [by exists d|].
  unfold device_ok in Hd. rewrite Ep in Hd. destruct Hd as (Hpr & Hfi & Hne & Hfl).
  destruct (Hsubs h Hh) as (-> & -> & Hlen & _). cbn [negb orb]. destruct (selectedDevices d) as [|b l] eqn:El.
  - eexists. split; [done|]. split; [done|]. unfold device_ok. cbn [parsed present filteredDevices]. rewrite Hpr, Hfi. split.
    + split; [done|]. intros [j Hj]. by rewrite <- Hfl in Hj.
    + rewrite (select_ext _ (fun _ => false)); [by rewrite select_none|]. intros j _. by rewrite <- Hfl.
  - eexists. split; [done|]. split; [done|]. unfold device_ok. cbn [parsed present filteredDevices]. rewrite Hfi. split.
    + split; [|done]. intros _. destruct Hne as [|[j Hj]]; [done|]. exists j. by rewrite <- Hfl.
    + cbn [app]. apply pick_select; [by rewrite length_resizeFlags|]. rewrite Hlen. intros j Hj. by rewrite lookup_resizeFlags, Hfl.
Qed.

Lemma set_device_settled p i h d : settled p -> allDevices a !! i = Some h -> device_ok i h d -> settled (set_device p h d).
Proof.
  intros [Hp Hd] Hh Hok. split; [done|]. intros i' h' Hh'. cbn [set_device devices]. destruct (decide (h' = h)) as [->|Hne].
  - rewrite lookup_insert_eq. exists d. split; [done|]. destruct Ha as (_ & _ & _ & Hnd & _).
    by rewrite (NoDup_lookup _ _ _ _ Hnd Hh' Hh).
  - rewrite lookup_insert_ne by done. by apply Hd.
Qed.

(** What is reported for a device. *)
Definition stands (h r : Z) : Prop := exists i, allDevices a !! i = Some h /\ r = standsFor es (allDevices (subAnswers h)) i h.

Lemma stands_fun h r r' : stands h r -> stands h r' -> r = r'.
Proof.
  intros (i & Hi & ->) (i' & Hi' & ->). destruct Ha as (_ & _ & _ & Hnd & _). by rewrite (NoDup_lookup _ _ _ _ Hnd Hi Hi').
Qed.

Lemma stands_lists l r r' : Forall2 stands l r -> Forall2 stands l r' -> r = r'.
Proof.
  intros H. revert r'. induction H as [|h x l r Hx _ IH]; intros r' H'; inversion H' as [|? y ? r2 Hy H2]; subst; [done|].
  f_equal; [by apply (stands_fun h)|by apply IH].
Qed.

Lemma visible_stands : Forall2 stands (select (chosen es) (allDevices a)) (visible es a subAnswers).
Proof.
  unfold visible, select. assert (H : forall l k, (forall i h, l !! i = Some h -> allDevices a !! (k + i)%nat = Some h) ->
    Forall2 stands (concat (imap (fun i h => if chosen es (k + i) then [h] else []) l))
      (concat (imap (fun i h => if chosen es (k + i) then [standsFor es (allDevices (subAnswers h)) (k + i) h] else []) l))).
  { induction l as [|h l IH]; intros k Hl; cbn [imap concat]; [constructor|]. apply Forall2_app.
    - specialize (Hl O h eq_refl). rewrite Nat.add_0_r in *. destruct (chosen es k); constructor; [by exists k|constructor].
    - specialize (IH (S k)). cbn [compose]. rewrite (imap_ext _ (fun i h => if chosen es (S k + i) then [h] else [])) by (intros; cbn; by rewrite Nat.add_succ_r).
      rewrite (imap_ext (_ ∘ S) (fun i h => if chosen es (S k + i) then [standsFor es (allDevices (subAnswers h)) (S k + i) h] else []))
        by (intros; cbn; by rewrite Nat.add_succ_r).
      apply IH. intros i h' Hi. specialize (Hl (S i) h' Hi). by rewrite Nat.add_succ_r in Hl. }
  apply (H (allDevices a) O). done.
Qed.

Lemma reportDevices_ok l : forall p, settled p -> (forall h, h ∈ l -> h ∈ allDevices a) ->
  exists reported p', reportDevices subAnswers p l ⇓ (reported, p') /\ settled p' /\ Forall2 stands l reported.
Proof.
  induction l as [|h l IH]; intros p Hp Hl; cbn [reportDevices]; [by exists [], p|].
  destruct (list_elem_of_lookup_1 _ _ (Hl h (list_elem_of_here _ _))) as [i Hi]. destruct (se_devices _ Hp i h Hi) as (d & Hd & Hok).
  unfold device_at. rewrite Hd. cbn [mbind res_bind].
  destruct (deviceMask_ok i h d (Hl h (list_elem_of_here _ _)) Hok) as (d' & -> & Hpa & Hok'). cbn [mbind res_bind].
  destruct (IH (set_device p h d')) as (reported & p' & -> & Hp' & Hr); [by apply (set_device_settled p i)|intros x Hx; apply Hl; by constructor|].
  cbn [mbind res_bind]. do 2 eexists. split; [done|]. split; [done|]. constructor; [|done]. exists i. split; [done|].
  unfold device_ok in Hok'. rewrite Hpa in Hok'. destruct Hok' as [Hpr ->]. unfold standsFor.
  destruct (select _ _) as [|s [|? ?]] eqn:Es; [done| |done]. assert (Hs : s ∈ select (chosenSub es i) (allDevices (subAnswers h))) by (rewrite Es; constructor).
  apply elem_of_select in Hs as (j & _ & Hj). by rewrite (proj2 Hpr (ex_intro _ j Hj)).
Qed.

End Mask.

(** * What applications see *)

Lemma length_select_le f l : (length (select f l) <= length l)%nat.
Proof.
  revert f. induction l as [|h l IH]; intros f; [done|]. rewrite select_cons, length_app. specialize (IH (fun i => f (S i))).
  destruct (f O); cbn; lia.
Qed.

Lemma min_count (A : Type) (l : list A) n : is_u32 n -> Z.of_nat (length l) < W32 ->
  take (Z.to_nat (Z.min n (u32 (Z.of_nat (length l))))) l = take (Z.to_nat n) l.
Proof.
  intros Hn Hl. rewrite u32_id by (word_unfold; lia). destruct (Z.le_ge_cases n (Z.of_nat (length l))).
  - by rewrite Z.min_l.
  - rewrite Z.min_r, Nat2Z.id by done. rewrite !take_ge; [done| |done]. lia.
Qed.

(** C39: the mask selects devices, for every number of calls.  Whether the mask was read before or
    not, the client tells the number of devices that the mask names and reports them in the
    order of the service, a device with exactly one named sub-device as that one; the
    state that the next call finds is of the same kind. *)
Theorem mask_shows_selected_devices a subAnswers es p forwarded pCount : answered a -> (forall h, h ∈ allDevices a -> answered_subs (subAnswers h)) ->
  Forall entry_ok es -> es <> [] -> untouched a p \/ settled a subAnswers es p -> is_u32 pCount ->
  (exists p', zeDeviceGet (maskText es) a subAnswers forwarded p pCount false
       ⇓ (ZE_RESULT_SUCCESS, Some (Z.of_nat (length (visible es a subAnswers))), [], p') /\ settled a subAnswers es p') /\
  (exists p', zeDeviceGet (maskText es) a subAnswers forwarded p pCount true
       ⇓ (ZE_RESULT_SUCCESS, None, take (Z.to_nat pCount) (visible es a subAnswers), p') /\ settled a subAnswers es p').
Proof.
  intros Ha Hsubs Hes Hne Hp Hn. destruct (platformMask_ok a Ha subAnswers es p Hes Hne Hp) as (p1 & Hm & Hp1).
  unfold zeDeviceGet. rewrite Hm. cbn [mbind res_bind]. destruct (se_platform _ _ _ _ Hp1) as (_ & _ & Hshown).
  pose proof (visible_stands a subAnswers es) as Hv.
  assert (Hlt : Z.of_nat (length (select (chosen es) (allDevices a))) < W32).
  { pose proof (length_select_le (chosen es) (allDevices a)). destruct Ha as (_ & _ & Hl & _ & Hb). lia. }
  unfold zeDeviceGetFiltered. cbn [negb]. rewrite Hshown. split.
  - rewrite u32_id by (word_unfold; lia). rewrite (Forall2_length _ _ _ Hv). by exists p1.
  - rewrite min_count by done.
    destruct (reportDevices_ok a Ha subAnswers Hsubs es (take (Z.to_nat pCount) (select (chosen es) (allDevices a))) p1) as (r & p2 & -> & Hp2 & Hr); [done| |].
    { intros h Hh. apply elem_of_take in Hh as (i & Hh & _). apply list_elem_of_lookup_2, elem_of_select in Hh as (j & Hj & _).
      by apply list_elem_of_lookup_2 with j. }
    cbn [mbind res_bind]. exists p2. split; [|done]. do 2 f_equal. f_equal. eapply (stands_lists a Ha subAnswers es); [exact Hr|].
    by apply Forall2_take.
Qed.

Definition namesSubs (es : list Entry) (i : nat) : bool :=
  existsb (fun e => names e i && match sub e with Some _ => true | None => false end) es.

Lemma namesSubs_true es i : namesSubs es i = true <-> exists j, chosenSub es i j = true.
Proof.
  unfold namesSubs, chosenSub. setoid_rewrite existsb_exists. split.
  - intros (e & He & Hn). destruct (sub e) as [s|] eqn:Es; [|by rewrite andb_false_r in Hn]. exists (Z.to_nat (number s)), e. split; [done|].
    unfold namesSub. rewrite Es. pose proof (number_nonneg s). rewrite andb_true_r in Hn. rewrite Hn, Z2Nat.id, Z.eqb_refl by done. done.
  - intros (j & e & He & Hn). exists e. split; [done|]. unfold namesSub in Hn. apply andb_true_iff in Hn as [-> Hn].
    by destruct (sub e).
Qed.

(** A device of which sub-devices are named shows those, unless it is one: then that one
    stands for the device, which has none.  The service is asked for the sub-devices of the others. *)
Theorem mask_shows_selected_subdevices a subAnswers es p forwarded pCount i h : answered a -> (forall h, h ∈ allDevices a -> answered_subs (subAnswers h)) ->
  settled a subAnswers es p -> is_u32 pCount -> allDevices a !! i = Some h -> h <> 0 ->
  let subs := select (chosenSub es i) (allDevices (subAnswers h)) in
  let shown := match subs with [_] => [] | _ => subs end in
  exists p', settled a subAnswers es p' /\
    zeDeviceGetSubDevices subAnswers forwarded p h pCount false ⇓
      (if namesSubs es i then (ZE_RESULT_SUCCESS, Some (Z.of_nat (length shown)), []) else forwarded, p') /\
    zeDeviceGetSubDevices subAnswers forwarded p h pCount true ⇓
      (if namesSubs es i then (ZE_RESULT_SUCCESS, None, take (Z.to_nat pCount) shown) else forwarded, p').
Proof.
  intros Ha Hsubs Hp Hn Hi Hne subs shown. assert (Hh : h ∈ allDevices a) by (by apply list_elem_of_lookup_2 with i).
  destruct (se_devices _ _ _ _ Hp i h Hi) as (d & Hd & Hok). destruct (deviceMask_ok a subAnswers Hsubs es i h d Hh Hok) as (d' & Hmask & Hpa & Hok').
  exists (set_device p h d'). split; [by apply (set_device_settled a Ha subAnswers es p i)|].
  unfold zeDeviceGetSubDevices. rewrite (proj2 (Z.eqb_neq h 0)) by done. unfold device_at. rewrite Hd. cbn [mbind res_bind]. rewrite Hmask.
  unfold device_ok in Hok'. rewrite Hpa in Hok'. destruct Hok' as [Hpr Hfi]. rewrite Hfi. fold subs.
  assert (Hb : present d' = namesSubs es i) by (apply eq_true_iff_eq; by rewrite namesSubs_true). rewrite Hb.
  destruct (namesSubs es i); [|done].
  assert (Hlt : Z.of_nat (length subs) < W32).
  { pose proof (length_select_le (chosenSub es i) (allDevices (subAnswers h))) as Hle. fold subs in Hle. destruct (Hsubs h Hh) as (_ & _ & Hl & Hb'). lia. }
  rewrite (u32_id (Z.of_nat (length subs))) by (word_unfold; lia). unfold shown. destruct (Z.eqb_spec (Z.of_nat (length subs)) 1) as [H1|H1].
  - destruct subs as [|s [|? ?]]; cbn in H1; [lia| |lia]. cbn [negb]. rewrite Z.min_r by (word_unfold; lia). by rewrite take_nil.
  - cbn [negb]. assert (Hshown : match subs with [_] => [] | _ => subs end = subs) by (by destruct subs as [|s [|? ?]]).
    rewrite Hshown. split; [done|]. rewrite <- (min_count Z subs pCount Hn Hlt). by rewrite (u32_id (Z.of_nat (length subs))) by (word_unfold; lia).
Qed.

(** ** Where the mask fails *)

(** A question that fails once makes the client forget the mask: later calls are forwarded. *)
Theorem failed_question_drops_mask a a' subAnswers mask forwarded p pCount b : mask <> [] -> maskParsed p = false -> maskPresent p = false ->
  countRet a <> ZE_RESULT_SUCCESS -> exists p', zeDeviceGet mask a subAnswers forwarded p pCount b ⇓ (forwarded, p') /\
    forall forwarded' pCount' b', zeDeviceGet mask a' subAnswers forwarded' p' pCount' b' ⇓ (forwarded', p').
Proof.
  intros Hm Hp1 Hp2 Hr. unfold zeDeviceGet, platformMaskPresent. rewrite Hp1. destruct mask as [|c mask]; [done|].
  rewrite (proj2 (Z.eqb_neq _ _) Hr), Hp2. cbn. eexists. split; [done|]. done.
Qed.

Module Example.

Definition two : DevicesAnswer := mkDevices ZE_RESULT_SUCCESS 2 ZE_RESULT_SUCCESS [100; 200].
Definition subsOf (h : Z) : DevicesAnswer := mkDevices ZE_RESULT_SUCCESS 2 ZE_RESULT_SUCCESS [h + 1; h + 2].
Definition start : Platform := newPlatform (<[100 := newDevice]> (<[200 := newDevice]> ∅)).
Definition forwarded : Z * option Z * list Z := (ZE_RESULT_SUCCESS, None, [100; 200]).

Definition ask (mask : text) (pCount : Z) : res (Z * option Z * list Z) :=
  x ← zeDeviceGet mask two subsOf forwarded start pCount true; Ret (fst x).

Definition txt (s : String.string) : text := String.list_ascii_of_string s.

(** The second device, by its second sub-device. *)
Definition second : list Entry := [mkEntry (txt "1") (Some (txt "1"))].

Lemma two_answered : answered two.
Proof. repeat split; try done; try (by vm_compute). cbn. apply (bool_decide_unpack _). by vm_compute. Qed.

Lemma second_ok : Forall entry_ok second.
Proof.
  constructor; [|constructor]. split; [by vm_compute|]. split; [by vm_compute|]. cbn [second sub]. intros s [= <-]. by vm_compute.
Qed.

Lemma mask_shows_selected_devices_witness :
  exists p', zeDeviceGet (maskText second) two subsOf forwarded start 4 true ⇓ (ZE_RESULT_SUCCESS, None, [202], p').
Proof.
  assert (Hu : untouched two start \/ settled two subsOf second start).
  { left. repeat split; try done. intros h Hh. apply elem_of_cons in Hh as [->|Hh]; [reflexivity|]. apply list_elem_of_singleton in Hh as ->. reflexivity. }
  destruct (mask_shows_selected_devices two subsOf second start forwarded 4 two_answered
    ltac:(intros h Hh; by repeat split) second_ok ltac:(done) Hu ltac:(by unfold is_u32; lia)) as [_ (p' & Hp & _)].
  exists p'. exact Hp.
Defined.

Lemma mask_shows_selected_subdevices_witness : exists p p',
  settled two subsOf [mkEntry (txt "0") None; mkEntry (txt "1") (Some (txt "1"))] p /\
  zeDeviceGetSubDevices subsOf forwarded p 200 4 false ⇓ (ZE_RESULT_SUCCESS, Some 0, [], p').
Proof.
  set (es := [mkEntry (txt "0") None; mkEntry (txt "1") (Some (txt "1"))]).
  set (p := mkPlatform true true [100; 200] (<[100 := newDevice]> (<[200 := mkDevice false false [false; true] []]> ∅))).
  exists p. assert (Hs : settled two subsOf es p).
  2: { destruct (mask_shows_selected_subdevices two subsOf es p forwarded 4 1 200 two_answered
         ltac:(intros h Hh; by repeat split) Hs ltac:(by unfold is_u32; lia) eq_refl ltac:(done)) as (p' & _ & Hp & _). exists p'. split; [exact Hs|exact Hp]. }
  split; [by repeat split|]. intros [|[|i]] h Hh; cbn in Hh; [injection Hh as <-|injection Hh as <-|done].
  - exists newDevice. split; [reflexivity|]. split; [done|]. split; [done|]. split; [by left|]. intros j. by cbn.
  - exists (mkDevice false false [false; true] []). split; [reflexivity|]. split; [done|]. split; [done|]. split; [right; by exists 1%nat|].
    intros [|[|j]]; [by vm_compute|by vm_compute|].
    transitivity (1 =? Z.of_nat (S (S j))); [symmetry; apply Z.eqb_neq; lia|]. cbn [chosenSub existsb es]. unfold namesSub, names, sub, dev.
    change (number (txt "1")) with 1. by rewrite andb_false_r, orb_false_r.
Defined.

(** The count of the application is not corrected when there are fewer devices. *)
Example count_stays_too_large : ask (txt "1") 5 ⇓ (ZE_RESULT_SUCCESS, None, [200]).
Proof. vm_compute. reflexivity. Qed.

(** The largest index of a sub-device wraps the size that is asked for, and the flag is
    stored outside of the vector. *)
Example last_subdevice_is_undefined : ask (txt "0.4294967295") 2 = Undef /\ ask (txt "0.-1") 2 = Undef.
Proof. split; vm_compute; reflexivity. Qed.

(** An empty entry has no parts, but the first one is read. *)
Example empty_entry_is_undefined : ask (txt "0,,1") 2 = Undef.
Proof. vm_compute. reflexivity. Qed.

(** What is not a number ends the call by an exception. *)
Example no_number_aborts : ask (txt "gpu0") 2 = Abort /\ ask (txt "0.") 2 ⇓ (ZE_RESULT_SUCCESS, None, [100]).
Proof. split; vm_compute; reflexivity. Qed.

(** Numbers may be octal or hexadecimal. *)
Example other_bases : ask (txt "0x1") 2 ⇓ (ZE_RESULT_SUCCESS, None, [200]) /\ ask (txt "01") 2 ⇓ (ZE_RESULT_SUCCESS, None, [200]).
Proof. split; vm_compute; reflexivity. Qed.

End Example.
