(* ===== verification/Callbacks.v ===== *)
(** Callbacks of OpenCL applications: the service registers a function of its own with the
    driver, with a context that remembers the application's (service/service.cpp), and puts
    what is called into the ring of callbacks (shared/rpc.h); a thread of the client takes
    it out and calls the application (client/icd/icd_ocl.cpp).

    An address of a context or of wrapped user data is an argument of what allocates it.
    The ring is shared by both sides (Ring.v, Channel.v). *)

From stdpp Require Import gmap relations.
From S2P Require Import Prelude.
From S2P Require Import Ring.
From S2P Require Import Channel.
Local Open Scope Z_scope.

Inductive CallbackKind :=
| ClCreateContext | ClCreateContextFromType | ClSetContextDestructorCallback | ClSetMemObjectDestructorCallback
| ClBuildProgram | ClCompileProgram | ClLinkProgram | ClSetProgramReleaseCallback | ClSetEventCallback | ClEnqueueSVMFree.

#[export] Instance CallbackKind_eq_dec : EqDecision CallbackKind.
Proof. solve_decision. Defined.

Definition messageTypeRpcOcl : Z := 1.

Definition messageSubtype (k : CallbackKind) : Z :=
  match k with
  | ClCreateContext => 4 | ClCreateContextFromType => 5 | ClSetContextDestructorCallback => 7 | ClSetMemObjectDestructorCallback => 8
  | ClBuildProgram => 17 | ClCompileProgram => 18 | ClLinkProgram => 19 | ClSetProgramReleaseCallback => 21
  | ClSetEventCallback => 96 | ClEnqueueSVMFree => 108
  end.

Definition callId (k : CallbackKind) : RpcCallId := mkCallId messageTypeRpcOcl (messageSubtype k).

(** * The service

    The contexts that are allocated, by address; [contextNotify] is the one that the
    client's context owns (0: none). *)
Record OclCallbacks := mkCallbacks { contexts : gmap Z CallbackIdT; contextNotify : Z; ring : TypedRing CallbackIdT }.

Definition set_contexts (s : OclCallbacks) (m : gmap Z CallbackIdT) : OclCallbacks := mkCallbacks m (contextNotify s) (ring s).
Definition set_callbackRing (s : OclCallbacks) (r : TypedRing CallbackIdT) : OclCallbacks := mkCallbacks (contexts s) (contextNotify s) r.

(** What the driver is given: the function, if any, and the address of the context. *)
Record Registration := mkReg { wrapper : option CallbackKind; user_data : Z }.

Definition newContext (s : OclCallbacks) (a : Z) (id : CallbackIdT) : OclCallbacks := set_contexts s (<[a := id]> (contexts s)).

(** ** Handlers, up to the call of the driver *)

Definition clSetEventCallbackHandler (s : OclCallbacks) (a event command_exec_callback_type pfn_notify data : Z) : Registration * OclCallbacks :=
  (mkReg (Some ClSetEventCallback) a,
   newContext s a (mkCallbackId pfn_notify event data (callId ClSetEventCallback) (u32 command_exec_callback_type))).

Definition clSetContextDestructorCallbackHandler (s : OclCallbacks) (a context pfn_notify data : Z) : Registration * OclCallbacks :=
  (mkReg (Some ClSetContextDestructorCallback) a,
   newContext s a (mkCallbackId pfn_notify context data (callId ClSetContextDestructorCallback) 0)).

Definition clSetMemObjectDestructorCallbackHandler (s : OclCallbacks) (a memobj pfn_notify data : Z) : Registration * OclCallbacks :=
  (mkReg (Some ClSetMemObjectDestructorCallback) a,
   newContext s a (mkCallbackId pfn_notify memobj data (callId ClSetMemObjectDestructorCallback) 0)).

Definition clSetProgramReleaseCallbackHandler (s : OclCallbacks) (a program pfn_notify data : Z) : Registration * OclCallbacks :=
  (mkReg (Some ClSetProgramReleaseCallback) a,
   newContext s a (mkCallbackId pfn_notify program data (callId ClSetProgramReleaseCallback) 0)).

(** The function depends on the application's function, the context on its data. *)
Definition clBuildProgramHandler (s : OclCallbacks) (a program pfn_notify data : Z) : Registration * OclCallbacks :=
  (mkReg (if pfn_notify =? 0 then None else Some ClBuildProgram) (if data =? 0 then 0 else a),
   if data =? 0 then s else newContext s a (mkCallbackId pfn_notify program data (callId ClBuildProgram) 0)).

Definition clCompileProgramHandler (s : OclCallbacks) (a program pfn_notify data : Z) : Registration * OclCallbacks :=
  (mkReg (if pfn_notify =? 0 then None else Some ClCompileProgram) (if data =? 0 then 0 else a),
   if data =? 0 then s else newContext s a (mkCallbackId pfn_notify program data (callId ClCompileProgram) 0)).

Definition clLinkProgramHandler (s : OclCallbacks) (a pfn_notify data : Z) : Registration * OclCallbacks :=
  (mkReg (if pfn_notify =? 0 then None else Some ClLinkProgram) (if data =? 0 then 0 else a),
   if data =? 0 then s else newContext s a (mkCallbackId pfn_notify 0 data (callId ClLinkProgram) 0)).

Definition clEnqueueSVMFreeHandler (s : OclCallbacks) (a command_queue pfn_notify data : Z) : Registration * OclCallbacks :=
  (mkReg (Some ClEnqueueSVMFree) a,
   newContext s a (mkCallbackId pfn_notify command_queue data (callId ClEnqueueSVMFree) 0)).

(** [clCreateContext] and [clCreateContextFromType]: what the driver is given, and what
    follows its answer [ret].  The client's context gives up the context it had. *)
Definition clCreateContextRegistration (k : CallbackKind) (s : OclCallbacks) (a pfn_notify data : Z) : Registration * OclCallbacks :=
  if pfn_notify =? 0 then (mkReg None 0, s)
  else (mkReg (Some k) a, newContext s a (mkCallbackId pfn_notify 0 data (callId k) 0)).

Definition assignToCallbackContextForContextNotify (s : OclCallbacks) (a : Z) : OclCallbacks :=
  mkCallbacks (if contextNotify s =? 0 then contexts s else delete (contextNotify s) (contexts s)) a (ring s).

Definition set_handle (id : CallbackIdT) (h : Z) : CallbackIdT := mkCallbackId (fptr id) h (cb_data id) (cb_src id) (notificationFlags id).

Definition clCreateContextFinished (s : OclCallbacks) (reg : Registration) (ret : Z) : OclCallbacks :=
  match wrapper reg with
  | None => assignToCallbackContextForContextNotify s 0
  | Some _ =>
      let s := match contexts s !! user_data reg with
               | Some id => newContext s (user_data reg) (set_handle id ret)
               | None => s
               end in
      assignToCallbackContextForContextNotify s (user_data reg)
  end.

(** ** What the driver calls

    The pointers of [clEnqueueSVMFree] that are to be freed are a result; a context that is
    not allocated is not to be read. *)

Definition pushCompletedCallbackId (s : OclCallbacks) (id : CallbackIdT) : res OclCallbacks :=
  '(r, _) ← push (ring s) id false; Ret (set_callbackRing s r).

Definition readContext (s : OclCallbacks) (a : Z) : res CallbackIdT := match contexts s !! a with Some id => Ret id | None => Undef end.

Definition deleteContext (s : OclCallbacks) (a : Z) : OclCallbacks := set_contexts s (delete a (contexts s)).

(** The body of six functions, which are the same up to a log. *)
Definition CallbackWrapper (s : OclCallbacks) (a : Z) : res OclCallbacks :=
  id ← readContext s a; pushCompletedCallbackId (deleteContext s a) id.

Definition clSetEventCallbackCallbackWrapper : OclCallbacks -> Z -> res OclCallbacks := CallbackWrapper.
Definition clSetContextDestructorCallbackWrapper : OclCallbacks -> Z -> res OclCallbacks := CallbackWrapper.
Definition clSetMemObjectDestructorCallbackWrapper : OclCallbacks -> Z -> res OclCallbacks := CallbackWrapper.
Definition clBuildProgramCallbackWrapper : OclCallbacks -> Z -> res OclCallbacks := CallbackWrapper.
Definition clCompileProgramCallbackWrapper : OclCallbacks -> Z -> res OclCallbacks := CallbackWrapper.
Definition clSetProgramReleaseCallbackWrapper : OclCallbacks -> Z -> res OclCallbacks := CallbackWrapper.

Definition clLinkProgramCallbackWrapper (s : OclCallbacks) (a program : Z) : res OclCallbacks :=
  id ← readContext s a; pushCompletedCallbackId (deleteContext s a) (set_handle id program).

Definition clCreateContextCallbackWrapper (s : OclCallbacks) (a : Z) : res OclCallbacks :=
  id ← readContext s a; pushCompletedCallbackId s id.

(** [svm_pointers]: [None] for null; [queueKnown]: the queue's context could be asked for. *)
Definition clEnqueueSVMFreeCallbackWrapper (s : OclCallbacks) (a : Z) (svm_pointers : option (list Z)) (queueKnown : bool) : res (list Z * OclCallbacks) :=
  id ← readContext s a;
  let s := deleteContext s a in
  if negb (fptr id =? 0) then s ← pushCompletedCallbackId s id; Ret ([], s)
  else
    match svm_pointers with
    | Some l => Ret (if queueKnown then l else [], s)
    | None => Ret ([], s)
    end.

Definition callWrapper (s : OclCallbacks) (k : CallbackKind) (a program : Z) (svm_pointers : option (list Z)) (queueKnown : bool) : res (list Z * OclCallbacks) :=
  match k with
  | ClCreateContext | ClCreateContextFromType => s ← clCreateContextCallbackWrapper s a; Ret ([], s)
  | ClLinkProgram => s ← clLinkProgramCallbackWrapper s a program; Ret ([], s)
  | ClEnqueueSVMFree => clEnqueueSVMFreeCallbackWrapper s a svm_pointers queueKnown
  | ClSetEventCallback => s ← clSetEventCallbackCallbackWrapper s a; Ret ([], s)
  | ClSetContextDestructorCallback => s ← clSetContextDestructorCallbackWrapper s a; Ret ([], s)
  | ClSetMemObjectDestructorCallback => s ← clSetMemObjectDestructorCallbackWrapper s a; Ret ([], s)
  | ClBuildProgram => s ← clBuildProgramCallbackWrapper s a; Ret ([], s)
  | ClCompileProgram => s ← clCompileProgramCallbackWrapper s a; Ret ([], s)
  | ClSetProgramReleaseCallback => s ← clSetProgramReleaseCallbackWrapper s a; Ret ([], s)
  end.

(** * The client *)

(** [UserDataLinkProgram] and [UserDataClEnqueueSVMFree]. *)
Record UserData := mkUserData { parentContext : Z; numSvmPointers : Z; svmPointers : Z; originalUserData : Z }.

(** A call of the application's function; [extra] is the state of the event, or the number
    of pointers and their array. *)
Record AppCall := mkCall { ac_kind : CallbackKind; ac_function : Z; ac_object : Z; ac_data : Z; extra : list Z }.

Inductive HandlerState := NotEnabled | Running | Finished.

#[export] Instance HandlerState_eq_dec : EqDecision HandlerState.
Proof. solve_decision. Defined.

(** [references]: of which objects a reference was taken ([true]) or given up. *)
Record OclClient := mkOclClient { handler : HandlerState; userData : gmap Z UserData; calls : list AppCall; references : list (Z * bool) }.

Definition newClient : OclClient := mkOclClient NotEnabled ∅ [] [].

(** It is started once. *)
Definition enableCallbacksHandler (c : OclClient) : OclClient :=
  mkOclClient (if decide (handler c = NotEnabled) then Running else handler c) (userData c) (calls c) (references c).

Definition wrapUserData (c : OclClient) (a : Z) (u : UserData) : Z * OclClient :=
  if originalUserData u =? 0 then (0, c) else (a, mkOclClient (handler c) (<[a := u]> (userData c)) (calls c) (references c)).

Definition addCall (c : OclClient) (call : AppCall) : OclClient := mkOclClient (handler c) (userData c) (calls c ++ [call]) (references c).
Definition reference (c : OclClient) (object : Z) (taken : bool) : OclClient := mkOclClient (handler c) (userData c) (calls c) (references c ++ [(object, taken)]).

(** The wrapped data are read and deleted. *)
Definition unwrapUserData (c : OclClient) (a : Z) : res (UserData * OclClient) :=
  match userData c !! a with
  | Some u => Ret (u, mkOclClient (handler c) (delete a (userData c)) (calls c) (references c))
  | None => Undef
  end.

(** [static_cast<cl_int>] of 32 bits. *)
Definition asInt (v : Z) : Z := if v <? 2147483648 then v else v - W32.

(** The switch over the subtype. *)
Definition kindOfSubtype (n : Z) : option CallbackKind :=
  find (fun k => messageSubtype k =? n)
    [ClCreateContext; ClCreateContextFromType; ClSetEventCallback; ClLinkProgram; ClSetContextDestructorCallback;
     ClSetMemObjectDestructorCallback; ClBuildProgram; ClCompileProgram; ClSetProgramReleaseCallback; ClEnqueueSVMFree].

Section client.
(** The objects of the client that stand for those of the service. *)
Context (translate : Z -> Z).

Definition runCallback (c : OclClient) (id : CallbackIdT) : res OclClient :=
  let object := translate (cb_handle id) in
  match kindOfSubtype (call_subtype (cb_src id)) with
  | None => Ret c
  | Some ClSetEventCallback => Ret (addCall c (mkCall ClSetEventCallback (fptr id) object (cb_data id) [asInt (notificationFlags id)]))
  | Some ClLinkProgram =>
      '(u, c) ← unwrapUserData c (cb_data id);
      Ret (addCall c (mkCall ClLinkProgram (fptr id) object (originalUserData u) []))
  | Some ClEnqueueSVMFree =>
      '(u, c) ← unwrapUserData c (cb_data id);
      Ret (addCall c (mkCall ClEnqueueSVMFree (fptr id) object (originalUserData u) [numSvmPointers u; svmPointers u]))
  | Some (ClSetContextDestructorCallback as k) | Some (ClSetMemObjectDestructorCallback as k) =>
      Ret (reference (addCall c (mkCall k (fptr id) object (cb_data id) [])) object false)
  | Some k => Ret (addCall c (mkCall k (fptr id) object (cb_data id) []))
  end.

(** [popCompletedCallbackId] *)
Definition takeCallback (r : TypedRing CallbackIdT) : res (CallbackIdT * TypedRing CallbackIdT) :=
  if peekEmpty r then Ret (emptyCallback, r) else id ← peekHead r; Ret (id, fst (pop r)).

(** One turn of [handleCallbacks], after the wait has returned, for whatever reason: its
    result is only logged. *)
Definition handleCallback (c : OclClient) (r : TypedRing CallbackIdT) : res (OclClient * TypedRing CallbackIdT) :=
  '(id, r) ← takeCallback r;
  if fptr id =? 0 then Ret (mkOclClient Finished (userData c) (calls c) (references c), r)
  else c ← runCallback c id; Ret (c, r).

(** * Both sides *)

(** A call of the application that registers a function; [rq_svm] are the number of pointers
    and their array, [rq_parent] the context that a program is linked in. *)
Record Request := mkRequest {
  rq_kind : CallbackKind; rq_object : Z; rq_pfn : Z; rq_data : Z; rq_flags : Z; rq_svm : Z * Z; rq_parent : Z }.

(** What the client does before the call: [w] is the address of wrapped data. *)
Definition clientBefore (c : OclClient) (rq : Request) (w : Z) : Z * OclClient :=
  match rq_kind rq with
  | ClSetContextDestructorCallback | ClSetMemObjectDestructorCallback | ClSetProgramReleaseCallback | ClSetEventCallback =>
      (rq_data rq, enableCallbacksHandler c)
  | k =>
      let c := if rq_pfn rq =? 0 then c else enableCallbacksHandler c in
      match k with
      | ClLinkProgram => wrapUserData c w (mkUserData (rq_parent rq) 0 0 (rq_data rq))
      | ClEnqueueSVMFree => wrapUserData c w (mkUserData 0 (fst (rq_svm rq)) (snd (rq_svm rq)) (rq_data rq))
      | _ => (rq_data rq, c)
      end
  end.

(** And after it, whatever the driver said. *)
Definition clientAfter (c : OclClient) (rq : Request) : OclClient :=
  match rq_kind rq with
  | ClSetContextDestructorCallback | ClSetMemObjectDestructorCallback => reference c (translate (rq_object rq)) true
  | _ => c
  end.

Definition serviceHandler (s : OclCallbacks) (rq : Request) (a data : Z) : Registration * OclCallbacks :=
  match rq_kind rq with
  | ClSetEventCallback => clSetEventCallbackHandler s a (rq_object rq) (rq_flags rq) (rq_pfn rq) data
  | ClSetContextDestructorCallback => clSetContextDestructorCallbackHandler s a (rq_object rq) (rq_pfn rq) data
  | ClSetMemObjectDestructorCallback => clSetMemObjectDestructorCallbackHandler s a (rq_object rq) (rq_pfn rq) data
  | ClSetProgramReleaseCallback => clSetProgramReleaseCallbackHandler s a (rq_object rq) (rq_pfn rq) data
  | ClBuildProgram => clBuildProgramHandler s a (rq_object rq) (rq_pfn rq) data
  | ClCompileProgram => clCompileProgramHandler s a (rq_object rq) (rq_pfn rq) data
  | ClLinkProgram => clLinkProgramHandler s a (rq_pfn rq) data
  | ClEnqueueSVMFree => clEnqueueSVMFreeHandler s a (rq_object rq) (rq_pfn rq) data
  | k => clCreateContextRegistration k s a (rq_pfn rq) data
  end.

(** The service, the client and what the driver has yet to call. *)
Record World := mkWorld { service : OclCallbacks; client : OclClient; driver : list Registration }.

(** One request: [a] and [w] are new addresses of the service and of the client.  A context
    that is created is the object. *)
Definition register (s : World) (rq : Request) (a w : Z) (accepted : bool) : World :=
  let (data, c) := clientBefore (client s) rq w in
  let (reg, sv) := serviceHandler (service s) rq a data in
  let sv := match rq_kind rq with
            | ClCreateContext | ClCreateContextFromType => clCreateContextFinished sv reg (if accepted then rq_object rq else 0)
            | _ => sv
            end in
  mkWorld sv (clientAfter c rq) (if accepted && bool_decide (is_Some (wrapper reg)) then driver s ++ [reg] else driver s).

End client.

(** * Every callback is called once *)

(** Requests with a function that is to be called once, and with data where the code needs
    them.  The function of a context is for errors, and can be called any number of times. *)
Definition proper (rq : Request) : bool :=
  negb (rq_pfn rq =? 0) &&
  match rq_kind rq with
  | ClCreateContext | ClCreateContextFromType => false
  | ClBuildProgram | ClCompileProgram | ClLinkProgram | ClEnqueueSVMFree => negb (rq_data rq =? 0)
  | _ => true
  end.

(** What identifies a call: the function, the data of the application and the kind. *)
Definition Essence : Type := (CallbackKind * Z * Z).
Definition requested (rq : Request) : Essence := (rq_kind rq, rq_pfn rq, rq_data rq).
Definition called (c : AppCall) : Essence := (ac_kind c, ac_function c, ac_data c).

(** ** What a notification stands for *)

Definition kindOf (id : CallbackIdT) : option CallbackKind := kindOfSubtype (call_subtype (cb_src id)).

Definition wrapped (k : CallbackKind) : bool := match k with ClLinkProgram | ClEnqueueSVMFree => true | _ => false end.

Definition wraps (id : CallbackIdT) : list Z := match kindOf id with Some k => if wrapped k then [cb_data id] else [] | None => [] end.

Definition essence (m : gmap Z UserData) (id : CallbackIdT) : Essence :=
  match kindOf id with
  | Some k => (k, fptr id, if wrapped k then from_option originalUserData 0 (m !! cb_data id) else cb_data id)
  | None => (ClCreateContext, 0, 0)
  end.

(** The ledger: the accepted requests, and the callbacks that the service could not put into
    the ring. *)
Record Ledger := mkLedger { acceptedRequests : list Essence; lostCallbacks : list Essence }.

Definition accept (g : Ledger) (rq : Request) : Ledger := mkLedger (acceptedRequests g ++ [requested rq]) (lostCallbacks g).

(** What is lost when the driver calls [reg]: nothing, unless the ring is full. *)
Definition dropped (s : World) (reg : Registration) : list Essence :=
  if full (ring (service s))
  then from_option (fun id => [essence (userData (client s)) id]) [] (contexts (service s) !! user_data reg)
  else [].

Definition lose (g : Ledger) (l : list Essence) : Ledger := mkLedger (acceptedRequests g) (lostCallbacks g ++ l).

Section delivery.
Context (translate : Z -> Z).

(** Runs of both sides and the driver.  The driver calls what it has when it likes, in any
    order, whether there is room in the ring or not; the client's thread, while it runs,
    takes its turn whenever its wait returns, whether there is a callback or not. *)
Inductive step : World * Ledger -> World * Ledger -> Prop :=
| step_register s g rq a w (accepted : bool) : proper rq = true -> a <> 0 -> contexts (service s) !! a = None ->
    w <> 0 -> userData (client s) !! w = None ->
    step (s, g) (register translate s rq a w accepted, if accepted then accept g rq else g)
| step_call s g i reg k program svm known freed sv : driver s !! i = Some reg -> wrapper reg = Some k ->
    callWrapper (service s) k (user_data reg) program svm known ⇓ (freed, sv) ->
    step (s, g) (mkWorld sv (client s) (delete i (driver s)), lose g (dropped s reg))
| step_handle s g c r : handler (client s) = Running ->
    handleCallback translate (client s) (ring (service s)) ⇓ (c, r) ->
    step (s, g) (mkWorld (set_callbackRing (service s) r) c (driver s), g).

(** ** The invariant *)

Definition valid (m : gmap Z UserData) (id : CallbackIdT) : Prop :=
  fptr id <> 0 /\ (exists k, kindOf id = Some k /\ k <> ClCreateContext /\ k <> ClCreateContextFromType) /\
  forall w, w ∈ wraps id -> is_Some (m !! w).

Definition holds (s : OclCallbacks) (reg : Registration) (id : CallbackIdT) : Prop :=
  wrapper reg = kindOf id /\ contexts s !! user_data reg = Some id.

Record delivered (s : World) (g : Ledger) (ids : list CallbackIdT) : Prop := {
  dl_ring : inv (ring (service s)) /\ batchCounter (ring (service s)) = 0;
  dl_holds : Forall2 (holds (service s)) (driver s) ids;
  dl_addresses : NoDup (map user_data (driver s));
  dl_valid : Forall (valid (userData (client s))) (queue (ring (service s)) ++ ids);
  dl_wraps : NoDup (concat (map wraps (queue (ring (service s)) ++ ids)));
  dl_handler : queue (ring (service s)) ++ ids <> [] -> handler (client s) <> NotEnabled;
  dl_all : acceptedRequests g ≡ₚ map called (calls (client s)) ++ map (essence (userData (client s))) (queue (ring (service s)) ++ ids) ++ lostCallbacks g
}.

Lemma kindOf_callId k p h d f : kindOf (mkCallbackId p h d (callId k) f) = Some k.
Proof. by destruct k. Qed.

Lemma set_handle_same id h : kindOf (set_handle id h) = kindOf id /\ wraps (set_handle id h) = wraps id /\
  (forall m, essence m (set_handle id h) = essence m id) /\ (forall m, valid m id -> valid m (set_handle id h)).
Proof. done. Qed.

(** ** A request *)

Lemma register_proper s rq a w accepted : proper rq = true -> w <> 0 ->
  exists id c, let s' := register translate s rq a w accepted in
    service s' = newContext (service s) a id /\ client s' = c /\
    driver s' = (if accepted then driver s ++ [mkReg (Some (rq_kind rq)) a] else driver s) /\
    kindOf id = Some (rq_kind rq) /\ fptr id = rq_pfn rq /\ handler c = handler (enableCallbacksHandler (client s)) /\ calls c = calls (client s) /\
    (if wrapped (rq_kind rq) then cb_data id = w /\ exists u, originalUserData u = rq_data rq /\ userData c = <[w := u]> (userData (client s))
     else cb_data id = rq_data rq /\ userData c = userData (client s)).
Proof.
  unfold proper. intros Hp Hw%Z.eqb_neq. apply andb_true_iff in Hp as [Hf%negb_true_iff Hd].
  unfold register, clientBefore, serviceHandler, clientAfter. destruct (rq_kind rq) eqn:Ek; try done;
    rewrite ?Hf; unfold wrapUserData; cbn [originalUserData]; try (apply negb_true_iff in Hd; rewrite ?Hd);
    unfold clSetEventCallbackHandler, clSetContextDestructorCallbackHandler, clSetMemObjectDestructorCallbackHandler,
      clSetProgramReleaseCallbackHandler, clBuildProgramHandler, clCompileProgramHandler, clLinkProgramHandler, clEnqueueSVMFreeHandler;
    rewrite ?Hf, ?Hd, ?Hw; cbn [wrapper]; rewrite (bool_decide_eq_true_2 (is_Some _)), andb_true_r by (by eexists);
    eexists _, _; cbn zeta; repeat (split; [reflexivity|]);
    first [reflexivity|eexists; split; [|reflexivity]; reflexivity].
Qed.

(** A request adds its notification to what the driver has. *)
Lemma register_delivered s g ids rq a w accepted : delivered s g ids -> proper rq = true -> a <> 0 -> contexts (service s) !! a = None ->
  w <> 0 -> userData (client s) !! w = None ->
  exists ids', delivered (register translate s rq a w accepted) (if accepted then accept g rq else g) ids'.
Proof.
  intros [Hr Hh Hn Hv Hw Hrun Hall] Hp Ha0 Ha Hw0 Hwn.
  destruct (register_proper s rq a w accepted Hp Hw0) as (id & c & Hs & Hc & Hd & Hk & Hpf & Hhc & Hca & Hdata).
  set (s' := register translate s rq a w accepted) in *. clearbody s'.
  assert (Hold : forall x, valid (userData (client s)) x -> valid (userData c) x /\ essence (userData c) x = essence (userData (client s)) x).
  { intros x (H1 & H2 & H3). assert (Hsame : forall y, is_Some (userData (client s) !! y) -> userData c !! y = userData (client s) !! y).
    { intros y [u Hy]. destruct (wrapped (rq_kind rq)); [|by destruct Hdata as [_ ->]].
      destruct Hdata as (_ & u' & _ & ->). apply lookup_insert_ne. intros ->. congruence. }
    split; [split_and!; [done|done|]; intros y Hy; rewrite Hsame; by apply H3|]. unfold essence, wraps in *.
    destruct (kindOf x) as [k|]; [|done]. destruct (wrapped k); [|done]. rewrite Hsame; [done|]. apply H3. by apply list_elem_of_singleton. }
  assert (Hvalid : Forall (valid (userData c)) (queue (ring (service s)) ++ ids)).
  { eapply Forall_impl; [exact Hv|]. intros x Hx. by apply Hold. }
  assert (Hess : map (essence (userData c)) (queue (ring (service s)) ++ ids) = map (essence (userData (client s))) (queue (ring (service s)) ++ ids)).
  { clear -Hold Hv. induction Hv as [|x m Hx _ IH]; [done|]. cbn [map]. f_equal; [|exact IH]. by apply Hold. }
  assert (Hregs : Forall2 (holds (service s')) (driver s) ids).
  { rewrite Hs. clear -Hh Ha. induction Hh as [|reg x d m [H1 H2] _ IH]; constructor; [|exact IH]. split; [done|]. cbn.
    rewrite lookup_insert_ne; [done|]. intros ->. congruence. }
  assert (Hring : ring (service s') = ring (service s)) by (by rewrite Hs).
  assert (Hnew : valid (userData c) id /\ essence (userData c) id = requested rq /\ forall x, x ∈ wraps id -> x = w).
  { assert (Hkind : rq_kind rq <> ClCreateContext /\ rq_kind rq <> ClCreateContextFromType /\ fptr id <> 0).
    { unfold proper in Hp. apply andb_true_iff in Hp as [Hz Hk']. bool_prop. rewrite Hpf. by destruct (rq_kind rq). }
    destruct Hkind as (Hk1 & Hk2 & Hf0). unfold valid, essence, wraps, requested. rewrite Hk, Hpf in *.
    destruct (wrapped (rq_kind rq)).
    - destruct Hdata as (-> & u & Hu & ->). rewrite lookup_insert_eq. cbn. rewrite Hu. split_and!; [done|by eexists| |done|].
      + intros x Hx. apply list_elem_of_singleton in Hx as ->. rewrite lookup_insert_eq. by eexists.
      + intros x Hx. by apply list_elem_of_singleton in Hx.
    - destruct Hdata as (-> & ->). split_and!; [done|by eexists| |done|]; by intros x ?%elem_of_nil. }
  destruct Hnew as (Hvid & Heid & Hwid).
  assert (Hfresh : forall x, x ∈ concat (map wraps (queue (ring (service s)) ++ ids)) -> x <> w).
  { intros x Hx ->. apply list_elem_of_In, in_concat in Hx as (m & Hm & Hx). apply list_elem_of_In in Hx.
    apply list_elem_of_In, list_elem_of_fmap in Hm as (y & -> & Hy). rewrite Forall_forall in Hv.
    destruct (Hv y Hy) as (_ & _ & H3). destruct (H3 w Hx). congruence. }
  exists (if accepted then ids ++ [id] else ids). split; rewrite ?Hring, ?Hc, ?Hd; [exact Hr| | | | | |].
  - destruct accepted; [|exact Hregs]. apply Forall2_app; [exact Hregs|]. constructor; [|constructor]. split; [by rewrite Hk|].
    rewrite Hs. cbn. apply lookup_insert_eq.
  - destruct accepted; [|exact Hn]. rewrite map_app. apply NoDup_app. split; [exact Hn|]. split; [|by apply NoDup_singleton].
    intros x Hx Hy. apply list_elem_of_singleton in Hy as ->. apply list_elem_of_fmap in Hx as (reg & Heq & Hin). cbn in Heq.
    apply list_elem_of_lookup in Hin as [i Hi]. destruct (Forall2_lookup_l _ _ _ _ _ Hh Hi) as (y & _ & _ & Hy). congruence.
  - destruct accepted; [|exact Hvalid]. rewrite app_assoc. apply Forall_app. by split; [|constructor].
  - destruct accepted; [|exact Hw]. rewrite app_assoc, map_app, concat_app. apply NoDup_app. split; [exact Hw|].
    cbn [map concat]. rewrite app_nil_r. split; [intros x Hx ->%Hwid; by apply Hfresh in Hx|].
    unfold wraps. destruct (kindOf id) as [k|]; [|constructor]. destruct (wrapped k); [apply NoDup_singleton|constructor].
  - intros _. rewrite Hhc. unfold enableCallbacksHandler. cbn. by destruct (handler (client s)).
  - rewrite Hca. destruct accepted; [|by rewrite Hess]. cbn [accept acceptedRequests lostCallbacks].
    rewrite (app_assoc _ ids), map_app, Hess, Hall. cbn [map]. rewrite Heid. solve_Permutation.
Qed.

(** ** A call of the driver *)

Lemma push_unbatched (r : TypedRing CallbackIdT) id : inv r -> batchCounter r = 0 ->
  exists r' ok, push r id false ⇓ (r', ok) /\ inv r' /\ batchCounter r' = 0 /\ queue r' = queue r ++ (if full r then [] else [id]).
Proof.
  intros Hi Hb. destruct (push_correct r id false Hi) as (r' & ok & Hp & -> & Hi' & _ & _ & Hq). exists r', (negb (full r)).
  destruct (full r); cbn [negb] in *; [subst r'; by rewrite app_nil_r|]. split; [done|]. split; [done|].
  unfold pushed in Hq. cbn [andb] in Hq. destruct Hq as [Hq Hpe].
  unfold pending in Hq. rewrite Hb, slots_nil in Hq. split; [|exact Hq]. pose proof (pending_length r' Hi') as Hl. by rewrite Hpe in Hl.
Qed.

Lemma callWrapper_ok s m k a id program svm known : contexts s !! a = Some id -> kindOf id = Some k -> valid m id ->
  inv (ring s) -> batchCounter (ring s) = 0 ->
  exists r' id', callWrapper s k a program svm known ⇓ ([], mkCallbacks (delete a (contexts s)) (contextNotify s) r') /\
    queue r' = queue (ring s) ++ (if full (ring s) then [] else [id']) /\ inv r' /\ batchCounter r' = 0 /\ (id' = id \/ id' = set_handle id program).
Proof.
  intros Ha Hk (Hf & (k' & Hk' & Hn1 & Hn2) & _) Hi Hb. rewrite Hk in Hk'. injection Hk' as <-.
  destruct (push_unbatched (ring s) id Hi Hb) as (r1 & o1 & Hp1 & Hi1 & Hb1 & Hq1).
  destruct (push_unbatched (ring s) (set_handle id program) Hi Hb) as (r2 & o2 & Hp2 & Hi2 & Hb2 & Hq2).
  unfold callWrapper, clSetEventCallbackCallbackWrapper, clSetContextDestructorCallbackWrapper, clSetMemObjectDestructorCallbackWrapper, clBuildProgramCallbackWrapper, clCompileProgramCallbackWrapper, clSetProgramReleaseCallbackWrapper,
    CallbackWrapper, clLinkProgramCallbackWrapper, clEnqueueSVMFreeCallbackWrapper, readContext, pushCompletedCallbackId.
  rewrite Ha. cbn [mbind res_bind deleteContext set_contexts ring]. rewrite Hp1, Hp2, (proj2 (Z.eqb_neq _ _) Hf). cbn [negb mbind res_bind].
  destruct k; try done; first [exists r1, id; split; [reflexivity|]; by split_and!; [| | |left]|exists r2, (set_handle id program); split; [reflexivity|]; by split_and!; [| | |right]].
Qed.

Lemma concat_wraps_perm l l' : l ≡ₚ l' -> concat (map wraps l) ≡ₚ concat (map wraps l').
Proof. intros H. rewrite <- !flat_map_concat_map. by apply Permutation_flat_map. Qed.

(** The registrations that are left after one is called. *)
Lemma forget_registration s ids i reg m n r : Forall2 (holds s) (driver m) ids -> NoDup (map user_data (driver m)) -> driver m !! i = Some reg ->
  Forall2 (holds (mkCallbacks (delete (user_data reg) (contexts s)) n r)) (delete i (driver m)) (delete i ids) /\ NoDup (map user_data (delete i (driver m))).
Proof.
  intros Hh Hn Hreg.
  assert (Hnd : NoDup (map user_data (reg :: delete i (driver m)))).
  { eapply NoDup_Permutation_proper; [|exact Hn]. apply Permutation_map. symmetry. by apply delete_Permutation. }
  cbn [map] in Hnd. apply NoDup_cons in Hnd as [Hd Hnd]. split; [|exact Hnd].
  pose proof (Forall2_delete _ _ _ i Hh) as Hdel. clear -Hd Hdel. induction Hdel as [|x y lx ly [H1 H2] _ IH]; constructor.
  - split; [done|]. cbn. rewrite lookup_delete_ne; [done|]. cbn [map] in Hd. set_solver.
  - apply IH. cbn [map] in Hd. set_solver.
Qed.

Lemma call_delivered s g ids i reg k program svm known : delivered s g ids -> driver s !! i = Some reg -> wrapper reg = Some k ->
  exists sv ids', callWrapper (service s) k (user_data reg) program svm known ⇓ ([], sv) /\
    delivered (mkWorld sv (client s) (delete i (driver s))) (lose g (dropped s reg)) ids'.
Proof.
  intros [[Hi Hb] Hh Hn Hv Hw Hrun Hall] Hreg Hk.
  destruct (Forall2_lookup_l _ _ _ _ _ Hh Hreg) as (id & Hid & Hwr & Hctx). rewrite Hk in Hwr. symmetry in Hwr.
  assert (Hvid : valid (userData (client s)) id).
  { rewrite Forall_forall in Hv. apply Hv, elem_of_app. right. by apply list_elem_of_lookup_2 with i. }
  destruct (callWrapper_ok (service s) (userData (client s)) k (user_data reg) id program svm known Hctx Hwr Hvid Hi Hb)
    as (r' & id' & Hcall & Hq & Hi' & Hb' & Hid').
  destruct (forget_registration (service s) ids i reg s (contextNotify (service s)) r' Hh Hn Hreg) as [Hregs Hnd].
  assert (Hsame : wraps id' = wraps id /\ (forall m, essence m id' = essence m id) /\ valid (userData (client s)) id')
    by (destruct Hid' as [-> | ->]; done).
  destruct Hsame as (Hwid & Heid & Hvid'). unfold dropped. rewrite Hctx. cbn [from_option].
  set (rest := queue (ring (service s)) ++ delete i ids).
  assert (Hold : queue (ring (service s)) ++ ids ≡ₚ id :: rest) by (rewrite (delete_Permutation ids i id Hid) at 1; unfold rest; solve_Permutation).
  assert (Hnew : queue r' ++ delete i ids ≡ₚ (if full (ring (service s)) then [] else [id']) ++ rest) by (rewrite Hq; unfold rest; solve_Permutation).
  assert (Hne : queue (ring (service s)) ++ ids <> []) by (intros E; rewrite E in Hold; by apply Permutation_nil_l in Hold).
  rewrite Hold in Hv. apply Forall_cons in Hv as [_ Hv]. rewrite Hold in Hall.
  assert (Hw' : NoDup (wraps id ++ concat (map wraps rest))) by (eapply NoDup_Permutation_proper; [|exact Hw]; symmetry; exact (concat_wraps_perm _ _ Hold)).
  eexists _, (delete i ids). split; [exact Hcall|].
  split; cbn [service client driver ring contexts lose acceptedRequests lostCallbacks]; [done|exact Hregs|exact Hnd| | |by intros _; apply Hrun|].
  - rewrite Hnew. destruct (full _); [done|by constructor].
  - eapply NoDup_Permutation_proper; [exact (concat_wraps_perm _ _ Hnew)|]. destruct (full _); cbn [app map concat]; [by apply NoDup_app in Hw' as (_ & _ & ?)|by rewrite Hwid].
  - rewrite Hall, Hnew. cbn [map]. destruct (full _); cbn [app map]; [|rewrite Heid, app_nil_r; done].
    solve_Permutation.
Qed.

(** ** A turn of the client's thread *)

Lemma runCallback_ok c id : valid (userData c) id ->
  exists c' call, runCallback translate c id ⇓ c' /\ calls c' = calls c ++ [call] /\ called call = essence (userData c) id /\
    handler c' = handler c /\ userData c' = foldr delete (userData c) (wraps id).
Proof.
  intros (_ & (k & Hk & _) & Hw). unfold runCallback, essence. unfold wraps in *. unfold kindOf in *. rewrite Hk in *.
  destruct k; cbn [wrapped] in *;
    try (destruct (Hw (cb_data id)) as [u Hu]; [by apply list_elem_of_singleton|]; unfold unwrapUserData; rewrite Hu; cbn [mbind res_bind]);
    (eexists _, _; split; [reflexivity|]; by repeat split).
Qed.

Lemma handle_delivered s g ids : delivered s g ids -> peekEmpty (ring (service s)) = false ->
  exists c r, handleCallback translate (client s) (ring (service s)) ⇓ (c, r) /\
    delivered (mkWorld (set_callbackRing (service s) r) c (driver s)) g ids.
Proof.
  intros [[Hi Hb] Hh Hn Hv Hw Hrun Hall] He.
  destruct (pop_correct (ring (service s)) (inv_ok _ Hi) He) as (x & Hx & _ & Hq & _ & Hok & Hcnt & Htl & Hcap & Hbc).
  assert (Hi' : inv (fst (pop (ring (service s))))).
  { destruct Hi as [I1 I2 I3 I4 I5 I6]. destruct Hok as (O1 & O2 & O3). constructor; rewrite ?Hbc, ?Htl, ?Hcap, ?Hcnt in *; lia || done. }
  set (r := fst (pop (ring (service s)))) in *. rewrite Hq in Hv, Hw, Hrun, Hall. cbn [app] in *. apply Forall_cons in Hv as [Hvx Hv].
  destruct (runCallback_ok (client s) x Hvx) as (c & call & Hrc & Hca & Hce & Hhc & Hud). unfold handleCallback, takeCallback. rewrite He, Hx.
  cbn [mbind res_bind]. fold r. destruct Hvx as [Hfx _]. rewrite (proj2 (Z.eqb_neq _ _) Hfx), Hrc. cbn [mbind res_bind].
  exists c, r. split; [done|]. cbn [map concat] in Hw. apply NoDup_app in Hw as (_ & Hdisj & Hw).
  assert (Hkeep : forall y, y ∈ queue r ++ ids -> valid (userData (client s)) y -> valid (userData c) y /\ essence (userData c) y = essence (userData (client s)) y).
  { intros y Hy (V1 & V2 & V3). assert (Hl : forall w, w ∈ wraps y -> userData c !! w = userData (client s) !! w).
    { intros w Hin. rewrite Hud. assert (Hno : w ∉ wraps x).
      { intros Hin'. apply (Hdisj w Hin'). apply list_elem_of_In, in_concat. exists (wraps y). split; [|by apply list_elem_of_In].
        by apply list_elem_of_In, list_elem_of_fmap_2. }
      clear -Hno. induction (wraps x) as [|z lz IH]; [done|]. cbn. apply not_elem_of_cons in Hno as [? Hno].
      rewrite lookup_delete_ne by done. by apply IH. }
    split; [split_and!; [done|done|]; intros w Hin; rewrite Hl by done; by apply V3|]. unfold essence, wraps in *.
    destruct (kindOf y) as [k|]; [|done]. destruct (wrapped k); [|done]. rewrite Hl; [done|]. by apply list_elem_of_singleton. }
  rewrite Forall_forall in Hv. split; cbn [service client driver ring set_callbackRing]; [split; [done|by rewrite Hbc]|exact Hh|exact Hn| |exact Hw| |].
  - apply Forall_forall. intros y Hy. by apply Hkeep; [|apply Hv].
  - rewrite Hhc. intros _. by apply Hrun.
  - assert (E : map (essence (userData (client s))) (queue r ++ ids) = map (essence (userData c)) (queue r ++ ids)).
    { apply map_ext_in. intros y Hy%list_elem_of_In. symmetry. by apply Hkeep; [|apply Hv]. }
    rewrite Hall, Hca, map_app. cbn [map]. by rewrite Hce, <- app_assoc, E.
Qed.

(** A turn without a callback ends the thread. *)
Lemma empty_turn c r : peekEmpty r = true -> handleCallback translate c r ⇓ (mkOclClient Finished (userData c) (calls c) (references c), r).
Proof. intros He. unfold handleCallback, takeCallback. by rewrite He. Qed.

Lemma empty_turn_delivered s g ids : delivered s g ids ->
  delivered (mkWorld (set_callbackRing (service s) (ring (service s))) (mkOclClient Finished (userData (client s)) (calls (client s)) (references (client s))) (driver s)) g ids.
Proof. intros [Hr Hh Hn Hv Hw Hrun Hall]. by split. Qed.

Lemma step_delivered x y : step x y -> (exists ids, delivered x.1 x.2 ids) -> exists ids, delivered y.1 y.2 ids.
Proof.
  intros Hs [ids Hd]. destruct Hs as [s g rq a w accepted Hp Ha0 Ha Hw0 Hw|s g i reg k program svm known freed sv Hi Hk Hc|s g c r Hr Hc]; cbn [fst snd] in *.
  - by apply (register_delivered s g ids).
  - destruct (call_delivered s g ids i reg k program svm known Hd Hi Hk) as (sv' & ids' & Hc' & Hd'). rewrite Hc in Hc'. injection Hc' as _ <-.
    by exists ids'.
  - exists ids. destruct (peekEmpty (ring (service s))) eqn:He.
    + rewrite (empty_turn _ _ He) in Hc. injection Hc as <- <-. by apply empty_turn_delivered.
    + destruct (handle_delivered s g ids Hd He) as (c' & r' & Hc' & Hd'). rewrite Hc in Hc'. by injection Hc' as <- <-.
Qed.

(** Before any request, with a ring as it is after the channel's initialization. *)
Definition newWorld (d : list CallbackIdT) (cap head tail it : Z) : World :=
  mkWorld (mkCallbacks ∅ 0 (reset (mkRing d cap head tail 0 it))) newClient [].

Definition emptyLedger : Ledger := mkLedger [] [].

Lemma reachable_delivered d cap head tail it s g : 1 <= cap -> Z.of_nat (length d) = cap ->
  rtc step (newWorld d cap head tail it, emptyLedger) (s, g) -> exists ids, delivered s g ids.
Proof.
  intros Hc Hl Hr. change (exists ids, delivered (s, g).1 (s, g).2 ids). revert Hr.
  assert (H0 : exists ids, delivered (newWorld d cap head tail it, emptyLedger).1 (newWorld d cap head tail it, emptyLedger).2 ids).
  { exists []. destruct (reset_inv d cap head tail it Hc Hl) as (Hi & Hq & _). split; cbn [fst snd newWorld service client driver ring newClient handler calls userData];
      rewrite ?Hq; cbn; [done|constructor|constructor|constructor|constructor|done|done]. }
  revert H0. generalize (newWorld d cap head tail it, emptyLedger). intros x H0 Hr. induction Hr as [|x y z Hs _ IH]; [exact H0|].
  apply IH. by apply (step_delivered x).
Qed.

(** C40: every callback is called once, waits or was lost.  In every run of accepted and
    refused requests that are proper, calls of the driver one at a time in any order and turns
    of the client's thread, the accepted requests are the calls that the application got,
    together with one for each notification in the ring and each registration of the driver,
    and those that were lost because the ring was full.  The driver can call each
    registration; the call puts one notification into the ring unless it is full.  If anything
    waits, the thread has been started.  While it runs, its next turn reads no memory that
    was freed: it makes one more call and runs on, or ends without a call if the ring is
    empty. *)
Theorem callbacks_run_once d cap head tail it s g : 1 <= cap -> Z.of_nat (length d) = cap ->
  rtc step (newWorld d cap head tail it, emptyLedger) (s, g) ->
  (exists waiting, acceptedRequests g ≡ₚ map called (calls (client s)) ++ waiting ++ lostCallbacks g /\
     length waiting = (length (queue (ring (service s))) + length (driver s))%nat /\
     (waiting <> [] -> handler (client s) <> NotEnabled)) /\
  (forall i reg program svm known, driver s !! i = Some reg ->
     exists k sv, wrapper reg = Some k /\ callWrapper (service s) k (user_data reg) program svm known ⇓ ([], sv) /\
       length (queue (ring sv)) = (length (queue (ring (service s))) + if full (ring (service s)) then 0 else 1)%nat) /\
  (handler (client s) = Running ->
     exists c r, handleCallback translate (client s) (ring (service s)) ⇓ (c, r) /\
       if peekEmpty (ring (service s)) then handler c = Finished /\ calls c = calls (client s)
       else handler c = Running /\ length (calls c) = S (length (calls (client s)))).
Proof.
  intros Hcap Hl Hr. destruct (reachable_delivered _ _ _ _ _ _ _ Hcap Hl Hr) as [ids Hd]. pose proof Hd as [[Hi Hb] Hh Hn Hv Hw Hrun Hall].
  split; [|split].
  - eexists. split; [exact Hall|]. split; [by rewrite length_map, length_app, (Forall2_length _ _ _ Hh)|].
    intros Hne. apply Hrun. intros E. by rewrite E in Hne.
  - intros i reg program svm known Hreg. destruct (Forall2_lookup_l _ _ _ _ _ Hh Hreg) as (id & Hid & Hwr & Hctx).
    assert (Hvid : valid (userData (client s)) id).
    { rewrite Forall_forall in Hv. apply Hv, elem_of_app. right. by apply list_elem_of_lookup_2 with i. }
    destruct Hvid as (V1 & (k & Hk & V2) & V3). exists k.
    destruct (callWrapper_ok (service s) (userData (client s)) k (user_data reg) id program svm known Hctx Hk) as (r' & id' & Hc & Hq & _);
      [split_and!; [done|by exists k|done]|done..|]. eexists. split; [by rewrite Hwr|]. split; [exact Hc|]. cbn [ring]. rewrite Hq, length_app. by destruct (full _).
  - intros Hrn. destruct (peekEmpty (ring (service s))) eqn:He; [by eexists _, _; split; [exact (empty_turn _ _ He)|]|].
    destruct (handle_delivered s g ids Hd He) as (c & r & Hc & Hd'). exists c, r. split; [done|].
    destruct (pop_correct (ring (service s)) (inv_ok _ Hi) He) as (x & Hx & _ & Hqx & _). rewrite Hqx in Hv. cbn [app] in Hv. apply Forall_cons in Hv as [Hvx _].
    destruct (runCallback_ok (client s) x Hvx) as (c' & call & Hrc & Hca & _ & Hhc & _). unfold handleCallback, takeCallback in Hc. rewrite He, Hx in Hc.
    cbn [mbind res_bind] in Hc. rewrite (proj2 (Z.eqb_neq _ _) (proj1 Hvx)), Hrc in Hc. cbn [mbind res_bind] in Hc. injection Hc as <- _.
    rewrite Hhc, Hca, length_app. cbn. split; [done|lia].
Qed.

End delivery.

(** The witness of the theorem: the ring has one slot to use.  Two callbacks of events are
    registered and called by the driver, the second one while the ring is full; the client's
    thread takes the first, then its wait returns without a callback. *)
Definition exampleRequest : Request := mkRequest ClSetEventCallback 10 20 30 0 (0, 0) 0.
Definition otherRequest : Request := mkRequest ClSetEventCallback 11 21 31 0 (0, 0) 0.
Definition exampleStart : World := newWorld (replicate 2 emptyCallback) 2 5 7 0.
Definition exampleRegistered : World := register (fun h => h) exampleStart exampleRequest 100 200 true.
Definition bothRegistered : World := register (fun h => h) exampleRegistered otherRequest 101 201 true.
Definition afterCall (s : World) (a : Z) : World :=
  match callWrapper (service s) ClSetEventCallback a 0 None true with
  | Ret (_, sv) => mkWorld sv (client s) (drop 1 (driver s))
  | _ => s
  end.
Definition afterTurn (s : World) : World :=
  match handleCallback (fun h => h) (client s) (ring (service s)) with
  | Ret (c, r) => mkWorld (set_callbackRing (service s) r) c (driver s)
  | _ => s
  end.
Definition bothCalled : World := afterCall (afterCall bothRegistered 100) 101.
Definition exampleEnd : World := afterTurn (afterTurn bothCalled).
Definition exampleLedger : Ledger := mkLedger [requested exampleRequest; requested otherRequest] [requested otherRequest].

Lemma callbacks_run_once_witness :
  calls (client exampleEnd) = [mkCall ClSetEventCallback 20 10 30 [0]] /\ handler (client exampleEnd) = Finished /\
  exists waiting, [requested exampleRequest; requested otherRequest] ≡ₚ map called (calls (client exampleEnd)) ++ waiting ++ [requested otherRequest] /\
    length waiting = 0%nat.
Proof.
  split; [vm_compute; reflexivity|]. split; [vm_compute; reflexivity|].
  assert (Hr : rtc (step (fun h => h)) (exampleStart, emptyLedger) (exampleEnd, exampleLedger)).
  { eapply rtc_l; [apply (step_register _ _ _ exampleRequest 100 200 true); vm_compute; congruence|].
    eapply rtc_l; [apply (step_register _ _ _ otherRequest 101 201 true); vm_compute; congruence|].
    eapply rtc_l; [apply (step_call _ _ _ 0 (mkReg (Some ClSetEventCallback) 100) ClSetEventCallback 0 None true [] (service (afterCall bothRegistered 100))); vm_compute; reflexivity|].
    eapply rtc_l; [apply (step_call _ _ _ 0 (mkReg (Some ClSetEventCallback) 101) ClSetEventCallback 0 None true [] (service bothCalled)); vm_compute; reflexivity|].
    eapply rtc_l; [apply (step_handle _ _ _ (client (afterTurn bothCalled)) (ring (service (afterTurn bothCalled)))); vm_compute; reflexivity|].
    eapply rtc_l; [apply (step_handle _ _ _ (client exampleEnd) (ring (service exampleEnd))); vm_compute; reflexivity|].
    apply rtc_refl. }
  destruct (callbacks_run_once (fun h => h) (replicate 2 emptyCallback) 2 5 7 0 exampleEnd _ ltac:(lia) eq_refl Hr) as [(waiting & H & Hlen & _) _].
  exists waiting. split; [exact H|]. exact Hlen.
Defined.

(** * What the code does outside these conditions *)

(** A function without data for [clBuildProgram] is legal: the driver's call reads a context
    at null.  The same holds of [clCompileProgram] and [clLinkProgram]. *)
Theorem building_without_data_reads_null translate s rq a w k : rq_kind rq = k -> k ∈ [ClBuildProgram; ClCompileProgram; ClLinkProgram] ->
  rq_pfn rq <> 0 -> rq_data rq = 0 -> contexts (service s) !! 0 = None ->
  let s' := register translate s rq a w true in
  exists reg, driver s' = driver s ++ [reg] /\ wrapper reg = Some k /\ forall program svm known,
    callWrapper (service s') k (user_data reg) program svm known = Undef.
Proof.
  intros Hk Hin Hp%Z.eqb_neq Hd Hnull. unfold register, clientBefore, serviceHandler, clientAfter, wrapUserData. rewrite Hk.
  assert (k = ClBuildProgram \/ k = ClCompileProgram \/ k = ClLinkProgram) as [-> | [-> | ->]] by set_solver;
    cbn [originalUserData]; rewrite Hd; cbn [Z.eqb]; unfold clBuildProgramHandler, clCompileProgramHandler, clLinkProgramHandler;
    rewrite Hp; cbn; (eexists; split_and!; [reflexivity|reflexivity|]); intros program svm known;
    unfold clBuildProgramCallbackWrapper, clCompileProgramCallbackWrapper, CallbackWrapper, clLinkProgramCallbackWrapper, readContext;
    cbn; by rewrite Hnull.
Qed.

Lemma building_without_data_reads_null_witness :
  callWrapper (service (register (fun h => h) exampleStart (mkRequest ClBuildProgram 10 20 0 0 (0, 0) 0) 100 200 true)) ClBuildProgram 0 0 None true = Undef.
Proof.
  destruct (building_without_data_reads_null (fun h => h) exampleStart (mkRequest ClBuildProgram 10 20 0 0 (0, 0) 0) 100 200 ClBuildProgram eq_refl
    ltac:(by apply list_elem_of_here) ltac:(done) eq_refl eq_refl) as (reg & Hd & _ & H). cbn in Hd. injection Hd as <-. apply H.
Defined.

(** The second context that is made with a function frees what the driver has for the first
    one. *)
Theorem second_context_frees_first s a b p q d e h h' : p <> 0 -> q <> 0 -> a <> 0 -> a <> b -> contextNotify s <> a ->
  let (reg, s1) := clCreateContextRegistration ClCreateContext s a p d in
  let s2 := clCreateContextFinished s1 reg h in
  let (reg', s3) := clCreateContextRegistration ClCreateContext s2 b q e in
  is_Some (contexts s2 !! a) /\ clCreateContextCallbackWrapper (clCreateContextFinished s3 reg' h') a = Undef.
Proof.
  intros Hp%Z.eqb_neq Hq%Z.eqb_neq Ha%Z.eqb_neq Hab Hold. unfold clCreateContextRegistration. rewrite Hp, Hq.
  set (s2 := clCreateContextFinished _ _ h).
  assert (H2 : contexts s2 !! a = Some (mkCallbackId p h d (callId ClCreateContext) 0) /\ contextNotify s2 = a).
  { subst s2. unfold clCreateContextFinished, newContext, assignToCallbackContextForContextNotify. cbn. rewrite lookup_insert_eq. cbn. split; [|done].
    destruct (contextNotify s =? 0); [|rewrite lookup_delete_ne by done]; by rewrite lookup_insert_eq. }
  destruct H2 as [H2 Hn]. clearbody s2. split; [by eexists|].
  unfold clCreateContextFinished, newContext, assignToCallbackContextForContextNotify, clCreateContextCallbackWrapper, readContext. cbn.
  rewrite lookup_insert_eq. cbn. by rewrite Hn, Ha, lookup_delete_eq.
Qed.

(** A wait that returns without a callback, as one that a signal interrupts does, ends the
    client's thread, and it is not started again: no later callback is taken. *)
Theorem empty_wait_ends_handler translate c r : peekEmpty r = true ->
  exists c', handleCallback translate c r ⇓ (c', r) /\ handler c' = Finished /\ handler (enableCallbacksHandler c') = Finished.
Proof. intros He. unfold handleCallback, takeCallback. rewrite He. cbn. by eexists. Qed.

Lemma empty_wait_ends_handler_witness : exists c', handleCallback (fun h => h) newClient (ring (service exampleStart)) ⇓ (c', ring (service exampleStart)) /\ handler c' = Finished.
Proof. destruct (empty_wait_ends_handler (fun h => h) newClient (ring (service exampleStart)) eq_refl) as (c' & H1 & H2 & _). by exists c'. Defined.

(** [clEnqueueSVMFree] with a function and without data: the client's thread reads wrapped
    data at null. *)
Theorem svm_free_without_data_reads_null translate c r rest h f : peekEmpty r = false -> peekHead r ⇓ mkCallbackId f h 0 (callId ClEnqueueSVMFree) rest ->
  f <> 0 -> userData c !! 0 = None -> handleCallback translate c r = Undef.
Proof.
  intros He Hh Hf%Z.eqb_neq Hu. unfold handleCallback, takeCallback. rewrite He, Hh. cbn. rewrite Hf. unfold runCallback, unwrapUserData. cbn. by rewrite Hu.
Qed.

(** A full ring: the callback is lost, with the context that stood for it. *)
Theorem full_ring_loses_callback s a id : contexts s !! a = Some id -> inv (ring s) -> full (ring s) = true ->
  exists s', CallbackWrapper s a ⇓ s' /\ queue (ring s') = queue (ring s) /\ contexts s' !! a = None.
Proof.
  intros Ha Hi Hf. destruct (push_correct (ring s) id false Hi) as (r' & ok & Hp & -> & _ & _ & _ & Hq).
  unfold CallbackWrapper, readContext, pushCompletedCallbackId. rewrite Ha. cbn [mbind res_bind deleteContext set_contexts ring]. rewrite Hp. cbn [mbind res_bind].
  rewrite Hf in Hq. cbn in Hq. eexists. split; [reflexivity|]. cbn. split; [|apply lookup_delete_eq]. by unfold pushed in Hq; destruct Hq.
Qed.

(** A request that the driver refuses leaves its context allocated; and a refused request for
    a context's destructor still takes a reference of the context, which no callback gives
    up. *)
Theorem refused_request_leaks translate s rq a w : proper rq = true -> a <> 0 -> w <> 0 ->
  is_Some (contexts (service (register translate s rq a w false)) !! a) /\ driver (register translate s rq a w false) = driver s /\
  (rq_kind rq = ClSetContextDestructorCallback -> references (client (register translate s rq a w false)) = references (client s) ++ [(translate (rq_object rq), true)]).
Proof.
  intros Hp Ha Hw. destruct (register_proper translate s rq a w false Hp Hw) as (id & c & Hs & _ & Hd & _).
  rewrite Hs, Hd. split; [cbn; rewrite lookup_insert_eq; by eexists|]. split; [done|].
  intros Hk. unfold register, clientBefore, serviceHandler, clientAfter. by rewrite Hk.
Qed.
